(* ===== verification/_CoqProject ===== *)
-Q . S2P
Prelude.v
Slice.v
Buff.v
Charset.v
Latin1.v
Copy.v
Collation.v
Field.v
Placement.v
Store.v
Codec.v
Packing.v
VarFormat.v
SpacePad.v
Varchar.v
KeySetup.v
KeyDef.v
KeyOrder.v
Index.v
KeyRead.v
PkTuple.v
Neighbour.v
Double.v
Real.v
EloqKey.v
Restore.v
RoundTrip.v
Layout.v
KeyTuple.v
Row.v
Temporal.v
Dates.v
Decimal.v
DecimalRead.v
Entry.v
Hidden.v
Handler.v
Consistency.v
Tables.v
Statements.v
Bulk.v
BulkRows.v
Scan.v
Read.v
Cursor.v
ScanRows.v
Backfill.v
IndexScan.v
SkScan.v
SkRows.v
ScanErrors.v
Mrr.v
Session.v
Transactions.v
