(* ===== verification/Prelude.v ===== *)
(** * Verification of the storage engine of EloqSQL

    EloqSQL is a MariaDB server with a storage engine, src/storage/eloq, whose
    tables live in a distributed transactional key-value store.  A row is
    stored under its primary key, and every secondary index maps a key to the
    primary key of a row.  The store orders keys as byte strings, so that the
    engine has to encode the columns of an index such that byte order is SQL
    order, has to find the columns again in a key it reads, turns a search into
    a range of keys, and keeps base table and indexes consistent when rows
    change.  This library models these parts of the engine and proves them
    correct.

    ** Parts of the program and the files that model them

    - [Slice] (slice.h, slice.cc): views of byte strings.
    - [Buff] (eloq_buff.h): stores and loads in network order, the string
      reader and writer, the bit reader and writer.
    - [Charset], [Latin1], [Copy] (src/strings): conversion between characters
      and code points, weights of strings, trimming of trailing spaces, the
      tables of the 8-bit character sets, and copying with repair of
      ill-formed strings.
    - [Collation] (src/strings, m_ctype.h): the comparison functions of
      latin1, utf8mb3, utf8mb4, binary and the simple collations; the class
      [PadSpace] states what a collation promises to the key encoders.
    - [Field] (sql/field.cc, sql/field.h, sql/filesort.cc): columns in the
      record buffer, NULL flags, sort keys and comparison.  [Placement]: where
      columns lie in a record and what a write to one leaves of the others.
      [Store]: storing strings; the class [Storable] is what it needs of a
      character set.
    - [Codec] (eloq_key_def.cc, my_bit.h): what is stored beside the key to
      restore strings of simple collations.
    - [Packing] (eloq_key_def.cc, eloq_key_def.h): [mono_field_packing] and
      its pack, unpack, skip and make-unpack-info functions.
    - [VarFormat], [SpacePad], [Varchar]: the two variable-length encodings
      and VARCHAR columns.
    - [KeySetup]: [mono_field_packing::setup], the choice of the functions.
    - [KeyDef]: [mono_key_def]: the setup of an index, [pack_record],
      [unpack_record], and the functions on packed keys.
    - [KeyOrder], [Index]: the order of the keys of an index.
    - [KeyRead], [PkTuple], [Neighbour]: the functions on packed keys: their
      parts, their length, the primary key inside, successor and predecessor.
    - [Double], [EloqKey] (eloqsql_key.h): keys and records of the transaction
      service, their order with infinities, their serialization, and the
      position of a key in a range in IEEE arithmetic.
    - [Real] (sql/field.cc, sql/mysqld.cc): [val_real] and [store] of FLOAT and
      DOUBLE columns and [truncate_double], in IEEE arithmetic.
    - [Restore], [RoundTrip], [Layout]: reading rows back from keys.
    - [KeyTuple] (sql/key.cc, sql/table.cc): the key tuples of the SQL layer.
    - [Row] (eloqsql_schema.cpp): the columns outside of the primary key.
    - [Temporal] (sql/compat56.cc): the packed and the binary forms of TIME,
      DATETIME and TIMESTAMP; [Dates] (date.h, eloqsql_schema.cpp): the civil
      calendar, and the conversion of stored dates and times into the counts of
      days and microseconds that the data store has.
    - [Decimal], [DecimalRead] (src/strings/decimal.c): [decimal2bin], its
      bytes and their order, and [bin2decimal].
    - [Entry], [Hidden] (ha_eloq.cc): the entries of ordinary and of unique
      indexes, for tables with a primary key and with a hidden one.
    - [Handler] (ha_eloq.cc): [write_row], [update_row] and [delete_row] as
      functions on the state of the handler and of the transaction service,
      which is the class [TxService]; [Consistency]: the laws of the service
      ([TxLaws]), what the statements need of index entries ([Entries]), and
      consistency of rows and entries; [Tables]: the tables whose index
      definitions provide [Entries]; [Statements]: sequences of statements.
    - [Bulk] (ha_eloq.cc): inserting many rows: [start_bulk_insert],
      [BulkInsert], [BulkUniqueCheck] and [end_bulk_insert], and [write_row]
      with both of its paths; the requests are the class [BulkService].
      [BulkRows]: their laws ([BulkLaws]) and theorems.
    - [Scan] (ha_eloq.cc): [PrepareScan], the range of keys of a search.
    - [Read] (ha_eloq.cc): point lookups: [rnd_pos], [index_read_map] with a
      whole key on the primary and on a unique index, and [DecodeRecord].
    - [Cursor] (ha_eloq.cc): scans of the base table and of indexes, as
      functions on the state of the handler's scan: opening and closing,
      batches of tuples, merging with a data store scanner, pushed conditions,
      and the rows of index entries.  The requests are the class
      [ScanService], the data store scanner the class [DataStoreScanner].
      [ScanRows]: their laws, and scans of the base table; [IndexScan]: ranges
      of the primary index; [SkScan], [SkRows]: ranges of secondary indexes;
      [ScanErrors]: where scans do not do what the server relies on.
    - [Backfill] (eloqsql_catalog_factory.cpp): [MysqlSkEncoder], which makes
      the entries of an index that is added to a table from the rows that the
      table has.
    - [Mrr] (ha_eloq.cc): [batch_load_records] and [batch_get_record], which
      read the rows of a batch of positions.
    - [Session] (ha_eloq.cc, ha_eloq.h, sql/handler.cc, sql/transaction.cc):
      the transaction of a connection: [external_lock], [start_stmt],
      [eloq_commit], [eloq_rollback], and when the SQL layer calls them; the
      service is the class [LifeService].  [Transactions]: its laws
      ([LifeLaws]), sequences of statements, BEGIN, COMMIT and ROLLBACK as a
      step relation, and the machine that it refines.

    ** How the code is modelled

    A byte is a [Z] in [0, 256) and a buffer a list of bytes; the widths of C
    integers are written out where they matter.  A pointer into a buffer that
    is read or written sequentially is the rest of the buffer.  A function
    that may fail returns an option; [None] is the error return, or, in the
    handler, a failed assertion.  A record is the list of its bytes, and a
    column reads it from its offset [ptr] on.  Loops that are not structural
    carry fuel, always the length of what they consume or a width that the
    code fixes, and the theorems show
    that it is enough: they state the result, not only what holds of a result.
    [dbug] says whether the assertions of the server are compiled in, where a
    value can fail them.
    [mem] maps the pointer of a BLOB to the bytes it points to, [uninit] is
    what the memory for the parts of an index holds before their setup.

    The transaction service is not part of the sources: its calls are the
    fields of a class, and the theorems hold for every instance with the laws
    that reads see the writes of the transaction, that a successful write is
    seen, and that [TxRevert] takes a pending write back.  A scan returns what
    the transaction sees in its range, in batches, and tuples that are marked
    as deleted; a batch read returns the rows it is asked for.  A checked write
    reports a key that the transaction has written before, and a batch read of
    the store tells which keys are committed.  A commit that succeeds
    makes all writes of a transaction durable, a commit that fails all or none,
    as its outcome may be unknown, and an abort none.  Stores made of finite maps
    satisfy these laws.  The fuel of a scan bounds the tuples
    that one call reads; the theorems give a bound that is enough.

    ** What the theorems show

    The order of packed keys is the order of the records, and a key of the
    first columns is a prefix of exactly the keys that agree on them
    ([Index]); unpacking a packed record restores the columns ([Layout]); the
    functions on packed keys find the parts, the primary key and the
    neighbours of a key ([KeyRead], [PkTuple], [Neighbour]); the keys in the
    range of a search are those of the rows it asks for ([Scan]).  Keys of the
    transaction service are totally ordered and survive serialization
    ([EloqKey]); rows and key tuples read back ([Row], [KeyTuple]); stored
    decimals, dates and times read back and compare as their values ([Dates],
    [DecimalRead]); entries of
    unique indexes identify rows ([Entry]); and every sequence of statements
    keeps base table and indexes consistent ([Statements]), provided that a
    primary key that is not looked up is new and that a refused row has no
    unique key whose committed entry the transaction has deleted.  A lookup by
    position, by primary key or by unique key returns the row that was
    written, or reports that there is none ([Read]).  A scan of the table
    returns every row once, and a scan of an index the rows that the search
    asks for, in the order of the index; all of them reach their end
    ([ScanRows], [IndexScan], [SkRows]); a batch of positions returns the rows
    that are still there, in order ([Mrr]).  The entries that a new index gets
    for the rows of a table are those that the handler writes for them
    ([Backfill]).  When an insertion of many rows
    whose keys are checked reports success, it has added them all and none was
    a duplicate, although it looks for duplicates only afterwards ([BulkRows]).
    A connection makes exactly the writes durable that its statements, BEGIN,
    COMMIT and ROLLBACK ask for, where a commit that fails may have made all of
    its writes durable, and leaves no transaction behind ([Transactions]).  The codecs of simple
    collations invert the weights ([Codec]); the search for trailing spaces
    equals its plain definition ([Charset]); the hexadecimal text of a
    slice reads back ([Slice]).  Some theorems prove that the code does not do
    what it means to: a wrapping successor, unique indexes that contain the
    primary key, three kinds of updates, a refused row that brings a deleted
    index entry back ([Statements]), conditions that a unique index does
    not check, errors that end a scan ([ScanErrors]), two overruns of the
    buffers of a bulk insertion ([BulkRows]), and a failed statement that takes
    the writes of its transaction along ([Transactions]); examples show a zero
    date that a load changes ([Dates]), decimal digits that are not checked
    ([DecimalRead]), a SET column that overwrites its neighbour ([Row]), a
    position in a range without an upper end ([EloqKey]), and a commit that
    fails and is durable ([Transactions]).

    ** What the theorems leave out

    The theorems on keys are about the columns that [supported] of [Index]
    describes: the types of a fixed size, and VARCHAR and VARBINARY columns that
    are indexed in their full length.  The engine also indexes CHAR and BINARY
    columns, prefixes of columns, and with these BLOB and TEXT columns: their
    packing functions and their setup are modelled, the order of their keys is
    not proved.  Reading a value back from a key further leaves out BIT
    ([readable_column]).  The theorem on rows covers CHAR, BLOB and TEXT columns;
    it asks that a column of a copied type has the same size in the record and
    in the payload, which a SET of 17 to 24 members has not, and that a FLOAT or
    DOUBLE value is one that [store] keeps.  Scans and lookups are verified for
    at least one requested column; those by a secondary index for tables with a
    primary key, without multi-range reads and for indexes that do not cover the
    query, and the pushed condition is the one on what the index entry holds;
    positions and batches of positions for tables with a primary key.  The
    definitions cover the other cases too.

    ** What is not modelled

    The transaction service and its log are separate repositories.  Of the
    handler, DDL, [store_lock], auto-increment, statistics,
    [records_in_range], the pushdown of conditions to the store and start-up
    are left out, and so is the catalog but for the number of an index and the
    entries of a new one; of transactions, savepoints, XA and the binary log.
    The entries of a new index are verified for ordinary indexes on stored
    columns, for tables with a primary key and with a hidden one.  Of decimals, arithmetic and text
    are left out, and the theorem is about numbers that fit the column; that of
    TIME is about values without digits beyond the stored ones.  The SQL layer,
    the other storage engines, clients, plugins and operating-system wrappers
    of MariaDB are outside of this development, apart from the columns,
    collations, key tuples and calls of the engine above. *)

(** ** Bytes, byte order and mem-comparable encodings *)

From Stdlib Require Export ZArith Lia.
From stdpp Require Export base list numbers.

Declare Scope bytes_scope.
Delimit Scope bytes_scope with bytes.
Open Scope Z_scope.

(** ** Bytes

    A [uchar] is a [Z] in [0, 256); a buffer is a list of them. *)

Abbreviation bytes := (list Z).

(** [lia] with division and modulo by constants. *)
Ltac dlia := intros; cbn; zify; Z.to_euclidean_division_equations; lia.

Definition byte_ok (b : Z) : Prop := 0 <= b < 256.

#[export] Instance byte_ok_dec b : Decision (byte_ok b).
Proof. unfold byte_ok. apply _. Defined.

Definition bytes_ok (l : bytes) : Prop := Forall byte_ok l.

#[export] Instance bytes_ok_dec l : Decision (bytes_ok l).
Proof. unfold bytes_ok. apply _. Defined.

(** Truncation to the C integer types the sources use. *)
Definition uchar_of (z : Z) : Z := z mod 256.
Definition ushort_of (z : Z) : Z := z mod 2 ^ 16.
Definition uint_of (z : Z) : Z := z mod 2 ^ 32.
Definition ulonglong_of (z : Z) : Z := z mod 2 ^ 64.
(** Two's complement reading of an [n]-bit pattern. *)
Definition signed_of (n z : Z) : Z :=
  if z mod 2 ^ n <? 2 ^ (n - 1) then z mod 2 ^ n else z mod 2 ^ n - 2 ^ n.

Create HintDb bytes.

Lemma signed_of_small n z : 0 < n -> 0 <= z < 2 ^ (n - 1) -> signed_of n z = z.
Proof.
  intros Hn Hz. assert (2 ^ n = 2 * 2 ^ (n - 1)) as He by (rewrite <- Z.pow_succ_r; f_equal; lia).
  unfold signed_of. rewrite Z.mod_small by lia. destruct (Z.ltb_spec z (2 ^ (n - 1))); lia.
Qed.

Lemma signed_of_id n z : 0 < n -> - 2 ^ (n - 1) <= z < 2 ^ (n - 1) -> signed_of n z = z.
Proof.
  intros Hn Hz. destruct (Z.le_gt_cases 0 z); [apply signed_of_small; lia|].
  assert (2 ^ n = 2 * 2 ^ (n - 1)) as He by (rewrite <- Z.pow_succ_r; f_equal; lia).
  unfold signed_of. rewrite <- (Z.mod_add _ 1), Z.mod_small by lia.
  destruct (Z.ltb_spec (z + 1 * 2 ^ n) (2 ^ (n - 1))); lia.
Qed.

Lemma mod_mul_div t a b : 0 < a -> 0 < b -> t mod (a * b) / a = (t / a) mod b.
Proof.
  intros Ha Hb. rewrite Z.rem_mul_r, (Z.mul_comm a), Z.div_add by lia.
  rewrite (Z.div_small (t mod a)); [done|]. apply Z.mod_pos_bound. lia.
Qed.

Lemma bytes_ok_nil : bytes_ok [].
Proof. constructor. Qed.

Lemma bytes_ok_cons b l : bytes_ok (b :: l) <-> byte_ok b /\ bytes_ok l.
Proof. unfold bytes_ok. apply Forall_cons_iff. Qed.

Lemma bytes_ok_app l k : bytes_ok (l ++ k) <-> bytes_ok l /\ bytes_ok k.
Proof. unfold bytes_ok. apply Forall_app. Qed.

Lemma bytes_ok_take n l : bytes_ok l -> bytes_ok (take n l).
Proof. apply Forall_take. Qed.

Lemma bytes_ok_drop n l : bytes_ok l -> bytes_ok (drop n l).
Proof. apply Forall_drop. Qed.

Lemma bytes_ok_rev l : bytes_ok l -> bytes_ok (reverse l).
Proof. unfold bytes_ok. by rewrite Forall_reverse. Qed.

Lemma bytes_ok_replicate n b : byte_ok b -> bytes_ok (replicate n b).
Proof. apply Forall_replicate. Qed.

Lemma uchar_of_ok z : byte_ok (uchar_of z).
Proof. unfold byte_ok, uchar_of. apply Z.mod_pos_bound. lia. Qed.

Lemma uchar_of_id b : byte_ok b -> uchar_of b = b.
Proof. apply Z.mod_small. Qed.

#[export] Hint Resolve bytes_ok_nil bytes_ok_take bytes_ok_drop bytes_ok_rev
  bytes_ok_replicate uchar_of_ok : bytes.
#[export] Hint Extern 3 (bytes_ok (_ ++ _)) => apply bytes_ok_app; split : bytes.
#[export] Hint Extern 3 (bytes_ok (_ :: _)) => apply bytes_ok_cons; split : bytes.
#[export] Hint Extern 5 (byte_ok _) => unfold byte_ok; lia : bytes.

(** Equality of two explicit byte lists, byte by byte. *)
Ltac bytes_dlia := repeat (apply (f_equal2 (@cons Z)); [dlia|]); reflexivity.

(** ** Fixed-width integers as bytes *)

(** Little-endian image of the low [n] bytes of [z] ([int2store] and the
    like, and the memory image of a host integer on x86). *)
Fixpoint le_bytes (n : nat) (z : Z) : bytes :=
  match n with
  | O => []
  | S n => z mod 256 :: le_bytes n (z / 256)
  end.

Fixpoint le_val (l : bytes) : Z :=
  match l with
  | [] => 0
  | b :: l => b + 256 * le_val l
  end.

(** Big-endian image ([mi_int2store], [htobe16] and the like). *)
Fixpoint be_bytes (n : nat) (z : Z) : bytes :=
  match n with
  | O => []
  | S n => (z / 256 ^ Z.of_nat n) mod 256 :: be_bytes n z
  end.

Fixpoint be_val (l : bytes) : Z :=
  match l with
  | [] => 0
  | b :: l => b * 256 ^ Z.of_nat (length l) + be_val l
  end.

Lemma pow256_pos n : 0 < 256 ^ Z.of_nat n.
Proof. apply Z.pow_pos_nonneg; lia. Qed.

Lemma pow256_S n : 256 ^ Z.of_nat (S n) = 256 * 256 ^ Z.of_nat n.
Proof. rewrite Nat2Z.inj_succ, Z.pow_succ_r; lia. Qed.

Lemma length_le_bytes n z : length (le_bytes n z) = n.
Proof. revert z. induction n; intros z; simpl; auto. Qed.

Lemma length_be_bytes n z : length (be_bytes n z) = n.
Proof. induction n; simpl; auto. Qed.

Lemma le_bytes_ok n z : bytes_ok (le_bytes n z).
Proof.
  revert z. induction n as [|n IH]; intros z; simpl; [auto with bytes|].
  apply bytes_ok_cons. split; [apply uchar_of_ok | apply IH].
Qed.

Lemma be_bytes_ok n z : bytes_ok (be_bytes n z).
Proof.
  induction n as [|n IH]; simpl; [auto with bytes|].
  apply bytes_ok_cons. split; [apply uchar_of_ok | apply IH].
Qed.

#[export] Hint Resolve le_bytes_ok be_bytes_ok : bytes.

Lemma le_val_bound l : bytes_ok l -> 0 <= le_val l < 256 ^ Z.of_nat (length l).
Proof.
  induction l as [|b l IH]; intros H; simpl length; [simpl; lia|].
  rewrite pow256_S. cbn [le_val].
  apply bytes_ok_cons in H as [Hb Hl]. specialize (IH Hl). unfold byte_ok in Hb. lia.
Qed.

Lemma be_val_bound l : bytes_ok l -> 0 <= be_val l < 256 ^ Z.of_nat (length l).
Proof.
  induction l as [|b l IH]; intros H; simpl length; [simpl; lia|].
  rewrite pow256_S. cbn [be_val].
  apply bytes_ok_cons in H as [Hb Hl]. specialize (IH Hl). unfold byte_ok in Hb.
  pose proof (pow256_pos (length l)). nia.
Qed.

Lemma le_val_le_bytes n z : le_val (le_bytes n z) = z mod 256 ^ Z.of_nat n.
Proof.
  revert z. induction n as [|n IH]; intros z.
  { cbn. by rewrite Z.mod_1_r. }
  cbn [le_bytes le_val]. rewrite IH, pow256_S.
  pose proof (pow256_pos n). rewrite Z.rem_mul_r by lia. lia.
Qed.

Lemma be_val_be_bytes n z : be_val (be_bytes n z) = z mod 256 ^ Z.of_nat n.
Proof.
  induction n as [|n IH].
  { cbn. by rewrite Z.mod_1_r. }
  cbn [be_bytes be_val]. rewrite length_be_bytes, IH, pow256_S.
  pose proof (pow256_pos n). rewrite (Z.mul_comm 256), Z.rem_mul_r by lia. lia.
Qed.

Lemma le_bytes_le_val l : bytes_ok l -> le_bytes (length l) (le_val l) = l.
Proof.
  induction l as [|b l IH]; intros H; [done|].
  apply bytes_ok_cons in H as [Hb Hl]. simpl length. cbn [le_bytes le_val].
  unfold byte_ok in Hb.
  replace (b + 256 * le_val l) with (le_val l * 256 + b) by lia.
  rewrite Z.div_add_l, (Z.div_small b), Z.add_0_r by lia.
  rewrite Z.add_comm, Z.mod_add, Z.mod_small by lia.
  by rewrite IH.
Qed.

Lemma be_bytes_mod n z k : 0 < k -> be_bytes n (z + k * 256 ^ Z.of_nat n) = be_bytes n z.
Proof.
  revert k. induction n as [|n IH]; intros k Hk; [done|].
  cbn [be_bytes]. pose proof (pow256_pos n) as Hp.
  rewrite pow256_S. f_equal.
  - replace (z + k * (256 * 256 ^ Z.of_nat n)) with (z + (k * 256) * 256 ^ Z.of_nat n) by lia.
    rewrite Z.div_add by lia. by rewrite Z.mod_add by lia.
  - replace (z + k * (256 * 256 ^ Z.of_nat n)) with (z + (k * 256) * 256 ^ Z.of_nat n) by lia.
    apply IH. lia.
Qed.

Lemma be_bytes_app_val n b z :
  0 <= b -> 0 <= z < 256 ^ Z.of_nat n -> be_bytes n (b * 256 ^ Z.of_nat n + z) = be_bytes n z.
Proof.
  intros Hb Hz. destruct (Z.eq_dec b 0) as [->|]; [done|].
  rewrite Z.add_comm. apply be_bytes_mod. lia.
Qed.

Lemma be_bytes_be_val l : bytes_ok l -> be_bytes (length l) (be_val l) = l.
Proof.
  induction l as [|b l IH]; intros H; [done|].
  apply bytes_ok_cons in H as [Hb Hl]. simpl length. cbn [be_bytes be_val].
  pose proof (be_val_bound l Hl) as Hv. pose proof (pow256_pos (length l)).
  unfold byte_ok in Hb. f_equal.
  - rewrite Z.div_add_l, (Z.div_small (be_val l)), Z.add_0_r, Z.mod_small; lia.
  - rewrite be_bytes_app_val, IH; auto; lia.
Qed.

Lemma be_val_app l k :
  be_val (l ++ k) = be_val l * 256 ^ Z.of_nat (length k) + be_val k.
Proof.
  induction l as [|b l IH]; [done|].
  cbn [be_val app]. rewrite IH, length_app, Nat2Z.inj_add, Z.pow_add_r by lia. lia.
Qed.

(** The leading bytes of a big-endian image hold the high part of the number. *)
Lemma be_bytes_split n m z :
  be_bytes (n + m) z = be_bytes n (z / 256 ^ Z.of_nat m) ++ be_bytes m z.
Proof.
  induction n as [|n IH]; [done|]. cbn [be_bytes app Nat.add]. f_equal; [|exact IH].
  pose proof (pow256_pos n). pose proof (pow256_pos m).
  rewrite Z.div_div by lia. do 2 f_equal. rewrite Nat2Z.inj_add, Z.pow_add_r by lia. lia.
Qed.

Lemma be_bytes_low n z : be_bytes n (z mod 256 ^ Z.of_nat n) = be_bytes n z.
Proof.
  pose proof (be_bytes_be_val (be_bytes n z) (be_bytes_ok n z)) as H.
  by rewrite length_be_bytes, be_val_be_bytes in H.
Qed.

(** Two adjacent images are the image of the number made of both. *)
Lemma be_bytes_join n m x y :
  be_bytes n x ++ be_bytes m y = be_bytes (n + m) (x * 256 ^ Z.of_nat m + y mod 256 ^ Z.of_nat m).
Proof.
  pose proof (pow256_pos m) as Hm. pose proof (Z.mod_pos_bound y _ Hm) as Hb.
  rewrite be_bytes_split, Z.div_add_l, (Z.div_small (y mod _)), Z.add_0_r by lia. f_equal.
  rewrite <- (be_bytes_low m (_ + _)), Z.add_comm, Z.mod_add, Z.mod_mod, be_bytes_low by lia. done.
Qed.

Lemma be_bytes_1 z : be_bytes 1 z = [uchar_of z].
Proof. cbn. unfold uchar_of. by rewrite Z.div_1_r. Qed.

(** Reading the parts back: the leading bytes and the fraction. *)
Lemma be_bytes_read n j v rest :
  0 <= v < 256 ^ Z.of_nat (n + j) ->
  be_val (take n (be_bytes (n + j) v ++ rest)) = v / 256 ^ Z.of_nat j /\
  be_val (take j (drop n (be_bytes (n + j) v ++ rest))) = v mod 256 ^ Z.of_nat j.
Proof.
  intros Hv. pose proof (pow256_pos n). pose proof (pow256_pos j).
  rewrite be_bytes_split, <- app_assoc.
  rewrite take_app_length', drop_app_length', take_app_length' by by rewrite length_be_bytes.
  rewrite !be_val_be_bytes. split; [|done]. apply Z.mod_small.
  rewrite Nat2Z.inj_add, Z.pow_add_r in Hv by lia. split.
  - apply Z.div_pos; lia.
  - apply Z.div_lt_upper_bound; lia.
Qed.

Lemma be_val_take_1 n l : (n < length l)%nat -> be_val (take 1 (drop n l)) = nth n l 0.
Proof.
  revert l. induction n as [|n IH]; intros [|b l] H; simpl in *; try lia.
  apply (IH l). lia.
Qed.

Lemma be_val_take_app n m l : (n + m <= length l)%nat ->
  be_val (take (n + m) l) = be_val (take n l) * 256 ^ Z.of_nat m + be_val (take m (drop n l)).
Proof.
  intros H. rewrite <- take_take_drop, be_val_app, length_take, length_drop.
  by replace (m `min` (length l - n))%nat with m by lia.
Qed.

Lemma be_val_reverse l : be_val (reverse l) = le_val l.
Proof.
  induction l as [|b l IH]; [done|].
  rewrite reverse_cons, be_val_app, IH. cbn. lia.
Qed.

Lemma be_bytes_reverse n z : be_bytes n z = reverse (le_bytes n z).
Proof.
  pose proof (be_bytes_be_val (reverse (le_bytes n z))) as H.
  rewrite length_reverse, length_le_bytes, be_val_reverse, le_val_le_bytes in H.
  rewrite <- H by auto with bytes. clear H.
  pose proof (be_bytes_be_val (be_bytes n z)) as H.
  rewrite length_be_bytes, be_val_be_bytes in H. symmetry. apply H. auto with bytes.
Qed.

Lemma le_bytes_inj n x y :
  0 <= x < 256 ^ Z.of_nat n -> 0 <= y < 256 ^ Z.of_nat n ->
  le_bytes n x = le_bytes n y -> x = y.
Proof.
  intros Hx Hy H. apply (f_equal le_val) in H.
  rewrite !le_val_le_bytes, !Z.mod_small in H; lia.
Qed.

(** ** Byte-wise lexicographic order

    [lex_cmp] is the order of [std::string::operator<] on unsigned bytes, and
    of [memcmp] followed by the length test of [Slice::compare]. *)

Definition cmp_then (c d : comparison) : comparison :=
  match c with Eq => d | _ => c end.

Notation "c ;;; d" := (cmp_then c d) (at level 60, right associativity) : bytes_scope.
Open Scope bytes_scope.

Fixpoint lex_cmp (a b : bytes) : comparison :=
  match a, b with
  | [], [] => Eq
  | [], _ :: _ => Lt
  | _ :: _, [] => Gt
  | x :: a, y :: b => (x ?= y) ;;; lex_cmp a b
  end.

(** C's [memcmp(a, b, n)]: [Lt], [Eq], [Gt] for a negative, zero and positive
    result. *)
Definition memcmp (a b : bytes) (n : nat) : comparison :=
  lex_cmp (take n a) (take n b).

Lemma cmp_then_Eq_r c : (c ;;; Eq) = c.
Proof. by destruct c. Qed.

Lemma cmp_then_assoc a b c : ((a ;;; b) ;;; c) = (a ;;; b ;;; c).
Proof. by destruct a. Qed.

Lemma cmp_then_Eq_inv c d : (c ;;; d) = Eq <-> c = Eq /\ d = Eq.
Proof. destruct c; simpl; naive_solver. Qed.

Lemma CompOpp_cmp_then c d : CompOpp (c ;;; d) = (CompOpp c ;;; CompOpp d).
Proof. by destruct c. Qed.

Lemma lex_cmp_refl a : lex_cmp a a = Eq.
Proof. induction a as [|x a IH]; simpl; [done|]. by rewrite Z.compare_refl. Qed.

Lemma lex_cmp_antisym a b : lex_cmp a b = CompOpp (lex_cmp b a).
Proof.
  revert b. induction a as [|x a IH]; intros [|y b]; simpl; try done.
  rewrite CompOpp_cmp_then, <- IH, Z.compare_antisym. done.
Qed.

Lemma lex_cmp_Eq a b : lex_cmp a b = Eq <-> a = b.
Proof.
  split; [|intros ->; apply lex_cmp_refl].
  revert b. induction a as [|x a IH]; intros [|y b]; simpl; try done.
  intros [H1%Z.compare_eq H2%IH]%cmp_then_Eq_inv. congruence.
Qed.

Lemma lex_cmp_trans a b c o :
  lex_cmp a b = o -> lex_cmp b c = o -> lex_cmp a c = o.
Proof.
  destruct o.
  { rewrite !lex_cmp_Eq. congruence. }
  all: revert b c; induction a as [|x a IH]; intros [|y b] [|z c]; simpl; try done;
    destruct (Z.compare_spec x y), (Z.compare_spec y z), (Z.compare_spec x z);
    simpl; subst; try lia; try done; eauto.
Qed.

(** The comparison of two concatenations whose heads have equal length is
    decided by the heads first. *)
Lemma lex_cmp_app a b c d :
  length a = length b -> lex_cmp (a ++ c) (b ++ d) = (lex_cmp a b ;;; lex_cmp c d).
Proof.
  revert b. induction a as [|x a IH]; intros [|y b]; simpl; try done.
  intros H. rewrite IH by lia. by rewrite cmp_then_assoc.
Qed.

Lemma lex_cmp_app_same a b c : lex_cmp (a ++ b) (a ++ c) = lex_cmp b c.
Proof. rewrite lex_cmp_app by done. by rewrite lex_cmp_refl. Qed.

(** A strict prefix sorts first, whatever follows. *)
Lemma lex_cmp_prefix a b : b <> [] -> lex_cmp a (a ++ b) = Lt.
Proof.
  intros Hb. rewrite <- (app_nil_r a) at 1. rewrite lex_cmp_app_same.
  by destruct b.
Qed.

(** [memcmp] on the common length, then the length test, is [lex_cmp]. *)
Lemma lex_cmp_memcmp a b :
  lex_cmp a b =
    (memcmp a b (Nat.min (length a) (length b)) ;;; Nat.compare (length a) (length b)).
Proof.
  unfold memcmp. revert b. induction a as [|x a IH]; intros [|y b]; simpl; try done.
  rewrite IH. by rewrite cmp_then_assoc.
Qed.

(** A strictly monotone function keeps comparisons. *)
Lemma mono_compare (f : Z -> Z) x y :
  (forall x y, x < y -> f x < f y) -> (f x ?= f y) = (x ?= y).
Proof.
  intros Hf. destruct (Z.compare_spec x y) as [->|H|H].
  - apply Z.compare_refl.
  - apply Z.compare_lt_iff. by apply Hf.
  - apply Z.compare_gt_iff. by apply Hf.
Qed.

(** Strict monotonicity between two bounds, and the comparisons it keeps. *)
Definition mono_on (lo hi : Z) (f : Z -> Z) : Prop :=
  forall x y, lo <= x -> x < y -> y <= hi -> f x < f y.

Lemma mono_on_step lo hi f : (forall x, lo <= x < hi -> f x < f (x + 1)) -> mono_on lo hi f.
Proof.
  intros Hf x y Hx Hxy Hy. revert Hy. pattern y. apply (Z.lt_ind _ ltac:(by intros ?? ->) x); [|..|done].
  - intros Hy. apply Hf. lia.
  - intros z Hz IH Hy. apply Z.lt_trans with (f z); [apply IH; lia|]. apply Hf. lia.
Qed.

Lemma mono_on_compare lo hi f x y :
  mono_on lo hi f -> lo <= x <= hi -> lo <= y <= hi -> (f x ?= f y) = (x ?= y).
Proof.
  intros Hf Hx Hy. destruct (Z.compare_spec x y) as [->|H|H].
  - apply Z.compare_refl.
  - apply Z.compare_lt_iff. apply Hf; lia.
  - apply Z.compare_gt_iff. apply Hf; lia.
Qed.

(** ** Mixed radices

    [x] counted in units of which [R] make one unit of [f], with [R'] numbers
    reserved for them. *)
Definition radix (R R' : Z) (f : Z -> Z) (x : Z) : Z := f (x / R) * R' + x mod R.

Lemma radix_mono R R' f lo hi : 0 < R <= R' -> mono_on lo hi f ->
  mono_on (lo * R) (hi * R + R - 1) (radix R R' f).
Proof.
  intros HR Hf x y Hx Hxy Hy. unfold radix.
  assert (x / R <= y / R) as Hd by (apply Z.div_le_mono; lia).
  pose proof (Z.mod_pos_bound x R). pose proof (Z.mod_pos_bound y R).
  destruct (Z.eq_dec (x / R) (y / R)) as [He|He].
  - rewrite He. pose proof (Z.div_mod x R). pose proof (Z.div_mod y R). nia.
  - enough (f (x / R) < f (y / R)) by nia. apply Hf; [|lia|].
    + apply Z.div_le_lower_bound; lia.
    + apply Z.lt_succ_r, Z.div_lt_upper_bound; lia.
Qed.

Lemma be_val_compare a b :
  bytes_ok a -> bytes_ok b -> length a = length b ->
  lex_cmp a b = (be_val a ?= be_val b).
Proof.
  revert b. induction a as [|x a IH]; intros [|y b]; simpl; try done.
  intros [Hx Ha]%bytes_ok_cons [Hy Hb]%bytes_ok_cons [= Hlen].
  rewrite IH, Hlen by done.
  pose proof (be_val_bound a Ha) as Ba. pose proof (be_val_bound b Hb) as Bb.
  rewrite Hlen in Ba. set (p := 256 ^ Z.of_nat (length b)) in *.
  destruct (Z.compare_spec x y) as [->|Hxy|Hxy]; simpl.
  - by rewrite Z.add_compare_mono_l.
  - symmetry. apply Z.compare_lt_iff. nia.
  - symmetry. apply Z.compare_gt_iff. nia.
Qed.

Lemma lex_cmp_be_bytes n x y :
  0 <= x < 256 ^ Z.of_nat n -> 0 <= y < 256 ^ Z.of_nat n ->
  lex_cmp (be_bytes n x) (be_bytes n y) = (x ?= y).
Proof.
  intros Hx Hy. rewrite be_val_compare, !be_val_be_bytes, !Z.mod_small
    by (rewrite ?length_be_bytes; auto with bytes). done.
Qed.

(** ** Mem-comparable encodings

    The contract between the encoders of single columns and the code that
    concatenates them into keys: on the values of a domain [P], byte-wise
    comparison of two encodings, whatever bytes follow them, decides the
    order [cmp] of the values, and falls through to the following bytes
    exactly when the values are equivalent. *)
Class MemCmp {A : Type} (P : A -> Prop) (enc : A -> bytes) (cmp : A -> A -> comparison) : Prop :=
  mem_cmp : forall x y r s, P x -> P y ->
    lex_cmp (enc x ++ r) (enc y ++ s) = (cmp x y ;;; lex_cmp r s).

Section MemCmpFacts.
Context {A : Type} {P : A -> Prop} {enc : A -> bytes} {cmp : A -> A -> comparison}.
Context `{!MemCmp P enc cmp}.

Lemma mem_cmp_nil x y : P x -> P y -> lex_cmp (enc x) (enc y) = cmp x y.
Proof.
  intros Hx Hy. pose proof (mem_cmp x y [] [] Hx Hy) as H.
  rewrite !app_nil_r, cmp_then_Eq_r in H. done.
Qed.

(** Equivalent values have the same encoding. *)
Lemma mem_cmp_enc_eq x y : P x -> P y -> cmp x y = Eq <-> enc x = enc y.
Proof. intros Hx Hy. rewrite <- mem_cmp_nil, lex_cmp_Eq by done. done. Qed.

(** No encoding is a strict prefix of another one. *)
Lemma mem_cmp_prefix_free x y r : P x -> P y -> enc y = enc x ++ r -> r = [].
Proof.
  intros Hx Hy H. pose proof (mem_cmp x y r [] Hx Hy) as H1.
  rewrite <- H, app_nil_r, lex_cmp_refl in H1.
  symmetry in H1. apply cmp_then_Eq_inv in H1 as [_ H1].
  by apply lex_cmp_Eq in H1.
Qed.

(** An encoding against a longer key: a prefix of it for equivalent values,
    and otherwise ordered as the values. *)
Lemma mem_cmp_prefix x y s : P x -> P y ->
    (enc x `prefix_of` enc y ++ s <-> cmp x y = Eq) /\
    (cmp x y <> Eq -> lex_cmp (enc x) (enc y ++ s) = cmp x y).
  Proof.
    intros Hx Hy. split; [split|].
    - intros [r Hr]. pose proof (mem_cmp x y r s Hx Hy) as H1.
      rewrite <- Hr, lex_cmp_refl in H1. symmetry in H1. by apply cmp_then_Eq_inv in H1 as [? _].
    - intros He%mem_cmp_enc_eq; [|done..]. rewrite He. by exists s.
    - intros He. pose proof (mem_cmp x y [] s Hx Hy) as H1. rewrite app_nil_r in H1.
      rewrite H1. by destruct (cmp x y).
  Qed.
End MemCmpFacts.

(** Encodings of one fixed length are mem-comparable as soon as byte order
    agrees with the value order. *)
Lemma mem_cmp_fixed {A} (P : A -> Prop) enc cmp n :
  (forall x, P x -> length (enc x) = n) ->
  (forall x y, P x -> P y -> lex_cmp (enc x) (enc y) = cmp x y) ->
  MemCmp P enc cmp.
Proof.
  intros Hlen Hcmp x y r s Hx Hy. rewrite lex_cmp_app by (rewrite !Hlen; done).
  by rewrite Hcmp.
Qed.

(** ** Writing into a buffer *)

(** [memcpy(dst + off, bs, len bs)] on a buffer large enough for it. *)
Definition write_at (off : nat) (bs dst : bytes) : bytes :=
  take off dst ++ bs ++ drop (off + length bs) dst.

Lemma length_write_at off bs dst :
  (off + length bs <= length dst)%nat -> length (write_at off bs dst) = length dst.
Proof.
  intros H. unfold write_at. rewrite !length_app, length_take, length_drop. lia.
Qed.

Lemma write_at_0 bs dst : write_at 0 bs dst = bs ++ drop (length bs) dst.
Proof. done. Qed.

Lemma write_at_full bs dst : length bs = length dst -> write_at 0 bs dst = bs.
Proof. intros H. rewrite write_at_0, H, drop_all, app_nil_r. done. Qed.

Lemma write_at_end pre junk bs : length junk = length bs -> write_at (length pre) bs (pre ++ junk) = pre ++ bs.
Proof.
  intros H. unfold write_at. rewrite take_app_length, drop_ge, app_nil_r by (rewrite length_app; lia). done.
Qed.

(** Two adjacent writes are one write of the concatenation. *)
Lemma write_at_app off b1 b2 dst :
  (off + length b1 <= length dst)%nat ->
  write_at (off + length b1) b2 (write_at off b1 dst) = write_at off (b1 ++ b2) dst.
Proof.
  intros H. unfold write_at.
  assert (length (take off dst) = off) as Ht by (rewrite length_take; lia).
  rewrite (take_app_add' _ _ off (length b1)) by lia.
  rewrite take_app_length.
  rewrite <- Nat.add_assoc, (drop_app_add' _ _ off) by lia.
  rewrite drop_app_add, drop_drop, length_app. by rewrite <- !app_assoc, !Nat.add_assoc.
Qed.

(** ** Finite case analysis *)

(** A boolean fact about a bounded range of integers, decided by evaluation. *)
Lemma Z_range_forall (n : Z) (f : Z -> bool) :
  forallb f (seqZ 0 n) = true -> forall v, 0 <= v < n -> f v = true.
Proof.
  intros H v Hv. rewrite forallb_forall in H. apply H.
  apply list_elem_of_In. apply elem_of_seqZ. lia.
Qed.
