(* ===== verification/Slice.v ===== *)
(** * Slice: views of byte strings (storage/eloq/slice.h, slice.cc)

    A [Slice] is a pointer and a size; its model is the bytes it refers to.
    The operations are the member functions of the same names. *)

From S2P Require Import Prelude.

Module Slice.

(** [Slice::compare]: [memcmp] on the common length, then the sizes. *)
Definition compare (a b : bytes) : comparison :=
  let min_len := if (length a <? length b)%nat then length a else length b in
  match memcmp a b min_len with
  | Eq => if (length a <? length b)%nat then Lt
          else if (length b <? length a)%nat then Gt else Eq
  | r => r
  end.

(** [operator==] on slices. *)
Definition eqb (x y : bytes) : bool :=
  (length x =? length y)%nat &&
  match memcmp x y (length x) with Eq => true | _ => false end.

Definition starts_with (s x : bytes) : bool :=
  (length x <=? length s)%nat &&
  match memcmp s x (length x) with Eq => true | _ => false end.

Definition ends_with (s x : bytes) : bool :=
  (length x <=? length s)%nat &&
  match memcmp (drop (length s - length x) s) x (length x) with Eq => true | _ => false end.

Definition remove_prefix (n : nat) (s : bytes) : bytes := drop n s.
Definition remove_suffix (n : nat) (s : bytes) : bytes := take (length s - n) s.

(** [Slice::difference_offset]: the loop stops at the first difference or at
    the end of the shorter slice. *)
Fixpoint difference_offset (a b : bytes) : nat :=
  match a, b with
  | x :: a, y :: b => if x =? y then S (difference_offset a b) else 0%nat
  | _, _ => 0%nat
  end.

(** ** Hexadecimal text *)

(** [toHex(v)] for a half byte. *)
Definition toHex (v : Z) : Z := if v <=? 9 then 48 + v else 65 + v - 10.

(** [fromHex(char c)]: [char] is signed on the supported platforms, so a byte
    above 127 is below ['0']. *)
Definition fromHex (b : Z) : Z :=
  let c := signed_of 8 b in
  let c := if (97 <=? c) && (c <=? 102) then c - 32 else c in
  if (c <? 48) || ((57 <? c) && ((c <? 65) || (70 <? c))) then -1
  else if c <=? 57 then c - 48 else c - 65 + 10.

Definition ToString (hex : bool) (s : bytes) : bytes :=
  if hex then
    flat_map (fun c => [toHex (Z.shiftr c 4); toHex (Z.land c 15)]) s
  else s.

(** The loop of [DecodeHex] over pairs of digits; the second component is the
    content of [*result] when it returns. *)
Fixpoint DecodeHex_loop (data result : bytes) : bool * bytes :=
  match data with
  | d1 :: d2 :: data =>
      let h1 := fromHex d1 in
      if h1 <? 0 then (false, result)
      else
        let h2 := fromHex d2 in
        if h2 <? 0 then (false, result)
        else DecodeHex_loop data (result ++ [uchar_of (Z.lor (Z.shiftl h1 4) h2)])
  | _ => (true, result)
  end.

(** [Slice::DecodeHex] into a non-null [result] holding [old]. *)
Definition DecodeHex (data old : bytes) : bool * bytes :=
  if Nat.odd (length data) then (false, old) else DecodeHex_loop data [].

(** ** Properties *)

(** [Slice::compare] is byte-wise lexicographic order. *)
Lemma compare_lex a b : compare a b = lex_cmp a b.
Proof.
  unfold compare. rewrite lex_cmp_memcmp.
  destruct (Nat.ltb_spec (length a) (length b)), (Nat.ltb_spec (length b) (length a));
    try lia.
  - rewrite Nat.min_l, (proj2 (Nat.compare_lt_iff _ _)) by lia. by destruct (memcmp _ _ _).
  - rewrite Nat.min_r, (proj2 (Nat.compare_gt_iff _ _)) by lia. by destruct (memcmp _ _ _).
  - rewrite Nat.min_r, (proj2 (Nat.compare_eq_iff _ _)) by lia. by destruct (memcmp _ _ _).
Qed.

Lemma eqb_eq x y : eqb x y = true <-> x = y.
Proof.
  unfold eqb, memcmp. rewrite andb_true_iff, Nat.eqb_eq. split.
  - intros [Hl H]. rewrite take_ge, Hl, take_ge in H by lia.
    destruct (lex_cmp x y) eqn:E; try done. by apply lex_cmp_Eq.
  - intros ->. by rewrite lex_cmp_refl.
Qed.

(** [starts_with] decides the prefix relation. *)
Lemma starts_with_prefix s x : starts_with s x = true <-> x `prefix_of` s.
Proof.
  unfold starts_with, memcmp. rewrite andb_true_iff, Nat.leb_le, (take_ge x) by lia. split.
  - intros [Hl H]. destruct (lex_cmp _ _) eqn:E; try done.
    apply lex_cmp_Eq in E. exists (drop (length x) s). rewrite <- E at 1.
    by rewrite take_drop.
  - intros [k ->]. rewrite length_app, take_app_length, lex_cmp_refl. split; [lia|done].
Qed.

Lemma ends_with_suffix s x : ends_with s x = true <-> x `suffix_of` s.
Proof.
  unfold ends_with, memcmp. rewrite andb_true_iff, Nat.leb_le, (take_ge x) by lia. split.
  - intros [Hl H]. destruct (lex_cmp _ _) eqn:E; try done.
    apply lex_cmp_Eq in E. rewrite take_ge in E by (rewrite length_drop; lia).
    exists (take (length s - length x) s). rewrite <- E at 2. by rewrite take_drop.
  - intros [k ->]. rewrite length_app. replace (length k + length x - length x)%nat with (length k) by lia.
    rewrite drop_app_length, take_ge, lex_cmp_refl by lia. split; [lia|done].
Qed.

(** [difference_offset] is the length of the longest common prefix: the two
    slices agree before it and not at it. *)
Lemma difference_offset_spec a b :
  let n := difference_offset a b in
  (n <= length a)%nat /\ (n <= length b)%nat /\ take n a = take n b /\
  (forall x y, a !! n = Some x -> b !! n = Some y -> x <> y).
Proof.
  revert b. induction a as [|x a IH]; intros [|y b]; simpl; try (split_and!; try lia; done).
  destruct (Z.eqb_spec x y) as [->|Hne]; simpl.
  - destruct (IH b) as (H1 & H2 & H3 & H4). split_and!; [lia|lia|by f_equal|done].
  - split_and!; try lia; try done. naive_solver.
Qed.

Lemma fromHex_toHex v : 0 <= v < 16 -> fromHex (toHex v) = v.
Proof.
  intros H. apply Z.eqb_eq.
  by apply (Z_range_forall 16 (fun v => fromHex (toHex v) =? v)).
Qed.

Lemma nibbles_join c : byte_ok c ->
  uchar_of (Z.lor (Z.shiftl (Z.shiftr c 4) 4) (Z.land c 15)) = c.
Proof.
  intros Hc. rewrite <- (uchar_of_id c Hc) at 3. f_equal.
  apply Z.bits_inj'. intros n Hn. rewrite Z.lor_spec, Z.land_spec.
  destruct (Z.ltb_spec n 4).
  - rewrite Z.shiftl_spec_low by lia. change 15 with (Z.ones 4).
    rewrite Z.ones_spec_low by lia. by rewrite andb_true_r.
  - rewrite Z.shiftl_spec_high, Z.shiftr_spec by lia. change 15 with (Z.ones 4).
    rewrite Z.ones_spec_high, andb_false_r, orb_false_r by lia. f_equal. lia.
Qed.

Lemma DecodeHex_loop_ToString s r :
  bytes_ok s -> DecodeHex_loop (ToString true s) r = (true, r ++ s).
Proof.
  revert r. induction s as [|c s IH]; intros r Hs; simpl; [by rewrite app_nil_r|].
  apply bytes_ok_cons in Hs as [Hc Hs]. unfold byte_ok in Hc.
  assert (0 <= Z.shiftr c 4 < 16).
  { rewrite Z.shiftr_div_pow2 by lia. split; [apply Z.div_pos; lia|].
    apply Z.div_lt_upper_bound; lia. }
  assert (0 <= Z.land c 15 < 16).
  { change 15 with (Z.ones 4). rewrite Z.land_ones by lia. apply Z.mod_pos_bound. lia. }
  rewrite !fromHex_toHex by lia.
  rewrite !(proj2 (Z.ltb_ge _ 0)) by lia.
  simpl in IH. rewrite IH by done. rewrite nibbles_join by done. by rewrite <- app_assoc.
Qed.

(** Decoding the hexadecimal text of a slice gives the slice back. *)
Theorem DecodeHex_ToString s old :
  bytes_ok s -> DecodeHex (ToString true s) old = (true, s).
Proof.
  intros Hs. unfold DecodeHex.
  assert (Nat.odd (length (ToString true s)) = false) as ->.
  { clear. induction s as [|c s IH]; simpl; [done|]. done. }
  by rewrite DecodeHex_loop_ToString.
Qed.

Lemma DecodeHex_ToString_witness :
  bytes_ok [0; 171; 255] /\
  DecodeHex (ToString true [0; 171; 255]) [7] = (true, [0; 171; 255]).
Proof.
  split; [by apply (bool_decide_unpack _)|].
  apply DecodeHex_ToString. by apply (bool_decide_unpack _).
Defined.

(** Text that is not made of hexadecimal digits is refused. *)
Lemma DecodeHex_loop_bad d1 d2 data r :
  fromHex d1 < 0 \/ fromHex d2 < 0 -> (DecodeHex_loop (d1 :: d2 :: data) r).1 = false.
Proof.
  intros H. simpl. destruct (Z.ltb_spec (fromHex d1) 0); [done|].
  destruct (Z.ltb_spec (fromHex d2) 0); [done|lia].
Qed.

End Slice.
