(* ===== verification/Buff.v ===== *)
(** * Buff: network buffers, string and bit readers and writers
    (storage/eloq/eloq_buff.h)

    A [mono_string_reader] is the bytes it may still read; a
    [mono_string_writer] is the bytes written so far. *)

From S2P Require Import Prelude.

Module Netbuf.

(** [htobe64(val)] and friends on a little-endian host: the integer whose
    memory image is the big-endian image of [val]; [be64toh] is its inverse. *)
Definition htobe (n : nat) (val : Z) : Z := le_val (be_bytes n val).
Definition betoh (n : nat) (net_val : Z) : Z := be_val (le_bytes n net_val).

(** The memory image of the byte-swapped integer, as appended or copied. *)
Definition mono_netstr_append_uint64 (out_netstr : bytes) (val : Z) : bytes :=
  out_netstr ++ le_bytes 8 (htobe 8 val).
Definition mono_netstr_append_uint32 (out_netstr : bytes) (val : Z) : bytes :=
  out_netstr ++ le_bytes 4 (htobe 4 val).
Definition mono_netstr_append_uint16 (out_netstr : bytes) (val : Z) : bytes :=
  out_netstr ++ le_bytes 2 (htobe 2 val).

Definition mono_netbuf_store_uint64 (dst : bytes) (n : Z) : bytes :=
  write_at 0 (le_bytes 8 (htobe 8 n)) dst.
Definition mono_netbuf_store_uint32 (dst : bytes) (n : Z) : bytes :=
  write_at 0 (le_bytes 4 (htobe 4 n)) dst.
Definition mono_netbuf_store_uint16 (dst : bytes) (n : Z) : bytes :=
  write_at 0 (le_bytes 2 (htobe 2 n)) dst.
Definition mono_netbuf_store_byte (dst : bytes) (c : Z) : bytes := write_at 0 [c] dst.

Definition mono_netbuf_to_uint64 (netbuf : bytes) : Z := betoh 8 (le_val (take 8 netbuf)).
Definition mono_netbuf_to_uint32 (netbuf : bytes) : Z := betoh 4 (le_val (take 4 netbuf)).
Definition mono_netbuf_to_uint16 (netbuf : bytes) : Z := betoh 2 (le_val (take 2 netbuf)).

(** The [read] variants advance the pointer past what they read. *)
Definition mono_netbuf_read_uint64 (netbuf : bytes) : Z * bytes :=
  (mono_netbuf_to_uint64 netbuf, drop 8 netbuf).
Definition mono_netbuf_read_uint32 (netbuf : bytes) : Z * bytes :=
  (mono_netbuf_to_uint32 netbuf, drop 4 netbuf).
Definition mono_netbuf_read_uint16 (netbuf : bytes) : Z * bytes :=
  (mono_netbuf_to_uint16 netbuf, drop 2 netbuf).

Lemma le_bytes_htobe n v : le_bytes n (htobe n v) = be_bytes n v.
Proof.
  unfold htobe. pose proof (le_bytes_le_val (be_bytes n v)) as H.
  rewrite length_be_bytes in H. apply H. auto with bytes.
Qed.

Lemma betoh_le_val n l : bytes_ok l -> length l = n -> betoh n (le_val l) = be_val l.
Proof. intros H <-. unfold betoh. by rewrite le_bytes_le_val. Qed.

(** Storing in network order and reading back is the identity on the values
    of the width, at each of the three widths. *)
Lemma netbuf_roundtrip n v rest :
  0 <= v < 256 ^ Z.of_nat n ->
  betoh n (le_val (take n (le_bytes n (htobe n v) ++ rest))) = v.
Proof.
  intros Hv. rewrite le_bytes_htobe.
  rewrite <- (length_be_bytes n v) at 2. rewrite take_app_length.
  rewrite betoh_le_val by (auto using length_be_bytes with bytes).
  by rewrite be_val_be_bytes, Z.mod_small.
Qed.

End Netbuf.

(** ** String reader and writer *)
Module Rd.
Import Netbuf.

(** [m_len] is a [uint], so a reader over a slice sees at most
    [size mod 2^32] bytes of it. *)
Definition mono_string_reader (slice : bytes) : bytes :=
  take (Z.to_nat (uint_of (Z.of_nat (length slice)))) slice.

Definition read_or_empty (slice : option bytes) : bytes :=
  match slice with None => mono_string_reader [] | Some s => mono_string_reader s end.

(** [None] is the null pointer; the reader is then unchanged. *)
Definition read (size : nat) (rd : bytes) : option (bytes * bytes) :=
  if (length rd <? size)%nat then None else Some (take size rd, drop size rd).

Definition read_uint8 (rd : bytes) : option (Z * bytes) :=
  match read 1 rd with
  | Some (p, rd') => Some (hd 0 p, rd')
  | None => None
  end.

Definition read_uint16 (rd : bytes) : option (Z * bytes) :=
  match read 2 rd with
  | Some (p, rd') => Some (mono_netbuf_to_uint16 p, rd')
  | None => None
  end.

Definition read_uint64 (rd : bytes) : option (Z * bytes) :=
  match read 8 rd with
  | Some (p, rd') => Some (mono_netbuf_to_uint64 p, rd')
  | None => None
  end.

Abbreviation remaining_bytes rd := (length rd) (only parsing).

Definition write_uint8 (val : Z) (w : bytes) : bytes := w ++ [uchar_of val].
Definition write_uint16 (val : Z) (w : bytes) : bytes :=
  w ++ le_bytes 2 (htobe 2 (ushort_of val)).
Definition write_uint32 (val : Z) (w : bytes) : bytes :=
  w ++ le_bytes 4 (htobe 4 (uint_of val)).
Definition write (new_data : bytes) (w : bytes) : bytes := w ++ new_data.
Definition clear (w : bytes) : bytes := [].
Abbreviation get_current_pos w := (length w) (only parsing).
Definition write_uint8_at (pos : nat) (new_val : Z) (w : bytes) : bytes :=
  write_at pos [uchar_of new_val] w.
Definition write_uint16_at (pos : nat) (new_val : Z) (w : bytes) : bytes :=
  write_at pos (le_bytes 2 (htobe 2 (ushort_of new_val))) w.
Definition truncate (pos : nat) (w : bytes) : bytes := take pos w.
Definition allocate (len : nat) (val : Z) (w : bytes) : bytes := w ++ replicate len val.

Lemma mono_string_reader_small s :
  Z.of_nat (length s) < 2 ^ 32 -> mono_string_reader s = s.
Proof.
  intros H. unfold mono_string_reader, uint_of.
  rewrite Z.mod_small, Nat2Z.id, take_ge by lia. done.
Qed.

Lemma read_Some size rd p rd' :
  read size rd = Some (p, rd') <-> rd = p ++ rd' /\ length p = size.
Proof.
  unfold read. destruct (Nat.ltb_spec (length rd) size); split.
  - done.
  - intros [-> Hl]. rewrite length_app in H. lia.
  - intros [= <- <-]. by rewrite take_drop, length_take, Nat.min_l.
  - intros [-> <-]. by rewrite take_app_length, drop_app_length.
Qed.

Lemma read_None size rd : read size rd = None <-> (length rd < size)%nat.
Proof.
  unfold read. destruct (Nat.ltb_spec (length rd) size); split; (done || lia).
Qed.

Lemma read_app p rd size : length p = size -> read size (p ++ rd) = Some (p, rd).
Proof. intros H. by apply read_Some. Qed.

(** A reader never reads beyond the end and never moves backwards. *)
Lemma read_consumes size rd p rd' :
  read size rd = Some (p, rd') -> length rd = (size + length rd')%nat.
Proof. intros [-> <-]%read_Some. apply length_app. Qed.

Lemma read_uint8_write w val rd :
  0 <= val < 256 -> read_uint8 (drop (length w) (write_uint8 val w) ++ rd) = Some (val, rd).
Proof.
  intros H. unfold write_uint8. rewrite drop_app_length. unfold read_uint8. simpl.
  by rewrite uchar_of_id.
Qed.

Lemma read_uint16_write w val rd :
  0 <= val < 65536 ->
  read_uint16 (drop (length w) (write_uint16 val w) ++ rd) = Some (val, rd).
Proof.
  intros H. unfold write_uint16, ushort_of. rewrite drop_app_length, Z.mod_small by lia.
  unfold read_uint16. rewrite read_app by apply length_le_bytes.
  pose proof (netbuf_roundtrip 2 val []) as Hr. rewrite app_nil_r in Hr.
  unfold mono_netbuf_to_uint16. by rewrite Hr.
Qed.

End Rd.

(** ** Bit writer and reader *)
Module Bits.
Import Rd.

Record mono_bit_writer := { bw_data : bytes; bw_offset : Z }.

Definition new_bit_writer (writer : bytes) : mono_bit_writer :=
  {| bw_data := writer; bw_offset := 0 |}.

(** [*last_byte |= x]. *)
Definition or_last (x : Z) (w : bytes) : bytes :=
  match reverse w with
  | [] => []
  | b :: r => reverse (uchar_of (Z.lor b x) :: r)
  end.

(** One iteration of the loop of [mono_bit_writer::write]. *)
Definition write_step (size value : Z) (w : mono_bit_writer) : Z * mono_bit_writer :=
  let data := if bw_offset w =? 0 then write_uint8 0 (bw_data w) else bw_data w in
  let bits := Z.min size (8 - bw_offset w) in
  let x := Z.land (Z.shiftr value (size - bits)) (Z.shiftl 1 bits - 1) in
  (size - bits,
   {| bw_data := or_last (Z.shiftl (uchar_of x) (bw_offset w)) data;
      bw_offset := Z.land (bw_offset w + bits) 7 |}).

Fixpoint write_loop (fuel : nat) (size value : Z) (w : mono_bit_writer) : option mono_bit_writer :=
  if size <=? 0 then Some w
  else match fuel with
       | O => None
       | S fuel =>
           let '(size', w') := write_step size value w in
           write_loop fuel size' value w'
       end.

(** [mono_bit_writer::write(size, value)]: each iteration places at least one
    bit, so [size] iterations are enough ([write_total]). *)
Definition bit_write (size value : Z) (w : mono_bit_writer) : option mono_bit_writer :=
  write_loop (Z.to_nat size) size value w.

Record mono_bit_reader := { br_cur : Z; br_offset : Z; br_reader : bytes }.

Definition new_bit_reader (reader : bytes) : mono_bit_reader :=
  {| br_cur := 0; br_offset := 0; br_reader := reader |}.

(** One iteration of the loop of [mono_bit_reader::read]; [None] when the
    string reader is exhausted. *)
Definition read_step (size m_ret : Z) (r : mono_bit_reader) : option (Z * Z * mono_bit_reader) :=
  let fetch :=
    if br_offset r =? 0 then
      match Rd.read 1 (br_reader r) with
      | Some (p, rd) => Some (hd 0 p, rd)
      | None => None
      end
    else Some (br_cur r, br_reader r) in
  match fetch with
  | None => None
  | Some (cur, rd) =>
      let bits := Z.min (8 - br_offset r) size in
      let m_ret := Z.lor (uint_of (Z.shiftl m_ret bits))
                     (Z.land (Z.shiftr cur (br_offset r)) (Z.shiftl 1 bits - 1)) in
      Some (size - bits, m_ret,
            {| br_cur := cur; br_offset := Z.land (br_offset r + bits) 7; br_reader := rd |})
  end.

Fixpoint read_loop (fuel : nat) (size m_ret : Z) (r : mono_bit_reader) : option (Z * mono_bit_reader) :=
  if size <=? 0 then Some (m_ret, r)
  else match fuel with
       | O => None
       | S fuel =>
           match read_step size m_ret r with
           | None => None
           | Some (size', m_ret', r') => read_loop fuel size' m_ret' r'
           end
       end.

Definition bit_read (size : Z) (r : mono_bit_reader) : option (Z * mono_bit_reader) :=
  read_loop (Z.to_nat size) size 0 r.

(** *** Bit arithmetic *)

Lemma land_ones_mod x k : 0 <= k -> Z.land x (Z.shiftl 1 k - 1) = x mod 2 ^ k.
Proof.
  intros H. rewrite <- Z.land_ones by done. f_equal.
Qed.

Lemma land_7_mod x : Z.land x 7 = x mod 8.
Proof. change 7 with (Z.ones 3). by rewrite Z.land_ones by lia. Qed.

Lemma lor_shiftl_add b x k : 0 <= k -> 0 <= b < 2 ^ k -> Z.lor b (Z.shiftl x k) = b + x * 2 ^ k.
Proof.
  intros Hk Hb. rewrite <- Z.shiftl_mul_pow2 by done.
  assert (Z.land b (Z.shiftl x k) = 0) as Hd.
  { apply Z.bits_inj'. intros n Hn. rewrite Z.land_spec, Z.bits_0.
    destruct (Z.ltb_spec n k).
    - by rewrite Z.shiftl_spec_low, andb_false_r.
    - rewrite <- (Z.mod_small b (2 ^ k)) by done.
      by rewrite Z.mod_pow2_bits_high. }
  rewrite <- Z.lxor_lor by done. symmetry. by apply Z.add_nocarry_lxor.
Qed.

(** *** Invariants *)

(** The bits of the last byte at and above the offset are still zero. *)
Definition bw_ok (w : mono_bit_writer) : Prop :=
  0 <= bw_offset w < 8 /\
  (bw_offset w <> 0 -> exists d b, bw_data w = d ++ [b] /\ 0 <= b < 2 ^ bw_offset w).

(** [F] is what the writer may hold after further writes: it agrees with the
    data on whole bytes and on the low [bw_offset] bits of a partial one. *)
Definition extends (w : mono_bit_writer) (F : bytes) : Prop :=
  if decide (bw_offset w = 0) then bw_data w `prefix_of` F
  else exists d b b' t, bw_data w = d ++ [b] /\ F = d ++ b' :: t /\
         b' mod 2 ^ bw_offset w = b.

(** A reader of [F] that has consumed exactly the bits written so far. *)
Definition synced (w : mono_bit_writer) (F : bytes) (r : mono_bit_reader) : Prop :=
  br_offset r = bw_offset w /\ br_reader r = drop (length (bw_data w)) F /\
  (bw_offset w <> 0 -> F !! (length (bw_data w) - 1)%nat = Some (br_cur r)).

Lemma or_last_snoc x d b : or_last x (d ++ [b]) = d ++ [uchar_of (Z.lor b x)].
Proof. unfold or_last. rewrite reverse_app. simpl. by rewrite reverse_cons, reverse_involutive. Qed.

(** What one iteration writes: the next [bits] bits of [value], above the
    [bw_offset] bits already in the last byte. *)
Lemma write_step_spec size value w :
  bw_ok w -> 0 < size ->
  let o := bw_offset w in
  let bits := Z.min size (8 - o) in
  let x := value / 2 ^ (size - bits) mod 2 ^ bits in
  exists D b,
    (o = 0 -> bw_data w = D /\ b = 0) /\ (o <> 0 -> bw_data w = D ++ [b]) /\
    0 <= b < 2 ^ o /\ 0 <= b + x * 2 ^ o < 2 ^ (o + bits) /\
    write_step size value w =
      (size - bits, {| bw_data := D ++ [b + x * 2 ^ o]; bw_offset := (o + bits) mod 8 |}).
Proof.
  intros [Ho Hw] Hs o bits x. fold o in Ho, Hw.
  assert (0 < bits <= 8 - o) as Hb by lia.
  assert (0 <= x < 2 ^ bits) as Hx by (apply Z.mod_pos_bound; lia).
  assert (exists D b, (o = 0 -> bw_data w = D /\ b = 0) /\ (o <> 0 -> bw_data w = D ++ [b]) /\
    0 <= b < 2 ^ o /\ (if o =? 0 then write_uint8 0 (bw_data w) else bw_data w) = D ++ [b])
    as (D & b & H1 & H2 & H3 & H4).
  { destruct (Z.eqb_spec o 0) as [E|E].
    - exists (bw_data w), 0. rewrite E. split_and!; try done.
    - destruct (Hw E) as (d & b & -> & ?). exists d, b. split_and!; try done; lia. }
  exists D, b. split; [done|]. split; [done|]. split; [done|].
  assert (0 <= b + x * 2 ^ o < 2 ^ (o + bits)) as Hn by (rewrite Z.pow_add_r by lia; nia).
  split; [done|].
  unfold write_step. fold o. rewrite H4. fold bits.
  rewrite land_ones_mod, land_7_mod, Z.shiftr_div_pow2 by lia. fold x.
  assert (2 ^ (o + bits) <= 2 ^ 8) by (apply Z.pow_le_mono_r; lia).
  assert (2 ^ bits <= 2 ^ 8) by (apply Z.pow_le_mono_r; lia).
  rewrite (uchar_of_id x) by (unfold byte_ok; lia).
  rewrite or_last_snoc, lor_shiftl_add by lia.
  rewrite uchar_of_id by (unfold byte_ok; lia). done.
Qed.

Lemma write_step_ok size value w size' w' :
  bw_ok w -> 0 < size -> write_step size value w = (size', w') ->
  bw_ok w' /\ 0 <= size' < size.
Proof.
  intros Hw Hs H. destruct (write_step_spec size value w Hw Hs) as (D & b & _ & _ & _ & Hn & E).
  rewrite E in H. injection H as <- <-. destruct Hw as [Ho _].
  split; [|lia]. split; simpl; [apply Z.mod_pos_bound; lia|].
  intros Hm. eexists D, _. split; [done|].
  set (o := bw_offset w) in *. set (bits := Z.min size (8 - o)) in *.
  destruct (Z.eq_dec (o + bits) 8) as [E8|]; [by rewrite E8 in Hm|].
  rewrite (Z.mod_small (o + bits) 8) by lia. done.
Qed.

(** The byte of the final string that holds what an iteration wrote. *)
Lemma extends_snoc D c e F :
  0 < e <= 8 -> 0 <= c < 2 ^ e -> bytes_ok F ->
  extends {| bw_data := D ++ [c]; bw_offset := e mod 8 |} F ->
  exists b' t, F = D ++ b' :: t /\ b' mod 2 ^ e = c /\ byte_ok b'.
Proof.
  intros He Hc HF. unfold extends. simpl. case_decide as Hm.
  - intros [t ->]. rewrite <- app_assoc in HF |- *. exists c, t. simpl.
    apply bytes_ok_app in HF as [_ [Hok _]%bytes_ok_cons]. split_and!; [done| |done].
    by apply Z.mod_small.
  - intros (d & b & b' & t & [-> [= <-]]%app_inj_2 & -> & Hb); [|done].
    exists b', t. rewrite (Z.mod_small e 8) in Hb by (destruct (Z.eq_dec e 8) as [->|]; [done|lia]).
    split_and!; [done|done|]. by apply bytes_ok_app in HF as [_ [? _]%bytes_ok_cons].
Qed.

(** Reading the bits an iteration wrote, from any string the writer's data
    may have grown into. *)
Lemma sync_step size value w size' w' F :
  bw_ok w -> 0 < size -> write_step size value w = (size', w') ->
  bytes_ok F -> extends w' F ->
  let bits := size - size' in
  extends w F /\
  forall r m_ret, synced w F r -> exists r',
    read_step size m_ret r =
      Some (size', Z.lor (uint_of (Z.shiftl m_ret bits)) (value / 2 ^ size' mod 2 ^ bits), r') /\
    synced w' F r'.
Proof.
  intros Hw Hs H HF Hext bits0.
  destruct (write_step_spec size value w Hw Hs) as (D & b & H0 & H1 & Hb & Hn & E).
  rewrite E in H. injection H as <- <-. destruct Hw as [Ho _].
  set (o := bw_offset w) in *. set (bits := Z.min size (8 - o)) in *.
  replace bits0 with bits by lia. clear bits0.
  assert (0 < bits <= 8 - o) as Hbits by lia.
  apply extends_snoc in Hext as (b' & t & -> & Hb' & Hok); [|lia|done|done].
  set (x := value / 2 ^ (size - bits) mod 2 ^ bits) in *.
  assert (0 <= x < 2 ^ bits) as Hx by (apply Z.mod_pos_bound; lia).
  assert (b' mod 2 ^ o = b /\ b' / 2 ^ o mod 2 ^ bits = x) as [Elo Ehi].
  { rewrite Z.pow_add_r, Z.rem_mul_r in Hb' by lia.
    pose proof (Z.mod_pos_bound b' (2 ^ o)).
    destruct (Z.div_mod_unique (2 ^ o) (b' / 2 ^ o mod 2 ^ bits) x (b' mod 2 ^ o) b); lia. }
  split.
  - unfold extends. fold o. case_decide as Ez.
    + destruct (H0 Ez) as [-> _]. by apply prefix_app_r.
    + rewrite (H1 Ez). by exists D, b, b', t.
  - intros r m_ret (R1 & R2 & R3). fold o in R1, R3.
    assert (synced {| bw_data := D ++ [b + x * 2 ^ o]; bw_offset := (o + bits) mod 8 |}
       (D ++ b' :: t) {| br_cur := b'; br_offset := (o + bits) mod 8; br_reader := t |}) as Hsync.
    { split_and!; simpl; [done| |].
      - rewrite length_app. simpl. by rewrite drop_app_add.
      - intros _. rewrite length_app. simpl. rewrite Nat.add_sub. apply list_lookup_middle. done. }
    eexists. split; [|exact Hsync].
    unfold read_step. rewrite R1, (Z.min_comm (8 - o)). fold bits.
    assert ((if o =? 0 then
        match Rd.read 1 (br_reader r) with Some (p, rd) => Some (hd 0 p, rd) | None => None end
      else Some (br_cur r, br_reader r)) = Some (b', t)) as ->.
    { destruct (Z.eqb_spec o 0) as [Ez|Ez].
      - destruct (H0 Ez) as [HD _]. by rewrite R2, HD, drop_app_length.
      - rewrite R2, (H1 Ez). specialize (R3 Ez). rewrite (H1 Ez), length_app in R3. simpl in R3.
        rewrite Nat.add_sub, list_lookup_middle in R3 by done. injection R3 as <-.
        rewrite length_app. simpl. by rewrite drop_app_add. }
    rewrite land_ones_mod, land_7_mod, Z.shiftr_div_pow2, Ehi by lia. done.
Qed.

(** Accumulating the next [bits] bits below those already read. *)
Lemma accumulate value size size' :
  0 <= value < 2 ^ 32 -> 0 <= size' <= size ->
  let bits := size - size' in
  Z.lor (uint_of (Z.shiftl (value / 2 ^ size) bits)) (value / 2 ^ size' mod 2 ^ bits)
  = value / 2 ^ size'.
Proof.
  intros Hv Hb bits.
  assert (value / 2 ^ size = value / 2 ^ size' / 2 ^ bits) as ->.
  { rewrite Z.div_div, <- Z.pow_add_r by lia. do 2 f_equal. lia. }
  set (y := value / 2 ^ size').
  assert (0 <= y < 2 ^ 32) as Hy.
  { split; [apply Z.div_pos; lia|]. eapply Z.le_lt_trans; [|apply Hv].
    apply Z.div_le_upper_bound; [lia|].
    pose proof (Z.pow_pos_nonneg 2 size'). nia. }
  rewrite Z.shiftl_mul_pow2 by lia. unfold uint_of.
  pose proof (Z.div_mod y (2 ^ bits)) as Hdm. pose proof (Z.mod_pos_bound y (2 ^ bits)) as Hm.
  rewrite Z.mod_small by (split; [apply Z.mul_nonneg_nonneg; [apply Z.div_pos|]|]; lia).
  rewrite Z.lor_comm, <- Z.shiftl_mul_pow2, lor_shiftl_add by lia. lia.
Qed.

Lemma write_loop_sync fuel size value w w' :
  bw_ok w -> 0 <= size -> 0 <= value < 2 ^ 32 ->
  write_loop fuel size value w = Some w' ->
  bw_ok w' /\
  forall F, bytes_ok F -> extends w' F -> extends w F /\
    forall r, synced w F r -> exists r',
      read_loop fuel size (value / 2 ^ size) r = Some (value, r') /\ synced w' F r'.
Proof.
  revert size w. induction fuel as [|fuel IH]; intros size w Hw Hs Hv H.
  all: cbn [write_loop] in H; cbn [read_loop]; destruct (Z.leb_spec size 0) as [Hz|Hpos]; [|try done].
  1,2: injection H as <-; split; [done|]; intros F HF Hext; split; [done|];
    intros r Hr; exists r; replace size with 0 by lia; by rewrite Z.div_1_r.
  destruct (write_step size value w) as [size1 w1] eqn:E.
  destruct (write_step_ok _ _ _ _ _ Hw Hpos E) as [Hw1 Hs1].
  destruct (IH size1 w1 Hw1 (proj1 Hs1) Hv H) as [Hw' IHr]. split; [done|].
  intros F HF Hext. destruct (IHr F HF Hext) as [Hext1 IHr1].
  destruct (sync_step _ _ _ _ _ F Hw Hpos E HF Hext1) as [Hext0 Hstep].
  split; [done|]. intros r Hr.
  destruct (Hstep r (value / 2 ^ size) Hr) as (r1 & -> & Hr1).
  rewrite accumulate by lia.
  destruct (IHr1 r1 Hr1) as (r' & -> & Hr'). by exists r'.
Qed.

(** [bit_write] always finishes within its iterations. *)
Lemma write_total size value w :
  bw_ok w -> 0 <= size -> exists w', bit_write size value w = Some w'.
Proof.
  unfold bit_write. remember (Z.to_nat size) as fuel eqn:Hf.
  assert (size <= Z.of_nat fuel) as Hle by lia. clear Hf. revert size w Hle.
  induction fuel as [|fuel IH]; intros size w Hle Hw Hs; cbn [write_loop];
    destruct (Z.leb_spec size 0) as [|Hpos]; eauto; [lia|].
  destruct (write_step size value w) as [size1 w1] eqn:E.
  destruct (write_step_ok _ _ _ _ _ Hw Hpos E) as [Hw1 Hs1].
  apply IH; [lia|done|lia].
Qed.

(** One [bit_write] of a value that fits, seen from the reader. *)
Lemma write_read_sync size value w w' :
  bw_ok w -> 0 <= size <= 32 -> 0 <= value < 2 ^ size ->
  bit_write size value w = Some w' ->
  bw_ok w' /\
  forall F, bytes_ok F -> extends w' F -> extends w F /\
    forall r, synced w F r -> exists r', bit_read size r = Some (value, r') /\ synced w' F r'.
Proof.
  intros Hw Hs Hv H.
  assert (2 ^ size <= 2 ^ 32) by (apply Z.pow_le_mono_r; lia).
  assert (0 <= value < 2 ^ 32) as Hv32 by lia.
  destruct (write_loop_sync _ _ _ _ _ Hw (proj1 Hs) Hv32 H) as [Hok Hr].
  split; [done|]. intros F HF Hext. destruct (Hr F HF Hext) as [He Hrd]. split; [done|].
  intros r Hsy. destruct (Hrd r Hsy) as (r' & Hread & Hr').
  rewrite Z.div_small in Hread by done. by exists r'.
Qed.

Lemma write_bytes_ok size value w w' :
  bw_ok w -> 0 <= size -> bytes_ok (bw_data w) -> bit_write size value w = Some w' ->
  bytes_ok (bw_data w').
Proof.
  unfold bit_write. generalize (Z.to_nat size). intros fuel.
  revert size w. induction fuel as [|fuel IH]; intros size w Hw Hs Hb;
    cbn [write_loop]; destruct (Z.leb_spec size 0) as [|Hpos]; try (intros [= <-]; done).
  destruct (write_step size value w) as [size1 w1] eqn:E.
  destruct (write_step_ok _ _ _ _ _ Hw Hpos E) as [Hw1 Hs1].
  apply IH; [done|lia|].
  destruct (write_step_spec size value w Hw Hpos) as (D & b & H0 & H1 & Hb0 & Hn & E').
  rewrite E' in E. injection E as <- <-. simpl.
  set (o := bw_offset w) in *. destruct Hw as [Ho _]. fold o in Ho.
  set (bits := Z.min size (8 - o)) in *.
  assert (2 ^ (o + bits) <= 2 ^ 8) by (apply Z.pow_le_mono_r; lia).
  apply bytes_ok_app. split; [|auto with bytes].
  destruct (Z.eq_dec o 0) as [Ez|Ez]; [by destruct (H0 Ez) as [<- _]|].
  rewrite (H1 Ez) in Hb. by apply bytes_ok_app in Hb as [? _].
Qed.

Lemma extends_own w rest : bw_ok w -> extends w (bw_data w ++ rest).
Proof.
  intros [_ Hw]. unfold extends. case_decide as Hz; [by apply prefix_app_r|].
  destruct (Hw Hz) as (d & b & -> & Hb). exists d, b, b, rest.
  split_and!; [done|by rewrite <- app_assoc|by apply Z.mod_small].
Qed.

Lemma new_bit_writer_ok w : bw_ok (new_bit_writer w).
Proof. split; simpl; [lia|done]. Qed.

(** Writing a sequence of sized values, and reading a sequence of sizes. *)
Fixpoint write_seq (l : list (Z * Z)) (w : mono_bit_writer) : option mono_bit_writer :=
  match l with
  | [] => Some w
  | (size, value) :: l =>
      match bit_write size value w with Some w => write_seq l w | None => None end
  end.

Fixpoint read_seq (sizes : list Z) (r : mono_bit_reader) : option (list Z * mono_bit_reader) :=
  match sizes with
  | [] => Some ([], r)
  | size :: sizes =>
      match bit_read size r with
      | None => None
      | Some (v, r) =>
          match read_seq sizes r with None => None | Some (vs, r) => Some (v :: vs, r) end
      end
  end.

Definition fits (p : Z * Z) : Prop := 0 <= p.1 <= 32 /\ 0 <= p.2 < 2 ^ p.1.

Lemma write_seq_sync l w :
  bw_ok w -> Forall fits l -> bytes_ok (bw_data w) ->
  exists w', write_seq l w = Some w' /\ bw_ok w' /\ bytes_ok (bw_data w') /\
    forall F, bytes_ok F -> extends w' F -> extends w F /\
      forall r, synced w F r -> exists r', read_seq l.*1 r = Some (l.*2, r') /\ synced w' F r'.
Proof.
  revert w. induction l as [|[size value] l IH]; intros w Hw Hl Hb;
    rewrite ?fmap_cons; cbn [write_seq read_seq fst snd].
  { exists w. split_and!; try done. intros F HF He. split; [done|]. intros r Hr. by exists r. }
  apply Forall_cons_iff in Hl as [[Hs Hv] Hl]. simpl in Hs, Hv.
  destruct (write_total size value w Hw (proj1 Hs)) as [w1 E]. rewrite E.
  destruct (write_read_sync _ _ _ _ Hw Hs Hv E) as [Hw1 Hsync].
  destruct (IH w1 Hw1 Hl) as (w' & -> & Hw' & Hb' & IHs).
  { by eapply write_bytes_ok, E; try lia. }
  exists w'. split_and!; try done. intros F HF He.
  destruct (IHs F HF He) as [He1 IHr]. destruct (Hsync F HF He1) as [He0 Hrd].
  split; [done|]. intros r Hr. destruct (Hrd r Hr) as (r1 & -> & Hr1).
  destruct (IHr r1 Hr1) as (r' & -> & Hr'). by exists r'.
Qed.

(** Values written bit by bit after existing bytes are read back in order with
    the same sizes; the writer always finishes, keeps what was written before,
    and the reader has consumed exactly the bytes that were added. *)
Lemma bits_roundtrip w0 l rest :
  bytes_ok w0 -> bytes_ok rest -> Forall fits l ->
  exists w, write_seq l (new_bit_writer w0) = Some w /\
    exists added, bw_data w = w0 ++ added /\ bytes_ok added /\
    exists r, read_seq l.*1 (new_bit_reader (added ++ rest)) = Some (l.*2, r) /\
      br_reader r = rest.
Proof.
  intros H0 Hrest Hl.
  destruct (write_seq_sync l (new_bit_writer w0) (new_bit_writer_ok w0) Hl H0)
    as (w & -> & Hw & Hb & Hs).
  exists w. split; [done|].
  destruct (Hs (bw_data w ++ rest)) as [He Hr];
    [by apply bytes_ok_app|by apply extends_own|].
  assert (exists added, bw_data w = w0 ++ added) as [added Ha].
  { destruct (Hs (bw_data w)) as [He' _]; [done| |].
    - rewrite <- (app_nil_r (bw_data w)) at 1. by apply extends_own.
    - destruct He' as [k Hk]. by exists k. }
  exists added. split; [done|]. rewrite Ha in Hb. split; [by apply bytes_ok_app in Hb as [_ ?]|].
  destruct (Hr (new_bit_reader (added ++ rest))) as (r & Hread & Hsync).
  { split_and!; simpl; [done| |done]. rewrite Ha, <- app_assoc. by rewrite drop_app_length. }
  exists r. split; [done|]. destruct Hsync as (_ & -> & _). by rewrite drop_app_length.
Qed.

End Bits.
