(* ===== verification/Charset.v ===== *)
(** * Charset: character sets and collations

    The parts of strings/ the key encoders call through a [CHARSET_INFO]:
    decoding and encoding of UTF-8 (ctype-utf8.h, ctype-utf8.c), the weight
    functions [strnxfrm] of the binary and the simple 8-bit collations
    (ctype-simple.c, ctype-bin.c, ctype-utf8.c, strcoll.inl) and the search
    for trailing spaces (strings_def.h).  A function that fills a buffer
    [dst, dst + dstlen) returns the bytes it has written from [dst] on. *)

From S2P Require Import Prelude Buff.

Module Charset.

(** ** Results of [mb_wc] and [wc_mb]

    The C functions return the number of bytes read or written when it is
    positive, and an error code otherwise. *)

Inductive mb_res :=
  | MB (n : nat) (wc : Z)
  | MB_ERR (code : Z).

Inductive wc_res :=
  | WC (out : bytes)
  | WC_ERR (code : Z).

Definition MY_CS_ILSEQ : Z := 0.
Definition MY_CS_ILUNI : Z := 0.
Definition MY_CS_TOOSMALLN (n : Z) : Z := -100 - n.
Definition MY_CS_TOOSMALL : Z := -101.

Definition MY_STRXFRM_PAD_WITH_SPACE : Z := 64.
Definition MY_STRXFRM_PAD_TO_MAXLEN : Z := 128.
Definition MY_STRXFRM_DESC_LEVEL1 : Z := 256.
Definition MY_STRXFRM_REVERSE_LEVEL1 : Z := 65536.
Definition MY_CS_REPLACEMENT_CHARACTER : Z := 65533.

Definition has_flag (flags f : Z) : bool := negb (Z.land flags f =? 0).

(** ** UTF-8 *)

Abbreviation IS_CONTINUATION_BYTE c := (Z.lxor c 128 <? 64).

Abbreviation IS_UTF8MB3_STEP2 b0 b1 b2 :=
  (IS_CONTINUATION_BYTE b1 && IS_CONTINUATION_BYTE b2 && ((225 <=? b0) || (160 <=? b1))).

Abbreviation IS_UTF8MB4_STEP2 b0 b1 b2 b3 :=
  (IS_CONTINUATION_BYTE b1 && IS_CONTINUATION_BYTE b2 && IS_CONTINUATION_BYTE b3 &&
  ((241 <=? b0) || (144 <=? b1)) && ((b0 <=? 243) || (b1 <=? 143))).

Abbreviation UTF8MB2_CODE b0 b1 :=
  (Z.lor (Z.shiftl (Z.land b0 31) 6) (Z.lxor b1 128)).

Abbreviation UTF8MB3_CODE b0 b1 b2 :=
  (Z.lor (Z.lor (Z.shiftl (Z.land b0 15) 12) (Z.shiftl (Z.lxor b1 128) 6)) (Z.lxor b2 128)).

Abbreviation UTF8MB4_CODE b0 b1 b2 b3 :=
  (Z.lor (Z.lor (Z.lor (Z.shiftl (Z.land b0 7) 18) (Z.shiftl (Z.lxor b1 128) 12))
    (Z.shiftl (Z.lxor b2 128) 6)) (Z.lxor b3 128)).

Definition my_mb_wc_utf8mb3_quick (s : bytes) : mb_res :=
  match s with
  | [] => MB_ERR MY_CS_TOOSMALL
  | c :: s =>
      if c <? 128 then MB 1 c
      else if c <? 194 then MB_ERR MY_CS_ILSEQ
      else if c <? 224 then
        match s with
        | s1 :: _ =>
            if negb (IS_CONTINUATION_BYTE s1) then MB_ERR MY_CS_ILSEQ
            else MB 2 (UTF8MB2_CODE c s1)
        | _ => MB_ERR (MY_CS_TOOSMALLN 2)
        end
      else if c <? 240 then
        match s with
        | s1 :: s2 :: _ =>
            if negb (IS_UTF8MB3_STEP2 c s1 s2) then MB_ERR MY_CS_ILSEQ
            else MB 3 (UTF8MB3_CODE c s1 s2)
        | _ => MB_ERR (MY_CS_TOOSMALLN 3)
        end
      else MB_ERR MY_CS_ILSEQ
  end.

Definition my_mb_wc_utf8mb4_quick (s : bytes) : mb_res :=
  match s with
  | [] => MB_ERR MY_CS_TOOSMALL
  | c :: s =>
      if c <? 128 then MB 1 c
      else if c <? 194 then MB_ERR MY_CS_ILSEQ
      else if c <? 224 then
        match s with
        | s1 :: _ =>
            if negb (IS_CONTINUATION_BYTE s1) then MB_ERR MY_CS_ILSEQ
            else MB 2 (UTF8MB2_CODE c s1)
        | _ => MB_ERR (MY_CS_TOOSMALLN 2)
        end
      else if c <? 240 then
        match s with
        | s1 :: s2 :: _ =>
            if negb (IS_UTF8MB3_STEP2 c s1 s2) then MB_ERR MY_CS_ILSEQ
            else MB 3 (UTF8MB3_CODE c s1 s2)
        | _ => MB_ERR (MY_CS_TOOSMALLN 3)
        end
      else if c <? 245 then
        match s with
        | s1 :: s2 :: s3 :: _ =>
            if negb (IS_UTF8MB4_STEP2 c s1 s2 s3) then MB_ERR MY_CS_ILSEQ
            else MB 4 (UTF8MB4_CODE c s1 s2 s3)
        | _ => MB_ERR (MY_CS_TOOSMALLN 4)
        end
      else MB_ERR MY_CS_ILSEQ
  end.

(** [my_uni_utf8mb3(wc, r, e)] with [room = e - r]. *)
Definition my_uni_utf8mb3 (wc : Z) (room : nat) : wc_res :=
  if wc <? 128 then
    if (room <? 1)%nat then WC_ERR MY_CS_TOOSMALL else WC [uchar_of wc]
  else if wc <? 2048 then
    if (room <? 2)%nat then WC_ERR (MY_CS_TOOSMALLN 2)
    else WC [uchar_of (Z.lor 192 (Z.shiftr wc 6)); uchar_of (Z.lor 128 (Z.land wc 63))]
  else if wc <? 65536 then
    if (room <? 3)%nat then WC_ERR (MY_CS_TOOSMALLN 3)
    else WC [uchar_of (Z.lor 224 (Z.shiftr wc 12));
             uchar_of (Z.lor 128 (Z.land (Z.shiftr wc 6) 63));
             uchar_of (Z.lor 128 (Z.land wc 63))]
  else WC_ERR MY_CS_ILUNI.

(** The falling-through [switch] of [my_wc_mb_utf8mb4]: the cases 1 to 4, each
    storing its byte and continuing with the case below it. *)
Abbreviation wc_case1 wc := [uchar_of wc] (only parsing).
Definition wc_case2 (wc : Z) : bytes :=
  wc_case1 (Z.lor (Z.shiftr wc 6) 192) ++ [uchar_of (Z.lor 128 (Z.land wc 63))].
Definition wc_case3 (wc : Z) : bytes :=
  wc_case2 (Z.lor (Z.shiftr wc 6) 2048) ++ [uchar_of (Z.lor 128 (Z.land wc 63))].
Definition wc_case4 (wc : Z) : bytes :=
  wc_case3 (Z.lor (Z.shiftr wc 6) 65536) ++ [uchar_of (Z.lor 128 (Z.land wc 63))].

Definition my_wc_mb_utf8mb4 (wc : Z) (room : nat) : wc_res :=
  if (room =? 0)%nat then WC_ERR MY_CS_TOOSMALL
  else
    let emit count out :=
      if (room <? count)%nat then WC_ERR (MY_CS_TOOSMALLN (Z.of_nat count)) else WC out in
    if wc <? 128 then emit 1%nat (wc_case1 wc)
    else if wc <? 2048 then emit 2%nat (wc_case2 wc)
    else if wc <? 65536 then emit 3%nat (wc_case3 wc)
    else if wc <? 2097152 then emit 4%nat (wc_case4 wc)
    else WC_ERR MY_CS_ILUNI.

Definition my_mb_wc_bin (s : bytes) : mb_res :=
  match s with [] => MB_ERR MY_CS_TOOSMALL | c :: _ => MB 1 c end.

Definition my_wc_mb_bin (wc : Z) (room : nat) : wc_res :=
  if (room =? 0)%nat then WC_ERR MY_CS_TOOSMALL
  else if wc <? 256 then WC [uchar_of wc] else WC_ERR MY_CS_ILUNI.

(** *** Arithmetic reading of the bit operations *)

Lemma lor_hi k x b : 0 <= k -> x mod 2 ^ k = 0 -> 0 <= b < 2 ^ k -> Z.lor x b = x + b.
Proof.
  intros Hk Hx Hb. pose proof (Z_div_mod_eq_full x (2 ^ k)) as E. rewrite Hx in E.
  rewrite Z.lor_comm. rewrite E at 1. rewrite Z.add_0_r, Z.mul_comm, <- Z.shiftl_mul_pow2 by done.
  rewrite Bits.lor_shiftl_add by done. lia.
Qed.

Lemma land_low k x : 0 <= k -> Z.land x (Z.ones k) = x mod 2 ^ k.
Proof. apply Z.land_ones. Qed.

Lemma lxor_128 b : byte_ok b -> Z.lxor b 128 = if b <? 128 then b + 128 else b - 128.
Proof.
  intros Hb. apply Z.eqb_eq.
  revert b Hb. apply (Z_range_forall 256 (fun b => Z.lxor b 128 =? if b <? 128 then b + 128 else b - 128)).
  by vm_compute.
Qed.

Lemma is_cont b : byte_ok b -> IS_CONTINUATION_BYTE b = true <-> 128 <= b < 192.
Proof.
  intros Hb. rewrite lxor_128 by done. unfold byte_ok in Hb.
  destruct (Z.ltb_spec b 128); rewrite Z.ltb_lt; lia.
Qed.

Lemma is_cont_true b : 128 <= b < 192 -> IS_CONTINUATION_BYTE b = true.
Proof. intros H. apply is_cont; [unfold byte_ok; lia|done]. Qed.

Lemma lxor_cont b : 128 <= b < 192 -> Z.lxor b 128 = b - 128.
Proof. intros H. rewrite lxor_128 by (unfold byte_ok; dlia). destruct (Z.ltb_spec b 128); lia. Qed.

Lemma cont_byte wc : uchar_of (Z.lor 128 (Z.land wc 63)) = 128 + wc mod 64.
Proof.
  change 63 with (Z.ones 6). rewrite land_low by lia. change (2 ^ 6) with 64.
  rewrite (lor_hi 6) by (dlia || done). apply uchar_of_id. unfold byte_ok. dlia.
Qed.

Lemma utf8mb2_code b0 b1 : 194 <= b0 < 224 -> 128 <= b1 < 192 ->
  UTF8MB2_CODE b0 b1 = (b0 - 192) * 64 + (b1 - 128).
Proof.
  intros H0 H1. rewrite lxor_cont by done.
  change 31 with (Z.ones 5). rewrite land_low, Z.shiftl_mul_pow2 by lia.
  rewrite (lor_hi 6) by dlia. change (2 ^ 5) with 32. dlia.
Qed.

Lemma utf8mb3_code b0 b1 b2 : 224 <= b0 < 240 -> 128 <= b1 < 192 -> 128 <= b2 < 192 ->
  UTF8MB3_CODE b0 b1 b2 = (b0 - 224) * 4096 + (b1 - 128) * 64 + (b2 - 128).
Proof.
  intros H0 H1 H2. rewrite !lxor_cont by done.
  change 15 with (Z.ones 4). rewrite land_low, !Z.shiftl_mul_pow2 by lia.
  change (2 ^ 4) with 16. change (2 ^ 12) with 4096. change (2 ^ 6) with 64.
  rewrite (lor_hi 12 (_ * 4096)), (lor_hi 6) by dlia. dlia.
Qed.

Lemma utf8mb4_code b0 b1 b2 b3 :
  240 <= b0 < 245 -> 128 <= b1 < 192 -> 128 <= b2 < 192 -> 128 <= b3 < 192 ->
  UTF8MB4_CODE b0 b1 b2 b3 =
    (b0 - 240) * 262144 + (b1 - 128) * 4096 + (b2 - 128) * 64 + (b3 - 128).
Proof.
  intros H0 H1 H2 H3. rewrite !lxor_cont by done.
  change 7 with (Z.ones 3). rewrite land_low, !Z.shiftl_mul_pow2 by lia.
  change (2 ^ 3) with 8. change (2 ^ 18) with 262144. change (2 ^ 12) with 4096.
  change (2 ^ 6) with 64.
  rewrite (lor_hi 18 (_ * 262144)), (lor_hi 12 (_ + _ * 4096)), (lor_hi 6) by dlia. dlia.
Qed.

Lemma wc_case2_eq wc : 128 <= wc < 2048 -> wc_case2 wc = [192 + wc / 64; 128 + wc mod 64].
Proof.
  intros H. unfold wc_case2. rewrite cont_byte, Z.shiftr_div_pow2 by lia.
  change (2 ^ 6) with 64. rewrite Z.lor_comm, (lor_hi 6) by (dlia || done).
  rewrite uchar_of_id by (unfold byte_ok; dlia). done.
Qed.

Lemma wc_case3_eq wc : 2048 <= wc < 65536 ->
  wc_case3 wc = [224 + wc / 4096; 128 + wc / 64 mod 64; 128 + wc mod 64].
Proof.
  intros H. unfold wc_case3, wc_case2. rewrite !cont_byte, !Z.shiftr_div_pow2 by lia.
  change (2 ^ 6) with 64.
  rewrite (Z.lor_comm _ 2048), (lor_hi 11 2048) by (dlia || done).
  rewrite (Z.lor_comm _ 192), (lor_hi 6 192) by (dlia || done).
  rewrite uchar_of_id by (unfold byte_ok; dlia). simpl app. bytes_dlia.
Qed.

Lemma wc_case4_eq wc : 65536 <= wc < 2097152 ->
  wc_case4 wc = [240 + wc / 262144; 128 + wc / 4096 mod 64; 128 + wc / 64 mod 64; 128 + wc mod 64].
Proof.
  intros H. unfold wc_case4, wc_case3, wc_case2.
  rewrite !cont_byte, !Z.shiftr_div_pow2 by lia. change (2 ^ 6) with 64.
  rewrite (Z.lor_comm _ 65536), (lor_hi 16 65536) by (dlia || done).
  rewrite (Z.lor_comm _ 2048), (lor_hi 11 2048) by (dlia || done).
  rewrite (Z.lor_comm _ 192), (lor_hi 6 192) by (dlia || done).
  rewrite uchar_of_id by (unfold byte_ok; dlia). simpl app. bytes_dlia.
Qed.

(** *** What the decoder accepts *)

Lemma mb_wc_utf8mb4_inv s n wc :
  bytes_ok s -> my_mb_wc_utf8mb4_quick s = MB n wc ->
  0 <= wc < 1114112 /\ (1 <= n <= 4)%nat /\ (n <= length s)%nat /\
  my_wc_mb_utf8mb4 wc n = WC (take n s).
Proof.
  intros Hs. destruct s as [|c s]; [done|]. apply bytes_ok_cons in Hs as [Hc Hs].
  cbn [my_mb_wc_utf8mb4_quick]. unfold byte_ok in Hc.
  destruct (Z.ltb_spec c 128) as [H1|H1].
  { intros [= <- <-]. split_and!; simpl; try lia. unfold my_wc_mb_utf8mb4.
    rewrite uchar_of_id by (unfold byte_ok; lia).
    by rewrite (proj2 (Z.ltb_lt c 128)) by lia. }
  destruct (Z.ltb_spec c 194) as [H2|H2]; [done|].
  destruct (Z.ltb_spec c 224) as [H3|H3].
  { destruct s as [|s1 s]; [done|]. apply bytes_ok_cons in Hs as [Hs1 Hs].
    destruct (IS_CONTINUATION_BYTE s1) eqn:E1; [|done].
    apply is_cont in E1; [|done]. simpl. rewrite utf8mb2_code by lia.
    intros [= <- <-]. split_and!; simpl; try lia. unfold my_wc_mb_utf8mb4. simpl Nat.eqb.
    rewrite (proj2 (Z.ltb_ge _ 128)), (proj2 (Z.ltb_lt _ 2048)), wc_case2_eq by lia.
    simpl. f_equal. bytes_dlia. }
  destruct (Z.ltb_spec c 240) as [H4|H4].
  { destruct s as [|s1 [|s2 s]]; [done..|]. rewrite !bytes_ok_cons in Hs.
    destruct Hs as (Hs1 & Hs2 & Hs).
    destruct (IS_CONTINUATION_BYTE s1) eqn:E1, (IS_CONTINUATION_BYTE s2) eqn:E2; try done.
    apply is_cont in E1, E2; try done.
    destruct (Z.leb_spec 225 c), (Z.leb_spec 160 s1); simpl; try done;
      rewrite utf8mb3_code by lia; intros [= <- <-]; split_and!; simpl; try lia;
      unfold my_wc_mb_utf8mb4; simpl Nat.eqb;
      rewrite (proj2 (Z.ltb_ge _ 128)), (proj2 (Z.ltb_ge _ 2048)), (proj2 (Z.ltb_lt _ 65536)),
        wc_case3_eq by lia; simpl; f_equal; bytes_dlia. }
  destruct (Z.ltb_spec c 245) as [H5|H5]; [|done].
  destruct s as [|s1 [|s2 [|s3 s]]]; [done..|]. rewrite !bytes_ok_cons in Hs.
  destruct Hs as (Hs1 & Hs2 & Hs3 & Hs).
  destruct (IS_CONTINUATION_BYTE s1) eqn:E1, (IS_CONTINUATION_BYTE s2) eqn:E2,
    (IS_CONTINUATION_BYTE s3) eqn:E3; try done.
  apply is_cont in E1, E2, E3; try done.
  destruct (Z.leb_spec 241 c), (Z.leb_spec 144 s1), (Z.leb_spec c 243), (Z.leb_spec s1 143);
    simpl; try done;
    rewrite utf8mb4_code by lia; intros [= <- <-]; split_and!; simpl; try lia;
    unfold my_wc_mb_utf8mb4; simpl Nat.eqb;
    rewrite (proj2 (Z.ltb_ge _ 128)), (proj2 (Z.ltb_ge _ 2048)), (proj2 (Z.ltb_ge _ 65536)),
      (proj2 (Z.ltb_lt _ 2097152)), wc_case4_eq by lia; simpl; f_equal; bytes_dlia.
Qed.

(** A larger buffer does not change what is encoded. *)
Lemma wc_mb_utf8mb4_room wc n room out :
  my_wc_mb_utf8mb4 wc n = WC out -> (n <= room)%nat -> my_wc_mb_utf8mb4 wc room = WC out.
Proof.
  intros H Hn. unfold my_wc_mb_utf8mb4 in *.
  destruct (Nat.eqb_spec n 0); [done|]. destruct (Nat.eqb_spec room 0); [lia|].
  repeat match goal with
  | |- context [if ?b then _ else _] => destruct b eqn:?
  | H : context [if ?b then _ else _] |- _ => destruct b eqn:?
  end; try done; repeat match goal with
  | H : (_ <? _)%nat = true |- _ => apply Nat.ltb_lt in H
  | H : (_ <? _)%nat = false |- _ => apply Nat.ltb_ge in H
  end; lia.
Qed.

(** Every code point up to U+10FFFF is decoded from what the encoder wrote,
    whatever follows. *)
Lemma mb_wc_wc_mb_utf8mb4 wc room out r :
  0 <= wc < 1114112 -> my_wc_mb_utf8mb4 wc room = WC out ->
  my_mb_wc_utf8mb4_quick (out ++ r) = MB (length out) wc /\ bytes_ok out /\
  (length out <= room)%nat.
Proof.
  intros Hwc. unfold my_wc_mb_utf8mb4. destruct (Nat.eqb_spec room 0); [done|].
  destruct (Z.ltb_spec wc 128) as [H1|H1]; [|destruct (Z.ltb_spec wc 2048) as [H2|H2];
    [|destruct (Z.ltb_spec wc 65536) as [H3|H3]; [|destruct (Z.ltb_spec wc 2097152); [|done]]]].
  all: match goal with |- context [(?a <? ?b)%nat] => destruct (Nat.ltb_spec a b); [done|] end.
  - rewrite uchar_of_id by (unfold byte_ok; lia). intros [= <-].
    simpl. rewrite (proj2 (Z.ltb_lt wc 128)) by lia. auto with bytes.
  - rewrite wc_case2_eq by lia. intros [= <-]. simpl.
    rewrite (proj2 (Z.ltb_ge _ 128)), (proj2 (Z.ltb_ge _ 194)), (proj2 (Z.ltb_lt _ 224)) by dlia.
    rewrite is_cont_true by dlia. simpl.
    rewrite utf8mb2_code by dlia. split_and!; [f_equal; dlia| |lia].
    repeat constructor; dlia.
  - rewrite wc_case3_eq by lia. intros [= <-]. simpl.
    rewrite (proj2 (Z.ltb_ge _ 128)), (proj2 (Z.ltb_ge _ 194)), (proj2 (Z.ltb_ge _ 224)),
      (proj2 (Z.ltb_lt _ 240)) by dlia.
    rewrite !is_cont_true by dlia.
    rewrite utf8mb3_code by dlia.
    destruct (Z.leb_spec 225 (224 + wc / 4096)), (Z.leb_spec 160 (128 + (wc / 64) mod 64));
      simpl; try (split_and!; [f_equal; dlia| |lia]; repeat constructor; dlia).
  - rewrite wc_case4_eq by lia. intros [= <-]. simpl.
    rewrite (proj2 (Z.ltb_ge _ 128)), (proj2 (Z.ltb_ge _ 194)), (proj2 (Z.ltb_ge _ 224)),
      (proj2 (Z.ltb_ge _ 240)), (proj2 (Z.ltb_lt _ 245)) by dlia.
    rewrite !is_cont_true by dlia.
    rewrite utf8mb4_code by dlia.
    destruct (Z.leb_spec 241 (240 + wc / 262144)), (Z.leb_spec 144 (128 + (wc / 4096) mod 64)),
      (Z.leb_spec (240 + wc / 262144) 243), (Z.leb_spec (128 + (wc / 4096) mod 64) 143);
      simpl; try (exfalso; dlia);
      (split_and!; [f_equal; dlia| |lia]; repeat constructor; dlia).
Qed.

(** utf8mb3 accepts exactly the sequences of utf8mb4 of at most three bytes. *)
Lemma mb_wc_utf8mb3_mb4 s n wc :
  my_mb_wc_utf8mb3_quick s = MB n wc <-> my_mb_wc_utf8mb4_quick s = MB n wc /\ (n <= 3)%nat.
Proof.
  destruct s as [|c s]; [naive_solver|].
  cbn [my_mb_wc_utf8mb3_quick my_mb_wc_utf8mb4_quick].
  repeat case_match; naive_solver lia.
Qed.

(** The two encoders agree on the basic plane. *)
Lemma uni_utf8mb3_mb4 wc room :
  0 <= wc < 65536 -> (room <> 0)%nat -> my_uni_utf8mb3 wc room = my_wc_mb_utf8mb4 wc room.
Proof.
  intros Hwc Hr. unfold my_uni_utf8mb3, my_wc_mb_utf8mb4.
  destruct (Nat.eqb_spec room 0); [done|].
  destruct (Z.ltb_spec wc 128); [done|].
  destruct (Z.ltb_spec wc 2048).
  { rewrite wc_case2_eq, cont_byte by lia. rewrite Z.shiftr_div_pow2 by lia.
    change (2 ^ 6) with 64. rewrite (lor_hi 6) by (dlia || done).
    by rewrite uchar_of_id by (unfold byte_ok; dlia). }
  destruct (Z.ltb_spec wc 65536); [|lia].
  rewrite wc_case3_eq, !cont_byte by lia. rewrite !Z.shiftr_div_pow2 by lia.
  change (2 ^ 6) with 64. change (2 ^ 12) with 4096.
  rewrite (lor_hi 4) by (dlia || done). by rewrite uchar_of_id by (unfold byte_ok; dlia).
Qed.

(** ** Reversal and complement of weights *)

(** The two-pointer loops of [my_strxfrm_desc_and_reverse] on [str, strend):
    indices [i] and [j] (the pointer [strend] after its decrement), both ends
    exchanged through [f] while [cont i j] holds. *)
Fixpoint exchange_loop (fuel : nat) (f : Z -> Z) (cont : Z -> Z -> bool) (i j : Z)
    (l : bytes) : bytes :=
  match fuel with
  | O => l
  | S fuel =>
      if cont i j then
        let a := nth (Z.to_nat i) l 0 in
        let b := nth (Z.to_nat j) l 0 in
        exchange_loop fuel f cont (i + 1) (j - 1)
          (<[Z.to_nat j := f a]> (<[Z.to_nat i := f b]> l))
      else l
  end.

Abbreviation complement := (fun b : Z => uchar_of (Z.lnot b)) (only parsing).

Definition my_strxfrm_desc_and_reverse (l : bytes) (flags level : Z) : bytes :=
  let j := Z.of_nat (length l) - 1 in
  if has_flag flags (Z.shiftl MY_STRXFRM_DESC_LEVEL1 level) then
    if has_flag flags (Z.shiftl MY_STRXFRM_REVERSE_LEVEL1 level) then
      exchange_loop (length l) complement Z.leb 0 j l
    else map complement l
  else if has_flag flags (Z.shiftl MY_STRXFRM_REVERSE_LEVEL1 level) then
    exchange_loop (length l) id Z.ltb 0 j l
  else l.

(** [my_ci_fill] with a one-byte pad character. *)
Definition my_fill_8bit (len : nat) (fill : Z) : bytes := replicate len (uchar_of fill).

(** [frm] are the weights in [str, frmend), [room] is [strend - str]. *)
Definition my_strxfrm_pad_desc_and_reverse (mbminlen : nat) (pad_char : Z) (frm : bytes)
    (room nweights : nat) (flags level : Z) : bytes :=
  let frm1 :=
    if negb (nweights =? 0)%nat && (length frm <? room)%nat
         && has_flag flags MY_STRXFRM_PAD_WITH_SPACE
    then frm ++ my_fill_8bit (Nat.min (room - length frm) (nweights * mbminlen)) pad_char
    else frm in
  let frm2 := my_strxfrm_desc_and_reverse frm1 flags level in
  if has_flag flags MY_STRXFRM_PAD_TO_MAXLEN && (length frm2 <? room)%nat
  then frm2 ++ my_fill_8bit (room - length frm2) pad_char
  else frm2.

(** ** 8-bit collations *)

Definition my_strnxfrm_simple_internal (map_ : Z -> Z) (dstlen nweights : nat) (src : bytes)
  : bytes * nat :=
  let frmlen := Nat.min (Nat.min dstlen nweights) (length src) in
  (map map_ (take frmlen src), (nweights - frmlen)%nat).

Definition my_strnxfrm_simple (map_ : Z -> Z) (mbminlen : nat) (pad_char : Z)
    (dstlen nweights : nat) (src : bytes) (flags : Z) : bytes :=
  let '(d, nweights) := my_strnxfrm_simple_internal map_ dstlen nweights src in
  my_strxfrm_pad_desc_and_reverse mbminlen pad_char d dstlen nweights flags 0.

Definition my_strnxfrm_8bit_bin (mbminlen : nat) (pad_char : Z)
    (dstlen nweights : nat) (src : bytes) (flags : Z) : bytes :=
  let srclen := Nat.min (Nat.min (length src) dstlen) nweights in
  my_strxfrm_pad_desc_and_reverse mbminlen pad_char (take srclen src) dstlen
    (nweights - srclen) flags 0.

Definition my_strnxfrmlen_simple (strxfrm_multiply len : nat) : nat :=
  (len * (if (strxfrm_multiply =? 0)%nat then 1 else strxfrm_multiply))%nat.

(** ** Unicode binary collations *)

(** Putting as many bytes of one weight as there is room for. *)
Definition put (room : nat) (w : bytes) : bytes := take room w.

Fixpoint my_strxfrm_pad_nweights_unicode (nweights room : nat) : bytes :=
  match nweights with
  | O => []
  | S n =>
      if (room =? 0)%nat then []
      else put room [0; 32] ++ my_strxfrm_pad_nweights_unicode n (room - 2)
  end.

(** The loop runs at most [room] times. *)
Definition my_strxfrm_pad_unicode (room : nat) : bytes :=
  my_strxfrm_pad_nweights_unicode room room.

Definition my_strnxfrmlen_unicode (mbmaxlen len : nat) : nat :=
  ((len + mbmaxlen - 1) / mbmaxlen * 2)%nat.

(** [strnxfrm_internal] of strcoll.inl for utf8mb3_bin (OPTIMIZE_ASCII). *)
Fixpoint strnxfrm_internal_utf8mb3_bin (nweights room : nat) (src : bytes) : bytes * nat :=
  match nweights with
  | O => ([], O)
  | S n =>
      if (room =? 0)%nat then ([], nweights)
      else
        match src with
        | [] => ([], nweights)
        | c :: src' =>
            if c <=? 127 then
              let w := put room [uchar_of (Z.shiftr c 8); uchar_of (Z.land c 255)] in
              let '(d, k) := strnxfrm_internal_utf8mb3_bin n (room - length w) src' in
              (w ++ d, k)
            else
              match my_mb_wc_utf8mb3_quick src with
              | MB res wc =>
                  let wc := if 65535 <? wc then MY_CS_REPLACEMENT_CHARACTER else wc in
                  let w := put room [uchar_of (Z.shiftr wc 8); uchar_of (Z.land wc 255)] in
                  let '(d, k) := strnxfrm_internal_utf8mb3_bin n (room - length w) (drop res src) in
                  (w ++ d, k)
              | MB_ERR _ => ([], nweights)
              end
        end
  end.

Definition my_strnxfrm_utf8mb3_bin (dstlen nweights : nat) (src : bytes) (flags : Z) : bytes :=
  let '(d, nweights) := strnxfrm_internal_utf8mb3_bin nweights dstlen src in
  let d1 :=
    if (length d <? dstlen)%nat && negb (nweights =? 0)%nat
         && has_flag flags MY_STRXFRM_PAD_WITH_SPACE
    then d ++ my_strxfrm_pad_nweights_unicode nweights (dstlen - length d) else d in
  let d2 := my_strxfrm_desc_and_reverse d1 flags 0 in
  if has_flag flags MY_STRXFRM_PAD_TO_MAXLEN && (length d2 <? dstlen)%nat
  then d2 ++ my_strxfrm_pad_unicode (dstlen - length d2) else d2.

Fixpoint my_strnxfrm_unicode_full_bin_internal (mb_wc : bytes -> mb_res) (nweights room : nat)
    (src : bytes) : bytes * nat :=
  match nweights with
  | O => ([], O)
  | S n =>
      if (room =? 0)%nat then ([], nweights)
      else
        match mb_wc src with
        | MB res wc =>
            let w := put room [uchar_of (Z.shiftr wc 16);
                               uchar_of (Z.land (Z.shiftr wc 8) 255);
                               uchar_of (Z.land wc 255)] in
            let '(d, k) :=
              my_strnxfrm_unicode_full_bin_internal mb_wc n (room - length w) (drop res src) in
            (w ++ d, k)
        | MB_ERR _ => ([], nweights)
        end
  end.

(** The two padding loops of [my_strnxfrm_unicode_full_bin]; the second one,
    bounded by the buffer only, runs at most [room] times. *)
Fixpoint pad_full_bin (nweights room : nat) : bytes :=
  match nweights with
  | O => []
  | S n => if (room =? 0)%nat then [] else put room [0; 0; 32] ++ pad_full_bin n (room - 3)
  end.

Definition my_strnxfrm_unicode_full_bin (mb_wc : bytes -> mb_res) (dstlen nweights : nat)
    (src : bytes) (flags : Z) : bytes :=
  let '(d, nweights) := my_strnxfrm_unicode_full_bin_internal mb_wc nweights dstlen src in
  let d1 :=
    if has_flag flags MY_STRXFRM_PAD_WITH_SPACE
    then d ++ pad_full_bin nweights (dstlen - length d) else d in
  let d2 := my_strxfrm_desc_and_reverse d1 flags 0 in
  if has_flag flags MY_STRXFRM_PAD_TO_MAXLEN
  then d2 ++ pad_full_bin (dstlen - length d2) (dstlen - length d2) else d2.

Definition my_strnxfrmlen_unicode_full_bin (mbmaxlen len : nat) : nat :=
  ((len + 3) / mbmaxlen * 3)%nat.

(** The loops exchange the segment between the two indices. *)
Lemma exchange_loop_lookup fuel f cont i j l (p : nat) :
  (cont = Z.leb \/ (cont = Z.ltb /\ f = id)) ->
  0 <= i -> i + j = Z.of_nat (length l) - 1 -> j - i < 2 * Z.of_nat fuel ->
  exchange_loop fuel f cont i j l !! p =
    if (i <=? Z.of_nat p) && (Z.of_nat p <=? j) then f <$> l !! (length l - 1 - p)%nat else l !! p.
Proof.
  intros Hc. revert i j l. induction fuel as [|fuel IH]; intros i j l Hi Hij Hf; cbn [exchange_loop].
  { destruct (Z.leb_spec i (Z.of_nat p)), (Z.leb_spec (Z.of_nat p) j); simpl; try done. lia. }
  destruct (cont i j) eqn:Hcont.
  - assert (i <= j) by (destruct Hc as [->|[-> _]];
      [by apply Z.leb_le in Hcont|apply Z.ltb_lt in Hcont; lia]).
    rewrite IH by (rewrite ?length_insert; lia). rewrite !length_insert, !list_lookup_insert.
    rewrite !length_insert.
    assert (forall k, (k < length l)%nat -> l !! k = Some (nth k l 0)) as Hn.
    { intros k Hk. destruct (l !! k) eqn:E; [by rewrite nth_lookup, E|].
      apply lookup_ge_None in E. lia. }
    repeat case_decide; destruct (Z.leb_spec i (Z.of_nat p)), (Z.leb_spec (Z.of_nat p) j),
      (Z.leb_spec (i + 1) (Z.of_nat p)), (Z.leb_spec (Z.of_nat p) (j - 1)); simpl; try lia; try done.
    all: rewrite Hn by lia; simpl; repeat f_equal; lia.
  - assert (j <= i /\ (j = i -> f = id)) as [Hji Hf'].
    { destruct Hc as [->|[-> ->]]; [apply Z.leb_gt in Hcont; lia|].
      apply Z.ltb_ge in Hcont. split; [lia|done]. }
    destruct (Z.leb_spec i (Z.of_nat p)), (Z.leb_spec (Z.of_nat p) j); simpl; try done.
    rewrite Hf' by lia. rewrite option_fmap_id. f_equal. lia.
Qed.

Lemma exchange_loop_reverse f cont l :
  (cont = Z.leb \/ (cont = Z.ltb /\ f = id)) ->
  exchange_loop (length l) f cont 0 (Z.of_nat (length l) - 1) l = map f (reverse l).
Proof.
  intros Hc. apply list_eq. intros p. rewrite exchange_loop_lookup by (done || lia).
  change (map f (reverse l)) with (f <$> reverse l). rewrite list_lookup_fmap.
  destruct (Z.leb_spec 0 (Z.of_nat p)); [|lia].
  destruct (Z.leb_spec (Z.of_nat p) (Z.of_nat (length l) - 1)); simpl.
  - rewrite reverse_lookup by lia. do 2 f_equal. lia.
  - rewrite !lookup_ge_None_2 by (rewrite ?length_reverse; lia). done.
Qed.

(** The in-place loops complement and reverse as their flags say. *)
Lemma desc_and_reverse_spec l flags level :
  my_strxfrm_desc_and_reverse l flags level =
    (if has_flag flags (Z.shiftl MY_STRXFRM_DESC_LEVEL1 level) then map complement else id)
      ((if has_flag flags (Z.shiftl MY_STRXFRM_REVERSE_LEVEL1 level) then reverse else id) l).
Proof.
  unfold my_strxfrm_desc_and_reverse. repeat case_match; try done.
  - apply exchange_loop_reverse. by left.
  - rewrite exchange_loop_reverse by (by right). unfold id. by rewrite map_id.
Qed.

(** ** Trailing spaces *)

(** Reference: the length of a string without its trailing spaces. *)
Fixpoint trimmed_length (s : bytes) : nat :=
  match s with
  | [] => O
  | c :: s =>
      let k := trimmed_length s in
      if (k =? 0)%nat && (c =? 32) then O else S k
  end.

Abbreviation SPACE_INT := 538976288 (only parsing).

Definition byte_before (s : bytes) (e : Z) : Z := nth (Z.to_nat (e - 1)) s 0.

(** [while (end > lo && end[-1] == 0x20) end--], pointers as offsets from [ptr]. *)
Fixpoint skip_bytes (fuel : nat) (lo e : Z) (s : bytes) : Z :=
  match fuel with
  | O => e
  | S fuel =>
      if (lo <? e) && (byte_before s e =? 32) then skip_bytes fuel lo (e - 1) s else e
  end.

(** [((unsigned * )end)[-1]] on a little-endian host. *)
Definition word_before (s : bytes) (e : Z) : Z := le_val (take 4 (drop (Z.to_nat (e - 4)) s)).

Fixpoint skip_words (fuel : nat) (lo e : Z) (s : bytes) : Z :=
  match fuel with
  | O => e
  | S fuel =>
      if (lo <? e) && (word_before s e =? SPACE_INT) then skip_words fuel lo (e - 4) s else e
  end.

(** [skip_trailing_space(ptr, len)] for a string at address [addr], as the
    offset of the returned pointer from [ptr]. *)
Definition skip_trailing_space (addr : Z) (s : bytes) : Z :=
  let len := Z.of_nat (length s) in
  let fuel := length s in
  let e :=
    if 20 <? len then
      let end_words := (addr + len) / 4 * 4 - addr in
      let start_words := (addr + 4 - 1) / 4 * 4 - addr in
      if 0 <? end_words then
        let e := skip_bytes fuel end_words len s in
        if (byte_before s e =? 32) && (start_words <? end_words)
        then skip_words fuel start_words e s else e
      else len
    else len in
  skip_bytes fuel 0 e s.

Definition my_lengthsp_8bit (addr : Z) (s : bytes) : nat := Z.to_nat (skip_trailing_space addr s).
Definition my_lengthsp_binary (s : bytes) : nat := length s.

(** [e] is within the string and only spaces follow it. *)
Definition spaces_from (s : bytes) (e : Z) : Prop :=
  0 <= e <= Z.of_nat (length s) /\
  forall i, e <= i < Z.of_nat (length s) -> nth (Z.to_nat i) s 0 = 32.

Lemma skip_bytes_spec fuel lo e s :
  0 <= lo -> spaces_from s e -> (Z.to_nat e <= fuel)%nat ->
  let e' := skip_bytes fuel lo e s in
  spaces_from s e' /\ e' <= e /\ (lo < e' -> byte_before s e' <> 32) /\ (lo <= e -> lo <= e').
Proof.
  intros Hlo. revert e. induction fuel as [|fuel IH]; intros e [He Hs] Hf; cbn [skip_bytes].
  { split_and!; try lia; try done. }
  destruct (Z.ltb_spec lo e) as [Hl|Hl]; simpl.
  2: { split_and!; try done; lia. }
  destruct (Z.eqb_spec (byte_before s e) 32) as [Hb|Hb].
  2: { split_and!; try done; lia. }
  destruct (IH (e - 1)) as (H1 & H2 & H3 & H4); [|lia|].
  - split; [lia|]. intros i Hi. destruct (Z.eq_dec i (e - 1)) as [->|]; [done|].
    apply Hs. lia.
  - split_and!; auto; lia.
Qed.

Lemma space_word w : bytes_ok w -> length w = 4%nat -> le_val w = SPACE_INT -> w = [32; 32; 32; 32].
Proof.
  intros Hw Hl Hv. rewrite <- (le_bytes_le_val w Hw), Hl, Hv. done.
Qed.

Lemma skip_words_spec fuel lo e s :
  bytes_ok s -> 0 <= lo -> (4 | e - lo) -> spaces_from s e -> spaces_from s (skip_words fuel lo e s).
Proof.
  intros Hok Hlo. revert e. induction fuel as [|fuel IH]; intros e Hd Hs; cbn [skip_words]; [done|].
  destruct (Z.ltb_spec lo e) as [Hl|Hl]; simpl; [|done].
  destruct (Z.eqb_spec (word_before s e) SPACE_INT) as [Hb|Hb]; [|done].
  destruct Hd as [q Hq]. apply IH; [exists (q - 1); lia|]. destruct Hs as [He Hs].
  split; [lia|]. intros i Hi. destruct (Z_lt_le_dec i e) as [Hie|Hie]; [|apply Hs; lia].
  apply space_word in Hb; [|auto with bytes|rewrite length_take, length_drop; lia].
  replace (Z.to_nat i) with (Z.to_nat (e - 4) + Z.to_nat (i - (e - 4)))%nat by lia.
  set (j := Z.to_nat (i - (e - 4))). assert (j < 4)%nat by (unfold j; lia).
  rewrite nth_lookup, <- lookup_drop, <- (lookup_take_lt _ 4) by done. rewrite Hb.
  by destruct j as [|[|[|[|]]]]; [..|lia].
Qed.

Lemma trimmed_length_unique s (k : nat) :
  (k <= length s)%nat ->
  (forall i, (k <= i < length s)%nat -> nth i s 0 = 32) ->
  (k = 0%nat \/ nth (k - 1) s 0 <> 32) -> k = trimmed_length s.
Proof.
  revert k. induction s as [|c s IH]; intros k Hk Hall Hlast; simpl in *; [lia|].
  destruct k as [|k].
  - rewrite <- (IH 0%nat); [|lia| |by left].
    + specialize (Hall 0%nat ltac:(lia)). simpl in Hall. subst c. done.
    + intros i Hi. apply (Hall (S i)). lia.
  - assert (k = trimmed_length s) as <-.
    { apply IH; [lia| |].
      - intros i Hi. apply (Hall (S i)). lia.
      - destruct Hlast as [|Hlast]; [done|]. simpl in Hlast. rewrite Nat.sub_0_r in Hlast.
        destruct k; [by left|right]. simpl in Hlast. by rewrite Nat.sub_succ, Nat.sub_0_r. }
    destruct (Nat.eqb_spec k 0) as [->|]; [|done]. simpl.
    destruct Hlast as [|Hlast]; [done|]. simpl in Hlast.
    by destruct (Z.eqb_spec c 32).
Qed.

(** C40: the word-at-a-time search for trailing spaces returns, for a string at
    any address, the length of the string without its trailing spaces. *)
Theorem skip_trailing_space_correct addr s :
  bytes_ok s -> skip_trailing_space addr s = Z.of_nat (trimmed_length s).
Proof.
  intros Hok. unfold skip_trailing_space. set (len := Z.of_nat (length s)).
  match goal with |- skip_bytes _ _ ?x _ = _ => set (e := x) end.
  assert (spaces_from s e) as He.
  { assert (spaces_from s len) as H0 by (split; unfold len; intros; lia).
    unfold e. destruct (Z.ltb_spec 20 len); [|done].
    set (ew := (addr + len) / 4 * 4 - addr). set (sw := (addr + 4 - 1) / 4 * 4 - addr).
    destruct (Z.ltb_spec 0 ew) as [Hw|Hw]; [|done].
    destruct (skip_bytes_spec (length s) ew len s) as (H1 & H2 & H3 & H4); [lia|done|lia|].
    destruct (Z.eqb_spec (byte_before s (skip_bytes (length s) ew len s)) 32) as [Hb|]; [|done].
    destruct (Z.ltb_spec sw ew) as [Hsw|]; [|done]. simpl.
    assert (ew <= len) by (unfold ew; dlia).
    assert (skip_bytes (length s) ew len s = ew) as ->.
    { destruct (Z.eq_dec (skip_bytes (length s) ew len s) ew); [done|]. exfalso. apply H3; lia. }
    apply skip_words_spec; [done|unfold sw; dlia| |].
    - exists ((addr + len) / 4 - (addr + 4 - 1) / 4). unfold ew, sw. lia.
    - destruct (Z.eq_dec (skip_bytes (length s) ew len s) ew) as [E|]; [by rewrite <- E|].
      exfalso. apply H3; lia. }
  destruct (skip_bytes_spec (length s) 0 e s) as (H1 & H2 & H3 & H4); [lia|done|destruct He; lia|].
  set (e' := skip_bytes (length s) 0 e s) in *. destruct H1 as [H1 Hall].
  rewrite <- (trimmed_length_unique s (Z.to_nat e')); [lia|lia| |].
  - intros i Hi. rewrite <- (Nat2Z.id i). apply Hall. lia.
  - destruct (Z.eq_dec e' 0) as [->|]; [by left|right].
    unfold byte_before in H3. replace (Z.to_nat e' - 1)%nat with (Z.to_nat (e' - 1)) by lia.
    apply H3. lia.
Qed.

(** 18 spaces behind five letters, at an address that is not aligned. *)
Lemma skip_trailing_space_witness :
  skip_trailing_space 4099 ([104; 101; 108; 108; 111] ++ replicate 18 32) = 5.
Proof. rewrite skip_trailing_space_correct; [by vm_compute|by apply (bool_decide_unpack _)]. Defined.

End Charset.
