(* ===== verification/Latin1.v ===== *)
(** * Latin1: the tables of the 8-bit character sets

    The conversion tables of latin1 (strings/ctype-latin1.c) and the weight
    tables of latin1_swedish_ci and koi8u_general_ci (strings/ctype-latin1.c,
    strings/ctype-extra.c), the conversions between latin1 and Unicode, and
    the inverse property of the tables. *)

From S2P Require Import Prelude Charset.

Module Latin1.

Definition sort_order_latin1 : bytes := [
   0; 1; 2; 3; 4; 5; 6; 7; 8; 9; 10; 11; 12; 13; 14; 15;
   16; 17; 18; 19; 20; 21; 22; 23; 24; 25; 26; 27; 28; 29; 30; 31;
   32; 33; 34; 35; 36; 37; 38; 39; 40; 41; 42; 43; 44; 45; 46; 47;
   48; 49; 50; 51; 52; 53; 54; 55; 56; 57; 58; 59; 60; 61; 62; 63;
   64; 65; 66; 67; 68; 69; 70; 71; 72; 73; 74; 75; 76; 77; 78; 79;
   80; 81; 82; 83; 84; 85; 86; 87; 88; 89; 90; 91; 92; 93; 94; 95;
   96; 65; 66; 67; 68; 69; 70; 71; 72; 73; 74; 75; 76; 77; 78; 79;
   80; 81; 82; 83; 84; 85; 86; 87; 88; 89; 90; 123; 124; 125; 126; 127;
   128; 129; 130; 131; 132; 133; 134; 135; 136; 137; 138; 139; 140; 141; 142; 143;
   144; 145; 146; 147; 148; 149; 150; 151; 152; 153; 154; 155; 156; 157; 158; 159;
   160; 161; 162; 163; 164; 165; 166; 167; 168; 169; 170; 171; 172; 173; 174; 175;
   176; 177; 178; 179; 180; 181; 182; 183; 184; 185; 186; 187; 188; 189; 190; 191;
   65; 65; 65; 65; 92; 91; 92; 67; 69; 69; 69; 69; 73; 73; 73; 73;
   68; 78; 79; 79; 79; 79; 93; 215; 216; 85; 85; 85; 89; 89; 222; 223;
   65; 65; 65; 65; 92; 91; 92; 67; 69; 69; 69; 69; 73; 73; 73; 73;
   68; 78; 79; 79; 79; 79; 93; 247; 216; 85; 85; 85; 89; 89; 222; 255
  ].

Definition sort_order_koi8u_general_ci : bytes := [
   0; 1; 2; 3; 4; 5; 6; 7; 8; 9; 10; 11; 12; 13; 14; 15;
   16; 17; 18; 19; 20; 21; 22; 23; 24; 25; 26; 27; 28; 29; 30; 31;
   32; 33; 34; 35; 36; 37; 38; 39; 40; 41; 42; 43; 44; 45; 46; 47;
   48; 49; 50; 51; 52; 53; 54; 55; 56; 57; 58; 59; 60; 61; 62; 63;
   64; 65; 66; 67; 68; 69; 70; 71; 72; 73; 74; 75; 76; 77; 78; 79;
   80; 81; 82; 83; 84; 85; 86; 87; 88; 89; 90; 91; 92; 93; 94; 95;
   32; 65; 66; 67; 68; 69; 70; 71; 72; 73; 74; 75; 76; 77; 78; 79;
   80; 81; 82; 83; 84; 85; 86; 87; 88; 89; 90; 123; 124; 125; 126; 127;
   165; 166; 167; 168; 169; 170; 171; 172; 173; 174; 175; 176; 177; 178; 179; 180;
   181; 182; 183; 184; 185; 186; 187; 188; 189; 190; 191; 192; 193; 194; 195; 196;
   197; 198; 199; 136; 135; 200; 140; 141; 201; 202; 203; 204; 205; 132; 206; 207;
   208; 209; 210; 136; 135; 211; 140; 141; 212; 213; 214; 215; 216; 132; 217; 218;
   163; 128; 129; 155; 133; 134; 153; 131; 154; 139; 142; 143; 144; 145; 146; 147;
   148; 164; 149; 150; 151; 152; 137; 130; 161; 160; 138; 157; 162; 158; 156; 159;
   163; 128; 129; 155; 133; 134; 153; 131; 154; 139; 142; 143; 144; 145; 146; 147;
   148; 164; 149; 150; 151; 152; 137; 130; 161; 160; 138; 157; 162; 158; 156; 159
  ].

Definition cs_to_uni : bytes := [
   0; 1; 2; 3; 4; 5; 6; 7; 8; 9; 10; 11; 12; 13; 14; 15;
   16; 17; 18; 19; 20; 21; 22; 23; 24; 25; 26; 27; 28; 29; 30; 31;
   32; 33; 34; 35; 36; 37; 38; 39; 40; 41; 42; 43; 44; 45; 46; 47;
   48; 49; 50; 51; 52; 53; 54; 55; 56; 57; 58; 59; 60; 61; 62; 63;
   64; 65; 66; 67; 68; 69; 70; 71; 72; 73; 74; 75; 76; 77; 78; 79;
   80; 81; 82; 83; 84; 85; 86; 87; 88; 89; 90; 91; 92; 93; 94; 95;
   96; 97; 98; 99; 100; 101; 102; 103; 104; 105; 106; 107; 108; 109; 110; 111;
   112; 113; 114; 115; 116; 117; 118; 119; 120; 121; 122; 123; 124; 125; 126; 127;
   8364; 129; 8218; 402; 8222; 8230; 8224; 8225; 710; 8240; 352; 8249; 338; 141; 381; 143;
   144; 8216; 8217; 8220; 8221; 8226; 8211; 8212; 732; 8482; 353; 8250; 339; 157; 382; 376;
   160; 161; 162; 163; 164; 165; 166; 167; 168; 169; 170; 171; 172; 173; 174; 175;
   176; 177; 178; 179; 180; 181; 182; 183; 184; 185; 186; 187; 188; 189; 190; 191;
   192; 193; 194; 195; 196; 197; 198; 199; 200; 201; 202; 203; 204; 205; 206; 207;
   208; 209; 210; 211; 212; 213; 214; 215; 216; 217; 218; 219; 220; 221; 222; 223;
   224; 225; 226; 227; 228; 229; 230; 231; 232; 233; 234; 235; 236; 237; 238; 239;
   240; 241; 242; 243; 244; 245; 246; 247; 248; 249; 250; 251; 252; 253; 254; 255
  ].

Definition pl00 : bytes := [
   0; 1; 2; 3; 4; 5; 6; 7; 8; 9; 10; 11; 12; 13; 14; 15;
   16; 17; 18; 19; 20; 21; 22; 23; 24; 25; 26; 27; 28; 29; 30; 31;
   32; 33; 34; 35; 36; 37; 38; 39; 40; 41; 42; 43; 44; 45; 46; 47;
   48; 49; 50; 51; 52; 53; 54; 55; 56; 57; 58; 59; 60; 61; 62; 63;
   64; 65; 66; 67; 68; 69; 70; 71; 72; 73; 74; 75; 76; 77; 78; 79;
   80; 81; 82; 83; 84; 85; 86; 87; 88; 89; 90; 91; 92; 93; 94; 95;
   96; 97; 98; 99; 100; 101; 102; 103; 104; 105; 106; 107; 108; 109; 110; 111;
   112; 113; 114; 115; 116; 117; 118; 119; 120; 121; 122; 123; 124; 125; 126; 127;
   0; 129; 0; 0; 0; 0; 0; 0; 0; 0; 0; 0; 0; 141; 0; 143;
   144; 0; 0; 0; 0; 0; 0; 0; 0; 0; 0; 0; 0; 157; 0; 0;
   160; 161; 162; 163; 164; 165; 166; 167; 168; 169; 170; 171; 172; 173; 174; 175;
   176; 177; 178; 179; 180; 181; 182; 183; 184; 185; 186; 187; 188; 189; 190; 191;
   192; 193; 194; 195; 196; 197; 198; 199; 200; 201; 202; 203; 204; 205; 206; 207;
   208; 209; 210; 211; 212; 213; 214; 215; 216; 217; 218; 219; 220; 221; 222; 223;
   224; 225; 226; 227; 228; 229; 230; 231; 232; 233; 234; 235; 236; 237; 238; 239;
   240; 241; 242; 243; 244; 245; 246; 247; 248; 249; 250; 251; 252; 253; 254; 255
  ].

Definition pl01 : bytes := [
   0; 0; 0; 0; 0; 0; 0; 0; 0; 0; 0; 0; 0; 0; 0; 0;
   0; 0; 0; 0; 0; 0; 0; 0; 0; 0; 0; 0; 0; 0; 0; 0;
   0; 0; 0; 0; 0; 0; 0; 0; 0; 0; 0; 0; 0; 0; 0; 0;
   0; 0; 0; 0; 0; 0; 0; 0; 0; 0; 0; 0; 0; 0; 0; 0;
   0; 0; 0; 0; 0; 0; 0; 0; 0; 0; 0; 0; 0; 0; 0; 0;
   0; 0; 140; 156; 0; 0; 0; 0; 0; 0; 0; 0; 0; 0; 0; 0;
   138; 154; 0; 0; 0; 0; 0; 0; 0; 0; 0; 0; 0; 0; 0; 0;
   0; 0; 0; 0; 0; 0; 0; 0; 159; 0; 0; 0; 0; 142; 158; 0;
   0; 0; 0; 0; 0; 0; 0; 0; 0; 0; 0; 0; 0; 0; 0; 0;
   0; 0; 131; 0; 0; 0; 0; 0; 0; 0; 0; 0; 0; 0; 0; 0;
   0; 0; 0; 0; 0; 0; 0; 0; 0; 0; 0; 0; 0; 0; 0; 0;
   0; 0; 0; 0; 0; 0; 0; 0; 0; 0; 0; 0; 0; 0; 0; 0;
   0; 0; 0; 0; 0; 0; 0; 0; 0; 0; 0; 0; 0; 0; 0; 0;
   0; 0; 0; 0; 0; 0; 0; 0; 0; 0; 0; 0; 0; 0; 0; 0;
   0; 0; 0; 0; 0; 0; 0; 0; 0; 0; 0; 0; 0; 0; 0; 0;
   0; 0; 0; 0; 0; 0; 0; 0; 0; 0; 0; 0; 0; 0; 0; 0
  ].

Definition pl02 : bytes := [
   0; 0; 0; 0; 0; 0; 0; 0; 0; 0; 0; 0; 0; 0; 0; 0;
   0; 0; 0; 0; 0; 0; 0; 0; 0; 0; 0; 0; 0; 0; 0; 0;
   0; 0; 0; 0; 0; 0; 0; 0; 0; 0; 0; 0; 0; 0; 0; 0;
   0; 0; 0; 0; 0; 0; 0; 0; 0; 0; 0; 0; 0; 0; 0; 0;
   0; 0; 0; 0; 0; 0; 0; 0; 0; 0; 0; 0; 0; 0; 0; 0;
   0; 0; 0; 0; 0; 0; 0; 0; 0; 0; 0; 0; 0; 0; 0; 0;
   0; 0; 0; 0; 0; 0; 0; 0; 0; 0; 0; 0; 0; 0; 0; 0;
   0; 0; 0; 0; 0; 0; 0; 0; 0; 0; 0; 0; 0; 0; 0; 0;
   0; 0; 0; 0; 0; 0; 0; 0; 0; 0; 0; 0; 0; 0; 0; 0;
   0; 0; 0; 0; 0; 0; 0; 0; 0; 0; 0; 0; 0; 0; 0; 0;
   0; 0; 0; 0; 0; 0; 0; 0; 0; 0; 0; 0; 0; 0; 0; 0;
   0; 0; 0; 0; 0; 0; 0; 0; 0; 0; 0; 0; 0; 0; 0; 0;
   0; 0; 0; 0; 0; 0; 136; 0; 0; 0; 0; 0; 0; 0; 0; 0;
   0; 0; 0; 0; 0; 0; 0; 0; 0; 0; 0; 0; 152; 0; 0; 0;
   0; 0; 0; 0; 0; 0; 0; 0; 0; 0; 0; 0; 0; 0; 0; 0;
   0; 0; 0; 0; 0; 0; 0; 0; 0; 0; 0; 0; 0; 0; 0; 0
  ].

Definition pl20 : bytes := [
   0; 0; 0; 0; 0; 0; 0; 0; 0; 0; 0; 0; 0; 0; 0; 0;
   0; 0; 0; 150; 151; 0; 0; 0; 145; 146; 130; 0; 147; 148; 132; 0;
   134; 135; 149; 0; 0; 0; 133; 0; 0; 0; 0; 0; 0; 0; 0; 0;
   137; 0; 0; 0; 0; 0; 0; 0; 0; 139; 155; 0; 0; 0; 0; 0;
   0; 0; 0; 0; 0; 0; 0; 0; 0; 0; 0; 0; 0; 0; 0; 0;
   0; 0; 0; 0; 0; 0; 0; 0; 0; 0; 0; 0; 0; 0; 0; 0;
   0; 0; 0; 0; 0; 0; 0; 0; 0; 0; 0; 0; 0; 0; 0; 0;
   0; 0; 0; 0; 0; 0; 0; 0; 0; 0; 0; 0; 0; 0; 0; 0;
   0; 0; 0; 0; 0; 0; 0; 0; 0; 0; 0; 0; 0; 0; 0; 0;
   0; 0; 0; 0; 0; 0; 0; 0; 0; 0; 0; 0; 0; 0; 0; 0;
   0; 0; 0; 0; 0; 0; 0; 0; 0; 0; 0; 0; 128; 0; 0; 0;
   0; 0; 0; 0; 0; 0; 0; 0; 0; 0; 0; 0; 0; 0; 0; 0;
   0; 0; 0; 0; 0; 0; 0; 0; 0; 0; 0; 0; 0; 0; 0; 0;
   0; 0; 0; 0; 0; 0; 0; 0; 0; 0; 0; 0; 0; 0; 0; 0;
   0; 0; 0; 0; 0; 0; 0; 0; 0; 0; 0; 0; 0; 0; 0; 0;
   0; 0; 0; 0; 0; 0; 0; 0; 0; 0; 0; 0; 0; 0; 0; 0
  ].

Definition pl21 : bytes := [
   0; 0; 0; 0; 0; 0; 0; 0; 0; 0; 0; 0; 0; 0; 0; 0;
   0; 0; 0; 0; 0; 0; 0; 0; 0; 0; 0; 0; 0; 0; 0; 0;
   0; 0; 153; 0; 0; 0; 0; 0; 0; 0; 0; 0; 0; 0; 0; 0;
   0; 0; 0; 0; 0; 0; 0; 0; 0; 0; 0; 0; 0; 0; 0; 0;
   0; 0; 0; 0; 0; 0; 0; 0; 0; 0; 0; 0; 0; 0; 0; 0;
   0; 0; 0; 0; 0; 0; 0; 0; 0; 0; 0; 0; 0; 0; 0; 0;
   0; 0; 0; 0; 0; 0; 0; 0; 0; 0; 0; 0; 0; 0; 0; 0;
   0; 0; 0; 0; 0; 0; 0; 0; 0; 0; 0; 0; 0; 0; 0; 0;
   0; 0; 0; 0; 0; 0; 0; 0; 0; 0; 0; 0; 0; 0; 0; 0;
   0; 0; 0; 0; 0; 0; 0; 0; 0; 0; 0; 0; 0; 0; 0; 0;
   0; 0; 0; 0; 0; 0; 0; 0; 0; 0; 0; 0; 0; 0; 0; 0;
   0; 0; 0; 0; 0; 0; 0; 0; 0; 0; 0; 0; 0; 0; 0; 0;
   0; 0; 0; 0; 0; 0; 0; 0; 0; 0; 0; 0; 0; 0; 0; 0;
   0; 0; 0; 0; 0; 0; 0; 0; 0; 0; 0; 0; 0; 0; 0; 0;
   0; 0; 0; 0; 0; 0; 0; 0; 0; 0; 0; 0; 0; 0; 0; 0;
   0; 0; 0; 0; 0; 0; 0; 0; 0; 0; 0; 0; 0; 0; 0; 0
  ].

(** Rows of [uni_to_cs] by the high byte of the code point; every other row is
    NULL. *)
Definition uni_to_cs (hi : Z) : option bytes :=
  if hi =? 0 then Some pl00
  else if hi =? 1 then Some pl01
  else if hi =? 2 then Some pl02
  else if hi =? 32 then Some pl20
  else if hi =? 33 then Some pl21
  else None.

(** [table[i]] of a 256-entry table. *)
Definition table_at (t : bytes) (i : Z) : Z := nth (Z.to_nat i) t 0.

Definition my_mb_wc_latin1 (s : bytes) : Charset.mb_res :=
  match s with
  | [] => Charset.MB_ERR Charset.MY_CS_TOOSMALL
  | c :: _ => Charset.MB 1 (table_at cs_to_uni c)
  end.

Definition my_wc_mb_latin1 (wc : Z) (room : nat) : Charset.wc_res :=
  if (room =? 0)%nat then Charset.WC_ERR Charset.MY_CS_TOOSMALL
  else if 65535 <? wc then Charset.WC_ERR Charset.MY_CS_ILUNI
  else
    let c :=
      match uni_to_cs (Z.shiftr wc 8) with
      | Some pl => table_at pl (Z.land wc 255)
      | None => 0
      end in
    if (c =? 0) && negb (wc =? 0) then Charset.WC_ERR Charset.MY_CS_ILUNI else Charset.WC [c].

(** Every latin1 byte is recovered from its Unicode code point. *)
Lemma latin1_roundtrip c r :
  byte_ok c ->
  exists wc, my_mb_wc_latin1 (c :: r) = Charset.MB 1 wc /\
    forall room, (room <> 0)%nat -> my_wc_mb_latin1 wc room = Charset.WC [c].
Proof.
  intros Hc. exists (table_at cs_to_uni c). split; [done|]. intros [|room] Hr; [done|].
  assert (match my_wc_mb_latin1 (table_at cs_to_uni c) 1 with
          | Charset.WC [d] => d =? c | _ => false end = true) as H.
  { revert c Hc. apply (Z_range_forall 256 (fun c => match my_wc_mb_latin1 (table_at cs_to_uni c) 1 with
          | Charset.WC [d] => d =? c | _ => false end)). by vm_compute. }
  change (my_wc_mb_latin1 (table_at cs_to_uni c) (S room))
    with (my_wc_mb_latin1 (table_at cs_to_uni c) 1).
  destruct (my_wc_mb_latin1 _ 1) as [[|d []]|]; try done.
  apply Z.eqb_eq in H. by subst d.
Qed.

(** Weights are bytes. *)
Lemma sort_order_latin1_ok c : byte_ok c -> byte_ok (table_at sort_order_latin1 c).
Proof.
  intros Hc. apply (bool_decide_eq_true_1 _).
  revert c Hc. apply (Z_range_forall 256 (fun c => bool_decide (byte_ok (table_at sort_order_latin1 c)))).
  by vm_compute.
Qed.

(** In latin1_swedish_ci only the space has the weight of the space. *)
Lemma sort_order_latin1_space c :
  byte_ok c -> table_at sort_order_latin1 c = table_at sort_order_latin1 32 -> c = 32.
Proof.
  intros Hc. assert (implb (table_at sort_order_latin1 c =? table_at sort_order_latin1 32) (c =? 32) = true) as H.
  { revert c Hc. apply (Z_range_forall 256 (fun c =>
      implb (table_at sort_order_latin1 c =? table_at sort_order_latin1 32) (c =? 32))). by vm_compute. }
  intros E. apply Z.eqb_eq in E. rewrite E in H. by apply Z.eqb_eq in H.
Qed.

End Latin1.
