(* ===== verification/Copy.v ===== *)
(** * Copy: character lengths and copying of strings into columns

    How many bytes a character has, which character starts at a position, and
    the functions [copy_fix] that store a string into a column: 8-bit
    character sets copy bytes (strings/ctype-simple.c), UTF-8 copies the
    well-formed part of the string and replaces the bad bytes behind it
    (strings/ctype-mb.c, strings/ctype-mb.inl).  Positions in a string are
    offsets. *)

From S2P Require Import Prelude Charset.
Import Charset.

Module Copy.

(** ** The length of a character *)

Definition my_charlen_8bit (s : bytes) : Z := match s with [] => MY_CS_TOOSMALL | _ => 1 end.

Definition my_valid_mbcharlen_utf8mb3 (s : bytes) : Z :=
  match s with
  | [] => MY_CS_TOOSMALL
  | c :: s =>
      if c <? 128 then 1
      else if c <? 194 then MY_CS_ILSEQ
      else if c <? 224 then
        match s with
        | s1 :: _ => if negb (IS_CONTINUATION_BYTE s1) then MY_CS_ILSEQ else 2
        | _ => MY_CS_TOOSMALLN 2
        end
      else
        match s with
        | s1 :: s2 :: _ => if negb (IS_UTF8MB3_STEP2 c s1 s2) then MY_CS_ILSEQ else 3
        | _ => MY_CS_TOOSMALLN 3
        end
  end.

Definition my_charlen_utf8mb3 (s : bytes) : Z :=
  match s with
  | [] => MY_CS_TOOSMALL
  | c :: _ => if c <? 240 then my_valid_mbcharlen_utf8mb3 s else MY_CS_ILSEQ
  end.

Definition my_charlen_utf8mb4 (s : bytes) : Z :=
  match s with
  | [] => MY_CS_TOOSMALL
  | c :: t =>
      if c <? 240 then my_valid_mbcharlen_utf8mb3 s
      else if c <? 245 then
        match t with
        | s1 :: s2 :: s3 :: _ => if negb (IS_UTF8MB4_STEP2 c s1 s2 s3) then MY_CS_ILSEQ else 4
        | _ => MY_CS_TOOSMALLN 4
        end
      else MY_CS_ILSEQ
  end.

(** ** Characters and bytes *)

Definition my_numchars_8bit (s : bytes) : nat := length s.

Definition my_charpos_8bit (s : bytes) (pos : nat) : nat := pos.

Section MultiByte.

Context (charlen : bytes -> Z) (wc_mb : Z -> nat -> wc_res).

Definition my_ismbchar (s : bytes) : nat :=
  let char_length := charlen s in if 1 <? char_length then Z.to_nat char_length else 0%nat.

(** Bytes to the next character: at least one. *)
Definition char_step (s : bytes) : nat := let mb_len := my_ismbchar s in if (mb_len =? 0)%nat then 1%nat else mb_len.

Fixpoint numchars_loop (fuel : nat) (s : bytes) : nat :=
  match s, fuel with
  | _ :: _, S fuel => S (numchars_loop fuel (drop (char_step s) s))
  | _, _ => 0%nat
  end.

Definition my_numchars_mb (s : bytes) : nat := numchars_loop (length s) s.

Fixpoint charpos_loop (len : nat) (s : bytes) (pos : nat) : nat * nat :=
  match len, s with
  | S len', _ :: _ => charpos_loop len' (drop (char_step s) s) (pos + char_step s)
  | _, _ => (len, pos)
  end.

Definition my_charpos_mb (s : bytes) (len : nat) : nat :=
  let '(len, pos) := charpos_loop len s 0 in
  if (len =? 0)%nat then pos else (length s + 2)%nat.

(** ** Copying *)

(** MY_STRCOPY_STATUS *)
Record strcopy_status := { m_source_end_pos : nat; m_well_formed_error_pos : option nat }.

(** The characters left to read, and the status. *)
Fixpoint well_formed_loop (nchars : nat) (b : bytes) (pos : nat) : nat * strcopy_status :=
  match nchars with
  | O => (O, {| m_source_end_pos := pos; m_well_formed_error_pos := None |})
  | S nchars' =>
      let chlen := charlen b in
      if chlen <=? 0 then
        (nchars, {| m_source_end_pos := pos;
                    m_well_formed_error_pos := match b with [] => None | _ => Some pos end |})
      else well_formed_loop nchars' (drop (Z.to_nat chlen) b) (pos + Z.to_nat chlen)
  end.

Definition my_well_formed_char_length (s : bytes) (nchars : nat) : nat * strcopy_status :=
  let '(rest, status) := well_formed_loop nchars s 0 in ((nchars - rest)%nat, status).

(** What is appended to a destination with [room] bytes left. *)
Fixpoint my_append_fix_badly_formed_tail (nchars room : nat) (from : bytes) (pos : nat)
    (error_pos : option nat) : bytes * strcopy_status :=
  let end_ := ([], {| m_source_end_pos := pos; m_well_formed_error_pos := error_pos |}) in
  match nchars with
  | O => end_
  | S nchars =>
      let chlen := charlen from in
      if 0 <? chlen then
        if (room <? Z.to_nat chlen)%nat then end_
        else
          let '(out, status) := my_append_fix_badly_formed_tail nchars (room - Z.to_nat chlen)
                                  (drop (Z.to_nat chlen) from) (pos + Z.to_nat chlen) error_pos in
          (take (Z.to_nat chlen) from ++ out, status)
      else if negb (chlen =? MY_CS_ILSEQ) && match from with [] => true | _ => false end then end_
      else
        let error_pos := match error_pos with None => Some pos | e => e end in
        match wc_mb 63 room with
        | WC out0 =>
            let '(out, status) := my_append_fix_badly_formed_tail nchars (room - length out0)
                                    (drop 1 from) (S pos) error_pos in
            (out0 ++ out, status)
        | WC_ERR _ => ([], {| m_source_end_pos := pos; m_well_formed_error_pos := error_pos |})
        end
  end.

Definition my_copy_fix_mb (dst_length : nat) (src : bytes) (nchars : nat) : bytes * strcopy_status :=
  let min_length := Nat.min (length src) dst_length in
  let '(well_formed_nchars, status) := my_well_formed_char_length (take min_length src) nchars in
  let well_formed_length := m_source_end_pos status in
  match m_well_formed_error_pos status with
  | None => (take well_formed_length src, status)
  | error_pos =>
      let '(fixed, status) := my_append_fix_badly_formed_tail (nchars - well_formed_nchars)
        (dst_length - well_formed_length) (drop well_formed_length src) well_formed_length error_pos in
      (take well_formed_length src ++ fixed, status)
  end.

End MultiByte.

Definition my_copy_8bit (dst_length : nat) (src : bytes) (nchars : nat) : bytes * strcopy_status :=
  let src_length := Nat.min (Nat.min (length src) dst_length) nchars in
  (take src_length src, {| m_source_end_pos := src_length; m_well_formed_error_pos := None |}).

End Copy.
