(* ===== verification/Collation.v ===== *)
(** * Collation: comparison functions and the collation interface

    The comparison functions SQL uses for strings ([strnncollsp] of
    ctype-bin.c, ctype-simple.c and strcoll.inl), the [CHARSET_INFO] objects
    of the collations whose keys are encoded (m_ctype.h and the tables of
    strings/), and the class [PadSpace]: what a PAD SPACE collation promises
    to the key encoders. *)

From S2P Require Import Prelude Buff Charset Latin1 Copy.
Import Charset.

Module Collation.

(** ** Comparison functions

    The sign of the C result is a [comparison]. *)

(** [t_is_prefix] is 0 in every use for keys. *)
Definition my_strnncoll_binary (s t : bytes) : comparison :=
  let len := Nat.min (length s) (length t) in
  match memcmp s t len with
  | Eq => signed_of 32 (Z.of_nat (length s) - Z.of_nat (length t)) ?= 0
  | c => c
  end.

Definition my_strnncollsp_binary (s t : bytes) : comparison := my_strnncoll_binary s t.

Fixpoint my_strnncollsp_padspace_bin (str : bytes) : comparison :=
  match str with
  | [] => Eq
  | c :: str => if c <? 32 then Lt else if 32 <? c then Gt else my_strnncollsp_padspace_bin str
  end.

(** The common loop over the first [min] bytes: the difference of the first
    two bytes that differ. *)
Fixpoint compare_loop (map_ : Z -> Z) (a b : bytes) : comparison :=
  match a, b with
  | x :: a, y :: b =>
      if negb (map_ x =? map_ y) then map_ x - map_ y ?= 0 else compare_loop map_ a b
  | _, _ => Eq
  end.

Definition my_strnncollsp_8bit_bin (a b : bytes) : comparison :=
  let len := Nat.min (length a) (length b) in
  match compare_loop id a b with
  | Eq =>
      if (length a =? length b)%nat then Eq
      else if (length a <? length b)%nat
        then CompOpp (my_strnncollsp_padspace_bin (drop len b))
        else my_strnncollsp_padspace_bin (drop len a)
  | c => c
  end.

(** The loop over the rest of the longer string. *)
Fixpoint rest_loop (map_ : Z -> Z) (a : bytes) : comparison :=
  match a with
  | [] => Eq
  | c :: a => if negb (map_ c =? map_ 32) then if map_ c <? map_ 32 then Lt else Gt else rest_loop map_ a
  end.

Definition my_strnncollsp_simple (map_ : Z -> Z) (a b : bytes) : comparison :=
  let len := Nat.min (length a) (length b) in
  match compare_loop map_ a b with
  | Eq =>
      if (length a =? length b)%nat then Eq
      else if (length a <? length b)%nat then CompOpp (rest_loop map_ (drop len b))
      else rest_loop map_ (drop len a)
  | c => c
  end.

Definition WEIGHT_PAD_SPACE : Z := 32.
Definition WEIGHT_ILSEQ (x : Z) : Z := 16711680 + x.

(** [scan_weight] of strcoll.inl for utf8mb4_bin ([mb4 = true]) and
    utf8mb3_bin: the weight and the number of bytes scanned. *)
Definition scan_weight (mb4 : bool) (str : bytes) : Z * nat :=
  match str with
  | [] => (WEIGHT_PAD_SPACE, O)
  | b0 :: str1 =>
      let bad := (WEIGHT_ILSEQ b0, 1%nat) in
      if b0 <? 128 then (b0, 1%nat)
      else if b0 <? 194 then bad
      else
        match str1 with
        | [] => bad
        | b1 :: str2 =>
            if (b0 <? 224) && IS_CONTINUATION_BYTE b1 then (UTF8MB2_CODE b0 b1, 2%nat)
            else
              match str2 with
              | [] => bad
              | b2 :: str3 =>
                  if (b0 <? 240) && IS_UTF8MB3_STEP2 b0 b1 b2 then (UTF8MB3_CODE b0 b1 b2, 3%nat)
                  else if mb4 then
                    match str3 with
                    | [] => bad
                    | b3 :: _ =>
                        if (b0 <? 245) && IS_UTF8MB4_STEP2 b0 b1 b2 b3
                        then (UTF8MB4_CODE b0 b1 b2 b3, 4%nat) else bad
                    end
                  else bad
              end
        end
  end.

(** Each iteration consumes a byte of one of the strings, or ends the loop. *)
Fixpoint strnncollsp_loop (fuel : nat) (mb4 : bool) (a b : bytes) : option comparison :=
  match fuel with
  | O => None
  | S fuel =>
      let '(a_weight, a_wlen) := scan_weight mb4 a in
      let '(b_weight, b_wlen) := scan_weight mb4 b in
      if negb (a_weight - b_weight =? 0) then Some (a_weight - b_weight ?= 0)
      else if (a_wlen =? 0)%nat && (b_wlen =? 0)%nat then Some Eq
      else strnncollsp_loop fuel mb4 (drop a_wlen a) (drop b_wlen b)
  end.

Definition my_strnncollsp_utf8 (mb4 : bool) (a b : bytes) : comparison :=
  match strnncollsp_loop (S (length a + length b)) mb4 a b with Some c => c | None => Eq end.

Fixpoint my_strnncollsp_nchars_utf8 (mb4 : bool) (a b : bytes) (nchars : nat) : comparison :=
  match nchars with
  | O => Eq
  | S nchars =>
      let '(a_weight, a_wlen) := scan_weight mb4 a in
      let '(b_weight, b_wlen) := scan_weight mb4 b in
      if negb (a_weight - b_weight =? 0) then a_weight - b_weight ?= 0
      else if (a_wlen =? 0)%nat && (b_wlen =? 0)%nat then Eq
      else my_strnncollsp_nchars_utf8 mb4 (drop a_wlen a) (drop b_wlen b) nchars
  end.

Definition my_strnncollsp_nchars_binary (s t : bytes) (nchars : nat) : comparison :=
  my_strnncoll_binary (take nchars s) (take nchars t).

Definition my_strnncollsp_nchars_8bit_bin (a b : bytes) (nchars : nat) : comparison :=
  my_strnncollsp_8bit_bin (take nchars a) (take nchars b).

Definition my_strnncollsp_nchars_simple (map_ : Z -> Z) (a b : bytes) (nchars : nat) : comparison :=
  my_strnncollsp_simple map_ (take nchars a) (take nchars b).

(** ** CHARSET_INFO *)

Record CHARSET_INFO := {
  number : Z;
  state_binsort : bool;      (* state & MY_CS_BINSORT *)
  state_nopad : bool;        (* state & MY_CS_NOPAD *)
  sort_order : option (Z -> Z);  (* None: NULL *)
  strxfrm_multiply : nat;
  mbminlen : nat;
  mbmaxlen : nat;
  pad_char : Z;
  levels_for_order : nat;
  mb_wc : bytes -> mb_res;
  wc_mb : Z -> nat -> wc_res;
  charlen : bytes -> Z;
  charpos : bytes -> nat -> nat;
  copy_fix : nat -> bytes -> nat -> bytes * Copy.strcopy_status;  (* dst_length src nchars *)
  lengthsp : bytes -> nat;
  strnncollsp : bytes -> bytes -> comparison;
  strnncollsp_nchars : bytes -> bytes -> nat -> comparison;
  strnxfrm : nat -> nat -> bytes -> Z -> bytes;   (* dstlen nweights src flags *)
  strnxfrmlen : nat -> nat
}.

Definition COLLATION_UTF8MB4_BIN : Z := 46.
Definition COLLATION_LATIN1_BIN : Z := 47.
Definition COLLATION_BINARY : Z := 63.
Definition COLLATION_UTF8_BIN : Z := 83.

Definition my_charset_bin : CHARSET_INFO := {|
  number := 63; state_binsort := true; state_nopad := true; sort_order := None;
  strxfrm_multiply := 1; mbminlen := 1; mbmaxlen := 1; pad_char := 0; levels_for_order := 1;
  mb_wc := my_mb_wc_bin; wc_mb := my_wc_mb_bin;
  charlen := Copy.my_charlen_8bit; charpos := Copy.my_charpos_8bit;
  copy_fix := Copy.my_copy_8bit; lengthsp := my_lengthsp_binary;
  strnncollsp := my_strnncollsp_binary;
  strnncollsp_nchars := my_strnncollsp_nchars_binary; strnxfrm := my_strnxfrm_8bit_bin 1 0;
  strnxfrmlen := my_strnxfrmlen_simple 1 |}.

(** [lengthsp] of the other character sets is [my_lengthsp_8bit], which does
    not depend on the address of the string ([skip_trailing_space_correct]):
    the records hold its address-free reference. *)
Definition my_charset_latin1_bin : CHARSET_INFO := {|
  number := 47; state_binsort := true; state_nopad := false; sort_order := None;
  strxfrm_multiply := 1; mbminlen := 1; mbmaxlen := 1; pad_char := 32; levels_for_order := 1;
  mb_wc := Latin1.my_mb_wc_latin1; wc_mb := Latin1.my_wc_mb_latin1;
  charlen := Copy.my_charlen_8bit; charpos := Copy.my_charpos_8bit;
  copy_fix := Copy.my_copy_8bit; lengthsp := trimmed_length;
  strnncollsp := my_strnncollsp_8bit_bin;
  strnncollsp_nchars := my_strnncollsp_nchars_8bit_bin; strnxfrm := my_strnxfrm_8bit_bin 1 32;
  strnxfrmlen := my_strnxfrmlen_simple 1 |}.

Definition my_charset_latin1 : CHARSET_INFO := {|
  number := 8; state_binsort := false; state_nopad := false;
  sort_order := Some (Latin1.table_at Latin1.sort_order_latin1);
  strxfrm_multiply := 1; mbminlen := 1; mbmaxlen := 1; pad_char := 32; levels_for_order := 1;
  mb_wc := Latin1.my_mb_wc_latin1; wc_mb := Latin1.my_wc_mb_latin1;
  charlen := Copy.my_charlen_8bit; charpos := Copy.my_charpos_8bit;
  copy_fix := Copy.my_copy_8bit; lengthsp := trimmed_length;
  strnncollsp := my_strnncollsp_simple (Latin1.table_at Latin1.sort_order_latin1);
  strnncollsp_nchars := my_strnncollsp_nchars_simple (Latin1.table_at Latin1.sort_order_latin1);
  strnxfrm := my_strnxfrm_simple (Latin1.table_at Latin1.sort_order_latin1) 1 32;
  strnxfrmlen := my_strnxfrmlen_simple 1 |}.

Definition my_charset_utf8mb3_bin : CHARSET_INFO := {|
  number := 83; state_binsort := true; state_nopad := false; sort_order := None;
  strxfrm_multiply := 1; mbminlen := 1; mbmaxlen := 3; pad_char := 32; levels_for_order := 1;
  mb_wc := my_mb_wc_utf8mb3_quick; wc_mb := my_uni_utf8mb3; charlen := Copy.my_charlen_utf8mb3;
  charpos := Copy.my_charpos_mb Copy.my_charlen_utf8mb3;
  copy_fix := Copy.my_copy_fix_mb Copy.my_charlen_utf8mb3 my_uni_utf8mb3; lengthsp := trimmed_length;
  strnncollsp := my_strnncollsp_utf8 false;
  strnncollsp_nchars := my_strnncollsp_nchars_utf8 false; strnxfrm := my_strnxfrm_utf8mb3_bin;
  strnxfrmlen := my_strnxfrmlen_unicode 3 |}.

Definition my_charset_utf8mb4_bin : CHARSET_INFO := {|
  number := 46; state_binsort := true; state_nopad := false; sort_order := None;
  strxfrm_multiply := 1; mbminlen := 1; mbmaxlen := 4; pad_char := 32; levels_for_order := 1;
  mb_wc := my_mb_wc_utf8mb4_quick; wc_mb := my_wc_mb_utf8mb4; charlen := Copy.my_charlen_utf8mb4;
  charpos := Copy.my_charpos_mb Copy.my_charlen_utf8mb4;
  copy_fix := Copy.my_copy_fix_mb Copy.my_charlen_utf8mb4 my_wc_mb_utf8mb4; lengthsp := trimmed_length;
  strnncollsp := my_strnncollsp_utf8 true;
  strnncollsp_nchars := my_strnncollsp_nchars_utf8 true;
  strnxfrm := my_strnxfrm_unicode_full_bin my_mb_wc_utf8mb4_quick;
  strnxfrmlen := my_strnxfrmlen_unicode_full_bin 4 |}.

(** ** The order of PAD SPACE collations on weights *)

(** A weight string against an infinite string of spaces. *)
Fixpoint cmp_sp (sp : Z) (a : list Z) : comparison :=
  match a with
  | [] => Eq
  | x :: a => (x ?= sp) ;;; cmp_sp sp a
  end.

(** The shorter string is extended with spaces. *)
Fixpoint pad_cmp (sp : Z) (a b : list Z) : comparison :=
  match a, b with
  | [], _ => CompOpp (cmp_sp sp b)
  | _, [] => cmp_sp sp a
  | x :: a, y :: b => (x ?= y) ;;; pad_cmp sp a b
  end.

Lemma pad_cmp_nil_r sp a : pad_cmp sp a [] = cmp_sp sp a.
Proof. by destruct a. Qed.

(** One step of the comparison, whether a string has ended or not. *)
Lemma pad_cmp_step sp a b :
  pad_cmp sp a b = ((hd sp a ?= hd sp b) ;;; pad_cmp sp (tl a) (tl b)).
Proof.
  destruct a as [|x a], b as [|y b]; simpl; try done.
  - by rewrite Z.compare_refl.
  - by rewrite CompOpp_cmp_then, <- Z.compare_antisym.
  - by rewrite pad_cmp_nil_r.
Qed.

Lemma pad_cmp_antisym sp a b : pad_cmp sp a b = CompOpp (pad_cmp sp b a).
Proof.
  revert b. induction a as [|x a IH]; intros [|y b]; simpl; try done.
  { by rewrite CompOpp_involutive. }
  rewrite CompOpp_cmp_then, <- IH, Z.compare_antisym. done.
Qed.

Lemma cmp_sp_app sp a b : cmp_sp sp (a ++ b) = (cmp_sp sp a ;;; cmp_sp sp b).
Proof.
  induction a as [|x a IH]; simpl; [done|]. by rewrite IH, cmp_then_assoc.
Qed.

Lemma cmp_sp_replicate sp k : cmp_sp sp (replicate k sp) = Eq.
Proof. induction k; simpl; [done|]. by rewrite Z.compare_refl. Qed.

Lemma lex_cmp_spaces sp a : lex_cmp a (replicate (length a) sp) = cmp_sp sp a.
Proof. induction a as [|x a IH]; simpl; [done|]. by rewrite IH. Qed.

(** Trailing spaces do not matter. *)
Lemma pad_cmp_app_l sp a b k : pad_cmp sp (a ++ replicate k sp) b = pad_cmp sp a b.
Proof.
  revert b. induction a as [|x a IH]; intros b; simpl.
  - revert b. induction k as [|k IH]; intros [|y b]; simpl; try done.
    + by rewrite Z.compare_refl, cmp_sp_replicate.
    + rewrite IH, CompOpp_cmp_then. f_equal. by rewrite Z.compare_antisym.
  - destruct b as [|y b]; [|by rewrite IH].
    by rewrite cmp_sp_app, cmp_sp_replicate, cmp_then_Eq_r.
Qed.

Lemma pad_cmp_app_r sp a b k : pad_cmp sp a (b ++ replicate k sp) = pad_cmp sp a b.
Proof. rewrite pad_cmp_antisym, pad_cmp_app_l. by rewrite <- pad_cmp_antisym. Qed.

(** Strings of one length are compared first, then the rests. *)
Lemma pad_cmp_app sp a b c d :
  length a = length b -> pad_cmp sp (a ++ c) (b ++ d) = (lex_cmp a b ;;; pad_cmp sp c d).
Proof.
  revert b. induction a as [|x a IH]; intros [|y b]; simpl; try done.
  intros H. rewrite IH by lia. by rewrite cmp_then_assoc.
Qed.

(** The comparison with spaces decides between strings on different sides. *)
Lemma pad_cmp_via_sp sp a b :
  cmp_sp sp a <> cmp_sp sp b ->
  pad_cmp sp a b =
    match cmp_sp sp a, cmp_sp sp b with
    | Lt, _ => Lt | Eq, Gt => Lt | Eq, _ => Gt | Gt, _ => Gt
    end.
Proof.
  revert b. induction a as [|x a IH]; intros [|y b] H; simpl in *; try done.
  - by destruct (y ?= sp), (cmp_sp sp b).
  - by destruct (x ?= sp), (cmp_sp sp a).
  - destruct (Z.compare_spec x sp), (Z.compare_spec y sp), (Z.compare_spec x y);
      simpl in *; subst; try lia; try done.
    all: try (by apply IH); by destruct (cmp_sp sp a), (cmp_sp sp b).
Qed.

Lemma pad_cmp_both_sp sp a b : cmp_sp sp a = Eq -> cmp_sp sp b = Eq -> pad_cmp sp a b = Eq.
Proof.
  revert b. induction a as [|x a IH]; intros [|y b] Ha Hb; simpl in *; try done.
  - by rewrite Hb.
  - apply cmp_then_Eq_inv in Ha as [Hx%Z.compare_eq Ha], Hb as [Hy%Z.compare_eq Hb].
    subst. rewrite Z.compare_refl. by apply IH.
Qed.

(** ** Weight strings as bytes *)

Definition wbytes (wlen : nat) (ws : list Z) : bytes := concat (map (be_bytes wlen) ws).

Definition weights_ok (wlen : nat) (ws : list Z) : Prop :=
  Forall (fun w => 0 <= w < 256 ^ Z.of_nat wlen) ws.

Lemma length_wbytes wlen ws : length (wbytes wlen ws) = (wlen * length ws)%nat.
Proof.
  unfold wbytes. induction ws as [|x ws IH]; simpl; [lia|].
  rewrite length_app, length_be_bytes. unfold wbytes in IH. rewrite IH. lia.
Qed.

Lemma wbytes_cons wlen x ws : wbytes wlen (x :: ws) = be_bytes wlen x ++ wbytes wlen ws.
Proof. done. Qed.

Lemma wbytes_app wlen a b : wbytes wlen (a ++ b) = wbytes wlen a ++ wbytes wlen b.
Proof. unfold wbytes. by rewrite map_app, concat_app. Qed.

Lemma wbytes_ok wlen ws : bytes_ok (wbytes wlen ws).
Proof. unfold wbytes. induction ws; simpl; auto with bytes. Qed.

Lemma wbytes_take wlen n ws : take (wlen * n) (wbytes wlen ws) = wbytes wlen (take n ws).
Proof.
  revert n. induction ws as [|x ws IH]; intros n.
  { rewrite take_nil. apply take_nil. }
  destruct n as [|n]; [by rewrite Nat.mul_0_r|]. simpl take. rewrite !wbytes_cons.
  rewrite Nat.mul_succ_r, Nat.add_comm, take_app_add'; [by rewrite IH|].
  by rewrite length_be_bytes.
Qed.

Lemma wbytes_drop wlen n ws : drop (wlen * n) (wbytes wlen ws) = wbytes wlen (drop n ws).
Proof.
  revert n. induction ws as [|x ws IH]; intros n.
  { rewrite drop_nil. apply drop_nil. }
  destruct n as [|n]; [by rewrite Nat.mul_0_r|]. simpl drop. rewrite wbytes_cons.
  rewrite Nat.mul_succ_r, Nat.add_comm, drop_app_add'; [by rewrite IH|].
  by rewrite length_be_bytes.
Qed.

(** Byte order of equally long weight strings is their weight order. *)
Lemma lex_cmp_wbytes wlen a b r s :
  weights_ok wlen a -> weights_ok wlen b -> length a = length b ->
  lex_cmp (wbytes wlen a ++ r) (wbytes wlen b ++ s) = (lex_cmp a b ;;; lex_cmp r s).
Proof.
  intros Ha. revert b. induction Ha as [|x a Hx Ha IH]; intros [|y b] Hb; simpl length; try done.
  intros [= Hl]. apply Forall_cons_iff in Hb as [Hy Hb]. rewrite !wbytes_cons, <- !app_assoc.
  rewrite lex_cmp_app by by rewrite !length_be_bytes.
  rewrite lex_cmp_be_bytes, IH by done. simpl. by rewrite cmp_then_assoc.
Qed.

(** ** The 8-bit comparison functions compute the PAD SPACE order *)

Lemma sub_compare x y : (x - y ?= 0) = (x ?= y).
Proof. destruct (Z.compare_spec x y), (Z.compare_spec (x - y) 0); done || lia. Qed.

Lemma compare_loop_lex f a b :
  compare_loop f a b =
    lex_cmp (map f (take (Nat.min (length a) (length b)) a))
            (map f (take (Nat.min (length a) (length b)) b)).
Proof.
  revert b. induction a as [|x a IH]; intros [|y b]; simpl; try done.
  rewrite sub_compare, IH. destruct (Z.eqb_spec (f x) (f y)) as [->|H]; simpl.
  - by rewrite Z.compare_refl.
  - destruct (Z.compare_spec (f x) (f y)); done.
Qed.

Lemma rest_loop_cmp_sp f a : rest_loop f a = cmp_sp (f 32) (map f a).
Proof.
  induction a as [|c a IH]; simpl; [done|]. rewrite IH.
  destruct (Z.eqb_spec (f c) (f 32)) as [->|H]; simpl; [by rewrite Z.compare_refl|].
  destruct (Z.ltb_spec (f c) (f 32)), (Z.compare_spec (f c) (f 32)); done || lia.
Qed.

Lemma padspace_bin_cmp_sp a : my_strnncollsp_padspace_bin a = cmp_sp 32 a.
Proof.
  induction a as [|c a IH]; simpl; [done|]. rewrite IH.
  destruct (Z.ltb_spec c 32), (Z.ltb_spec 32 c), (Z.compare_spec c 32); done || lia.
Qed.

Lemma strnncollsp_simple_pad_cmp f a b :
  my_strnncollsp_simple f a b = pad_cmp (f 32) (map f a) (map f b).
Proof.
  unfold my_strnncollsp_simple. rewrite compare_loop_lex.
  set (n := Nat.min (length a) (length b)).
  assert (pad_cmp (f 32) (map f a) (map f b) =
    (lex_cmp (map f (take n a)) (map f (take n b)) ;;;
     pad_cmp (f 32) (map f (drop n a)) (map f (drop n b)))) as ->.
  { rewrite <- pad_cmp_app by (rewrite !length_map, !length_take; lia).
    by rewrite <- !map_app, !take_drop. }
  destruct (lex_cmp _ _); simpl; try done.
  destruct (Nat.eqb_spec (length a) (length b)) as [E|E].
  { rewrite !(drop_ge _ n) by lia. done. }
  destruct (Nat.ltb_spec (length a) (length b)).
  - rewrite (drop_ge a n) by lia. simpl. by rewrite rest_loop_cmp_sp.
  - rewrite (drop_ge b n) by lia. simpl. by rewrite pad_cmp_nil_r, rest_loop_cmp_sp.
Qed.

Lemma strnncollsp_8bit_bin_simple a b :
  my_strnncollsp_8bit_bin a b = my_strnncollsp_simple id a b.
Proof.
  unfold my_strnncollsp_8bit_bin, my_strnncollsp_simple.
  rewrite !padspace_bin_cmp_sp, !rest_loop_cmp_sp.
  change (id 32) with 32. by rewrite !map_id.
Qed.

Lemma strnncollsp_binary_lex a b :
  Z.of_nat (length a) < 2 ^ 31 -> Z.of_nat (length b) < 2 ^ 31 ->
  my_strnncollsp_binary a b = lex_cmp a b.
Proof.
  intros Ha Hb. unfold my_strnncollsp_binary, my_strnncoll_binary.
  rewrite lex_cmp_memcmp. destruct (memcmp a b _); simpl; try done.
  unfold signed_of. change (2 ^ (32 - 1)) with (2 ^ 31). change (2 ^ 32) with (2 * 2 ^ 31).
  set (p := 2 ^ 31) in *.
  destruct (Nat.compare_spec (length a) (length b)) as [E|E|E].
  - rewrite E, Z.sub_diag, Z.mod_0_l by lia. destruct (Z.ltb_spec 0 p); [done|lia].
  - rewrite <- (Z.mod_unique _ (2 * p) (-1) (Z.of_nat (length a) - Z.of_nat (length b) + 2 * p)) by lia.
    destruct (Z.ltb_spec (Z.of_nat (length a) - Z.of_nat (length b) + 2 * p) p); [lia|].
    apply Z.compare_lt_iff. lia.
  - rewrite Z.mod_small by lia. destruct (Z.ltb_spec (Z.of_nat (length a) - Z.of_nat (length b)) p); [|lia].
    apply Z.compare_gt_iff. lia.
Qed.

(** ** UTF-8 strings as code points *)

Fixpoint decode_loop (fuel : nat) (mb_wc : bytes -> mb_res) (s : bytes) : option (list Z) :=
  match s with
  | [] => Some []
  | _ =>
      match fuel with
      | O => None
      | S fuel =>
          match mb_wc s with
          | MB n wc =>
              match decode_loop fuel mb_wc (drop n s) with
              | Some ws => Some (wc :: ws)
              | None => None
              end
          | MB_ERR _ => None
          end
      end
  end.

(** The code points of a well-formed string. *)
Definition code_points (mb_wc : bytes -> mb_res) (s : bytes) : option (list Z) :=
  decode_loop (length s) mb_wc s.

Definition utf8_mb_wc (mb4 : bool) : bytes -> mb_res :=
  if mb4 then my_mb_wc_utf8mb4_quick else my_mb_wc_utf8mb3_quick.

Lemma utf8_mb_wc_mb4 mb4 s n wc :
  utf8_mb_wc mb4 s = MB n wc -> my_mb_wc_utf8mb4_quick s = MB n wc.
Proof. destruct mb4; [done|]. intros H. by apply mb_wc_utf8mb3_mb4 in H as [? _]. Qed.

(** A decoded character is as long as the decoder says, and only its first
    byte can be an ASCII byte. *)
Lemma utf8_mb_wc_inv mb4 s n wc :
  bytes_ok s -> utf8_mb_wc mb4 s = MB n wc ->
  0 <= wc < (if mb4 then 1114112 else 65536) /\ (1 <= n <= length s)%nat /\
  (wc = 32 -> exists r, s = 32 :: r /\ n = 1%nat) /\
  forall i, (1 <= i < n)%nat -> 128 <= nth i s 0.
Proof.
  intros Hs H. pose proof (utf8_mb_wc_mb4 _ _ _ _ H) as H4.
  destruct (mb_wc_utf8mb4_inv _ _ _ Hs H4) as (Hwc & Hn & Hl & He).
  assert (forall i, (1 <= i < n)%nat -> 128 <= nth i s 0) as Hi.
  { intros i Hi. rewrite nth_lookup, <- (lookup_take_lt _ n), <- nth_lookup by lia.
    revert He. unfold my_wc_mb_utf8mb4. destruct (Nat.eqb_spec n 0); [done|].
    destruct (Z.ltb_spec wc 128); [|destruct (Z.ltb_spec wc 2048);
      [|destruct (Z.ltb_spec wc 65536); [|destruct (Z.ltb_spec wc 2097152); [|done]]]].
    all: match goal with |- context [(?a <? ?b)%nat] => destruct (Nat.ltb_spec a b); [done|] end.
    all: rewrite ?wc_case2_eq, ?wc_case3_eq, ?wc_case4_eq by lia; intros [= E];
      assert (length (take n s) = n) as Hlen by (rewrite length_take; lia);
      rewrite <- E in *; simpl in Hlen; subst n.
    all: destruct i as [|[|[|[|i]]]]; simpl; try lia; dlia. }
  split_and!; try done; try lia.
  - destruct mb4; [lia|]. apply mb_wc_utf8mb3_mb4 in H as [_ H3].
    destruct (Z.ltb_spec wc 65536); [done|]. exfalso.
    revert He. unfold my_wc_mb_utf8mb4. destruct (Nat.eqb_spec n 0); [done|].
    rewrite !(proj2 (Z.ltb_ge _ _)) by lia. rewrite (proj2 (Z.ltb_lt _ _)) by lia.
    destruct (Nat.ltb_spec n 4); [done|lia].
  - intros ->. destruct s as [|c s]; simpl in Hl; [lia|].
    destruct n as [|n]; [lia|]. simpl in He. injection He as E. destruct n as [|n].
    + exists s. by subst c.
    + destruct s; simpl in *; [lia|done].
Qed.

Lemma decode_loop_nil fuel mb_wc : decode_loop fuel mb_wc [] = Some [].
Proof. by destruct fuel. Qed.

(** The fuel only has to cover the string. *)
Lemma decode_loop_fuel mb4 f1 f2 s :
  bytes_ok s -> (length s <= f1)%nat -> (length s <= f2)%nat ->
  decode_loop f1 (utf8_mb_wc mb4) s = decode_loop f2 (utf8_mb_wc mb4) s.
Proof.
  revert f2 s. induction f1 as [|f1 IH]; intros f2 s Hs H1 H2.
  { destruct s; [by rewrite !decode_loop_nil|simpl in H1; lia]. }
  destruct s as [|c s]; [by rewrite !decode_loop_nil|]. destruct f2 as [|f2]; [simpl in H2; lia|].
  cbn [decode_loop]. destruct (utf8_mb_wc mb4 (c :: s)) as [n wc|] eqn:E; [|done].
  destruct (utf8_mb_wc_inv _ _ _ _ Hs E) as (_ & Hn & _).
  rewrite (IH f2); [done|auto with bytes|rewrite length_drop; simpl in *; lia..].
Qed.

(** One character at a time. *)
Lemma code_points_cons mb4 c s ws :
  bytes_ok (c :: s) -> code_points (utf8_mb_wc mb4) (c :: s) = Some ws ->
  exists n wc ws', utf8_mb_wc mb4 (c :: s) = MB n wc /\ ws = wc :: ws' /\
    code_points (utf8_mb_wc mb4) (drop n (c :: s)) = Some ws'.
Proof.
  intros Hs. unfold code_points. cbn [length decode_loop].
  destruct (utf8_mb_wc mb4 (c :: s)) as [n wc|] eqn:E; [|done].
  destruct (utf8_mb_wc_inv _ _ _ _ Hs E) as (_ & Hn & _).
  destruct (decode_loop (length s) _ (drop n (c :: s))) as [ws'|] eqn:E'; [|done].
  intros [= <-]. exists n, wc, ws'. split_and!; try done. rewrite <- E'.
  apply decode_loop_fuel; [auto with bytes|done|rewrite length_drop; simpl; lia].
Qed.

(** Induction over the characters of a well-formed string. *)
Lemma code_points_ind mb4 (P : bytes -> list Z -> Prop) :
  P [] [] ->
  (forall s n wc ws, bytes_ok s -> s <> [] -> utf8_mb_wc mb4 s = MB n wc ->
     code_points (utf8_mb_wc mb4) (drop n s) = Some ws -> P (drop n s) ws -> P s (wc :: ws)) ->
  forall s ws, bytes_ok s -> code_points (utf8_mb_wc mb4) s = Some ws -> P s ws.
Proof.
  intros H0 HS s. remember (length s) as k eqn:Hk. revert s Hk.
  induction k as [k IHk] using lt_wf_ind. intros [|c s] Hk ws Hs H.
  { unfold code_points in H. simpl in H. by injection H as <-. }
  destruct (code_points_cons _ _ _ _ Hs H) as (n & wc & ws' & E & -> & H').
  destruct (utf8_mb_wc_inv _ _ _ _ Hs E) as (_ & Hn & _).
  apply (HS _ n); try done. eapply IHk; [|reflexivity|auto with bytes|done].
  rewrite length_drop. lia.
Qed.

Lemma code_points_bound mb4 s ws :
  bytes_ok s -> code_points (utf8_mb_wc mb4) s = Some ws ->
  Forall (fun w => 0 <= w < if mb4 then 1114112 else 65536) ws.
Proof.
  revert s ws. apply code_points_ind; [done|]. intros s n wc ws Hs _ E _ IH.
  apply Forall_cons_iff. split; [|done]. by destruct (utf8_mb_wc_inv _ _ _ _ Hs E).
Qed.

(** [scan_weight] of a well-formed character is its code point. *)
Lemma scan_weight_mb_wc mb4 s n wc :
  bytes_ok s -> utf8_mb_wc mb4 s = MB n wc -> scan_weight mb4 s = (wc, n).
Proof.
  intros Hs. destruct s as [|c s]; [by destruct mb4|].
  assert (forall c, byte_ok c -> IS_CONTINUATION_BYTE c = true -> 128 <= c) as Hcont.
  { intros b Hb H. apply is_cont in H; [lia|done]. }
  unfold scan_weight, utf8_mb_wc.
  destruct mb4; cbn [my_mb_wc_utf8mb3_quick my_mb_wc_utf8mb4_quick];
  destruct (Z.ltb_spec c 128); [by intros [= <- <-]| |by intros [= <- <-]|];
  (destruct (Z.ltb_spec c 194); [done|]);
  (destruct (Z.ltb_spec c 224); [destruct s as [|b1 s]; [done|];
     destruct (IS_CONTINUATION_BYTE b1); [by intros [= <- <-]|done]|]);
  (destruct (Z.ltb_spec c 240); [destruct s as [|b1 [|b2 s]]; [done..|];
     destruct (IS_UTF8MB3_STEP2 c b1 b2); [by intros [= <- <-]|done]|]); [|done].
  destruct (Z.ltb_spec c 245); [|done]. destruct s as [|b1 [|b2 [|b3 s]]]; [done..|].
  destruct (IS_UTF8MB4_STEP2 c b1 b2 b3); [by intros [= <- <-]|done].
Qed.

Lemma scan_weight_nil mb4 : scan_weight mb4 [] = (32, 0%nat).
Proof. done. Qed.

(** One call of [scan_weight] at a character boundary. *)
Lemma scan_weight_step mb4 a wa :
  bytes_ok a -> code_points (utf8_mb_wc mb4) a = Some wa ->
  exists n, scan_weight mb4 a = (hd 32 wa, n) /\ bytes_ok (drop n a) /\
    code_points (utf8_mb_wc mb4) (drop n a) = Some (tl wa) /\
    ((n = 0%nat /\ a = [] /\ wa = []) \/ (0 < n <= length a)%nat).
Proof.
  intros Ha Ea. destruct a as [|x a].
  - assert (wa = []) as -> by (unfold code_points in Ea; simpl in Ea; congruence).
    exists 0%nat. split_and!; try done. by left.
  - destruct (code_points_cons _ _ _ _ Ha Ea) as (n & wc & wa' & En & -> & Ea').
    destruct (utf8_mb_wc_inv _ _ _ _ Ha En) as (_ & Hn & _).
    exists n. split_and!; [by apply scan_weight_mb_wc|auto with bytes|done|right; lia].
Qed.

Lemma weight_diff x y : negb (x - y =? 0) = negb (x =? y).
Proof. f_equal. destruct (Z.eqb_spec (x - y) 0), (Z.eqb_spec x y); done || lia. Qed.

(** The comparison loop of strcoll.inl always ends, and computes the PAD SPACE
    order of the code points. *)
Lemma strnncollsp_loop_pad_cmp mb4 fuel a b wa wb :
  bytes_ok a -> bytes_ok b ->
  code_points (utf8_mb_wc mb4) a = Some wa -> code_points (utf8_mb_wc mb4) b = Some wb ->
  (length a + length b < fuel)%nat ->
  strnncollsp_loop fuel mb4 a b = Some (pad_cmp 32 wa wb).
Proof.
  revert a b wa wb. induction fuel as [|fuel IH]; intros a b wa wb Ha Hb Ea Eb Hf; [lia|].
  cbn [strnncollsp_loop].
  destruct (scan_weight_step mb4 a wa Ha Ea) as (n & -> & Ha' & Ea' & Hn).
  destruct (scan_weight_step mb4 b wb Hb Eb) as (m & -> & Hb' & Eb' & Hm).
  rewrite weight_diff, sub_compare, pad_cmp_step.
  destruct (Z.eqb_spec (hd 32 wa) (hd 32 wb)) as [E|E]; simpl negb; cbv iota.
  2: { by destruct (Z.compare_spec (hd 32 wa) (hd 32 wb)). }
  rewrite E, Z.compare_refl. cbn [cmp_then].
  destruct (Nat.eqb_spec n 0) as [Hn0|Hn0], (Nat.eqb_spec m 0) as [Hm0|Hm0]; simpl andb; cbv iota.
  { destruct Hn as [(_ & _ & ->)|]; [|lia]. destruct Hm as [(_ & _ & ->)|]; [done|lia]. }
  all: apply IH; try done; rewrite !length_drop; destruct Hn as [(? & -> & _)|], Hm as [(? & -> & _)|];
    simpl in *; lia.
Qed.

Lemma strnncollsp_nchars_utf8_pad_cmp mb4 a b wa wb nchars :
  bytes_ok a -> bytes_ok b ->
  code_points (utf8_mb_wc mb4) a = Some wa -> code_points (utf8_mb_wc mb4) b = Some wb ->
  my_strnncollsp_nchars_utf8 mb4 a b nchars = pad_cmp 32 (take nchars wa) (take nchars wb).
Proof.
  revert a b wa wb. induction nchars as [|nc IH]; intros a b wa wb Ha Hb Ea Eb; [done|].
  cbn [my_strnncollsp_nchars_utf8].
  destruct (scan_weight_step mb4 a wa Ha Ea) as (n & -> & Ha' & Ea' & Hn).
  destruct (scan_weight_step mb4 b wb Hb Eb) as (m & -> & Hb' & Eb' & Hm).
  rewrite weight_diff, sub_compare, pad_cmp_step.
  assert (forall l : list Z, hd 32 (take (S nc) l) = hd 32 l /\ tl (take (S nc) l) = take nc (tl l)) as Ht.
  { intros []; split; try done. simpl. by rewrite take_nil. }
  rewrite !(proj1 (Ht _)), !(proj2 (Ht _)).
  destruct (Z.eqb_spec (hd 32 wa) (hd 32 wb)) as [E|E]; simpl negb; cbv iota.
  2: { by destruct (Z.compare_spec (hd 32 wa) (hd 32 wb)). }
  rewrite E, Z.compare_refl. cbn [cmp_then].
  destruct (Nat.eqb_spec n 0) as [Hn0|Hn0], (Nat.eqb_spec m 0) as [Hm0|Hm0]; simpl andb; cbv iota.
  { destruct Hn as [(_ & _ & ->)|]; [|lia]. destruct Hm as [(_ & _ & ->)|]; [|lia].
    simpl. by rewrite take_nil. }
  all: by apply IH.
Qed.

Lemma strnncollsp_utf8_pad_cmp mb4 a b wa wb :
  bytes_ok a -> bytes_ok b ->
  code_points (utf8_mb_wc mb4) a = Some wa -> code_points (utf8_mb_wc mb4) b = Some wb ->
  my_strnncollsp_utf8 mb4 a b = pad_cmp 32 wa wb.
Proof.
  intros Ha Hb Ea Eb. unfold my_strnncollsp_utf8.
  by rewrite (strnncollsp_loop_pad_cmp _ _ _ _ wa wb) by (done || lia).
Qed.

(** ** Weight functions on well-formed strings *)

Lemma full_bin_weight wc : 0 <= wc < 1114112 ->
  [uchar_of (Z.shiftr wc 16); uchar_of (Z.land (Z.shiftr wc 8) 255); uchar_of (Z.land wc 255)]
    = be_bytes 3 wc.
Proof.
  intros H. change 255 with (Z.ones 8). rewrite !Z.land_ones, !Z.shiftr_div_pow2 by lia.
  unfold uchar_of. cbn [be_bytes]. change (2 ^ 8) with 256. change (2 ^ 16) with 65536.
  change (256 ^ Z.of_nat 2) with 65536. change (256 ^ Z.of_nat 1) with 256.
  change (256 ^ Z.of_nat 0) with 1. rewrite !Zmod_mod, Z.div_1_r. done.
Qed.

Lemma bin2_weight wc : 0 <= wc < 65536 ->
  [uchar_of (Z.shiftr wc 8); uchar_of (Z.land wc 255)] = be_bytes 2 wc.
Proof.
  intros H. change 255 with (Z.ones 8). rewrite Z.land_ones, Z.shiftr_div_pow2 by lia.
  unfold uchar_of. cbn [be_bytes]. change (2 ^ 8) with 256.
  change (256 ^ Z.of_nat 1) with 256. change (256 ^ Z.of_nat 0) with 1.
  rewrite Zmod_mod, Z.div_1_r. done.
Qed.

(** As many weights as asked for, if the buffer holds them. *)
Lemma strnxfrm_full_bin_wbytes s ws :
  bytes_ok s -> code_points (utf8_mb_wc true) s = Some ws ->
  forall nweights room, (3 * Nat.min (length ws) nweights <= room)%nat ->
  my_strnxfrm_unicode_full_bin_internal my_mb_wc_utf8mb4_quick nweights room s =
    (wbytes 3 (take nweights ws), (nweights - length ws)%nat).
Proof.
  revert s ws. apply (code_points_ind true (fun s ws => forall nweights room,
    (3 * Nat.min (length ws) nweights <= room)%nat ->
    my_strnxfrm_unicode_full_bin_internal my_mb_wc_utf8mb4_quick nweights room s =
      (wbytes 3 (take nweights ws), (nweights - length ws)%nat))).
  - intros [|nw] room _; simpl; [done|]. by destruct (room =? 0)%nat.
  - intros s n wc ws Hs _ E _ IH [|nw] room Hr; simpl length in *; [done|].
    cbn [my_strnxfrm_unicode_full_bin_internal].
    destruct (Nat.eqb_spec room 0); [lia|]. simpl in E. rewrite E.
    destruct (utf8_mb_wc_inv true _ _ _ Hs E) as (Hwc & _).
    unfold put. rewrite full_bin_weight, (take_ge (be_bytes 3 wc)), length_be_bytes
      by (rewrite ?length_be_bytes; done || lia).
    rewrite IH by lia. simpl take. by rewrite wbytes_cons.
Qed.

Lemma strnxfrm_bin2_wbytes s ws :
  bytes_ok s -> code_points (utf8_mb_wc false) s = Some ws ->
  forall nweights room, (2 * Nat.min (length ws) nweights <= room)%nat ->
  strnxfrm_internal_utf8mb3_bin nweights room s =
    (wbytes 2 (take nweights ws), (nweights - length ws)%nat).
Proof.
  revert s ws. apply (code_points_ind false (fun s ws => forall nweights room,
    (2 * Nat.min (length ws) nweights <= room)%nat ->
    strnxfrm_internal_utf8mb3_bin nweights room s =
      (wbytes 2 (take nweights ws), (nweights - length ws)%nat))).
  - intros [|nw] room _; simpl; [done|]. by destruct (room =? 0)%nat.
  - intros s n wc ws Hs Hne E _ IH [|nw] room Hr; simpl length in *; [done|].
    cbn [strnxfrm_internal_utf8mb3_bin].
    destruct (Nat.eqb_spec room 0); [lia|]. destruct s as [|c s]; [done|].
    destruct (utf8_mb_wc_inv false _ _ _ Hs E) as (Hwc & _).
    destruct (Z.leb_spec c 127).
    + simpl in E. destruct (Z.ltb_spec c 128); [|lia]. injection E as <- <-.
      unfold put. rewrite bin2_weight, (take_ge (be_bytes 2 c)), length_be_bytes
        by (rewrite ?length_be_bytes; done || lia).
      simpl in IH. rewrite drop_0 in IH. rewrite IH by lia. simpl take. by rewrite wbytes_cons.
    + change (utf8_mb_wc false) with my_mb_wc_utf8mb3_quick in E. rewrite E.
      destruct (Z.ltb_spec 65535 wc); [lia|].
      unfold put. rewrite bin2_weight, (take_ge (be_bytes 2 wc)), length_be_bytes
        by (rewrite ?length_be_bytes; done || lia).
      rewrite IH by lia. simpl take. by rewrite wbytes_cons.
Qed.

(** ** Trimming *)

Lemma trimmed_length_le s : (trimmed_length s <= length s)%nat.
Proof. induction s as [|c s IH]; simpl; [lia|]. case_match; lia. Qed.

Lemma trimmed_length_split s :
  s = take (trimmed_length s) s ++ replicate (length s - trimmed_length s) 32.
Proof.
  induction s as [|c s IH]; [done|]. simpl.
  destruct (Nat.eqb_spec (trimmed_length s) 0) as [E|E]; simpl.
  - rewrite E in IH. simpl in IH. rewrite Nat.sub_0_r in IH.
    destruct (Z.eqb_spec c 32) as [->|]; simpl; [by f_equal|].
    rewrite E. simpl. by rewrite Nat.sub_0_r, <- IH.
  - by f_equal.
Qed.

(** What is left does not end in a space. *)
Lemma trimmed_length_last s : list.last (take (trimmed_length s) s) <> Some 32.
Proof.
  induction s as [|c s IH]; [done|]. simpl.
  destruct (Nat.eqb_spec (trimmed_length s) 0) as [E|E]; simpl.
  - destruct (Z.eqb_spec c 32) as [->|H]; simpl; [done|]. rewrite E. simpl. congruence.
  - destruct (take (trimmed_length s) s) as [|d l] eqn:El; [|done].
    assert (length (take (trimmed_length s) s) = 0%nat) as Hl by by rewrite El.
    rewrite length_take in Hl. pose proof (trimmed_length_le s). lia.
Qed.

(** Decoding only looks at the bytes of the character. *)
Lemma utf8_mb_wc_local mb4 s n wc r :
  bytes_ok s -> utf8_mb_wc mb4 s = MB n wc -> utf8_mb_wc mb4 (take n s ++ r) = MB n wc.
Proof.
  intros Hs H. pose proof (utf8_mb_wc_mb4 _ _ _ _ H) as H4.
  destruct (mb_wc_utf8mb4_inv _ _ _ Hs H4) as (Hwc & Hn & Hl & He).
  destruct (mb_wc_wc_mb_utf8mb4 wc n _ r Hwc He) as (H4' & _).
  rewrite length_take, Nat.min_l in H4' by done.
  destruct mb4; [done|]. apply mb_wc_utf8mb3_mb4 in H as [_ H3].
  apply mb_wc_utf8mb3_mb4. done.
Qed.

Lemma code_points_spaces mb4 k :
  code_points (utf8_mb_wc mb4) (replicate k 32) = Some (replicate k 32).
Proof.
  unfold code_points. rewrite length_replicate. induction k as [|k IH]; [done|].
  cbn [replicate decode_loop].
  replace (utf8_mb_wc mb4 (32 :: replicate k 32)) with (MB 1 32) by by destruct mb4.
  simpl drop. rewrite drop_0. by rewrite IH.
Qed.

Lemma code_points_trim mb4 t k ws :
  bytes_ok t -> code_points (utf8_mb_wc mb4) (t ++ replicate k 32) = Some ws ->
  exists ws', code_points (utf8_mb_wc mb4) t = Some ws' /\ ws = ws' ++ replicate k 32.
Proof.
  remember (length t) as m eqn:Hm. revert t ws Hm.
  induction m as [m IH] using lt_wf_ind. intros t ws Hm Ht H.
  destruct t as [|c t].
  { rewrite app_nil_l, code_points_spaces in H. exists []. by injection H as <-. }
  assert (bytes_ok ((c :: t) ++ replicate k 32)) as Hb by (auto with bytes).
  destruct (code_points_cons mb4 c (t ++ replicate k 32) ws Hb H) as (n & wc & ws1 & E & -> & H1).
  change (c :: t ++ replicate k 32) with ((c :: t) ++ replicate k 32) in *.
  destruct (utf8_mb_wc_inv _ _ _ _ Hb E) as (_ & Hn & _ & Hi).
  assert (n <= length (c :: t))%nat as Hnt.
  { destruct (Nat.le_gt_cases n (length (c :: t))) as [|Hgt]; [done|].
    specialize (Hi (length (c :: t)) ltac:(simpl in *; lia)).
    rewrite nth_lookup, lookup_app_r, Nat.sub_diag in Hi by lia.
    rewrite length_app, length_replicate in Hn. destruct k; [simpl in *; lia|].
    simpl in Hi. lia. }
  rewrite drop_app_le in H1 by done.
  destruct (IH (length (drop n (c :: t)))) with (t := drop n (c :: t)) (ws := ws1)
    as (ws' & Hd & ->); try done.
  { rewrite length_drop. lia. }
  { auto with bytes. }
  exists (wc :: ws'). split; [|done].
  pose proof (utf8_mb_wc_local _ _ _ _ (drop n (c :: t)) Hb E) as E'.
  rewrite take_app_le, take_drop in E' by done.
  unfold code_points in *. cbn [length decode_loop]. rewrite E'.
  rewrite (decode_loop_fuel _ _ (length (drop n (c :: t)))), Hd;
    [done|auto with bytes|rewrite length_drop; simpl; lia|done].
Qed.

(** ** What a PAD SPACE collation promises to the key encoders *)

Class PadSpace (cs : CHARSET_INFO) (wlen : nat) (sp : Z) (weights : bytes -> option (list Z)) := {
  ps_wlen : (0 < wlen)%nat;
  ps_sp : 0 <= sp < 256 ^ Z.of_nat wlen;
  (** The weights of a well-formed string fit [wlen] bytes. *)
  ps_weights_ok s ws : bytes_ok s -> weights s = Some ws -> weights_ok wlen ws;
  (** [strnxfrm] without flags stores them, if the buffer is large enough. *)
  ps_strnxfrm s ws dstlen nweights :
    bytes_ok s -> weights s = Some ws ->
    (length ws <= nweights)%nat -> (wlen * length ws <= dstlen)%nat ->
    strnxfrm cs dstlen nweights s 0 = wbytes wlen ws;
  (** With the flags of CHAR columns it fills a buffer for [nweights] weights
      from a string that has as many. *)
  ps_strnxfrm_char s ws nweights :
    bytes_ok s -> weights s = Some ws -> (nweights <= length ws)%nat ->
    strnxfrm cs (wlen * nweights) nweights s
      (Z.lor MY_STRXFRM_PAD_WITH_SPACE MY_STRXFRM_PAD_TO_MAXLEN) = wbytes wlen (take nweights ws);
  (** SQL compares by weights, the shorter string extended with spaces. *)
  ps_strnncollsp a b wa wb :
    bytes_ok a -> bytes_ok b -> weights a = Some wa -> weights b = Some wb ->
    strnncollsp cs a b = pad_cmp sp wa wb;
  ps_strnncollsp_nchars a b wa wb n :
    bytes_ok a -> bytes_ok b -> weights a = Some wa -> weights b = Some wb ->
    strnncollsp_nchars cs a b n = pad_cmp sp (take n wa) (take n wb);
  (** [lengthsp] only cuts off spaces. *)
  ps_lengthsp s ws :
    bytes_ok s -> weights s = Some ws ->
    (lengthsp cs s <= length s)%nat /\
    exists ws', weights (take (lengthsp cs s) s) = Some ws' /\
      ws = ws' ++ replicate (length s - lengthsp cs s) sp
}.

Lemma has_flag_0 f : has_flag 0 f = false.
Proof. unfold has_flag. by rewrite Z.land_0_l. Qed.

Lemma no_flags l level : my_strxfrm_desc_and_reverse l 0 level = l.
Proof. rewrite desc_and_reverse_spec. by rewrite !has_flag_0. Qed.

Lemma pad_no_flags mbminlen pad_char frm room nweights :
  my_strxfrm_pad_desc_and_reverse mbminlen pad_char frm room nweights 0 0 = frm.
Proof.
  unfold my_strxfrm_pad_desc_and_reverse. rewrite !has_flag_0. simpl.
  rewrite andb_false_r. apply no_flags.
Qed.

(** The flags of CHAR columns neither complement nor reverse. *)
Definition CHAR_FLAGS : Z := Z.lor MY_STRXFRM_PAD_WITH_SPACE MY_STRXFRM_PAD_TO_MAXLEN.

Lemma char_flags_keep l : my_strxfrm_desc_and_reverse l CHAR_FLAGS 0 = l.
Proof. rewrite desc_and_reverse_spec. done. Qed.

(** A full buffer is not padded. *)
Lemma pad_char_flags_full mbminlen pad_char frm :
  my_strxfrm_pad_desc_and_reverse mbminlen pad_char frm (length frm) 0 CHAR_FLAGS 0 = frm.
Proof.
  unfold my_strxfrm_pad_desc_and_reverse. rewrite Nat.eqb_refl. cbn [negb andb].
  rewrite char_flags_keep, Nat.ltb_irrefl, andb_false_r. done.
Qed.

Lemma wbytes_1 l : bytes_ok l -> wbytes 1 l = l.
Proof.
  induction l as [|x l IH]; intros H; [done|]. apply bytes_ok_cons in H as [Hx Hl].
  rewrite wbytes_cons, IH by done. cbn [be_bytes app]. simpl Z.of_nat.
  change (256 ^ 0) with 1. rewrite Z.div_1_r. f_equal. by apply uchar_of_id.
Qed.

Lemma weights_ok_1 l : weights_ok 1 l <-> bytes_ok l.
Proof. done. Qed.

(** *** Instances *)

(** Trimming a byte string whose weights are bytewise. *)
Lemma map_trim (f : Z -> Z) s :
  map f s = map f (take (trimmed_length s) s) ++ replicate (length s - trimmed_length s) (f 32).
Proof.
  rewrite (trimmed_length_split s) at 1. rewrite map_app. f_equal.
  change (map f) with (fmap (M := list) f). by rewrite fmap_replicate.
Qed.

#[export] Instance padspace_latin1_bin :
  PadSpace my_charset_latin1_bin 1 32 (fun s => Some s).
Proof.
  split; cbn [strnxfrm strnncollsp strnncollsp_nchars lengthsp my_charset_latin1_bin]; try lia.
  - by intros s ws Hs [= <-].
  - intros s ws d n Hs [= <-] Hn Hd. unfold my_strnxfrm_8bit_bin.
    rewrite pad_no_flags, take_ge, wbytes_1 by (done || lia). done.
  - intros s ws n Hs [= <-] Hn. unfold my_strnxfrm_8bit_bin.
    replace (Nat.min (Nat.min (length s) (1 * n)) n) with n by lia. rewrite Nat.sub_diag.
    rewrite wbytes_1 by (auto with bytes).
    rewrite <- (pad_char_flags_full 1 32 (take n s)) at 2. f_equal. rewrite length_take. lia.
  - intros a b wa wb Ha Hb [= <-] [= <-].
    rewrite strnncollsp_8bit_bin_simple, strnncollsp_simple_pad_cmp. by rewrite !map_id.
  - intros a b wa wb n Ha Hb [= <-] [= <-]. unfold my_strnncollsp_nchars_8bit_bin.
    rewrite strnncollsp_8bit_bin_simple, strnncollsp_simple_pad_cmp. by rewrite !map_id.
  - intros s ws Hs [= <-]. split; [apply trimmed_length_le|]. eexists. split; [done|].
    apply trimmed_length_split.
Qed.

(** A simple collation given by its table of weights, as [my_charset_latin1]
    (latin1_swedish_ci) is. *)
#[export] Instance padspace_latin1 :
  PadSpace my_charset_latin1 1 (Latin1.table_at Latin1.sort_order_latin1 32)
    (fun s => Some (map (Latin1.table_at Latin1.sort_order_latin1) s)).
Proof.
  assert (forall s, bytes_ok s -> bytes_ok (map (Latin1.table_at Latin1.sort_order_latin1) s)) as Hm.
  { intros s Hs. induction Hs; simpl; [auto with bytes|].
    apply bytes_ok_cons. split; [by apply Latin1.sort_order_latin1_ok|done]. }
  split; cbn [strnxfrm strnncollsp strnncollsp_nchars lengthsp my_charset_latin1];
    unfold my_strnxfrm_simple, my_strnxfrm_simple_internal.
  - lia.
  - by vm_compute.
  - intros s ws Hs [= <-]. by apply Hm.
  - intros s ws d n Hs [= <-] Hn Hd. rewrite length_map in *.
    rewrite pad_no_flags, take_ge, wbytes_1 by (auto || lia). done.
  - intros s ws n Hs [= <-] Hn. rewrite length_map in *.
    replace (Nat.min (Nat.min (1 * n) n) (length s)) with n by lia. rewrite Nat.sub_diag.
    rewrite firstn_map, wbytes_1 by (apply Hm; auto with bytes).
    rewrite <- (pad_char_flags_full 1 32 (map _ (take n s))) at 2. f_equal.
    rewrite length_map, length_take. lia.
  - intros a b wa wb Ha Hb [= <-] [= <-]. apply strnncollsp_simple_pad_cmp.
  - intros a b wa wb n Ha Hb [= <-] [= <-]. rewrite !firstn_map.
    apply strnncollsp_simple_pad_cmp.
  - intros s ws Hs [= <-].
    split; [apply trimmed_length_le|]. eexists. split; [done|]. apply map_trim.
Qed.

Lemma utf8_lengthsp mb4 s ws :
  bytes_ok s -> code_points (utf8_mb_wc mb4) s = Some ws ->
  (trimmed_length s <= length s)%nat /\
  exists ws', code_points (utf8_mb_wc mb4) (take (trimmed_length s) s) = Some ws' /\
    ws = ws' ++ replicate (length s - trimmed_length s) 32.
Proof.
  intros Hs H. split; [apply trimmed_length_le|].
  apply code_points_trim; [auto with bytes|]. by rewrite <- trimmed_length_split.
Qed.

Ltac full_buffer :=
  rewrite ?length_wbytes, ?length_take;
  match goal with |- context [(?a <? ?b)%nat] => replace (a <? b)%nat with false
    by (symmetry; apply Nat.ltb_ge; lia) end.

#[export] Instance padspace_utf8mb3_bin :
  PadSpace my_charset_utf8mb3_bin 2 32 (code_points (utf8_mb_wc false)).
Proof.
  split; cbn [strnxfrm strnncollsp strnncollsp_nchars lengthsp my_charset_utf8mb3_bin];
    unfold my_strnxfrm_utf8mb3_bin; try lia.
  - intros s ws Hs H. exact (code_points_bound false s ws Hs H).
  - intros s ws d n Hs H Hn Hd.
    rewrite (strnxfrm_bin2_wbytes s ws) by (done || lia).
    rewrite !has_flag_0, andb_false_r, take_ge by done. simpl. apply no_flags.
  - intros s ws n Hs H Hn. rewrite (strnxfrm_bin2_wbytes s ws) by (done || lia).
    replace (n - length ws)%nat with 0%nat by lia. cbn [Nat.eqb negb]. rewrite andb_false_r. cbn [andb].
    fold CHAR_FLAGS. rewrite char_flags_keep. full_buffer. by rewrite andb_false_r.
  - exact (strnncollsp_utf8_pad_cmp false).
  - intros a b wa wb n. exact (strnncollsp_nchars_utf8_pad_cmp false a b wa wb n).
  - exact (utf8_lengthsp false).
Qed.

#[export] Instance padspace_utf8mb4_bin :
  PadSpace my_charset_utf8mb4_bin 3 32 (code_points (utf8_mb_wc true)).
Proof.
  split; cbn [strnxfrm strnncollsp strnncollsp_nchars lengthsp my_charset_utf8mb4_bin];
    unfold my_strnxfrm_unicode_full_bin; try lia.
  - intros s ws Hs H. pose proof (code_points_bound true s ws Hs H) as Hb.
    revert Hb. apply Forall_impl. simpl. intros w Hw. change (256 ^ 3) with 16777216. lia.
  - intros s ws d n Hs H Hn Hd.
    rewrite (strnxfrm_full_bin_wbytes s ws) by (done || lia).
    rewrite !has_flag_0, take_ge by done. apply no_flags.
  - intros s ws n Hs H Hn. rewrite (strnxfrm_full_bin_wbytes s ws) by (done || lia).
    replace (n - length ws)%nat with 0%nat by lia. cbn [pad_full_bin].
    fold CHAR_FLAGS. cbn [has_flag]. rewrite app_nil_r.
    destruct (has_flag CHAR_FLAGS MY_STRXFRM_PAD_WITH_SPACE); rewrite char_flags_keep;
      rewrite length_wbytes, length_take;
      replace (3 * n - 3 * Nat.min n (length ws))%nat with 0%nat by lia;
      cbn [pad_full_bin]; rewrite app_nil_r; by case_match.
  - exact (strnncollsp_utf8_pad_cmp true).
  - intros a b wa wb n. exact (strnncollsp_nchars_utf8_pad_cmp true a b wa wb n).
  - exact (utf8_lengthsp true).
Qed.

End Collation.
