(* ===== verification/Field.v ===== *)
(** * Field: columns in the record buffer and their sort keys

    [Field] describes a column of a table as the key encoders see it
    (sql/field.h): where it lies in the record buffer and what its type is.
    The [sort_string] methods and the comparisons [cmp] are those of
    sql/field.cc, sql/field.h and sql/filesort.cc.  A record buffer is a list
    of bytes; [p] below is the buffer from the column's [ptr] on. *)

From S2P Require Import Prelude Buff Charset Latin1 Collation.

Module Field.

Inductive enum_field_types :=
  | MYSQL_TYPE_DECIMAL | MYSQL_TYPE_TINY | MYSQL_TYPE_SHORT | MYSQL_TYPE_LONG
  | MYSQL_TYPE_FLOAT | MYSQL_TYPE_DOUBLE | MYSQL_TYPE_NULL | MYSQL_TYPE_TIMESTAMP
  | MYSQL_TYPE_LONGLONG | MYSQL_TYPE_INT24 | MYSQL_TYPE_DATE | MYSQL_TYPE_TIME
  | MYSQL_TYPE_DATETIME | MYSQL_TYPE_YEAR | MYSQL_TYPE_NEWDATE | MYSQL_TYPE_VARCHAR
  | MYSQL_TYPE_BIT | MYSQL_TYPE_TIMESTAMP2 | MYSQL_TYPE_DATETIME2 | MYSQL_TYPE_TIME2
  | MYSQL_TYPE_NEWDECIMAL | MYSQL_TYPE_ENUM | MYSQL_TYPE_SET | MYSQL_TYPE_TINY_BLOB
  | MYSQL_TYPE_MEDIUM_BLOB | MYSQL_TYPE_LONG_BLOB | MYSQL_TYPE_BLOB
  | MYSQL_TYPE_VAR_STRING | MYSQL_TYPE_STRING | MYSQL_TYPE_GEOMETRY.

#[export] Instance enum_field_types_eq_dec : EqDecision enum_field_types.
Proof. solve_decision. Defined.

(** A column.  [ptr], [null_ptr] and [bit_ptr] are offsets in the record;
    [null_ptr = None] is the NULL pointer of a NOT NULL column. *)
Record Field := {
  field_index : nat;
  real_type : enum_field_types;
  ptr : nat;
  null_ptr : option nat;
  null_bit : Z;
  field_length : nat;
  pack_length : nat;
  char_length : nat;
  unsigned_flag : bool;
  charset : Collation.CHARSET_INFO;
  length_bytes : nat;     (* Field_varstring *)
  packlength : nat;       (* Field_enum, Field_blob *)
  bit_ptr : nat;          (* Field_bit: uneven bits *)
  bit_ofs : Z;
  bit_len : Z;
  bytes_in_rec : nat;
  precision : nat;        (* Field_new_decimal *)
  decimals : nat
}.

(** [field->ptr] as a byte pointer into the record. *)
Definition data (f : Field) (rec : bytes) : bytes := drop (ptr f) rec.

Definition real_maybe_null (f : Field) : bool :=
  match null_ptr f with Some _ => true | None => false end.

Definition is_real_null (f : Field) (rec : bytes) : bool :=
  match null_ptr f with
  | Some o => negb (Z.land (nth o rec 0) (null_bit f) =? 0)
  | None => false
  end.

(** [set_null()], [set_notnull()]. *)
Definition set_null (f : Field) (rec : bytes) : bytes :=
  match null_ptr f with
  | Some o => <[o := uchar_of (Z.lor (nth o rec 0) (null_bit f))]> rec
  | None => rec
  end.

Definition set_notnull (f : Field) (rec : bytes) : bytes :=
  match null_ptr f with
  | Some o => <[o := uchar_of (Z.land (nth o rec 0) (Z.lnot (null_bit f)))]> rec
  | None => rec
  end.

(** ** Sort keys *)

Definition reverse_signbit (unsigned_flag : bool) (b : Z) : Z :=
  if unsigned_flag then b else Z.lxor b 128.

Definition tiny_sort_string (uf : bool) (p : bytes) : bytes :=
  [reverse_signbit uf (nth 0 p 0)].

Definition short_sort_string (uf : bool) (p : bytes) : bytes :=
  [reverse_signbit uf (nth 1 p 0); nth 0 p 0].

Definition medium_sort_string (uf : bool) (p : bytes) : bytes :=
  [reverse_signbit uf (nth 2 p 0); nth 1 p 0; nth 0 p 0].

Definition long_sort_string (uf : bool) (p : bytes) : bytes :=
  [reverse_signbit uf (nth 3 p 0); nth 2 p 0; nth 1 p 0; nth 0 p 0].

Definition longlong_sort_string (uf : bool) (p : bytes) : bytes :=
  [reverse_signbit uf (nth 7 p 0); nth 6 p 0; nth 5 p 0; nth 4 p 0;
   nth 3 p 0; nth 2 p 0; nth 1 p 0; nth 0 p 0].

(** [nr == 0.0] on the bit pattern of an IEEE number of [n] bytes. *)
Definition ieee_is_zero (n : nat) (bits : Z) : bool := bits mod 2 ^ (8 * Z.of_nat n - 1) =? 0.

(** The two branches on the big-endian bytes [tmp] of a number that is not
    zero; [exp_digit] is FLT_EXP_DIG or DBL_EXP_DIG. *)
Definition ieee_change_for_sort (exp_digit : Z) (tmp : bytes) : bytes :=
  if negb (Z.land (nth 0 tmp 0) 128 =? 0) then map (fun b => Z.lxor b 255) tmp
  else
    let exp_part := Z.lor (Z.lor (Z.shiftl (nth 0 tmp 0) 8) (nth 1 tmp 0)) 32768 in
    let exp_part := ushort_of (exp_part + Z.shiftl 1 (16 - 1 - exp_digit)) in
    uchar_of (Z.shiftr exp_part 8) :: uchar_of exp_part :: drop 2 tmp.

Definition FLT_EXP_DIG : Z := 8.
Definition DBL_EXP_DIG : Z := 11.

Definition float_sort_string (p : bytes) : bytes :=
  if ieee_is_zero 4 (le_val (take 4 p)) then 128 :: replicate 3 0
  else ieee_change_for_sort FLT_EXP_DIG [nth 3 p 0; nth 2 p 0; nth 1 p 0; nth 0 p 0].

Definition change_double_for_sort (nr : bytes) : bytes :=
  if ieee_is_zero 8 (le_val nr) then 128 :: replicate 7 0
  else ieee_change_for_sort DBL_EXP_DIG
    [nth 7 nr 0; nth 6 nr 0; nth 5 nr 0; nth 4 nr 0; nth 3 nr 0; nth 2 nr 0; nth 1 nr 0; nth 0 nr 0].

Definition double_sort_string (p : bytes) : bytes := change_double_for_sort (take 8 p).

Definition newdate_sort_string (p : bytes) : bytes := [nth 2 p 0; nth 1 p 0; nth 0 p 0].

(** [memcpy(to, ptr, length)]: new decimals and the packed temporal types. *)
Definition memcpy_sort_string (length : nat) (p : bytes) : bytes := take length p.

(** [to] is filled from its last byte to its first one. *)
Fixpoint enum_store_loop (i : nat) (value : Z) (acc : bytes) : bytes :=
  match i with
  | O => acc
  | S i => enum_store_loop i (Z.shiftr value 8) (Z.land value 255 :: acc)
  end.

Definition enum_sort_string (packlength : nat) (p : bytes) : bytes :=
  enum_store_loop packlength (le_val (take packlength p)) [].

Definition get_rec_bits (p : bytes) (ofs len : Z) : Z :=
  let val := nth 0 p 0 in
  let val := if 8 <? ofs + len then Z.lor val (Z.shiftl (nth 1 p 0) 8) else val in
  uchar_of (Z.land (Z.shiftr val ofs) (Z.shiftl 1 len - 1)).

Definition set_rec_bits (bits : Z) (p : bytes) (ofs len : Z) : bytes :=
  let p0 := uchar_of (Z.lor (Z.land (nth 0 p 0) (Z.lnot (Z.shiftl (Z.shiftl 1 len - 1) ofs)))
                            (Z.shiftl bits ofs)) in
  let p := <[0%nat := p0]> p in
  if 8 <? ofs + len then
    <[1%nat := uchar_of (Z.lor (Z.land (nth 1 p 0) (Z.lnot (Z.shiftl 1 (len - 8 + ofs) - 1)))
                               (Z.shiftr bits (8 - ofs)))]> p
  else p.

Definition bit_get_key_image (f : Field) (length : nat) (rec : bytes) : bytes :=
  let '(first, length) :=
    if bit_len f =? 0 then ([], length)
    else ([get_rec_bits (drop (bit_ptr f) rec) (bit_ofs f) (bit_len f)], (length - 1)%nat) in
  first ++ take (Nat.min length (bytes_in_rec f)) (data f rec).

Definition string_sort_string (f : Field) (length : nat) (p : bytes) : bytes :=
  Collation.strnxfrm (charset f) length (char_length f * Collation.strxfrm_multiply (charset f))
    (take (field_length f) p)
    (Z.lor Charset.MY_STRXFRM_PAD_WITH_SPACE Charset.MY_STRXFRM_PAD_TO_MAXLEN).

(** The virtual call [field->sort_string(to, length)], by the class of the
    column.  [None]: a class whose sort key is not part of this model. *)
Definition sort_string (f : Field) (length : nat) (rec : bytes) : option bytes :=
  let p := data f rec in
  match real_type f with
  | MYSQL_TYPE_TINY | MYSQL_TYPE_YEAR => Some (tiny_sort_string (unsigned_flag f) p)
  | MYSQL_TYPE_SHORT => Some (short_sort_string (unsigned_flag f) p)
  | MYSQL_TYPE_INT24 => Some (medium_sort_string (unsigned_flag f) p)
  | MYSQL_TYPE_LONG => Some (long_sort_string (unsigned_flag f) p)
  | MYSQL_TYPE_LONGLONG => Some (longlong_sort_string (unsigned_flag f) p)
  | MYSQL_TYPE_FLOAT => Some (float_sort_string p)
  | MYSQL_TYPE_DOUBLE => Some (double_sort_string p)
  | MYSQL_TYPE_NEWDATE => Some (newdate_sort_string p)
  | MYSQL_TYPE_NEWDECIMAL | MYSQL_TYPE_DATETIME2 | MYSQL_TYPE_TIMESTAMP2 | MYSQL_TYPE_TIME2 =>
      Some (memcpy_sort_string length p)
  | MYSQL_TYPE_ENUM | MYSQL_TYPE_SET => Some (enum_sort_string (packlength f) p)
  | MYSQL_TYPE_BIT => Some (bit_get_key_image f length rec)
  | MYSQL_TYPE_STRING => Some (string_sort_string f length p)
  | _ => None
  end.

(** ** Comparison of column values

    [cmp(a_ptr, b_ptr)] of the classes, on the bytes at the two pointers. *)

(** [sint2korr] and the like. *)
Definition sint_korr (n : nat) (p : bytes) : Z := signed_of (8 * Z.of_nat n) (le_val (take n p)).

(** The integer comparisons differ in the width only. *)
Definition int_cmp (n : nat) (uf : bool) (a b : bytes) : comparison :=
  let a := sint_korr n a in
  let b := sint_korr n b in
  if uf then a mod 2 ^ (8 * Z.of_nat n) ?= b mod 2 ^ (8 * Z.of_nat n) else a ?= b.

Definition tiny_cmp : bool -> bytes -> bytes -> comparison := int_cmp 1.
Definition short_cmp : bool -> bytes -> bytes -> comparison := int_cmp 2.
Definition medium_cmp : bool -> bytes -> bytes -> comparison := int_cmp 3.
Definition long_cmp : bool -> bytes -> bytes -> comparison := int_cmp 4.
Definition longlong_cmp : bool -> bytes -> bytes -> comparison := int_cmp 8.

(** The value of a finite IEEE number of [n] bytes with [exp_digit] exponent
    bits, as a multiple of the smallest positive number of the format. *)
Definition ieee_value (n : nat) (exp_digit bits : Z) : Z :=
  let m := 8 * Z.of_nat n - 1 - exp_digit in
  let e := (bits / 2 ^ m) mod 2 ^ exp_digit in
  let f := bits mod 2 ^ m in
  let mag := if e =? 0 then f else (2 ^ m + f) * 2 ^ (e - 1) in
  if Z.testbit bits (8 * Z.of_nat n - 1) then - mag else mag.

Definition ieee_finite (n : nat) (exp_digit bits : Z) : Prop :=
  (bits / 2 ^ (8 * Z.of_nat n - 1 - exp_digit)) mod 2 ^ exp_digit <> 2 ^ exp_digit - 1.

Definition float_cmp (a b : bytes) : comparison :=
  ieee_value 4 FLT_EXP_DIG (le_val (take 4 a)) ?= ieee_value 4 FLT_EXP_DIG (le_val (take 4 b)).

Definition double_cmp (a b : bytes) : comparison :=
  ieee_value 8 DBL_EXP_DIG (le_val (take 8 a)) ?= ieee_value 8 DBL_EXP_DIG (le_val (take 8 b)).

Definition newdate_cmp (a b : bytes) : comparison := le_val (take 3 a) ?= le_val (take 3 b).

Definition enum_cmp (packlength : nat) (a b : bytes) : comparison :=
  le_val (take packlength a) ?= le_val (take packlength b).

Definition bit_cmp (f : Field) (a b : bytes) : comparison :=
  let rest := memcmp (data f a) (data f b) (bytes_in_rec f) in
  if bit_len f =? 0 then rest
  else
    match get_rec_bits (drop (bit_ptr f) a) (bit_ofs f) (bit_len f) -
          get_rec_bits (drop (bit_ptr f) b) (bit_ofs f) (bit_len f) ?= 0 with
    | Eq => rest
    | c => c
    end.

Definition string_cmp (f : Field) (a b : bytes) : comparison :=
  Collation.strnncollsp_nchars (charset f) (take (field_length f) a) (take (field_length f) b)
    (char_length f).

(** [uint2korr] or the single length byte. *)
Definition varstring_length (f : Field) (p : bytes) : nat :=
  Z.to_nat (if (length_bytes f =? 1)%nat then nth 0 p 0 else le_val (take 2 p)).

(** The bytes of a [VARCHAR] value. *)
Definition varstring_data (f : Field) (p : bytes) : bytes :=
  take (varstring_length f p) (drop (length_bytes f) p).

Definition varstring_cmp (f : Field) (a b : bytes) : comparison :=
  let a_length := Nat.min (varstring_length f a) (field_length f) in
  let b_length := Nat.min (varstring_length f b) (field_length f) in
  Collation.strnncollsp (charset f) (take a_length (drop (length_bytes f) a))
    (take b_length (drop (length_bytes f) b)).

(** The virtual call [field->cmp], on two records.  Of the types with sort
    keys only; [BLOB] columns are compared through their prefix keys. *)
Definition column_cmp (f : Field) (a b : bytes) : comparison :=
  match real_type f with
  | MYSQL_TYPE_TINY | MYSQL_TYPE_YEAR => tiny_cmp (unsigned_flag f) (data f a) (data f b)
  | MYSQL_TYPE_SHORT => short_cmp (unsigned_flag f) (data f a) (data f b)
  | MYSQL_TYPE_INT24 => medium_cmp (unsigned_flag f) (data f a) (data f b)
  | MYSQL_TYPE_LONG => long_cmp (unsigned_flag f) (data f a) (data f b)
  | MYSQL_TYPE_LONGLONG => longlong_cmp (unsigned_flag f) (data f a) (data f b)
  | MYSQL_TYPE_FLOAT => float_cmp (data f a) (data f b)
  | MYSQL_TYPE_DOUBLE => double_cmp (data f a) (data f b)
  | MYSQL_TYPE_NEWDATE => newdate_cmp (data f a) (data f b)
  | MYSQL_TYPE_NEWDECIMAL | MYSQL_TYPE_DATETIME2 | MYSQL_TYPE_TIMESTAMP2 | MYSQL_TYPE_TIME2 =>
      memcmp (data f a) (data f b) (pack_length f)
  | MYSQL_TYPE_ENUM | MYSQL_TYPE_SET => enum_cmp (packlength f) (data f a) (data f b)
  | MYSQL_TYPE_BIT => bit_cmp f a b
  | MYSQL_TYPE_STRING => string_cmp f (data f a) (data f b)
  | MYSQL_TYPE_VARCHAR => varstring_cmp f (data f a) (data f b)
  | _ => Eq
  end.

(** ** Integer keys *)

Definition image_ok (n : nat) (p : bytes) : Prop := bytes_ok p /\ (n <= length p)%nat.

(** All the integer sort keys: the bytes from the most significant one on,
    the sign bit of the first one reversed. *)
Definition int_sort_string (n : nat) (uf : bool) (p : bytes) : bytes :=
  match reverse (take n p) with
  | [] => []
  | b :: r => reverse_signbit uf b :: r
  end.

Lemma tiny_sort_string_eq uf p : (1 <= length p)%nat -> tiny_sort_string uf p = int_sort_string 1 uf p.
Proof. intros H. do 1 (destruct p as [|? p]; [simpl in H; lia|]). done. Qed.
Lemma short_sort_string_eq uf p : (2 <= length p)%nat -> short_sort_string uf p = int_sort_string 2 uf p.
Proof. intros H. do 2 (destruct p as [|? p]; [simpl in H; lia|]). done. Qed.
Lemma medium_sort_string_eq uf p : (3 <= length p)%nat -> medium_sort_string uf p = int_sort_string 3 uf p.
Proof. intros H. do 3 (destruct p as [|? p]; [simpl in H; lia|]). done. Qed.
Lemma long_sort_string_eq uf p : (4 <= length p)%nat -> long_sort_string uf p = int_sort_string 4 uf p.
Proof. intros H. do 4 (destruct p as [|? p]; [simpl in H; lia|]). done. Qed.
Lemma longlong_sort_string_eq uf p : (8 <= length p)%nat -> longlong_sort_string uf p = int_sort_string 8 uf p.
Proof. intros H. do 8 (destruct p as [|? p]; [simpl in H; lia|]). done. Qed.

Lemma reverse_signbit_ok uf b : byte_ok b -> byte_ok (reverse_signbit uf b).
Proof.
  intros Hb. destruct uf; [done|]. unfold reverse_signbit. rewrite Charset.lxor_128 by done.
  unfold byte_ok in *. destruct (Z.ltb_spec b 128); lia.
Qed.

Lemma pow2_8 n : 2 ^ (8 * Z.of_nat n) = 256 ^ Z.of_nat n.
Proof. rewrite Z.pow_mul_r by lia. done. Qed.

Lemma pow2_8_half n : (0 < n)%nat -> 256 ^ Z.of_nat n = 2 * 2 ^ (8 * Z.of_nat n - 1).
Proof. intros H. rewrite <- pow2_8, <- Z.pow_succ_r by lia. f_equal. lia. Qed.

(** The key of [n] bytes is the number, offset by half of the range when the
    column is signed. *)
Lemma int_sort_string_be_val n uf p :
  (0 < n)%nat -> image_ok n p ->
  let v := le_val (take n p) in
  bytes_ok (int_sort_string n uf p) /\ length (int_sort_string n uf p) = n /\
  be_val (int_sort_string n uf p) =
    if uf then v else signed_of (8 * Z.of_nat n) v + 2 ^ (8 * Z.of_nat n - 1).
Proof.
  intros Hn [Hok Hlen] v. unfold int_sort_string, v. rewrite <- be_val_reverse.
  assert (bytes_ok (reverse (take n p))) as Hb by (auto with bytes).
  assert (length (reverse (take n p)) = n) as Hl by (rewrite length_reverse, length_take; lia).
  destruct (reverse (take n p)) as [|b r]; [simpl in Hl; lia|].
  apply bytes_ok_cons in Hb as [Hb Hr]. pose proof (be_val_bound r Hr) as Br.
  simpl length in *. cbn [be_val].
  split_and!; [apply bytes_ok_cons; split; [by apply reverse_signbit_ok|done]|done|].
  destruct uf; [done|]. unfold reverse_signbit. rewrite Charset.lxor_128 by done.
  unfold signed_of. rewrite pow2_8.
  pose proof (pow2_8_half n Hn) as Hh. pose proof (pow256_S (length r)) as HS. rewrite Hl in HS.
  set (q := 256 ^ Z.of_nat (length r)) in *. set (h := 2 ^ (8 * Z.of_nat n - 1)) in *.
  set (m := 256 ^ Z.of_nat n) in *. unfold byte_ok in Hb.
  rewrite (Z.mod_small (b * q + be_val r)) by nia.
  destruct (Z.ltb_spec b 128), (Z.ltb_spec (b * q + be_val r) h); nia.
Qed.

Lemma signed_of_range n z : 0 < n -> - 2 ^ (n - 1) <= signed_of n z < 2 ^ (n - 1).
Proof.
  intros Hn. unfold signed_of. pose proof (Z.mod_pos_bound z (2 ^ n)) as Hb.
  assert (2 ^ n = 2 * 2 ^ (n - 1)) as E by (rewrite <- Z.pow_succ_r by lia; f_equal; lia).
  specialize (Hb ltac:(lia)). destruct (Z.ltb_spec (z mod 2 ^ n) (2 ^ (n - 1))); lia.
Qed.

Lemma signed_of_mod n z : 0 < n -> signed_of n z mod 2 ^ n = z mod 2 ^ n.
Proof.
  intros Hn. unfold signed_of. pose proof (Z.pow_pos_nonneg 2 n ltac:(lia) ltac:(lia)).
  case_match; [by rewrite Zmod_mod|].
  rewrite <- (Z.mod_add _ 1) by lia. rewrite Z.mul_1_l, Z.sub_add. apply Zmod_mod.
Qed.

#[export] Instance mem_cmp_int n uf :
  TCEq (0 <? n)%nat true -> MemCmp (image_ok n) (int_sort_string n uf) (int_cmp n uf).
Proof.
  intros Hn%TCEq_eq%Nat.ltb_lt. apply (mem_cmp_fixed _ _ _ n).
  - intros x Hx. by apply int_sort_string_be_val.
  - intros x y Hx Hy.
    destruct (int_sort_string_be_val n uf x Hn Hx) as (Bx & Lx & Vx).
    destruct (int_sort_string_be_val n uf y Hn Hy) as (By & Ly & Vy).
    rewrite be_val_compare, Vx, Vy by congruence. unfold int_cmp, sint_korr. destruct uf.
    + rewrite !signed_of_mod by lia. rewrite pow2_8.
      destruct Hx as [Hx Hx'], Hy as [Hy Hy'].
      pose proof (le_val_bound (take n x) ltac:(auto with bytes)) as Ex.
      pose proof (le_val_bound (take n y) ltac:(auto with bytes)) as Ey.
      rewrite length_take, Nat.min_l in Ex, Ey by done. by rewrite !Z.mod_small.
    + rewrite !(Z.add_comm (signed_of _ _)). apply Z.add_compare_mono_l.
Qed.

(** ** Floating-point keys *)

Section IEEE.
(** A format of [n] bytes with [k] exponent bits; [m] mantissa bits. *)
Context (n : nat) (k : Z) (Hn : (2 <= n)%nat) (Hk : 1 < k < 15).
Let m : Z := 8 * Z.of_nat n - 1 - k.
Let half : Z := 2 ^ (8 * Z.of_nat n - 1).

Lemma m_pos : 0 < m.
Proof. unfold m. lia. Qed.

Lemma half_split : half = 2 ^ k * 2 ^ m.
Proof. unfold half, m. rewrite <- Z.pow_add_r by lia. f_equal. lia. Qed.

(** The magnitude is strictly monotone in the bits below the sign. *)
Definition magnitude (u : Z) : Z :=
  if u / 2 ^ m =? 0 then u mod 2 ^ m else (2 ^ m + u mod 2 ^ m) * 2 ^ (u / 2 ^ m - 1).

Lemma magnitude_mono u v : 0 <= u -> u < v -> magnitude u < magnitude v.
Proof.
  intros Hu Huv. unfold magnitude.
  pose proof (Z.pow_pos_nonneg 2 m ltac:(lia) ltac:(pose proof m_pos; lia)) as Hm.
  pose proof (Z_div_mod_eq_full u (2 ^ m)) as Eu. pose proof (Z_div_mod_eq_full v (2 ^ m)) as Ev.
  pose proof (Z.mod_pos_bound u (2 ^ m) Hm) as Bu. pose proof (Z.mod_pos_bound v (2 ^ m) Hm) as Bv.
  pose proof (Z.div_pos u (2 ^ m) ltac:(lia) Hm) as Du.
  pose proof (Z.div_le_mono u v (2 ^ m) Hm ltac:(lia)) as Duv.
  set (p := 2 ^ m) in *. set (e := u / p) in *. set (f := v / p) in *.
  destruct (Z.eqb_spec e 0) as [E0|E0], (Z.eqb_spec f 0) as [F0|F0]; try nia.
  - destruct (Z.eq_dec e f) as [E|E].
    + rewrite E in *. pose proof (Z.pow_pos_nonneg 2 (f - 1) ltac:(lia) ltac:(lia)). nia.
    + assert (2 ^ (f - 1) = 2 * 2 ^ (e - 1) * 2 ^ (f - e - 1)) as ->.
      { rewrite <- Z.pow_succ_r, <- Z.pow_add_r by lia. f_equal. lia. }
      pose proof (Z.pow_pos_nonneg 2 (e - 1) ltac:(lia) ltac:(lia)) as P1.
      pose proof (Z.pow_pos_nonneg 2 (f - e - 1) ltac:(lia) ltac:(lia)) as P2.
      set (x := 2 ^ (e - 1)) in *. set (y := 2 ^ (f - e - 1)) in *.
      assert (p * 2 * x <= (p + v mod p) * (2 * x * y)) by nia. nia.
Qed.

Lemma magnitude_0 : magnitude 0 = 0.
Proof. unfold magnitude. rewrite Z.div_0_l, Z.mod_0_l by lia. done. Qed.

Lemma magnitude_nonneg u : 0 <= u -> 0 <= magnitude u.
Proof.
  intros Hu. destruct (Z.eq_dec u 0) as [->|]; [by rewrite magnitude_0|].
  pose proof (magnitude_mono 0 u ltac:(lia) ltac:(lia)). rewrite magnitude_0 in *. lia.
Qed.

(** The value: sign and magnitude. *)
Lemma ieee_value_eq bits :
  0 <= bits < 2 * half ->
  ieee_value n k bits = if bits <? half then magnitude bits else - magnitude (bits - half).
Proof.
  intros Hb. unfold ieee_value. fold m.
  pose proof (Z.pow_pos_nonneg 2 m ltac:(lia) ltac:(pose proof m_pos; lia)) as Hm.
  pose proof half_split as Hh.
  assert (forall u, 0 <= u < half -> 0 <= u / 2 ^ m < 2 ^ k) as Hdiv.
  { intros u Hu. split; [apply Z.div_pos; lia|apply Z.div_lt_upper_bound; lia]. }
  assert (Z.testbit bits (8 * Z.of_nat n - 1) = negb (bits <? half)) as ->.
  { rewrite Z.testbit_eqb by lia. fold half. destruct (Z.ltb_spec bits half).
    - by rewrite Z.div_small by lia.
    - assert (bits / half = 1) as -> by (symmetry; apply (Z.div_unique _ _ _ (bits - half)); lia). done. }
  unfold magnitude. destruct (Z.ltb_spec bits half); simpl.
  - rewrite (Z.mod_small (bits / 2 ^ m)) by (apply Hdiv; lia). done.
  - assert (bits / 2 ^ m = (bits - half) / 2 ^ m + 2 ^ k) as E.
    { replace bits with (bits - half + 2 ^ k * 2 ^ m) at 1 by lia. rewrite Z.div_add by lia. done. }
    assert (bits mod 2 ^ m = (bits - half) mod 2 ^ m) as ->.
    { replace bits with (bits - half + 2 ^ k * 2 ^ m) at 1 by lia. by rewrite Z.mod_add by lia. }
    pose proof (Hdiv (bits - half) ltac:(lia)).
    assert ((bits / 2 ^ m) mod 2 ^ k = (bits - half) / 2 ^ m) as ->; [|done].
    rewrite E, <- (Z.mul_1_l (2 ^ k)) at 1. rewrite Z.mod_add by lia. by apply Z.mod_small.
Qed.

(** The key, as a big-endian number. *)
Definition ieee_key (bits : Z) : Z :=
  if bits mod half =? 0 then half
  else if bits <? half then bits + half + 2 ^ m else 2 * half - 1 - bits.

(** Both the value and the key are strictly monotone functions of the bits
    read as sign and magnitude. *)
Let rank (bits : Z) : Z := if bits <? half then bits else half - bits.
Let value_of (r : Z) : Z := if 0 <=? r then magnitude r else - magnitude (- r).
Let key_of (r : Z) : Z := if r =? 0 then half else if 0 <? r then r + half + 2 ^ m else half - 1 + r.

Lemma ieee_value_rank bits : 0 <= bits < 2 * half -> ieee_value n k bits = value_of (rank bits).
Proof.
  intros Hb. rewrite ieee_value_eq by done. unfold value_of, rank.
  destruct (Z.ltb_spec bits half).
  - by rewrite (proj2 (Z.leb_le 0 bits)) by lia.
  - destruct (Z.leb_spec 0 (half - bits)).
    + replace (bits - half) with 0 by lia. replace (half - bits) with 0 by lia. by rewrite magnitude_0.
    + do 2 f_equal. lia.
Qed.

Lemma ieee_key_rank bits : 0 <= bits < 2 * half -> ieee_key bits = key_of (rank bits).
Proof.
  intros Hb. unfold ieee_key, key_of, rank.
  assert (bits mod half = if bits <? half then bits else bits - half) as ->.
  { destruct (Z.ltb_spec bits half); [apply Z.mod_small; lia|].
    symmetry. apply (Z.mod_unique _ _ 1); lia. }
  destruct (Z.ltb_spec bits half).
  - destruct (Z.eqb_spec bits 0), (Z.ltb_spec 0 bits); done || lia.
  - destruct (Z.eqb_spec (bits - half) 0), (Z.eqb_spec (half - bits) 0), (Z.ltb_spec 0 (half - bits)); lia.
Qed.

Lemma value_of_mono x y : x < y -> value_of x < value_of y.
Proof.
  intros Hxy. unfold value_of. destruct (Z.leb_spec 0 x), (Z.leb_spec 0 y); try lia.
  - by apply magnitude_mono.
  - pose proof (magnitude_nonneg y ltac:(lia)).
    pose proof (magnitude_mono 0 (- x) ltac:(lia) ltac:(lia)) as M. rewrite magnitude_0 in M. lia.
  - pose proof (magnitude_mono (- y) (- x) ltac:(lia) ltac:(lia)). lia.
Qed.

Lemma key_of_mono x y : x < y -> key_of x < key_of y.
Proof.
  intros Hxy. unfold key_of.
  pose proof (Z.pow_pos_nonneg 2 m ltac:(lia) ltac:(pose proof m_pos; lia)).
  destruct (Z.eqb_spec x 0), (Z.ltb_spec 0 x), (Z.eqb_spec y 0), (Z.ltb_spec 0 y); lia.
Qed.

Lemma ieee_key_compare a b :
  0 <= a < 2 * half -> 0 <= b < 2 * half ->
  (ieee_key a ?= ieee_key b) = (ieee_value n k a ?= ieee_value n k b).
Proof.
  intros Ha Hb. rewrite !ieee_value_rank, !ieee_key_rank by done.
  rewrite (mono_compare value_of) by apply value_of_mono.
  by rewrite (mono_compare key_of) by apply key_of_mono.
Qed.

Lemma be_val_complement l :
  bytes_ok l -> be_val (map (fun b => Z.lxor b 255) l) = 256 ^ Z.of_nat (length l) - 1 - be_val l /\
    bytes_ok (map (fun b => Z.lxor b 255) l).
Proof.
  induction l as [|b l IH]; intros H; [done|]. apply bytes_ok_cons in H as [Hb Hl].
  destruct (IH Hl) as [IH1 IH2]. simpl length. rewrite pow256_S. cbn [map be_val].
  rewrite length_map, IH1.
  assert (Z.lxor b 255 = 255 - b) as ->.
  { apply Z.eqb_eq. revert b Hb. apply (Z_range_forall 256 (fun b => Z.lxor b 255 =? 255 - b)).
    by vm_compute. }
  split; [lia|]. apply bytes_ok_cons. split; [unfold byte_ok in *; lia|done].
Qed.

Lemma land_128 b : byte_ok b -> (Z.land b 128 =? 0) = (b <? 128).
Proof.
  intros Hb. apply Bool.eqb_true_iff. revert b Hb.
  apply (Z_range_forall 256 (fun b => eqb (Z.land b 128 =? 0) (b <? 128))). by vm_compute.
Qed.

(** The bit twiddling on the two first bytes adds one to the exponent of a
    positive number and sets its high bit; a negative number is complemented. *)
Lemma ieee_change_be_val tmp :
    bytes_ok tmp -> length tmp = n -> be_val tmp mod half <> 0 ->
    (be_val tmp < half -> be_val tmp + 2 ^ m < half) ->
    bytes_ok (ieee_change_for_sort k tmp) /\ length (ieee_change_for_sort k tmp) = n /\
    be_val (ieee_change_for_sort k tmp) = ieee_key (be_val tmp).
  Proof.
    intros Hok Hl Hnz Hfin. unfold ieee_key. rewrite (proj2 (Z.eqb_neq _ _) Hnz).
    destruct tmp as [|t0 [|t1 r]]; [simpl in Hl; lia..|].
    pose proof Hok as Hok'. rewrite !bytes_ok_cons in Hok'. destruct Hok' as (H0 & H1 & Hr).
    unfold byte_ok in H0, H1. pose proof (be_val_bound r Hr) as Br.
    assert (half = 128 * 256 * 256 ^ Z.of_nat (length r)) as Hhalf.
    { pose proof (pow2_8_half n ltac:(lia)) as E. fold half in E. rewrite <- Hl in E at 1.
      simpl length in E. rewrite !pow256_S in E. lia. }
    assert (2 ^ m = 2 ^ (15 - k) * 256 ^ Z.of_nat (length r)) as Hm.
    { rewrite <- pow2_8, <- Z.pow_add_r by lia. unfold m. f_equal. simpl in Hl. lia. }
    assert (be_val (t0 :: t1 :: r) = (t0 * 256 + t1) * 256 ^ Z.of_nat (length r) + be_val r) as Hv.
    { cbn [be_val length]. rewrite pow256_S. lia. }
    rewrite Hv in *. set (q := 256 ^ Z.of_nat (length r)) in *.
    unfold ieee_change_for_sort. cbn [nth].
    rewrite (land_128 t0) by done.
    destruct (Z.ltb_spec t0 128) as [Ht|Ht]; cbn [negb].
    - destruct (Z.ltb_spec ((t0 * 256 + t1) * q + be_val r) half); [|nia].
      rewrite !Z.shiftl_mul_pow2 by lia. change (2 ^ 8) with 256. rewrite Z.mul_1_l.
      rewrite (Charset.lor_hi 8 (t0 * 256) t1), (Z.lor_comm _ 32768), (Charset.lor_hi 15 32768)
        by (dlia || done).
      change (16 - 1 - k) with (15 - k).
      assert (0 < 2 ^ (15 - k)) by (apply Z.pow_pos_nonneg; lia).
      unfold ushort_of. set (x := 2 ^ (15 - k)) in *.
      assert (t0 * 256 + t1 + x < 32768) by nia.
      rewrite Z.mod_small by lia. rewrite Z.shiftr_div_pow2 by lia. unfold uchar_of.
      change (2 ^ 8) with 256. change (drop 2 (t0 :: t1 :: r)) with (drop 0 r). rewrite drop_0.
      set (y := 32768 + (t0 * 256 + t1) + x). assert (32768 <= y < 65536) by (unfold y; lia).
      split_and!; [|done|].
      { rewrite !bytes_ok_cons. split_and!; [apply uchar_of_ok..|done]. }
      cbn [be_val length]. rewrite pow256_S. fold q.
      rewrite (Z.mod_small (y / 256)) by dlia.
      replace (y / 256 * (256 * q) + (y mod 256 * q + be_val r))
        with ((256 * (y / 256) + y mod 256) * q + be_val r) by ring.
      rewrite <- (Z_div_mod_eq_full y 256). unfold y. rewrite Hm, Hhalf. ring.
    - destruct (Z.ltb_spec ((t0 * 256 + t1) * q + be_val r) half); [nia|].
      destruct (be_val_complement _ Hok) as [-> Hc]. rewrite length_map, Hv, Hl.
      split_and!; [done|done|]. rewrite (pow2_8_half n) by lia. fold half. lia.
  Qed.
End IEEE.

Lemma rev4 p : (4 <= length p)%nat -> [nth 3 p 0; nth 2 p 0; nth 1 p 0; nth 0 p 0] = reverse (take 4 p).
Proof. intros H. do 4 (destruct p as [|? p]; [simpl in H; lia|]). done. Qed.

Lemma rev8 p : (8 <= length p)%nat ->
  [nth 7 p 0; nth 6 p 0; nth 5 p 0; nth 4 p 0; nth 3 p 0; nth 2 p 0; nth 1 p 0; nth 0 p 0]
    = reverse (take 8 p).
Proof. intros H. do 8 (destruct p as [|? p]; [simpl in H; lia|]). done. Qed.

(** The key of a finite number, for both formats. *)
Lemma ieee_sort_key n k p :
  (2 <= n)%nat -> 1 < k < 15 -> image_ok n p -> ieee_finite n k (le_val (take n p)) ->
  let key := if ieee_is_zero n (le_val (take n p)) then 128 :: replicate (n - 1) 0
             else ieee_change_for_sort k (reverse (take n p)) in
  bytes_ok key /\ length key = n /\ be_val key = ieee_key n k (le_val (take n p)).
Proof.
  intros Hn Hk [Hok Hlen] Hfin. set (v := le_val (take n p)) in *.
  assert (bytes_ok (reverse (take n p))) as Hb by (auto with bytes).
  assert (length (reverse (take n p)) = n) as Hl by (rewrite length_reverse, length_take; lia).
  pose proof (be_val_bound _ Hb) as Bv. rewrite Hl, be_val_reverse in Bv. fold v in Bv.
  pose proof (half_split n k Hn Hk) as Hh. rewrite (pow2_8_half n) in Bv by lia.
  unfold ieee_is_zero. destruct (Z.eqb_spec (v mod 2 ^ (8 * Z.of_nat n - 1)) 0) as [Ez|Ez]; cbv zeta.
  - split_and!.
    + apply bytes_ok_cons. split; [unfold byte_ok; lia|apply bytes_ok_replicate; unfold byte_ok; lia].
    + simpl. rewrite length_replicate. lia.
    + unfold ieee_key. rewrite Ez. cbn [be_val Z.eqb].
      assert (forall j, be_val (replicate j 0) = 0) as -> by (induction j; simpl; lia).
      rewrite length_replicate. pose proof (pow2_8_half n ltac:(lia)) as E.
      replace n with (S (n - 1)) in E at 1 by lia. rewrite pow256_S in E. lia.
  - replace v with (be_val (reverse (take n p))) by apply be_val_reverse.
    apply ieee_change_be_val; try done; rewrite be_val_reverse; fold v; [done|].
    intros Hlt. unfold ieee_finite in Hfin.
    pose proof (Z.pow_pos_nonneg 2 (8 * Z.of_nat n - 1 - k) ltac:(lia) ltac:(lia)) as Hm.
    set (q := 2 ^ (8 * Z.of_nat n - 1 - k)) in *.
    assert (0 <= v / q < 2 ^ k) as Hd by (split; [apply Z.div_pos; lia|apply Z.div_lt_upper_bound; lia]).
    rewrite Z.mod_small in Hfin by done.
    pose proof (Z_div_mod_eq_full v q). pose proof (Z.mod_pos_bound v q Hm). nia.
Qed.

Definition float_ok (p : bytes) : Prop :=
  image_ok 4 p /\ ieee_finite 4 FLT_EXP_DIG (le_val (take 4 p)).

Definition double_ok (p : bytes) : Prop :=
  image_ok 8 p /\ ieee_finite 8 DBL_EXP_DIG (le_val (take 8 p)).

Lemma float_sort_string_key p : float_ok p ->
  bytes_ok (float_sort_string p) /\ length (float_sort_string p) = 4%nat /\
  be_val (float_sort_string p) = ieee_key 4 FLT_EXP_DIG (le_val (take 4 p)).
Proof.
  intros [Hp Hf]. unfold float_sort_string. rewrite rev4 by apply Hp.
  apply (ieee_sort_key 4 FLT_EXP_DIG p); try done; unfold FLT_EXP_DIG; lia.
Qed.

Lemma double_sort_string_key p : double_ok p ->
  bytes_ok (double_sort_string p) /\ length (double_sort_string p) = 8%nat /\
  be_val (double_sort_string p) = ieee_key 8 DBL_EXP_DIG (le_val (take 8 p)).
Proof.
  intros [Hp Hf]. unfold double_sort_string, change_double_for_sort.
  rewrite rev8 by (rewrite length_take; destruct Hp; lia). rewrite take_idemp.
  apply (ieee_sort_key 8 DBL_EXP_DIG p); try done; unfold DBL_EXP_DIG; lia.
Qed.

Lemma image_val_bound n p : (0 < n)%nat -> image_ok n p ->
  0 <= le_val (take n p) < 2 * 2 ^ (8 * Z.of_nat n - 1).
Proof.
  intros Hn [Hp Hl]. pose proof (le_val_bound (take n p) ltac:(auto with bytes)) as B.
  rewrite length_take, Nat.min_l, (pow2_8_half n) in B by done. done.
Qed.

(** Byte order of the keys of finite floats is the order of the numbers. *)
#[export] Instance mem_cmp_float : MemCmp float_ok float_sort_string float_cmp.
Proof.
  apply (mem_cmp_fixed _ _ _ 4).
  - intros x Hx. by apply float_sort_string_key.
  - intros x y Hx Hy. destruct (float_sort_string_key x Hx) as (Bx & Lx & Vx).
    destruct (float_sort_string_key y Hy) as (By & Ly & Vy).
    rewrite be_val_compare, Vx, Vy by congruence.
    apply ieee_key_compare; try (unfold FLT_EXP_DIG; lia);
      apply (image_val_bound 4); [lia|apply Hx|lia|apply Hy].
Qed.

#[export] Instance mem_cmp_double : MemCmp double_ok double_sort_string double_cmp.
Proof.
  apply (mem_cmp_fixed _ _ _ 8).
  - intros x Hx. by apply double_sort_string_key.
  - intros x y Hx Hy. destruct (double_sort_string_key x Hx) as (Bx & Lx & Vx).
    destruct (double_sort_string_key y Hy) as (By & Ly & Vy).
    rewrite be_val_compare, Vx, Vy by congruence.
    apply ieee_key_compare; try (unfold DBL_EXP_DIG; lia);
      apply (image_val_bound 8); [lia|apply Hx|lia|apply Hy].
Qed.

(** ** The other fixed-length keys *)

Lemma newdate_sort_string_eq p : (3 <= length p)%nat -> newdate_sort_string p = int_sort_string 3 true p.
Proof. intros H. do 3 (destruct p as [|? p]; [simpl in H; lia|]). done. Qed.

Lemma int_cmp_unsigned n a b : (0 < n)%nat -> image_ok n a -> image_ok n b ->
  int_cmp n true a b = (le_val (take n a) ?= le_val (take n b)).
Proof.
  intros Hn Ha Hb. unfold int_cmp, sint_korr. rewrite !signed_of_mod by lia.
  rewrite pow2_8, (pow2_8_half n) by done. rewrite !Z.mod_small by by apply image_val_bound. done.
Qed.

Lemma enum_store_loop_eq n v acc : enum_store_loop n v acc = be_bytes n v ++ acc.
Proof.
  revert v acc. induction n as [|n IH]; intros v acc; [done|].
  cbn [enum_store_loop]. rewrite IH. change 255 with (Z.ones 8).
  rewrite Z.land_ones, Z.shiftr_div_pow2 by lia. change (2 ^ 8) with 256.
  rewrite !be_bytes_reverse. cbn [le_bytes]. by rewrite reverse_cons, <- app_assoc.
Qed.

Lemma enum_sort_string_eq n p : enum_sort_string n p = be_bytes n (le_val (take n p)).
Proof. unfold enum_sort_string. by rewrite enum_store_loop_eq, app_nil_r. Qed.

#[export] Instance mem_cmp_enum n : MemCmp (image_ok n) (enum_sort_string n) (enum_cmp n).
Proof.
  apply (mem_cmp_fixed _ _ _ n); intros x.
  - intros _. by rewrite enum_sort_string_eq, length_be_bytes.
  - intros y [Hx Lx] [Hy Ly]. rewrite !enum_sort_string_eq.
    apply lex_cmp_be_bytes.
    + pose proof (le_val_bound (take n x) ltac:(auto with bytes)) as B.
      by rewrite length_take, Nat.min_l in B by done.
    + pose proof (le_val_bound (take n y) ltac:(auto with bytes)) as B.
      by rewrite length_take, Nat.min_l in B by done.
Qed.

#[export] Instance mem_cmp_memcpy n :
  MemCmp (image_ok n) (memcpy_sort_string n) (fun a b => memcmp a b n).
Proof.
  apply (mem_cmp_fixed _ _ _ n); intros x.
  - intros [_ Hx]. unfold memcpy_sort_string. rewrite length_take. lia.
  - done.
Qed.

(** A BIT column lies in the record. *)
Definition bit_ok (f : Field) (rec : bytes) : Prop :=
  (ptr f + bytes_in_rec f <= length rec)%nat.

(** One more byte holds the uneven bits. *)
Definition uneven (f : Field) : nat := if bit_len f =? 0 then 0 else 1.

Lemma bit_get_key_image_length f rec : bit_ok f rec ->
  length (bit_get_key_image f (bytes_in_rec f + uneven f) rec) =
    (bytes_in_rec f + uneven f)%nat.
Proof.
  unfold bit_ok, bit_get_key_image, data. intros H.
  unfold uneven; destruct (bit_len f =? 0); rewrite length_app, length_take, length_drop; simpl length; lia.
Qed.

#[export] Instance mem_cmp_bit f :
  MemCmp (bit_ok f) (bit_get_key_image f (bytes_in_rec f + uneven f)) (bit_cmp f).
Proof.
  apply (mem_cmp_fixed _ _ _ (bytes_in_rec f + uneven f)).
  - intros x Hx. by apply bit_get_key_image_length.
  - intros x y Hx Hy. unfold bit_get_key_image, bit_cmp, memcmp, uneven.
    destruct (bit_len f =? 0); simpl.
    + by replace (Nat.min (bytes_in_rec f + 0) (bytes_in_rec f)) with (bytes_in_rec f) by lia.
    + replace (Nat.min (bytes_in_rec f + 1 - 1) (bytes_in_rec f)) with (bytes_in_rec f) by lia.
      rewrite Collation.sub_compare. by destruct (_ ?= _).
Qed.

(** CHAR columns in a PAD SPACE collation: the value is stored padded to its
    full length, so it has [char_length] characters at least. *)
Definition string_ok (f : Field) (weights : bytes -> option (list Z)) (p : bytes) : Prop :=
  image_ok (field_length f) p /\
  exists ws, weights (take (field_length f) p) = Some ws /\ (char_length f <= length ws)%nat.

Lemma mem_cmp_string f wlen sp weights `{!Collation.PadSpace (charset f) wlen sp weights} :
  Collation.strxfrm_multiply (charset f) = 1%nat ->
  MemCmp (string_ok f weights) (string_sort_string f (wlen * char_length f)) (string_cmp f).
Proof.
  intros Hm x y r s (Hx & wx & Ex & Lx) (Hy & wy & Ey & Ly).
  assert (forall p, image_ok (field_length f) p -> bytes_ok (take (field_length f) p)) as Hok
    by (intros p [Hp _]; auto with bytes).
  pose proof (Hok x Hx) as Ox. pose proof (Hok y Hy) as Oy.
  unfold string_sort_string, string_cmp. rewrite Hm, Nat.mul_1_r.
  rewrite (Collation.ps_strnxfrm_char _ wx), (Collation.ps_strnxfrm_char _ wy),
    (Collation.ps_strnncollsp_nchars _ _ wx wy) by done.
  rewrite Collation.lex_cmp_wbytes.
  - rewrite <- (app_nil_r (take _ wx)) at 2. rewrite <- (app_nil_r (take _ wy)) at 2.
    rewrite Collation.pad_cmp_app by (rewrite !length_take; lia). simpl. by rewrite cmp_then_Eq_r.
  - apply Forall_take. by apply (Collation.ps_weights_ok _ _ Ox Ex).
  - apply Forall_take. by apply (Collation.ps_weights_ok _ _ Oy Ey).
  - rewrite !length_take. lia.
Qed.

End Field.
