(* ===== verification/Placement.v ===== *)
(** * Placement: columns in a record buffer

    Columns occupy disjoint bytes of the record and distinct NULL bits, so that
    an operation on one column leaves the others alone: its effect is a
    [frame] for every column that lies apart.  The files that fill record
    buffers (unpacking of keys, key tuples and rows) share these lemmas. *)

From S2P Require Import Prelude Buff Charset Latin1 Collation Field.
Import Field.

Module Placement.

(** ** What a column reads *)

(** The bytes of the column. *)
Definition column_bytes (f : Field) (buf : bytes) : bytes := take (pack_length f) (data f buf).

(** Where it lies in a record of [size] bytes; the bits of a BIT column may lie
    among the NULL bits. *)
Record placed (size : nat) (f : Field) : Prop := {
  pl_type : real_type f <> MYSQL_TYPE_BIT;
  pl_fits : (ptr f + pack_length f <= size)%nat;
  pl_null o : null_ptr f = Some o -> (o < size)%nat /\ 0 < null_bit f < 256
}.

(** The bytes of [f] do not touch those of [g] nor its NULL bit, and the NULL
    bits are distinct. *)
Record apart (f g : Field) : Prop := {
  ap_bytes : (ptr f + pack_length f <= ptr g)%nat \/ (ptr g + pack_length g <= ptr f)%nat;
  ap_null_f o : null_ptr f = Some o -> (o < ptr g)%nat \/ (ptr g + pack_length g <= o)%nat;
  ap_null_g o : null_ptr g = Some o -> (o < ptr f)%nat \/ (ptr f + pack_length f <= o)%nat;
  ap_bits o : null_ptr f = Some o -> null_ptr g = Some o -> Z.land (null_bit f) (null_bit g) = 0
}.

Definition self_apart (f : Field) : Prop :=
  forall o, null_ptr f = Some o -> (o < ptr f)%nat \/ (ptr f + pack_length f <= o)%nat.

(** ** Writing *)

Lemma write_at_other off bs dst p n :
  (off + length bs <= length dst)%nat -> (off + length bs <= p)%nat \/ (p + n <= off)%nat ->
  take n (drop p (write_at off bs dst)) = take n (drop p dst).
Proof.
  intros Hl Hd. unfold write_at. destruct Hd as [Hd|Hd].
  - rewrite drop_app_ge by (rewrite length_take; lia). rewrite length_take, Nat.min_l by lia.
    rewrite drop_app_ge by lia. rewrite drop_drop. do 2 f_equal. lia.
  - rewrite drop_app_le by (rewrite length_take; lia). rewrite take_app_le by (rewrite length_drop, length_take; lia).
    rewrite !firstn_skipn_comm, take_take. do 2 f_equal. lia.
Qed.

Lemma write_at_same off bs dst :
  (off + length bs <= length dst)%nat -> take (length bs) (drop off (write_at off bs dst)) = bs.
Proof.
  intros Hl. unfold write_at. rewrite drop_app_ge by (rewrite length_take; lia).
  rewrite length_take, Nat.min_l, Nat.sub_diag, drop_0 by lia. apply take_app_length.
Qed.

Lemma write_at_nth off bs dst o :
  (off + length bs <= length dst)%nat -> (o < off)%nat \/ (off + length bs <= o)%nat ->
  nth o (write_at off bs dst) 0 = nth o dst 0.
Proof.
  intros Hl Hd. pose proof (write_at_other off bs dst o 1 Hl ltac:(lia)) as H.
  assert (forall l : bytes, nth o l 0 = nth 0 (take 1 (drop o l)) 0) as Hn.
  { intros l. rewrite <- (Nat.add_0_r o) at 1. rewrite <- nth_skipn. by destruct (drop o l). }
  by rewrite !Hn, H.
Qed.

Lemma write_at_prefix off b1 b2 dst :
  (off + length b1 + length b2 <= length dst)%nat ->
  write_at off b1 (write_at (off + length b1) b2 dst) = write_at off (b1 ++ b2) dst.
Proof.
  intros H. unfold write_at. rewrite take_app_le by (rewrite length_take; lia).
  rewrite take_take, Nat.min_l by lia. f_equal.
  rewrite drop_app_ge by (rewrite length_take; lia). rewrite length_take, Nat.min_l, Nat.sub_diag, drop_0 by lia.
  rewrite length_app, <- !app_assoc. by rewrite Nat.add_assoc.
Qed.

(** [write_at] changes only the column [f]. *)
Lemma write_column_other size f g bs buf :
  placed size f -> apart f g -> length buf = size -> (length bs <= pack_length f)%nat ->
  column_bytes g (write_at (ptr f) bs buf) = column_bytes g buf /\
  is_real_null g (write_at (ptr f) bs buf) = is_real_null g buf.
Proof.
  intros Hp Ha Hl Hbs. pose proof (pl_fits _ _ Hp). pose proof (ap_bytes _ _ Ha). split.
  - apply write_at_other; lia.
  - unfold is_real_null. destruct (null_ptr g) as [o|] eqn:E; [|done].
    destruct (ap_null_g _ _ Ha o E); rewrite write_at_nth by lia; done.
Qed.

(** ** NULL bits *)

Lemma land_uchar x n : 0 <= n < 256 -> Z.land (uchar_of x) n = Z.land x n.
Proof.
  intros Hn. unfold uchar_of. change 256 with (2 ^ 8). rewrite <- Z.land_ones by lia.
  rewrite <- Z.land_assoc. f_equal. rewrite Z.land_comm, Z.land_ones by lia. by apply Z.mod_small.
Qed.

Lemma land_disjoint n m : Z.land n m = 0 -> Z.land (Z.lnot n) m = m.
Proof.
  intros H. apply Z.bits_inj'. intros i Hi. rewrite Z.land_spec, Z.lnot_spec by done.
  pose proof (f_equal (fun z => Z.testbit z i) H) as Hb. cbv beta in Hb. rewrite Z.land_spec, Z.bits_0 in Hb.
  by destruct (Z.testbit n i), (Z.testbit m i).
Qed.

(** The byte that [set_null] and [set_notnull] store. *)
Definition null_byte (f : Field) (is_null : bool) (b : Z) : Z :=
  uchar_of (if is_null then Z.lor b (null_bit f) else Z.land b (Z.lnot (null_bit f))).

Definition set_null_bit (f : Field) (is_null : bool) (buf : bytes) : bytes :=
  if is_null then set_null f buf else set_notnull f buf.

Lemma set_null_bit_eq size f is_null buf o :
  placed size f -> length buf = size -> null_ptr f = Some o ->
  set_null_bit f is_null buf = write_at o [null_byte f is_null (nth o buf 0)] buf.
Proof.
  intros Hp Hl Ho. destruct (pl_null _ _ Hp o Ho) as [Hlt _].
  unfold set_null_bit, set_null, set_notnull, null_byte, write_at. rewrite Ho.
  destruct is_null; rewrite insert_take_drop by lia; rewrite Nat.add_1_r; done.
Qed.

Lemma length_set_null_bit f is_null buf : length (set_null_bit f is_null buf) = length buf.
Proof. unfold set_null_bit, set_null, set_notnull. destruct is_null, (null_ptr f); rewrite ?length_insert; done. Qed.

Lemma set_null_bit_none f is_null buf : null_ptr f = None -> set_null_bit f is_null buf = buf.
Proof. intros H. unfold set_null_bit, set_null, set_notnull. rewrite H. by destruct is_null. Qed.

Lemma set_null_bit_other size f g is_null buf :
  placed size f -> placed size g -> apart f g -> length buf = size ->
  column_bytes g (set_null_bit f is_null buf) = column_bytes g buf /\
  is_real_null g (set_null_bit f is_null buf) = is_real_null g buf.
Proof.
  intros Hf Hg Ha Hl. destruct (null_ptr f) as [o|] eqn:Eo; [|by rewrite set_null_bit_none].
  destruct (pl_null _ _ Hf o Eo) as [Hlt Hbit].
  rewrite (set_null_bit_eq size f is_null buf o) by done. split.
  - destruct (ap_null_f _ _ Ha o Eo); apply write_at_other; simpl; lia.
  - unfold is_real_null. destruct (null_ptr g) as [o'|] eqn:Eo'; [|done].
    destruct (pl_null _ _ Hg o' Eo') as [Hlt' Hbit'].
    destruct (decide (o' = o)) as [->|Hne]; [|rewrite write_at_nth by (simpl; lia); done].
    unfold write_at. rewrite app_nth2 by (rewrite length_take; lia).
    rewrite length_take, Nat.min_l, Nat.sub_diag by lia. cbn [nth app].
    pose proof (ap_bits _ _ Ha o Eo Eo') as Hb. unfold null_byte. rewrite land_uchar by lia.
    destruct is_null.
    + by rewrite Z.land_lor_distr_l, Hb, Z.lor_0_r.
    + by rewrite <- Z.land_assoc, land_disjoint.
Qed.

(** On the column itself. *)
Lemma set_null_bit_same size f is_null buf o :
  placed size f -> self_apart f -> length buf = size -> null_ptr f = Some o ->
  column_bytes f (set_null_bit f is_null buf) = column_bytes f buf /\
  is_real_null f (set_null_bit f is_null buf) = is_null.
Proof.
  intros Hf Hs Hl Eo. destruct (pl_null _ _ Hf o Eo) as [Hlt Hbit].
  rewrite (set_null_bit_eq size f is_null buf o) by done. split.
  - destruct (Hs o Eo); apply write_at_other; simpl; lia.
  - unfold is_real_null. rewrite Eo. unfold write_at. rewrite app_nth2 by (rewrite length_take; lia).
    rewrite length_take, Nat.min_l, Nat.sub_diag by lia. cbn [nth app].
    unfold null_byte. rewrite land_uchar by lia. destruct is_null.
    + rewrite Z.land_lor_distr_l, Z.land_diag.
      rewrite (proj2 (Z.eqb_neq _ _)); [done|]. intros H. apply Z.lor_eq_0_iff in H. lia.
    + by rewrite <- Z.land_assoc, (Z.land_comm (Z.lnot _)), Z.land_lnot_diag, Z.land_0_r.
Qed.

(** ** Frames *)

(** [buf'] differs from [buf] in the column [f] only. *)
Definition frame (size : nat) (f : Field) (buf buf' : bytes) : Prop :=
  length buf' = size /\ (bytes_ok buf -> bytes_ok buf') /\
  forall g, placed size g -> apart f g ->
    column_bytes g buf' = column_bytes g buf /\ is_real_null g buf' = is_real_null g buf.

Lemma frame_refl size f buf : length buf = size -> frame size f buf buf.
Proof. by split. Qed.

Lemma frame_trans size f a b c : frame size f a b -> frame size f b c -> frame size f a c.
Proof.
  intros (_ & Hb1 & H1) (Hl & Hb2 & H2). split_and!; [done|auto|]. intros g Hg Ha.
  destruct (H1 g Hg Ha) as [<- <-]. by apply H2.
Qed.

Lemma frame_write size f bs buf :
  placed size f -> length buf = size -> (length bs <= pack_length f)%nat -> bytes_ok bs ->
  frame size f buf (write_at (ptr f) bs buf).
Proof.
  intros Hp Hl Hbs Hok. pose proof (pl_fits _ _ Hp). split_and!; [by rewrite length_write_at by lia| |].
  { intros Hb. unfold write_at. rewrite !bytes_ok_app. auto with bytes. }
  intros g Hg Ha. by apply (write_column_other size).
Qed.

Lemma frame_set_null_bit size f is_null buf :
  placed size f -> length buf = size -> frame size f buf (set_null_bit f is_null buf).
Proof.
  intros Hp Hl. split_and!; [by rewrite length_set_null_bit| |].
  { intros Hb. destruct (null_ptr f) as [o|] eqn:E; [|by rewrite set_null_bit_none].
    rewrite (set_null_bit_eq size f is_null buf o) by done. unfold write_at. rewrite !bytes_ok_app.
    split_and!; [auto with bytes| |auto with bytes]. apply bytes_ok_cons. split; [apply uchar_of_ok|apply bytes_ok_nil]. }
  intros g Hg Ha. by apply (set_null_bit_other size).
Qed.

(** The column has the NULL flag [is_null] and, unless it is NULL, starts with
    [image]. *)
Definition holds_image (f : Field) (is_null : bool) (image buf : bytes) : Prop :=
  is_real_null f buf = is_null /\
  (is_null = false -> take (length image) (column_bytes f buf) = image).

Lemma holds_image_frame size f g is_null image a b :
  placed size g -> apart f g -> frame size f a b ->
  holds_image g is_null image a -> holds_image g is_null image b.
Proof. intros Hg Ha (_ & _ & H) Hh. unfold holds_image. by destruct (H g Hg Ha) as [-> ->]. Qed.

Lemma write_holds size f is_null image buf :
  placed size f -> self_apart f -> length buf = size -> (length image <= pack_length f)%nat ->
  is_real_null f buf = is_null -> holds_image f is_null image (write_at (ptr f) image buf).
Proof.
  intros Hp Hs Hl Hi Hn. pose proof (pl_fits _ _ Hp). split.
  - rewrite <- Hn. unfold is_real_null. destruct (null_ptr f) as [o|] eqn:E; [|done].
    destruct (Hs o E); rewrite write_at_nth by lia; done.
  - intros _. unfold column_bytes, data. rewrite take_take, Nat.min_l by done. apply write_at_same. lia.
Qed.

(** Columns of a row: placed, and pairwise apart. *)
Fixpoint laid_out_fields (size : nat) (fs : list Field) : Prop :=
  match fs with
  | [] => True
  | f :: fs =>
      placed size f /\ self_apart f /\ Forall (fun g => apart f g /\ apart g f) fs /\ laid_out_fields size fs
  end.

Lemma laid_out_fields_placed size fs : laid_out_fields size fs -> Forall (placed size) fs.
Proof. induction fs as [|f fs IH]; [done|]. intros (Hp & _ & _ & Hr). constructor; auto. Qed.

End Placement.
