(* ===== verification/Store.v ===== *)
(** * Store: storing strings into columns

    [Field_varstring::store] and [Field_string::store] (sql/field.cc) copy a
    string into the record with the [copy_fix] function of the column's
    character set.  Whatever the bytes of the string are, the column then holds
    a well-formed string of at most its length; a string that is well-formed
    and fits is stored as it is.  [Storable] is that promise, which the
    character sets keep and the columns rely on. *)

From S2P Require Import Prelude Buff Charset Latin1 Copy Collation Field Placement.
Import Charset Copy Field Placement.

Module Store.

(** ** Character lengths and decoding *)

Definition utf8_charlen (mb4 : bool) : bytes -> Z :=
  if mb4 then my_charlen_utf8mb4 else my_charlen_utf8mb3.

Definition utf8_wc_mb (mb4 : bool) : Z -> nat -> wc_res :=
  if mb4 then my_wc_mb_utf8mb4 else my_uni_utf8mb3.

Notation points mb4 := (Collation.code_points (Collation.utf8_mb_wc mb4)).

Ltac case_ifs := repeat (case_match; simplify_eq; try done).

(** [charlen] agrees with [mb_wc]. *)
Lemma charlen_mb_wc mb4 s :
  utf8_charlen mb4 s = match Collation.utf8_mb_wc mb4 s with MB n _ => Z.of_nat n | MB_ERR c => c end.
Proof.
  unfold utf8_charlen, Collation.utf8_mb_wc, my_charlen_utf8mb4, my_charlen_utf8mb3,
    my_mb_wc_utf8mb4_quick, my_mb_wc_utf8mb3_quick, my_valid_mbcharlen_utf8mb3.
  destruct mb4, s as [|c s]; try done; destruct (Z.ltb_spec c 240), (Z.ltb_spec c 128),
    (Z.ltb_spec c 194), (Z.ltb_spec c 224), (Z.ltb_spec c 245); try lia; try done;
    destruct s as [|s1 [|s2 [|s3 s]]]; try done; case_ifs.
Qed.

Lemma mb_res_error mb4 s c : Collation.utf8_mb_wc mb4 s = MB_ERR c -> c <= 0.
Proof.
  unfold Collation.utf8_mb_wc, my_mb_wc_utf8mb4_quick, my_mb_wc_utf8mb3_quick, MY_CS_TOOSMALLN,
    MY_CS_TOOSMALL, MY_CS_ILSEQ.
  destruct mb4; intros H; repeat (case_match; simplify_eq; try lia).
Qed.

(** A character starts here, or [charlen] is not positive. *)
Lemma charlen_cases mb4 s : bytes_ok s ->
  (exists n wc, Collation.utf8_mb_wc mb4 s = MB n wc /\ utf8_charlen mb4 s = Z.of_nat n /\
     (0 < n <= length s)%nat) \/
  utf8_charlen mb4 s <= 0.
Proof.
  intros Hs. rewrite charlen_mb_wc. destruct (Collation.utf8_mb_wc mb4 s) as [n wc|c] eqn:E.
  - left. exists n, wc. destruct (Collation.utf8_mb_wc_inv _ _ _ _ Hs E) as (_ & Hn & _). split_and!; done || lia.
  - right. by apply (mb_res_error mb4 s).
Qed.

(** Decoding of concatenated strings. *)
Lemma code_points_app_char mb4 s n wc t ws :
  bytes_ok s -> bytes_ok t -> Collation.utf8_mb_wc mb4 s = MB n wc -> points mb4 t = Some ws ->
  points mb4 (take n s ++ t) = Some (wc :: ws).
Proof.
  intros Hs Ht E Hd. destruct (Collation.utf8_mb_wc_inv _ _ _ _ Hs E) as (_ & Hn & _).
  pose proof (Collation.utf8_mb_wc_local _ _ _ _ t Hs E) as E'. unfold Collation.code_points.
  assert (length (take n s) = n) as Hl by (rewrite length_take; lia).
  assert (bytes_ok (take n s)) as Hok by (auto with bytes).
  destruct (take n s) as [|c u]; [simpl in Hl; lia|]. rewrite <- app_comm_cons in *. cbn [length Collation.decode_loop].
  rewrite E'. change (c :: u ++ t) with ((c :: u) ++ t). rewrite drop_app_length' by done.
  rewrite (Collation.decode_loop_fuel _ _ (length t)) by (done || (rewrite length_app; simpl in Hl; lia)).
  unfold Collation.code_points in Hd. by rewrite Hd.
Qed.

Lemma code_points_app mb4 s t ws ws' :
  bytes_ok s -> bytes_ok t -> points mb4 s = Some ws -> points mb4 t = Some ws' ->
  points mb4 (s ++ t) = Some (ws ++ ws').
Proof.
  intros Hs Ht H Ht'. revert s ws Hs H. apply Collation.code_points_ind; [done|].
  intros s n wc ws Hs _ E _ IH. rewrite <- (take_drop n s), <- app_assoc, <- app_comm_cons.
  apply code_points_app_char; [done| |done|done]. apply bytes_ok_app. auto with bytes.
Qed.

(** ** Copying UTF-8 *)

(** What the scan for well-formed characters finds: the well-formed prefix of
    [n] bytes, and why it stopped there. *)
Lemma well_formed_loop_spec mb4 nchars b pos rest st :
  bytes_ok b -> well_formed_loop (utf8_charlen mb4) nchars b pos = (rest, st) ->
  exists n ws, m_source_end_pos st = (pos + n)%nat /\ (n <= length b)%nat /\
    points mb4 (take n b) = Some ws /\ nchars = (length ws + rest)%nat /\
    match m_well_formed_error_pos st with
    | None => rest = 0%nat \/ n = length b
    | Some _ => (n < length b)%nat /\ utf8_charlen mb4 (drop n b) <= 0
    end.
Proof.
  revert b pos. induction nchars as [|nchars IH]; intros b pos Hb; cbn [well_formed_loop].
  { intros [= <- <-]. exists 0%nat, []. simpl. split_and!; try done; try lia. }
  destruct (charlen_cases mb4 b Hb) as [(n & wc & E & -> & Hn)|Hc].
  - rewrite (proj2 (Z.leb_gt _ _)), Nat2Z.id by lia. intros H.
    apply IH in H as (m & ws & -> & Hm & Hd & -> & He); [|auto with bytes].
    rewrite length_drop in *. exists (n + m)%nat, (wc :: ws). split_and!; try (simpl; lia).
    + replace (take (n + m) b) with (take n b ++ take m (drop n b)).
      { apply code_points_app_char; auto with bytes. }
      rewrite <- (take_drop n b) at 3. rewrite take_app, take_take, Nat.min_r by lia.
      rewrite length_take, Nat.min_l by lia. do 2 f_equal. lia.
    + rewrite drop_drop in He. destruct (m_well_formed_error_pos st); [intuition lia|].
      destruct He as [->| ->]; [by left|right; lia].
  - rewrite (proj2 (Z.leb_le _ _) Hc). intros [= <- <-]. exists 0%nat, [].
    simpl. split_and!; try done; try lia. destruct b as [|c b]; [by right|]. simpl. split; [lia|done].
Qed.

(** A well-formed string that fits is read to its end. *)
Lemma well_formed_loop_all mb4 nchars b pos ws :
  bytes_ok b -> points mb4 b = Some ws -> (length ws <= nchars)%nat ->
  well_formed_loop (utf8_charlen mb4) nchars b pos =
    ((nchars - length ws)%nat,
     {| m_source_end_pos := (pos + length b)%nat; m_well_formed_error_pos := None |}).
Proof.
  intros Hb H. revert b ws Hb H nchars pos.
  apply (Collation.code_points_ind mb4 (fun b ws => forall nchars pos, (length ws <= nchars)%nat ->
    well_formed_loop (utf8_charlen mb4) nchars b pos =
      ((nchars - length ws)%nat,
       {| m_source_end_pos := (pos + length b)%nat; m_well_formed_error_pos := None |}))).
  - intros nchars pos _. simpl. rewrite Nat.sub_0_r, Nat.add_0_r. destruct nchars; [done|].
    cbn [well_formed_loop]. by rewrite charlen_mb_wc; destruct mb4.
  - intros s n wc ws Hs _ E _ IH nchars pos Hl. destruct nchars as [|nchars]; [simpl in Hl; lia|].
    cbn [well_formed_loop]. rewrite charlen_mb_wc, E.
    destruct (Collation.utf8_mb_wc_inv _ _ _ _ Hs E) as (_ & Hn & _).
    rewrite (proj2 (Z.leb_gt _ _)), Nat2Z.id, IH by (simpl in Hl; lia).
    f_equal. f_equal. rewrite length_drop. lia.
Qed.

(** The scan goes over a well-formed string. *)
Lemma well_formed_loop_app mb4 nchars s ws t pos :
  bytes_ok s -> points mb4 s = Some ws -> (length ws <= nchars)%nat ->
  well_formed_loop (utf8_charlen mb4) nchars (s ++ t) pos =
    well_formed_loop (utf8_charlen mb4) (nchars - length ws) t (pos + length s).
Proof.
  intros Hs H. revert s ws Hs H nchars pos.
  apply (Collation.code_points_ind mb4 (fun s ws => forall nchars pos, (length ws <= nchars)%nat ->
    well_formed_loop (utf8_charlen mb4) nchars (s ++ t) pos =
      well_formed_loop (utf8_charlen mb4) (nchars - length ws) t (pos + length s))).
  - intros nchars pos _. by rewrite Nat.sub_0_r, Nat.add_0_r.
  - intros s n wc ws Hs _ E _ IH nchars pos Hl. destruct nchars as [|nchars]; [simpl in Hl; lia|].
    destruct (Collation.utf8_mb_wc_inv _ _ _ _ Hs E) as (_ & Hn & _). cbn [well_formed_loop].
    assert (s ++ t = take n s ++ drop n s ++ t) as Hst by (by rewrite app_assoc, take_drop).
    rewrite Hst, charlen_mb_wc, (Collation.utf8_mb_wc_local _ _ _ _ _ Hs E).
    rewrite (proj2 (Z.leb_gt _ _)), Nat2Z.id, drop_app_length', IH by (rewrite ?length_take; simpl in Hl; lia).
    simpl. f_equal. rewrite length_drop. lia.
Qed.

Lemma well_formed_loop_spaces mb4 nchars k pos :
  well_formed_loop (utf8_charlen mb4) nchars (replicate k 32) pos =
    ((nchars - k)%nat, {| m_source_end_pos := (pos + Nat.min nchars k)%nat; m_well_formed_error_pos := None |}).
Proof.
  revert k pos. induction nchars as [|nchars IH]; intros k pos; [simpl; by rewrite Nat.add_0_r|].
  destruct k as [|k]; cbn [well_formed_loop].
  - rewrite charlen_mb_wc. simpl. rewrite Nat.add_0_r. by destruct mb4.
  - assert (utf8_charlen mb4 (replicate (S k) 32) = 1) as -> by (by destruct mb4).
    cbn [Z.leb Z.compare]. change (Z.to_nat 1) with 1%nat. cbn [replicate drop]. rewrite drop_0, IH.
    simpl. do 2 f_equal. lia.
Qed.

Lemma wc_mb_question mb4 room :
  utf8_wc_mb mb4 63 room = if (room =? 0)%nat then WC_ERR MY_CS_TOOSMALL else WC [63].
Proof. destruct mb4, room; done. Qed.

(** The tail is well-formed and fits, whatever is appended. *)
Lemma append_fix_spec mb4 nchars room from pos e out st :
  bytes_ok from ->
  my_append_fix_badly_formed_tail (utf8_charlen mb4) (utf8_wc_mb mb4) nchars room from pos e = (out, st) ->
  bytes_ok out /\ (length out <= room)%nat /\
  exists ws, points mb4 out = Some ws /\ (length ws <= nchars)%nat.
Proof.
  revert room from pos e out st.
  induction nchars as [|nchars IH]; intros room from pos e out st Hb; cbn [my_append_fix_badly_formed_tail].
  { intros [= <- <-]. split_and!; [auto with bytes|simpl; lia|]. by exists []. }
  destruct (charlen_cases mb4 from Hb) as [(n & wc & E & -> & Hn)|Hc].
  - rewrite (proj2 (Z.ltb_lt _ _)), Nat2Z.id by lia. destruct (Nat.ltb_spec room n).
    { intros [= <- <-]. split_and!; [auto with bytes|simpl; lia|]. exists []. split; [done|simpl; lia]. }
    destruct (my_append_fix_badly_formed_tail _ _ nchars _ _ _ _) as [out' st'] eqn:Er. intros [= <- <-].
    apply IH in Er as (Hok & Hl & ws & Hd & Hw); [|auto with bytes]. split_and!.
    + apply bytes_ok_app. auto with bytes.
    + rewrite length_app, length_take. lia.
    + exists (wc :: ws). split; [by apply code_points_app_char|simpl; lia].
  - rewrite (proj2 (Z.ltb_ge _ _)) by lia.
    destruct (negb (utf8_charlen mb4 from =? MY_CS_ILSEQ) && _).
    { intros [= <- <-]. split_and!; [auto with bytes|simpl; lia|]. exists []. split; [done|simpl; lia]. }
    rewrite wc_mb_question. destruct (Nat.eqb_spec room 0).
    { intros [= <- <-]. split_and!; [auto with bytes|simpl; lia|]. exists []. split; [done|simpl; lia]. }
    destruct (my_append_fix_badly_formed_tail _ _ nchars _ _ _ _) as [out' st'] eqn:Er. intros [= <- <-].
    apply IH in Er as (Hok & Hl & ws & Hd & Hw); [|auto with bytes]. simpl in Hl. split_and!.
    + apply bytes_ok_cons. split; [unfold byte_ok; lia|done].
    + simpl. lia.
    + exists (63 :: ws). split; [|simpl; lia].
      apply (code_points_app_char mb4 [63] 1 63); try done; [by apply (bool_decide_unpack _)|by destruct mb4].
Qed.

(** Whatever is copied, the result is well-formed and fits. *)
Lemma copy_fix_mb_safe mb4 dst_length src nchars :
  bytes_ok src ->
  let out := (my_copy_fix_mb (utf8_charlen mb4) (utf8_wc_mb mb4) dst_length src nchars).1 in
  bytes_ok out /\ (length out <= dst_length)%nat /\
  exists ws, points mb4 out = Some ws /\ (length ws <= nchars)%nat.
Proof.
  intros Hb. unfold my_copy_fix_mb, my_well_formed_char_length.
  set (src' := take (Nat.min (length src) dst_length) src).
  assert (bytes_ok src') as Hb' by (subst src'; auto with bytes).
  destruct (well_formed_loop _ nchars src' 0) as [rest st] eqn:E.
  apply well_formed_loop_spec in E as (n & ws & Hn & Hl & Hd & Hw & He); [|done]. rewrite Hn. simpl.
  unfold src' in *. rewrite length_take in *. rewrite take_take, Nat.min_l in Hd by lia.
  destruct (m_well_formed_error_pos st) as [e|].
  - destruct (my_append_fix_badly_formed_tail _ _ _ _ _ _ _) as [out st'] eqn:Ea.
    apply append_fix_spec in Ea as (Hok & Hlo & wo & Hdo & Hwo); [|auto with bytes].
    simpl. split_and!; [apply bytes_ok_app; auto with bytes|rewrite length_app, length_take; lia|].
    exists (ws ++ wo). rewrite length_app. split; [apply code_points_app; auto with bytes|lia].
  - simpl. split_and!; [auto with bytes|rewrite length_take; lia|]. exists ws. split; [done|lia].
Qed.

(** A well-formed string that fits is copied. *)
Lemma copy_fix_mb_id mb4 dst_length src nchars ws :
  bytes_ok src -> points mb4 src = Some ws -> (length src <= dst_length)%nat -> (length ws <= nchars)%nat ->
  my_copy_fix_mb (utf8_charlen mb4) (utf8_wc_mb mb4) dst_length src nchars =
    (src, {| m_source_end_pos := length src; m_well_formed_error_pos := None |}).
Proof.
  intros Hb Hd Hl Hw. unfold my_copy_fix_mb, my_well_formed_char_length.
  rewrite Nat.min_l, take_ge by lia. rewrite (well_formed_loop_all mb4 nchars src 0 ws) by done.
  simpl. by rewrite take_ge.
Qed.

(** Of the spaces behind a string, as many are copied as there is room for
    characters. *)
Lemma copy_fix_mb_pad mb4 dst_length src k nchars ws :
  bytes_ok src -> points mb4 src = Some ws -> (length src + k <= dst_length)%nat -> (length ws <= nchars)%nat ->
  exists j, (j <= k)%nat /\
    (my_copy_fix_mb (utf8_charlen mb4) (utf8_wc_mb mb4) dst_length (src ++ replicate k 32) nchars).1 =
      src ++ replicate j 32.
Proof.
  intros Hb Hd Hl Hw. unfold my_copy_fix_mb, my_well_formed_char_length.
  rewrite Nat.min_l, take_ge by (rewrite length_app, length_replicate; lia).
  rewrite (well_formed_loop_app mb4 nchars src ws) by done. rewrite well_formed_loop_spaces. simpl.
  exists (Nat.min (nchars - length ws) k). split; [lia|].
  rewrite take_app_ge, take_replicate by lia. do 2 f_equal. lia.
Qed.

(** ** Positions of characters *)

Lemma char_step_mb_wc mb4 s n wc :
  bytes_ok s -> Collation.utf8_mb_wc mb4 s = MB n wc -> char_step (utf8_charlen mb4) s = n.
Proof.
  intros Hs E. destruct (Collation.utf8_mb_wc_inv _ _ _ _ Hs E) as (_ & Hn & _).
  unfold char_step, my_ismbchar. rewrite charlen_mb_wc, E.
  destruct (Z.ltb_spec 1 (Z.of_nat n)); [rewrite Nat2Z.id; destruct n; [lia|done]|simpl; lia].
Qed.

Lemma charpos_loop_all mb4 s ws len pos :
  bytes_ok s -> points mb4 s = Some ws -> (length ws <= len)%nat ->
  charpos_loop (utf8_charlen mb4) len s pos = ((len - length ws)%nat, (pos + length s)%nat).
Proof.
  intros Hs H. revert s ws Hs H len pos.
  apply (Collation.code_points_ind mb4 (fun s ws => forall len pos, (length ws <= len)%nat ->
    charpos_loop (utf8_charlen mb4) len s pos = ((len - length ws)%nat, (pos + length s)%nat))).
  - intros len pos _. simpl. rewrite Nat.sub_0_r, Nat.add_0_r. by destruct len.
  - intros s n wc ws Hs Hne E _ IH len pos Hl.
    destruct (Collation.utf8_mb_wc_inv _ _ _ _ Hs E) as (_ & Hn & _).
    destruct s as [|c s]; [done|]. destruct len as [|len]; [simpl in Hl; lia|].
    cbn [charpos_loop]. rewrite (char_step_mb_wc mb4 _ n wc Hs E), IH by (simpl in Hl; lia).
    f_equal. rewrite length_drop. lia.
Qed.

Lemma charpos_mb_all mb4 s ws len :
  bytes_ok s -> points mb4 s = Some ws -> (length ws <= len)%nat ->
  (length s <= my_charpos_mb (utf8_charlen mb4) s len)%nat.
Proof.
  intros Hs H Hl. unfold my_charpos_mb. rewrite (charpos_loop_all mb4 s ws) by done.
  case_match; simpl; lia.
Qed.

(** ** What a character set promises to the columns *)

Class Storable (cs : Collation.CHARSET_INFO) (weights : bytes -> option (list Z)) := {
  (** What is copied is well-formed and fits. *)
  st_copy_safe dst_length src nchars :
    bytes_ok src ->
    let out := (Collation.copy_fix cs dst_length src nchars).1 in
    bytes_ok out /\ (length out <= dst_length)%nat /\
    exists ws, weights out = Some ws /\ (length ws <= nchars)%nat;
  (** What is well-formed and fits is copied. *)
  st_copy_id dst_length src nchars ws :
    bytes_ok src -> weights src = Some ws -> (length src <= dst_length)%nat -> (length ws <= nchars)%nat ->
    (Collation.copy_fix cs dst_length src nchars).1 = src;
  (** A string that is padded beyond its last character keeps some padding. *)
  st_copy_pad dst_length src k nchars ws :
    bytes_ok src -> weights src = Some ws -> (length src + k <= dst_length)%nat -> (length ws <= nchars)%nat ->
    exists j, (j <= k)%nat /\
      (Collation.copy_fix cs dst_length (src ++ replicate k (Collation.pad_char cs)) nchars).1 =
        src ++ replicate j (Collation.pad_char cs);
  (** The position behind the last character is the end of the string. *)
  st_charpos src ws len :
    bytes_ok src -> weights src = Some ws -> (length ws <= len)%nat ->
    (length src <= Collation.charpos cs src len)%nat
}.

(** A character set of single bytes, whatever the weight of a byte is. *)
Lemma storable_8bit cs (f : Z -> Z) :
  Collation.copy_fix cs = my_copy_8bit -> Collation.charpos cs = my_charpos_8bit ->
  Storable cs (fun s => Some (map f s)).
Proof.
  intros Hc Hp. split.
  - intros dst_length src nchars Hs. rewrite Hc. simpl. split_and!; [auto with bytes|rewrite length_take; lia|].
    eexists. split; [done|]. rewrite length_map, length_take. lia.
  - intros dst_length src nchars ws Hs [= <-] Hl Hn. rewrite length_map in Hn. rewrite Hc. simpl.
    rewrite take_ge; [done|lia].
  - intros dst_length src k nchars ws Hs [= <-] Hl Hn. rewrite length_map in Hn. rewrite Hc. simpl.
    rewrite length_app, length_replicate. exists (Nat.min k (nchars - length src)). split; [lia|].
    rewrite take_app_ge, take_replicate by lia. do 2 f_equal. lia.
  - intros src ws len Hs [= <-] Hl. rewrite length_map in Hl. by rewrite Hp.
Qed.

#[export] Instance storable_latin1 :
  Storable Collation.my_charset_latin1 (fun s => Some (map (Latin1.table_at Latin1.sort_order_latin1) s)).
Proof. by apply storable_8bit. Qed.

Lemma storable_8bit_id cs :
  Collation.copy_fix cs = my_copy_8bit -> Collation.charpos cs = my_charpos_8bit -> Storable cs Some.
Proof.
  intros Hc Hp. destruct (storable_8bit cs id Hc Hp) as [Hs Hi Hpd Hch]. split.
  - intros d src n Hb. destruct (Hs d src n Hb) as (? & ? & ws & [= <-] & Hl). split_and!; try done.
    eexists. split; [done|]. by rewrite length_map in Hl.
  - intros d src n ws Hb [= <-]. intros. apply (Hi d src n (map id src)); rewrite ?length_map; done.
  - intros d src k n ws Hb [= <-]. intros. apply (Hpd d src k n (map id src)); rewrite ?length_map; done.
  - intros src ws len Hb [= <-] Hl. apply (Hch src (map id src)); rewrite ?length_map; done.
Qed.

#[export] Instance storable_latin1_bin : Storable Collation.my_charset_latin1_bin Some.
Proof. by apply storable_8bit_id. Qed.

#[export] Instance storable_bin : Storable Collation.my_charset_bin Some.
Proof. by apply storable_8bit_id. Qed.

Lemma storable_utf8 mb4 cs :
  Collation.copy_fix cs = my_copy_fix_mb (utf8_charlen mb4) (utf8_wc_mb mb4) ->
  Collation.charpos cs = my_charpos_mb (utf8_charlen mb4) -> Collation.pad_char cs = 32 -> Storable cs (points mb4).
Proof.
  intros Hc Hp Hpad. split.
  - intros d src n Hb. rewrite Hc. by apply copy_fix_mb_safe.
  - intros d src n ws Hb Hd Hl Hn. by rewrite Hc, (copy_fix_mb_id mb4 d src n ws).
  - intros d src k n ws Hb Hd Hl Hn. rewrite Hc, Hpad. by apply (copy_fix_mb_pad mb4 d src k n ws).
  - intros src ws len Hb Hd Hl. rewrite Hp. by apply (charpos_mb_all mb4 src ws).
Qed.

#[export] Instance storable_utf8mb3_bin : Storable Collation.my_charset_utf8mb3_bin (points false).
Proof. by apply storable_utf8. Qed.

#[export] Instance storable_utf8mb4_bin : Storable Collation.my_charset_utf8mb4_bin (points true).
Proof. by apply storable_utf8. Qed.

(** The character sets of text columns, with the weights that a string has. *)
Inductive text_weights : Collation.CHARSET_INFO -> (bytes -> option (list Z)) -> Prop :=
  | text_latin1_bin : text_weights Collation.my_charset_latin1_bin (fun s => Some s)
  | text_latin1 : text_weights Collation.my_charset_latin1
      (fun s => Some (map (Latin1.table_at Latin1.sort_order_latin1) s))
  | text_utf8mb3_bin : text_weights Collation.my_charset_utf8mb3_bin (Collation.code_points (Collation.utf8_mb_wc false))
  | text_utf8mb4_bin : text_weights Collation.my_charset_utf8mb4_bin (Collation.code_points (Collation.utf8_mb_wc true)).

(** The character sets of VARCHAR and VARBINARY columns. *)
Inductive string_weights (cs : Collation.CHARSET_INFO) (weights : bytes -> option (list Z)) : Prop :=
  | string_text : text_weights cs weights -> string_weights cs weights
  | string_binary : cs = Collation.my_charset_bin -> weights = Some -> string_weights cs weights.

Lemma string_storable cs weights : string_weights cs weights -> Storable cs weights.
Proof.
  intros [[] | -> ->]; [exact storable_latin1_bin|exact storable_latin1|exact storable_utf8mb3_bin|
    exact storable_utf8mb4_bin|exact storable_bin].
Qed.

(** ** Storing into columns *)

(** [Field_varstring::store_length]. *)
Definition varstring_store_length (f : Field) (number : nat) : bytes :=
  if (length_bytes f =? 1)%nat then [uchar_of (Z.of_nat number)] else le_bytes 2 (Z.of_nat number).

(** The string comes in the character set of the column. *)
Definition varstring_store (f : Field) (from rec : bytes) : bytes :=
  let copied := (Collation.copy_fix (charset f) (field_length f) from (char_length f)).1 in
  let rec := write_at (ptr f + length_bytes f) copied rec in
  write_at (ptr f) (varstring_store_length f (length copied)) rec.

Definition string_store (f : Field) (from rec : bytes) : bytes :=
  let copied := (Collation.copy_fix (charset f) (field_length f) from (char_length f)).1 in
  let rec := write_at (ptr f) copied rec in
  if (length copied <? field_length f)%nat then
    write_at (ptr f + length copied)
      (my_fill_8bit (field_length f - length copied) (Collation.pad_char (charset f))) rec
  else rec.

(** The value of a VARCHAR column is its length and its bytes. *)
Definition varstring_image (f : Field) (value : bytes) : bytes :=
  varstring_store_length f (length value) ++ value.

Lemma length_varstring_store_length f n : length_bytes f = 1%nat \/ length_bytes f = 2%nat ->
  length (varstring_store_length f n) = length_bytes f.
Proof. unfold varstring_store_length. intros [-> | ->]; done. Qed.

Lemma varstring_store_length_ok f n : bytes_ok (varstring_store_length f n).
Proof.
  unfold varstring_store_length. case_match; [|apply le_bytes_ok].
  apply bytes_ok_cons. split; [apply uchar_of_ok|apply bytes_ok_nil].
Qed.

Section Columns.

Context (size : nat) (f : Field) (weights : bytes -> option (list Z)).
Context `{Hst : !Storable (charset f) weights} (Hp : placed size f) (Hs : self_apart f).

Lemma varstring_store_eq from rec :
  length_bytes f = 1%nat \/ length_bytes f = 2%nat ->
  pack_length f = (length_bytes f + field_length f)%nat -> bytes_ok from -> length rec = size ->
  let value := (Collation.copy_fix (charset f) (field_length f) from (char_length f)).1 in
  (length value <= field_length f)%nat /\
  varstring_store f from rec = write_at (ptr f) (varstring_image f value) rec.
Proof.
  intros Hlb Hpl Hb Hl value. destruct (st_copy_safe (field_length f) from (char_length f) Hb) as (_ & Hv & _).
  fold value in Hv. split; [done|]. unfold varstring_store, varstring_image. fold value.
  pose proof (pl_fits _ _ Hp). rewrite <- (length_varstring_store_length f (length value)) by done.
  apply write_at_prefix. rewrite length_varstring_store_length by done. lia.
Qed.

(** Whatever is stored, the column then holds a well-formed string that is not
    longer than the column, and no other column changes. *)
Lemma varstring_store_safe from rec :
  length_bytes f = 1%nat \/ length_bytes f = 2%nat ->
  pack_length f = (length_bytes f + field_length f)%nat -> bytes_ok from -> length rec = size ->
  exists value ws,
    bytes_ok value /\ (length value <= field_length f)%nat /\
    weights value = Some ws /\ (length ws <= char_length f)%nat /\
    (forall ws', weights from = Some ws' -> (length from <= field_length f)%nat ->
       (length ws' <= char_length f)%nat -> value = from) /\
    holds_image f (is_real_null f rec) (varstring_image f value) (varstring_store f from rec) /\
    frame size f rec (varstring_store f from rec).
Proof.
  intros Hlb Hpl Hb Hl. destruct (varstring_store_eq from rec Hlb Hpl Hb Hl) as [Hv ->].
  set (value := (Collation.copy_fix _ _ _ _).1) in *.
  destruct (st_copy_safe (field_length f) from (char_length f) Hb) as (Hok & _ & ws & Hw & Hwl).
  fold value in Hok, Hw. exists value, ws.
  assert (length (varstring_image f value) <= pack_length f)%nat as Hi.
  { unfold varstring_image. rewrite length_app, length_varstring_store_length by done. lia. }
  split_and!; try done.
  - intros ws' Hw' Hl' Hn'. by apply (st_copy_id _ _ _ ws').
  - by apply (write_holds size).
  - apply frame_write; try done. unfold varstring_image. apply bytes_ok_app. split; [|done].
    apply varstring_store_length_ok.
Qed.

End Columns.

End Store.
