(* ===== verification/Codec.v ===== *)
(** * Codec: restoring strings of simple collations

    A simple collation maps every byte to one weight byte, several bytes to
    the same weight.  The codec of such a collation
    ([mono_init_collation_mapping] of eloq_key_def.cc) numbers the bytes that
    share a weight; the number, in as few bits as possible, goes to the
    unpack info ([mono_write_unpack_simple], [mono_read_unpack_simple]).
    The integer helpers are those of include/my_bit.h. *)

From S2P Require Import Prelude Buff Charset Latin1 Collation.

Module Codec.

(** ** my_bit.h *)

Definition nonzero (z : Z) : bool := negb (z =? 0).

Definition my_bit_log2_hex_digit (value : Z) : Z :=
  if nonzero (Z.land value 12)
  then if nonzero (Z.land value 8) then 3 else 2
  else if nonzero (Z.land value 2) then 1 else 0.

Definition my_bit_log2_uint8 (value : Z) : Z :=
  if nonzero (Z.land value 240) then my_bit_log2_hex_digit (uchar_of (Z.shiftr value 4)) + 4
  else my_bit_log2_hex_digit value.

Definition my_bit_log2_uint16 (value : Z) : Z :=
  if nonzero (Z.land value 65280) then my_bit_log2_uint8 (uchar_of (Z.shiftr value 8)) + 8
  else my_bit_log2_uint8 (uchar_of value).

Definition my_bit_log2_uint32 (value : Z) : Z :=
  if nonzero (Z.land value 4294901760) then my_bit_log2_uint16 (ushort_of (Z.shiftr value 16)) + 16
  else my_bit_log2_uint16 (ushort_of value).

Definition my_round_up_to_next_power (v : Z) : Z :=
  let v := uint_of (v - 1) in
  let v := Z.lor v (Z.shiftr v 1) in
  let v := Z.lor v (Z.shiftr v 2) in
  let v := Z.lor v (Z.shiftr v 4) in
  let v := Z.lor v (Z.shiftr v 8) in
  let v := Z.lor v (Z.shiftr v 16) in
  uint_of (v + 1).

(** ** The codec *)

(** Arrays of 256 bytes are functions of the index; [m_dec_idx] has one array
    per number. *)
Record mono_collation_codec := {
  m_enc_idx : Z -> Z;
  m_enc_size : Z -> Z;
  m_dec_size : Z -> Z;
  m_dec_idx : Z -> Z -> Z
}.

Definition mono_is_collation_supported (cs : Collation.CHARSET_INFO) : bool :=
  (Collation.strxfrm_multiply cs =? 1)%nat && (Collation.mbmaxlen cs =? 1)%nat &&
  negb (Collation.state_binsort cs || Collation.state_nopad cs).

(** [rev_map[dst]] after the loop over the 256 bytes: those of weight [dst],
    in increasing order. *)
Definition rev_map (sort_order : Z -> Z) (dst : Z) : list Z :=
  List.filter (fun src => sort_order src =? dst) (seqZ 0 256).

Fixpoint index_of (x : Z) (l : list Z) : Z :=
  match l with
  | [] => 0
  | y :: l => if x =? y then 0 else 1 + index_of x l
  end.

Definition code_bits (count : nat) : Z :=
  my_bit_log2_uint32 (my_round_up_to_next_power (Z.of_nat count)).

Definition collation_codec (sort_order : Z -> Z) : mono_collation_codec := {|
  m_enc_idx src := index_of src (rev_map sort_order (sort_order src));
  m_enc_size src := code_bits (length (rev_map sort_order (sort_order src)));
  m_dec_size dst := code_bits (length (rev_map sort_order dst));
  m_dec_idx idx dst := nth (Z.to_nat idx) (rev_map sort_order dst) 0
|}.

(** [None] is the null pointer. *)
Definition mono_init_collation_mapping (cs : Collation.CHARSET_INFO) : option mono_collation_codec :=
  if mono_is_collation_supported cs then
    match Collation.sort_order cs with
    | Some map_ => Some (collation_codec map_)
    | None => None
    end
  else None.

(** ** Unpack info *)

Fixpoint mono_write_unpack_simple (codec : mono_collation_codec) (src : bytes)
    (writer : Bits.mono_bit_writer) : option Bits.mono_bit_writer :=
  match src with
  | [] => Some writer
  | c :: src =>
      match Bits.bit_write (m_enc_size codec c) (m_enc_idx codec c) writer with
      | Some writer => mono_write_unpack_simple codec src writer
      | None => None
      end
  end.

(** Reads one number per weight that needs one; [reader = None] is the null
    pointer, which only weights of a single byte allow. *)
Fixpoint mono_read_unpack_simple (codec : mono_collation_codec) (src : bytes)
    (reader : option Bits.mono_bit_reader) : option (bytes * option Bits.mono_bit_reader) :=
  match src with
  | [] => Some ([], reader)
  | w :: src =>
      if 0 <? m_dec_size codec w then
        match reader with
        | None => None
        | Some r =>
            match Bits.bit_read (m_dec_size codec w) r with
            | None => None
            | Some (ret, r) =>
                match mono_read_unpack_simple codec src (Some r) with
                | None => None
                | Some (dst, r) => Some (m_dec_idx codec ret w :: dst, r)
                end
            end
        end
      else
        match mono_read_unpack_simple codec src reader with
        | None => None
        | Some (dst, r) => Some (m_dec_idx codec 0 w :: dst, r)
        end
  end.

(** ** Numbering *)

Lemma index_of_spec x l : x ∈ l ->
  0 <= index_of x l < Z.of_nat (length l) /\ nth (Z.to_nat (index_of x l)) l 0 = x.
Proof.
  induction l as [|y l IH]; intros H; [by apply not_elem_of_nil in H|].
  cbn [index_of length]. destruct (Z.eqb_spec x y) as [->|Hn]; [split; [lia|done]|].
  apply elem_of_cons in H as [|H]; [done|]. destruct (IH H) as [IH1 IH2].
  split; [lia|]. by replace (Z.to_nat (1 + index_of x l)) with (S (Z.to_nat (index_of x l))) by lia.
Qed.

Lemma rev_map_elem sort_order c : byte_ok c -> c ∈ rev_map sort_order (sort_order c).
Proof.
  intros Hc. unfold rev_map. apply list_elem_of_In, filter_In. split; [|by apply Z.eqb_eq].
  apply list_elem_of_In, elem_of_seqZ. unfold byte_ok in Hc. lia.
Qed.

Lemma rev_map_inv sort_order dst d :
  d ∈ rev_map sort_order dst -> byte_ok d /\ sort_order d = dst.
Proof.
  unfold rev_map. intros H. apply list_elem_of_In, filter_In in H as [Hr Hs].
  apply list_elem_of_In, elem_of_seqZ in Hr. apply Z.eqb_eq in Hs. unfold byte_ok. split; [lia|done].
Qed.

Lemma rev_map_NoDup sort_order dst : NoDup (rev_map sort_order dst).
Proof.
  unfold rev_map. apply NoDup_ListNoDup, List.NoDup_filter, NoDup_ListNoDup. apply NoDup_seqZ.
Qed.

Lemma rev_map_length sort_order dst : (length (rev_map sort_order dst) <= 256)%nat.
Proof.
  unfold rev_map. etrans; [apply filter_length_le|]. by rewrite length_seqZ.
Qed.

(** The number of bits is enough for the numbers that are used. *)
Lemma code_bits_spec count : (1 <= count <= 256)%nat ->
  0 <= code_bits count <= 8 /\ Z.of_nat count <= 2 ^ code_bits count.
Proof.
  intros Hc. unfold code_bits.
  assert (((0 <=? my_bit_log2_uint32 (my_round_up_to_next_power (Z.of_nat count))) &&
           (my_bit_log2_uint32 (my_round_up_to_next_power (Z.of_nat count)) <=? 8) &&
           ((Z.of_nat count =? 0) ||
            (Z.of_nat count <=? 2 ^ my_bit_log2_uint32 (my_round_up_to_next_power (Z.of_nat count))))
          || (Z.of_nat count =? 0))%bool = true) as H.
  { apply (Z_range_forall 257 (fun v => ((0 <=? my_bit_log2_uint32 (my_round_up_to_next_power v)) &&
           (my_bit_log2_uint32 (my_round_up_to_next_power v) <=? 8) &&
           ((v =? 0) || (v <=? 2 ^ my_bit_log2_uint32 (my_round_up_to_next_power v)))
          || (v =? 0))%bool)); [by vm_compute|lia]. }
  destruct (Z.eqb_spec (Z.of_nat count) 0); [lia|]. rewrite orb_false_r in H. simpl in H.
  apply andb_true_iff in H as [[H1 H2]%andb_true_iff H3]. lia.
Qed.

(** What decoding relies on, for every byte. *)
Definition codec_for (codec : mono_collation_codec) (sort_order : Z -> Z) : Prop :=
  forall c, byte_ok c ->
  m_dec_size codec (sort_order c) = m_enc_size codec c /\
  0 <= m_enc_size codec c <= 8 /\ 0 <= m_enc_idx codec c < 2 ^ m_enc_size codec c /\
  m_dec_idx codec (m_enc_idx codec c) (sort_order c) = c.

Lemma codec_spec sort_order : codec_for (collation_codec sort_order) sort_order.
Proof.
  intros c Hc. cbn [m_enc_idx m_enc_size m_dec_size m_dec_idx collation_codec].
  pose proof (rev_map_elem sort_order c Hc) as Hel.
  destruct (index_of_spec _ _ Hel) as [Hi Hn]. pose proof (rev_map_length sort_order (sort_order c)).
  destruct (code_bits_spec (length (rev_map sort_order (sort_order c)))) as [Hb Hp]; [lia|].
  split_and!; try done; lia.
Qed.

Lemma code_bits_1 : code_bits 1 = 0.
Proof. by vm_compute. Qed.

(** A byte whose weight no other byte has needs no bits. *)
Lemma codec_unique sort_order c : byte_ok c ->
  (forall d, byte_ok d -> sort_order d = sort_order c -> d = c) ->
  m_enc_size (collation_codec sort_order) c = 0.
Proof.
  intros Hc Hu. cbn [m_enc_size collation_codec].
  pose proof (rev_map_NoDup sort_order (sort_order c)) as Hd.
  assert (forall d, d ∈ rev_map sort_order (sort_order c) -> d = c) as Hall.
  { intros d Hd'. apply rev_map_inv in Hd' as [Hr Hs]. by apply Hu. }
  pose proof (rev_map_elem sort_order c Hc) as Hel. revert Hd Hall Hel.
  generalize (rev_map sort_order (sort_order c)). intros l Hd Hall Hel.
  destruct l as [|x [|y l]]; [by apply not_elem_of_nil in Hel|exact code_bits_1|].
  inversion_clear Hd as [|? ? Hx _]. exfalso. apply Hx.
  rewrite (Hall x), (Hall y) by (rewrite ?elem_of_cons; auto). apply elem_of_cons. by left.
Qed.

(** ** Round trip *)

Lemma write_unpack_simple_seq codec src w :
  mono_write_unpack_simple codec src w =
    Bits.write_seq (map (fun c => (m_enc_size codec c, m_enc_idx codec c)) src) w.
Proof.
  revert w. induction src as [|c src IH]; intros w; simpl; [done|].
  destruct (Bits.bit_write _ _ w); [apply IH|done].
Qed.

(** If the numbers of [src] are read back, [src] is restored. *)
Lemma read_unpack_simple_seq codec sort_order src r r' :
  codec_for codec sort_order -> bytes_ok src ->
  Bits.read_seq (map (m_enc_size codec) src) r = Some (map (m_enc_idx codec) src, r') ->
  mono_read_unpack_simple codec (map sort_order src) (Some r) = Some (src, Some r').
Proof.
  intros Hcodec. revert r. induction src as [|c src IH]; intros r Hs H; [cbn in *; congruence|].
  apply bytes_ok_cons in Hs as [Hc Hs]. cbn [map] in *. cbn [Bits.read_seq] in H.
  cbn [mono_read_unpack_simple].
  destruct (Hcodec c Hc) as (E1 & E2 & E3 & E4). rewrite E1.
  destruct (Bits.bit_read (m_enc_size codec c) r) as [[v r1]|] eqn:Er; [|done].
  destruct (Bits.read_seq _ r1) as [[vs r2]|] eqn:Es; [|done].
  injection H as -> -> ->. specialize (IH r1 Hs Es).
  destruct (Z.ltb_spec 0 (m_enc_size codec c)) as [Hp|Hp].
  - rewrite IH. by rewrite E4.
  - replace (m_enc_size codec c) with 0 in * by lia.
    cbn in Er. injection Er as Ev ->. rewrite IH. by rewrite Ev, E4.
Qed.

Lemma read_unpack_simple_app codec a b r :
  mono_read_unpack_simple codec (a ++ b) r =
    match mono_read_unpack_simple codec a r with
    | None => None
    | Some (da, r) =>
        match mono_read_unpack_simple codec b r with
        | None => None
        | Some (db, r) => Some (da ++ db, r)
        end
    end.
Proof.
  revert r. induction a as [|w a IH]; intros r; simpl.
  { by destruct (mono_read_unpack_simple codec b r) as [[]|]. }
  destruct (0 <? m_dec_size codec w).
  - destruct r as [r|]; [|done]. destruct (Bits.bit_read _ r) as [[v r1]|]; [|done]. rewrite IH.
    destruct (mono_read_unpack_simple codec a _) as [[da ra]|]; [|done].
    by destruct (mono_read_unpack_simple codec b ra) as [[]|].
  - rewrite IH. destruct (mono_read_unpack_simple codec a _) as [[da ra]|]; [|done].
    by destruct (mono_read_unpack_simple codec b ra) as [[]|].
Qed.

(** A bit reader stays. *)
Lemma read_unpack_simple_some codec a r out :
  mono_read_unpack_simple codec a (Some r) <> Some (out, None).
Proof.
  revert r out. induction a as [|w a IH]; intros r out; simpl; [done|].
  destruct (0 <? m_dec_size codec w).
  - destruct (Bits.bit_read _ r) as [[v r1]|]; [|done].
    destruct (mono_read_unpack_simple codec a (Some r1)) as [[d [r2|]]|] eqn:E; try done.
    by apply IH in E.
  - destruct (mono_read_unpack_simple codec a (Some r)) as [[d [r2|]]|] eqn:E; try done.
    by apply IH in E.
Qed.

(** Bytes without bits do not change the writer. *)
Lemma write_unpack_simple_zero codec src z n w :
  m_enc_size codec z = 0 ->
  mono_write_unpack_simple codec (src ++ replicate n z) w = mono_write_unpack_simple codec src w.
Proof.
  intros Hz. revert w. induction src as [|c src IH]; intros w; simpl.
  - revert w. induction n as [|n IH]; intros w; simpl; [done|]. rewrite Hz. apply IH.
  - by destruct (Bits.bit_write _ _ w).
Qed.

Lemma codec_fits codec sort_order src : codec_for codec sort_order -> bytes_ok src ->
  Forall Bits.fits (map (fun c => (m_enc_size codec c, m_enc_idx codec c)) src).
Proof.
  intros Hcodec Hs. induction Hs as [|c src Hc Hs IH]; simpl; [done|].
  apply Forall_cons_iff. split; [|done].
  destruct (Hcodec c Hc) as (E1 & E2 & E3 & E4). split; simpl; lia.
Qed.

(** Writing and reading back, for any codec that numbers the bytes. *)
Lemma codec_roundtrip codec sort_order src w0 rest :
  codec_for codec sort_order -> bytes_ok src -> bytes_ok w0 -> bytes_ok rest ->
  exists w added,
    mono_write_unpack_simple codec src (Bits.new_bit_writer w0) = Some w /\
    Bits.bw_data w = w0 ++ added /\
    exists r, mono_read_unpack_simple codec (map sort_order src)
        (Some (Bits.new_bit_reader (added ++ rest))) = Some (src, Some r) /\
      Bits.br_reader r = rest.
Proof.
  intros Hcodec Hs H0 Hrest.
  destruct (Bits.bits_roundtrip w0 _ rest H0 Hrest (codec_fits codec sort_order src Hcodec Hs))
    as (w & Hw & added & Hd & _ & r & Hr & Hrd).
  exists w, added. rewrite write_unpack_simple_seq. split_and!; [done|done|].
  exists r. split; [|done]. apply read_unpack_simple_seq; [done|done|].
  rewrite <- (map_map (fun c => (m_enc_size codec c, m_enc_idx codec c)) fst).
  rewrite <- (map_map (fun c => (m_enc_size codec c, m_enc_idx codec c)) snd).
  exact Hr.
Qed.

(** Writing always succeeds. *)
Lemma codec_written codec sort_order src w0 :
  codec_for codec sort_order -> bytes_ok src -> bytes_ok w0 ->
  exists w, mono_write_unpack_simple codec src (Bits.new_bit_writer w0) = Some w /\ bytes_ok (Bits.bw_data w).
Proof.
  intros Hc Hs H0.
  destruct (Bits.bits_roundtrip w0 _ [] H0 bytes_ok_nil (codec_fits codec sort_order src Hc Hs))
    as (w & Hw & added & Hd & Hok & _).
  exists w. rewrite write_unpack_simple_seq. split; [done|]. rewrite Hd. by apply bytes_ok_app.
Qed.

(** Strings of a simple collation are restored from their weights and the
    unpack info.  For every table of weights the numbers written for a string,
    after existing unpack info, let the reader map its weights back to the
    string, and consume exactly the bytes that were added. *)
Theorem simple_roundtrip sort_order src w0 rest :
  bytes_ok src -> bytes_ok w0 -> bytes_ok rest ->
  exists w added,
    mono_write_unpack_simple (collation_codec sort_order) src (Bits.new_bit_writer w0) = Some w /\
    Bits.bw_data w = w0 ++ added /\
    exists r, mono_read_unpack_simple (collation_codec sort_order) (map sort_order src)
        (Some (Bits.new_bit_reader (added ++ rest))) = Some (src, Some r) /\
      Bits.br_reader r = rest.
Proof. apply codec_roundtrip, codec_spec. Qed.

Lemma simple_roundtrip_witness :
  exists w added,
    mono_write_unpack_simple (collation_codec (Latin1.table_at Latin1.sort_order_latin1))
      [97; 65; 196; 32] (Bits.new_bit_writer [9]) = Some w /\
    Bits.bw_data w = [9] ++ added /\
    exists r, mono_read_unpack_simple (collation_codec (Latin1.table_at Latin1.sort_order_latin1))
        (map (Latin1.table_at Latin1.sort_order_latin1) [97; 65; 196; 32])
        (Some (Bits.new_bit_reader (added ++ [1; 2]))) = Some ([97; 65; 196; 32], Some r) /\
      Bits.br_reader r = [1; 2].
Proof.
  apply (simple_roundtrip (Latin1.table_at Latin1.sort_order_latin1) [97; 65; 196; 32] [9] [1; 2]);
    by apply (bool_decide_unpack _).
Defined.

End Codec.
