(* ===== verification/Packing.v ===== *)
(** * Packing: mem-comparable images of single columns

    [mono_field_packing] and the pack, unpack, skip and make-unpack-info
    functions of eloq_key_def.cc, one definition per function.  Pack functions
    return the bytes they append at [*dst]; the unpack-info writer and the two
    readers are byte lists (see Buff); the destination of an unpack function
    is the record buffer, at the column's [ptr].  An unpack function returns
    [None] for UNPACK_FAILURE (and where the source would dereference a null
    unpack reader); what it may have written to the record by then is not
    part of the result, the callers discard the record on failure. *)

From S2P Require Import Prelude Buff Charset Latin1 Collation Field Codec.
Import Field.

Module Packing.

(** ** Function pointers *)

(** mono_index_field_pack_t *)
Inductive pack_func :=
  | pack_with_make_sort_key
  | pack_blob
  | pack_with_varchar_encoding
  | pack_with_varchar_space_pad.

(** mono_make_unpack_info_t *)
Inductive make_unpack_info_func :=
  | dummy_make_unpack_info
  | make_unpack_unknown
  | make_unpack_unknown_varchar
  | make_unpack_simple
  | make_unpack_simple_varchar.

(** mono_index_field_unpack_t *)
Inductive unpack_func :=
  | unpack_integer
  | unpack_unsigned
  | unpack_double
  | unpack_float
  | unpack_newdate
  | unpack_bit
  | unpack_binary_str
  | unpack_utf8_str
  | unpack_utf8mb4_str
  | unpack_binary_or_utf8_varchar
  | unpack_binary_varchar_space_pad
  | unpack_utf8_varchar_space_pad
  | unpack_utf8mb4_varchar_space_pad
  | unpack_unknown
  | unpack_unknown_varchar
  | unpack_simple
  | unpack_simple_varchar_space_pad.

(** mono_index_field_skip_t *)
Inductive skip_func :=
  | skip_max_length
  | skip_variable_length
  | skip_variable_space_pad.

#[export] Instance skip_func_eq_dec : EqDecision skip_func.
Proof. solve_decision. Defined.

Record mono_field_packing := {
  m_max_image_len : nat;
  m_unpack_data_len : nat;
  m_maybe_null : bool;
  m_varchar_charset : Collation.CHARSET_INFO;
  m_segment_size : nat;
  m_unpack_info_uses_two_bytes : bool;
  space_xfrm : bytes;
  space_xfrm_len : nat;
  space_mb_len : nat;
  m_charset_codec : option Codec.mono_collation_codec;
  m_unpack_info_stores_value : bool;
  m_pack_func : option pack_func;
  m_make_unpack_info_func : option make_unpack_info_func;
  m_unpack_func : option unpack_func;
  m_skip_func : skip_func;
  m_keynr : nat;
  m_key_part : nat;
  m_field_idx : nat;
  m_Key_part_length : nat
}.

Definition uses_unpack_info (fpi : mono_field_packing) : bool :=
  match m_make_unpack_info_func fpi with Some _ => true | None => false end.

Definition MONO_ESCAPE_LENGTH : nat := 9.

Abbreviation MONO_ENCODED_SIZE len :=
  ((len + (MONO_ESCAPE_LENGTH - 2)) / (MONO_ESCAPE_LENGTH - 1) * MONO_ESCAPE_LENGTH)%nat.

Definition VARCHAR_CMP_LESS_THAN_SPACES : Z := 1.
Definition VARCHAR_CMP_EQUAL_TO_SPACES : Z := 2.
Definition VARCHAR_CMP_GREATER_THAN_SPACES : Z := 3.

Definition mono_TRIMMED_CHARS_OFFSET : Z := 8.

(** ** Packing *)

(** The loop of [pack_variable_format]; every iteration but the last one
    consumes eight bytes ([pack_variable_format_eq]). *)
Fixpoint pack_variable_format_loop (fuel : nat) (src : bytes) : bytes :=
  match fuel with
  | O => []
  | S fuel =>
      let copy_len := Nat.min (MONO_ESCAPE_LENGTH - 1) (length src) in
      let rest := drop copy_len src in
      if (length rest =? 0)%nat
      then take copy_len src ++ replicate (MONO_ESCAPE_LENGTH - 1 - copy_len) 0 ++ [Z.of_nat copy_len]
      else take copy_len src ++ [Z.of_nat MONO_ESCAPE_LENGTH] ++ pack_variable_format_loop fuel rest
  end.

Definition pack_variable_format (src : bytes) : bytes :=
  pack_variable_format_loop (S (length src)) src.

Definition do_pack_with_varchar_encoding (fpi : mono_field_packing) (field : Field) (rec : bytes) : bytes :=
  let p := data field rec in
  pack_variable_format
    (Collation.strnxfrm (charset field) (m_max_image_len fpi) (char_length field)
       (varstring_data field p) 0).

(** Each iteration compares [space_xfrm->size()] bytes, so [length buf]
    iterations are enough when [space_xfrm] is not empty. *)
Fixpoint compare_with_spaces_loop (fuel : nat) (buf space_xfrm : bytes) : comparison :=
  match fuel with
  | O => Eq
  | S fuel =>
      match buf with
      | [] => Eq
      | _ =>
          let n := Nat.min (length buf) (length space_xfrm) in
          match memcmp buf space_xfrm n with
          | Eq => compare_with_spaces_loop fuel (drop n buf) space_xfrm
          | c => c
          end
      end
  end.

Definition mono_compare_string_with_spaces (buf space_xfrm : bytes) : comparison :=
  compare_with_spaces_loop (length buf) buf space_xfrm.

(** The segments of [pack_with_varchar_space_pad] for the image [buf], and the
    [padding_bytes] of the last one. *)
Fixpoint space_pad_loop (fuel : nat) (segment_size : nat) (space_xfrm buf : bytes) : bytes * nat :=
  match fuel with
  | O => ([], O)
  | S fuel =>
      let copy_len := Nat.min (segment_size - 1) (length buf) in
      let padding_bytes := (segment_size - 1 - copy_len)%nat in
      let head := take copy_len buf in
      let rest := drop copy_len buf in
      let '(head, flag) :=
        if (0 <? padding_bytes)%nat
        then (head ++ take padding_bytes space_xfrm, VARCHAR_CMP_EQUAL_TO_SPACES)
        else
          match mono_compare_string_with_spaces rest space_xfrm with
          | Lt => (head, VARCHAR_CMP_LESS_THAN_SPACES)
          | Gt => (head, VARCHAR_CMP_GREATER_THAN_SPACES)
          | Eq => (head, VARCHAR_CMP_EQUAL_TO_SPACES)
          end in
      if flag =? VARCHAR_CMP_EQUAL_TO_SPACES then (head ++ [flag], padding_bytes)
      else
        let '(enc, padding_bytes) := space_pad_loop fuel segment_size space_xfrm rest in
        (head ++ [flag] ++ enc, padding_bytes)
  end.

(** [size_t] arithmetic of [removed_chars]. *)
Definition removed_chars (value_length trimmed_len padding_bytes space_mb_len space_xfrm_len : nat) : Z :=
  ulonglong_of (mono_TRIMMED_CHARS_OFFSET
    + Z.of_nat ((value_length - trimmed_len) / space_mb_len)
    - Z.of_nat (padding_bytes / space_xfrm_len)).

(** Returns the packed bytes and the unpack-info writer; [None] is a null
    writer. *)
Definition do_pack_with_varchar_space_pad (fpi : mono_field_packing) (field : Field) (rec : bytes)
    (unpack_info : option bytes) : bytes * option bytes :=
  let p := data field rec in
  let cs := charset field in
  let value := varstring_data field p in
  let value_length := varstring_length field p in
  let trimmed_len := Collation.lengthsp cs value in
  let buf := Collation.strnxfrm cs (m_max_image_len fpi) (char_length field) (take trimmed_len value) 0 in
  let '(enc, padding_bytes) := space_pad_loop (S (length buf)) (m_segment_size fpi) (space_xfrm fpi) buf in
  let unpack_info :=
    match unpack_info with
    | Some w =>
        if negb (m_unpack_info_stores_value fpi) then
          let removed := removed_chars value_length trimmed_len padding_bytes
                           (space_mb_len fpi) (space_xfrm_len fpi) in
          Some (if m_unpack_info_uses_two_bytes fpi
                then Rd.write_uint16 removed w else Rd.write_uint8 removed w)
        else Some w
    | None => None
    end in
  (enc, unpack_info).

(** [pack_blob]; [mem] is the memory the blob pointer of the record points
    into. *)
Definition do_pack_blob (mem : Z -> bytes) (fpi : mono_field_packing) (field : Field) (rec : bytes) : bytes :=
  let p := data field rec in
  let length := m_max_image_len fpi in
  let cs := charset field in
  let packlength := packlength field in
  let blob_length := Z.to_nat (le_val (take packlength p)) in
  if (blob_length =? 0)%nat && (Collation.pad_char cs =? 0) then replicate length 0
  else
    let is_bin := Collation.number cs =? Collation.COLLATION_BINARY in
    let length := if is_bin then (length - packlength)%nat else length in
    let tail := if is_bin then be_bytes packlength (Z.of_nat (Nat.min blob_length length)) else [] in
    let blob := mem (le_val (take 8 (drop packlength p))) in
    let char_num := (length / Collation.mbmaxlen cs)%nat in
    Collation.strnxfrm cs length char_num (take blob_length blob) Charset.MY_STRXFRM_PAD_TO_MAXLEN ++ tail.

(** [pack_with_make_sort_key]: [dst] moves by [m_max_image_len].  [None]: a
    class without sort key, or a sort key that does not fill its place. *)
Definition do_pack_with_make_sort_key (fpi : mono_field_packing) (field : Field) (rec : bytes) : option bytes :=
  match sort_string field (m_max_image_len fpi) rec with
  | Some to => if (length to =? m_max_image_len fpi)%nat then Some to else None
  | None => None
  end.

(** The call through [m_pack_func]. *)
Definition call_pack (mem : Z -> bytes) (pf : pack_func) (fpi : mono_field_packing) (field : Field)
    (rec : bytes) (unpack_info : option bytes) : option (bytes * option bytes) :=
  match pf with
  | pack_with_make_sort_key =>
      match do_pack_with_make_sort_key fpi field rec with
      | Some b => Some (b, unpack_info)
      | None => None
      end
  | pack_blob => Some (do_pack_blob mem fpi field rec, unpack_info)
  | pack_with_varchar_encoding => Some (do_pack_with_varchar_encoding fpi field rec, unpack_info)
  | pack_with_varchar_space_pad => Some (do_pack_with_varchar_space_pad fpi field rec unpack_info)
  end.

(** ** Unpack info *)

Definition do_make_unpack_unknown (field : Field) (rec writer : bytes) : bytes :=
  Rd.write (take (pack_length field) (data field rec)) writer.

Definition do_make_unpack_unknown_varchar (field : Field) (rec writer : bytes) : bytes :=
  let p := data field rec in
  Rd.write (take (varstring_length field p + length_bytes field) p) writer.

(** [None]: the bit writer does not finish, which [Bits.write_total] excludes. *)
Definition do_make_unpack_simple (codec : Codec.mono_collation_codec) (field : Field) (rec writer : bytes)
  : option bytes :=
  Bits.bw_data <$> Codec.mono_write_unpack_simple codec (take (pack_length field) (data field rec))
    (Bits.new_bit_writer writer).

Definition do_make_unpack_simple_varchar (codec : Codec.mono_collation_codec) (field : Field)
    (rec writer : bytes) : option bytes :=
  let p := data field rec in
  let src_len := varstring_length field p in
  Bits.bw_data <$> Codec.mono_write_unpack_simple codec
    (take (Nat.min (char_length field) src_len) (drop (length_bytes field) p))
    (Bits.new_bit_writer writer).

(** The call through [m_make_unpack_info_func]; [None] also for a null codec
    where one is read. *)
Definition call_make_unpack_info (fn : make_unpack_info_func) (codec : option Codec.mono_collation_codec)
    (field : Field) (rec : bytes) (writer : bytes) : option bytes :=
  match fn with
  | dummy_make_unpack_info => Some writer
  | make_unpack_unknown => Some (do_make_unpack_unknown field rec writer)
  | make_unpack_unknown_varchar => Some (do_make_unpack_unknown_varchar field rec writer)
  | make_unpack_simple =>
      match codec with
      | Some codec => do_make_unpack_simple codec field rec writer
      | None => None
      end
  | make_unpack_simple_varchar =>
      match codec with
      | Some codec => do_make_unpack_simple_varchar codec field rec writer
      | None => None
      end
  end.

(** ** Skipping *)

(** The number of used bytes and [*done]; [None] is (uint) -1. *)
Definition calc_unpack_variable_format (flag : Z) : option (nat * bool) :=
  if Z.of_nat MONO_ESCAPE_LENGTH <? flag then None
  else if flag <? Z.of_nat MONO_ESCAPE_LENGTH then Some (Z.to_nat flag, true)
  else Some ((MONO_ESCAPE_LENGTH - 1)%nat, false).

Definition UINT_MAX : Z := 4294967295.

(** The room of a VARCHAR column; [None] is the hidden primary key. *)
Definition varstring_room (field : option Field) : Z :=
  match field with
  | Some f => Z.of_nat (pack_length f) - Z.of_nat (length_bytes f)
  | None => UINT_MAX
  end.

Fixpoint skip_variable_length_loop (fuel : nat) (dst_len : Z) (reader : bytes) : option bytes :=
  match fuel with
  | O => None
  | S fuel =>
      match Rd.read MONO_ESCAPE_LENGTH reader with
      | None => None
      | Some (ptr, reader) =>
          match calc_unpack_variable_format (nth (MONO_ESCAPE_LENGTH - 1) ptr 0) with
          | None => None
          | Some (used_bytes, finished) =>
              if dst_len <? Z.of_nat used_bytes then None
              else if finished then Some reader
              else skip_variable_length_loop fuel (dst_len - Z.of_nat used_bytes) reader
          end
      end
  end.

Fixpoint skip_space_pad_loop (fuel : nat) (segment_size : nat) (dst_len : Z) (reader : bytes) : option bytes :=
  match fuel with
  | O => None
  | S fuel =>
      match Rd.read segment_size reader with
      | None => None
      | Some (ptr, reader) =>
          let c := nth (segment_size - 1) ptr 0 in
          if c =? VARCHAR_CMP_EQUAL_TO_SPACES then Some reader
          else if (c =? VARCHAR_CMP_LESS_THAN_SPACES) || (c =? VARCHAR_CMP_GREATER_THAN_SPACES) then
            if dst_len <? Z.of_nat (segment_size - 1) then None
            else skip_space_pad_loop fuel segment_size (dst_len - Z.of_nat (segment_size - 1)) reader
          else None
      end
  end.

Definition do_skip_max_length (fpi : mono_field_packing) (reader : bytes) : option bytes :=
  snd <$> Rd.read (m_max_image_len fpi) reader.

(** Every iteration of the loops reads at least one byte. *)
Definition do_skip_variable_length (field : option Field) (reader : bytes) : option bytes :=
  skip_variable_length_loop (S (length reader)) (varstring_room field) reader.

Definition do_skip_variable_space_pad (fpi : mono_field_packing) (field : option Field) (reader : bytes)
  : option bytes :=
  skip_space_pad_loop (S (length reader)) (m_segment_size fpi) (varstring_room field) reader.

(** The call through [m_skip_func]: [Some] reader is HA_EXIT_SUCCESS. *)
Definition call_skip (fn : skip_func) (fpi : mono_field_packing) (field : option Field) (reader : bytes)
  : option bytes :=
  match fn with
  | skip_max_length => do_skip_max_length fpi reader
  | skip_variable_length => do_skip_variable_length field reader
  | skip_variable_space_pad => do_skip_variable_space_pad fpi field reader
  end.

(** ** Unpacking *)

(** [to[length - 1]] from the sign byte, the others in reverse order. *)
Definition unpack_integer_bytes (uf : bool) (from : bytes) : bytes :=
  match from with
  | [] => []
  | sign_byte :: r => reverse r ++ [if uf then sign_byte else uchar_of (Z.lxor sign_byte 128)]
  end.

Definition mono_swap_double_bytes (src : bytes) : bytes :=
  [nth 7 src 0; nth 6 src 0; nth 5 src 0; nth 4 src 0; nth 3 src 0; nth 2 src 0; nth 1 src 0; nth 0 src 0].

Definition mono_swap_float_bytes (src : bytes) : bytes :=
  [nth 3 src 0; nth 2 src 0; nth 1 src 0; nth 0 src 0].

Definition unpack_floating_point (reader : bytes) (size : nat) (exp_digit : Z)
    (zero_pattern zero_val : bytes) (swap_func : bytes -> bytes) : option (bytes * bytes) :=
  match Rd.read size reader with
  | None => None
  | Some (from, reader) =>
      match memcmp from zero_pattern size with
      | Eq => Some (zero_val, reader)
      | _ =>
          let tmp := from in
          let tmp :=
            if negb (Z.land (nth 0 tmp 0) 128 =? 0) then
              let exp_part := Z.lor (Z.shiftl (nth 0 tmp 0) 8) (nth 1 tmp 0) in
              let exp_part := Z.land exp_part 32767 in
              let exp_part := ushort_of (exp_part - Z.shiftl 1 (16 - 1 - exp_digit)) in
              uchar_of (Z.shiftr exp_part 8) :: uchar_of exp_part :: drop 2 tmp
            else map (fun b => Z.lxor b 255) tmp in
          Some (swap_func tmp, reader)
      end
  end.

Definition double_zero_pattern : bytes := [128; 0; 0; 0; 0; 0; 0; 0].
Definition float_zero_pattern : bytes := [128; 0; 0; 0].

(** [my_wc_t wc] from the first [bytes] bytes of the image. *)
Definition image_wc (nbytes : nat) (src : bytes) : Z :=
  if (nbytes =? 3)%nat
  then Z.lor (Z.lor (Z.shiftl (nth 0 src 0) 16) (Z.shiftl (nth 1 src 0) 8)) (nth 2 src 0)
  else Z.lor (Z.shiftl (nth 0 src 0) 8) (nth 1 src 0).

(** The loop over [src, src_end): [room] bytes left at [dst]. *)
Fixpoint unpack_utf8_loop (fuel nbytes : nat) (wc_mb : Z -> nat -> Charset.wc_res)
    (room : nat) (src : bytes) : option bytes :=
  match src with
  | [] => Some []
  | _ =>
      match fuel with
      | O => None
      | S fuel =>
          match wc_mb (image_wc nbytes src) room with
          | Charset.WC out =>
              (out ++.) <$> unpack_utf8_loop fuel nbytes wc_mb (room - length out) (drop nbytes src)
          | Charset.WC_ERR res =>
              if res <? 0 then None else unpack_utf8_loop fuel nbytes wc_mb room (drop nbytes src)
          end
      end
  end.

Definition unpack_utf8_str_templ (nbytes : nat) (fpi : mono_field_packing) (field : Field) (rec reader : bytes)
  : option (bytes * bytes) :=
  let cs := charset field in
  match Rd.read (m_max_image_len fpi) reader with
  | None => None
  | Some (src, reader) =>
      match unpack_utf8_loop (length src) nbytes (Collation.wc_mb cs) (pack_length field) src with
      | None => None
      | Some out =>
          let fill := replicate (pack_length field - length out) (uchar_of (Collation.pad_char cs)) in
          Some (write_at (ptr field) (out ++ fill) rec, reader)
      end
  end.

(** The length prefix of a VARCHAR value. *)
Definition store_length (field : Field) (len : nat) : bytes :=
  if (length_bytes field =? 1)%nat then [uchar_of (Z.of_nat len)] else le_bytes 2 (Z.of_nat len).

(** Data behind the length bytes, then the length. *)
Definition store_varstring (field : Field) (out rec : bytes) : bytes :=
  write_at (ptr field) (store_length field (length out))
    (write_at (ptr field + length_bytes field) out rec).

(** [unpack_charset]: two-byte weights to UTF-8. *)
Fixpoint unpack_charset_loop (fuel : nat) (wc_mb : Z -> nat -> Charset.wc_res) (room : nat) (src : bytes)
  : option bytes :=
  match src with
  | [] => Some []
  | _ =>
      match fuel with
      | O => None
      | S fuel =>
          match wc_mb (Z.lor (Z.shiftl (nth 0 src 0) 8) (nth 1 src 0)) room with
          | Charset.WC out => (out ++.) <$> unpack_charset_loop fuel wc_mb (room - length out) (drop 2 src)
          | Charset.WC_ERR res =>
              if res <? 0 then None else unpack_charset_loop fuel wc_mb room (drop 2 src)
          end
      end
  end.

Definition unpack_charset (wc_mb : Z -> nat -> Charset.wc_res) (src : bytes) (dst_len : nat) : option bytes :=
  if Nat.odd (length src) then None else unpack_charset_loop (length src) wc_mb dst_len src.

Fixpoint unpack_varchar_loop (fuel : nat) (cs : Collation.CHARSET_INFO) (dst_len : nat) (reader : bytes)
  : option (bytes * bytes) :=
  match fuel with
  | O => None
  | S fuel =>
      match Rd.read MONO_ESCAPE_LENGTH reader with
      | None => None
      | Some (ptr, reader) =>
          match calc_unpack_variable_format (nth (MONO_ESCAPE_LENGTH - 1) ptr 0) with
          | None => None
          | Some (used_bytes, finished) =>
              if (dst_len <? used_bytes)%nat then None
              else
                let decoded :=
                  if Collation.number cs =? Collation.COLLATION_UTF8_BIN
                  then unpack_charset (Collation.wc_mb cs) (take used_bytes ptr) dst_len
                  else Some (take used_bytes ptr) in
                match decoded with
                | None => None
                | Some out =>
                    if finished then Some (out, reader)
                    else
                      match unpack_varchar_loop fuel cs (dst_len - length out) reader with
                      | None => None
                      | Some (out', reader) => Some (out ++ out', reader)
                      end
                end
          end
      end
  end.

Definition do_unpack_binary_or_utf8_varchar (fpi : mono_field_packing) (field : Field) (rec reader : bytes)
  : option (bytes * bytes) :=
  match unpack_varchar_loop (S (length reader)) (m_varchar_charset fpi)
          (pack_length field - length_bytes field) reader with
  | None => None
  | Some (out, reader) => Some (store_varstring field out rec, reader)
  end.

(** *** Space-padded VARCHAR *)

(** [read_uint16] or [read_uint8] of the number of removed spaces. *)
Definition read_removed (fpi : mono_field_packing) (unp_reader : bytes) : option (Z * bytes) :=
  if m_unpack_info_uses_two_bytes fpi then Rd.read_uint16 unp_reader else Rd.read_uint8 unp_reader.

(** [space_padding_bytes] and [extra_spaces]. *)
Definition split_removed (fpi : mono_field_packing) (extra_spaces : Z) : nat * nat :=
  let '(padding, extra) :=
    if extra_spaces <=? mono_TRIMMED_CHARS_OFFSET
    then (mono_TRIMMED_CHARS_OFFSET - extra_spaces, 0)
    else (0, extra_spaces - mono_TRIMMED_CHARS_OFFSET) in
  ((Z.to_nat padding * space_xfrm_len fpi)%nat, Z.to_nat extra).

(** The data bytes of one segment and whether it is the last one. *)
Definition segment_used (segment_size space_padding_bytes : nat) (ptr : bytes) : option (bytes * bool) :=
  let last_byte := nth (segment_size - 1) ptr 0 in
  if last_byte =? VARCHAR_CMP_EQUAL_TO_SPACES then
    if (segment_size - 1 <? space_padding_bytes)%nat then None
    else Some (take (segment_size - 1 - space_padding_bytes) ptr, true)
  else if negb (last_byte =? VARCHAR_CMP_LESS_THAN_SPACES) &&
          negb (last_byte =? VARCHAR_CMP_GREATER_THAN_SPACES) then None
  else Some (take (segment_size - 1) ptr, false).

Definition check_src_len (nbytes src_len : nat) : bool :=
  if (nbytes =? 2)%nat then negb (Nat.odd src_len) else (src_len mod 3 =? 0)%nat.

(** The inner loop of the template for two- and three-byte weights. *)
Fixpoint unpack_weights_loop (fuel nbytes : nat) (wc_mb : Z -> nat -> Charset.wc_res) (room : nat)
    (src : bytes) : option bytes :=
  match src with
  | [] => Some []
  | _ =>
      match fuel with
      | O => None
      | S fuel =>
          match wc_mb (image_wc nbytes src) room with
          | Charset.WC out =>
              (out ++.) <$> unpack_weights_loop fuel nbytes wc_mb (room - length out) (drop nbytes src)
          | Charset.WC_ERR _ => None
          end
      end
  end.

(** The data of one segment, decoded. *)
Definition decode_segment (nbytes : nat) (cs : Collation.CHARSET_INFO) (room : nat) (src : bytes) : option bytes :=
  if (1 <? nbytes)%nat then
    if check_src_len nbytes (length src)
    then unpack_weights_loop (length src) nbytes (Collation.wc_mb cs) room src else None
  else if (room <? length src)%nat then None else Some src.

Fixpoint unpack_space_pad_loop (fuel nbytes : nat) (fpi : mono_field_packing) (space_padding_bytes room : nat)
    (reader : bytes) : option (bytes * bytes) :=
  match fuel with
  | O => None
  | S fuel =>
      match Rd.read (m_segment_size fpi) reader with
      | None => None
      | Some (ptr, reader) =>
          match segment_used (m_segment_size fpi) space_padding_bytes ptr with
          | None => None
          | Some (src, finished) =>
              match decode_segment nbytes (m_varchar_charset fpi) room src with
              | None => None
              | Some out =>
                  if finished then Some (out, reader)
                  else
                    match unpack_space_pad_loop fuel nbytes fpi space_padding_bytes (room - length out) reader with
                    | None => None
                    | Some (out', reader) => Some (out ++ out', reader)
                    end
              end
          end
      end
  end.

(** [unpack_binary_or_utf8_varchar_space_pad<nbytes>]. *)
Definition unpack_varchar_space_pad_templ (nbytes : nat) (fpi : mono_field_packing) (field : Field)
    (rec reader unp_reader : bytes) : option (bytes * bytes * bytes) :=
  match read_removed fpi unp_reader with
  | None => None
  | Some (removed, unp_reader) =>
      let '(space_padding_bytes, extra_spaces) := split_removed fpi removed in
      let room := (pack_length field - length_bytes field)%nat in
      match unpack_space_pad_loop (S (length reader)) nbytes fpi space_padding_bytes room reader with
      | None => None
      | Some (out, reader) =>
          if (room <? length out + extra_spaces)%nat then None
          else
            let out := out ++ replicate extra_spaces
                         (uchar_of (Collation.pad_char (m_varchar_charset fpi))) in
            Some (store_varstring field out rec, reader, unp_reader)
      end
  end.

Fixpoint unpack_simple_space_pad_loop (fuel : nat) (fpi : mono_field_packing)
    (codec : Codec.mono_collation_codec) (space_padding_bytes room : nat) (reader : bytes)
    (bits : Bits.mono_bit_reader) : option (bytes * bytes * Bits.mono_bit_reader) :=
  match fuel with
  | O => None
  | S fuel =>
      match Rd.read (m_segment_size fpi) reader with
      | None => None
      | Some (ptr, reader) =>
          match segment_used (m_segment_size fpi) space_padding_bytes ptr with
          | None => None
          | Some (src, finished) =>
              if (room <? length src)%nat then None
              else
                match Codec.mono_read_unpack_simple codec src (Some bits) with
                | Some (out, Some bits) =>
                    if finished then Some (out, reader, bits)
                    else
                      match unpack_simple_space_pad_loop fuel fpi codec space_padding_bytes
                              (room - length src) reader bits with
                      | None => None
                      | Some (out', reader, bits) => Some (out ++ out', reader, bits)
                      end
                | _ => None
                end
          end
      end
  end.

Definition do_unpack_simple_varchar_space_pad (fpi : mono_field_packing) (field : Field)
    (rec reader unp_reader : bytes) : option (bytes * bytes * bytes) :=
  match m_charset_codec fpi, read_removed fpi unp_reader with
  | Some codec, Some (removed, unp_reader) =>
      let '(space_padding_bytes, extra_spaces) := split_removed fpi removed in
      let room := (pack_length field - length_bytes field)%nat in
      match unpack_simple_space_pad_loop (S (length reader)) fpi codec space_padding_bytes room reader
              (Bits.new_bit_reader unp_reader) with
      | None => None
      | Some (out, reader, bits) =>
          if (room <? length out + extra_spaces)%nat then None
          else
            let out := out ++ replicate extra_spaces (uchar_of (Collation.pad_char (charset field))) in
            Some (store_varstring field out rec, reader, Bits.br_reader bits)
      end
  | _, _ => None
  end.

(** *** Fixed-length columns

    The record with the value written at [ptr], and the rest of the reader. *)

Definition do_unpack_integer (fpi : mono_field_packing) (field : Field) (rec reader : bytes)
  : option (bytes * bytes) :=
  match Rd.read (m_max_image_len fpi) reader with
  | Some (from, reader) =>
      Some (write_at (ptr field) (unpack_integer_bytes (unsigned_flag field) from) rec, reader)
  | None => None
  end.

Definition do_unpack_unsigned (fpi : mono_field_packing) (field : Field) (rec reader : bytes)
  : option (bytes * bytes) :=
  match Rd.read (m_max_image_len fpi) reader with
  | Some (from, reader) => Some (write_at (ptr field) (reverse from) rec, reader)
  | None => None
  end.

Definition do_unpack_double (field : Field) (rec reader : bytes) : option (bytes * bytes) :=
  match unpack_floating_point reader 8 DBL_EXP_DIG double_zero_pattern (replicate 8 0)
          mono_swap_double_bytes with
  | Some (to, reader) => Some (write_at (ptr field) to rec, reader)
  | None => None
  end.

Definition do_unpack_float (field : Field) (rec reader : bytes) : option (bytes * bytes) :=
  match unpack_floating_point reader 4 FLT_EXP_DIG float_zero_pattern (replicate 4 0)
          mono_swap_float_bytes with
  | Some (to, reader) => Some (write_at (ptr field) to rec, reader)
  | None => None
  end.

Definition do_unpack_newdate (field : Field) (rec reader : bytes) : option (bytes * bytes) :=
  match Rd.read 3 reader with
  | Some (from, reader) =>
      Some (write_at (ptr field) [nth 2 from 0; nth 1 from 0; nth 0 from 0] rec, reader)
  | None => None
  end.

Definition do_unpack_bit (fpi : mono_field_packing) (field : Field) (rec reader : bytes)
  : option (bytes * bytes) :=
  match Rd.read (m_max_image_len fpi) reader with
  | None => None
  | Some (from, reader) =>
      let '(rec, from) :=
        if 0 <? bit_len field then
          (take (bit_ptr field) rec ++
             set_rec_bits (nth 0 from 0) (drop (bit_ptr field) rec) (bit_ofs field) (bit_len field),
           drop 1 from)
        else (rec, from) in
      let data_length := Nat.min (m_max_image_len fpi) (bytes_in_rec field) in
      Some (write_at (ptr field) (take data_length from) rec, reader)
  end.

Definition do_unpack_binary_str (fpi : mono_field_packing) (field : Field) (rec reader : bytes)
  : option (bytes * bytes) :=
  match Rd.read (m_max_image_len fpi) reader with
  | Some (from, reader) => Some (write_at (ptr field) from rec, reader)
  | None => None
  end.

(** *** Values kept in the unpack info *)

Definition do_unpack_unknown (fpi : mono_field_packing) (field : Field) (rec reader unp_reader : bytes)
  : option (bytes * bytes * bytes) :=
  match do_skip_max_length fpi reader with
  | None => None
  | Some reader =>
      match Rd.read (m_unpack_data_len fpi) unp_reader with
      | Some (p, unp_reader) => Some (write_at (ptr field) p rec, reader, unp_reader)
      | None => None
      end
  end.

Definition do_unpack_unknown_varchar (fpi : mono_field_packing) (field : Field) (rec reader unp_reader : bytes)
  : option (bytes * bytes * bytes) :=
  match call_skip (m_skip_func fpi) fpi (Some field) reader with
  | None => None
  | Some reader =>
      match Rd.read (length_bytes field) unp_reader with
      | None => None
      | Some (lp, unp_reader) =>
          match Rd.read (varstring_length field lp) unp_reader with
          | Some (p, unp_reader) => Some (write_at (ptr field) (lp ++ p) rec, reader, unp_reader)
          | None => None
          end
      end
  end.

(** A null unpack reader is read from only where a weight needs bits. *)
Definition do_unpack_simple (fpi : mono_field_packing) (field : Field) (rec reader : bytes)
    (unp_reader : option bytes) : option (bytes * bytes * option bytes) :=
  match m_charset_codec fpi, Rd.read (m_max_image_len fpi) reader with
  | Some codec, Some (p, reader) =>
      match Codec.mono_read_unpack_simple codec p (Bits.new_bit_reader <$> unp_reader) with
      | None => None
      | Some (out, bits) => Some (write_at (ptr field) out rec, reader, Bits.br_reader <$> bits)
      end
  | _, _ => None
  end.

(** *** The call through [m_unpack_func]

    Returns the record, the reader and the unpack reader ([None]: null). *)
Definition call_unpack (fn : unpack_func) (fpi : mono_field_packing) (field : Field) (rec reader : bytes)
    (unp_reader : option bytes) : option (bytes * bytes * option bytes) :=
  let keep (res : option (bytes * bytes)) :=
    match res with Some (rec, reader) => Some (rec, reader, unp_reader) | None => None end in
  let with_unp (f : bytes -> option (bytes * bytes * bytes)) :=
    match unp_reader with
    | Some u => match f u with Some (rec, reader, u) => Some (rec, reader, Some u) | None => None end
    | None => None
    end in
  match fn with
  | unpack_integer => keep (do_unpack_integer fpi field rec reader)
  | unpack_unsigned => keep (do_unpack_unsigned fpi field rec reader)
  | unpack_double => keep (do_unpack_double field rec reader)
  | unpack_float => keep (do_unpack_float field rec reader)
  | unpack_newdate => keep (do_unpack_newdate field rec reader)
  | unpack_bit => keep (do_unpack_bit fpi field rec reader)
  | unpack_binary_str => keep (do_unpack_binary_str fpi field rec reader)
  | unpack_utf8_str => keep (unpack_utf8_str_templ 2 fpi field rec reader)
  | unpack_utf8mb4_str => keep (unpack_utf8_str_templ 3 fpi field rec reader)
  | unpack_binary_or_utf8_varchar => keep (do_unpack_binary_or_utf8_varchar fpi field rec reader)
  | unpack_binary_varchar_space_pad => with_unp (unpack_varchar_space_pad_templ 1 fpi field rec reader)
  | unpack_utf8_varchar_space_pad => with_unp (unpack_varchar_space_pad_templ 2 fpi field rec reader)
  | unpack_utf8mb4_varchar_space_pad => with_unp (unpack_varchar_space_pad_templ 3 fpi field rec reader)
  | unpack_unknown => with_unp (do_unpack_unknown fpi field rec reader)
  | unpack_unknown_varchar => with_unp (do_unpack_unknown_varchar fpi field rec reader)
  | unpack_simple => do_unpack_simple fpi field rec reader unp_reader
  | unpack_simple_varchar_space_pad =>
      with_unp (do_unpack_simple_varchar_space_pad fpi field rec reader)
  end.

End Packing.
