(* ===== verification/VarFormat.v ===== *)
(** * VarFormat: the escaped variable-length encoding

    [pack_variable_format] of eloq_key_def.cc, used for VARBINARY columns:
    the order of the encodings, what the decoders restore and what the skip
    function skips. *)

From S2P Require Import Prelude Buff Charset Latin1 Collation Field Codec Packing.
Import Packing.

Module VarFormat.

Lemma pack_loop_fuel f1 f2 src :
  (length src < f1)%nat -> (length src < f2)%nat ->
  pack_variable_format_loop f1 src = pack_variable_format_loop f2 src.
Proof.
  revert f2 src. induction f1 as [|f1 IH]; intros f2 src H1 H2; [lia|].
  destruct f2 as [|f2]; [lia|]. cbn [pack_variable_format_loop].
  destruct (Nat.eqb_spec (length (drop (Nat.min (MONO_ESCAPE_LENGTH - 1) (length src)) src)) 0); [done|].
  rewrite (IH f2); [done|..]; rewrite length_drop in *; unfold MONO_ESCAPE_LENGTH in *; lia.
Qed.

(** The two kinds of segments; the loop has enough fuel. *)
Lemma pack_variable_format_eq src :
  pack_variable_format src =
    if (length src <=? 8)%nat
    then src ++ replicate (8 - length src) 0 ++ [Z.of_nat (length src)]
    else take 8 src ++ [9] ++ pack_variable_format (drop 8 src).
Proof.
  unfold pack_variable_format. cbn [pack_variable_format_loop].
  change (MONO_ESCAPE_LENGTH - 1)%nat with 8%nat. change (Z.of_nat MONO_ESCAPE_LENGTH) with 9.
  rewrite length_drop. destruct (Nat.leb_spec (length src) 8) as [H|H].
  - rewrite Nat.min_r, Nat.sub_diag, take_ge by lia. done.
  - rewrite Nat.min_l by lia. destruct (Nat.eqb_spec (length src - 8) 0); [lia|].
    rewrite (pack_loop_fuel _ (S (length (drop 8 src)))); [done|rewrite length_drop; lia..].
Qed.

Lemma pack_variable_format_ok src : bytes_ok src -> bytes_ok (pack_variable_format src).
Proof.
  remember (length src) as n eqn:Hn. revert src Hn. induction n as [n IH] using lt_wf_ind.
  intros src -> Hs. rewrite pack_variable_format_eq.
  destruct (Nat.leb_spec (length src) 8) as [H|H].
  - apply bytes_ok_app. split; [done|]. apply bytes_ok_app. split; [apply bytes_ok_replicate; unfold byte_ok; lia|].
    apply bytes_ok_cons. split; [unfold byte_ok; lia|auto with bytes].
  - apply bytes_ok_app. split; [auto with bytes|]. apply bytes_ok_app.
    split; [apply bytes_ok_cons; split; [unfold byte_ok; lia|auto with bytes]|].
    eapply IH; [|reflexivity|auto with bytes]. rewrite length_drop. lia.
Qed.

(** Comparing prefixes first. *)
Lemma lex_cmp_take_drop n x y :
  lex_cmp x y = (lex_cmp (take n x) (take n y) ;;; lex_cmp (drop n x) (drop n y)).
Proof.
  revert x y. induction n as [|n IH]; intros [|a x] [|b y]; simpl; try done.
  by rewrite IH, cmp_then_assoc.
Qed.

(** Zero is the smallest byte. *)
Lemma lex_cmp_zeros z : bytes_ok z -> lex_cmp (replicate (length z) 0) z <> Gt.
Proof.
  intros Hz. induction Hz as [|c z Hc Hz IH]; [done|].
  cbn [length replicate lex_cmp]. unfold byte_ok in Hc.
  by destruct (Z.compare_spec 0 c); [..|lia].
Qed.

(** Zero padding and then the lengths give the order of the strings. *)
Lemma lex_cmp_zero_pad n x y :
  bytes_ok x -> bytes_ok y -> (length x <= n)%nat -> (length y <= n)%nat ->
  (lex_cmp (x ++ replicate (n - length x) 0) (y ++ replicate (n - length y) 0) ;;;
     Nat.compare (length x) (length y)) = lex_cmp x y.
Proof.
  intros Hx. revert n y. induction Hx as [|a x Ha Hx IH]; intros n [|b y] Hy Hlx Hly; cbn [length] in *.
  - cbn [app]. by rewrite lex_cmp_refl.
  - destruct n as [|n]; [lia|]. apply bytes_ok_cons in Hy as [Hb Hy]. unfold byte_ok in Hb.
    rewrite Nat.sub_succ, Nat.sub_0_r. cbn [app replicate lex_cmp Nat.compare].
    destruct (Z.compare_spec 0 b); cbn [cmp_then]; [|done|lia].
    pose proof (lex_cmp_zeros (y ++ replicate (n - length y) 0) ltac:(auto with bytes)) as H0.
    rewrite length_app, length_replicate in H0. replace (length y + (n - length y))%nat with n in H0 by lia.
    by destruct (lex_cmp (replicate n 0) _).
  - destruct n as [|n]; [lia|]. unfold byte_ok in Ha.
    rewrite Nat.sub_succ, Nat.sub_0_r. cbn [app replicate lex_cmp Nat.compare].
    destruct (Z.compare_spec a 0); cbn [cmp_then]; [|lia|done].
    pose proof (lex_cmp_zeros (x ++ replicate (n - length x) 0) ltac:(auto with bytes)) as H0.
    rewrite length_app, length_replicate in H0. replace (length x + (n - length x))%nat with n in H0 by lia.
    rewrite lex_cmp_antisym. by destruct (lex_cmp (replicate n 0) _).
  - destruct n as [|n]; [lia|]. apply bytes_ok_cons in Hy as [Hb Hy].
    rewrite !Nat.sub_succ. cbn [app lex_cmp Nat.compare].
    rewrite cmp_then_assoc. rewrite <- (IH n y Hy) by lia. done.
Qed.

(** The head of an encoding: eight bytes and the flag. *)
Definition head (src : bytes) : bytes :=
  let h := take 8 src in h ++ replicate (8 - length h) 0.
Definition flag (src : bytes) : Z := if (length src <=? 8)%nat then Z.of_nat (length src) else 9.

Lemma pack_split src :
  pack_variable_format src =
    head src ++ [flag src] ++ if (length src <=? 8)%nat then [] else pack_variable_format (drop 8 src).
Proof.
  rewrite pack_variable_format_eq at 1. unfold head, flag.
  destruct (Nat.leb_spec (length src) 8) as [H|H].
  - rewrite take_ge by done. rewrite <- app_assoc. done.
  - rewrite length_take, Nat.min_l, Nat.sub_diag by lia. simpl. by rewrite app_nil_r.
Qed.

Lemma length_head src : length (head src) = 8%nat.
Proof. unfold head. rewrite length_app, length_replicate, length_take. lia. Qed.

(** Heads and flags decide the order of the first eight bytes, and whether
    there are more. *)
Lemma head_flag_cmp x y :
  bytes_ok x -> bytes_ok y ->
  (lex_cmp (head x) (head y) ;;; (flag x ?= flag y)) =
    (lex_cmp (take 8 x) (take 8 y) ;;;
       match (length x <=? 8)%nat, (length y <=? 8)%nat with
       | true, false => Lt | false, true => Gt | _, _ => Eq
       end).
Proof.
  intros Hx Hy. unfold head, flag.
  pose proof (lex_cmp_zero_pad 8 (take 8 x) (take 8 y)) as Hp.
  assert (bytes_ok (take 8 x) /\ bytes_ok (take 8 y)) as [Tx Ty] by (split; auto with bytes).
  specialize (Hp Tx Ty ltac:(rewrite length_take; lia) ltac:(rewrite length_take; lia)).
  rewrite !length_take in Hp. rewrite <- Hp, !length_take. rewrite cmp_then_assoc. f_equal.
  destruct (Nat.leb_spec (length x) 8), (Nat.leb_spec (length y) 8).
  - rewrite !Nat.min_r by lia. rewrite cmp_then_Eq_r. apply Nat2Z.inj_compare.
  - rewrite (Nat.min_r 8 (length x)), Nat.min_l by lia.
    rewrite (proj2 (Z.compare_lt_iff (Z.of_nat (length x)) 9)) by lia.
    destruct (Nat.compare_spec (length x) 8); done || lia.
  - rewrite (Nat.min_l 8 (length x)), Nat.min_r by lia.
    rewrite (proj2 (Z.compare_gt_iff 9 (Z.of_nat (length y)))) by lia.
    destruct (Nat.compare_spec 8 (length y)); done || lia.
  - rewrite !Nat.min_l by lia. done.
Qed.

(** Encodings of byte strings compare, with any suffixes, as the strings. *)
#[export] Instance mem_cmp_variable_format : MemCmp bytes_ok pack_variable_format lex_cmp.
Proof.
  intros x. remember (length x) as n eqn:Hn. revert x Hn.
  induction n as [n IH] using lt_wf_ind. intros x -> y r s Hx Hy.
  rewrite !(pack_split x), !(pack_split y), <- !app_assoc.
  rewrite lex_cmp_app by by rewrite !length_head.
  rewrite lex_cmp_app by done. simpl (lex_cmp [_] [_]). rewrite cmp_then_Eq_r.
  rewrite <- cmp_then_assoc, head_flag_cmp by done.
  rewrite (lex_cmp_take_drop 8 x y), !cmp_then_assoc.
  destruct (lex_cmp (take 8 x) (take 8 y)); simpl; try done.
  destruct (Nat.leb_spec (length x) 8), (Nat.leb_spec (length y) 8); simpl.
  - by rewrite !drop_ge by lia.
  - rewrite (drop_ge x) by lia. destruct (drop 8 y) eqn:E; [|done].
    apply (f_equal length) in E. rewrite length_drop in E. simpl in E. lia.
  - rewrite (drop_ge y) by lia. destruct (drop 8 x) eqn:E; [|done].
    apply (f_equal length) in E. rewrite length_drop in E. simpl in E. lia.
  - apply (IH (length (drop 8 x))); [rewrite length_drop; lia|done|auto with bytes..].
Qed.

(** ** Decoding *)

(** One segment of an encoding, read and classified. *)
Lemma read_segment src rest :
  bytes_ok src ->
  exists seg, Rd.read MONO_ESCAPE_LENGTH (pack_variable_format src ++ rest) =
      Some (seg, (if (length src <=? 8)%nat then [] else pack_variable_format (drop 8 src)) ++ rest) /\
    calc_unpack_variable_format (nth (MONO_ESCAPE_LENGTH - 1) seg 0) =
      Some (length (take 8 src), (length src <=? 8)%nat) /\
    take (length (take 8 src)) seg = take 8 src.
Proof.
  intros Hs. exists (head src ++ [flag src]). split_and!.
  - rewrite pack_split, <- !app_assoc, (app_assoc (head src)). apply Rd.read_app.
    rewrite length_app, length_head. done.
  - rewrite app_nth2; rewrite length_head; [|unfold MONO_ESCAPE_LENGTH; lia]. change (MONO_ESCAPE_LENGTH - 1 - 8)%nat with 0%nat.
    cbn [nth]. unfold flag, calc_unpack_variable_format. change (Z.of_nat MONO_ESCAPE_LENGTH) with 9.
    rewrite length_take. destruct (Nat.leb_spec (length src) 8).
    + destruct (Z.ltb_spec 9 (Z.of_nat (length src))); [lia|].
      destruct (Z.ltb_spec (Z.of_nat (length src)) 9); [|lia].
      rewrite Nat2Z.id. do 2 f_equal. lia.
    + rewrite Nat.min_l by lia. done.
  - unfold head. rewrite <- app_assoc. apply take_app_length.
Qed.

(** A string that fits is restored, and exactly its encoding is consumed. *)
Lemma unpack_variable_format cs src rest dst_len fuel :
  Collation.number cs <> Collation.COLLATION_UTF8_BIN -> bytes_ok src ->
  (length src <= dst_len)%nat -> (length src < fuel)%nat ->
  unpack_varchar_loop fuel cs dst_len (pack_variable_format src ++ rest) = Some (src, rest).
Proof.
  intros Hcs. revert dst_len src. induction fuel as [|fuel IH]; intros dst_len src Hs Hd Hf; [lia|].
  cbn [unpack_varchar_loop]. destruct (read_segment src rest Hs) as (seg & -> & -> & ->).
  destruct (Nat.ltb_spec dst_len (length (take 8 src))) as [Hl|Hl]; [rewrite length_take in Hl; lia|].
  rewrite (proj2 (Z.eqb_neq _ _) Hcs).
  destruct (Nat.leb_spec (length src) 8); [by rewrite take_ge by lia|].
  rewrite IH; [by rewrite take_drop|auto with bytes|rewrite length_drop, ?length_take in *; lia..].
Qed.

Lemma skip_variable_format src rest dst_len fuel :
  bytes_ok src -> Z.of_nat (length src) <= dst_len -> (length src < fuel)%nat ->
  skip_variable_length_loop fuel dst_len (pack_variable_format src ++ rest) = Some rest.
Proof.
  revert dst_len src. induction fuel as [|fuel IH]; intros dst_len src Hs Hd Hf; [lia|].
  cbn [skip_variable_length_loop]. destruct (read_segment src rest Hs) as (seg & -> & -> & _).
  destruct (Z.ltb_spec dst_len (Z.of_nat (length (take 8 src)))) as [Hl|Hl]; [rewrite length_take in Hl; lia|].
  destruct (Nat.leb_spec (length src) 8); [done|].
  apply IH; [auto with bytes|rewrite length_drop, ?length_take in *; lia..].
Qed.

Lemma length_pack_variable_format src : (length src < length (pack_variable_format src))%nat.
Proof.
  remember (length src) as n eqn:Hn. revert src Hn. induction n as [n IH] using lt_wf_ind.
  intros src ->. rewrite pack_split, !length_app, length_head. simpl length.
  destruct (Nat.leb_spec (length src) 8); simpl length; [lia|].
  specialize (IH (length (drop 8 src)) ltac:(rewrite length_drop; lia) (drop 8 src) eq_refl).
  rewrite length_drop in IH. lia.
Qed.

(** The image fits [MONO_ENCODED_SIZE] of a positive maximal length. *)
Lemma encoded_size_bound src max_len :
  (0 < max_len)%nat -> (length src <= max_len)%nat ->
  (length (pack_variable_format src) <= MONO_ENCODED_SIZE max_len)%nat.
Proof.
  intros Hm. unfold MONO_ESCAPE_LENGTH. simpl Nat.sub.
  remember (length src) as n eqn:Hn. revert max_len Hm src Hn. induction n as [n IH] using lt_wf_ind.
  intros max_len Hm src -> Hl. rewrite pack_split, !length_app, length_head. simpl length.
  assert (1 <= (max_len + 7) / 8)%nat by (apply Nat.div_le_lower_bound; lia).
  destruct (Nat.leb_spec (length src) 8); simpl length; [lia|].
  specialize (IH (length (drop 8 src)) ltac:(rewrite length_drop; lia) (max_len - 8)%nat ltac:(lia)
    (drop 8 src) eq_refl ltac:(rewrite length_drop; lia)).
  replace (max_len + 7)%nat with (max_len - 8 + 7 + 1 * 8)%nat by lia.
  rewrite Nat.div_add by lia. lia.
Qed.

End VarFormat.
