(* ===== verification/SpacePad.v ===== *)
(** * SpacePad: the variable-length space-padded encoding

    [pack_with_varchar_space_pad] of eloq_key_def.cc and its decoders.  The
    encoder is first shown to compute [enc], its description on weight
    strings; then the order of the encodings, the decoding of segments and
    the skip function. *)

From S2P Require Import Prelude Buff Charset Latin1 Collation Field Codec Packing VarFormat.
Import Packing.

Module SpacePad.

Section SpacePad.
(** [wlen] bytes per weight, [k] weights per segment, and the weight of the
    space; [space_xfrm] holds at least [k] of them. *)
Context (wlen k : nat) (sp : Z) (nsp : nat).
Context (Hwlen : (0 < wlen)%nat) (Hk : (0 < k)%nat) (Hnsp : (k <= nsp)%nat).
Context (Hsp : 0 <= sp < 256 ^ Z.of_nat wlen).

Let seg : nat := S (wlen * k).
Let sx : bytes := Collation.wbytes wlen (replicate nsp sp).
Let wok := Collation.weights_ok wlen.

Lemma spaces_ok n : wok (replicate n sp).
Proof. by apply Forall_replicate. Qed.

(** ** The encoder on weights *)

(** The [k] weights of the first segment, padded with spaces. *)
Definition head (ws : list Z) : list Z := take k ws ++ replicate (k - length ws) sp.

Definition flag_byte (c : comparison) : Z :=
  match c with
  | Lt => VARCHAR_CMP_LESS_THAN_SPACES
  | Eq => VARCHAR_CMP_EQUAL_TO_SPACES
  | Gt => VARCHAR_CMP_GREATER_THAN_SPACES
  end.

Fixpoint enc_loop (fuel : nat) (ws : list Z) : bytes :=
  match fuel with
  | O => []
  | S fuel =>
      let c := Collation.cmp_sp sp (drop k ws) in
      Collation.wbytes wlen (head ws) ++ [flag_byte c] ++
        match c with Eq => [] | _ => enc_loop fuel (drop k ws) end
  end.

Definition enc (ws : list Z) : bytes := enc_loop (S (length ws)) ws.

Lemma enc_loop_fuel f1 f2 ws :
  (length ws < f1)%nat -> (length ws < f2)%nat -> enc_loop f1 ws = enc_loop f2 ws.
Proof.
  revert f2 ws. induction f1 as [|f1 IH]; intros f2 ws H1 H2; [lia|].
  destruct f2 as [|f2]; [lia|]. cbn [enc_loop]. do 2 f_equal.
  destruct (drop k ws) as [|w r] eqn:E; [done|].
  assert (length (w :: r) < length ws)%nat as Hl.
  { rewrite <- E, length_drop. destruct ws; [by rewrite drop_nil in E|simpl; lia]. }
  rewrite (IH f2) by lia. done.
Qed.

Lemma enc_eq ws :
  enc ws = Collation.wbytes wlen (head ws) ++ [flag_byte (Collation.cmp_sp sp (drop k ws))] ++
    match Collation.cmp_sp sp (drop k ws) with Eq => [] | _ => enc (drop k ws) end.
Proof.
  unfold enc at 1. cbn [enc_loop]. do 2 f_equal.
  destruct (drop k ws) as [|w r] eqn:E; [done|]. unfold enc.
  assert (length (w :: r) < length ws)%nat as Hl.
  { rewrite <- E, length_drop. destruct ws; [by rewrite drop_nil in E|simpl; lia]. }
  rewrite (enc_loop_fuel (length ws) (S (length (w :: r)))) by lia. done.
Qed.

Lemma length_segment ws : length (head ws) = k.
Proof. unfold head. rewrite length_app, length_take, length_replicate. lia. Qed.

Lemma head_ok ws : wok ws -> wok (head ws).
Proof. intros H. apply Forall_app. split; [by apply Forall_take|apply spaces_ok]. Qed.

(** [mono_compare_string_with_spaces] compares with infinitely many spaces. *)
Lemma compare_with_spaces ws :
  wok ws -> mono_compare_string_with_spaces (Collation.wbytes wlen ws) sx = Collation.cmp_sp sp ws.
Proof.
  unfold mono_compare_string_with_spaces. intros Hws.
  assert (forall fuel ws, wok ws -> (length ws <= fuel)%nat ->
    compare_with_spaces_loop fuel (Collation.wbytes wlen ws) sx = Collation.cmp_sp sp ws) as H.
  2: { apply H; [done|]. rewrite Collation.length_wbytes. nia. }
  clear ws Hws. induction fuel as [|fuel IH]; intros ws Hws Hf.
  { destruct ws; [done|simpl in Hf; lia]. }
  cbn [compare_with_spaces_loop].
  destruct ws as [|w ws]; [done|]. set (l := w :: ws) in *.
  destruct (Collation.wbytes wlen l) as [|b bs] eqn:E.
  { apply (f_equal length) in E. rewrite Collation.length_wbytes in E. simpl in E. lia. }
  rewrite <- E. unfold sx. rewrite !Collation.length_wbytes, length_replicate.
  rewrite Nat.mul_min_distr_l. set (m := Nat.min (length l) nsp).
  unfold memcmp. rewrite !Collation.wbytes_take, Collation.wbytes_drop, take_replicate.
  rewrite <- (app_nil_r (Collation.wbytes wlen (take m l))).
  rewrite <- (app_nil_r (Collation.wbytes wlen (replicate _ sp))).
  rewrite Collation.lex_cmp_wbytes;
    [|by apply Forall_take|apply spaces_ok|rewrite length_take, length_replicate; lia].
  simpl (lex_cmp [] []). rewrite cmp_then_Eq_r.
  replace (Nat.min m nsp) with (length (take m l)) by (rewrite length_take; lia).
  rewrite Collation.lex_cmp_spaces.
  rewrite <- (take_drop m l) at 3. rewrite Collation.cmp_sp_app.
  destruct (Collation.cmp_sp sp (take m l)); [|done|done].
  apply IH; [by apply Forall_drop|]. rewrite length_drop.
  assert (length l = S (length ws)) by done. lia.
Qed.

(** The spaces that were added to the last segment. *)
Fixpoint padding_loop (fuel : nat) (ws : list Z) : nat :=
  match fuel with
  | O => O
  | S fuel =>
      match Collation.cmp_sp sp (drop k ws) with
      | Eq => (k - length ws)%nat
      | _ => padding_loop fuel (drop k ws)
      end
  end.

Definition padding (ws : list Z) : nat := padding_loop (S (length ws)) ws.

Lemma space_pad_loop_enc fuel ws :
  wok ws ->
  space_pad_loop fuel seg sx (Collation.wbytes wlen ws) =
    (enc_loop fuel ws, (wlen * padding_loop fuel ws)%nat).
Proof.
  revert ws. induction fuel as [|fuel IH]; intros ws Hws; [cbn; by rewrite Nat.mul_0_r|].
  cbn [space_pad_loop enc_loop padding_loop]. unfold seg.
  rewrite Nat.sub_succ, Nat.sub_0_r, Collation.length_wbytes, Nat.mul_min_distr_l.
  replace (wlen * k - wlen * Nat.min k (length ws))%nat with (wlen * (k - length ws))%nat by nia.
  rewrite Collation.wbytes_take, Collation.wbytes_drop.
  destruct (Nat.ltb_spec 0 (wlen * (k - length ws))) as [Hp|Hp].
  - assert (length ws < k)%nat by nia.
    rewrite Nat.min_r, firstn_all, (drop_ge ws (length ws)), (drop_ge ws k) by lia.
    cbn [Collation.cmp_sp flag_byte]. unfold sx. rewrite Collation.wbytes_take, take_replicate.
    rewrite Nat.min_l by lia. unfold head. rewrite (take_ge ws k), Collation.wbytes_app by lia.
    simpl Z.eqb. cbv iota. by rewrite app_nil_r.
  - assert (k <= length ws)%nat by nia. rewrite Nat.min_l by lia.
    rewrite compare_with_spaces by by apply Forall_drop.
    unfold head. replace (k - length ws)%nat with 0%nat by lia. cbn [replicate]. rewrite app_nil_r.
    destruct (Collation.cmp_sp sp (drop k ws)); cbn [flag_byte]; simpl Z.eqb; cbv iota; try done.
    all: fold seg; rewrite IH by (by apply Forall_drop); done.
Qed.

Lemma padding_loop_fuel f1 f2 ws :
  (length ws < f1)%nat -> (length ws < f2)%nat -> padding_loop f1 ws = padding_loop f2 ws.
Proof.
  revert f2 ws. induction f1 as [|f1 IH]; intros f2 ws H1 H2; [lia|].
  destruct f2 as [|f2]; [lia|]. cbn [padding_loop].
  destruct (drop k ws) as [|w r] eqn:E; [done|].
  assert (length (w :: r) < length ws)%nat as Hl.
  { rewrite <- E, length_drop. destruct ws; [by rewrite drop_nil in E|simpl; lia]. }
  rewrite (IH f2) by lia. done.
Qed.

Lemma padding_eq ws :
  padding ws =
    match Collation.cmp_sp sp (drop k ws) with
    | Eq => (k - length ws)%nat
    | _ => padding (drop k ws)
    end.
Proof.
  unfold padding. cbn [padding_loop].
  destruct (drop k ws) as [|w r] eqn:E; [done|].
  assert (length (w :: r) < length ws)%nat as Hl.
  { rewrite <- E, length_drop. destruct ws; [by rewrite drop_nil in E|simpl; lia]. }
  rewrite (padding_loop_fuel (length ws) (S (length (w :: r)))) by lia. done.
Qed.

Lemma padding_le ws : (padding ws <= k)%nat.
Proof.
  remember (length ws) as n eqn:Hn. revert ws Hn. induction n as [n IH] using lt_wf_ind.
  intros ws ->. rewrite padding_eq. destruct (drop k ws) as [|w r] eqn:E; [simpl; lia|].
  assert (length (w :: r) < length ws)%nat as Hl.
  { rewrite <- E, length_drop. destruct ws; [by rewrite drop_nil in E|simpl; lia]. }
  specialize (IH _ Hl (w :: r) eq_refl). destruct (Collation.cmp_sp sp (w :: r)); lia.
Qed.

(** What [pack_with_varchar_space_pad] emits for a weight string. *)
Lemma space_pad_enc ws :
  wok ws ->
  space_pad_loop (S (length (Collation.wbytes wlen ws))) seg sx (Collation.wbytes wlen ws) =
    (enc ws, (wlen * padding ws)%nat).
Proof.
  intros Hws. rewrite space_pad_loop_enc by done. rewrite Collation.length_wbytes.
  unfold enc, padding. rewrite (enc_loop_fuel _ (S (length ws))) by nia.
  by rewrite (padding_loop_fuel _ (S (length ws))) by nia.
Qed.

(** ** Order *)

Lemma pad_cmp_heads a b :
  Collation.pad_cmp sp a b =
    (lex_cmp (head a) (head b) ;;; Collation.pad_cmp sp (drop k a) (drop k b)).
Proof.
  rewrite <- Collation.pad_cmp_app by by rewrite !length_segment.
  assert (forall l, exists n, head l ++ drop k l = l ++ replicate n sp) as H.
  { intros l. unfold head. destruct (Nat.le_gt_cases (length l) k).
    - exists (k - length l)%nat. rewrite take_ge, drop_ge, app_nil_r by done. done.
    - exists 0%nat. replace (k - length l)%nat with 0%nat by lia. cbn [replicate].
      by rewrite !app_nil_r, take_drop. }
  destruct (H a) as [n ->], (H b) as [m ->].
  by rewrite Collation.pad_cmp_app_l, Collation.pad_cmp_app_r.
Qed.

(** Encodings compare, with any suffixes, in the PAD SPACE order. *)
Lemma mem_cmp_enc : MemCmp wok enc (Collation.pad_cmp sp).
Proof.
  intros x. remember (length x) as n eqn:Hn. revert x Hn.
  induction n as [n IH] using lt_wf_ind. intros x -> y r s Hx Hy.
  rewrite (enc_eq x), (enc_eq y), <- !app_assoc.
  rewrite Collation.lex_cmp_wbytes; [|by apply head_ok..|by rewrite !length_segment].
  rewrite (pad_cmp_heads x y), cmp_then_assoc. f_equal. cbn [app lex_cmp].
  destruct (Collation.cmp_sp sp (drop k x)) eqn:Ex, (Collation.cmp_sp sp (drop k y)) eqn:Ey;
    cbn [flag_byte]; simpl (_ ?= _); cbn [cmp_then app].
  - by rewrite Collation.pad_cmp_both_sp.
  - by rewrite Collation.pad_cmp_via_sp, ?Ex, ?Ey by congruence.
  - by rewrite Collation.pad_cmp_via_sp, ?Ex, ?Ey by congruence.
  - by rewrite Collation.pad_cmp_via_sp, ?Ex, ?Ey by congruence.
  - apply (IH (length (drop k x))); [|done|by apply Forall_drop..].
    rewrite length_drop. destruct x; [by rewrite drop_nil in Ex|simpl; lia].
  - by rewrite Collation.pad_cmp_via_sp, ?Ex, ?Ey by congruence.
  - by rewrite Collation.pad_cmp_via_sp, ?Ex, ?Ey by congruence.
  - by rewrite Collation.pad_cmp_via_sp, ?Ex, ?Ey by congruence.
  - apply (IH (length (drop k x))); [|done|by apply Forall_drop..].
    rewrite length_drop. destruct x; [by rewrite drop_nil in Ex|simpl; lia].
Qed.

(** ** Decoding *)

Lemma cmp_sp_Eq ws : Collation.cmp_sp sp ws = Eq -> list.last ws <> Some sp -> ws = [].
Proof.
  induction ws as [|w ws IH]; intros H Hl; [done|]. exfalso. simpl in H.
  apply cmp_then_Eq_inv in H as [Hw%Z.compare_eq H]. subst w.
  destruct ws as [|w ws]; [done|]. by specialize (IH H Hl).
Qed.

Lemma last_drop (l : list Z) n : drop n l <> [] -> list.last (drop n l) = list.last l.
Proof.
  revert n. induction l as [|x l IH]; intros [|n] H; try done. simpl in *.
  rewrite IH by done. destruct l; [by rewrite drop_nil in H|done].
Qed.

Lemma length_enc ws : list.last ws <> Some sp -> (length ws < length (enc ws))%nat.
Proof.
  remember (length ws) as n eqn:Hn. revert ws Hn. induction n as [n IH] using lt_wf_ind.
  intros ws -> Hl. rewrite enc_eq, !length_app, Collation.length_wbytes, length_segment. cbn [length].
  destruct (decide (drop k ws = [])) as [E|E].
  { apply (f_equal length) in E. rewrite length_drop in E. simpl in E. nia. }
  assert (0 < length (drop k ws) /\ length (drop k ws) = length ws - k)%nat as [H0 Hr].
  { split; [destruct (drop k ws); [done|simpl; lia]|apply length_drop]. }
  specialize (IH (length (drop k ws)) ltac:(lia) _ eq_refl ltac:(by rewrite last_drop)).
  destruct (Collation.cmp_sp sp (drop k ws)) eqn:Hc; [|nia..].
  exfalso. apply E, cmp_sp_Eq; [done|]. by rewrite last_drop.
Qed.

(** One segment, read and classified: the last one gives the weights that are
    left and all but [q] of the added spaces. *)
Lemma segment_step ws q rest :
  list.last ws <> Some sp -> (q <= padding ws)%nat ->
  exists ptr,
    Rd.read seg (enc ws ++ rest) =
      Some (ptr, (match Collation.cmp_sp sp (drop k ws) with Eq => [] | _ => enc (drop k ws) end) ++ rest) /\
    segment_used seg (wlen * q) ptr =
      match Collation.cmp_sp sp (drop k ws) with
      | Eq => Some (Collation.wbytes wlen (ws ++ replicate (padding ws - q) sp), true)
      | _ => Some (Collation.wbytes wlen (take k ws), false)
      end.
Proof.
  intros Hlast Hq. exists (Collation.wbytes wlen (head ws) ++ [flag_byte (Collation.cmp_sp sp (drop k ws))]).
  split.
  { rewrite enc_eq, <- !app_assoc, (app_assoc (Collation.wbytes _ _)). apply Rd.read_app.
    rewrite length_app, Collation.length_wbytes, length_segment. simpl. unfold seg. lia. }
  unfold segment_used, seg. rewrite Nat.sub_succ, Nat.sub_0_r.
  assert (length (Collation.wbytes wlen (head ws)) = (wlen * k)%nat) as Hlen
    by (by rewrite Collation.length_wbytes, length_segment).
  rewrite app_nth2 by lia. rewrite Hlen, Nat.sub_diag. cbn [nth].
  rewrite padding_eq in Hq |- *.
  destruct (Collation.cmp_sp sp (drop k ws)) eqn:E; cbn [flag_byte]; simpl Z.eqb; cbv iota; simpl negb; cbn [andb].
  - assert (drop k ws = []) as Hd.
    { destruct (decide (drop k ws = [])) as [|Hne]; [done|].
      apply cmp_sp_Eq; [done|]. by rewrite last_drop. }
    assert (length ws <= k)%nat as Hl.
    { apply (f_equal length) in Hd. rewrite length_drop in Hd. simpl in Hd. lia. }
    destruct (Nat.ltb_spec (wlen * k) (wlen * q)); [nia|].
    rewrite <- Nat.mul_sub_distr_l, take_app_le by (rewrite Hlen; nia).
    rewrite Collation.wbytes_take. unfold head. rewrite (take_ge ws k) by done.
    rewrite take_app_ge by lia. rewrite take_replicate. do 3 f_equal. do 2 f_equal. lia.
  - rewrite take_app_le, take_ge by lia. unfold head.
    assert (k <= length ws)%nat as Hl.
    { destruct (Nat.le_gt_cases k (length ws)); [done|]. by rewrite drop_ge in E by lia. }
    replace (k - length ws)%nat with 0%nat by lia. by rewrite app_nil_r.
  - rewrite take_app_le, take_ge by lia. unfold head.
    assert (k <= length ws)%nat as Hl.
    { destruct (Nat.le_gt_cases k (length ws)); [done|]. by rewrite drop_ge in E by lia. }
    replace (k - length ws)%nat with 0%nat by lia. by rewrite app_nil_r.
Qed.

(** A weight string that continues after its first segment. *)
Lemma more_segments ws :
  Collation.cmp_sp sp (drop k ws) <> Eq -> list.last ws <> Some sp ->
  padding ws = padding (drop k ws) /\ list.last (drop k ws) <> Some sp /\
  (length (drop k ws) < length ws)%nat.
Proof.
  intros E Hl. rewrite padding_eq.
  assert (drop k ws <> []) as Hne by (intros Hd; by rewrite Hd in E).
  split_and!.
  - by destruct (Collation.cmp_sp sp (drop k ws)).
  - by rewrite last_drop.
  - rewrite length_drop. destruct ws; [by rewrite drop_nil in Hne|simpl; lia].
Qed.

Section Decode.
(** A decoder of segments that turns every weight into its character. *)
Context (nbytes : nat) (fpi : mono_field_packing) (dec : Z -> bytes) (D : Z -> Prop).
Context (Hseg : m_segment_size fpi = seg).
Let str (ws : list Z) : bytes := concat (map dec ws).
Context (Hdec : forall l room, Forall D l -> (length (str l) <= room)%nat ->
  decode_segment nbytes (m_varchar_charset fpi) room (Collation.wbytes wlen l) = Some (str l)).
Context (HDsp : D sp).

Lemma str_app a b : str (a ++ b) = str a ++ str b.
Proof. unfold str. by rewrite map_app, concat_app. Qed.

Lemma unpack_space_pad_enc fuel ws q room rest :
  Forall D ws -> list.last ws <> Some sp -> (q <= padding ws)%nat -> (length ws < fuel)%nat ->
  (length (str (ws ++ replicate (padding ws - q) sp)) <= room)%nat ->
  unpack_space_pad_loop fuel nbytes fpi (wlen * q) room (enc ws ++ rest) =
    Some (str (ws ++ replicate (padding ws - q) sp), rest).
Proof.
  revert ws room. induction fuel as [|fuel IH]; intros ws room HD Hl Hq Hf Hr; [lia|].
  cbn [unpack_space_pad_loop]. rewrite Hseg.
  destruct (segment_step ws q rest Hl Hq) as (ptr & -> & ->).
  destruct (decide (Collation.cmp_sp sp (drop k ws) = Eq)) as [E|E].
  { rewrite E, Hdec; [done| |done]. apply Forall_app. split; [done|by apply Forall_replicate]. }
  destruct (more_segments ws E Hl) as (Hp & Hl' & Hlen). rewrite Hp in *.
  assert (str (ws ++ replicate (padding (drop k ws) - q) sp) =
    str (take k ws) ++ str (drop k ws ++ replicate (padding (drop k ws) - q) sp)) as Hs.
  { by rewrite <- str_app, app_assoc, take_drop. }
  rewrite Hs in *. rewrite length_app in Hr.
  assert (decode_segment nbytes (m_varchar_charset fpi) room (Collation.wbytes wlen (take k ws))
    = Some (str (take k ws))) as Hd by (apply Hdec; [by apply Forall_take|lia]).
  destruct (Collation.cmp_sp sp (drop k ws)); [done|..]; rewrite Hd, IH;
    try done; try lia; by apply Forall_drop.
Qed.
End Decode.

(** The decoder of simple collations: whatever the codec reads for the whole
    weight string, it reads segment by segment. *)
Lemma unpack_simple_enc fpi codec fuel ws q room rest bits out bits' :
  wlen = 1%nat -> m_segment_size fpi = seg -> wok ws ->
  list.last ws <> Some sp -> (q <= padding ws)%nat -> (length ws < fuel)%nat ->
  (length ws + (padding ws - q) <= room)%nat ->
  Codec.mono_read_unpack_simple codec (ws ++ replicate (padding ws - q) sp) (Some bits)
    = Some (out, Some bits') ->
  unpack_simple_space_pad_loop fuel fpi codec (wlen * q) room (enc ws ++ rest) bits
    = Some (out, rest, bits').
Proof.
  intros H1 Hseg. revert ws room bits out. induction fuel as [|fuel IH];
    intros ws room bits out Hok Hl Hq Hf Hr Hread; [lia|].
  cbn [unpack_simple_space_pad_loop]. rewrite Hseg.
  destruct (segment_step ws q rest Hl Hq) as (ptr & -> & ->).
  assert (forall l, wok l -> Collation.wbytes wlen l = l) as Hid.
  { intros l Hl'. unfold wok in Hl'. rewrite H1 in *. by apply Collation.wbytes_1. }
  destruct (decide (Collation.cmp_sp sp (drop k ws) = Eq)) as [E|E].
  { rewrite E, Hid by (apply Forall_app; split; [done|apply spaces_ok]).
    rewrite length_app, length_replicate. rewrite (proj2 (Nat.ltb_ge _ _)) by lia. by rewrite Hread. }
  destruct (more_segments ws E Hl) as (Hp & Hl' & Hlen). rewrite Hp in *.
  assert (ws ++ replicate (padding (drop k ws) - q) sp =
    take k ws ++ (drop k ws ++ replicate (padding (drop k ws) - q) sp)) as Hs.
  { by rewrite app_assoc, take_drop. }
  rewrite Hs, Codec.read_unpack_simple_app in Hread.
  destruct (Codec.mono_read_unpack_simple codec (take k ws) (Some bits)) as [[o1 b1]|] eqn:E1; [|done].
  destruct (Codec.mono_read_unpack_simple codec (drop k ws ++ _) b1) as [[o2 b2]|] eqn:E2; [|done].
  injection Hread as <- ->.
  destruct b1 as [b1|]; [|by apply Codec.read_unpack_simple_some in E1].
  assert (length (take k ws) <= length ws)%nat by (rewrite length_take; lia).
  assert (length (take k ws) + length (drop k ws) = length ws)%nat
    by (rewrite <- length_app; by rewrite take_drop).
  assert (unpack_simple_space_pad_loop fuel fpi codec (wlen * q) (room - length (take k ws))
    (enc (drop k ws) ++ rest) b1 = Some (o2, rest, bits')) as Hrec.
  { apply IH; try done; try lia. by apply Forall_drop. }
  rewrite (Hid (take k ws)) by by apply Forall_take.
  destruct (Collation.cmp_sp sp (drop k ws)); [done|..];
    rewrite (proj2 (Nat.ltb_ge _ _)) by lia; by rewrite E1, Hrec.
Qed.

Lemma enc_ok ws : bytes_ok (enc ws).
Proof.
  unfold enc. generalize (S (length ws)) as fuel. intros fuel. revert ws.
  induction fuel as [|fuel IH]; intros ws; cbn [enc_loop]; [apply bytes_ok_nil|].
  rewrite !bytes_ok_app. split_and!; [apply Collation.wbytes_ok| |].
  - apply bytes_ok_cons. split; [|apply bytes_ok_nil]. by destruct (Collation.cmp_sp sp (drop k ws)).
  - destruct (Collation.cmp_sp sp (drop k ws)); [apply bytes_ok_nil|apply IH|apply IH].
Qed.

(** Length of an encoding: at most a segment more than the weights fill. *)
Lemma enc_length ws :
  length (enc ws) =
    (seg + match Collation.cmp_sp sp (drop k ws) with Eq => 0 | _ => length (enc (drop k ws)) end)%nat.
Proof.
  rewrite enc_eq, !length_app, Collation.length_wbytes, length_segment. unfold seg. cbn [length].
  destruct (Collation.cmp_sp sp (drop k ws)); simpl length; lia.
Qed.

Lemma enc_length_le ws : (length (enc ws) <= (length ws / k + 1) * seg)%nat.
Proof.
  remember (length ws) as n eqn:Hn. revert ws Hn. induction n as [n IH] using lt_wf_ind. intros ws ->.
  rewrite enc_length. destruct (drop k ws) as [|w r] eqn:E; [simpl; nia|].
  assert (k < length ws /\ length (w :: r) = length ws - k)%nat as [Hl Hr].
  { apply (f_equal length) in E. rewrite length_drop in E. simpl length in *. lia. }
  specialize (IH (length (w :: r)) ltac:(lia) (w :: r) eq_refl). rewrite Hr in IH.
  assert (length ws / k = S ((length ws - k) / k))%nat as Hd.
  { replace (length ws) with (length ws - k + 1 * k)%nat at 1 by lia. rewrite Nat.div_add by lia. lia. }
  rewrite Hd. destruct (Collation.cmp_sp sp (w :: r)); nia.
Qed.

(** The skip function skips exactly an encoding. *)
Lemma skip_space_pad_enc fuel ws dst_len rest :
  (length (enc ws) <= fuel)%nat -> Z.of_nat (wlen * length ws) <= dst_len ->
  skip_space_pad_loop fuel seg dst_len (enc ws ++ rest) = Some rest.
Proof.
  revert ws dst_len. induction fuel as [|fuel IH]; intros ws dst_len Hf Hd;
    pose proof (enc_length ws) as Hle; [unfold seg in Hle; lia|].
  cbn [skip_space_pad_loop]. rewrite enc_eq, <- !app_assoc, (app_assoc (Collation.wbytes _ _)).
  assert (length (Collation.wbytes wlen (head ws)) = (wlen * k)%nat) as Hlen
    by (by rewrite Collation.length_wbytes, length_segment).
  rewrite Rd.read_app by (rewrite length_app, Hlen; simpl; unfold seg; lia).
  unfold seg in *. rewrite Nat.sub_succ, Nat.sub_0_r, app_nth2, Hlen, Nat.sub_diag by lia. cbn [nth].
  destruct (drop k ws) as [|w r] eqn:Hr; [done|].
  assert (k < length ws /\ length (w :: r) = length ws - k)%nat as [Hkl Hlr].
  { apply (f_equal length) in Hr. rewrite length_drop in Hr. simpl length in *. lia. }
  destruct (Collation.cmp_sp sp (w :: r)); cbn [flag_byte]; simpl Z.eqb; cbv iota; simpl orb; cbv iota; [done|..].
  all: destruct (Z.ltb_spec dst_len (Z.of_nat (wlen * k))); [nia|]; apply IH; [lia|]; rewrite Hlr; nia.
Qed.

End SpacePad.
End SpacePad.
