(* ===== verification/Varchar.v ===== *)
(** * Varchar: VARCHAR columns in PAD SPACE collations

    The keys of VARCHAR columns against the interface [PadSpace] of
    collations: their order is the order of the collation's comparison
    function, and for collations whose weights determine the characters
    ([Restorable]: the _bin collations) unpacking restores the value, its
    trailing spaces included. *)

From S2P Require Import Prelude Buff Charset Latin1 Collation Field Codec Packing VarFormat SpacePad.
Import Field Packing.

Module Varchar.

(** ** Restoring characters from weights *)

(** [D]: the weights the collation gives; [dec]: the character of a weight. *)
Class Restorable (cs : Collation.CHARSET_INFO) (wlen : nat) (sp : Z)
    (weights : bytes -> option (list Z)) (D : Z -> Prop) (dec : Z -> bytes) := {
  rs_pad : Collation.PadSpace cs wlen sp weights;
  rs_D s ws : bytes_ok s -> weights s = Some ws -> Forall D ws;
  rs_D_sp : D sp;
  rs_dec_sp : dec sp = [uchar_of (Collation.pad_char cs)];
  (** The characters of the weights are the string. *)
  rs_str s ws : bytes_ok s -> weights s = Some ws -> concat (map dec ws) = s;
  (** The unpack template turns the image of weights into their characters. *)
  rs_decode l room : Forall D l -> (length (concat (map dec l)) <= room)%nat ->
    decode_segment wlen cs room (Collation.wbytes wlen l) = Some (concat (map dec l));
  (** A trimmed string does not end in the weight of the space. *)
  rs_trimmed s ws : bytes_ok s -> weights (take (Collation.lengthsp cs s) s) = Some ws ->
    list.last ws <> Some sp
}.

(** *** UTF-8 *)

Definition utf8_enc (wc : Z) : bytes :=
  match Charset.my_wc_mb_utf8mb4 wc 4 with Charset.WC out => out | Charset.WC_ERR _ => [] end.

Lemma wc_mb_utf8_enc wc room :
  0 <= wc < 1114112 -> (length (utf8_enc wc) <= room)%nat ->
  Charset.my_wc_mb_utf8mb4 wc room = Charset.WC (utf8_enc wc) /\ (1 <= length (utf8_enc wc))%nat.
Proof.
  intros Hwc. unfold utf8_enc, Charset.my_wc_mb_utf8mb4. simpl Nat.eqb. cbv iota.
  destruct (Z.ltb_spec wc 128); [|destruct (Z.ltb_spec wc 2048);
    [|destruct (Z.ltb_spec wc 65536); [|destruct (Z.ltb_spec wc 2097152); [|lia]]]];
    cbv zeta; change (4 <? 1)%nat with false; change (4 <? 2)%nat with false;
    change (4 <? 3)%nat with false; change (4 <? 4)%nat with false; cbv iota; rewrite ?Charset.wc_case2_eq, ?Charset.wc_case3_eq, ?Charset.wc_case4_eq by lia;
    cbn [length]; intros Hr;
    destruct (Nat.eqb_spec room 0); try lia;
    match goal with |- context [(room <? ?n)%nat] => destruct (Nat.ltb_spec room n) end; try lia; split; done || lia.
Qed.

Lemma code_points_str mb4 s ws :
  bytes_ok s -> Collation.code_points (Collation.utf8_mb_wc mb4) s = Some ws ->
  concat (map utf8_enc ws) = s.
Proof.
  revert s ws. apply (Collation.code_points_ind mb4 (fun s ws => concat (map utf8_enc ws) = s)); [done|].
  intros s n wc ws Hs _ E _ IH. simpl. rewrite IH.
  destruct (Charset.mb_wc_utf8mb4_inv s n wc Hs (Collation.utf8_mb_wc_mb4 _ _ _ _ E)) as (Hwc & Hn & Hl & He).
  unfold utf8_enc. rewrite (Charset.wc_mb_utf8mb4_room wc n 4 _ He) by lia. apply take_drop.
Qed.

(** The wide character at the front of an image. *)
Lemma image_wc_wbytes nbytes w l :
  nbytes = 2%nat \/ nbytes = 3%nat -> 0 <= w < 256 ^ Z.of_nat nbytes ->
  image_wc nbytes (Collation.wbytes nbytes (w :: l)) = w.
Proof.
  intros [-> | ->] Hw; rewrite Collation.wbytes_cons; unfold image_wc; simpl Nat.eqb; cbv iota;
    cbn [be_bytes app nth]; rewrite !Z.shiftl_mul_pow2 by lia;
    change (2 ^ 8) with 256; change (2 ^ 16) with 65536; simpl Z.of_nat in *;
    change (256 ^ 0) with 1; change (256 ^ 1) with 256; change (256 ^ 2) with 65536 in *;
    change (256 ^ 3) with 16777216 in *; rewrite Z.div_1_r.
  - rewrite (Charset.lor_hi 8) by dlia. dlia.
  - rewrite (Charset.lor_hi 16 (_ * 65536)), (Charset.lor_hi 8) by dlia. dlia.
Qed.

Lemma unpack_weights_utf8 nbytes (wc_mb : Z -> nat -> Charset.wc_res) (D : Z -> Prop) l fuel room :
  nbytes = 2%nat \/ nbytes = 3%nat ->
  (forall w, D w -> 0 <= w < 1114112 /\ 0 <= w < 256 ^ Z.of_nat nbytes) ->
  (forall w room, D w -> (room <> 0)%nat -> wc_mb w room = Charset.my_wc_mb_utf8mb4 w room) ->
  Forall D l -> (length l <= fuel)%nat -> (length (concat (map utf8_enc l)) <= room)%nat ->
  unpack_weights_loop fuel nbytes wc_mb room (Collation.wbytes nbytes l) = Some (concat (map utf8_enc l)).
Proof.
  intros Hn HD Hmb. revert fuel room. induction l as [|w l IH]; intros fuel room Hl Hf Hr; [by destruct fuel|].
  apply Forall_cons_iff in Hl as [Hw Hl]. destruct (HD w Hw) as [Hw1 Hw2].
  destruct fuel as [|fuel]; [simpl in Hf; lia|]. simpl in Hr. rewrite length_app in Hr.
  destruct (wc_mb_utf8_enc w room Hw1 ltac:(lia)) as [Hwc Hlen].
  cbn [unpack_weights_loop].
  destruct (Collation.wbytes nbytes (w :: l)) as [|b bs] eqn:E.
  { apply (f_equal length) in E. rewrite Collation.length_wbytes in E. simpl in E. destruct Hn; lia. }
  rewrite <- E, image_wc_wbytes, Hmb, Hwc by (done || lia).
  replace (drop nbytes (Collation.wbytes nbytes (w :: l))) with (Collation.wbytes nbytes l).
  2: { rewrite Collation.wbytes_cons, drop_app_length'; [done|by rewrite length_be_bytes]. }
  rewrite IH by (done || simpl in *; lia). done.
Qed.

(** A trimmed UTF-8 string does not end in the code point of the space. *)
Lemma code_points_last mb4 s ws :
  bytes_ok s -> Collation.code_points (Collation.utf8_mb_wc mb4) s = Some ws ->
  list.last ws = Some 32 -> list.last s = Some 32.
Proof.
  revert s ws. apply (Collation.code_points_ind mb4
    (fun s ws => list.last ws = Some 32 -> list.last s = Some 32)); [done|].
  intros s n wc ws Hs Hne E E' IH Hl. destruct ws as [|w ws].
  - injection Hl as ->. destruct (Collation.utf8_mb_wc_inv _ _ _ _ Hs E) as (_ & Hn & H32 & _).
    destruct (H32 eq_refl) as (r & -> & ->). simpl in E'. rewrite drop_0 in E'.
    destruct r as [|c r]; [done|]. exfalso.
    destruct (Collation.code_points_cons mb4 c r [] ltac:(by apply bytes_ok_cons in Hs as [_ ?]) E')
      as (? & ? & ? & _ & ? & _). done.
  - specialize (IH Hl). destruct (drop n s) eqn:Ed; [done|].
    rewrite <- Ed, SpacePad.last_drop in IH by (by rewrite Ed). done.
Qed.

#[export] Instance restorable_latin1_bin :
  Restorable Collation.my_charset_latin1_bin 1 32 (fun s => Some s) byte_ok (fun w => [w]).
Proof.
  assert (forall l : list Z, concat (map (fun w => [w]) l) = l) as Hc by (induction l; simpl; congruence).
  split.
  - exact Collation.padspace_latin1_bin.
  - by intros s ws Hs [= <-].
  - unfold byte_ok. lia.
  - done.
  - intros s ws _ [= <-]. apply Hc.
  - intros l room Hl. rewrite !Hc. intros Hr. unfold decode_segment. simpl (1 <? 1)%nat. cbv iota.
    rewrite Collation.wbytes_1 by done. by rewrite (proj2 (Nat.ltb_ge room (length l))) by lia.
  - intros s ws _ [= <-]. apply Collation.trimmed_length_last.
Qed.

Lemma utf8_decode_segment nbytes cs (D : Z -> Prop) l room :
  nbytes = 2%nat \/ nbytes = 3%nat ->
  (forall w, D w -> 0 <= w < 1114112 /\ 0 <= w < 256 ^ Z.of_nat nbytes) ->
  (forall w room, D w -> (room <> 0)%nat ->
     Collation.wc_mb cs w room = Charset.my_wc_mb_utf8mb4 w room) ->
  Forall D l -> (length (concat (map utf8_enc l)) <= room)%nat ->
  decode_segment nbytes cs room (Collation.wbytes nbytes l) = Some (concat (map utf8_enc l)).
Proof.
  intros Hn HD Hmb Hl Hr. unfold decode_segment.
  destruct (Nat.ltb_spec 1 nbytes); [|destruct Hn; lia].
  assert (check_src_len nbytes (length (Collation.wbytes nbytes l)) = true) as ->.
  { rewrite Collation.length_wbytes. unfold check_src_len. destruct Hn as [-> | ->].
    - change (2 =? 2)%nat with true. cbv iota. by rewrite Nat.odd_mul.
    - change (3 =? 2)%nat with false. cbv iota. by rewrite Nat.mul_comm, Nat.Div0.mod_mul. }
  apply (unpack_weights_utf8 _ _ D); try done. rewrite Collation.length_wbytes. destruct Hn; nia.
Qed.

#[export] Instance restorable_utf8mb3_bin :
  Restorable Collation.my_charset_utf8mb3_bin 2 32 (Collation.code_points (Collation.utf8_mb_wc false))
    (fun w => 0 <= w < 65536) utf8_enc.
Proof.
  split.
  - exact Collation.padspace_utf8mb3_bin.
  - intros s ws Hs H. exact (Collation.code_points_bound false s ws Hs H).
  - lia.
  - done.
  - apply code_points_str.
  - intros l room Hl Hr. apply (utf8_decode_segment 2 _ (fun w => 0 <= w < 65536)); try done.
    + by left.
    + intros w Hw. change (256 ^ Z.of_nat 2) with 65536. lia.
    + intros w r Hw Hr'. by apply Charset.uni_utf8mb3_mb4.
  - intros s ws Hs H Hl. apply code_points_last in H; [|apply bytes_ok_take, Hs|done].
    by apply Collation.trimmed_length_last in H.
Qed.

#[export] Instance restorable_utf8mb4_bin :
  Restorable Collation.my_charset_utf8mb4_bin 3 32 (Collation.code_points (Collation.utf8_mb_wc true))
    (fun w => 0 <= w < 1114112) utf8_enc.
Proof.
  split.
  - exact Collation.padspace_utf8mb4_bin.
  - intros s ws Hs H. exact (Collation.code_points_bound true s ws Hs H).
  - lia.
  - done.
  - apply code_points_str.
  - intros l room Hl Hr. apply (utf8_decode_segment 3 _ (fun w => 0 <= w < 1114112)); try done.
    + by right.
    + intros w Hw. change (256 ^ Z.of_nat 3) with 16777216. lia.
  - intros s ws Hs H Hl. apply code_points_last in H; [|apply bytes_ok_take, Hs|done].
    by apply Collation.trimmed_length_last in H.
Qed.

(** ** Columns *)

(** What [mono_field_packing::setup] establishes for a space-padded VARCHAR:
    [k] weights of [wlen] bytes per segment, and at least as many spaces in
    [space_xfrm]. *)
Record space_pad_setup (fpi : mono_field_packing) (field : Field) (wlen k nsp : nat) (sp : Z) : Prop := {
  sps_k : (0 < k <= 8)%nat;
  sps_nsp : (k <= nsp)%nat;
  sps_segment : m_segment_size fpi = S (wlen * k);
  sps_space : space_xfrm fpi = Collation.wbytes wlen (replicate nsp sp);
  sps_space_xfrm_len : space_xfrm_len fpi = wlen;
  sps_space_mb_len : space_mb_len fpi = 1%nat;
  sps_image : (wlen * char_length field <= m_max_image_len fpi)%nat;
  sps_chunks : ((char_length field / k + 1) * S (wlen * k) <= m_max_image_len fpi)%nat;
  sps_stores : m_unpack_info_stores_value fpi = false;
  sps_two_bytes : m_unpack_info_uses_two_bytes fpi = (256 <=? Z.of_nat (field_length field) + 8);
  sps_length : Z.of_nat (field_length field) + 8 < 65536
}.

Arguments sps_k {_ _ _ _ _ _}.
Arguments sps_nsp {_ _ _ _ _ _}.
Arguments sps_segment {_ _ _ _ _ _}.
Arguments sps_space {_ _ _ _ _ _}.
Arguments sps_space_xfrm_len {_ _ _ _ _ _}.
Arguments sps_space_mb_len {_ _ _ _ _ _}.
Arguments sps_image {_ _ _ _ _ _}.
Arguments sps_chunks {_ _ _ _ _ _}.
Arguments sps_stores {_ _ _ _ _ _}.
Arguments sps_two_bytes {_ _ _ _ _ _}.
Arguments sps_length {_ _ _ _ _ _}.

(** A well-formed VARCHAR value in a record. *)
Record varchar_ok (weights : bytes -> option (list Z)) (field : Field) (rec : bytes) : Prop := {
  vo_bytes : bytes_ok rec;
  vo_length_bytes : length_bytes field = 1%nat \/ length_bytes field = 2%nat;
  vo_pack_length : pack_length field = (length_bytes field + field_length field)%nat;
  vo_fits : (ptr field + pack_length field <= length rec)%nat;
  vo_length : (varstring_length field (data field rec) <= field_length field)%nat;
  vo_chars : exists ws, weights (varstring_data field (data field rec)) = Some ws /\
               (length ws <= char_length field)%nat
}.

Arguments vo_bytes {_ _ _}.
Arguments vo_length_bytes {_ _ _}.
Arguments vo_pack_length {_ _ _}.
Arguments vo_fits {_ _ _}.
Arguments vo_length {_ _ _}.
Arguments vo_chars {_ _ _}.

Lemma varstring_data_ok weights field rec :
  varchar_ok weights field rec -> bytes_ok (varstring_data field (data field rec)).
Proof. intros H. unfold varstring_data, data. pose proof (vo_bytes H). auto with bytes. Qed.

Lemma varstring_data_length weights field rec :
  varchar_ok weights field rec ->
  length (varstring_data field (data field rec)) = varstring_length field (data field rec).
Proof.
  intros H. unfold varstring_data. rewrite length_take.
  pose proof (vo_length H). pose proof (vo_fits H). pose proof (vo_pack_length H).
  unfold data in *. rewrite !length_drop. lia.
Qed.

(** The weights of the value without its trailing spaces: how
    [pack_with_varchar_space_pad] encodes them. *)
Lemma pack_space_pad_enc fpi field rec w wlen k nsp sp weights
    `{Hps : !Collation.PadSpace (charset field) wlen sp weights} :
  space_pad_setup fpi field wlen k nsp sp -> varchar_ok weights field rec ->
  let value := varstring_data field (data field rec) in
  let t := Collation.lengthsp (charset field) value in
  exists ws wt,
    weights value = Some ws /\ weights (take t value) = Some wt /\
    (t <= length value)%nat /\ ws = wt ++ replicate (length value - t) sp /\
    (length ws <= char_length field)%nat /\ Collation.weights_ok wlen wt /\
    do_pack_with_varchar_space_pad fpi field rec w =
      (SpacePad.enc wlen k sp wt,
       match w with
       | Some u =>
           let removed := removed_chars (length value) t (wlen * SpacePad.padding k sp wt) 1 wlen in
           Some (if m_unpack_info_uses_two_bytes fpi then Rd.write_uint16 removed u
                 else Rd.write_uint8 removed u)
       | None => None
       end).
Proof.
  intros Hs Hv value t.
  pose proof (varstring_data_ok _ _ _ Hv) as Hok. fold value in Hok.
  destruct (vo_chars Hv) as (ws & Hws & Hlen). fold value in Hws.
  destruct (Collation.ps_lengthsp value ws Hok Hws) as (Ht & wt & Hwt & Happ).
  assert (bytes_ok (take t value)) as Hokt by (auto with bytes).
  pose proof (Collation.ps_weights_ok _ _ Hokt Hwt) as Hwok.
  exists ws, wt. split_and!; try done.
  assert (length wt <= length ws)%nat by (rewrite Happ, length_app; lia).
  unfold do_pack_with_varchar_space_pad. fold value. fold t.
  rewrite (Collation.ps_strnxfrm _ wt); [|done|done|lia|pose proof (sps_image Hs); nia].
  rewrite (sps_segment Hs), (sps_space Hs).
  pose proof (Collation.ps_wlen (cs := charset field)). pose proof (sps_k Hs).
  rewrite SpacePad.space_pad_enc; [|lia|lia|apply (sps_nsp Hs)|apply Collation.ps_sp|done].
  rewrite (sps_stores Hs), (sps_space_mb_len Hs), (sps_space_xfrm_len Hs).
  rewrite <- (varstring_data_length _ _ _ Hv). done.
Qed.

(** Byte order of the keys of a VARCHAR column, whatever follows them, is the
    order of [Field_varstring::cmp]. *)
Lemma mem_cmp_varchar fpi field w wlen k nsp sp weights
    `{Hps : !Collation.PadSpace (charset field) wlen sp weights} :
  space_pad_setup fpi field wlen k nsp sp ->
  MemCmp (varchar_ok weights field) (fun rec => (do_pack_with_varchar_space_pad fpi field rec w).1)
    (fun a b => varstring_cmp field (data field a) (data field b)).
Proof.
  intros Hs x y r s Hx Hy.
  destruct (pack_space_pad_enc fpi field x w wlen k nsp sp weights Hs Hx)
    as (wx & tx & Ex & Etx & _ & Ax & _ & Ox & ->).
  destruct (pack_space_pad_enc fpi field y w wlen k nsp sp weights Hs Hy)
    as (wy & ty & Ey & Ety & _ & Ay & _ & Oy & ->).
  cbn [fst]. pose proof (Collation.ps_wlen (cs := charset field)).
  destruct (sps_k Hs) as [Hk _].
  rewrite (SpacePad.mem_cmp_enc wlen k sp nsp Collation.ps_wlen Hk (sps_nsp Hs) Collation.ps_sp tx ty r s)
    by done.
  f_equal. unfold varstring_cmp.
  rewrite !Nat.min_l by (apply (vo_length Hx) || apply (vo_length Hy)).
  fold (varstring_data field (data field x)). fold (varstring_data field (data field y)).
  rewrite (Collation.ps_strnncollsp _ _ wx wy); try done; try (by eapply varstring_data_ok).
  by rewrite Ax, Ay, Collation.pad_cmp_app_l, Collation.pad_cmp_app_r.
Qed.

(** *** The number of removed spaces *)

(** The number is stored without loss. *)
Lemma removed_roundtrip fpi field wlen k nsp sp value_length t pad u :
  space_pad_setup fpi field wlen k nsp sp -> (0 < wlen)%nat ->
  (t <= value_length <= field_length field)%nat -> (pad <= k)%nat ->
  let removed := removed_chars value_length t (wlen * pad) 1 wlen in
  exists info,
    (if m_unpack_info_uses_two_bytes fpi then Rd.write_uint16 removed u else Rd.write_uint8 removed u)
      = u ++ info /\
    bytes_ok info /\
    (forall urest, read_removed fpi (info ++ urest) = Some (removed, urest)) /\
    removed = 8 + Z.of_nat (value_length - t) - Z.of_nat pad.
Proof.
  intros Hs Hw Ht Hp removed. pose proof (sps_k Hs) as Hk. pose proof (sps_length Hs) as Hl.
  assert (removed = 8 + Z.of_nat (value_length - t) - Z.of_nat pad) as Er.
  { unfold removed, removed_chars, mono_TRIMMED_CHARS_OFFSET, ulonglong_of.
    rewrite Nat.div_1_r, (Nat.mul_comm wlen), Nat.div_mul by lia.
    apply Z.mod_small. change (2 ^ 64) with 18446744073709551616. lia. }
  unfold read_removed. rewrite (sps_two_bytes Hs).
  destruct (Z.leb_spec 256 (Z.of_nat (field_length field) + 8)).
  - pose proof (fun urest => Rd.read_uint16_write u removed urest ltac:(lia)) as E.
    unfold Rd.write_uint16 in *. setoid_rewrite drop_app_length in E.
    eexists. split_and!; [done|auto with bytes|done|done].
  - pose proof (fun urest => Rd.read_uint8_write u removed urest ltac:(lia)) as E.
    unfold Rd.write_uint8 in *. setoid_rewrite drop_app_length in E.
    eexists. split_and!; [done| |done|done].
    apply bytes_ok_cons. split; [apply uchar_of_ok|apply bytes_ok_nil].
Qed.

Lemma split_removed_eq fpi field wlen k nsp sp n pad :
  space_pad_setup fpi field wlen k nsp sp ->
  split_removed fpi (8 + Z.of_nat n - Z.of_nat pad) = ((wlen * (pad - n))%nat, (n - pad)%nat).
Proof.
  intros Hs. unfold split_removed, mono_TRIMMED_CHARS_OFFSET. rewrite (sps_space_xfrm_len Hs).
  destruct (Z.leb_spec (8 + Z.of_nat n - Z.of_nat pad) 8); f_equal;
    try (rewrite Nat.mul_comm; f_equal); lia.
Qed.

(** Unpacking restores a packed value, and consumes exactly the key and the
    unpack info that were produced. *)
Lemma varchar_restored fpi field rec rec' w0 rest urest wlen k nsp sp weights D dec
    `{Hrs : !Restorable (charset field) wlen sp weights D dec} :
  space_pad_setup fpi field wlen k nsp sp -> varchar_ok weights field rec ->
  m_varchar_charset fpi = charset field ->
  exists key info,
    do_pack_with_varchar_space_pad fpi field rec (Some w0) = (key, Some (w0 ++ info)) /\
    unpack_varchar_space_pad_templ wlen fpi field rec' (key ++ rest) (info ++ urest) =
      Some (store_varstring field (varstring_data field (data field rec)) rec', rest, urest).
Proof.
  intros Hs Hv Hcs. pose proof rs_pad as Hps.
  destruct (pack_space_pad_enc fpi field rec (Some w0) wlen k nsp sp weights Hs Hv)
    as (ws & wt & Ews & Ewt & Ht & Happ & Hlen & Hwok & ->).
  set (value := varstring_data field (data field rec)) in *.
  set (t := Collation.lengthsp (charset field) value) in *.
  pose proof (varstring_data_ok _ _ _ Hv) as Hok. fold value in Hok.
  pose proof (Collation.ps_wlen (cs := charset field)) as Hw. destruct (sps_k Hs) as [Hk Hk8].
  pose proof (SpacePad.padding_le wlen k sp nsp Hw Hk (sps_nsp Hs) wt) as Hpad.
  assert (length value <= field_length field)%nat as Hvl.
  { unfold value. rewrite (varstring_data_length _ _ _ Hv). apply (vo_length Hv). }
  destruct (removed_roundtrip fpi field wlen k nsp sp (length value) t
    (SpacePad.padding k sp wt) w0 Hs Hw ltac:(lia) Hpad) as (info & Ei & _ & Er & Erem).
  cbv zeta in *. exists (SpacePad.enc wlen k sp wt), info. rewrite Ei. split; [done|].
  unfold unpack_varchar_space_pad_templ. rewrite Er.
  set (pad := SpacePad.padding k sp wt) in *. set (n := (length value - t)%nat) in *.
  rewrite Erem, (split_removed_eq fpi field wlen k nsp sp n pad Hs).
  assert (concat (map dec (wt ++ replicate (pad - (pad - n)) sp)) ++ replicate (n - pad)
    (uchar_of (Collation.pad_char (charset field))) = value) as Hval.
  { rewrite <- (rs_str value ws Hok Ews), Happ, !map_app, !concat_app, <- app_assoc. f_equal.
    assert (forall j, concat (map dec (replicate j sp)) =
      replicate j (uchar_of (Collation.pad_char (charset field)))) as Hrep.
    { induction j as [|j IHj]; [done|]. simpl. rewrite IHj, rs_dec_sp. done. }
    rewrite !Hrep, <- replicate_add. f_equal. lia. }
  rewrite (vo_pack_length Hv). replace (length_bytes field + field_length field - length_bytes field)%nat
    with (field_length field) by lia.
  assert (length (concat (map dec (wt ++ replicate (pad - (pad - n)) sp))) + (n - pad) = length value)%nat as Hl.
  { apply (f_equal length) in Hval. by rewrite length_app, length_replicate in Hval. }
  rewrite (SpacePad.unpack_space_pad_enc wlen k sp nsp Hw Hk (sps_nsp Hs) wlen fpi dec D).
  - cbv beta. fold pad. rewrite (proj2 (Nat.ltb_ge _ _)) by lia. rewrite Hcs, Hval. done.
  - apply (sps_segment Hs).
  - intros l room Hl' Hr. rewrite Hcs. by apply rs_decode.
  - apply rs_D_sp.
  - by apply (rs_D (take t value)); [auto with bytes|].
  - by apply (rs_trimmed value).
  - unfold pad. lia.
  - rewrite length_app. pose proof (SpacePad.length_enc wlen k sp nsp Hw Hk (sps_nsp Hs) wt (rs_trimmed value wt Hok Ewt)). lia.
  - cbv beta. fold pad. lia.
Qed.

(** *** Simple collations *)

(** Bytes of weights: a table of byte weights under which the space is the
    only byte of its weight. *)
Record simple_table (so : Z -> Z) : Prop := {
  st_ok c : byte_ok c -> byte_ok (so c);
  st_space c : byte_ok c -> so c = so 32 -> c = 32
}.

Lemma map_trimmed_last so s :
  simple_table so -> bytes_ok s ->
  list.last (map so (take (Charset.trimmed_length s) s)) <> Some (so 32).
Proof.
  intros Hso Hs Hl. pose proof (Collation.trimmed_length_last s) as Ht.
  assert (bytes_ok (take (Charset.trimmed_length s) s)) as Hok by auto with bytes.
  destruct (take (Charset.trimmed_length s) s) as [|c l] eqn:E using rev_ind; [done|].
  rewrite map_app in Hl. cbn [map] in Hl. rewrite last_snoc in Hl, Ht. injection Hl as Hl.
  apply Forall_app in Hok as [_ Hc]. apply Forall_cons_iff in Hc as [Hc _].
  apply Ht. f_equal. by apply (st_space so Hso).
Qed.

Lemma simple_varchar_restored fpi field rec rec' w0 rest urest k nsp so codec
    `{Hps : !Collation.PadSpace (charset field) 1 (so 32) (fun s => Some (map so s))} :
  space_pad_setup fpi field 1 k nsp (so 32) ->
  varchar_ok (fun s => Some (map so s)) field rec ->
  simple_table so -> Codec.codec_for codec so -> Codec.m_enc_size codec 32 = 0 ->
  Collation.lengthsp (charset field) = Charset.trimmed_length ->
  uchar_of (Collation.pad_char (charset field)) = 32 ->
  m_charset_codec fpi = Some codec -> bytes_ok w0 -> bytes_ok urest ->
  exists key w1 info,
    do_pack_with_varchar_space_pad fpi field rec (Some w0) = (key, Some w1) /\
    call_make_unpack_info make_unpack_simple_varchar (Some codec) field rec w1 = Some (w0 ++ info) /\
    do_unpack_simple_varchar_space_pad fpi field rec' (key ++ rest) (info ++ urest) =
      Some (store_varstring field (varstring_data field (data field rec)) rec', rest, urest).
Proof.
  intros Hs Hv Hso Hcodec Hsz Hlsp Hpc Hmc H0 Hur.
  destruct (pack_space_pad_enc fpi field rec (Some w0) 1 k nsp _ _ Hs Hv)
    as (ws & wt & Ews & Ewt & Ht & Happ & Hlen & Hwok & ->).
  rewrite Hlsp in *. injection Ews as <-. injection Ewt as <-. rewrite length_map in Hlen.
  set (value := varstring_data field (data field rec)) in *.
  pose proof (varstring_data_ok _ _ _ Hv) as Hok. fold value in Hok.
  pose proof (varstring_data_length _ _ _ Hv) as Hvl. fold value in Hvl.
  assert (length value <= field_length field)%nat as Hfl by (pose proof (vo_length Hv); lia).
  pose proof (Collation.trimmed_length_split value) as Hval.
  set (t := Charset.trimmed_length value) in *. set (n := (length value - t)%nat) in *.
  set (wt := map so (take t value)) in *. destruct (sps_k Hs) as [Hk Hk8].
  pose proof (SpacePad.padding_le 1 k (so 32) nsp ltac:(lia) Hk (sps_nsp Hs) wt) as Hpad.
  destruct (removed_roundtrip fpi field 1 k nsp (so 32) (length value) t (SpacePad.padding k (so 32) wt)
    w0 Hs ltac:(lia) ltac:(lia) Hpad) as (info & Ei & Hinfo & Er & Erem).
  set (pad := SpacePad.padding k (so 32) wt) in *. cbv zeta in *. fold n in Erem.
  set (src := take t value ++ replicate (pad - (pad - n)) 32).
  assert (bytes_ok src) as Hsrc.
  { apply bytes_ok_app; split; [auto with bytes|]. apply bytes_ok_replicate. unfold byte_ok. lia. }
  destruct (Codec.codec_roundtrip codec so src (w0 ++ info) urest Hcodec Hsrc
    ltac:(by apply bytes_ok_app) Hur) as (w & added & Ew & Ed & r & Eread & Erest).
  eexists _, _, (info ++ added). split; [done|]. rewrite Ei. split.
  { cbn [call_make_unpack_info]. unfold do_make_unpack_simple_varchar. cbv zeta. rewrite <- Hvl, Nat.min_r by lia.
    replace (take (length value) _) with value.
    2: { rewrite Hvl. done. }
    rewrite Hval, Codec.write_unpack_simple_zero by done.
    unfold src in Ew. rewrite Codec.write_unpack_simple_zero in Ew by done.
    rewrite Ew. simpl. by rewrite Ed, app_assoc. }
  unfold do_unpack_simple_varchar_space_pad. rewrite Hmc, <- app_assoc, Er, Erem.
  rewrite (split_removed_eq fpi field 1 k nsp (so 32) n pad Hs), (vo_pack_length Hv).
  replace (length_bytes field + field_length field - length_bytes field)%nat with (field_length field) by lia.
  pose proof (map_trimmed_last so value Hso Hok) as Hlast. fold t wt in Hlast.
  assert (length wt + (pad - (pad - n)) + (n - pad) = length value)%nat as Hl.
  { unfold wt. rewrite length_map, length_take. lia. }
  rewrite (SpacePad.unpack_simple_enc 1 k (so 32) nsp ltac:(lia) Hk (sps_nsp Hs) Collation.ps_sp
    fpi codec _ wt _ _ rest _ src r).
  - assert (length src = length wt + (pad - (pad - n)))%nat as El.
    { unfold src, wt. by rewrite length_app, length_replicate, length_map. }
    rewrite (proj2 (Nat.ltb_ge _ _)) by lia. rewrite Erest, Hpc. repeat f_equal.
    unfold src. rewrite <- app_assoc, <- replicate_add. replace (pad - (pad - n) + (n - pad))%nat with n by lia. by symmetry.
  - done.
  - apply (sps_segment Hs).
  - done.
  - done.
  - fold pad. lia.
  - rewrite length_app. pose proof (SpacePad.length_enc 1 k (so 32) nsp ltac:(lia) Hk (sps_nsp Hs) wt Hlast). lia.
  - fold pad. lia.
  - fold pad. rewrite <- Eread. f_equal. unfold src, wt. rewrite map_app. f_equal. symmetry. apply (fmap_replicate so).
Qed.

End Varchar.
