(* ===== verification/KeySetup.v ===== *)
(** * KeySetup: how a key part is packed

    [mono_field_packing::setup] of eloq_key_def.cc chooses the functions that
    pack, skip and unpack a key part from the type and the collation of its
    column, with the helpers it calls ([mono_get_mem_comparable_space],
    [get_segment_size_from_collation]).  The theorems show that the choice
    meets what the encoders of VARCHAR columns rely on. *)

From S2P Require Import Prelude Buff Charset Latin1 Collation Field Codec Packing VarFormat SpacePad.
From S2P Require Import Varchar.
Import Field Packing Varchar.

Module KeySetup.

(** ** Spaces *)

Definition mono_SPACE_XFRM_SIZE : nat := 32.
Definition MAX_MULTI_BYTE_CHAR_SIZE : nat := 4.

(** Each iteration of the while loop inserts [space]. *)
Fixpoint spaces_loop (fuel : nat) (space spaces_xfrm : bytes) : bytes :=
  match fuel with
  | O => spaces_xfrm
  | S fuel =>
      if (length spaces_xfrm <? mono_SPACE_XFRM_SIZE)%nat
      then spaces_loop fuel space (spaces_xfrm ++ space)
      else spaces_xfrm
  end.

(** [spaces_xfrm], [space_xfrm_len] and [space_mb_len].  The array
    [mono_mem_comparable_space] only caches the result for the character set.
    [None]: the pad character has no encoding. *)
Definition mono_get_mem_comparable_space (cs : Collation.CHARSET_INFO) : option (bytes * nat * nat) :=
  match Collation.wc_mb cs (Collation.pad_char cs) MAX_MULTI_BYTE_CHAR_SIZE with
  | Charset.WC space_mb =>
      let space := Collation.strnxfrm cs 20 1 space_mb 0 in
      Some (spaces_loop mono_SPACE_XFRM_SIZE space [], length space, length space_mb)
  | Charset.WC_ERR _ => None
  end.

Definition get_segment_size_from_collation (cs : Collation.CHARSET_INFO) : nat :=
  if Collation.number cs =? Collation.COLLATION_UTF8MB4_BIN then 10 else 9.

(** ** Assignments to members *)

Definition set_image_len (len : nat) (fpi : mono_field_packing) : mono_field_packing := {|
  m_max_image_len := len; m_unpack_data_len := m_unpack_data_len fpi; m_maybe_null := m_maybe_null fpi;
  m_varchar_charset := m_varchar_charset fpi; m_segment_size := m_segment_size fpi;
  m_unpack_info_uses_two_bytes := m_unpack_info_uses_two_bytes fpi; space_xfrm := space_xfrm fpi;
  space_xfrm_len := space_xfrm_len fpi; space_mb_len := space_mb_len fpi;
  m_charset_codec := m_charset_codec fpi; m_unpack_info_stores_value := m_unpack_info_stores_value fpi;
  m_pack_func := m_pack_func fpi; m_make_unpack_info_func := m_make_unpack_info_func fpi;
  m_unpack_func := m_unpack_func fpi; m_skip_func := m_skip_func fpi; m_keynr := m_keynr fpi;
  m_key_part := m_key_part fpi; m_field_idx := m_field_idx fpi;
  m_Key_part_length := m_Key_part_length fpi |}.

Definition set_unpack_data_len (len : nat) (fpi : mono_field_packing) : mono_field_packing := {|
  m_max_image_len := m_max_image_len fpi; m_unpack_data_len := len; m_maybe_null := m_maybe_null fpi;
  m_varchar_charset := m_varchar_charset fpi; m_segment_size := m_segment_size fpi;
  m_unpack_info_uses_two_bytes := m_unpack_info_uses_two_bytes fpi; space_xfrm := space_xfrm fpi;
  space_xfrm_len := space_xfrm_len fpi; space_mb_len := space_mb_len fpi;
  m_charset_codec := m_charset_codec fpi; m_unpack_info_stores_value := m_unpack_info_stores_value fpi;
  m_pack_func := m_pack_func fpi; m_make_unpack_info_func := m_make_unpack_info_func fpi;
  m_unpack_func := m_unpack_func fpi; m_skip_func := m_skip_func fpi; m_keynr := m_keynr fpi;
  m_key_part := m_key_part fpi; m_field_idx := m_field_idx fpi;
  m_Key_part_length := m_Key_part_length fpi |}.

Definition set_pack_func (f : option pack_func) (fpi : mono_field_packing) : mono_field_packing := {|
  m_max_image_len := m_max_image_len fpi; m_unpack_data_len := m_unpack_data_len fpi;
  m_maybe_null := m_maybe_null fpi; m_varchar_charset := m_varchar_charset fpi;
  m_segment_size := m_segment_size fpi;
  m_unpack_info_uses_two_bytes := m_unpack_info_uses_two_bytes fpi; space_xfrm := space_xfrm fpi;
  space_xfrm_len := space_xfrm_len fpi; space_mb_len := space_mb_len fpi;
  m_charset_codec := m_charset_codec fpi; m_unpack_info_stores_value := m_unpack_info_stores_value fpi;
  m_pack_func := f; m_make_unpack_info_func := m_make_unpack_info_func fpi;
  m_unpack_func := m_unpack_func fpi; m_skip_func := m_skip_func fpi; m_keynr := m_keynr fpi;
  m_key_part := m_key_part fpi; m_field_idx := m_field_idx fpi;
  m_Key_part_length := m_Key_part_length fpi |}.

Definition set_unpack_func (f : option unpack_func) (fpi : mono_field_packing) : mono_field_packing := {|
  m_max_image_len := m_max_image_len fpi; m_unpack_data_len := m_unpack_data_len fpi;
  m_maybe_null := m_maybe_null fpi; m_varchar_charset := m_varchar_charset fpi;
  m_segment_size := m_segment_size fpi;
  m_unpack_info_uses_two_bytes := m_unpack_info_uses_two_bytes fpi; space_xfrm := space_xfrm fpi;
  space_xfrm_len := space_xfrm_len fpi; space_mb_len := space_mb_len fpi;
  m_charset_codec := m_charset_codec fpi; m_unpack_info_stores_value := m_unpack_info_stores_value fpi;
  m_pack_func := m_pack_func fpi; m_make_unpack_info_func := m_make_unpack_info_func fpi;
  m_unpack_func := f; m_skip_func := m_skip_func fpi; m_keynr := m_keynr fpi;
  m_key_part := m_key_part fpi; m_field_idx := m_field_idx fpi;
  m_Key_part_length := m_Key_part_length fpi |}.

Definition set_make_unpack_info_func (f : option make_unpack_info_func) (fpi : mono_field_packing) : mono_field_packing := {|
  m_max_image_len := m_max_image_len fpi; m_unpack_data_len := m_unpack_data_len fpi;
  m_maybe_null := m_maybe_null fpi; m_varchar_charset := m_varchar_charset fpi;
  m_segment_size := m_segment_size fpi;
  m_unpack_info_uses_two_bytes := m_unpack_info_uses_two_bytes fpi; space_xfrm := space_xfrm fpi;
  space_xfrm_len := space_xfrm_len fpi; space_mb_len := space_mb_len fpi;
  m_charset_codec := m_charset_codec fpi; m_unpack_info_stores_value := m_unpack_info_stores_value fpi;
  m_pack_func := m_pack_func fpi; m_make_unpack_info_func := f; m_unpack_func := m_unpack_func fpi;
  m_skip_func := m_skip_func fpi; m_keynr := m_keynr fpi; m_key_part := m_key_part fpi;
  m_field_idx := m_field_idx fpi; m_Key_part_length := m_Key_part_length fpi |}.

Definition set_skip_func (f : skip_func) (fpi : mono_field_packing) : mono_field_packing := {|
  m_max_image_len := m_max_image_len fpi; m_unpack_data_len := m_unpack_data_len fpi;
  m_maybe_null := m_maybe_null fpi; m_varchar_charset := m_varchar_charset fpi;
  m_segment_size := m_segment_size fpi;
  m_unpack_info_uses_two_bytes := m_unpack_info_uses_two_bytes fpi; space_xfrm := space_xfrm fpi;
  space_xfrm_len := space_xfrm_len fpi; space_mb_len := space_mb_len fpi;
  m_charset_codec := m_charset_codec fpi; m_unpack_info_stores_value := m_unpack_info_stores_value fpi;
  m_pack_func := m_pack_func fpi; m_make_unpack_info_func := m_make_unpack_info_func fpi;
  m_unpack_func := m_unpack_func fpi; m_skip_func := f; m_keynr := m_keynr fpi;
  m_key_part := m_key_part fpi; m_field_idx := m_field_idx fpi;
  m_Key_part_length := m_Key_part_length fpi |}.

Definition set_stores_value (b : bool) (fpi : mono_field_packing) : mono_field_packing := {|
  m_max_image_len := m_max_image_len fpi; m_unpack_data_len := m_unpack_data_len fpi;
  m_maybe_null := m_maybe_null fpi; m_varchar_charset := m_varchar_charset fpi;
  m_segment_size := m_segment_size fpi;
  m_unpack_info_uses_two_bytes := m_unpack_info_uses_two_bytes fpi; space_xfrm := space_xfrm fpi;
  space_xfrm_len := space_xfrm_len fpi; space_mb_len := space_mb_len fpi;
  m_charset_codec := m_charset_codec fpi; m_unpack_info_stores_value := b;
  m_pack_func := m_pack_func fpi; m_make_unpack_info_func := m_make_unpack_info_func fpi;
  m_unpack_func := m_unpack_func fpi; m_skip_func := m_skip_func fpi; m_keynr := m_keynr fpi;
  m_key_part := m_key_part fpi; m_field_idx := m_field_idx fpi;
  m_Key_part_length := m_Key_part_length fpi |}.

Definition set_codec (c : Codec.mono_collation_codec) (fpi : mono_field_packing) : mono_field_packing := {|
  m_max_image_len := m_max_image_len fpi; m_unpack_data_len := m_unpack_data_len fpi;
  m_maybe_null := m_maybe_null fpi; m_varchar_charset := m_varchar_charset fpi;
  m_segment_size := m_segment_size fpi;
  m_unpack_info_uses_two_bytes := m_unpack_info_uses_two_bytes fpi; space_xfrm := space_xfrm fpi;
  space_xfrm_len := space_xfrm_len fpi; space_mb_len := space_mb_len fpi; m_charset_codec := Some c;
  m_unpack_info_stores_value := m_unpack_info_stores_value fpi; m_pack_func := m_pack_func fpi;
  m_make_unpack_info_func := m_make_unpack_info_func fpi; m_unpack_func := m_unpack_func fpi;
  m_skip_func := m_skip_func fpi; m_keynr := m_keynr fpi; m_key_part := m_key_part fpi;
  m_field_idx := m_field_idx fpi; m_Key_part_length := m_Key_part_length fpi |}.

Definition set_varchar (cs : Collation.CHARSET_INFO) (two_bytes : bool) (fpi : mono_field_packing) : mono_field_packing := {|
  m_max_image_len := m_max_image_len fpi; m_unpack_data_len := m_unpack_data_len fpi;
  m_maybe_null := m_maybe_null fpi; m_varchar_charset := cs; m_segment_size := m_segment_size fpi;
  m_unpack_info_uses_two_bytes := two_bytes; space_xfrm := space_xfrm fpi;
  space_xfrm_len := space_xfrm_len fpi; space_mb_len := space_mb_len fpi;
  m_charset_codec := m_charset_codec fpi; m_unpack_info_stores_value := m_unpack_info_stores_value fpi;
  m_pack_func := m_pack_func fpi; m_make_unpack_info_func := m_make_unpack_info_func fpi;
  m_unpack_func := m_unpack_func fpi; m_skip_func := m_skip_func fpi; m_keynr := m_keynr fpi;
  m_key_part := m_key_part fpi; m_field_idx := m_field_idx fpi;
  m_Key_part_length := m_Key_part_length fpi |}.

Definition set_segment (size : nat) (xfrm : bytes) (xfrm_len mb_len : nat) (fpi : mono_field_packing) : mono_field_packing := {|
  m_max_image_len := m_max_image_len fpi; m_unpack_data_len := m_unpack_data_len fpi;
  m_maybe_null := m_maybe_null fpi; m_varchar_charset := m_varchar_charset fpi; m_segment_size := size;
  m_unpack_info_uses_two_bytes := m_unpack_info_uses_two_bytes fpi; space_xfrm := xfrm;
  space_xfrm_len := xfrm_len; space_mb_len := mb_len; m_charset_codec := m_charset_codec fpi;
  m_unpack_info_stores_value := m_unpack_info_stores_value fpi; m_pack_func := m_pack_func fpi;
  m_make_unpack_info_func := m_make_unpack_info_func fpi; m_unpack_func := m_unpack_func fpi;
  m_skip_func := m_skip_func fpi; m_keynr := m_keynr fpi; m_key_part := m_key_part fpi;
  m_field_idx := m_field_idx fpi; m_Key_part_length := m_Key_part_length fpi |}.

(** ** mono_field_packing::setup *)

Definition MY_UUID_SIZE : nat := 16.

(** The assignments before the switch; [None] is the hidden primary key. *)
Definition setup_defaults (field : option Field) (keynr_arg key_part_arg key_length : nat)
    (fpi : mono_field_packing) : mono_field_packing := {|
  m_max_image_len := match field with Some f => pack_length f | None => MY_UUID_SIZE end;
  m_unpack_data_len := 0;
  m_maybe_null := match field with Some f => real_maybe_null f | None => false end;
  m_varchar_charset := m_varchar_charset fpi;
  m_segment_size := m_segment_size fpi;
  m_unpack_info_uses_two_bytes := m_unpack_info_uses_two_bytes fpi;
  space_xfrm := [];
  space_xfrm_len := space_xfrm_len fpi;
  space_mb_len := space_mb_len fpi;
  m_charset_codec := m_charset_codec fpi;
  m_unpack_info_stores_value := m_unpack_info_stores_value fpi;
  m_pack_func := Some pack_with_make_sort_key;
  m_make_unpack_info_func := None;
  m_unpack_func := None;
  m_skip_func := skip_max_length;
  m_keynr := keynr_arg;
  m_key_part := key_part_arg;
  m_field_idx := match field with Some f => S (field_index f) | None => 0 end;
  m_Key_part_length := key_length |}.

(** Variable-length space-padded encoding: the assignments shared by the
    _bin and the other collations. *)
Definition setup_space_pad (cs : Collation.CHARSET_INFO) (max_image_len_before_chunks : nat)
    (fpi : mono_field_packing) : option mono_field_packing :=
  match mono_get_mem_comparable_space cs with
  | None => None
  | Some (xfrm, xfrm_len, mb_len) =>
      let segment_size := get_segment_size_from_collation cs in
      Some (set_image_len ((max_image_len_before_chunks / (segment_size - 1) + 1) * segment_size)
        (set_segment segment_size xfrm xfrm_len mb_len
          (set_skip_func skip_variable_space_pad
            (set_pack_func (Some pack_with_varchar_space_pad) fpi))))
  end.

(** The three _bin collations are told apart by their number: [cs ==
    &my_charset_utf8mb4_bin] is a comparison of addresses in the code. *)
Definition setup_bin (cs : Collation.CHARSET_INFO) (is_varchar : bool) (max_image_len_before_chunks : nat)
    (fpi : mono_field_packing) : option mono_field_packing :=
  let mb4 := Collation.number cs =? Collation.COLLATION_UTF8MB4_BIN in
  let mb3 := Collation.number cs =? Collation.COLLATION_UTF8_BIN in
  if is_varchar then
    setup_space_pad cs max_image_len_before_chunks
      (set_make_unpack_info_func (Some dummy_make_unpack_info)
        (set_unpack_func (Some (if mb4 then unpack_utf8mb4_varchar_space_pad
                                else if mb3 then unpack_utf8_varchar_space_pad
                                else unpack_binary_varchar_space_pad)) fpi))
  else
    Some (set_unpack_func (Some (if mb4 then unpack_utf8mb4_str else if mb3 then unpack_utf8_str
                                 else unpack_binary_str)) fpi).

Definition setup_other_collation (field : Field) (cs : Collation.CHARSET_INFO) (is_varchar : bool)
    (max_image_len_before_chunks : nat) (fpi : mono_field_packing) : option mono_field_packing :=
  let fpi := set_unpack_data_len (if is_varchar then 0%nat else field_length field) fpi in
  let fpi :=
    if is_varchar then
      if (Collation.levels_for_order cs =? 1)%nat
      then setup_space_pad cs max_image_len_before_chunks fpi
      else Some (set_skip_func skip_variable_length (set_pack_func (Some pack_with_varchar_encoding) fpi))
    else Some fpi in
  match fpi with
  | None => None
  | Some fpi =>
      match Codec.mono_init_collation_mapping cs with
      | Some codec =>
          Some (set_codec codec
            (set_unpack_func (Some (if is_varchar then unpack_simple_varchar_space_pad else unpack_simple))
              (set_make_unpack_info_func
                (Some (if is_varchar then make_unpack_simple_varchar else make_unpack_simple)) fpi)))
      | None =>
          Some (set_unpack_func (Some (if is_varchar then unpack_unknown_varchar else unpack_unknown))
            (set_make_unpack_info_func
              (Some (if is_varchar then make_unpack_unknown_varchar else make_unpack_unknown))
              (set_stores_value true fpi)))
      end
  end.

(** [VAR](CHAR|BINARY). *)
Definition setup_string (field : Field) (is_varchar : bool) (key_length : nat) (fpi : mono_field_packing)
  : option (bool * mono_field_packing) :=
  let cs := charset field in
  let fpi := set_image_len (Collation.strnxfrmlen cs
               (if is_varchar then field_length field else pack_length field)) fpi in
  let max_image_len_before_chunks := m_max_image_len fpi in
  let fpi :=
    if is_varchar then
      set_varchar cs (256 <=? Z.of_nat (field_length field) + 8)
        (set_image_len (MONO_ENCODED_SIZE (m_max_image_len fpi)) (set_skip_func skip_variable_length fpi))
    else fpi in
  let fpi :=
    if Collation.number cs =? Collation.COLLATION_BINARY then
      Some (set_unpack_func (Some (if is_varchar then unpack_binary_or_utf8_varchar else unpack_binary_str)) fpi)
    else if (Collation.number cs =? Collation.COLLATION_LATIN1_BIN) ||
            (Collation.number cs =? Collation.COLLATION_UTF8_BIN) ||
            (Collation.number cs =? Collation.COLLATION_UTF8MB4_BIN)
    then setup_bin cs is_varchar max_image_len_before_chunks fpi
    else setup_other_collation field cs is_varchar max_image_len_before_chunks fpi in
  match fpi with
  | None => None
  | Some fpi =>
      if negb (field_length field =? key_length)%nat then
        Some (false, set_stores_value true (set_make_unpack_info_func None (set_unpack_func None fpi)))
      else Some (true, fpi)
  end.

(** [fpi] holds the members before the call; the result says whether the
    column can be read from the index alone. *)
Definition setup (has_key_descr : bool) (field : option Field) (keynr_arg key_part_arg key_length : nat)
    (fpi : mono_field_packing) : option (bool * mono_field_packing) :=
  let fpi := setup_defaults field keynr_arg key_part_arg key_length fpi in
  match field with
  | None => Some (true, set_unpack_func None (set_pack_func None fpi))
  | Some field =>
      match real_type field with
      | MYSQL_TYPE_LONGLONG | MYSQL_TYPE_LONG | MYSQL_TYPE_INT24 | MYSQL_TYPE_SHORT | MYSQL_TYPE_TINY =>
          Some (true, set_unpack_func (Some unpack_integer) fpi)
      | MYSQL_TYPE_DOUBLE => Some (true, set_unpack_func (Some unpack_double) fpi)
      | MYSQL_TYPE_FLOAT => Some (true, set_unpack_func (Some unpack_float) fpi)
      | MYSQL_TYPE_NEWDECIMAL | MYSQL_TYPE_DATETIME2 | MYSQL_TYPE_TIMESTAMP2 | MYSQL_TYPE_TIME2
      | MYSQL_TYPE_YEAR => Some (true, set_unpack_func (Some unpack_binary_str) fpi)
      | MYSQL_TYPE_NEWDATE => Some (true, set_unpack_func (Some unpack_newdate) fpi)
      | MYSQL_TYPE_TINY_BLOB | MYSQL_TYPE_MEDIUM_BLOB | MYSQL_TYPE_LONG_BLOB | MYSQL_TYPE_BLOB =>
          if has_key_descr then
            let binary := Collation.number (charset field) =? Collation.COLLATION_BINARY in
            Some (false, set_image_len (key_length + if binary then packlength field else 0)
                           (set_pack_func (Some pack_blob) fpi))
          else Some (false, set_stores_value false fpi)
      | MYSQL_TYPE_SET | MYSQL_TYPE_ENUM =>
          Some (false, set_stores_value false (set_unpack_func (Some unpack_unsigned) fpi))
      | MYSQL_TYPE_BIT => Some (true, set_unpack_func (Some unpack_bit) fpi)
      | MYSQL_TYPE_VARCHAR =>
          setup_string field true key_length
            (set_stores_value false (set_pack_func (Some pack_with_varchar_encoding) fpi))
      | MYSQL_TYPE_STRING => setup_string field false key_length (set_stores_value false fpi)
      | _ => Some (false, fpi)
      end
  end.

(** ** What setup establishes for VARCHAR columns *)

(** The spaces of a collation: [nsp] weights [sp] of [wlen] bytes in
    [space_xfrm], [k] weights in a segment. *)
Record collation_spaces (cs : Collation.CHARSET_INFO) (wlen k nsp : nat) (sp : Z) : Prop := {
  csp_spaces : mono_get_mem_comparable_space cs =
    Some (Collation.wbytes wlen (replicate nsp sp), wlen, 1%nat);
  csp_segment : get_segment_size_from_collation cs = S (wlen * k);
  csp_wlen : (0 < wlen)%nat;
  csp_mbmaxlen : (wlen <= Collation.mbmaxlen cs)%nat;
  csp_k : (0 < k <= 8)%nat;
  csp_nsp : (k <= nsp)%nat;
  csp_levels : Collation.levels_for_order cs = 1%nat;
  csp_not_binary : Collation.number cs <> Collation.COLLATION_BINARY;
  csp_image n : (wlen * n <= Collation.strnxfrmlen cs (n * Collation.mbmaxlen cs))%nat
}.

Lemma latin1_bin_spaces : collation_spaces Collation.my_charset_latin1_bin 1 8 32 32.
Proof. split; try (by vm_compute); try lia. intros n. change (1 * n <= n * 1 * 1)%nat. lia. Qed.

Lemma latin1_spaces : collation_spaces Collation.my_charset_latin1 1 8 32
  (Latin1.table_at Latin1.sort_order_latin1 32).
Proof. split; try (by vm_compute); try lia. intros n. change (1 * n <= n * 1 * 1)%nat. lia. Qed.

Lemma utf8mb3_bin_spaces : collation_spaces Collation.my_charset_utf8mb3_bin 2 4 16 32.
Proof.
  split; try (by vm_compute); try lia; [simpl; lia|]. intros n.
  change (2 * n <= (n * 3 + 3 - 1) / 3 * 2)%nat.
  assert (n <= (n * 3 + 3 - 1) / 3)%nat by (apply Nat.div_le_lower_bound; lia). lia.
Qed.

Lemma utf8mb4_bin_spaces : collation_spaces Collation.my_charset_utf8mb4_bin 3 3 11 32.
Proof.
  split; try (by vm_compute); try lia; [simpl; lia|]. intros n.
  change (3 * n <= (n * 4 + 3) / 4 * 3)%nat.
  assert (n <= (n * 4 + 3) / 4)%nat by (apply Nat.div_le_lower_bound; lia). lia.
Qed.

(** A VARCHAR column whose key part is the whole column. *)
Record varchar_column (field : Field) : Prop := {
  vc_type : real_type field = MYSQL_TYPE_VARCHAR;
  vc_mbmaxlen : (0 < Collation.mbmaxlen (charset field))%nat;
  vc_field_length : field_length field = (char_length field * Collation.mbmaxlen (charset field))%nat;
  vc_pack_length : pack_length field = (length_bytes field + field_length field)%nat;
  vc_limit : Z.of_nat (field_length field) + 8 < 65536
}.

Lemma chunks_le max_len seg : (1 < seg)%nat -> (max_len <= (max_len / (seg - 1) + 1) * seg)%nat.
Proof.
  intros Hs. pose proof (Nat.div_mod max_len (seg - 1) ltac:(lia)).
  pose proof (Nat.mod_upper_bound max_len (seg - 1) ltac:(lia)). nia.
Qed.

Lemma chunks_mono wlen k n max_len :
  (0 < wlen)%nat -> (0 < k)%nat -> (wlen * n <= max_len)%nat ->
  ((n / k + 1) * S (wlen * k) <= (max_len / (S (wlen * k) - 1) + 1) * S (wlen * k))%nat.
Proof.
  intros Hw Hk Hn. rewrite Nat.sub_succ, Nat.sub_0_r. apply Nat.mul_le_mono_r.
  rewrite <- (Nat.div_mul_cancel_l n k wlen) by lia.
  pose proof (Nat.div_le_mono (wlen * n) max_len (wlen * k) ltac:(nia) Hn). lia.
Qed.

(** The _bin collations. *)
Lemma setup_varchar_bin field keynr key_part fpi0 wlen k nsp sp :
  varchar_column field -> collation_spaces (charset field) wlen k nsp sp ->
  Collation.number (charset field) = Collation.COLLATION_LATIN1_BIN \/
  Collation.number (charset field) = Collation.COLLATION_UTF8_BIN \/
  Collation.number (charset field) = Collation.COLLATION_UTF8MB4_BIN ->
  exists fpi,
    setup true (Some field) keynr key_part (field_length field) fpi0 = Some (true, fpi) /\
    space_pad_setup fpi field wlen k nsp sp /\
    m_varchar_charset fpi = charset field /\ m_maybe_null fpi = real_maybe_null field /\
    m_pack_func fpi = Some pack_with_varchar_space_pad /\
    m_make_unpack_info_func fpi = Some dummy_make_unpack_info /\
    m_skip_func fpi = skip_variable_space_pad /\
    m_unpack_func fpi =
      Some (if Collation.number (charset field) =? Collation.COLLATION_UTF8MB4_BIN
            then unpack_utf8mb4_varchar_space_pad
            else if Collation.number (charset field) =? Collation.COLLATION_UTF8_BIN
            then unpack_utf8_varchar_space_pad else unpack_binary_varchar_space_pad).
Proof.
  intros Hc Hs Hn. unfold setup. rewrite (vc_type _ Hc). unfold setup_string, setup_bin, setup_space_pad.
  rewrite (csp_spaces _ _ _ _ _ Hs), (csp_segment _ _ _ _ _ Hs), Nat.eqb_refl.
  rewrite (proj2 (Z.eqb_neq _ _) (csp_not_binary _ _ _ _ _ Hs)).
  assert ((Collation.number (charset field) =? Collation.COLLATION_LATIN1_BIN)
    || (Collation.number (charset field) =? Collation.COLLATION_UTF8_BIN)
    || (Collation.number (charset field) =? Collation.COLLATION_UTF8MB4_BIN) = true) as ->.
  { rewrite !orb_true_iff, !Z.eqb_eq. tauto. }
  eexists. split; [done|]. split; [|done].
  pose proof (csp_wlen _ _ _ _ _ Hs). pose proof (csp_k _ _ _ _ _ Hs).
  split; cbn; try done; try apply Hs; try apply (vc_limit _ Hc).
  all: rewrite (vc_field_length _ Hc); pose proof (csp_image _ _ _ _ _ Hs (char_length field)) as Hi.
  - etrans; [exact Hi|]. apply (chunks_le _ (S (wlen * k))). nia.
  - apply chunks_mono; [lia..|exact Hi].
Qed.

(** The simple collations, restored with a codec. *)
Lemma setup_varchar_simple field keynr key_part fpi0 wlen k nsp sp codec :
  varchar_column field -> collation_spaces (charset field) wlen k nsp sp ->
  Codec.mono_init_collation_mapping (charset field) = Some codec ->
  Collation.number (charset field) <> Collation.COLLATION_LATIN1_BIN ->
  Collation.number (charset field) <> Collation.COLLATION_UTF8_BIN ->
  Collation.number (charset field) <> Collation.COLLATION_UTF8MB4_BIN ->
  exists fpi,
    setup true (Some field) keynr key_part (field_length field) fpi0 = Some (true, fpi) /\
    space_pad_setup fpi field wlen k nsp sp /\
    m_charset_codec fpi = Some codec /\ m_maybe_null fpi = real_maybe_null field /\
    m_pack_func fpi = Some pack_with_varchar_space_pad /\
    m_make_unpack_info_func fpi = Some make_unpack_simple_varchar /\
    m_skip_func fpi = skip_variable_space_pad /\
    m_unpack_func fpi = Some unpack_simple_varchar_space_pad.
Proof.
  intros Hc Hs Hcodec N1 N2 N3. unfold setup. rewrite (vc_type _ Hc).
  unfold setup_string, setup_other_collation, setup_space_pad.
  rewrite (csp_spaces _ _ _ _ _ Hs), (csp_segment _ _ _ _ _ Hs), (csp_levels _ _ _ _ _ Hs),
    (Nat.eqb_refl (field_length field)).
  rewrite (proj2 (Z.eqb_neq _ _) (csp_not_binary _ _ _ _ _ Hs)).
  rewrite (proj2 (Z.eqb_neq _ _) N1), (proj2 (Z.eqb_neq _ _) N2), (proj2 (Z.eqb_neq _ _) N3), Hcodec.
  eexists. split; [reflexivity|]. split; [|done].
  pose proof (csp_wlen _ _ _ _ _ Hs). pose proof (csp_k _ _ _ _ _ Hs).
  split; cbn; try done; try apply Hs; try apply (vc_limit _ Hc).
  all: rewrite (vc_field_length _ Hc); pose proof (csp_image _ _ _ _ _ Hs (char_length field)) as Hi.
  - etrans; [exact Hi|]. apply (chunks_le _ (S (wlen * k))). nia.
  - apply chunks_mono; [lia..|exact Hi].
Qed.

(** VARBINARY columns. *)
Lemma setup_varbinary field keynr key_part fpi0 :
  varchar_column field -> charset field = Collation.my_charset_bin ->
  exists fpi,
    setup true (Some field) keynr key_part (field_length field) fpi0 = Some (true, fpi) /\
    m_maybe_null fpi = real_maybe_null field /\ (char_length field <= m_max_image_len fpi)%nat /\
    m_pack_func fpi = Some pack_with_varchar_encoding /\ m_make_unpack_info_func fpi = None /\
    m_skip_func fpi = skip_variable_length /\ m_unpack_func fpi = Some unpack_binary_or_utf8_varchar /\
    m_varchar_charset fpi = charset field /\ m_max_image_len fpi = MONO_ENCODED_SIZE (field_length field).
Proof.
  intros Hc Hcs. unfold setup. rewrite (vc_type _ Hc). unfold setup_string.
  rewrite Hcs, (Nat.eqb_refl (field_length field)). eexists. split; [reflexivity|].
  split; [done|]. split; [|split_and!; try done;
    change (MONO_ENCODED_SIZE (field_length field * 1) = MONO_ENCODED_SIZE (field_length field)); by rewrite Nat.mul_1_r].
  cbn [m_max_image_len set_unpack_func set_varchar set_image_len set_skip_func].
  change (Collation.strnxfrmlen Collation.my_charset_bin (field_length field)) with (field_length field * 1)%nat.
  pose proof (vc_field_length _ Hc) as Hl. rewrite Hcs in Hl. change (field_length field = char_length field * 1)%nat in Hl.
  change (char_length field <= (field_length field * 1 + 7) / 8 * 9)%nat.
  pose proof (Nat.div_mod (field_length field * 1 + 7) 8 ltac:(lia)).
  pose proof (Nat.mod_upper_bound (field_length field * 1 + 7) 8 ltac:(lia)). lia.
Qed.

(** Columns of a fixed size in bytes: [pack_length] bytes of sort key. *)
Lemma setup_sort_key field keynr key_part len fpi0 :
  match real_type field with
  | MYSQL_TYPE_LONGLONG | MYSQL_TYPE_LONG | MYSQL_TYPE_INT24 | MYSQL_TYPE_SHORT | MYSQL_TYPE_TINY
  | MYSQL_TYPE_DOUBLE | MYSQL_TYPE_FLOAT | MYSQL_TYPE_NEWDECIMAL | MYSQL_TYPE_DATETIME2
  | MYSQL_TYPE_TIMESTAMP2 | MYSQL_TYPE_TIME2 | MYSQL_TYPE_YEAR | MYSQL_TYPE_NEWDATE
  | MYSQL_TYPE_SET | MYSQL_TYPE_ENUM | MYSQL_TYPE_BIT => True
  | _ => False
  end ->
  exists res fpi,
    setup true (Some field) keynr key_part len fpi0 = Some (res, fpi) /\
    m_max_image_len fpi = pack_length field /\ m_pack_func fpi = Some pack_with_make_sort_key /\
    m_make_unpack_info_func fpi = None /\ m_maybe_null fpi = real_maybe_null field /\
    m_skip_func fpi = skip_max_length.
Proof. intros H. unfold setup. destruct (real_type field); try done; eexists _, _; (split; [reflexivity|]); done. Qed.

(** Every setup records where the column is. *)
Lemma setup_location field keynr key_part len fpi0 res fpi :
  setup true (Some field) keynr key_part len fpi0 = Some (res, fpi) ->
  m_field_idx fpi = S (field_index field) /\ m_Key_part_length fpi = len /\
  m_keynr fpi = keynr /\ m_key_part fpi = key_part.
Proof.
  unfold setup, setup_string, setup_bin, setup_other_collation, setup_space_pad. intros H.
  repeat case_match; simplify_eq; done.
Qed.

End KeySetup.
