(* ===== verification/KeyDef.v ===== *)
(** * KeyDef: index definitions

    [mono_key_def] of eloq_key_def.cc: how the columns of an index are laid
    out ([setup]), packed into a key ([pack_field], [pack_record],
    [pack_key]), skipped, compared ([compare_keys]) and unpacked
    ([mono_key_field_iterator], [unpack_record]).  Keys and unpack info are
    byte strings; buffers are always large enough. *)

From stdpp Require Import gmap.
From S2P Require Import Prelude Buff Charset Latin1 Collation Field Codec Packing VarFormat SpacePad.
From S2P Require Import Varchar KeySetup.
Import Field Packing.

Module KeyDef.

(** ** Tables *)

Record KEY_PART_INFO := { kp_field : Field; kp_length : nat }.

Record KEY := {
  user_defined_key_parts : nat;
  ext_key_parts : nat;
  key_flags_nosame : bool;       (* flags & HA_NOSAME *)
  key_part : list KEY_PART_INFO
}.

(** TABLE and TABLE_SHARE; [primary_key = None] is MAX_INDEXES. *)
Record TABLE := {
  fields : list Field;
  key_info : list KEY;
  primary_key : option nat;
  default_values : bytes
}.

Definition table_has_hidden_pk (tbl : TABLE) : bool :=
  match primary_key tbl with None => true | Some _ => false end.

Inductive INDEX_TYPE := INDEX_TYPE_PRIMARY | INDEX_TYPE_SECONDARY | INDEX_TYPE_HIDDEN_PRIMARY.

#[export] Instance INDEX_TYPE_eq_dec : EqDecision INDEX_TYPE.
Proof. solve_decision. Defined.

(** An element of [m_pk_part_no] is [None] for -1. *)
Record mono_key_def := {
  m_index_type : INDEX_TYPE;
  m_pk_part_no : list (option nat);
  m_pack_info : list mono_field_packing;
  m_keyno : nat;
  m_pk_key_parts : nat;
  m_unique_sk_only_key_parts : nat;
  m_maxlength : nat
}.

Definition m_key_parts (kd : mono_key_def) : nat := length (m_pack_info kd).

Definition get_field_in_table (fpi : mono_field_packing) (tbl : TABLE) : option Field :=
  match key_info tbl !! m_keynr fpi with
  | Some key => kp_field <$> key_part key !! m_key_part fpi
  | None => None
  end.

Definition get_original_field_in_table (fpi : mono_field_packing) (tbl : TABLE) : option Field :=
  match m_field_idx fpi with
  | O => None
  | S i => fields tbl !! i
  end.

Definition fill_hidden_pk_val (fpi : mono_field_packing) (hidden_pk_id : bytes) : bytes :=
  take (m_max_image_len fpi) hidden_pk_id.

(** ** Packing *)

(** [field->field_length= len]: [char_length()] and, for strings,
    [pack_length()] are computed from the length. *)
Definition with_field_length (len : nat) (f : Field) : Field := {|
  field_index := field_index f; real_type := real_type f; ptr := ptr f;
  null_ptr := null_ptr f; null_bit := null_bit f;
  field_length := len;
  pack_length := match real_type f with
                 | MYSQL_TYPE_VARCHAR => length_bytes f + len
                 | MYSQL_TYPE_STRING => len
                 | _ => pack_length f
                 end;
  char_length := len / Collation.mbmaxlen (charset f);
  unsigned_flag := unsigned_flag f; charset := charset f; length_bytes := length_bytes f;
  packlength := packlength f; bit_ptr := bit_ptr f; bit_ofs := bit_ofs f; bit_len := bit_len f;
  bytes_in_rec := bytes_in_rec f; precision := precision f; decimals := decimals f |}.

Section Pack.

(** The memory blob pointers point into. *)
Context (mem : Z -> bytes).

(** The value of a key part that is not NULL: key bytes and unpack info. *)
Definition pack_value (field : Field) (pack_info : mono_field_packing) (rec : bytes)
    (unpack_info : option bytes) : option (bytes * option bytes) :=
  match m_pack_func pack_info with
  | None => None
  | Some pf =>
      match call_pack mem pf pack_info field rec unpack_info with
      | None => None
      | Some (key, None) => Some (key, None)
      | Some (key, Some w) =>
          match m_make_unpack_info_func pack_info with
          | None => Some (key, Some w)
          | Some mk =>
              match call_make_unpack_info mk (m_charset_codec pack_info) field rec w with
              | Some w => Some (key, Some w)
              | None => None
              end
          end
      end
  end.

(** The bytes appended to the tuple, the unpack info, and whether the value
    is NULL. *)
Definition pack_field (field : Field) (pack_info : mono_field_packing) (rec : bytes)
    (unpack_info : option bytes) : option (bytes * option bytes * bool) :=
  if real_maybe_null field then
    if is_real_null field rec then Some ([0], unpack_info, true)
    else
      match pack_value field pack_info rec unpack_info with
      | Some (key, w) => Some (1 :: key, w, false)
      | None => None
      end
  else
    match pack_value field pack_info rec unpack_info with
    | Some (key, w) => Some (key, w, false)
    | None => None
    end.

(** State of the loop over the key parts. *)
Record pack_state := {
  ps_tuple : bytes;
  ps_unpack_info : option bytes;
  ps_null_fields : nat;
  ps_unique_sk_pack_size : option nat
}.

(** [Field::field_length] is the length of the key part while the column is
    packed. *)
Definition pack_part (tbl : TABLE) (pack_info : mono_field_packing) (record : bytes) (st : pack_state)
  : option pack_state :=
  match get_original_field_in_table pack_info tbl with
  | None => None
  | Some field =>
      let field := with_field_length (m_Key_part_length pack_info) field in
      match pack_field field pack_info record (ps_unpack_info st) with
      | None => None
      | Some (key, unpack_info, is_null) =>
          Some {| ps_tuple := ps_tuple st ++ key; ps_unpack_info := unpack_info;
                  ps_null_fields := ps_null_fields st + (if is_null then 1 else 0);
                  ps_unique_sk_pack_size := ps_unique_sk_pack_size st |}
      end
  end.

(** The loop: part [i] of [n_key_parts], the others in [infos].
    [unique_sk_parts] is [m_unique_sk_only_key_parts] when
    [unique_sk_pack_size] is requested; [hidden_pk] is the hidden primary key
    of a table that has one. *)
Fixpoint pack_record_loop (tbl : TABLE) (record : bytes) (unique_sk_parts : option nat)
    (hidden_pk : option bytes) (n_key_parts i : nat) (infos : list mono_field_packing) (st : pack_state)
  : option pack_state :=
  if (n_key_parts <=? i)%nat then Some st
  else
    match infos with
    | [] => None
    | info :: infos =>
        let st := {| ps_tuple := ps_tuple st; ps_unpack_info := ps_unpack_info st;
                     ps_null_fields := ps_null_fields st;
                     ps_unique_sk_pack_size :=
                       if decide (unique_sk_parts = Some i) then Some (length (ps_tuple st))
                       else ps_unique_sk_pack_size st |} in
        match hidden_pk with
        | Some id =>
            if (S i =? n_key_parts)%nat then
              Some {| ps_tuple := ps_tuple st ++ fill_hidden_pk_val info id;
                      ps_unpack_info := ps_unpack_info st; ps_null_fields := ps_null_fields st;
                      ps_unique_sk_pack_size := ps_unique_sk_pack_size st |}
            else
              match pack_part tbl info record st with
              | Some st => pack_record_loop tbl record unique_sk_parts hidden_pk n_key_parts (S i) infos st
              | None => None
              end
        | None =>
            match pack_part tbl info record st with
            | Some st => pack_record_loop tbl record unique_sk_parts hidden_pk n_key_parts (S i) infos st
            | None => None
            end
        end
    end.

Definition MAX_REF_PARTS : nat := 32.
Definition MONO_UNPACK_DATA_LEN_SIZE : nat := 2.

(** The number of key parts to pack. *)
Definition parts_to_pack (kd : mono_key_def) (tbl : TABLE) (unique_sk : bool) (hidden_pk_id : option bytes)
    (n_key_parts : nat) : nat :=
  let use_all_columns := (n_key_parts =? 0)%nat || (n_key_parts =? MAX_REF_PARTS)%nat in
  match hidden_pk_id with
  | None =>
      if table_has_hidden_pk tbl && use_all_columns then (m_key_parts kd - 1)%nat
      else if use_all_columns || unique_sk then m_key_parts kd else n_key_parts
  | Some _ => if use_all_columns || unique_sk then m_key_parts kd else n_key_parts
  end.

(** The length of the unpack info replaces the zero at its start; without
    unpack info the writer is empty. *)
Definition finish_unpack_info (unpack_info : bytes) : bytes :=
  let len := length unpack_info in
  if (MONO_UNPACK_DATA_LEN_SIZE <? len)%nat then Rd.write_uint16_at 0 (Z.of_nat len) unpack_info
  else Rd.clear unpack_info.

(** [unpack_info]: the writer, if one is passed; [unique_sk]: a pointer
    [unique_sk_pack_size] is passed. *)
Definition pack_record (kd : mono_key_def) (tbl : TABLE) (record : bytes) (unpack_info : option bytes)
    (unique_sk : bool) (hidden_pk_id : option bytes) (n_key_parts : nat) : option pack_state :=
  let n_key_parts := parts_to_pack kd tbl unique_sk hidden_pk_id n_key_parts in
  let unpack_info := match unpack_info with Some w => Some (Rd.write_uint16 0 (Rd.clear w)) | None => None end in
  let hidden_pk := if table_has_hidden_pk tbl then hidden_pk_id else None in
  match pack_record_loop tbl record (if unique_sk then Some (m_unique_sk_only_key_parts kd) else None)
          hidden_pk n_key_parts 0 (m_pack_info kd)
          {| ps_tuple := []; ps_unpack_info := unpack_info; ps_null_fields := 0;
             ps_unique_sk_pack_size := None |} with
  | None => None
  | Some st =>
      Some {| ps_tuple := ps_tuple st;
              ps_unpack_info := match ps_unpack_info st with Some w => Some (finish_unpack_info w) | None => None end;
              ps_null_fields := ps_null_fields st;
              ps_unique_sk_pack_size := ps_unique_sk_pack_size st |}
  end.

End Pack.

Definition pack_hidden_pk (kd : mono_key_def) (hidden_pk_id : bytes) : option bytes :=
  match m_pack_info kd with
  | info :: _ => Some (fill_hidden_pk_val info hidden_pk_id)
  | [] => None
  end.

(** ** Unpacking

    A failed read or a failed unpack function is HA_ERR_TABLE_CORRUPT:
    [None]. *)

(** [decode_field]: the record, the reader and the unpack reader. *)
Definition decode_field (fpi : mono_field_packing) (field : Field) (default_value : bytes)
    (buf reader : bytes) (unpack_reader : option bytes) : option (bytes * bytes * option bytes) :=
  let unpack buf reader :=
    match m_unpack_func fpi with
    | Some f => call_unpack f fpi field buf reader unpack_reader
    | None => None
    end in
  if m_maybe_null fpi then
    match Rd.read 1 reader with
    | None => None
    | Some (nullp, reader) =>
        if nth 0 nullp 0 =? 0 then
          Some (write_at (ptr field) (take (pack_length field) default_value) (set_null field buf),
                reader, unpack_reader)
        else if nth 0 nullp 0 =? 1 then unpack (set_notnull field buf) reader
        else None
    end
  else unpack buf reader.

(** [decode]: [move_field] makes the column a part of [buf].  The unpack
    reader of the caller stays where it is when it is not passed on. *)
Definition decode (tbl : TABLE) (fpi : mono_field_packing) (field : Field) (has_unpack_info : bool)
    (buf reader unpack_reader : bytes) : option (bytes * bytes * bytes) :=
  let maybe_missing_unpack := negb has_unpack_info && uses_unpack_info fpi in
  match decode_field fpi field (drop (ptr field) (default_values tbl)) buf reader
          (if maybe_missing_unpack then None else Some unpack_reader) with
  | None => None
  | Some (buf, reader, Some unpack_reader) => Some (buf, reader, unpack_reader)
  | Some (buf, reader, None) => Some (buf, reader, unpack_reader)
  end.

(** [skip]: the reader and the unpack reader. *)
Definition skip (fpi : mono_field_packing) (field : Field) (reader unp_reader : bytes)
  : option (bytes * bytes) :=
  let skip_value reader :=
    match call_skip (m_skip_func fpi) fpi (Some field) reader with
    | None => None
    | Some reader =>
        if decide (m_skip_func fpi = skip_variable_space_pad) then
          if negb (m_unpack_info_stores_value fpi) then
            match Rd.read (if m_unpack_info_uses_two_bytes fpi then 2 else 1) unp_reader with
            | Some (_, unp_reader) => Some (reader, unp_reader)
            | None => Some (reader, unp_reader)
            end
          else Some (reader, unp_reader)
        else Some (reader, unp_reader)
    end in
  if m_maybe_null fpi then
    match Rd.read 1 reader with
    | None => None
    | Some (nullp, reader) =>
        if nth 0 nullp 0 =? 0 then Some (reader, unp_reader)
        else if negb (nth 0 nullp 0 =? 1) then None
        else skip_value reader
    end
  else skip_value reader.

(** [mono_key_field_iterator]. *)
Record mono_key_field_iterator := {
  it_infos : list mono_field_packing;   (* from m_iter_index on *)
  it_reader : bytes;
  it_unp_reader : bytes;
  it_buf : bytes;
  it_has_unpack_info : bool;
  it_secondary_key : bool;
  it_hidden_pk_exists : bool;
  it_is_hidden_pk : bool
}.

Definition new_iterator (kd : mono_key_def) (tbl : TABLE) (has_unpack_info : bool)
    (reader unp_reader buf : bytes) : mono_key_field_iterator := {|
  it_infos := m_pack_info kd; it_reader := reader; it_unp_reader := unp_reader; it_buf := buf;
  it_has_unpack_info := has_unpack_info;
  it_secondary_key := bool_decide (m_index_type kd = INDEX_TYPE_SECONDARY);
  it_hidden_pk_exists := table_has_hidden_pk tbl;
  it_is_hidden_pk := bool_decide (m_index_type kd = INDEX_TYPE_HIDDEN_PRIMARY) |}.

Definition has_next (it : mono_key_field_iterator) : bool :=
  match it_infos it with [] => false | _ => true end.

Definition it_move (it : mono_key_field_iterator) (infos : list mono_field_packing)
    (reader unp_reader buf : bytes) : mono_key_field_iterator := {|
  it_infos := infos; it_reader := reader; it_unp_reader := unp_reader; it_buf := buf;
  it_has_unpack_info := it_has_unpack_info it; it_secondary_key := it_secondary_key it;
  it_hidden_pk_exists := it_hidden_pk_exists it; it_is_hidden_pk := it_is_hidden_pk it |}.

(** [next]: columns that cannot be unpacked are skipped up to the next one
    that can. *)
Fixpoint next_loop (tbl : TABLE) (it : mono_key_field_iterator) (infos : list mono_field_packing)
    (reader unp_reader : bytes) : option mono_key_field_iterator :=
  match infos with
  | [] => Some (it_move it [] reader unp_reader (it_buf it))
  | fpi :: infos =>
      if (it_secondary_key it && it_hidden_pk_exists it && bool_decide (infos = [])) || it_is_hidden_pk it then
        match call_skip (m_skip_func fpi) fpi None reader with
        | Some reader => Some (it_move it infos reader unp_reader (it_buf it))
        | None => None
        end
      else
        match get_field_in_table fpi tbl with
        | None => None
        | Some field =>
            match m_unpack_func fpi with
            | Some _ =>
                match decode tbl fpi field (it_has_unpack_info it) (it_buf it) reader unp_reader with
                | Some (buf, reader, unp_reader) => Some (it_move it infos reader unp_reader buf)
                | None => None
                end
            | None =>
                match skip fpi field reader unp_reader with
                | Some (reader, unp_reader) => next_loop tbl it infos reader unp_reader
                | None => None
                end
            end
        end
  end.

Definition next (tbl : TABLE) (it : mono_key_field_iterator) : option mono_key_field_iterator :=
  next_loop tbl it (it_infos it) (it_reader it) (it_unp_reader it).

(** [while (iter.has_next())]: every call of [next] takes a key part. *)
Fixpoint iterate (fuel : nat) (tbl : TABLE) (it : mono_key_field_iterator) : option mono_key_field_iterator :=
  if has_next it then
    match fuel with
    | O => None
    | S fuel =>
        match next tbl it with
        | Some it => iterate fuel tbl it
        | None => None
        end
    end
  else Some it.

Definition unpack_record (kd : mono_key_def) (tbl : TABLE) (buf packed_key unpack_info : bytes)
  : option bytes :=
  let unp_len := Z.of_nat (length unpack_info) in
  let unp_reader :=
    if (length unpack_info =? 0)%nat then Some unpack_info
    else
      match Rd.read_uint16 unpack_info with
      | Some (record_unp_len, unp_reader) => if record_unp_len =? unp_len then Some unp_reader else None
      | None => None
      end in
  match unp_reader with
  | None => None
  | Some unp_reader =>
      match iterate (m_key_parts kd) tbl
              (new_iterator kd tbl (negb (length unpack_info =? 0)%nat) packed_key unp_reader buf) with
      | None => None
      | Some it => if (length (it_reader it) =? 0)%nat then Some (it_buf it) else None
      end
  end.

(** ** Reading packed keys *)

(** Result of [read_memcmp_key_part]: the reader and whether the value is
    NULL; [None] is 1. *)
Definition read_memcmp_key_part (kd : mono_key_def) (tbl : TABLE) (part_num : nat) (reader : bytes)
  : option (bytes * bool) :=
  match m_pack_info kd !! part_num with
  | None => None
  | Some fpi =>
      let read_value reader :=
        let is_hidden_pk_part := (S part_num =? m_key_parts kd)%nat && table_has_hidden_pk tbl in
        let field := if is_hidden_pk_part then None else get_field_in_table fpi tbl in
        match call_skip (m_skip_func fpi) fpi field reader with
        | Some reader => Some (reader, false)
        | None => None
        end in
      if m_maybe_null fpi then
        match Rd.read 1 reader with
        | None => None
        | Some (nullp, reader) =>
            if nth 0 nullp 0 =? 0 then Some (reader, true)
            else if negb (nth 0 nullp 0 =? 1) then None
            else read_value reader
        end
      else read_value reader
  end.

(** The bytes between two positions of a reader. *)
Definition consumed (before after : bytes) : bytes := take (length before - length after) before.

(** The loop over the key parts: [parts] maps a part of the primary key to
    its bytes. *)
Fixpoint pk_parts_loop (kd : mono_key_def) (tbl : TABLE) (i : nat) (pk_part_no : list (option nat))
    (reader : bytes) (parts : gmap nat bytes) : option (gmap nat bytes) :=
  match pk_part_no with
  | [] => Some parts
  | no :: pk_part_no =>
      match read_memcmp_key_part kd tbl i reader with
      | None => None
      | Some (reader', _) =>
          pk_parts_loop kd tbl (S i) pk_part_no reader'
            (match no with Some j => <[j := consumed reader reader']> parts | None => parts end)
      end
  end.

(** [None]: MONO_INVALID_KEY_LEN, or a part of the primary key that was not
    found (the code reads an uninitialised offset then). *)
Definition get_primary_key_tuple (kd : mono_key_def) (tbl : TABLE) (key : bytes) : option bytes :=
  match pk_parts_loop kd tbl 0 (m_pk_part_no kd) key ∅ with
  | None => None
  | Some parts => (fun l : list bytes => concat l) <$> mapM (fun j => parts !! j) (seq 0 (m_pk_key_parts kd))
  end.

Fixpoint sk_parts_loop (kd : mono_key_def) (tbl : TABLE) (n i : nat) (reader : bytes) (n_null_fields : nat)
  : option (bytes * nat) :=
  match n with
  | O => Some (reader, n_null_fields)
  | S n =>
      match read_memcmp_key_part kd tbl i reader with
      | None => None
      | Some (reader, is_null) =>
          sk_parts_loop kd tbl n (S i) reader (if is_null then S n_null_fields else n_null_fields)
      end
  end.

(** The secondary key without the primary key, and the number of NULLs. *)
Definition get_memcmp_sk_parts (kd : mono_key_def) (tbl : TABLE) (key : bytes) (n_null_fields : nat)
  : option (bytes * nat) :=
  match key_info tbl !! m_keyno kd with
  | None => None
  | Some ki =>
      match sk_parts_loop kd tbl (user_defined_key_parts ki) 0 key n_null_fields with
      | None => None
      | Some (reader, n_null_fields) => Some (consumed key reader, n_null_fields)
      end
  end.

(** [column_index]; [None] is HA_EXIT_FAILURE. *)
Fixpoint compare_keys_loop (i : nat) (infos : list mono_field_packing) (reader1 reader2 : bytes)
  : option nat :=
  match infos with
  | [] => Some i
  | fpi :: infos =>
      let compare_value reader1 reader2 :=
        match call_skip (m_skip_func fpi) fpi None reader1 with
        | None => None
        | Some reader1' =>
            match call_skip (m_skip_func fpi) fpi None reader2 with
            | None => None
            | Some reader2' =>
                let part1 := consumed reader1 reader1' in
                let part2 := consumed reader2 reader2' in
                if negb (length part1 =? length part2)%nat then Some i
                else if decide (memcmp part1 part2 (length part1) = Eq)
                then compare_keys_loop (S i) infos reader1' reader2'
                else Some i
            end
        end in
      if m_maybe_null fpi then
        match Rd.read 1 reader1, Rd.read 1 reader2 with
        | Some (nullp1, reader1), Some (nullp2, reader2) =>
            if negb (nth 0 nullp1 0 =? nth 0 nullp2 0) then Some i
            else if nth 0 nullp1 0 =? 0 then compare_keys_loop (S i) infos reader1 reader2
            else compare_value reader1 reader2
        | _, _ => None
        end
      else compare_value reader1 reader2
  end.

Definition compare_keys (kd : mono_key_def) (key1 key2 : bytes) : option nat :=
  compare_keys_loop 0 (m_pack_info kd) key1 key2.

Fixpoint key_length_loop (kd : mono_key_def) (tbl : TABLE) (infos : list mono_field_packing) (reader : bytes)
  : option bytes :=
  match infos with
  | [] => Some reader
  | fpi :: infos =>
      let field :=
        if decide (m_index_type kd = INDEX_TYPE_HIDDEN_PRIMARY) then None else get_field_in_table fpi tbl in
      match call_skip (m_skip_func fpi) fpi field reader with
      | Some reader => key_length_loop kd tbl infos reader
      | None => None
      end
  end.

(** [None] is size_t(-1). *)
Definition key_length (kd : mono_key_def) (tbl : TABLE) (key : bytes) : option nat :=
  match key_length_loop kd tbl (m_pack_info kd) key with
  | Some reader => Some (length key - length reader)%nat
  | None => None
  end.

(** ** Neighbours of a key *)

(** The loops run from the last byte: on the reversed tuple.  The number of
    bytes changed and the bytes. *)
Fixpoint successor_loop (rev_tuple : bytes) : nat * bytes :=
  match rev_tuple with
  | [] => (0%nat, [])
  | b :: r =>
      if negb (b =? 255) then (1%nat, b + 1 :: r)
      else let '(changed, r) := successor_loop r in (S changed, 0 :: r)
  end.

Definition successor (packed_tuple : bytes) : nat * bytes :=
  let '(changed, r) := successor_loop (reverse packed_tuple) in (changed, reverse r).

Fixpoint predecessor_loop (rev_tuple : bytes) : nat * bytes :=
  match rev_tuple with
  | [] => (0%nat, [])
  | b :: r =>
      if negb (b =? 0) then (1%nat, b - 1 :: r)
      else let '(changed, r) := predecessor_loop r in (S changed, 255 :: r)
  end.

Definition predecessor (packed_tuple : bytes) : nat * bytes :=
  let '(changed, r) := predecessor_loop (reverse packed_tuple) in (changed, reverse r).

(** The key extended by 0xFF to [m_maxlength]. *)
Definition get_ceiling_key (kd : mono_key_def) (packed : bytes) : bytes :=
  packed ++ replicate (m_maxlength kd - length packed) 255.

(** ** Unpack info of a stored row *)

Definition MONO_CHECKSUM_DATA_TAG : Z := 1.
Definition MONO_UNPACK_DATA_TAG : Z := 2.
Definition MONO_UNPACK_COVERED_DATA_TAG : Z := 3.
Definition MONO_CHECKSUM_CHUNK_SIZE : Z := 9.

Definition is_unpack_data_tag (c : Z) : bool :=
  (c =? MONO_UNPACK_DATA_TAG) || (c =? MONO_UNPACK_COVERED_DATA_TAG).

(** MONO_UNPACK_HEADER_SIZE and MONO_UNPACK_COVERED_HEADER_SIZE; [None]:
    [std::map::at] throws. *)
Definition get_unpack_header_size (tag : Z) : option nat :=
  if tag =? MONO_UNPACK_DATA_TAG then Some 3%nat
  else if tag =? MONO_UNPACK_COVERED_DATA_TAG then Some 5%nat
  else None.

(** [size] is a size_t: it wraps when [skip_len] is larger. *)
Definition unpack_info_has_checksum (unpack_info : bytes) : bool :=
  let size := Z.of_nat (length unpack_info) in
  match unpack_info with
  | [] => false
  | tag :: _ =>
      let skip_len :=
        match is_unpack_data_tag tag, get_unpack_header_size tag with
        | true, Some h => if Z.of_nat h <=? size then Netbuf.mono_netbuf_to_uint16 (drop 1 unpack_info) else 0
        | _, _ => 0
        end in
      (ulonglong_of (size - skip_len) =? MONO_CHECKSUM_CHUNK_SIZE) &&
      (nth 0 (drop (Z.to_nat skip_len) unpack_info) 0 =? MONO_CHECKSUM_DATA_TAG)
  end.

(** ** mono_key_def::setup *)

(** The first part of the primary key with this column. *)
Fixpoint find_pk_part (idx j : nat) (parts : list KEY_PART_INFO) : option nat :=
  match parts with
  | [] => None
  | p :: parts => if (idx =? field_index (kp_field p))%nat then Some j else find_pk_part idx (S j) parts
  end.

(** Is the column, with the same length, among the parts of the index? *)
Definition already_present (p : KEY_PART_INFO) (parts : list KEY_PART_INFO) : bool :=
  existsb (fun q => (field_index (kp_field p) =? field_index (kp_field q))%nat &&
                    (kp_length p =? kp_length q)%nat) parts.

(** Variables of the loop: [su_key_part] is the pointer [key_part] ([None]:
    null), [su_keypart] the uint [keypart_to_set]. *)
Record setup_state := {
  su_key_part : option (list KEY_PART_INFO);
  su_simulating_extkey : bool;
  su_keyno : nat;
  su_keypart : Z;
  su_infos : list mono_field_packing;
  su_pk_part_no : list (option nat);
  su_max_len : nat
}.

Section Setup.

(** [uninit]: the members of a [mono_field_packing] in fresh memory. *)
Context (uninit : mono_field_packing) (tbl : TABLE).
Context (ki : KEY) (pk_info : option KEY) (secondary_key hidden_pk_exists : bool) (pk_key_parts : nat).

(** The pointers after part [src_i]: at the end of the index the parts of the
    primary key follow. *)
Definition advance (src_i : nat) (st : setup_state) : option (list KEY_PART_INFO) * bool * nat * Z :=
  let next_part := match su_key_part st with Some l => Some (tl l) | None => None end in
  if secondary_key && (S src_i =? ext_key_parts ki)%nat then
    if negb hidden_pk_exists then
      (match pk_info with Some pk => Some (key_part pk) | None => None end, true,
       match primary_key tbl with Some k => k | None => 0%nat end, uint_of (-1))
    else (None, true, length (key_info tbl), 0)
  else (next_part, su_simulating_extkey st, su_keyno st, su_keypart st).

(** One iteration: part [src_i] is set up and stored. *)
Definition setup_part (src_i : nat) (st : setup_state) : option setup_state :=
  let part := match su_key_part st with Some (p :: _) => Some p | _ => None end in
  let field := match part with Some p => Some (kp_field p) | None => None end in
  match KeySetup.setup true field (su_keyno st) (Z.to_nat (su_keypart st))
          (match part with Some p => kp_length p | None => 0%nat end) uninit with
  | None => None
  | Some (_, fpi) =>
      let null_byte :=
        match field with Some f => if real_maybe_null f then 1%nat else 0%nat | None => 0%nat end in
      let pk_no :=
        match pk_info, field with
        | Some pk, Some f => [find_pk_part (field_index f) 0 (take pk_key_parts (key_part pk))]
        | Some _, None => [None]
        | None, _ =>
            if secondary_key && hidden_pk_exists
            then [if su_simulating_extkey st then Some 0%nat else None] else []
        end in
      let '(next_part, simulating, keyno, keypart) := advance src_i st in
      Some {| su_key_part := next_part; su_simulating_extkey := simulating; su_keyno := keyno;
              su_keypart := keypart; su_infos := su_infos st ++ [fpi];
              su_pk_part_no := su_pk_part_no st ++ pk_no;
              su_max_len := su_max_len st + null_byte + m_max_image_len fpi |}
  end.

(** [n] iterations from [src_i] on; [None]: a read past the key parts of the
    index, or a character set without a pad character. *)
Fixpoint setup_loop (n src_i : nat) (st : setup_state) : option setup_state :=
  match n with
  | O => Some st
  | S n =>
      let step (st : setup_state) :=
        setup_loop n (S src_i)
          {| su_key_part := su_key_part st; su_simulating_extkey := su_simulating_extkey st;
             su_keyno := su_keyno st; su_keypart := uint_of (su_keypart st + 1);
             su_infos := su_infos st; su_pk_part_no := su_pk_part_no st; su_max_len := su_max_len st |} in
      match su_key_part st with
      | Some [] => None
      | Some (p :: parts) =>
          if su_simulating_extkey st && negb hidden_pk_exists &&
             already_present p (take (ext_key_parts ki) (key_part ki))
          then step {| su_key_part := Some parts; su_simulating_extkey := su_simulating_extkey st;
                       su_keyno := su_keyno st; su_keypart := su_keypart st; su_infos := su_infos st;
                       su_pk_part_no := su_pk_part_no st; su_max_len := su_max_len st |}
          else match setup_part src_i st with Some st => step st | None => None end
      | None => match setup_part src_i st with Some st => step st | None => None end
      end
  end.

End Setup.

Definition set_key_parts (kd : mono_key_def) (infos : list mono_field_packing) (pk_part_no : list (option nat))
    (pk_key_parts unique_sk_only_key_parts maxlength : nat) : mono_key_def := {|
  m_index_type := m_index_type kd; m_pk_part_no := pk_part_no; m_pack_info := infos;
  m_keyno := m_keyno kd; m_pk_key_parts := pk_key_parts;
  m_unique_sk_only_key_parts := unique_sk_only_key_parts; m_maxlength := maxlength |}.

(** The mutex only serialises concurrent calls. *)
Definition key_def_setup (uninit : mono_field_packing) (tbl : TABLE) (kd : mono_key_def)
  : option mono_key_def :=
  if negb (m_maxlength kd =? 0)%nat then Some kd
  else if decide (m_index_type kd = INDEX_TYPE_HIDDEN_PRIMARY) then
    match KeySetup.setup true None (m_keyno kd) 0 0 uninit with
    | Some (_, fpi) => Some (set_key_parts kd [fpi] [] 0 (m_unique_sk_only_key_parts kd) (m_max_image_len fpi))
    | None => None
    end
  else
    let secondary_key := bool_decide (m_index_type kd = INDEX_TYPE_SECONDARY) in
    let hidden_pk_exists := table_has_hidden_pk tbl in
    let primary := match primary_key tbl with Some k => key_info tbl !! k | None => None end in
    match key_info tbl !! m_keyno kd with
    | None => None
    | Some ki =>
        let pk_info := if secondary_key then primary else None in
        let pk_key_parts :=
          if secondary_key then
            if hidden_pk_exists then 1%nat
            else match primary with Some pk => ext_key_parts pk | None => 0%nat end
          else 0%nat in
        let key_parts := ext_key_parts ki in
        let unique_sk_only :=
          if secondary_key && key_flags_nosame ki then key_parts else m_unique_sk_only_key_parts kd in
        match setup_loop uninit tbl ki pk_info secondary_key hidden_pk_exists pk_key_parts
                (key_parts + pk_key_parts) 0
                {| su_key_part := Some (key_part ki); su_simulating_extkey := false;
                   su_keyno := m_keyno kd; su_keypart := 0; su_infos := []; su_pk_part_no := [];
                   su_max_len := 0 |} with
        | None => None
        | Some st =>
            Some (set_key_parts kd (su_infos st) (su_pk_part_no st) pk_key_parts unique_sk_only (su_max_len st))
        end
    end.

End KeyDef.
