(* ===== verification/KeyOrder.v ===== *)
(** * KeyOrder: the order of packed keys

    The interface [KeyPart] states what a packed column promises to the index:
    packing succeeds, and byte order of the packed values is the order of the
    SQL comparison of the column.  It is established for the column types from
    what [mono_field_packing::setup] chooses, and used to prove that
    [pack_record] orders the records of a table column by column, NULL first. *)

From S2P Require Import Prelude Buff Charset Latin1 Collation Field Codec Packing VarFormat SpacePad.
From S2P Require Import Varchar KeySetup KeyDef.
Import Field Packing Varchar KeyDef.

Module KeyOrder.

(** ** Transport of mem-comparability *)

Lemma mem_cmp_comp {A B} (f : A -> B) (P : B -> Prop) enc cmp :
  MemCmp P enc cmp -> MemCmp (fun x => P (f x)) (fun x => enc (f x)) (fun x y => cmp (f x) (f y)).
Proof. intros H x y r s Hx Hy. by apply H. Qed.

Lemma mem_cmp_ext {A} (P Q : A -> Prop) enc enc' cmp cmp' :
  MemCmp P enc cmp -> (forall x, Q x -> P x) -> (forall x, Q x -> enc' x = enc x) ->
  (forall x y, Q x -> Q y -> cmp' x y = cmp x y) -> MemCmp Q enc' cmp'.
Proof.
  intros H HP He Hc x y r s Hx Hy. rewrite !He, Hc by done. apply H; auto.
Qed.

(** ** Key parts *)

Section Parts.

Context (mem : Z -> bytes).

(** The key bytes of a value that is not NULL. *)
Definition part_key (field : Field) (fpi : mono_field_packing) (rec : bytes) : bytes :=
  match pack_value mem field fpi rec None with
  | Some (key, _) => key
  | None => []
  end.

(** Unpack info is bytes. *)
Definition info_ok (u : option bytes) : Prop :=
  match u with Some w => bytes_ok w | None => True end.

Class KeyPart (field : Field) (fpi : mono_field_packing) (ok : bytes -> Prop) : Prop := {
  kp_pack rec u : ok rec -> info_ok u ->
    exists u', pack_value mem field fpi rec u = Some (part_key field fpi rec, u') /\ info_ok u';
  kp_order : MemCmp ok (part_key field fpi) (column_cmp field)
}.

(** A pack function and a function for unpack info that succeed make a key
    part, when the bytes are mem-comparable. *)
Lemma key_part_intro field fpi ok enc pf :
  m_pack_func fpi = Some pf ->
  (forall rec u, ok rec -> info_ok u ->
     exists u', call_pack mem pf fpi field rec u = Some (enc rec, u') /\ info_ok u') ->
  (forall rec w mk, ok rec -> bytes_ok w -> m_make_unpack_info_func fpi = Some mk ->
     exists w', call_make_unpack_info mk (m_charset_codec fpi) field rec w = Some w' /\ bytes_ok w') ->
  MemCmp ok enc (column_cmp field) -> KeyPart field fpi ok.
Proof.
  intros Hpf Hc Hm HM.
  assert (forall rec u, ok rec -> info_ok u ->
    exists u', pack_value mem field fpi rec u = Some (enc rec, u') /\ info_ok u') as Hp.
  { intros rec u Hok Hu. unfold pack_value. rewrite Hpf.
    destruct (Hc rec u Hok Hu) as ([w|] & -> & Hw); [|by exists None].
    destruct (m_make_unpack_info_func fpi) as [mk|] eqn:E; [|by exists (Some w)].
    destruct (Hm rec w mk Hok Hw eq_refl) as (w' & -> & Hw'). by exists (Some w'). }
  assert (forall rec, ok rec -> part_key field fpi rec = enc rec) as Hk.
  { intros rec Hok. unfold part_key. by destruct (Hp rec None Hok I) as (u' & -> & _). }
  split.
  - intros rec u Hok Hu. rewrite Hk by done. by apply Hp.
  - by apply (mem_cmp_ext ok ok enc _ (column_cmp field)).
Qed.

(** *** Numbers, dates, enums and bits *)

(** The bytes such a column takes in the record. *)
Definition fixed_size (field : Field) : option nat :=
  match real_type field with
  | MYSQL_TYPE_TINY | MYSQL_TYPE_YEAR => Some 1%nat
  | MYSQL_TYPE_SHORT => Some 2%nat
  | MYSQL_TYPE_INT24 | MYSQL_TYPE_NEWDATE => Some 3%nat
  | MYSQL_TYPE_LONG | MYSQL_TYPE_FLOAT => Some 4%nat
  | MYSQL_TYPE_LONGLONG | MYSQL_TYPE_DOUBLE => Some 8%nat
  | MYSQL_TYPE_NEWDECIMAL | MYSQL_TYPE_DATETIME2 | MYSQL_TYPE_TIMESTAMP2 | MYSQL_TYPE_TIME2 =>
      Some (pack_length field)
  | MYSQL_TYPE_ENUM | MYSQL_TYPE_SET => Some (packlength field)
  | MYSQL_TYPE_BIT => Some (bytes_in_rec field + uneven field)%nat
  | _ => None
  end.

(** The record holds a value; floating-point values are finite. *)
Definition fixed_ok (field : Field) (rec : bytes) : Prop :=
  match real_type field with
  | MYSQL_TYPE_FLOAT => float_ok (data field rec)
  | MYSQL_TYPE_DOUBLE => double_ok (data field rec)
  | MYSQL_TYPE_BIT => bit_ok field rec
  | _ => exists n, fixed_size field = Some n /\ image_ok n (data field rec)
  end.

Lemma int_sort_string_length n uf p : (n <= length p)%nat -> length (int_sort_string n uf p) = n.
Proof.
  intros H. unfold int_sort_string.
  assert (length (reverse (take n p)) = n) as Hl by (rewrite length_reverse, length_take; lia).
  destruct (reverse (take n p)) as [|b r]; [done|]. simpl in *. lia.
Qed.

(** [enc] is a sort key of [n] bytes for the values of [ok]. *)
Definition sorts (field : Field) (n : nat) (ok : bytes -> Prop) (enc : bytes -> bytes) : Prop :=
  (forall rec, ok rec -> length (enc rec) = n) /\ MemCmp ok enc (column_cmp field).

Lemma sorts_int field m (f : bool -> bytes -> bytes) :
  (0 < m)%nat -> (forall uf p, (m <= length p)%nat -> f uf p = int_sort_string m uf p) ->
  (forall a b, image_ok m (data field a) -> image_ok m (data field b) ->
     column_cmp field a b = int_cmp m (unsigned_flag field) (data field a) (data field b)) ->
  sorts field m (fun rec => image_ok m (data field rec)) (fun rec => f (unsigned_flag field) (data field rec)).
Proof.
  intros Hm Hf Hc. split.
  - intros rec Hrec. rewrite Hf by apply Hrec. apply int_sort_string_length, Hrec.
  - assert (MemCmp (image_ok m) (int_sort_string m (unsigned_flag field)) (int_cmp m (unsigned_flag field))) as HM.
    { apply mem_cmp_int. rewrite (proj2 (Nat.ltb_lt _ _) Hm). constructor. }
    eapply mem_cmp_ext; [apply (mem_cmp_comp (data field)), HM|done| |exact Hc].
    intros rec Hrec. by apply Hf, Hrec.
Qed.

Lemma sorts_data field n (P : bytes -> Prop) enc cmp :
  MemCmp P enc cmp -> (forall p, P p -> length (enc p) = n) ->
  (forall a b, column_cmp field a b = cmp (data field a) (data field b)) ->
  sorts field n (fun rec => P (data field rec)) (fun rec => enc (data field rec)).
Proof.
  intros HM Hl Hc. split; [auto|].
  eapply mem_cmp_ext; [apply (mem_cmp_comp (data field)), HM|done|done|]. intros a b _ _. apply Hc.
Qed.

Lemma sorts_memcpy field :
  (forall a b, column_cmp field a b = memcmp (data field a) (data field b) (pack_length field)) ->
  sorts field (pack_length field) (fun rec => image_ok (pack_length field) (data field rec))
    (fun rec => memcpy_sort_string (pack_length field) (data field rec)).
Proof.
  intros Hc. apply (sorts_data field _ (image_ok _) _ (fun a b => memcmp a b (pack_length field)));
    [apply mem_cmp_memcpy| |done].
  intros p [_ Hp]. unfold memcpy_sort_string. rewrite length_take. lia.
Qed.

Lemma sorts_enum field :
  (forall a b, column_cmp field a b = enum_cmp (packlength field) (data field a) (data field b)) ->
  sorts field (packlength field) (fun rec => image_ok (packlength field) (data field rec))
    (fun rec => enum_sort_string (packlength field) (data field rec)).
Proof.
  intros Hc. apply (sorts_data field _ (image_ok _) _ (enum_cmp (packlength field)));
    [apply mem_cmp_enum| |done].
  intros p _. by rewrite enum_sort_string_eq, length_be_bytes.
Qed.

(** The sort key of such a column is mem-comparable. *)
Lemma fixed_sort_key field n :
  fixed_size field = Some n ->
  exists enc, (forall rec, sort_string field n rec = Some (enc rec)) /\ sorts field n (fixed_ok field) enc.
Proof.
  intros Hn. unfold fixed_ok. rewrite Hn.
  assert (forall enc, sorts field n (fun rec => image_ok n (data field rec)) enc ->
    sorts field n (fun rec => exists m, Some n = Some m /\ image_ok m (data field rec)) enc) as Hex.
  { intros enc [H1 H2]. split.
    - intros rec (m & [= <-] & Hm). by apply H1.
    - eapply mem_cmp_ext; [exact H2| |done|done]. by intros rec (m & [= <-] & Hm). }
  assert (forall enc, (forall rec, sort_string field n rec = Some (enc rec)) ->
    sorts field n (fun rec => image_ok n (data field rec)) enc ->
    exists enc, (forall rec, sort_string field n rec = Some (enc rec)) /\
      sorts field n (fun rec => exists m, Some n = Some m /\ image_ok m (data field rec)) enc) as Hfin
    by (intros enc H1 H2; exists enc; auto).
  unfold sort_string in *. unfold fixed_size in Hn.
  assert (forall a b, column_cmp field a b = column_cmp field a b) as Hcmp by done.
  unfold column_cmp in Hcmp at 2.
  destruct (real_type field); try discriminate Hn; injection Hn as <-;
    try (eapply Hfin; [reflexivity|]).
  - (* TINY *) apply (sorts_int field 1 tiny_sort_string); [lia|apply tiny_sort_string_eq|done].
  - (* SHORT *) apply (sorts_int field 2 short_sort_string); [lia|apply short_sort_string_eq|done].
  - (* LONG *) apply (sorts_int field 4 long_sort_string); [lia|apply long_sort_string_eq|done].
  - (* FLOAT *) eexists. split; [reflexivity|]. apply (sorts_data field 4 float_ok _ float_cmp); [apply _| |done].
    apply float_sort_string_key.
  - (* DOUBLE *) eexists. split; [reflexivity|]. apply (sorts_data field 8 double_ok _ double_cmp); [apply _| |done].
    apply double_sort_string_key.
  - (* LONGLONG *) apply (sorts_int field 8 longlong_sort_string); [lia|apply longlong_sort_string_eq|done].
  - (* INT24 *) apply (sorts_int field 3 medium_sort_string); [lia|apply medium_sort_string_eq|done].
  - (* YEAR *) apply (sorts_int field 1 tiny_sort_string); [lia|apply tiny_sort_string_eq|done].
  - (* NEWDATE *) apply (sorts_data field 3 (image_ok 3) _ newdate_cmp); [| |done].
    + eapply mem_cmp_ext; [apply (mem_cmp_int 3 true); constructor|done| |].
      * intros p Hp. apply newdate_sort_string_eq, Hp.
      * intros a b Ha Hb. by rewrite int_cmp_unsigned by (done || lia).
    + done.
  - (* BIT *) eexists. split; [reflexivity|]. split; [apply bit_get_key_image_length|].
    eapply mem_cmp_ext; [apply mem_cmp_bit|done|done|done].
  - (* TIMESTAMP2 *) by apply sorts_memcpy.
  - (* DATETIME2 *) by apply sorts_memcpy.
  - (* TIME2 *) by apply sorts_memcpy.
  - (* NEWDECIMAL *) by apply sorts_memcpy.
  - (* ENUM *) by apply sorts_enum.
  - (* SET *) by apply sorts_enum.
Qed.

Lemma key_part_fixed field fpi n :
  fixed_size field = Some n -> m_max_image_len fpi = n ->
  m_pack_func fpi = Some pack_with_make_sort_key -> m_make_unpack_info_func fpi = None ->
  KeyPart field fpi (fixed_ok field).
Proof.
  intros Hn Hlen Hpf Hmk. destruct (fixed_sort_key field n Hn) as (enc & Hs & Hl & HM).
  apply (key_part_intro field fpi (fixed_ok field) enc pack_with_make_sort_key); try done.
  - intros rec u Hrec Hu. exists u. split; [|done]. simpl. unfold do_pack_with_make_sort_key.
    by rewrite Hlen, Hs, Hl, Nat.eqb_refl.
  - intros rec w mk _ _. by rewrite Hmk.
Qed.


(** *** VARCHAR columns in PAD SPACE collations *)

Lemma make_unpack_simple_varchar_ok codec so field rec w :
  Codec.codec_for codec so -> bytes_ok rec -> bytes_ok w ->
  exists w', do_make_unpack_simple_varchar codec field rec w = Some w' /\ bytes_ok w'.
Proof.
  intros Hc Hr Hw. unfold do_make_unpack_simple_varchar, data. cbv zeta.
  assert (bytes_ok (take (Nat.min (char_length field) (varstring_length field (drop (ptr field) rec)))
    (drop (length_bytes field) (drop (ptr field) rec)))) as Hs by auto with bytes.
  destruct (Codec.codec_written codec so _ w Hc Hs Hw) as (w' & -> & Hok). by exists (Bits.bw_data w').
Qed.

(** The unpack info does not influence the key. *)
Lemma pack_space_pad_info fpi field rec u : info_ok u ->
  exists u', do_pack_with_varchar_space_pad fpi field rec u =
    ((do_pack_with_varchar_space_pad fpi field rec None).1, u') /\ info_ok u'.
Proof.
  intros Hu. unfold do_pack_with_varchar_space_pad. cbv zeta.
  destruct (space_pad_loop _ _ _ _) as [enc pad]. eexists. split; [done|].
  destruct u as [w|]; [|done]. case_match; [|done].
  case_match; unfold Rd.write_uint16, Rd.write_uint8; apply bytes_ok_app; (split; [done|]).
  - auto with bytes.
  - apply bytes_ok_cons. split; [apply uchar_of_ok|apply bytes_ok_nil].
Qed.

Lemma key_part_varchar field fpi wlen k nsp sp weights
    `{!Collation.PadSpace (charset field) wlen sp weights} :
  real_type field = MYSQL_TYPE_VARCHAR -> space_pad_setup fpi field wlen k nsp sp ->
  m_pack_func fpi = Some pack_with_varchar_space_pad ->
  m_make_unpack_info_func fpi = Some dummy_make_unpack_info \/
  m_make_unpack_info_func fpi = Some make_unpack_simple_varchar /\
    (exists codec so, m_charset_codec fpi = Some codec /\ Codec.codec_for codec so) ->
  KeyPart field fpi (varchar_ok weights field).
Proof.
  intros Ht Hs Hpf Hmk.
  apply (key_part_intro field fpi _ (fun rec => (do_pack_with_varchar_space_pad fpi field rec None).1)
    pack_with_varchar_space_pad Hpf).
  - intros rec u Hok Hu. simpl. destruct (pack_space_pad_info fpi field rec u Hu) as (u' & -> & Hu').
    by exists u'.
  - intros rec w mk Hok Hw Emk. destruct Hmk as [E|[E (codec & so & Ec & Hc)]]; rewrite E in Emk;
      injection Emk as <-; simpl; [by exists w|].
    rewrite Ec. by apply (make_unpack_simple_varchar_ok codec so); [|apply (vo_bytes Hok)|].
  - eapply mem_cmp_ext; [by apply (mem_cmp_varchar fpi field None wlen k nsp sp weights)|done|done|].
    intros x y _ _. unfold column_cmp. by rewrite Ht.
Qed.

(** *** VARBINARY columns *)

Lemma pack_varbinary fpi field rec :
  charset field = Collation.my_charset_bin -> varchar_ok Some field rec ->
  (char_length field <= m_max_image_len fpi)%nat ->
  do_pack_with_varchar_encoding fpi field rec =
    pack_variable_format (varstring_data field (data field rec)).
Proof.
  intros Hcs Hv Himg. unfold do_pack_with_varchar_encoding. rewrite Hcs. f_equal.
  destruct (vo_chars Hv) as (ws & [= <-] & Hlen).
  cbn [Collation.strnxfrm Collation.my_charset_bin]. unfold Charset.my_strnxfrm_8bit_bin.
  rewrite !Nat.min_l by lia. rewrite take_ge by lia.
  unfold Charset.my_strxfrm_pad_desc_and_reverse. change (Charset.has_flag 0 _) with false.
  rewrite andb_false_r. done.
Qed.

Lemma key_part_varbinary field fpi :
  charset field = Collation.my_charset_bin -> real_type field = MYSQL_TYPE_VARCHAR ->
  Z.of_nat (field_length field) < 2 ^ 31 ->
  (char_length field <= m_max_image_len fpi)%nat ->
  m_pack_func fpi = Some pack_with_varchar_encoding -> m_make_unpack_info_func fpi = None ->
  KeyPart field fpi (varchar_ok Some field).
Proof.
  intros Hcs Ht Hl Himg Hpf Hmk.
  apply (key_part_intro field fpi _ (do_pack_with_varchar_encoding fpi field) _ Hpf).
  - intros rec u _ Hu. by exists u.
  - intros rec w mk _ _. by rewrite Hmk.
  - eapply (mem_cmp_ext (fun rec => bytes_ok (varstring_data field (data field rec)))).
    + apply (mem_cmp_comp (fun rec => varstring_data field (data field rec))), VarFormat.mem_cmp_variable_format.
    + intros rec. apply varstring_data_ok.
    + intros rec Hv. by apply pack_varbinary.
    + intros a b Ha Hb. unfold column_cmp, varstring_cmp. rewrite Ht, Hcs.
      rewrite !Nat.min_l by (apply (vo_length Ha) || apply (vo_length Hb)).
      apply Collation.strnncollsp_binary_lex.
      * fold (varstring_data field (data field a)). rewrite (varstring_data_length _ _ _ Ha).
        pose proof (vo_length Ha). lia.
      * fold (varstring_data field (data field b)). rewrite (varstring_data_length _ _ _ Hb).
        pose proof (vo_length Hb). lia.
Qed.

(** *** CHAR and BINARY columns *)

Lemma key_part_char field fpi wlen sp weights
    `{!Collation.PadSpace (charset field) wlen sp weights} :
  real_type field = MYSQL_TYPE_STRING -> Collation.strxfrm_multiply (charset field) = 1%nat ->
  m_max_image_len fpi = (wlen * char_length field)%nat ->
  m_pack_func fpi = Some pack_with_make_sort_key -> m_make_unpack_info_func fpi = None ->
  KeyPart field fpi (fun rec => string_ok field weights (data field rec)).
Proof.
  intros Ht Hm Himg Hpf Hmk.
  pose proof (mem_cmp_string field wlen sp weights Hm) as HM.
  apply (key_part_intro field fpi _ (fun rec => string_sort_string field (wlen * char_length field) (data field rec))
    _ Hpf).
  - intros rec u Hok Hu. exists u. split; [|done]. simpl. unfold do_pack_with_make_sort_key, sort_string.
    rewrite Ht, Himg. rewrite (proj2 (Nat.eqb_eq _ _)); [done|].
    destruct Hok as ((Hb & Hl) & ws & Ews & Lws). unfold string_sort_string. rewrite Hm, Nat.mul_1_r.
    rewrite (Collation.ps_strnxfrm_char _ ws) by (done || auto with bytes).
    rewrite Collation.length_wbytes, length_take, Nat.min_l by lia. done.
  - intros rec w mk _ _. by rewrite Hmk.
  - eapply mem_cmp_ext; [apply (mem_cmp_comp (data field)), HM|done|done|].
    intros a b _ _. unfold column_cmp. by rewrite Ht.
Qed.

End Parts.

(** ** Records *)

Section Records.

Context (mem : Z -> bytes).

(** A column of an index: as it is packed, how, and the values it holds. *)
Record column := {
  col_field : Field;
  col_info : mono_field_packing;
  col_ok : bytes -> Prop
}.

Definition column_ok (c : column) (rec : bytes) : Prop :=
  is_real_null (col_field c) rec = true \/ col_ok c rec.

Definition column_key (c : column) (rec : bytes) : bytes :=
  if real_maybe_null (col_field c) then
    if is_real_null (col_field c) rec then [0] else 1 :: part_key mem (col_field c) (col_info c) rec
  else part_key mem (col_field c) (col_info c) rec.

(** SQL's order of a column: NULL first. *)
Definition null_cmp (c : column) (a b : bytes) : comparison :=
  match is_real_null (col_field c) a, is_real_null (col_field c) b with
  | true, true => Eq
  | true, false => Lt
  | false, true => Gt
  | false, false => column_cmp (col_field c) a b
  end.

(** The column [c] is what [info] packs. *)
Definition packs (tbl : TABLE) (info : mono_field_packing) (c : column) : Prop :=
  (exists f, get_original_field_in_table info tbl = Some f /\
     col_field c = with_field_length (m_Key_part_length info) f) /\
  col_info c = info /\ KeyPart mem (col_field c) info (col_ok c).

Lemma is_real_null_maybe f rec : is_real_null f rec = true -> real_maybe_null f = true.
Proof. unfold is_real_null, real_maybe_null. by destruct (null_ptr f). Qed.

Lemma mem_cmp_column tbl info c : packs tbl info c ->
  MemCmp (column_ok c) (column_key c) (null_cmp c).
Proof.
  intros (_ & <- & [_ HM]) x y r s Hx Hy. unfold column_key, null_cmp.
  destruct (real_maybe_null (col_field c)) eqn:Em.
  - destruct (is_real_null (col_field c) x) eqn:Ex, (is_real_null (col_field c) y) eqn:Ey;
      simpl; try done.
    destruct Hx as [?|Hx]; [congruence|]. destruct Hy as [?|Hy]; [congruence|]. by apply HM.
  - destruct (is_real_null (col_field c) x) eqn:Ex; [by apply is_real_null_maybe in Ex; congruence|].
    destruct (is_real_null (col_field c) y) eqn:Ey; [by apply is_real_null_maybe in Ey; congruence|].
    destruct Hx as [?|Hx]; [congruence|]. destruct Hy as [?|Hy]; [congruence|]. by apply HM.
Qed.

(** *** All columns of an index *)

Definition index_key (cols : list column) (rec : bytes) : bytes := concat (map (fun c => column_key c rec) cols).

Fixpoint index_cmp (cols : list column) (a b : bytes) : comparison :=
  match cols with
  | [] => Eq
  | c :: cols => null_cmp c a b ;;; index_cmp cols a b
  end.

Definition record_ok (cols : list column) (rec : bytes) : Prop := Forall (fun c => column_ok c rec) cols.

Lemma mem_cmp_index tbl infos cols : Forall2 (packs tbl) infos cols ->
  MemCmp (record_ok cols) (index_key cols) (index_cmp cols).
Proof.
  intros H x y r s. induction H as [|info c infos cols Hc _ IH]; [done|].
  intros [Hx Hxs]%Forall_cons_iff [Hy Hys]%Forall_cons_iff.
  unfold index_key. simpl. rewrite <- !app_assoc, (mem_cmp_column tbl info c Hc x y) by done.
  rewrite cmp_then_assoc. f_equal. by apply IH.
Qed.

(** ** pack_record *)

Lemma pack_part_key tbl info c record st :
  packs tbl info c -> column_ok c record -> info_ok (ps_unpack_info st) ->
  exists st', pack_part mem tbl info record st = Some st' /\
    ps_tuple st' = ps_tuple st ++ column_key c record /\ info_ok (ps_unpack_info st').
Proof.
  intros ((f & Hf & Ec) & <- & Hkp) Hok Hu. unfold pack_part, pack_field, column_key. rewrite Hf, <- Ec.
  assert (is_real_null (col_field c) record = false -> exists u',
    pack_value mem (col_field c) (col_info c) record (ps_unpack_info st) =
      Some (part_key mem (col_field c) (col_info c) record, u') /\ info_ok u') as Hp.
  { intros Hn. destruct Hok as [Hok|Hok]; [congruence|]. by apply (kp_pack mem (ok := col_ok c)). }
  destruct (real_maybe_null (col_field c)) eqn:Em.
  - destruct (is_real_null (col_field c) record); [by eexists|].
    destruct (Hp eq_refl) as (u' & -> & Hu'). by eexists.
  - destruct (is_real_null (col_field c) record) eqn:En;
      [by apply is_real_null_maybe in En; congruence|].
    destruct (Hp eq_refl) as (u' & -> & Hu'). by eexists.
Qed.

(** The loop packs the columns of its key parts; a hidden primary key
    replaces the last part. *)
Lemma pack_record_loop_key tbl record usk hidden infos cols i st :
  Forall2 (packs tbl) infos cols -> record_ok cols record -> info_ok (ps_unpack_info st) ->
  forall rest n, n = (i + length cols + match hidden with Some _ => 1 | None => 0 end)%nat ->
  (hidden <> None -> rest <> []) ->
  exists st', pack_record_loop mem tbl record usk hidden n i (infos ++ rest) st = Some st' /\
    ps_tuple st' = ps_tuple st ++ index_key cols record ++
      match hidden, rest with Some id, info :: _ => fill_hidden_pk_val info id | _, _ => [] end /\
    info_ok (ps_unpack_info st').
Proof.
  intros H. revert i st. induction H as [|info c infos cols Hc _ IH]; intros i st Hok Hu rest n Hn Hrest.
  - simpl in Hn. destruct hidden as [id|].
    + destruct rest as [|info rest]; [by destruct (Hrest ltac:(done))|].
      cbn [pack_record_loop app]. rewrite (proj2 (Nat.leb_gt _ _)), (proj2 (Nat.eqb_eq _ _)) by lia. by eexists.
    + exists st. rewrite !app_nil_r. destruct rest; simpl; rewrite (proj2 (Nat.leb_le _ _)) by lia; done.
  - apply Forall_cons_iff in Hok as [Hok Hoks]. simpl in Hn.
    cbn [pack_record_loop app]. rewrite (proj2 (Nat.leb_gt _ _)) by lia.
    match goal with |- context [pack_part _ _ _ _ ?s] => set (st0 := s) end.
    destruct (pack_part_key tbl info c record st0 Hc Hok Hu) as (st1 & -> & Ht & Hu1).
    destruct (IH (S i) st1 Hoks Hu1 rest n ltac:(lia) Hrest) as (st' & E' & Ht' & Hu').
    exists st'. split; [|split; [|done]].
    + destruct hidden; [|done]. rewrite (proj2 (Nat.eqb_neq _ _)) by lia. done.
    + rewrite Ht', Ht. unfold index_key. simpl. by rewrite <- !app_assoc.
Qed.

(** [pack_record] without a hidden primary key. *)
Lemma pack_record_key kd tbl cols record u n :
  table_has_hidden_pk tbl = false -> Forall2 (packs tbl) (m_pack_info kd) cols ->
  (n <= length cols)%nat -> (n <> MAX_REF_PARTS)%nat ->
  record_ok (if (n =? 0)%nat then cols else take n cols) record ->
  exists st, pack_record mem kd tbl record u false None n = Some st /\
    ps_tuple st = index_key (if (n =? 0)%nat then cols else take n cols) record.
Proof.
  intros Hh Hp Hn Hmax Hok. unfold pack_record, parts_to_pack. rewrite Hh, (proj2 (Nat.eqb_neq _ _) Hmax).
  pose proof (Forall2_length Hp) as Hlen. set (m := if (n =? 0)%nat then length cols else n).
  assert ((if (n =? 0)%nat then cols else take n cols) = take m cols) as Htake.
  { unfold m. destruct (n =? 0)%nat; [by rewrite take_ge by lia|done]. }
  rewrite Htake in *.
  set (u0 := match u with Some w => Some (Rd.write_uint16 0 (Rd.clear w)) | None => None end).
  set (st0 := {| ps_tuple := []; ps_unpack_info := u0; ps_null_fields := 0; ps_unique_sk_pack_size := None |}).
  assert (info_ok u0) as Hu0.
  { unfold u0. destruct u; [|done]. apply bytes_ok_app. split; [apply bytes_ok_nil|auto with bytes]. }
  assert (m <= length cols)%nat as Hm by (unfold m; destruct (n =? 0)%nat; lia).
  destruct (pack_record_loop_key tbl record None None (take m (m_pack_info kd)) (take m cols) 0 st0
    ltac:(by apply Forall2_take) Hok Hu0 (drop m (m_pack_info kd)) m)
    as (st' & E & Ht & _); [rewrite length_take; lia|done|].
  rewrite take_drop in E. rewrite app_nil_r in Ht.
  assert ((if (false && ((n =? 0)%nat || false))%bool then m_key_parts kd - 1
           else if ((n =? 0)%nat || false || false)%bool then m_key_parts kd else n)%nat = m) as ->.
  { unfold m, m_key_parts. destruct (n =? 0)%nat; simpl; lia. }
  rewrite E. eexists. split; [reflexivity|]. simpl. done.
Qed.

End Records.

End KeyOrder.
