(* ===== verification/Index.v ===== *)
(** * Index: from the definition of an index to the order of its keys

    Which columns an index may have ([supported]), what
    [mono_field_packing::setup] and [mono_key_def::setup] make of them, and
    the theorems on [pack_record] for the resulting index definition. *)

From stdpp Require Import gmap.
From S2P Require Import Prelude Buff Charset Latin1 Collation Field Codec Packing VarFormat SpacePad.
From S2P Require Import Varchar KeySetup KeyDef KeyOrder.
Import Field Packing Varchar KeySetup KeyDef KeyOrder.

Module Index.

(** A part of an index with the values its column holds. *)
Abbreviation indexed_part := (KEY_PART_INFO * (bytes -> Prop))%type.

Section Index.

Context (mem : Z -> bytes).

(** ** Supported columns *)

(** The collations of VARCHAR columns whose values are restored from their
    keys: the _bin collations, and simple collations in which the space is
    the only character of its weight. *)
Inductive varchar_collation (cs : Collation.CHARSET_INFO) (wlen : nat) (sp : Z)
    (weights : bytes -> option (list Z)) : Prop :=
  | collation_bin :
      Collation.number cs = Collation.COLLATION_LATIN1_BIN \/
      Collation.number cs = Collation.COLLATION_UTF8_BIN \/
      Collation.number cs = Collation.COLLATION_UTF8MB4_BIN -> varchar_collation cs wlen sp weights
  | collation_simple so :
      Collation.sort_order cs = Some so -> Codec.mono_is_collation_supported cs = true ->
      Collation.number cs <> Collation.COLLATION_LATIN1_BIN ->
      Collation.number cs <> Collation.COLLATION_UTF8_BIN ->
      Collation.number cs <> Collation.COLLATION_UTF8MB4_BIN -> varchar_collation cs wlen sp weights.

(** A column of length [len] in the index, and the values it holds: the types
    of a fixed size, VARCHAR and VARBINARY in their full length.  The engine
    also indexes CHAR and BINARY columns, prefixes of columns, and with these
    BLOB and TEXT columns, which are left out. *)
Inductive supported (field : Field) (len : nat) : (bytes -> Prop) -> Prop :=
  | supported_fixed n :
      fixed_size field = Some n -> pack_length field = n -> supported field len (fixed_ok field)
  | supported_varchar wlen k nsp sp weights :
      varchar_column field -> len = field_length field ->
      Collation.PadSpace (charset field) wlen sp weights ->
      collation_spaces (charset field) wlen k nsp sp ->
      varchar_collation (charset field) wlen sp weights ->
      supported field len (varchar_ok weights field)
  | supported_varbinary :
      varchar_column field -> len = field_length field ->
      charset field = Collation.my_charset_bin -> supported field len (varchar_ok Some field).

(** The column as [pack_record] sees it has the same values and the same
    order. *)
Lemma with_field_length_fixed field len n :
  fixed_size field = Some n -> fixed_size (with_field_length len field) = Some n.
Proof. unfold fixed_size, with_field_length, uneven. simpl. by destruct (real_type field). Qed.

Lemma fixed_ok_with_field_length field len n rec :
  fixed_size field = Some n -> fixed_ok field rec -> fixed_ok (with_field_length len field) rec.
Proof.
  intros Hn. unfold fixed_ok. rewrite (with_field_length_fixed field len n Hn), Hn.
  unfold fixed_size in Hn. simpl. by destruct (real_type field).
Qed.

Lemma column_cmp_with_field_length field len n a b :
  fixed_size field = Some n -> column_cmp (with_field_length len field) a b = column_cmp field a b.
Proof. unfold fixed_size, column_cmp. simpl. by destruct (real_type field). Qed.

Lemma with_field_length_same field :
  varchar_column field -> with_field_length (field_length field) field = field.
Proof.
  intros Hc. pose proof (vc_type _ Hc) as Ht. pose proof (vc_pack_length _ Hc) as Hp.
  pose proof (vc_field_length _ Hc) as Hl. pose proof (vc_mbmaxlen _ Hc) as Hm.
  unfold with_field_length. rewrite Ht, <- Hp, Hl, Nat.div_mul by lia. rewrite <- Hl, <- Ht. by destruct field.
Qed.

(** ** The choice of setup fits the column *)

Lemma key_part_impl field fpi (P Q : bytes -> Prop) :
  (forall rec, Q rec -> P rec) -> KeyPart mem field fpi P -> KeyPart mem field fpi Q.
Proof.
  intros H [Hp HM]. split; [auto|].
  by apply (mem_cmp_ext P Q (part_key mem field fpi) _ (column_cmp field)).
Qed.

Lemma setup_supported field len ok keynr part fpi0 :
  supported field len ok ->
  exists res fpi, setup true (Some field) keynr part len fpi0 = Some (res, fpi) /\
    m_maybe_null fpi = real_maybe_null field /\
    KeyPart mem (with_field_length len field) fpi ok /\
    forall a b, column_cmp (with_field_length len field) a b = column_cmp field a b.
Proof.
  intros [n Hn Hl|wlen k nsp sp weights Hc -> Hps Hsp Hcoll|Hc -> Hcs].
  - destruct (setup_sort_key field keynr part len fpi0) as (res & fpi & E & Hi & Hpf & Hmk & Hnull & _).
    { unfold fixed_size in Hn. by destruct (real_type field). }
    exists res, fpi. split_and!; try done.
    + apply (key_part_impl _ _ (fixed_ok (with_field_length len field))).
      * intros rec. by apply (fixed_ok_with_field_length field len n).
      * apply (key_part_fixed mem _ fpi n); try done; [by apply with_field_length_fixed|congruence].
    + intros a b. by apply (column_cmp_with_field_length field len n).
  - rewrite with_field_length_same by done. destruct Hcoll as [Hn|so Hso Hsup N1 N2 N3].
    + destruct (setup_varchar_bin field keynr part fpi0 wlen k nsp sp Hc Hsp Hn)
        as (fpi & E & Hset & _ & Hnull & Hpf & Hmk & _).
      exists true, fpi. split_and!; try done.
      apply (key_part_varchar mem field fpi wlen k nsp sp weights); try done; [by apply vc_type|by left].
    + destruct (setup_varchar_simple field keynr part fpi0 wlen k nsp sp (Codec.collation_codec so) Hc Hsp)
        as (fpi & E & Hset & Hcodec & Hnull & Hpf & Hmk & _); try done.
      { unfold Codec.mono_init_collation_mapping. by rewrite Hsup, Hso. }
      exists true, fpi. split_and!; try done.
      apply (key_part_varchar mem field fpi wlen k nsp sp weights); try done; [by apply vc_type|].
      right. split; [done|]. exists (Codec.collation_codec so), so. split; [done|apply Codec.codec_spec].
  - rewrite with_field_length_same by done.
    destruct (setup_varbinary field keynr part fpi0 Hc Hcs) as (fpi & E & Hnull & Hi & Hpf & Hmk & _).
    exists true, fpi. split_and!; try done.
    apply key_part_varbinary; try done; [by apply vc_type|]. pose proof (vc_limit _ Hc). lia.
Qed.

(** ** The columns of an index *)

Definition indexed (tbl : TABLE) (c : indexed_part) : Prop :=
  supported (kp_field c.1) (kp_length c.1) c.2 /\
  fields tbl !! field_index (kp_field c.1) = Some (kp_field c.1).

(** What [setup] makes of a part. *)
Definition column_of (c : indexed_part) (info : mono_field_packing) : column :=
  {| col_field := with_field_length (kp_length c.1) (kp_field c.1); col_info := info; col_ok := c.2 |}.

Record part_packed (uninit : mono_field_packing) (tbl : TABLE) (c : indexed_part)
    (info : mono_field_packing) : Prop := {
  pp_packs : packs mem tbl info (column_of c info);
  pp_maybe_null : m_maybe_null info = real_maybe_null (kp_field c.1);
  pp_cmp a b :
    column_cmp (with_field_length (kp_length c.1) (kp_field c.1)) a b = column_cmp (kp_field c.1) a b;
  pp_setup : exists res,
    setup true (Some (kp_field c.1)) (m_keynr info) (m_key_part info) (kp_length c.1) uninit = Some (res, info);
  pp_field : get_field_in_table info tbl = Some (kp_field c.1)
}.

Section SetupLoop.

Context (uninit : mono_field_packing) (tbl : TABLE).
Context (ki : KEY) (pk_info : option KEY) (secondary_key hidden_pk_exists : bool) (pk_key_parts : nat).

Notation setup_loop := (setup_loop uninit tbl ki pk_info secondary_key hidden_pk_exists pk_key_parts).
Notation setup_part := (setup_part uninit tbl ki pk_info secondary_key hidden_pk_exists pk_key_parts).
Notation advance := (advance tbl ki pk_info secondary_key hidden_pk_exists).

(** [keyno_to_set] and [keypart_to_set] say where the remaining parts are. *)
Definition at_parts (st : setup_state) (parts : list KEY_PART_INFO) : Prop :=
  exists key pre, key_info tbl !! su_keyno st = Some key /\ key_part key = pre ++ parts /\
    su_keypart st = Z.of_nat (length pre) /\ Z.of_nat (length (key_part key)) < 2 ^ 32.

Lemma at_parts_next st st' c parts :
  at_parts st (c :: parts) -> su_keyno st' = su_keyno st -> su_keypart st' = uint_of (su_keypart st + 1) ->
  at_parts st' parts.
Proof.
  intros (key & pre & Hk & Hp & Hi & Hl) Hn Hi'. exists key, (pre ++ [c]).
  rewrite Hn, Hi', Hi, <- app_assoc, length_app. split_and!; try done. simpl.
  rewrite Hp, length_app in Hl. simpl in Hl. unfold uint_of. rewrite Z.mod_small by lia. lia.
Qed.

Lemma concat_singletons {A B} (f : A -> B) l : concat (map (fun x => [f x]) l) = map f l.
Proof. induction l as [|x l IH]; [done|]. simpl. by rewrite IH. Qed.

(** What the parts of an index add to the state: their packing, the bound of
    their keys, and which parts of the primary key they are. *)
Definition image_bound (c : indexed_part) (info : mono_field_packing) : nat :=
  ((if real_maybe_null (kp_field c.1) then 1 else 0) + m_max_image_len info)%nat.

Definition pk_part_of (c : indexed_part) : list (option nat) :=
  match pk_info with
  | Some pk => [find_pk_part (field_index (kp_field c.1)) 0 (take pk_key_parts (key_part pk))]
  | None =>
      if secondary_key && hidden_pk_exists then [None] else []
  end.

Record grown (st st' : setup_state) (cols : list indexed_part) (infos : list mono_field_packing) : Prop := {
  gr_infos : su_infos st' = su_infos st ++ infos;
  gr_packed : Forall2 (part_packed uninit tbl) cols infos;
  gr_max_len : su_max_len st' = (su_max_len st + sum_list (zip_with image_bound cols infos))%nat;
  gr_pk_part_no : su_pk_part_no st' = su_pk_part_no st ++ concat (map pk_part_of cols)
}.

Lemma grown_nil st st' :
  su_infos st' = su_infos st -> su_max_len st' = su_max_len st -> su_pk_part_no st' = su_pk_part_no st ->
  grown st st' [] [].
Proof. intros H1 H2 H3. split; simpl; rewrite ?app_nil_r; [done|constructor|lia|done]. Qed.

Lemma grown_app st st1 st2 c1 i1 c2 i2 :
  grown st st1 c1 i1 -> grown st1 st2 c2 i2 -> grown st st2 (c1 ++ c2) (i1 ++ i2).
Proof.
  intros [H1 H2 H3 H4] [K1 K2 K3 K4]. split.
  - by rewrite K1, H1, app_assoc.
  - by apply Forall2_app.
  - rewrite K3, H3, zip_with_app by apply (Forall2_length H2). rewrite sum_list_with_app. lia.
  - by rewrite K4, H4, map_app, concat_app, app_assoc.
Qed.

Lemma setup_part_packed c parts src_i st :
  indexed tbl c -> su_key_part st = Some (c.1 :: parts) -> at_parts st (c.1 :: parts) ->
  (hidden_pk_exists = true -> su_simulating_extkey st = false) ->
  exists info st', setup_part src_i st = Some st' /\ grown st st' [c] [info] /\
    (su_key_part st', su_simulating_extkey st', su_keyno st', su_keypart st') = advance src_i st.
Proof.
  intros [Hs Hf] Hp (key & pre & Hk & Hparts & Hidx & _) Hsim. unfold KeyDef.setup_part. rewrite Hp.
  destruct (setup_supported (kp_field c.1) (kp_length c.1) c.2 (su_keyno st) (Z.to_nat (su_keypart st)) uninit Hs)
    as (res & info & E & Hnull & Hkp & Hc). rewrite E.
  destruct (setup_location _ _ _ _ _ _ _ E) as (Hi & Hl & Hkn & Hkpt).
  destruct (advance src_i st) as [[[np sim] kn] kp] eqn:Ea.
  exists info. eexists. split; [reflexivity|]. split; [|done]. split; cbn.
  - done.
  - constructor; [|constructor]. split; [|done|done| |].
    + split; [|done]. exists (kp_field c.1). unfold get_original_field_in_table. by rewrite Hi, Hl.
    + exists res. by rewrite Hkn, Hkpt.
    + unfold get_field_in_table. rewrite Hkn, Hkpt, Hk, Hparts, Hidx, Nat2Z.id.
      by rewrite list_lookup_middle.
  - unfold image_bound. lia.
  - rewrite app_nil_r. f_equal. unfold pk_part_of. destruct pk_info; [done|].
    destruct secondary_key; [|done]. destruct hidden_pk_exists; [|done]. simpl. by rewrite Hsim.
Qed.

(** The pointers when the parts of the index are done. *)
Definition index_done (st : setup_state) : Prop :=
  if secondary_key then
    su_simulating_extkey st = true /\
    su_key_part st =
      if hidden_pk_exists then None else match pk_info with Some pk => Some (key_part pk) | None => None end
  else su_key_part st = Some [].

(** The primary key follows. *)
Definition pk_follows (st : setup_state) : Prop :=
  secondary_key = true -> hidden_pk_exists = false ->
  su_keypart st = 0 /\ su_keyno st = match primary_key tbl with Some k => k | None => 0%nat end.

(** The loop over the parts of the index itself. *)
Lemma setup_loop_index cols src_i m st :
  Forall (indexed tbl) cols -> cols <> [] ->
  su_key_part st = Some (map fst cols) -> at_parts st (map fst cols) -> su_simulating_extkey st = false ->
  ext_key_parts ki = (src_i + length cols)%nat ->
  exists infos st', setup_loop (length cols + m) src_i st = setup_loop m (src_i + length cols) st' /\
    grown st st' cols infos /\ index_done st' /\ pk_follows st'.
Proof.
  intros H. revert src_i st. induction H as [|c cols Hp Hrest IH]; intros src_i st Hne Hkp Hat Hsim Hext; [done|].
  destruct (setup_part_packed c (map fst cols) src_i st Hp Hkp Hat ltac:(done)) as (info & st1 & E & Hg & Ha).
  unfold KeyDef.advance in Ha. rewrite Hkp in Ha. cbn [tl map] in Ha. cbn [length] in Hext.
  cbn [KeyDef.setup_loop length Nat.add]. rewrite Hkp, Hsim. simpl andb. cbv iota. cbn [map]. rewrite E.
  match goal with |- context [KeyDef.setup_loop _ _ _ _ _ _ _ _ _ ?s] => set (st2 := s) end.
  destruct cols as [|q cols].
  - exists [info], st2. rewrite Nat.add_1_r. split_and!.
    + done.
    + destruct Hg. by split.
    + unfold index_done. simpl. simpl in Hext. rewrite (proj2 (Nat.eqb_eq _ _)) in Ha by lia.
      rewrite andb_true_r in Ha. destruct secondary_key; [|simpl in Ha; congruence].
      destruct hidden_pk_exists; simpl in Ha; by simplify_eq.
    + intros -> ->. simpl in Hext. rewrite (proj2 (Nat.eqb_eq _ _)) in Ha by lia. simpl in Ha.
      injection Ha as _ _ Hkn Hkp'. simpl. by rewrite Hkp', Hkn.
  - simpl in Hext. rewrite (proj2 (Nat.eqb_neq _ _)), andb_false_r in Ha by lia. injection Ha as Ha1 Ha2 Ha3 Ha4.
    destruct (IH (S src_i) st2) as (infos & st' & E' & Hg' & Hd & Hf);
      [done|done| |simpl; congruence|simpl; lia|].
    { apply (at_parts_next st _ c.1); [done|done|]. simpl. by rewrite Ha4. }
    exists (info :: infos), st'. split_and!.
    + rewrite E'. f_equal. simpl. lia.
    + apply (grown_app st st2 st' [c] [info]); [|done]. destruct Hg. by split.
    + done.
    + done.
Qed.

(** The loop over the parts of the primary key: those that the index does not
    have already. *)
Definition missing (cols : list indexed_part) : list indexed_part :=
  List.filter (fun c => negb (already_present c.1 (take (ext_key_parts ki) (key_part ki)))) cols.

Lemma setup_loop_pk cols src_i st :
  Forall (indexed tbl) cols -> hidden_pk_exists = false ->
  su_key_part st = Some (map fst cols) -> at_parts st (map fst cols) -> su_simulating_extkey st = true ->
  (ext_key_parts ki <= src_i)%nat ->
  exists infos st', setup_loop (length cols) src_i st = Some st' /\
    grown st st' (missing cols) infos.
Proof.
  intros H Hh. revert src_i st. induction H as [|c cols Hp Hrest IH]; intros src_i st Hkp Hat Hsim Hext.
  { exists [], st. split; [done|]. by apply grown_nil. }
  cbn [KeyDef.setup_loop length]. rewrite Hkp, Hsim, Hh. cbn [map negb andb]. unfold missing. cbn [List.filter].
  destruct (already_present c.1 (take (ext_key_parts ki) (key_part ki))); cbn [negb].
  - match goal with |- context [KeyDef.setup_loop _ _ _ _ _ _ _ _ _ ?s] => set (st2 := s) end.
    rewrite <- Hh. destruct (IH (S src_i) st2) as (infos & st' & E' & Hg');
      [done|by apply (at_parts_next st _ c.1)|done|lia|].
    exists infos, st'. split; [done|]. destruct Hg'. by split.
  - rewrite <- Hh. destruct (setup_part_packed c (map fst cols) src_i st Hp Hkp Hat ltac:(congruence))
      as (info & st1 & E & Hg & Ha).
    unfold KeyDef.advance in Ha. rewrite Hkp in Ha. cbn [tl map] in Ha.
    rewrite (proj2 (Nat.eqb_neq _ _)), andb_false_r in Ha by lia. injection Ha as Ha1 Ha2 Ha3 Ha4. rewrite E.
    match goal with |- context [KeyDef.setup_loop _ _ _ _ _ _ _ _ _ ?s] => set (st2 := s) end.
    destruct (IH (S src_i) st2) as (infos & st' & E' & Hg');
      [done| |simpl; congruence|lia|].
    { apply (at_parts_next st _ c.1); [done|done|]. simpl. by rewrite Ha4. }
    exists (info :: infos), st'. split; [done|].
    apply (grown_app st st2 st' [c] [info]); [|done]. destruct Hg. by split.
Qed.

End SetupLoop.

(** ** Index definitions *)

(** An index of [tbl] that is to be set up: its own parts [cols], and for a
    secondary index those of the primary key. *)
Record index_definition (tbl : TABLE) (kd : mono_key_def) (ki : KEY) (cols pk_cols : list indexed_part) : Prop := {
  id_fresh : m_maxlength kd = 0%nat;
  id_key : key_info tbl !! m_keyno kd = Some ki;
  id_parts : key_part ki = map fst cols;
  id_ext : ext_key_parts ki = length cols;
  id_nonempty : cols <> [];
  id_small : Z.of_nat (length cols) < 2 ^ 32 /\ Z.of_nat (length pk_cols) < 2 ^ 32;
  id_indexed : Forall (indexed tbl) cols;
  id_primary : exists k pk, primary_key tbl = Some k /\ key_info tbl !! k = Some pk /\
    (m_index_type kd = INDEX_TYPE_PRIMARY /\ pk_cols = [] \/
     m_index_type kd = INDEX_TYPE_SECONDARY /\ key_part pk = map fst pk_cols /\
       ext_key_parts pk = length pk_cols /\ Forall (indexed tbl) pk_cols)
}.

(** The columns of its keys. *)
Definition index_columns (ki : KEY) (cols pk_cols : list indexed_part) : list indexed_part :=
  cols ++ missing ki pk_cols.

Lemma key_def_setup_packed uninit tbl kd0 ki cols pk_cols :
  index_definition tbl kd0 ki cols pk_cols ->
  exists kd, key_def_setup uninit tbl kd0 = Some kd /\
    Forall2 (part_packed uninit tbl) (index_columns ki cols pk_cols) (m_pack_info kd) /\
    m_index_type kd = m_index_type kd0 /\ m_keyno kd = m_keyno kd0 /\
    m_maxlength kd = sum_list (zip_with image_bound (index_columns ki cols pk_cols) (m_pack_info kd)) /\
    (m_index_type kd0 = INDEX_TYPE_SECONDARY ->
     m_pk_key_parts kd = length pk_cols /\
     m_pk_part_no kd = map (fun c => find_pk_part (field_index (kp_field c.1)) 0 (map fst pk_cols))
                         (index_columns ki cols pk_cols)).
Proof.
  intros [Hmax Hki Hparts Hext Hne [Hs1 Hs2] Hcols (k & pk & Hpk & Hpki & Htype)].
  unfold key_def_setup. rewrite Hmax. cbn [Nat.eqb negb]. unfold table_has_hidden_pk. rewrite Hki, Hpk, Hpki.
  match goal with |- context [setup_loop _ _ _ ?p ?s ?h ?n (_ + ?n) 0 ?st] =>
    destruct (setup_loop_index uninit tbl ki p s h n cols 0 n st Hcols Hne)
      as (infos & st' & E & Hg & Hdone & Hfol); [by rewrite <- Hparts| |done|done|] end.
  { exists ki, []. split_and!; try done. by rewrite Hparts, length_map. }
  rewrite <- Hext in E at 1. destruct Htype as [[Ht ->]|(Ht & Hpp & Hpe & Hpcols)]; rewrite Ht in *.
  - cbn in E, Hdone. rewrite decide_False by done.
    assert (bool_decide (INDEX_TYPE_PRIMARY = INDEX_TYPE_SECONDARY) = false) as Hb by done.
    rewrite Hb in *. rewrite E. eexists. split; [reflexivity|]. unfold index_columns. simpl. rewrite app_nil_r.
    destruct Hg as [Hi Hpks Hm Hn]. simpl in Hi, Hm. by rewrite Hi, Hm.
  - rewrite decide_False by done.
    assert (bool_decide (INDEX_TYPE_SECONDARY = INDEX_TYPE_SECONDARY) = true) as Hb by done.
    rewrite Hb in *. destruct Hdone as [Hsim Hkp]. rewrite Hpp in Hkp.
    assert (at_parts tbl st' (map fst pk_cols)) as Hat.
    { destruct (Hfol eq_refl eq_refl) as [H0 H1]. rewrite Hpk in H1. exists pk, [].
      rewrite H0, H1, Hpp, length_map. done. }
    destruct (setup_loop_pk uninit tbl ki (Some pk) true false (ext_key_parts pk) pk_cols
      (0 + length cols) st' Hpcols eq_refl Hkp Hat Hsim ltac:(lia)) as (infos2 & st2 & E2 & Hg2).
    rewrite Hpe in E, E2 |- *. rewrite E, E2. eexists. split; [reflexivity|].
    destruct (grown_app _ _ _ _ _ _ _ _ _ _ _ _ _ Hg Hg2) as [Hi Hpks Hm Hn]. simpl in Hi, Hm, Hn.
    cbn [m_pack_info set_key_parts m_maxlength m_pk_part_no m_pk_key_parts]. rewrite Hi, Hm, Hn.
    split_and!; try done. intros _. split; [done|].
    unfold pk_part_of. rewrite Hpp, Hpe, take_ge by (rewrite length_map; lia). apply concat_singletons.
Qed.

Lemma indexed_columns tbl kd0 ki cols pk_cols :
  index_definition tbl kd0 ki cols pk_cols -> Forall (indexed tbl) (index_columns ki cols pk_cols).
Proof.
  intros Hid. unfold index_columns. apply Forall_app. split; [apply (id_indexed _ _ _ _ _ Hid)|].
  destruct (id_primary _ _ _ _ _ Hid) as (k & pk & _ & _ & [[_ ->]|(_ & _ & _ & H)]); [done|].
  unfold missing. rewrite Forall_forall in *. intros c Hc. apply H. by apply filter_In in Hc as [? _].
Qed.

(** ** The order of keys *)

(** SQL's order of records by the parts of an index: NULL first. *)
Definition part_cmp (p : KEY_PART_INFO) (a b : bytes) : comparison :=
  match is_real_null (kp_field p) a, is_real_null (kp_field p) b with
  | true, true => Eq
  | true, false => Lt
  | false, true => Gt
  | false, false => column_cmp (kp_field p) a b
  end.

Fixpoint parts_cmp (parts : list KEY_PART_INFO) (a b : bytes) : comparison :=
  match parts with
  | [] => Eq
  | p :: parts => part_cmp p a b ;;; parts_cmp parts a b
  end.

Definition row_ok (cols : list indexed_part) (rec : bytes) : Prop :=
  Forall (fun c => is_real_null (kp_field c.1) rec = true \/ c.2 rec) cols.

Definition columns_of (cols : list indexed_part) (infos : list mono_field_packing) : list column :=
  zip_with column_of cols infos.

Lemma columns_of_packs uninit tbl cols infos : Forall2 (part_packed uninit tbl) cols infos ->
  Forall2 (packs mem tbl) infos (columns_of cols infos).
Proof. induction 1 as [|c info cols infos Hp _ IH]; constructor; [apply Hp|done]. Qed.

Lemma columns_of_cmp uninit tbl cols infos a b : Forall2 (part_packed uninit tbl) cols infos ->
  index_cmp (columns_of cols infos) a b = parts_cmp (map fst cols) a b.
Proof.
  induction 1 as [|c info cols infos Hc _ IH]; [done|].
  simpl. rewrite IH. f_equal. unfold null_cmp, part_cmp, column_of. cbn [col_field].
  rewrite (pp_cmp _ _ _ _ Hc). done.
Qed.

Lemma columns_of_ok uninit tbl cols infos rec : Forall2 (part_packed uninit tbl) cols infos ->
  row_ok cols rec -> record_ok (columns_of cols infos) rec.
Proof.
  induction 1 as [|c info cols infos Hc _ IH]; [constructor|].
  intros [Hr Hrs]%Forall_cons_iff. constructor; [done|by apply IH].
Qed.

(** [pack_record] with [n] parts, or all of them for 0: only they have to hold
    values. *)
Lemma pack_index_prefix uninit tbl kd cols rec u n :
  table_has_hidden_pk tbl = false -> Forall2 (part_packed uninit tbl) cols (m_pack_info kd) ->
  (n <= length cols)%nat -> (n <> MAX_REF_PARTS)%nat ->
  row_ok (if (n =? 0)%nat then cols else take n cols) rec ->
  exists st, pack_record mem kd tbl rec u false None n = Some st /\
    ps_tuple st = index_key mem (if (n =? 0)%nat then columns_of cols (m_pack_info kd)
                                 else take n (columns_of cols (m_pack_info kd))) rec.
Proof.
  intros Hh Hp Hn Hmax Hrow. apply pack_record_key; try done.
  - by apply (columns_of_packs uninit).
  - unfold columns_of. rewrite length_zip_with. pose proof (Forall2_length Hp). lia.
  - destruct (n =? 0)%nat; [by apply (columns_of_ok uninit tbl)|].
    unfold columns_of. rewrite zip_with_take. apply (columns_of_ok uninit tbl); [by apply Forall2_take|done].
Qed.

Lemma pack_index uninit tbl kd cols rec u n :
  table_has_hidden_pk tbl = false -> Forall2 (part_packed uninit tbl) cols (m_pack_info kd) ->
  (n <= length cols)%nat -> (n <> MAX_REF_PARTS)%nat -> row_ok cols rec ->
  exists st, pack_record mem kd tbl rec u false None n = Some st /\
    ps_tuple st = index_key mem (if (n =? 0)%nat then columns_of cols (m_pack_info kd)
                                 else take n (columns_of cols (m_pack_info kd))) rec.
Proof.
  intros Hh Hp Hn Hmax Hrow. apply (pack_index_prefix uninit); try done.
  case_match; [done|by apply Forall_take].
Qed.

Lemma index_definition_pk tbl kd ki cols pk_cols :
  index_definition tbl kd ki cols pk_cols -> table_has_hidden_pk tbl = false.
Proof. intros H. destruct (id_primary _ _ _ _ _ H) as (k & pk & E & _). unfold table_has_hidden_pk. by rewrite E. Qed.

End Index.

(** ** A table

    t (id INT NOT NULL PRIMARY KEY, name VARCHAR(10) utf8mb4_bin NULL, KEY (name)):
    a byte of NULL bits, four bytes [id], a length byte and 40 bytes [name]. *)

Definition sample_id : Field := {|
  field_index := 0; real_type := MYSQL_TYPE_LONG; ptr := 1; null_ptr := None; null_bit := 0;
  field_length := 11; pack_length := 4; char_length := 11; unsigned_flag := false;
  charset := Collation.my_charset_latin1; length_bytes := 0; packlength := 0;
  bit_ptr := 0; bit_ofs := 0; bit_len := 0; bytes_in_rec := 0; precision := 0; decimals := 0 |}.

Definition sample_name : Field := {|
  field_index := 1; real_type := MYSQL_TYPE_VARCHAR; ptr := 5; null_ptr := Some 0%nat; null_bit := 1;
  field_length := 40; pack_length := 41; char_length := 10; unsigned_flag := false;
  charset := Collation.my_charset_utf8mb4_bin; length_bytes := 1; packlength := 0;
  bit_ptr := 0; bit_ofs := 0; bit_len := 0; bytes_in_rec := 0; precision := 0; decimals := 0 |}.

Definition sample_pk : KEY := {|
  user_defined_key_parts := 1; ext_key_parts := 1; key_flags_nosame := true;
  key_part := [{| kp_field := sample_id; kp_length := 4 |}] |}.

Definition sample_sk : KEY := {|
  user_defined_key_parts := 1; ext_key_parts := 1; key_flags_nosame := false;
  key_part := [{| kp_field := sample_name; kp_length := 40 |}] |}.

Definition sample_table : TABLE := {|
  fields := [sample_id; sample_name]; key_info := [sample_pk; sample_sk]; primary_key := Some 0%nat;
  default_values := replicate 46 0 |}.

Definition sample_uninit : mono_field_packing := {|
  m_max_image_len := 0; m_unpack_data_len := 0; m_maybe_null := false;
  m_varchar_charset := Collation.my_charset_bin; m_segment_size := 0; m_unpack_info_uses_two_bytes := false;
  space_xfrm := []; space_xfrm_len := 0; space_mb_len := 0; m_charset_codec := None;
  m_unpack_info_stores_value := false; m_pack_func := None; m_make_unpack_info_func := None;
  m_unpack_func := None; m_skip_func := skip_max_length; m_keynr := 0; m_key_part := 0; m_field_idx := 0;
  m_Key_part_length := 0 |}.

(** The secondary index before its setup. *)
Definition sample_kd : mono_key_def := {|
  m_index_type := INDEX_TYPE_SECONDARY; m_pk_part_no := []; m_pack_info := []; m_keyno := 1;
  m_pk_key_parts := 0; m_unique_sk_only_key_parts := 0; m_maxlength := 0 |}.

(** Rows: 7, NULL and 9, 'ann' and 3, 'bob  '. *)
Definition sample_row (null_bits id : Z) (name : bytes) : bytes :=
  [null_bits] ++ le_bytes 4 id ++ [Z.of_nat (length name)] ++ name ++ replicate (40 - length name) 0.

Definition sample_null : bytes := sample_row 1 7 [].
Definition sample_ann : bytes := sample_row 0 9 [97; 110; 110].
Definition sample_bob : bytes := sample_row 0 3 [98; 111; 98; 32; 32].

Definition sample_weights : bytes -> option (list Z) := Collation.code_points (Collation.utf8_mb_wc true).

Definition sample_id_part : indexed_part := ({| kp_field := sample_id; kp_length := 4 |}, fixed_ok sample_id).
Definition sample_name_part : indexed_part :=
  ({| kp_field := sample_name; kp_length := 40 |}, varchar_ok sample_weights sample_name).

Lemma sample_indexed_id : indexed sample_table sample_id_part.
Proof. split; [|done]. by apply (supported_fixed _ _ 4). Qed.

Lemma sample_indexed_name : indexed sample_table sample_name_part.
Proof.
  split; [|done]. apply (supported_varchar _ _ 3 3 11 32); try done.
  - split; simpl; done || lia.
  - exact Collation.padspace_utf8mb4_bin.
  - exact utf8mb4_bin_spaces.
  - apply collation_bin. right; by right.
Qed.

Lemma sample_index : index_definition sample_table sample_kd sample_sk [sample_name_part] [sample_id_part].
Proof.
  split; try done.
  - constructor; [apply sample_indexed_name|constructor].
  - exists 0%nat, sample_pk. split_and!; [done..|]. right. split_and!; [done..|].
    constructor; [apply sample_indexed_id|constructor].
Qed.

Lemma sample_id_ok row : bytes_ok row -> length row = 46%nat -> fixed_ok sample_id row.
Proof.
  intros Hb Hl. exists 4%nat. split; [done|]. split; [by apply bytes_ok_drop|].
  unfold data. rewrite length_drop. simpl. lia.
Qed.

Lemma sample_name_ok row ws :
  bytes_ok row -> length row = 46%nat -> (nth 5 row 0 <= 40) ->
  sample_weights (varstring_data sample_name (data sample_name row)) = Some ws -> (length ws <= 10)%nat ->
  varchar_ok sample_weights sample_name row.
Proof.
  intros Hb Hl Hn Hw Hws. split; try done.
  - by left.
  - simpl. lia.
  - unfold varstring_length, data. simpl. rewrite nth_skipn. simpl. lia.
  - by exists ws.
Qed.

(** C1: keys are ordered as SQL orders the records.  For a primary index, or
    a secondary index with the missing columns of the primary key behind its
    own, of [supported] columns, [mono_key_def::setup] succeeds, [pack_record] succeeds on every
    record with valid values, and the bytes of the packed keys compare as the
    records do column by column (NULL first, then [Field::cmp]). *)
Theorem index_order mem uninit tbl kd0 ki cols pk_cols :
  index_definition tbl kd0 ki cols pk_cols ->
  exists kd, key_def_setup uninit tbl kd0 = Some kd /\
    forall a b ua ub,
      row_ok (index_columns ki cols pk_cols) a -> row_ok (index_columns ki cols pk_cols) b ->
      exists sa sb,
        pack_record mem kd tbl a ua false None 0 = Some sa /\
        pack_record mem kd tbl b ub false None 0 = Some sb /\
        lex_cmp (ps_tuple sa) (ps_tuple sb) = parts_cmp (map fst (index_columns ki cols pk_cols)) a b.
Proof.
  intros Hid. destruct (key_def_setup_packed mem uninit tbl kd0 ki cols pk_cols Hid) as (kd & E & Hp & _).
  exists kd. split; [done|]. intros a b ua ub Ha Hb. pose proof (index_definition_pk _ _ _ _ _ Hid) as Hh.
  destruct (pack_index mem uninit tbl kd _ a ua 0 Hh Hp ltac:(lia) ltac:(done) Ha) as (sa & Ea & Ta).
  destruct (pack_index mem uninit tbl kd _ b ub 0 Hh Hp ltac:(lia) ltac:(done) Hb) as (sb & Eb & Tb).
  exists sa, sb. split_and!; try done. rewrite Ta, Tb. cbn [Nat.eqb].
  pose proof (mem_cmp_index mem tbl _ _ (columns_of_packs mem uninit tbl _ _ Hp)) as HM.
  rewrite (mem_cmp_nil (MemCmp0 := HM)) by by eapply columns_of_ok. by eapply columns_of_cmp.
Qed.

Lemma sample_row_ok row :
  bytes_ok row -> length row = 46%nat -> nth 5 row 0 <= 40 ->
  (exists ws, sample_weights (varstring_data sample_name (data sample_name row)) = Some ws /\ (length ws <= 10)%nat) ->
  row_ok (index_columns sample_sk [sample_name_part] [sample_id_part]) row.
Proof.
  intros Hb Hl Hn (ws & Hw & Hws). constructor; [|constructor; [|constructor]].
  - right. by apply (sample_name_ok row ws).
  - right. by apply sample_id_ok.
Qed.

(** A concrete row is valid. *)
Ltac sample_row :=
  apply sample_row_ok; [by apply (bool_decide_unpack _)|done|by vm_compute|];
  eexists; split; [vm_compute; reflexivity|simpl; lia].

Lemma index_order_witness :
  exists kd, key_def_setup sample_uninit sample_table sample_kd = Some kd /\
    exists sa sb,
      pack_record (fun _ => []) kd sample_table sample_ann None false None 0 = Some sa /\
      pack_record (fun _ => []) kd sample_table sample_bob (Some []) false None 0 = Some sb /\
      lex_cmp (ps_tuple sa) (ps_tuple sb) = Lt.
Proof.
  destruct (index_order (fun _ => []) sample_uninit sample_table sample_kd sample_sk
    [sample_name_part] [sample_id_part] sample_index) as (kd & E & H).
  exists kd. split; [exact E|].
  destruct (H sample_ann sample_bob None (Some [])) as (sa & sb & Ea & Eb & Ec).
  - sample_row.
  - sample_row.
  - exists sa, sb. split; [exact Ea|]. split; [exact Eb|]. rewrite Ec. by vm_compute.
Defined.

(** C3: a key packed from the first [n] parts of an index of [supported]
    columns selects exactly the records with those column values.  It is a prefix of the full key of a record if
    and only if the record agrees on the [n] columns; otherwise it compares
    with the full key as the columns do. *)
Theorem index_prefix mem uninit tbl kd0 ki cols pk_cols n :
  index_definition tbl kd0 ki cols pk_cols ->
  (0 < n <= length (index_columns ki cols pk_cols))%nat -> (n < MAX_REF_PARTS)%nat ->
  exists kd, key_def_setup uninit tbl kd0 = Some kd /\
    forall a b ua ub,
      row_ok (index_columns ki cols pk_cols) a -> row_ok (index_columns ki cols pk_cols) b ->
      exists sa sb,
        pack_record mem kd tbl a ua false None n = Some sa /\
        pack_record mem kd tbl b ub false None 0 = Some sb /\
        let c := parts_cmp (take n (map fst (index_columns ki cols pk_cols))) a b in
        (ps_tuple sa `prefix_of` ps_tuple sb <-> c = Eq) /\
        (c <> Eq -> lex_cmp (ps_tuple sa) (ps_tuple sb) = c).
Proof.
  intros Hid Hn Hmax. destruct (key_def_setup_packed mem uninit tbl kd0 ki cols pk_cols Hid) as (kd & E & Hp & _).
  exists kd. split; [done|]. intros a b ua ub Ha Hb. pose proof (index_definition_pk _ _ _ _ _ Hid) as Hh.
  destruct (pack_index mem uninit tbl kd _ a ua n Hh Hp ltac:(lia) ltac:(lia) Ha) as (sa & Ea & Ta).
  destruct (pack_index mem uninit tbl kd _ b ub 0 Hh Hp ltac:(lia) ltac:(done) Hb) as (sb & Eb & Tb).
  exists sa, sb. split_and!; try done. rewrite (proj2 (Nat.eqb_neq n 0)) in Ta by lia. cbn [Nat.eqb] in Tb.
  pose proof (columns_of_packs mem uninit tbl _ _ Hp) as Hpk. set (cs := columns_of _ _) in *.
  pose proof (mem_cmp_index mem tbl _ _ (Forall2_take _ _ _ n Hpk)) as HM.
  pose proof (columns_of_ok mem uninit tbl _ _ a Hp Ha) as Oa. pose proof (columns_of_ok mem uninit tbl _ _ b Hp Hb) as Ob.
  assert (index_key mem cs b = index_key mem (take n cs) b ++ index_key mem (drop n cs) b) as Hsplit.
  { unfold index_key. by rewrite <- concat_app, <- map_app, take_drop. }
  rewrite Ta, Tb, Hsplit. cbv zeta. rewrite firstn_map.
  rewrite <- (columns_of_cmp mem uninit tbl (take n (index_columns ki cols pk_cols)) (take n (m_pack_info kd)))
    by by apply Forall2_take.
  replace (columns_of (take n _) (take n _)) with (take n cs).
  - apply (mem_cmp_prefix (MemCmp0 := HM)); by apply Forall_take.
  - unfold cs, columns_of. apply zip_with_take.
Qed.

Lemma index_prefix_witness :
  exists kd, key_def_setup sample_uninit sample_table sample_kd = Some kd /\
    exists sa sb,
      pack_record (fun _ => []) kd sample_table (sample_row 0 1 [97; 110; 110; 32]) None false None 1 = Some sa /\
      pack_record (fun _ => []) kd sample_table sample_ann None false None 0 = Some sb /\
      ps_tuple sa `prefix_of` ps_tuple sb.
Proof.
  destruct (index_prefix (fun _ => []) sample_uninit sample_table sample_kd sample_sk
    [sample_name_part] [sample_id_part] 1 sample_index) as (kd & E & H);
    [vm_compute; lia|vm_compute; lia|].
  exists kd. split; [exact E|].
  destruct (H (sample_row 0 1 [97; 110; 110; 32]) sample_ann None None) as (sa & sb & Ea & Eb & Hp & _).
  - sample_row.
  - sample_row.
  - exists sa, sb. split; [exact Ea|]. split; [exact Eb|]. apply Hp. by vm_compute.
Defined.

End Index.
