(* ===== verification/KeyRead.v ===== *)
(** * KeyRead: finding the columns in a packed key

    The skip functions of the parts of an index skip exactly what
    [pack_field] appended, and a packed key stays within the length that
    [mono_key_def::setup] computes.  On this rest the functions that work on
    packed keys: [compare_keys], [key_length] and [get_memcmp_sk_parts]. *)

From stdpp Require Import gmap.
From S2P Require Import Prelude Buff Charset Latin1 Collation Field Codec Packing VarFormat SpacePad.
From S2P Require Import Varchar KeySetup KeyDef KeyOrder Index.
Import Field Packing Varchar KeySetup KeyDef KeyOrder Index.

Module KeyRead.

Section KeyRead.

Context (mem : Z -> bytes).

(** ** One column *)

Lemma part_key_fixed field fpi n rec :
  fixed_size field = Some n -> m_max_image_len fpi = n ->
  m_pack_func fpi = Some pack_with_make_sort_key -> fixed_ok field rec ->
  length (part_key mem field fpi rec) = n.
Proof.
  intros Hn Hlen Hpf Hok. destruct (fixed_sort_key field n Hn) as (enc & Hs & Hl & _).
  unfold part_key, pack_value. rewrite Hpf. simpl. unfold do_pack_with_make_sort_key.
  by rewrite Hlen, Hs, Hl, Nat.eqb_refl, Hl.
Qed.

Lemma part_key_space_pad field fpi rec :
  m_pack_func fpi = Some pack_with_varchar_space_pad ->
  part_key mem field fpi rec = (do_pack_with_varchar_space_pad fpi field rec None).1.
Proof.
  intros Hpf. unfold part_key, pack_value. rewrite Hpf. simpl.
  destruct (do_pack_with_varchar_space_pad fpi field rec None) as [key u] eqn:E.
  assert (u = None) as -> by (unfold do_pack_with_varchar_space_pad in E; repeat case_match; by simplify_eq).
  done.
Qed.

Lemma part_key_varbinary field fpi rec :
  m_pack_func fpi = Some pack_with_varchar_encoding ->
  part_key mem field fpi rec = do_pack_with_varchar_encoding fpi field rec.
Proof. intros Hpf. unfold part_key, pack_value. by rewrite Hpf. Qed.

(** The room of a VARCHAR column, or of a column that is not known. *)
Lemma varstring_room_ge field fo n :
  varchar_column field -> fo = Some field \/ fo = None -> (n <= field_length field)%nat ->
  Z.of_nat n <= varstring_room fo.
Proof.
  intros Hc Hfo Hn. pose proof (vc_pack_length _ Hc). pose proof (vc_limit _ Hc).
  destruct Hfo as [-> | ->]; unfold varstring_room, UINT_MAX; lia.
Qed.

(** What the key of a value is good for: it is skipped, and it is bounded
    unless the column is empty. *)
Definition readable (field : Field) (fpi : mono_field_packing) (key : bytes) : Prop :=
  (forall fo rest, fo = Some field \/ fo = None -> call_skip (m_skip_func fpi) fpi fo (key ++ rest) = Some rest) /\
  ((0 < field_length field)%nat -> (length key <= m_max_image_len fpi)%nat).

Lemma readable_varchar field fpi wlen k nsp sp weights rec
    `{Hps : !Collation.PadSpace (charset field) wlen sp weights} :
  varchar_column field -> collation_spaces (charset field) wlen k nsp sp ->
  space_pad_setup fpi field wlen k nsp sp -> m_pack_func fpi = Some pack_with_varchar_space_pad ->
  m_skip_func fpi = skip_variable_space_pad -> varchar_ok weights field rec ->
  readable field fpi (part_key mem field fpi rec).
Proof.
  intros Hc Hsp Hs Hpf Hsk Hok. rewrite part_key_space_pad by done.
  destruct (pack_space_pad_enc fpi field rec None wlen k nsp sp weights Hs Hok)
    as (ws & wt & _ & _ & _ & Happ & Hlen & _ & ->). cbn [fst].
  assert (length wt <= char_length field)%nat as Hwt by (rewrite Happ, length_app in Hlen; lia).
  pose proof (csp_wlen _ _ _ _ _ Hsp). pose proof (csp_k _ _ _ _ _ Hsp). pose proof (csp_mbmaxlen _ _ _ _ _ Hsp).
  split.
  - intros fo rest Hfo. rewrite Hsk. simpl. unfold do_skip_variable_space_pad.
    rewrite (sps_segment Hs). apply (SpacePad.skip_space_pad_enc wlen k sp nsp); [lia|lia|apply (csp_nsp _ _ _ _ _ Hsp)|rewrite length_app; lia|].
    apply (varstring_room_ge field); try done. rewrite (vc_field_length _ Hc). nia.
  - intros _. etrans; [apply (SpacePad.enc_length_le wlen k sp nsp); [lia|lia|apply (csp_nsp _ _ _ _ _ Hsp)]|]. etrans; [|apply (sps_chunks Hs)].
    apply Nat.mul_le_mono_r. pose proof (Nat.div_le_mono (length wt) (char_length field) k ltac:(lia) Hwt). lia.
Qed.

Lemma readable_supported field len ok keynr part fpi0 res fpi rec :
  supported field len ok -> setup true (Some field) keynr part len fpi0 = Some (res, fpi) -> ok rec ->
  readable field fpi (part_key mem (with_field_length len field) fpi rec).
Proof.
  intros [n Hn Hl|wlen k nsp sp weights Hc -> Hps Hsp Hcoll|Hc -> Hcs] E Hok.
  - destruct (setup_sort_key field keynr part len fpi0) as (res' & fpi' & E' & Hi & Hpf & _ & _ & Hsk).
    { unfold fixed_size in Hn. by destruct (real_type field). }
    rewrite E in E'. injection E' as <- <-.
    assert (length (part_key mem (with_field_length len field) fpi rec) = m_max_image_len fpi) as Hlen.
    { rewrite (part_key_fixed _ _ n); try done; [congruence|by apply with_field_length_fixed|congruence|].
      by apply (fixed_ok_with_field_length field len n). }
    split; [|lia]. intros fo rest _. rewrite Hsk. simpl. unfold do_skip_max_length.
    by rewrite Rd.read_app.
  - rewrite with_field_length_same by done. destruct Hcoll as [Hnum|so Hso Hsup N1 N2 N3].
    + destruct (setup_varchar_bin field keynr part fpi0 wlen k nsp sp Hc Hsp Hnum)
        as (fpi' & E' & Hset & _ & _ & Hpf & _ & Hsk & _).
      rewrite E in E'. injection E' as _ <-. by apply (readable_varchar field fpi wlen k nsp sp weights).
    + destruct (setup_varchar_simple field keynr part fpi0 wlen k nsp sp (Codec.collation_codec so) Hc Hsp)
        as (fpi' & E' & Hset & _ & _ & Hpf & _ & Hsk & _); try done.
      { unfold Codec.mono_init_collation_mapping. by rewrite Hsup, Hso. }
      rewrite E in E'. injection E' as _ <-. by apply (readable_varchar field fpi wlen k nsp sp weights).
  - rewrite with_field_length_same by done.
    destruct (setup_varbinary field keynr part fpi0 Hc Hcs) as (fpi' & E' & _ & Hi & Hpf & _ & Hsk & _ & _ & Him).
    rewrite E in E'. injection E' as _ <-. rewrite part_key_varbinary, pack_varbinary by done.
    set (value := varstring_data field (data field rec)).
    assert (bytes_ok value) as Hb by (by apply (varstring_data_ok Some)).
    assert (length value <= field_length field)%nat as Hvl.
    { unfold value. rewrite (varstring_data_length _ _ _ Hok). apply (vo_length Hok). }
    split.
    + intros fo rest Hfo. rewrite Hsk. simpl. unfold do_skip_variable_length.
      apply VarFormat.skip_variable_format; [done|by apply (varstring_room_ge field)|].
      pose proof (VarFormat.length_pack_variable_format value). rewrite length_app. lia.
    + intros Hpos. rewrite Him. by apply VarFormat.encoded_size_bound.
Qed.

(** ** Keys are bytes *)

Lemma sort_string_ok field n rec key :
  fixed_size field = Some n -> fixed_ok field rec -> bytes_ok rec -> sort_string field n rec = Some key ->
  bytes_ok key.
Proof.
  intros Hn Hok Hb. unfold fixed_size, fixed_ok, sort_string in *.
  assert (forall m, bytes_ok (reverse (take m (data field rec)))) as Hrev by (intros; unfold data; auto with bytes).
  assert (forall i, byte_ok (nth i (data field rec) 0)) as Hnth.
  { intros i. destruct (Nat.lt_ge_cases i (length (data field rec))).
    - assert (bytes_ok (data field rec)) as Hd by (unfold data; auto with bytes).
      unfold bytes_ok in Hd. rewrite Forall_forall in Hd. by apply Hd, nth_In.
    - rewrite nth_overflow by done. unfold byte_ok. lia. }
  assert (forall m, bytes_ok (enum_sort_string m (data field rec))) as Henum.
  { intros m. rewrite enum_sort_string_eq. apply be_bytes_ok. }
  destruct (real_type field); try done; injection Hn as Hn; intros [= <-]; try apply Henum;
    try (by apply float_sort_string_key); try (by apply double_sort_string_key);
    unfold tiny_sort_string, short_sort_string, medium_sort_string, long_sort_string, longlong_sort_string,
      newdate_sort_string, memcpy_sort_string, data;
    try (by auto with bytes);
    try (repeat (apply bytes_ok_cons; split; [first [apply reverse_signbit_ok, Hnth|apply Hnth]|]); apply bytes_ok_nil).
  unfold bit_get_key_image, data. destruct (bit_len field =? 0); simpl; [auto with bytes|].
  apply bytes_ok_cons. split; [apply uchar_of_ok|auto with bytes].
Qed.

Lemma part_key_ok field len ok keynr part fpi0 res fpi rec :
  supported field len ok -> setup true (Some field) keynr part len fpi0 = Some (res, fpi) -> ok rec ->
  bytes_ok rec -> bytes_ok (part_key mem (with_field_length len field) fpi rec).
Proof.
  intros [n Hn Hl|wlen k nsp sp weights Hc -> Hps Hsp Hcoll|Hc -> Hcs] E Hok Hb.
  - destruct (setup_sort_key field keynr part len fpi0) as (res' & fpi' & E' & Hi & Hpf & _ & _ & Hsk).
    { unfold fixed_size in Hn. by destruct (real_type field). }
    rewrite E in E'. injection E' as <- <-. pose proof (with_field_length_fixed field len n Hn) as Hn'.
    pose proof (fixed_ok_with_field_length field len n rec Hn Hok) as Hok'.
    destruct (fixed_sort_key _ n Hn') as (enc & Hs & Hl' & _).
    unfold part_key, pack_value. rewrite Hpf. simpl. unfold do_pack_with_make_sort_key.
    replace (m_max_image_len fpi) with n by congruence. rewrite Hs, Hl', Nat.eqb_refl by done.
    by apply (sort_string_ok (with_field_length len field) n rec).
  - rewrite with_field_length_same by done.
    assert (exists fpi', setup true (Some field) keynr part (field_length field) fpi0 = Some (true, fpi') /\
      space_pad_setup fpi' field wlen k nsp sp /\ m_pack_func fpi' = Some pack_with_varchar_space_pad)
      as (fpi' & E' & Hset & Hpf).
    { destruct Hcoll as [Hnum|so Hso Hsup N1 N2 N3].
      - destruct (setup_varchar_bin field keynr part fpi0 wlen k nsp sp Hc Hsp Hnum)
          as (fpi' & E' & Hset & _ & _ & Hpf & _). by exists fpi'.
      - destruct (setup_varchar_simple field keynr part fpi0 wlen k nsp sp (Codec.collation_codec so) Hc Hsp)
          as (fpi' & E' & Hset & _ & _ & Hpf & _); try done; [|by exists fpi'].
        unfold Codec.mono_init_collation_mapping. by rewrite Hsup, Hso. }
    rewrite E in E'. injection E' as _ <-. rewrite part_key_space_pad by done.
    destruct (pack_space_pad_enc fpi field rec None wlen k nsp sp weights Hset Hok)
      as (ws & wt & _ & _ & _ & _ & _ & _ & ->). apply SpacePad.enc_ok.
  - rewrite with_field_length_same by done.
    destruct (setup_varbinary field keynr part fpi0 Hc Hcs) as (fpi' & E' & _ & Hi & Hpf & _).
    rewrite E in E'. injection E' as _ <-. rewrite part_key_varbinary, pack_varbinary by done.
    apply VarFormat.pack_variable_format_ok. by apply (varstring_data_ok Some).
Qed.

(** ** The columns of a key *)

Section Columns.

Context (uninit : mono_field_packing) (tbl : TABLE).

(** A part of the index as it was set up, and its valid values. *)
Record part_ready (c : indexed_part) (info : mono_field_packing) : Prop := {
  pr_packed : part_packed mem uninit tbl c info;
  pr_indexed : indexed tbl c
}.

Lemma parts_ready cols infos :
  Forall2 (part_packed mem uninit tbl) cols infos -> Forall (indexed tbl) cols -> Forall2 part_ready cols infos.
Proof.
  induction 1 as [|c info cols infos Hp _ IH]; [constructor|].
  intros [Hi His]%Forall_cons_iff. constructor; [by split|auto].
Qed.

Definition value_ok (c : indexed_part) (rec : bytes) : Prop := is_real_null (kp_field c.1) rec = true \/ c.2 rec.

Lemma part_readable c info rec :
  part_ready c info -> c.2 rec ->
  readable (kp_field c.1) info (part_key mem (with_field_length (kp_length c.1) (kp_field c.1)) info rec).
Proof.
  intros [Hp [Hs _]] Hok. destruct (pp_setup _ _ _ _ _ Hp) as (res & E). by eapply readable_supported.
Qed.

Lemma part_skip c info rec fo rest :
  part_ready c info -> c.2 rec -> fo = Some (kp_field c.1) \/ fo = None ->
  call_skip (m_skip_func info) info fo
    (part_key mem (with_field_length (kp_length c.1) (kp_field c.1)) info rec ++ rest) = Some rest.
Proof. intros Hr Hok. destruct (part_readable c info rec Hr Hok) as [H _]. apply H. Qed.

(** The two forms of the key of a column. *)
Lemma column_key_cases c info rec :
  part_ready c info -> value_ok c rec ->
  let key := part_key mem (with_field_length (kp_length c.1) (kp_field c.1)) info rec in
  (is_real_null (kp_field c.1) rec = true /\ m_maybe_null info = true /\
   column_key mem (column_of c info) rec = [0]) \/
  (is_real_null (kp_field c.1) rec = false /\ c.2 rec /\
   column_key mem (column_of c info) rec = (if m_maybe_null info then [1] else []) ++ key).
Proof.
  intros Hr Hok. cbv zeta. unfold column_key, column_of. cbn [col_field col_info].
  rewrite (pp_maybe_null _ _ _ _ _ (pr_packed _ _ Hr)).
  change (real_maybe_null (with_field_length (kp_length c.1) (kp_field c.1))) with (real_maybe_null (kp_field c.1)).
  change (is_real_null (with_field_length (kp_length c.1) (kp_field c.1)) rec) with (is_real_null (kp_field c.1) rec).
  destruct (is_real_null (kp_field c.1) rec) eqn:En.
  - left. by rewrite (is_real_null_maybe _ _ En).
  - right. destruct Hok as [?|Hok]; [congruence|]. by destruct (real_maybe_null (kp_field c.1)).
Qed.

Lemma read_null_byte b rest : Rd.read 1 (b :: rest) = Some ([b], rest).
Proof. exact (Rd.read_app [b] rest 1 eq_refl). Qed.

Lemma read_part kd i c info rec rest :
  m_pack_info kd !! i = Some info -> part_ready c info -> value_ok c rec ->
  read_memcmp_key_part kd tbl i (column_key mem (column_of c info) rec ++ rest) =
    Some (rest, is_real_null (kp_field c.1) rec).
Proof.
  intros Hi Hr Hok. unfold read_memcmp_key_part. rewrite Hi, (pp_field _ _ _ _ _ (pr_packed _ _ Hr)).
  destruct (column_key_cases c info rec Hr Hok) as [(-> & -> & ->)|(-> & Hv & ->)].
  - cbn [app]. by rewrite read_null_byte.
  - destruct (m_maybe_null info); cbn [app].
    + rewrite read_null_byte. cbn [nth]. simpl Z.eqb. cbv iota. cbn [negb].
      rewrite (part_skip c); [done..|]. case_match; auto.
    + rewrite (part_skip c); [done..|]. case_match; auto.
Qed.

(** The key of all columns. *)
Definition row_key (cols : list indexed_part) (infos : list mono_field_packing) (rec : bytes) : bytes :=
  index_key mem (columns_of cols infos) rec.

Lemma row_key_cons c cols info infos rec :
  row_key (c :: cols) (info :: infos) rec = column_key mem (column_of c info) rec ++ row_key cols infos rec.
Proof. done. Qed.

(** *** compare_keys *)

(** The first part in which two records differ, or the number of parts. *)
Fixpoint first_difference (parts : list KEY_PART_INFO) (i : nat) (a b : bytes) : nat :=
  match parts with
  | [] => i
  | p :: parts => match part_cmp p a b with Eq => first_difference parts (S i) a b | _ => i end
  end.

Lemma consumed_app l r : consumed (l ++ r) r = l.
Proof. unfold consumed. rewrite length_app, Nat.add_sub. apply take_app_length. Qed.

Lemma part_key_eq c info a b :
  part_ready c info -> c.2 a -> c.2 b ->
  let key := part_key mem (with_field_length (kp_length c.1) (kp_field c.1)) info in
  column_cmp (kp_field c.1) a b = Eq <-> key a = key b.
Proof.
  intros [Hp _] Ha Hb. cbv zeta. destruct (pp_packs _ _ _ _ _ Hp) as (_ & _ & HK).
  rewrite <- (pp_cmp _ _ _ _ _ Hp a b). apply (mem_cmp_enc_eq (MemCmp0 := kp_order mem (KeyPart := HK))); done.
Qed.

Lemma same_bytes (x y : bytes) :
  (negb (length x =? length y)%nat = true \/ memcmp x y (length x) <> Eq) \/ x = y.
Proof.
  destruct (Nat.eqb_spec (length x) (length y)) as [E|]; [|by left; left].
  destruct (decide (memcmp x y (length x) = Eq)) as [H|]; [|by left; right]. right.
  unfold memcmp in H. rewrite take_ge, E, take_ge in H by lia. by apply lex_cmp_Eq in H.
Qed.

(** The comparison of two values, with the result [rest] for the later parts. *)
Definition compare_value (i : nat) (x y : bytes) (rest : option nat) : option nat :=
  if negb (length x =? length y)%nat then Some i
  else if decide (memcmp x y (length x) = Eq) then rest else Some i.

Lemma compare_value_cmp i x y c j :
  (c = Eq <-> x = y) -> compare_value i x y (Some j) = Some (match c with Eq => j | _ => i end).
Proof.
  intros Hc. unfold compare_value. destruct (same_bytes x y) as [H|H].
  - assert (c <> Eq) as Hne.
    { intros ->. destruct Hc as [Hc _]. specialize (Hc eq_refl). subst y. rewrite Nat.eqb_refl in H.
      destruct H as [|H]; [done|]. apply H. unfold memcmp. apply lex_cmp_refl. }
    destruct H as [->|H]; [by destruct c|]. rewrite decide_False by done.
    by destruct (negb _), c.
  - subst y. rewrite Nat.eqb_refl. cbn [negb]. rewrite decide_True by (unfold memcmp; apply lex_cmp_refl).
    destruct Hc as [_ Hc]. by rewrite Hc.
Qed.

Lemma compare_columns cols infos i a b ra rb :
  Forall2 part_ready cols infos -> Forall (fun c => value_ok c a) cols -> Forall (fun c => value_ok c b) cols ->
  compare_keys_loop i infos (row_key cols infos a ++ ra) (row_key cols infos b ++ rb) =
    Some (first_difference (map fst cols) i a b).
Proof.
  intros H. revert i. induction H as [|c info cols infos Hr Hrs IH]; intros i Ha Hb; [done|].
  apply Forall_cons_iff in Ha as [Ha Has]. apply Forall_cons_iff in Hb as [Hb Hbs].
  cbn [compare_keys_loop map first_difference]. rewrite !row_key_cons, <- !app_assoc. unfold part_cmp.
  pose proof (fun Ha Hb => part_key_eq c info a b Hr Ha Hb) as Heq. cbv zeta in Heq.
  destruct (column_key_cases c info a Hr Ha) as [(Na & Ma & Ea)|(Na & Va & Ea)];
  destruct (column_key_cases c info b Hr Hb) as [(Nb & Mb & Eb)|(Nb & Vb & Eb)]; rewrite Ea, Eb, Na, Nb.
  - rewrite Ma. cbn [app]. rewrite !read_null_byte. by apply IH.
  - rewrite Ma. cbn [app]. by rewrite !read_null_byte.
  - rewrite Mb. cbn [app]. by rewrite !read_null_byte.
  - assert (forall x, x = compare_keys_loop (S i) infos (row_key cols infos a ++ ra) (row_key cols infos b ++ rb) ->
      compare_value i (part_key mem (with_field_length (kp_length c.1) (kp_field c.1)) info a)
        (part_key mem (with_field_length (kp_length c.1) (kp_field c.1)) info b) x =
      Some (match column_cmp (kp_field c.1) a b with
            | Eq => first_difference (map fst cols) (S i) a b | _ => i end)) as Hv.
    { intros x ->. rewrite (IH (S i) Has Hbs). apply compare_value_cmp. by apply Heq. }
    unfold compare_value in Hv. specialize (Hv _ eq_refl).
    destruct (m_maybe_null info); cbn [app]; rewrite ?read_null_byte; cbn [nth negb Z.eqb Pos.eqb];
      rewrite !(part_skip c) by auto; rewrite !consumed_app; exact Hv.
Qed.

(** *** key_length *)

Lemma key_length_columns kd cols infos rec rest :
  m_index_type kd <> INDEX_TYPE_HIDDEN_PRIMARY ->
  Forall2 part_ready cols infos -> Forall (fun c => value_ok c rec) cols ->
  Forall (fun c => real_maybe_null (kp_field c.1) = false) cols ->
  key_length_loop kd tbl infos (row_key cols infos rec ++ rest) = Some rest.
Proof.
  intros Ht H. induction H as [|c info cols infos Hr Hrs IH]; [done|].
  intros [Hv Hvs]%Forall_cons_iff [Hn Hns]%Forall_cons_iff. cbn [key_length_loop]. rewrite decide_False by done.
  rewrite row_key_cons, <- app_assoc, (pp_field _ _ _ _ _ (pr_packed _ _ Hr)).
  pose proof (pp_maybe_null _ _ _ _ _ (pr_packed _ _ Hr)) as Hm.
  destruct (column_key_cases c info rec Hr Hv) as [(_ & Hm' & _)|(_ & Hok & ->)]; [congruence|].
  rewrite Hm, Hn. cbn [app]. rewrite (part_skip c) by auto. auto.
Qed.

(** *** get_memcmp_sk_parts *)

Definition null_count (cols : list indexed_part) (rec : bytes) : nat :=
  length (List.filter (fun c => is_real_null (kp_field c.1) rec) cols).

Lemma sk_columns kd cols infos i nulls rec rest :
  (forall j info, infos !! j = Some info -> m_pack_info kd !! (i + j)%nat = Some info) ->
  Forall2 part_ready cols infos -> Forall (fun c => value_ok c rec) cols ->
  sk_parts_loop kd tbl (length cols) i (row_key cols infos rec ++ rest) nulls =
    Some (rest, (nulls + null_count cols rec)%nat).
Proof.
  intros Hi H. revert i nulls Hi. induction H as [|c info cols infos Hr Hrs IH]; intros i nulls Hi Hv.
  { simpl. do 2 f_equal. unfold null_count. simpl. lia. }
  apply Forall_cons_iff in Hv as [Hv Hvs]. cbn [length sk_parts_loop].
  rewrite row_key_cons, <- app_assoc, (read_part kd i c info rec) by
    (try done; specialize (Hi 0%nat info eq_refl); by rewrite Nat.add_0_r in Hi).
  rewrite IH; [|intros j info' Hj; rewrite Nat.add_succ_comm; by apply (Hi (S j))|done].
  unfold null_count. simpl. by destruct (is_real_null (kp_field c.1) rec); simpl; do 2 f_equal; lia.
Qed.

(** *** The bound of keys *)

Lemma row_key_bound cols infos rec :
  Forall2 part_ready cols infos -> Forall (fun c => value_ok c rec) cols ->
  Forall (fun c => (0 < field_length (kp_field c.1))%nat) cols ->
  (length (row_key cols infos rec) <= sum_list (zip_with image_bound cols infos))%nat.
Proof.
  intros H. induction H as [|c info cols infos Hr Hrs IH]; [simpl; lia|].
  intros [Hv Hvs]%Forall_cons_iff [Hp Hps]%Forall_cons_iff. rewrite row_key_cons, length_app.
  change (sum_list (zip_with image_bound (c :: cols) (info :: infos)))
    with (image_bound c info + sum_list (zip_with image_bound cols infos))%nat.
  specialize (IH Hvs Hps). unfold image_bound at 1. rewrite <- (pp_maybe_null _ _ _ _ _ (pr_packed _ _ Hr)).
  destruct (column_key_cases c info rec Hr Hv) as [(_ & -> & ->)|(_ & Hok & ->)]; [cbn [length]; lia|].
  destruct (part_readable c info rec Hr Hok) as [_ Hb]. specialize (Hb Hp). rewrite length_app.
  destruct (m_maybe_null info); cbn [length]; lia.
Qed.

Lemma row_key_ok cols infos rec :
  Forall2 part_ready cols infos -> Forall (fun c => value_ok c rec) cols -> bytes_ok rec ->
  bytes_ok (row_key cols infos rec).
Proof.
  intros H Hv Hb. induction H as [|c info cols infos Hr Hrs IH]; [apply bytes_ok_nil|].
  apply Forall_cons_iff in Hv as [Hv Hvs]. rewrite row_key_cons. apply bytes_ok_app. split; [|by apply IH].
  destruct (column_key_cases c info rec Hr Hv) as [(_ & _ & ->)|(_ & Hok & ->)].
  - apply bytes_ok_cons. split; [unfold byte_ok; lia|apply bytes_ok_nil].
  - apply bytes_ok_app. split.
    + case_match; [|apply bytes_ok_nil]. apply bytes_ok_cons. split; [unfold byte_ok; lia|apply bytes_ok_nil].
    + destruct (pp_setup _ _ _ _ _ (pr_packed _ _ Hr)) as (res & E). destruct (pr_indexed _ _ Hr) as [Hs _].
      by eapply part_key_ok.
Qed.

End Columns.

(** *** A packed row *)

(** Setting up an index and packing a row of it. *)
Lemma setup_ready uninit tbl kd0 ki cols pk_cols :
  index_definition tbl kd0 ki cols pk_cols ->
  exists kd, key_def_setup uninit tbl kd0 = Some kd /\
    Forall2 (part_ready uninit tbl) (index_columns ki cols pk_cols) (m_pack_info kd) /\
    table_has_hidden_pk tbl = false /\ m_index_type kd <> INDEX_TYPE_HIDDEN_PRIMARY /\ m_keyno kd = m_keyno kd0 /\
    m_maxlength kd = sum_list (zip_with image_bound (index_columns ki cols pk_cols) (m_pack_info kd)) /\
    forall rec u n, row_ok (index_columns ki cols pk_cols) rec ->
      (n <= length (index_columns ki cols pk_cols))%nat -> n <> MAX_REF_PARTS ->
      exists st, pack_record mem kd tbl rec u false None n = Some st /\
        ps_tuple st = (if (n =? 0)%nat then row_key (index_columns ki cols pk_cols) (m_pack_info kd) rec
                       else row_key (take n (index_columns ki cols pk_cols)) (take n (m_pack_info kd)) rec).
Proof.
  intros Hid. destruct (key_def_setup_packed mem uninit tbl kd0 ki cols pk_cols Hid)
    as (kd & E & Hp & Ht & Hk & Hm & _).
  pose proof (indexed_columns _ _ _ _ _ Hid) as Hin. pose proof (index_definition_pk _ _ _ _ _ Hid) as Hh.
  exists kd. split_and!; try done.
  - by apply parts_ready.
  - rewrite Ht. destruct (id_primary _ _ _ _ _ Hid) as (k & pk & _ & _ & [[-> _]|[-> _]]); done.
  - intros rec u n Hrow Hn Hmax.
    destruct (pack_index mem uninit tbl kd _ rec u n Hh Hp Hn Hmax Hrow) as (st & Ep & Et).
    exists st. split; [done|]. rewrite Et. destruct (n =? 0)%nat; [done|].
    unfold row_key, columns_of. by rewrite zip_with_take.
Qed.

End KeyRead.

(** [compare_keys] finds the first column in which two rows differ: for
    the keys of two records of an index it returns the number of the first
    part whose columns are different in SQL, and the number of parts if there
    is none. *)
Theorem compare_keys_correct mem uninit tbl kd0 ki cols pk_cols :
  index_definition tbl kd0 ki cols pk_cols ->
  exists kd, key_def_setup uninit tbl kd0 = Some kd /\
    forall a b ua ub,
      row_ok (index_columns ki cols pk_cols) a -> row_ok (index_columns ki cols pk_cols) b ->
      exists sa sb,
        pack_record mem kd tbl a ua false None 0 = Some sa /\
        pack_record mem kd tbl b ub false None 0 = Some sb /\
        compare_keys kd (ps_tuple sa) (ps_tuple sb) =
          Some (first_difference (map fst (index_columns ki cols pk_cols)) 0 a b).
Proof.
  intros Hid. destruct (setup_ready mem uninit tbl kd0 ki cols pk_cols Hid) as (kd & E & Hr & _ & _ & _ & _ & Hpack).
  exists kd. split; [done|]. intros a b ua ub Ha Hb.
  destruct (Hpack a ua 0%nat Ha ltac:(lia) ltac:(done)) as (sa & Ea & Ta).
  destruct (Hpack b ub 0%nat Hb ltac:(lia) ltac:(done)) as (sb & Eb & Tb).
  exists sa, sb. split_and!; try done. rewrite Ta, Tb. cbn [Nat.eqb]. unfold compare_keys.
  pose proof (compare_columns mem uninit tbl _ _ 0 a b [] [] Hr Ha Hb) as H. by rewrite !app_nil_r in H.
Qed.

Lemma compare_keys_witness :
  exists kd, key_def_setup sample_uninit sample_table sample_kd = Some kd /\
    exists sa sb,
      pack_record (fun _ => []) kd sample_table sample_ann None false None 0 = Some sa /\
      pack_record (fun _ => []) kd sample_table (sample_row 0 8 [97; 110; 110; 32]) None false None 0 = Some sb /\
      compare_keys kd (ps_tuple sa) (ps_tuple sb) = Some 1%nat.
Proof.
  destruct (compare_keys_correct (fun _ => []) sample_uninit sample_table sample_kd sample_sk
    [sample_name_part] [sample_id_part] sample_index) as (kd & E & H).
  exists kd. split; [exact E|].
  destruct (H sample_ann (sample_row 0 8 [97; 110; 110; 32]) None None) as (sa & sb & Ea & Eb & Ec).
  - sample_row.
  - sample_row.
  - exists sa, sb. split; [exact Ea|]. split; [exact Eb|]. rewrite Ec. by vm_compute.
Defined.

(** [key_length] recognises a key in a longer, padded string, when no
    column of the index is nullable. *)
Theorem key_length_correct mem uninit tbl kd0 ki cols pk_cols :
  index_definition tbl kd0 ki cols pk_cols ->
  Forall (fun c => real_maybe_null (kp_field c.1) = false) (index_columns ki cols pk_cols) ->
  exists kd, key_def_setup uninit tbl kd0 = Some kd /\
    forall rec u padding, row_ok (index_columns ki cols pk_cols) rec ->
      exists st, pack_record mem kd tbl rec u false None 0 = Some st /\
        key_length kd tbl (ps_tuple st ++ padding) = Some (length (ps_tuple st)).
Proof.
  intros Hid Hnn. destruct (setup_ready mem uninit tbl kd0 ki cols pk_cols Hid)
    as (kd & E & Hr & _ & Ht & _ & _ & Hpack).
  exists kd. split; [done|]. intros rec u padding Hrow.
  destruct (Hpack rec u 0%nat Hrow ltac:(lia) ltac:(done)) as (st & Ep & Et). exists st. split; [done|].
  cbn [Nat.eqb] in Et. unfold key_length. rewrite Et.
  rewrite (key_length_columns mem uninit tbl kd _ _ rec padding Ht Hr Hrow Hnn). f_equal.
  rewrite length_app. lia.
Qed.

(** The primary index of the sample table. *)
Definition sample_pk_kd : mono_key_def := {|
  m_index_type := INDEX_TYPE_PRIMARY; m_pk_part_no := []; m_pack_info := []; m_keyno := 0;
  m_pk_key_parts := 0; m_unique_sk_only_key_parts := 0; m_maxlength := 0 |}.

Lemma sample_pk_index : index_definition sample_table sample_pk_kd sample_pk [sample_id_part] [].
Proof.
  split; try done.
  - constructor; [apply sample_indexed_id|constructor].
  - exists 0%nat, sample_pk. split_and!; [done..|]. by left.
Qed.

Lemma sample_pk_row row : bytes_ok row -> length row = 46%nat ->
  row_ok (index_columns sample_pk [sample_id_part] []) row.
Proof. intros Hb Hl. constructor; [|constructor]. right. by apply sample_id_ok. Qed.

Lemma key_length_witness :
  exists kd, key_def_setup sample_uninit sample_table sample_pk_kd = Some kd /\
    exists st, pack_record (fun _ => []) kd sample_table sample_ann None false None 0 = Some st /\
      key_length kd sample_table (ps_tuple st ++ [0; 0; 0]) = Some (length (ps_tuple st)).
Proof.
  destruct (key_length_correct (fun _ => []) sample_uninit sample_table sample_pk_kd sample_pk
    [sample_id_part] [] sample_pk_index) as (kd & E & H).
  - constructor; [done|constructor].
  - exists kd. split; [exact E|]. apply H. apply sample_pk_row; [by apply (bool_decide_unpack _)|done].
Defined.

Lemma sample_key_length row :
  row = sample_ann \/ row = sample_null ->
  match key_def_setup sample_uninit sample_table sample_kd with
  | Some kd =>
      match pack_record (fun _ => []) kd sample_table row None false None 0 with
      | Some st => match key_length kd sample_table (ps_tuple st) with Some _ => false | None => true end
      | None => false
      end
  | None => false
  end = true.
Proof. intros [-> | ->]; by vm_compute. Qed.

(** For a nullable column it does not: it leaves out the NULL indicator
    that [pack_field] writes, so that it fails on the key of 'ann' and on
    that of NULL in the sample index. *)
Theorem key_length_nullable :
  exists kd, key_def_setup sample_uninit sample_table sample_kd = Some kd /\
    forall row, row = sample_ann \/ row = sample_null ->
      exists st, pack_record (fun _ => []) kd sample_table row None false None 0 = Some st /\
        key_length kd sample_table (ps_tuple st) = None.
Proof.
  pose proof sample_key_length as H.
  destruct (key_def_setup sample_uninit sample_table sample_kd) as [kd|]; [|by specialize (H _ (or_introl eq_refl))].
  exists kd. split; [done|]. intros row Hrow. specialize (H row Hrow).
  destruct (pack_record _ kd sample_table row _ _ _ _) as [st|]; [|done]. exists st. split; [done|].
  by destruct (key_length kd sample_table (ps_tuple st)).
Qed.

(** [get_memcmp_sk_parts] cuts the key of a secondary index down to the
    user-defined columns: the result is the key that [pack_record] makes of
    those columns, and the NULLs among them are counted. *)
Theorem get_memcmp_sk_parts_correct mem uninit tbl kd0 ki cols pk_cols :
  index_definition tbl kd0 ki cols pk_cols -> user_defined_key_parts ki = length cols ->
  (length cols < MAX_REF_PARTS)%nat ->
  exists kd, key_def_setup uninit tbl kd0 = Some kd /\
    forall rec u nulls, row_ok (index_columns ki cols pk_cols) rec ->
      exists st sk, pack_record mem kd tbl rec u false None 0 = Some st /\
        pack_record mem kd tbl rec u false None (length cols) = Some sk /\
        get_memcmp_sk_parts kd tbl (ps_tuple st) nulls =
          Some (ps_tuple sk, (nulls + null_count cols rec)%nat).
Proof.
  intros Hid Hu Hmax. destruct (setup_ready mem uninit tbl kd0 ki cols pk_cols Hid)
    as (kd & E & Hr & Hh & _ & Hk & _ & Hpack).
  exists kd. split; [done|]. intros rec u nulls Hrow.
  destruct (Hpack rec u 0%nat Hrow ltac:(lia) ltac:(done)) as (st & Ep & Et).
  destruct (Hpack rec u (length cols) Hrow ltac:(unfold index_columns; rewrite length_app; lia) ltac:(lia))
    as (sk & Ek & Tk).
  exists st, sk. split_and!; try done. cbn [Nat.eqb] in Et.
  assert (length cols <> 0%nat) as Hne.
  { pose proof (id_nonempty _ _ _ _ _ Hid). by destruct cols. }
  rewrite (proj2 (Nat.eqb_neq _ _) Hne) in Tk. unfold index_columns in *. rewrite take_app_length in Tk.
  set (infos := take (length cols) (m_pack_info kd)) in *.
  assert (row_key mem (cols ++ missing ki pk_cols) (m_pack_info kd) rec =
    row_key mem cols infos rec ++ row_key mem (missing ki pk_cols) (drop (length cols) (m_pack_info kd)) rec) as Hsplit.
  { unfold row_key, columns_of, infos. rewrite <- (take_drop (length cols) (m_pack_info kd)) at 1.
    pose proof (Forall2_length Hr) as Hlen. rewrite length_app in Hlen.
    rewrite zip_with_app by (rewrite length_take; lia). unfold index_key. by rewrite map_app, concat_app. }
  unfold get_memcmp_sk_parts. rewrite Hk, (id_key _ _ _ _ _ Hid), Hu, Et, Hsplit.
  apply Forall2_app_inv_l in Hr as (i1 & i2 & H1 & _ & Heq).
  assert (infos = i1) as Hi.
  { unfold infos. rewrite Heq. apply take_app_length'. by rewrite (Forall2_length H1). }
  rewrite (sk_columns mem uninit tbl kd cols infos 0 nulls rec); [| | |].
  - by rewrite consumed_app, Tk.
  - intros j info Hj. simpl. rewrite Heq. rewrite Hi in Hj. by apply lookup_app_l_Some.
  - by rewrite Hi.
  - by apply Forall_app in Hrow as [Hrow _].
Qed.

Lemma get_memcmp_sk_parts_witness :
  exists kd, key_def_setup sample_uninit sample_table sample_kd = Some kd /\
    exists st sk, pack_record (fun _ => []) kd sample_table sample_null None false None 0 = Some st /\
      pack_record (fun _ => []) kd sample_table sample_null None false None 1 = Some sk /\
      get_memcmp_sk_parts kd sample_table (ps_tuple st) 0 = Some (ps_tuple sk, 1%nat).
Proof.
  destruct (get_memcmp_sk_parts_correct (fun _ => []) sample_uninit sample_table sample_kd sample_sk
    [sample_name_part] [sample_id_part] sample_index) as (kd & E & H); [done|vm_compute; lia|].
  exists kd. split; [exact E|]. apply (H sample_null None 0%nat).
  constructor; [by left|]. constructor; [|constructor].
  right. apply sample_id_ok; [by apply (bool_decide_unpack _)|done].
Defined.

(** C32: a packed key never exceeds [m_maxlength], the size of the buffers it
    is packed into. *)
Theorem key_within_maxlength mem uninit tbl kd0 ki cols pk_cols :
  index_definition tbl kd0 ki cols pk_cols ->
  Forall (fun c => (0 < field_length (kp_field c.1))%nat) (index_columns ki cols pk_cols) ->
  exists kd, key_def_setup uninit tbl kd0 = Some kd /\
    forall rec u, row_ok (index_columns ki cols pk_cols) rec ->
      exists st, pack_record mem kd tbl rec u false None 0 = Some st /\
        (length (ps_tuple st) <= m_maxlength kd)%nat.
Proof.
  intros Hid Hpos. destruct (setup_ready mem uninit tbl kd0 ki cols pk_cols Hid)
    as (kd & E & Hr & _ & _ & _ & Hm & Hpack).
  exists kd. split; [done|]. intros rec u Hrow.
  destruct (Hpack rec u 0%nat Hrow ltac:(lia) ltac:(done)) as (st & Ep & Et). exists st. split; [done|].
  rewrite Et, Hm. cbn [Nat.eqb]. by apply (row_key_bound mem uninit tbl).
Qed.

Lemma key_within_maxlength_witness :
  exists kd, key_def_setup sample_uninit sample_table sample_kd = Some kd /\
    exists st, pack_record (fun _ => []) kd sample_table sample_ann None false None 0 = Some st /\
      (length (ps_tuple st) <= m_maxlength kd)%nat.
Proof.
  destruct (key_within_maxlength (fun _ => []) sample_uninit sample_table sample_kd sample_sk
    [sample_name_part] [sample_id_part] sample_index) as (kd & E & H).
  - constructor; [simpl; lia|constructor; [simpl; lia|constructor]].
  - exists kd. split; [exact E|]. apply (H sample_ann None). sample_row.
Defined.

End KeyRead.
