(* ===== verification/PkTuple.v ===== *)
(** * PkTuple: the primary key in the key of a secondary index

    The keys of a secondary index end with the columns of the primary key
    that the index does not have itself.  [get_primary_key_tuple] collects
    the columns of the primary key from such a key; the result is the key of
    the row in the primary index. *)

From stdpp Require Import gmap.
From S2P Require Import Prelude Buff Charset Latin1 Collation Field Codec Packing VarFormat SpacePad.
From S2P Require Import Varchar KeySetup KeyDef KeyOrder Index KeyRead.
Import Field Packing Varchar KeySetup KeyDef KeyOrder Index KeyRead.

Module PkTuple.

(** ** Packing does not depend on where a part is *)

Definition at_location (keynr part : nat) (fpi : mono_field_packing) : mono_field_packing := {|
  m_max_image_len := m_max_image_len fpi; m_unpack_data_len := m_unpack_data_len fpi;
  m_maybe_null := m_maybe_null fpi; m_varchar_charset := m_varchar_charset fpi;
  m_segment_size := m_segment_size fpi; m_unpack_info_uses_two_bytes := m_unpack_info_uses_two_bytes fpi;
  space_xfrm := space_xfrm fpi; space_xfrm_len := space_xfrm_len fpi; space_mb_len := space_mb_len fpi;
  m_charset_codec := m_charset_codec fpi; m_unpack_info_stores_value := m_unpack_info_stores_value fpi;
  m_pack_func := m_pack_func fpi; m_make_unpack_info_func := m_make_unpack_info_func fpi;
  m_unpack_func := m_unpack_func fpi; m_skip_func := m_skip_func fpi; m_keynr := keynr; m_key_part := part;
  m_field_idx := m_field_idx fpi; m_Key_part_length := m_Key_part_length fpi |}.

Lemma setup_relocate field keynr part keynr' part' len fpi0 res fpi :
  setup true (Some field) keynr part len fpi0 = Some (res, fpi) ->
  setup true (Some field) keynr' part' len fpi0 = Some (res, at_location keynr' part' fpi).
Proof.
  unfold setup, setup_string, setup_bin, setup_other_collation, setup_space_pad. intros H.
  repeat case_match; simplify_eq; done.
Qed.

Section PkTuple.

Context (mem : Z -> bytes) (uninit : mono_field_packing) (tbl : TABLE).

Lemma pack_value_location field keynr part fpi rec u :
  pack_value mem field (at_location keynr part fpi) rec u = pack_value mem field fpi rec u.
Proof. done. Qed.

(** The key bytes of a part: as it is packed anywhere. *)
Definition part_bytes (rec : bytes) (p : KEY_PART_INFO) : bytes :=
  match setup true (Some (kp_field p)) 0 0 (kp_length p) uninit with
  | Some (_, fpi) =>
      column_key mem {| col_field := with_field_length (kp_length p) (kp_field p); col_info := fpi;
                        col_ok := fun _ => True |} rec
  | None => []
  end.

Lemma column_key_part c info rec :
  part_packed mem uninit tbl c info -> column_key mem (column_of c info) rec = part_bytes rec c.1.
Proof.
  intros Hp. destruct (pp_setup _ _ _ _ _ Hp) as (res & E). unfold part_bytes.
  rewrite (setup_relocate _ _ _ 0 0 _ _ _ _ E). done.
Qed.

Lemma row_key_parts cols infos rec :
  Forall2 (part_packed mem uninit tbl) cols infos ->
  row_key mem cols infos rec = concat (map (part_bytes rec) (map fst cols)).
Proof.
  induction 1 as [|c info cols infos Hp _ IH]; [done|].
  by rewrite row_key_cons, (column_key_part c info rec Hp), IH.
Qed.

(** ** The loop over the parts *)

Fixpoint insert_parts (nos : list (option nat)) (keys : list bytes) (parts : gmap nat bytes) : gmap nat bytes :=
  match nos, keys with
  | no :: nos, key :: keys =>
      insert_parts nos keys (match no with Some j => <[j := key]> parts | None => parts end)
  | _, _ => parts
  end.

Lemma insert_parts_lookup nos keys parts j i key :
  nos !! i = Some (Some j) -> keys !! i = Some key -> length nos = length keys ->
  (forall i', (i < i')%nat -> nos !! i' <> Some (Some j)) ->
  insert_parts nos keys parts !! j = Some key.
Proof.
  revert keys parts i. induction nos as [|no nos IH]; intros [|k keys] parts i Hn Hk Hl Hlast; try done.
  destruct i as [|i]; cbn [insert_parts].
  - simpl in Hn, Hk. injection Hn as ->. injection Hk as ->. clear IH.
    assert (forall i, nos !! i <> Some (Some j)) as Hno by (intros i; apply (Hlast (S i)); lia).
    assert (<[j := key]> parts !! j = Some key) as Hj by apply lookup_insert_eq.
    simpl in Hl. apply Nat.succ_inj in Hl. revert keys Hl Hno Hj. generalize (<[j := key]> parts). clear.
    induction nos as [|no nos IH]; intros parts [|k keys] Hl Hno Hj; try done. cbn [insert_parts].
    apply IH; [by injection Hl|intros i; apply (Hno (S i))|].
    destruct no as [j'|]; [|done]. rewrite lookup_insert_ne; [done|].
    intros ->. by apply (Hno 0%nat).
  - apply (IH keys _ i); try done; [by injection Hl|]. intros i' Hi'. apply (Hlast (S i')). lia.
Qed.

Lemma pk_parts_loop_keys kd cols infos i nos later rec rest parts :
  (forall j info, infos !! j = Some info -> m_pack_info kd !! (i + j)%nat = Some info) ->
  Forall2 (part_ready mem uninit tbl) cols infos -> Forall (fun c => value_ok c rec) cols ->
  length nos = length cols ->
  pk_parts_loop kd tbl i (nos ++ later) (row_key mem cols infos rec ++ rest) parts =
    pk_parts_loop kd tbl (i + length cols) later rest (insert_parts nos (map (part_bytes rec) (map fst cols)) parts).
Proof.
  intros Hi H. revert i nos parts Hi.
  induction H as [|c info cols infos Hr Hrs IH]; intros i nos parts Hi Hv Hl.
  { destruct nos; [|done]. by rewrite Nat.add_0_r. }
  destruct nos as [|no nos]; [done|]. apply Forall_cons_iff in Hv as [Hv Hvs].
  cbn [pk_parts_loop map insert_parts app length].
  rewrite row_key_cons, <- app_assoc, (read_part mem uninit tbl kd i c info rec) by
    (try done; specialize (Hi 0%nat info eq_refl); by rewrite Nat.add_0_r in Hi).
  rewrite consumed_app, (column_key_part c info rec (pr_packed _ _ _ _ _ Hr)).
  rewrite <- Nat.add_succ_comm. apply IH; [|done|by injection Hl].
  intros j info' Hj. rewrite Nat.add_succ_comm. by apply (Hi (S j)).
Qed.

End PkTuple.

(** ** Which part is which part of the primary key *)

Definition part_index (p : KEY_PART_INFO) : nat := field_index (kp_field p).

Lemma find_pk_part_lookup parts j0 j p :
  NoDup (map part_index parts) -> parts !! j = Some p ->
  find_pk_part (part_index p) j0 parts = Some (j0 + j)%nat.
Proof.
  revert j0 j. induction parts as [|q parts IH]; intros j0 j Hnd Hj; [done|].
  apply list.NoDup_cons in Hnd as [Hq Hnd]. cbn [find_pk_part]. destruct j as [|j].
  - injection Hj as ->. unfold part_index. by rewrite Nat.eqb_refl, Nat.add_0_r.
  - simpl in Hj. rewrite (proj2 (Nat.eqb_neq _ _)).
    + rewrite (IH (S j0) j) by done. f_equal. lia.
    + intros E. apply Hq. change (field_index (kp_field q)) with (part_index q) in E. rewrite <- E.
      apply list_elem_of_fmap_2. by apply (list_elem_of_lookup_2 _ j).
Qed.

Lemma find_pk_part_inv idx parts j0 m :
  find_pk_part idx j0 parts = Some m -> exists j p, m = (j0 + j)%nat /\ parts !! j = Some p /\ part_index p = idx.
Proof.
  revert j0. induction parts as [|q parts IH]; intros j0 H; [done|]. cbn [find_pk_part] in H.
  destruct (Nat.eqb_spec idx (field_index (kp_field q))) as [E|].
  - injection H as <-. exists 0%nat, q. split_and!; [lia|done|done].
  - destruct (IH _ H) as (j & p & -> & Hj & Hp). exists (S j), p. split_and!; [lia|done|done].
Qed.

Lemma NoDup_index_inj parts i j p q :
  NoDup (map part_index parts) -> parts !! i = Some p -> parts !! j = Some q -> part_index p = part_index q -> i = j.
Proof.
  intros Hnd Hi Hj E. apply (NoDup_lookup (map part_index parts) i j (part_index p) Hnd).
  - change (map part_index parts) with (part_index <$> parts). by rewrite list_lookup_fmap, Hi.
  - change (map part_index parts) with (part_index <$> parts). by rewrite list_lookup_fmap, Hj, E.
Qed.

(** The parts of the primary key that are not among [parts]. *)
Definition missing_parts (parts pk : list KEY_PART_INFO) : list KEY_PART_INFO :=
  List.filter (fun p => negb (already_present p parts)) pk.

Lemma already_present_spec p parts :
  already_present p parts = true <->
  exists q, q ∈ parts /\ part_index p = part_index q /\ kp_length p = kp_length q.
Proof.
  unfold already_present. rewrite existsb_exists. split.
  - intros (q & Hq & H). exists q. rewrite andb_true_iff, !Nat.eqb_eq in H.
    split; [by apply list_elem_of_In|done].
  - intros (q & Hq & H1 & H2). exists q. rewrite andb_true_iff, !Nat.eqb_eq.
    split; [by apply list_elem_of_In|done].
Qed.

Lemma missing_parts_elem p parts pk :
  p ∈ missing_parts parts pk <-> p ∈ pk /\ already_present p parts = false.
Proof. unfold missing_parts. rewrite !list_elem_of_In, filter_In, negb_true_iff. done. Qed.

Lemma missing_parts_NoDup parts pk :
  NoDup (map part_index pk) -> NoDup (map part_index (missing_parts parts pk)).
Proof.
  intros H. induction pk as [|p pk IH]; [constructor|]. apply list.NoDup_cons in H as [Hp H].
  unfold missing_parts. simpl. destruct (negb _); [|by apply IH]. simpl. apply list.NoDup_cons. split; [|by apply IH].
  intros Hin. apply Hp. apply list_elem_of_fmap in Hin as (q & Eq & Hq).
  change (q ∈ missing_parts parts pk) in Hq. apply missing_parts_elem in Hq as [Hq _].
  rewrite Eq. by apply list_elem_of_fmap_2.
Qed.

(** Every part of the primary key is found, last where it has its bytes. *)
Lemma pk_part_found parts pk j p :
  NoDup (map part_index parts) -> NoDup (map part_index pk) ->
  (forall q r, q ∈ parts -> r ∈ pk -> part_index q = part_index r -> kp_length q = kp_length r -> q = r) ->
  pk !! j = Some p ->
  exists i, (parts ++ missing_parts parts pk) !! i = Some p /\
    forall i' r, (i < i')%nat -> (parts ++ missing_parts parts pk) !! i' = Some r -> part_index r <> part_index p.
Proof.
  intros Hn1 Hn2 Hsame Hj. assert (p ∈ pk) as Hp by (by apply (list_elem_of_lookup_2 _ j)).
  assert (forall r, r ∈ pk -> part_index r = part_index p -> r = p) as Huniq.
  { intros r Hr E. apply list_elem_of_lookup_1 in Hr as [jr Hr].
    assert (jr = j) as -> by (by apply (NoDup_index_inj pk jr j r p)). congruence. }
  destruct (already_present p parts) eqn:Ep.
  - apply already_present_spec in Ep as (q & Hq & E1 & E2).
    assert (q = p) as -> by (apply Hsame; done). apply list_elem_of_lookup_1 in Hq as [i Hi].
    exists i. split; [by apply lookup_app_l_Some|]. intros i' r Hlt Hr E.
    apply lookup_app_Some in Hr as [Hr|[_ Hr]].
    + assert (i' = i) by (by apply (NoDup_index_inj parts i' i r p)). lia.
    + apply list_elem_of_lookup_2, missing_parts_elem in Hr as [Hr Habs].
      rewrite (Huniq r Hr E) in Habs.
      assert (already_present p parts = true); [|congruence].
      apply already_present_spec. exists p. split; [by apply (list_elem_of_lookup_2 _ i)|done].
  - assert (p ∈ missing_parts parts pk) as Hm by (by apply missing_parts_elem).
    apply list_elem_of_lookup_1 in Hm as [i Hi]. exists (length parts + i)%nat.
    split; [by rewrite lookup_app_r, Nat.add_comm, Nat.add_sub by lia|]. intros i' r Hlt Hr E.
    rewrite lookup_app_r in Hr by lia.
    assert (i' - length parts = i)%nat; [|lia].
    apply (NoDup_index_inj (missing_parts parts pk) _ _ r p); try done. by apply missing_parts_NoDup.
Qed.

(** The parts that are packed: those of the index, then the missing ones. *)
Lemma index_columns_parts ki cols pk_cols :
  key_part ki = map fst cols -> ext_key_parts ki = length cols ->
  map fst (index_columns ki cols pk_cols) = map fst cols ++ missing_parts (map fst cols) (map fst pk_cols).
Proof.
  intros Hk He. unfold index_columns, missing, missing_parts. rewrite Hk, He, map_app, take_ge by (rewrite length_map; lia).
  f_equal. induction pk_cols as [|c pk_cols IH]; [done|]. simpl. by destruct (negb _); simpl; rewrite IH.
Qed.

(** Parts that name the same column with the same length are the same. *)
Lemma indexed_same tbl (c d : indexed_part) :
  indexed tbl c -> indexed tbl d -> part_index c.1 = part_index d.1 -> kp_length c.1 = kp_length d.1 -> c.1 = d.1.
Proof.
  intros [_ Hc] [_ Hd] E El. unfold part_index in E. rewrite E, Hd in Hc. injection Hc as Hf.
  destruct c as [[fc lc] ?], d as [[fd ld] ?]. simpl in *. congruence.
Qed.

Lemma collected_parts mem uninit rec parts pk nos :
  NoDup (map part_index parts) -> NoDup (map part_index pk) ->
  (forall q r, q ∈ parts -> r ∈ pk -> part_index q = part_index r -> kp_length q = kp_length r -> q = r) ->
  nos = map (fun p => find_pk_part (part_index p) 0 pk) (parts ++ missing_parts parts pk) ->
  mapM (fun j => insert_parts nos (map (part_bytes mem uninit rec) (parts ++ missing_parts parts pk)) ∅ !! j)
    (seq 0 (length pk)) = Some (map (part_bytes mem uninit rec) pk).
Proof.
  intros Hn1 Hn2 Hsame ->. apply mapM_Some_2. apply Forall2_same_length_lookup.
  rewrite length_seq, length_map. split; [done|]. intros j j' key Hj Hkey.
  apply lookup_seq in Hj as [-> _]. simpl.
  change (map (part_bytes mem uninit rec) pk) with (part_bytes mem uninit rec <$> pk) in Hkey.
  rewrite list_lookup_fmap in Hkey. destruct (pk !! j) as [p|] eqn:Hp; [|done]. injection Hkey as <-.
  destruct (pk_part_found parts pk j p Hn1 Hn2 Hsame Hp) as (i & Hi & Hlast).
  apply (insert_parts_lookup _ _ _ j i).
  - change (map ?f ?l) with (f <$> l). rewrite list_lookup_fmap, Hi. simpl. f_equal.
    by rewrite (find_pk_part_lookup pk 0 j p).
  - change (map ?f ?l) with (f <$> l). by rewrite list_lookup_fmap, Hi.
  - by rewrite !length_map.
  - intros i' Hlt Habs. change (map ?f ?l) with (f <$> l) in Habs. rewrite list_lookup_fmap in Habs.
    destruct ((parts ++ missing_parts parts pk) !! i') as [r|] eqn:Hr; [|done]. injection Habs as Habs.
    apply (Hlast i' r Hlt Hr). destruct (find_pk_part_inv _ _ _ _ Habs) as (m & q & -> & Hq & Eq).
    simpl in Hp. rewrite Hp in Hq. congruence.
Qed.

(** The key of the primary index, from the key of a secondary one. *)
Lemma primary_key_of_key mem uninit tbl kd0 ki cols pkd0 pk pk_cols :
  index_definition tbl kd0 ki cols pk_cols -> m_index_type kd0 = INDEX_TYPE_SECONDARY ->
  index_definition tbl pkd0 pk pk_cols [] ->
  NoDup (map (fun c => part_index c.1) cols) -> NoDup (map (fun c => part_index c.1) pk_cols) ->
  exists kd pkd, key_def_setup uninit tbl kd0 = Some kd /\ key_def_setup uninit tbl pkd0 = Some pkd /\
    forall rec, row_ok (index_columns ki cols pk_cols) rec -> row_ok pk_cols rec ->
      get_primary_key_tuple kd tbl (row_key mem (index_columns ki cols pk_cols) (m_pack_info kd) rec) =
        Some (row_key mem pk_cols (m_pack_info pkd) rec).
Proof.
  intros Hid Hsec Hpid Hn1 Hn2.
  destruct (setup_ready mem uninit tbl kd0 ki cols pk_cols Hid) as (kd & E & Hr & Hh & _).
  destruct (key_def_setup_packed mem uninit tbl kd0 ki cols pk_cols Hid) as (kd' & E' & Hp & _ & _ & _ & Hpk).
  rewrite E in E'. injection E' as <-. destruct (Hpk Hsec) as [Hnum Hnos].
  destruct (key_def_setup_packed mem uninit tbl pkd0 pk pk_cols [] Hpid) as (pkd & Epk & Hpp & _).
  rewrite (app_nil_r pk_cols : index_columns pk pk_cols [] = pk_cols) in Hpp.
  exists kd, pkd. split_and!; [done|done|]. intros rec Hrow Hprow.
  pose proof (index_columns_parts ki cols pk_cols (id_parts _ _ _ _ _ Hid) (id_ext _ _ _ _ _ Hid)) as Hparts.
  unfold get_primary_key_tuple. rewrite <- (app_nil_r (row_key mem (index_columns ki cols pk_cols) _ rec)).
  rewrite <- (app_nil_r (m_pk_part_no kd)), (pk_parts_loop_keys mem uninit tbl kd _ _ 0 _ [] rec [] ∅) by
    (done || by rewrite Hnos, length_map). cbn [pk_parts_loop].
  rewrite (row_key_parts mem uninit tbl pk_cols _ rec Hpp), Hnum, Hparts, <- (length_map fst pk_cols).
  rewrite (collected_parts mem uninit rec (map fst cols) (map fst pk_cols)); [done|by rewrite map_map..| |].
  - intros q r Hq Hr'. apply list_elem_of_fmap in Hq as (c & -> & Hc). apply list_elem_of_fmap in Hr' as (d & -> & Hd).
    pose proof (id_indexed _ _ _ _ _ Hid) as H1. pose proof (id_indexed _ _ _ _ _ Hpid) as H2.
    rewrite Forall_forall in H1, H2. intros Ei El. apply (indexed_same tbl c d); [by apply H1, list_elem_of_In|by apply H2, list_elem_of_In|done|done].
  - rewrite Hnos, <- Hparts, map_map. done.
Qed.

(** C25: the key of a row in a secondary index contains its key in the primary
    index.  [get_primary_key_tuple] applied to the key that [pack_record]
    makes of a record for a secondary index returns the key it makes of the
    record for the primary index, wherever the columns of the primary key
    are in the secondary index. *)
Theorem get_primary_key_tuple_correct mem uninit tbl kd0 ki cols pkd0 pk pk_cols :
  index_definition tbl kd0 ki cols pk_cols -> m_index_type kd0 = INDEX_TYPE_SECONDARY ->
  index_definition tbl pkd0 pk pk_cols [] ->
  NoDup (map (fun c => part_index c.1) cols) -> NoDup (map (fun c => part_index c.1) pk_cols) ->
  exists kd pkd, key_def_setup uninit tbl kd0 = Some kd /\ key_def_setup uninit tbl pkd0 = Some pkd /\
    forall rec u, row_ok (index_columns ki cols pk_cols) rec -> row_ok pk_cols rec ->
      exists st pst, pack_record mem kd tbl rec u false None 0 = Some st /\
        pack_record mem pkd tbl rec u false None 0 = Some pst /\
        get_primary_key_tuple kd tbl (ps_tuple st) = Some (ps_tuple pst).
Proof.
  intros Hid Hsec Hpid Hn1 Hn2.
  destruct (primary_key_of_key mem uninit tbl kd0 ki cols pkd0 pk pk_cols Hid Hsec Hpid Hn1 Hn2) as (kd & pkd & E & Epk & Hget).
  destruct (setup_ready mem uninit tbl kd0 ki cols pk_cols Hid) as (kd' & E' & _ & _ & _ & _ & _ & Hpack).
  destruct (setup_ready mem uninit tbl pkd0 pk pk_cols [] Hpid) as (pkd' & Epk' & _ & _ & _ & _ & _ & Hppack).
  rewrite E in E'. injection E' as <-. rewrite Epk in Epk'. injection Epk' as <-.
  rewrite (app_nil_r pk_cols : index_columns pk pk_cols [] = pk_cols) in Hppack.
  exists kd, pkd. split_and!; [done|done|]. intros rec u Hrow Hprow.
  destruct (Hpack rec u 0%nat Hrow ltac:(lia) ltac:(done)) as (st & Est & Ht).
  destruct (Hppack rec u 0%nat Hprow ltac:(lia) ltac:(done)) as (pst & Epst & Hpt).
  exists st, pst. split_and!; [done|done|]. rewrite Ht, Hpt. by apply Hget.
Qed.

Lemma get_primary_key_tuple_witness :
  exists kd pkd, key_def_setup sample_uninit sample_table sample_kd = Some kd /\
    key_def_setup sample_uninit sample_table sample_pk_kd = Some pkd /\
    exists st pst, pack_record (fun _ => []) kd sample_table sample_ann None false None 0 = Some st /\
      pack_record (fun _ => []) pkd sample_table sample_ann None false None 0 = Some pst /\
      get_primary_key_tuple kd sample_table (ps_tuple st) = Some (ps_tuple pst).
Proof.
  destruct (get_primary_key_tuple_correct (fun _ => []) sample_uninit sample_table sample_kd sample_sk
    [sample_name_part] sample_pk_kd sample_pk [sample_id_part] sample_index eq_refl sample_pk_index)
    as (kd & pkd & E & Epk & H).
  - by apply (bool_decide_unpack _).
  - by apply (bool_decide_unpack _).
  - exists kd, pkd. split; [exact E|]. split; [exact Epk|]. apply (H sample_ann None).
    + sample_row.
    + apply (sample_pk_row sample_ann); [by apply (bool_decide_unpack _)|done].
Defined.

End PkTuple.
