(* ===== verification/Neighbour.v ===== *)
(** * Neighbour: successor, predecessor and ceiling of a key

    The bounds of key ranges: [successor] and [predecessor] add and subtract
    one, [get_ceiling_key] extends a key to the largest key with that prefix. *)

From S2P Require Import Prelude Buff Charset Latin1 Collation Field Codec Packing VarFormat SpacePad.
From S2P Require Import Varchar KeySetup KeyDef.
Import KeyDef.

Module Neighbour.

(** ** Byte order and prefixes *)

Lemma lex_cmp_app_Gt a b s : lex_cmp a b = Gt -> lex_cmp (a ++ s) b = Gt.
Proof.
  revert b. induction a as [|x a IH]; intros [|y b]; simpl; try done.
  destruct (x ?= y); simpl; [apply IH|done|done].
Qed.

Lemma lex_cmp_app_Lt a b s : lex_cmp a b = Lt -> ~ a `prefix_of` b -> lex_cmp (a ++ s) b = Lt.
Proof.
  revert b. induction a as [|x a IH]; intros [|y b]; simpl; try done.
  - intros _ H. destruct H. by exists (y :: b).
  - destruct (Z.compare_spec x y) as [->|Hlt|Hgt]; simpl; [|done|done].
    intros Hc Hp. apply IH; [done|]. intros [r ->]. apply Hp. by exists r.
Qed.

Lemma lex_cmp_prefix_le a r : lex_cmp a (a ++ r) <> Gt.
Proof. induction a as [|x a IH]; [by destruct r|]. simpl. by rewrite Z.compare_refl. Qed.

(** Nothing of at most [n] bytes is above [n] bytes 0xFF. *)
Lemma lex_cmp_ones r n : bytes_ok r -> (length r <= n)%nat -> lex_cmp r (replicate n 255) <> Gt.
Proof.
  revert n. induction r as [|b r IH]; intros n Hr Hl; [by destruct n|].
  apply bytes_ok_cons in Hr as [Hb Hr]. destruct n as [|n]; [simpl in Hl; lia|]. simpl in Hl |- *.
  unfold byte_ok in Hb. destruct (Z.compare_spec b 255); simpl; [apply IH; [done|lia]|done|lia].
Qed.

(** ** successor and predecessor *)

(** The number behind the bytes, the last byte the lowest. *)
Lemma successor_loop_val r :
  bytes_ok r ->
  let '(n, r') := successor_loop r in
  length r' = length r /\ bytes_ok r' /\ (n <= length r)%nat /\
  le_val r' = (le_val r + 1) mod 256 ^ Z.of_nat (length r) /\ predecessor_loop r' = (n, r).
Proof.
  induction r as [|b r IH]; intros Hr; simpl.
  { by split_and!. }
  apply bytes_ok_cons in Hr as [Hb Hr]. pose proof Hb as Hb'. unfold byte_ok in Hb'.
  pose proof (le_val_bound r Hr) as Hv. pose proof (pow256_pos (length r)) as Hp.
  replace (256 ^ Z.of_nat (S (length r))) with (256 * 256 ^ Z.of_nat (length r)) by (symmetry; apply pow256_S).
  destruct (Z.eqb_spec b 255) as [->|Hne]; simpl.
  - destruct (successor_loop r) as [n r'] eqn:E. destruct (IH Hr) as (Hl & Hok & Hn & Hval & Hpred).
    simpl. rewrite Hl, Hpred. split_and!; try done; [|lia|].
    + apply bytes_ok_cons. split; [unfold byte_ok; lia|done].
    + rewrite Hval. replace (255 + 256 * le_val r + 1) with (256 * (le_val r + 1)) by lia.
      rewrite Z.mul_mod_distr_l by lia. lia.
  - split_and!; try done; [|lia| |].
    + apply bytes_ok_cons. split; [unfold byte_ok; lia|done].
    + rewrite Z.mod_small by nia. lia.
    + rewrite (proj2 (Z.eqb_neq _ _)) by lia. simpl. do 2 f_equal. lia.
Qed.

Lemma successor_spec t :
  bytes_ok t ->
  let '(n, t') := successor t in
  length t' = length t /\ bytes_ok t' /\ (n <= length t)%nat /\
  be_val t' = (be_val t + 1) mod 256 ^ Z.of_nat (length t) /\ predecessor t' = (n, t).
Proof.
  intros Ht. unfold successor.
  pose proof (successor_loop_val (reverse t) ltac:(by apply bytes_ok_rev)) as H.
  destruct (successor_loop (reverse t)) as [n r'].
  destruct H as (Hl & Hok & Hn & Hval & Hpred). rewrite length_reverse in *.
  split_and!; try done.
  - by apply bytes_ok_rev.
  - rewrite be_val_reverse, Hval. by rewrite <- be_val_reverse, reverse_involutive.
  - unfold predecessor. by rewrite reverse_involutive, Hpred, reverse_involutive.
Qed.

(** [successor] adds one to the key read as a number, modulo its width,
    says how many bytes it touched at most, and [predecessor] undoes it. *)
Theorem successor_correct t :
  bytes_ok t ->
  let '(n, t') := successor t in
  length t' = length t /\ bytes_ok t' /\ (n <= length t)%nat /\
  be_val t' = (be_val t + 1) mod 256 ^ Z.of_nat (length t) /\ predecessor t' = (n, t).
Proof. apply successor_spec. Qed.

Lemma successor_witness : predecessor [7; 1; 0; 0] = (3%nat, [7; 0; 255; 255]).
Proof.
  pose proof (successor_correct [7; 0; 255; 255] ltac:(by apply (bool_decide_unpack _))) as H.
  vm_compute (successor _) in H. apply H.
Defined.

(** The value of a key that is not the last one of its length. *)
Lemma successor_val t :
  bytes_ok t -> t <> replicate (length t) 255 -> be_val (successor t).2 = be_val t + 1.
Proof.
  intros Ht Hne. pose proof (successor_spec t Ht) as H. destruct (successor t) as [n t'].
  cbn [snd]. destruct H as (_ & _ & _ & -> & _). pose proof (be_val_bound t Ht) as Hb.
  apply Z.mod_small. split; [lia|].
  assert (be_val t <> 256 ^ Z.of_nat (length t) - 1); [|lia]. intros E. apply Hne.
  apply lex_cmp_Eq. rewrite be_val_compare; [|done|apply bytes_ok_replicate; unfold byte_ok; lia|by rewrite length_replicate].
  rewrite E. apply Z.compare_eq_iff. generalize (length t). clear. intros n. induction n as [|n IH]; [done|].
  simpl replicate. cbn [be_val]. rewrite length_replicate, <- IH, pow256_S. lia.
Qed.

(** The keys from [t] up to its successor are those that start with [t],
    among the keys that are at least as long, unless all bytes of [t] are
    0xFF. *)
Theorem successor_range t k :
  bytes_ok t -> bytes_ok k -> (length t <= length k)%nat -> t <> replicate (length t) 255 ->
  t `prefix_of` k <-> lex_cmp t k <> Gt /\ lex_cmp k (successor t).2 = Lt.
Proof.
  intros Ht Hk Hl Hne. pose proof (successor_val t Ht Hne) as Hv. pose proof (successor_spec t Ht) as Hs.
  destruct (successor t) as [n t']. cbn [snd] in *. destruct Hs as (Hl' & Hok' & _).
  set (k1 := take (length t) k). set (k2 := drop (length t) k).
  assert (length k1 = length t) as Hl1 by (unfold k1; rewrite length_take; lia).
  assert (bytes_ok k1) as Hk1 by (unfold k1; auto with bytes).
  assert (k = k1 ++ k2) as Ek by (symmetry; apply take_drop).
  rewrite Ek. rewrite <- (app_nil_r t) at 2. rewrite <- (app_nil_r t'), !lex_cmp_app by lia.
  rewrite (be_val_compare t k1), (be_val_compare k1 t') by (done || lia). rewrite Hv.
  assert (t `prefix_of` k1 ++ k2 <-> be_val k1 = be_val t) as ->.
  { split.
    - intros [r E]. apply (f_equal (take (length t))) in E. rewrite take_app_length' in E by done.
      rewrite take_app_length in E. by rewrite E.
    - intros E. exists k2. f_equal. apply lex_cmp_Eq. rewrite be_val_compare by (done || lia).
      by apply Z.compare_eq_iff. }
  destruct (Z.compare_spec (be_val t) (be_val k1)), (Z.compare_spec (be_val k1) (be_val t + 1));
    destruct k2; simpl; intuition (discriminate || lia).
Qed.

Lemma successor_range_witness : [3; 255] `prefix_of` [3; 255; 9; 1] .
Proof.
  apply (successor_range [3; 255] [3; 255; 9; 1]);
    [by apply (bool_decide_unpack _)|by apply (bool_decide_unpack _)|simpl; lia|done|by vm_compute].
Defined.

(** Of a key of bytes 0xFF the successor is zero: the range of such a
    prefix becomes empty. *)
Theorem successor_wraps n : successor (replicate n 255) = (n, replicate n 0).
Proof.
  unfold successor. rewrite reverse_replicate.
  assert (successor_loop (replicate n 255) = (n, replicate n 0)) as ->.
  { induction n as [|n IH]; [done|]. simpl. by rewrite IH. }
  by rewrite reverse_replicate.
Qed.

(** ** Ceilings *)

(** Keys of at most [m_maxlength] bytes below the ceiling. *)
Lemma ceiling_cmp kd p k :
  bytes_ok k -> (length k <= m_maxlength kd)%nat ->
  lex_cmp k (get_ceiling_key kd p) <> Gt <-> p `prefix_of` k \/ lex_cmp p k = Gt.
Proof.
  intros Hk Hl. unfold get_ceiling_key. rewrite lex_cmp_antisym. split.
  - intros H. destruct (decide (p `prefix_of` k)) as [|Hnp]; [by left|right].
    destruct (lex_cmp p k) eqn:E; [|exfalso; apply H|done].
    + apply lex_cmp_Eq in E. destruct Hnp. by subst.
    + rewrite lex_cmp_app_Lt; done.
  - intros [[r ->]|H].
    + rewrite <- lex_cmp_antisym, lex_cmp_app_same. apply lex_cmp_ones.
      * by apply bytes_ok_app in Hk as [_ Hk].
      * rewrite length_app in Hl. lia.
    + by rewrite lex_cmp_app_Gt.
Qed.

End Neighbour.
