(* ===== verification/Double.v ===== *)
(** * Double: the binary64 arithmetic that the sources use

    Conversion of integers to [double] and the division of two of them, by
    the definitions of IEEE 754 arithmetic in the standard library, and that
    their results are numbers. *)

From Stdlib Require Import SpecFloat.
From S2P Require Import Prelude.

Module Double.

Definition double := spec_float.
Definition double_of (n : Z) : double := binary_normalize 53 1024 n 0 false.
Definition double_div (x y : double) : double := SFdiv 53 1024 x y.

(** [double(a - b)] or [-double(b - a)] for unsigned [a] and [b]. *)
Definition difference (a b : Z) : double :=
  if b <? a then double_of (a - b) else SFopp (double_of (b - a)).

(** Zero or a finite positive number. *)
Definition finite_nonneg (x : double) : Prop :=
  match x with S754_zero _ | S754_finite false _ _ => True | _ => False end.

Definition nonneg (x : double) : Prop :=
  match x with S754_zero _ | S754_finite false _ _ | S754_infinity false => True | _ => False end.

(** ** Shifting *)

Lemma shr_1_bound r : 0 <= shr_m r -> 0 <= shr_m (shr_1 r) <= shr_m r.
Proof. destruct r as [m r s]. simpl. destruct m as [|[p|p|]|p]; simpl; lia. Qed.

Lemma iter_shr_bound p r : 0 <= shr_m r -> 0 <= shr_m (SpecFloat.iter_pos shr_1 p r) <= shr_m r.
Proof.
  revert r. induction p as [p IH|p IH|]; intros r H; simpl.
  - pose proof (shr_1_bound r H). pose proof (IH (shr_1 r) ltac:(lia)).
    pose proof (IH (SpecFloat.iter_pos shr_1 p (shr_1 r)) ltac:(lia)). lia.
  - pose proof (IH r H). pose proof (IH (SpecFloat.iter_pos shr_1 p r) ltac:(lia)). lia.
  - by apply shr_1_bound.
Qed.

Lemma shr_record_of_loc_m m l : shr_m (shr_record_of_loc m l) = m.
Proof. by destruct l as [|[]]. Qed.

(** The mantissa does not grow; the exponent grows to [fexp] at most. *)
Lemma shr_fexp_bound m e l :
  0 <= m -> let '(r, e') := shr_fexp 53 1024 m e l in
  0 <= shr_m r <= m /\ e' <= Z.max e (fexp 53 1024 (Zdigits2 m + e)).
Proof.
  intros Hm. unfold shr_fexp, shr. destruct (fexp 53 1024 (Zdigits2 m + e) - e) as [|p|p] eqn:E;
    rewrite ?shr_record_of_loc_m; try lia.
  pose proof (iter_shr_bound p (shr_record_of_loc m l)) as H. rewrite shr_record_of_loc_m in H. lia.
Qed.

Lemma round_nearest_even_bound m l : 0 <= m -> 0 <= round_nearest_even m l <= m + 1.
Proof. intros H. destruct l as [|[]]; simpl; try lia. destruct (Z.even m); lia. Qed.

Lemma digits2_size p : digits2_pos p = Pos.size p.
Proof. induction p as [p IH|p IH|]; simpl; [by rewrite IH|by rewrite IH|done]. Qed.

Lemma Zdigits2_bound m k : 0 <= m < 2 ^ k -> 0 <= k -> Zdigits2 m <= k.
Proof.
  intros [H1 H2] Hk. destruct m as [|p|p]; simpl; [done| |lia]. rewrite digits2_size.
  destruct (Z.le_gt_cases (Z.pos (Pos.size p)) k) as [|Hgt]; [done|].
  pose proof (Pos.size_le p) as Hs. apply Pos2Z.pos_le_pos in Hs. rewrite Pos2Z.inj_pow, (Pos2Z.inj_xO p) in Hs.
  assert (2 ^ Z.succ k <= 2 ^ Z.pos (Pos.size p)) as Hp by (apply Z.pow_le_mono_r; lia).
  rewrite Z.pow_succ_r in Hp by done. lia.
Qed.

Lemma binary_round_aux_nonneg m e l : 0 <= m -> nonneg (binary_round_aux 53 1024 false m e l).
Proof.
  intros Hm. unfold binary_round_aux. pose proof (shr_fexp_bound m e l Hm) as H1.
  destruct (shr_fexp 53 1024 m e l) as [r e'].
  pose proof (round_nearest_even_bound (shr_m r) (loc_of_shr_record r) ltac:(lia)) as Hr.
  pose proof (shr_fexp_bound (round_nearest_even (shr_m r) (loc_of_shr_record r)) e' loc_Exact ltac:(lia)) as H2.
  destruct (shr_fexp 53 1024 (round_nearest_even _ _) e' loc_Exact) as [r2 e2].
  destruct (shr_m r2) as [|p|p]; [done| |lia]. by destruct (e2 <=? 1024 - 53).
Qed.

Lemma binary_round_aux_finite m e l :
  0 <= m < 2 ^ 64 -> e <= 0 -> finite_nonneg (binary_round_aux 53 1024 false m e l).
Proof.
  intros Hm He. unfold binary_round_aux. pose proof (shr_fexp_bound m e l ltac:(lia)) as H1.
  pose proof (Zdigits2_bound m 64 Hm ltac:(lia)) as Hd1.
  destruct (shr_fexp 53 1024 m e l) as [r e'].
  pose proof (round_nearest_even_bound (shr_m r) (loc_of_shr_record r) ltac:(lia)) as Hr.
  set (m2 := round_nearest_even _ _) in *.
  pose proof (shr_fexp_bound m2 e' loc_Exact ltac:(lia)) as H2.
  pose proof (Zdigits2_bound m2 65 ltac:(lia) ltac:(lia)) as Hd2.
  destruct (shr_fexp 53 1024 m2 e' loc_Exact) as [r2 e2].
  destruct (shr_m r2) as [|p|p]; [done| |lia]. rewrite (proj2 (Z.leb_le _ _)); [done|].
  unfold fexp, emin in *. lia.
Qed.

Lemma shl_bound m d k : Z.pos m < 2 ^ k -> 0 <= k -> Z.pos (Pos.iter xO m d) < 2 ^ (k + Z.pos d).
Proof.
  intros H Hk. induction d as [|d IH] using Pos.peano_ind.
  - simpl. rewrite Pos2Z.inj_xO, Z.pow_add_r by lia. lia.
  - rewrite Pos.iter_succ, Pos2Z.inj_xO, Pos2Z.inj_succ, <- Z.add_1_r, Z.add_assoc, Z.pow_add_r by lia. lia.
Qed.

(** Integers of 64 bits are finite as doubles. *)
Lemma double_of_finite n : 0 <= n < 2 ^ 64 -> finite_nonneg (double_of n).
Proof.
  intros Hn. destruct n as [|p|p]; [done| |lia]. unfold double_of, binary_normalize, binary_round, shl_align.
  rewrite Z.add_0_r, Z.sub_0_r. destruct (fexp 53 1024 (Z.pos (digits2_pos p))) as [|d|d] eqn:E.
  - apply binary_round_aux_finite; lia.
  - apply binary_round_aux_finite; lia.
  - apply binary_round_aux_finite; [|lia]. rewrite digits2_size in E. unfold fexp, emin in E.
    assert (Z.pos p < 2 ^ Z.pos (Pos.size p)) as Hp.
    { pose proof (Pos.size_gt p) as H. apply Pos2Z.pos_lt_pos in H. by rewrite Pos2Z.inj_pow in H. }
    pose proof (shl_bound p d _ Hp ltac:(lia)) as H.
    assert (2 ^ (Z.pos (Pos.size p) + Z.pos d) <= 2 ^ 64); [apply Z.pow_le_mono_r; lia|lia].
Qed.

(** A quotient of such numbers is a number, if the divisor is not zero. *)
Lemma double_div_nonneg x y :
  finite_nonneg x -> finite_nonneg y -> SFeqb y (double_of 0) = false -> nonneg (double_div x y).
Proof.
  destruct x as [s| | |[] m e], y as [t| | |[] m' e']; try done.
  intros _ _ _. unfold double_div, SFdiv. unfold SFdiv_core_binary.
  set (q := match _ with Z0 => _ | Zpos _ => _ | Zneg _ => _ end).
  assert (0 <= q) as Hq by (unfold q; case_match; try lia; apply Z.shiftl_nonneg; lia).
  pose proof (Z.div_eucl_eq q (Z.pos m') ltac:(done)) as Hd. pose proof (Z.mod_pos_bound q (Z.pos m') ltac:(lia)) as Hb.
  unfold Z.modulo in Hb. destruct (Z.div_eucl q (Z.pos m')) as [a b]. cbn [xorb]. apply binary_round_aux_nonneg. nia.
Qed.

End Double.
