(* ===== verification/Real.v ===== *)
(** * Real: FLOAT and DOUBLE columns

    [val_real] and [store] of [Field_float] and [Field_double], and
    [truncate_double] (sql/field.cc), in the binary64 arithmetic of the standard
    library.  A stored value that [truncate_double] keeps survives [val_real]
    and [store], also through the conversion to [float]; for a column without
    a number of decimals these are all finite values, for an unsigned one those
    that are not negative. *)

From Stdlib Require Import SpecFloat.
From S2P Require Import Prelude Charset Latin1 Collation Field Double.
Import Field Double.

Module Real.

(** ** Binary representations

    A format has [prec] digits, the first one not stored, and exponents up to
    [emax]: [float] and [double].  A NaN is one value. *)

Section Format.

Context (prec emax : Z).

Definition of_bits (bits : Z) : spec_float :=
  let s := 2 ^ (prec - 1) * (2 * emax) <=? bits in
  let mx := bits mod 2 ^ (prec - 1) in
  let ex := (bits / 2 ^ (prec - 1)) mod (2 * emax) in
  if ex =? 0 then
    match mx with Zpos p => S754_finite s p (emin prec emax) | _ => S754_zero s end
  else if ex =? 2 * emax - 1 then if mx =? 0 then S754_infinity s else S754_nan
  else match mx + 2 ^ (prec - 1) with Zpos p => S754_finite s p (ex + emin prec emax - 1) | _ => S754_nan end.

Definition to_bits (x : spec_float) : Z :=
  let join (s : bool) mx ex := (if s then 2 ^ (prec - 1) * (2 * emax) else 0) + ex * 2 ^ (prec - 1) + mx in
  match x with
  | S754_zero s => join s 0 0
  | S754_infinity s => join s 0 (2 * emax - 1)
  | S754_nan => join false (2 ^ (prec - 2)) (2 * emax - 1)
  | S754_finite s m e =>
      if Zpos m <? 2 ^ (prec - 1) then join s (Zpos m) 0
      else join s (Zpos m - 2 ^ (prec - 1)) (e - emin prec emax + 1)
  end.

(** Conversion of a number of another format. *)
Definition round_to (x : spec_float) : spec_float :=
  match x with S754_finite s m e => binary_round prec emax s m e | _ => x end.

End Format.

Definition float_get (p : bytes) : spec_float := of_bits 24 128 (le_val (take 4 p)).
Definition double_get (p : bytes) : spec_float := of_bits 53 1024 (le_val (take 8 p)).
Definition float_bytes (x : spec_float) : bytes := le_bytes 4 (to_bits 24 128 x).
Definition double_bytes (x : spec_float) : bytes := le_bytes 8 (to_bits 53 1024 x).

Abbreviation to_float := (round_to 24 128).
Abbreviation to_double := (round_to 53 1024).

(** ** The functions of the C library *)

(** [m * 2 ^ e] rounded down, and to the nearest integer, the even one of
    two. *)
Definition floor_int (n e : Z) : Z := if 0 <=? e then n * 2 ^ e else n / 2 ^ (- e).

Definition rint_int (n e : Z) : Z :=
  if 0 <=? e then n * 2 ^ e
  else
    let d := 2 ^ (- e) in
    let q := n / d in
    match 2 * (n mod d) ?= d with
    | Lt => q
    | Gt => q + 1
    | Eq => if Z.even q then q else q + 1
    end.

Definition to_int (f : Z -> Z -> Z) (x : spec_float) : spec_float :=
  match x with
  | S754_finite s m e => binary_normalize 53 1024 (f (cond_Zopp s (Zpos m)) e) 0 s
  | _ => x
  end.

Abbreviation floor := (to_int floor_int).
Abbreviation rint := (to_int rint_int).

(** ** Storing *)

(** [1e000] to [1e308], rounded to [double]. *)
Definition log_10 (n : nat) : spec_float := binary_normalize 53 1024 (10 ^ Z.of_nat n) 0 false.

Abbreviation FLOATING_POINT_DECIMALS := 31%nat (only parsing).
Abbreviation DBL_MAX := (S754_finite false 9007199254740991 971).
Abbreviation FLT_MAX := (S754_finite false 9007198717870080 75).
Abbreviation ONE := (binary_normalize 53 1024 1 0 false).

(** [max_value_by_dec] for [order] digits before the point. *)
Fixpoint max_by_dec_loop (fuel order : nat) (max_value_by_dec : spec_float) : spec_float :=
  match fuel with
  | O => max_value_by_dec
  | S fuel =>
      if (308 <? order)%nat then max_by_dec_loop fuel (order - 308) (SFmul 53 1024 max_value_by_dec (log_10 308))
      else SFmul 53 1024 max_value_by_dec (log_10 order)
  end.

(** The value and the error. *)
Definition truncate_double (nr : spec_float) (field_length dec : nat) (unsigned_flag : bool) (max_value : spec_float)
    : spec_float * Z :=
  let res := nr in
  if match res with S754_nan => true | _ => false end then (S754_zero false, -1)
  else if unsigned_flag && SFltb res (S754_zero false) then (S754_zero false, 1)
  else
    let '(res, max_value) :=
      if (dec <? FLOATING_POINT_DECIMALS)%nat then
        let order := Z.to_nat (uint_of (Z.of_nat field_length - Z.of_nat dec)) in
        let max_value_by_dec := max_by_dec_loop (Datatypes.S order) order ONE in
        let max_value_by_dec := SFsub 53 1024 max_value_by_dec (SFdiv 53 1024 ONE (log_10 dec)) in
        let max_value := if SFltb max_value_by_dec max_value then max_value_by_dec else max_value in
        let res :=
          if match res with S754_infinity _ => true | _ => false end then res
          else
            let tmp := SFdiv 53 1024 (rint (SFmul 53 1024 (SFsub 53 1024 res (floor res)) (log_10 dec))) (log_10 dec) in
            SFadd 53 1024 (floor res) tmp in
        (res, max_value)
      else (res, max_value) in
  if SFltb res (SFopp max_value) then (SFopp max_value, 1)
  else if SFltb max_value res then (max_value, 1)
  else (res, 0).

Definition float_val_real (f : Field) (rec : bytes) : spec_float := to_double (float_get (data f rec)).

Definition double_val_real (f : Field) (rec : bytes) : spec_float := double_get (data f rec).

(** [not_fixed] holds of a column when its decimals are at least
    FLOATING_POINT_DECIMALS (the constructor of [Field_real]); NOT_FIXED_DEC,
    which is then passed instead, is so too. *)
Definition float_store (f : Field) (nr : spec_float) (rec : bytes) : bytes :=
  let '(nr, error) := truncate_double nr (field_length f) (decimals f) (unsigned_flag f) FLT_MAX in
  let rec := if error <? 0 then set_null f rec else rec in
  write_at (ptr f) (float_bytes (to_float nr)) rec.

Definition double_store (f : Field) (nr : spec_float) (rec : bytes) : bytes :=
  let '(nr, error) := truncate_double nr (field_length f) (decimals f) (unsigned_flag f) DBL_MAX in
  let rec := if error <? 0 then set_null f rec else rec in
  write_at (ptr f) (double_bytes nr) rec.

(** ** Exact conversions *)

Lemma iter_xO m d : Zpos (Pos.iter xO m d) = Zpos m * 2 ^ Zpos d /\ digits2_pos (Pos.iter xO m d) = (digits2_pos m + d)%positive.
Proof.
  induction d as [|d [IH1 IH2]] using Pos.peano_ind; [simpl; split; lia|].
  rewrite Pos.iter_succ. cbn [digits2_pos]. rewrite Pos2Z.inj_xO, IH1, IH2, Pos2Z.inj_succ, Z.pow_succ_r by lia. split; lia.
Qed.

Lemma shr_1_even m : 0 <= m -> shr_1 {| shr_m := 2 * m; shr_r := false; shr_s := false |} =
  {| shr_m := m; shr_r := false; shr_s := false |}.
Proof. by destruct m. Qed.

Lemma iter_shr_exact p : forall m, 0 <= m ->
  SpecFloat.iter_pos shr_1 p {| shr_m := m * 2 ^ Zpos p; shr_r := false; shr_s := false |} =
  {| shr_m := m; shr_r := false; shr_s := false |}.
Proof.
  induction p as [p IH|p IH|]; intros m Hm; cbn [SpecFloat.iter_pos].
  - replace (m * 2 ^ Zpos p~1) with (2 * (m * 2 ^ Zpos p * 2 ^ Zpos p)).
    + rewrite shr_1_even, IH by nia. by apply IH.
    + rewrite (Pos2Z.inj_xI p), Z.pow_add_r, Z.pow_twice_r by lia. ring.
  - replace (m * 2 ^ Zpos p~0) with (m * 2 ^ Zpos p * 2 ^ Zpos p).
    + rewrite IH by nia. by apply IH.
    + rewrite (Pos2Z.inj_xO p), Z.pow_twice_r. ring.
  - rewrite Z.pow_1_r, Z.mul_comm. by apply shr_1_even.
Qed.

Section Rounding.

Context (prec emax : Z).

Abbreviation digits m := (Zpos (digits2_pos m)).

(** Zero bits are cut off. *)
Lemma shr_fexp_exact m m0 e n :
  Zpos m = Zpos m0 * 2 ^ n -> 0 <= n -> fexp prec emax (digits m + e) = e + n ->
  shr_fexp prec emax (Zpos m) e loc_Exact = ({| shr_m := Zpos m0; shr_r := false; shr_s := false |}, e + n).
Proof.
  intros Hm Hn Hf. unfold shr_fexp, shr. cbn [Zdigits2 shr_record_of_loc]. rewrite Hf.
  replace (e + n - e) with n by lia. destruct n as [|p|p]; [|rewrite Hm; by rewrite iter_shr_exact|lia].
  rewrite Z.mul_1_r in Hm. by rewrite Hm, Z.add_0_r.
Qed.

Lemma round_aux_exact s m m0 e n :
  Zpos m = Zpos m0 * 2 ^ n -> 0 <= n -> fexp prec emax (digits m + e) = e + n -> digits m = digits m0 + n ->
  e + n <= emax - prec -> binary_round_aux prec emax s (Zpos m) e loc_Exact = S754_finite s m0 (e + n).
Proof.
  intros Hm Hn Hf Hd He. unfold binary_round_aux. rewrite (shr_fexp_exact m m0 e n Hm Hn Hf). cbn [shr_m loc_of_shr_record round_nearest_even].
  rewrite (shr_fexp_exact m0 m0 (e + n) 0); [|lia|lia|transitivity (e + n); [rewrite <- Hf at 2; f_equal; lia|lia]].
  cbn [shr_m]. rewrite Z.add_0_r. by rewrite (proj2 (Z.leb_le _ _) He).
Qed.

(** More digits than the number has: it is shifted to the left. *)
Lemma round_wider s m e e' :
  fexp prec emax (digits m + e) = e' -> e' <= e -> e' <= emax - prec ->
  exists m', binary_round prec emax s m e = S754_finite s m' e' /\
    Zpos m' = Zpos m * 2 ^ (e - e') /\ digits m' = digits m + (e - e').
Proof.
  intros Hf He Hmax. unfold binary_round, shl_align. rewrite Hf. destruct (e' - e) as [|p|p] eqn:E; [|lia|].
  - replace e with e' in * by lia. exists m. rewrite Z.sub_diag. split_and!; [|lia..].
    rewrite (round_aux_exact s m m e' 0); [by rewrite Z.add_0_r|lia..].
  - destruct (iter_xO m p) as [H1 H2]. exists (Pos.iter xO m p). replace (e - e') with (Zpos p) by lia.
    rewrite H2, Pos2Z.inj_add. split_and!; [|done|done].
    rewrite (round_aux_exact s _ (Pos.iter xO m p) e' 0); [by rewrite Z.add_0_r|lia|lia| |lia|lia].
    transitivity e'; [|lia]. rewrite H2, Pos2Z.inj_add. rewrite <- Hf at 2. f_equal. lia.
Qed.

(** Less digits, when those that are cut off are zero. *)
Lemma round_narrower s m m0 e n :
  Zpos m = Zpos m0 * 2 ^ n -> 0 < n -> digits m = digits m0 + n -> fexp prec emax (digits m0 + n + e) = e + n ->
  e + n <= emax - prec -> binary_round prec emax s m e = S754_finite s m0 (e + n).
Proof.
  intros Hm Hn Hd Hf He. unfold binary_round, shl_align. rewrite Hd, Hf.
  replace (e + n - e) with n by lia. destruct n as [|p|p]; [lia| |lia].
  apply round_aux_exact; try done. by rewrite Hd.
Qed.

End Rounding.

(** ** Bits and values *)

Lemma to_bits_of_bits prec emax bits :
  1 < prec -> 1 < emax -> 0 <= bits < 2 ^ (prec - 1) * (2 * emax) * 2 -> of_bits prec emax bits <> S754_nan ->
  to_bits prec emax (of_bits prec emax bits) = bits.
Proof.
  intros Hp He Hb. unfold of_bits. set (P := 2 ^ (prec - 1)) in *. assert (0 < P) as HP by (apply Z.pow_pos_nonneg; lia).
  pose proof (Z.div_mod bits P ltac:(lia)) as Hd. pose proof (Z.mod_pos_bound bits P HP) as Hm.
  set (d := bits / P) in *. set (mx := bits mod P) in *.
  pose proof (Z.div_mod d (2 * emax) ltac:(lia)) as Hx. pose proof (Z.mod_pos_bound d (2 * emax) ltac:(lia)) as Hxb.
  set (q := d / (2 * emax)) in *. set (ex := d mod (2 * emax)) in *.
  clearbody mx ex. assert (0 <= d < 2 * emax * 2) as Hdb by nia. clearbody q. assert (q = 0 \/ q = 1) as Hq by nia.
  assert ((if P * (2 * emax) <=? bits then P * (2 * emax) else 0) = P * (2 * emax) * q) as Hs.
  { destruct (Z.leb_spec (P * (2 * emax)) bits); destruct Hq as [-> | ->]; nia. }
  assert (forall mx' ex', ex' = ex -> mx' = mx -> P * (2 * emax) * q + ex' * P + mx' = bits) as Hj by (intros mx' ex' -> ->; nia).
  destruct (Z.eqb_spec ex 0) as [E0|E0].
  - destruct mx as [|p|p] eqn:Emx; [|intros _|lia]; cbn [to_bits]; fold P.
    + intros _. rewrite Hs. by apply Hj.
    + rewrite (proj2 (Z.ltb_lt _ _)) by lia. rewrite Hs. by apply Hj.
  - destruct (Z.eqb_spec ex (2 * emax - 1)) as [E1|E1].
    + destruct (Z.eqb_spec mx 0); [|done]. intros _. cbn [to_bits]. fold P. rewrite Hs. by apply Hj.
    + destruct (mx + P) as [|p|p] eqn:Ep; [lia| |lia]. intros _. cbn [to_bits]. fold P.
      rewrite (proj2 (Z.ltb_ge _ _)) by lia. rewrite Hs. apply Hj; lia.
Qed.

(** Digits and exponents of the finite numbers. *)
Lemma digits_range p k : 0 < k -> Zpos p < 2 ^ k -> Zpos (digits2_pos p) <= k /\
  (2 ^ (k - 1) <= Zpos p -> Zpos (digits2_pos p) = k).
Proof.
  intros Hk Hp. pose proof (Zdigits2_bound (Zpos p) k ltac:(lia) ltac:(lia)) as Hd. cbn [Zdigits2] in Hd. split; [done|].
  intros Hl. destruct (Z.le_gt_cases k (Zpos (digits2_pos p))) as [|Hlt]; [lia|].
  pose proof (Pos.size_gt p) as Hs. apply Pos2Z.pos_lt_pos in Hs. rewrite Pos2Z.inj_pow, <- digits2_size in Hs.
  assert (2 ^ Zpos (digits2_pos p) <= 2 ^ (k - 1)) by (apply Z.pow_le_mono_r; lia). lia.
Qed.

Lemma of_bits_finite prec emax bits s m e :
  1 < prec -> 1 < emax -> of_bits prec emax bits = S754_finite s m e ->
  Zpos m < 2 ^ prec /\ emin prec emax <= e <= emax - prec /\ (2 ^ (prec - 1) <= Zpos m \/ e = emin prec emax).
Proof.
  intros Hp He. unfold of_bits. set (P := 2 ^ (prec - 1)) in *. assert (0 < P) as HP by (apply Z.pow_pos_nonneg; lia).
  assert (2 ^ prec = 2 * P) as -> by (unfold P; rewrite <- Z.pow_succ_r by lia; f_equal; lia).
  pose proof (Z.mod_pos_bound bits P HP) as Hm.
  pose proof (Z.mod_pos_bound (bits / P) (2 * emax) ltac:(lia)) as Hx. unfold emin.
  destruct (Z.eqb_spec ((bits / P) mod (2 * emax)) 0).
  - destruct (bits mod P) as [|p|p]; [done| |done]. intros [= _ <- <-]. lia.
  - destruct (Z.eqb_spec ((bits / P) mod (2 * emax)) (2 * emax - 1)); [by destruct (_ =? 0)|].
    destruct (bits mod P + P) as [|p|p] eqn:E; [done| |done]. intros [= _ <- <-]. lia.
Qed.

(** A [float] as a [double]. *)
Lemma double_of_float bits s m e :
  of_bits 24 128 bits = S754_finite s m e ->
  exists m' e', to_double (S754_finite s m e) = S754_finite s m' e' /\ to_float (S754_finite s m' e') = S754_finite s m e /\
    (e' < 75 \/ e' = 75 /\ Zpos m' <= 9007198717870080).
Proof.
  intros (Hm & He & Hc)%of_bits_finite; [|lia..]. change (emin 24 128) with (-149) in *. change (128 - 24) with 104 in *.
  destruct (digits_range m 24 ltac:(lia) Hm) as [Hd Hd2].
  assert (Zpos (digits2_pos m) = 24 \/ e = -149) as Hc' by (destruct Hc; auto). clear Hc Hd2.
  set (d := Zpos (digits2_pos m)) in *. assert (1 <= d) as Hd1 by (unfold d; lia).
  destruct (round_wider 53 1024 s m e (e + d - 53)) as (m' & E & Hm' & Hdm').
  { unfold fexp. fold d. change (emin 53 1024) with (-1074). lia. } { lia. } { lia. }
  exists m', (e + d - 53). cbn [round_to]. split; [done|]. fold d in Hdm'. split.
  - replace e with (e + d - 53 + (53 - d)) at 2 by lia. apply round_narrower; [|lia| | |lia].
    + rewrite Hm'. do 2 f_equal. lia.
    + rewrite Hdm'. lia.
    + unfold fexp. fold d. change (emin 24 128) with (-149). lia.
  - destruct (Z.lt_trichotomy (e + d - 53) 75) as [|[Heq|]]; [by left| |lia]. right. split; [done|]. rewrite Hm'.
    replace (e - (e + d - 53)) with 29 by lia. change (2 ^ 24) with 16777216 in Hm. change (2 ^ 29) with 536870912. lia.
Qed.

Lemma to_float_to_double p : to_float (to_double (float_get p)) = float_get p.
Proof.
  unfold float_get. destruct (of_bits 24 128 (le_val (take 4 p))) as [s|s| |s m e] eqn:E; try done.
  by destruct (double_of_float _ _ _ _ E) as (m' & e' & -> & H & _).
Qed.

(** The bytes of a value. *)
Lemma float_get_bytes p :
  bytes_ok (take 4 p) -> length (take 4 p) = 4%nat -> float_get p <> S754_nan -> float_bytes (float_get p) = take 4 p.
Proof.
  intros Hb Hl Hn. unfold float_bytes, float_get. pose proof (le_val_bound (take 4 p) Hb) as Hbd. rewrite Hl in Hbd.
  change (256 ^ Z.of_nat 4) with 4294967296 in Hbd. rewrite to_bits_of_bits; [|lia..|done].
  rewrite <- Hl at 1. by apply le_bytes_le_val.
Qed.

Lemma double_get_bytes p :
  bytes_ok (take 8 p) -> length (take 8 p) = 8%nat -> double_get p <> S754_nan ->
  double_bytes (double_get p) = take 8 p.
Proof.
  intros Hb Hl Hn. unfold double_bytes, double_get. pose proof (le_val_bound (take 8 p) Hb) as Hbd. rewrite Hl in Hbd.
  change (256 ^ Z.of_nat 8) with 18446744073709551616 in Hbd. rewrite to_bits_of_bits; [|lia..|done].
  rewrite <- Hl at 1. by apply le_bytes_le_val.
Qed.

(** ** The values that a column keeps *)

Definition val_real (f : Field) (rec : bytes) : spec_float :=
  match real_type f with MYSQL_TYPE_FLOAT => float_val_real f rec | _ => double_val_real f rec end.

Definition real_store (f : Field) (nr : spec_float) (rec : bytes) : bytes :=
  match real_type f with MYSQL_TYPE_FLOAT => float_store f nr rec | _ => double_store f nr rec end.

Definition real_max (f : Field) : spec_float :=
  match real_type f with MYSQL_TYPE_FLOAT => FLT_MAX | _ => DBL_MAX end.

(** Storing the value again does not change it. *)
Definition real_kept (f : Field) (rec : bytes) : Prop :=
  let '(nr, error) := truncate_double (val_real f rec) (field_length f) (decimals f) (unsigned_flag f) (real_max f) in
  0 <= error /\
  match real_type f with
  | MYSQL_TYPE_FLOAT => to_float nr = float_get (data f rec)
  | _ => nr = double_get (data f rec)
  end.

Definition is_finite (x : spec_float) : bool := match x with S754_zero _ | S754_finite _ _ _ => true | _ => false end.

Lemma truncate_not_fixed x len dec uns m e :
  (FLOATING_POINT_DECIMALS <= dec)%nat -> is_finite x = true -> (uns = true -> SFltb x (S754_zero false) = false) ->
  (forall s m' e', x = S754_finite s m' e' -> e' < e \/ e' = e /\ Zpos m' <= Zpos m) ->
  truncate_double x len dec uns (S754_finite false m e) = (x, 0).
Proof.
  intros Hd Hf Hu Hx. unfold truncate_double. rewrite (proj2 (Nat.ltb_ge _ _)) by done.
  destruct x as [s|s| |s m' e']; [|done|done|].
  - destruct uns; [|done]. cbn [andb]. by rewrite Hu.
  - replace (uns && SFltb (S754_finite s m' e') (S754_zero false)) with false by (destruct uns; [by rewrite Hu|done]).
    destruct (Hx s m' e' eq_refl) as [He|[-> Hm]]; unfold SFltb, SFcompare, SFopp; cbn [negb].
    + destruct s; [rewrite (proj2 (Z.compare_lt_iff e' e) He)|rewrite (proj2 (Z.compare_gt_iff e e') He)]; done.
    + rewrite Z.compare_refl. change (Pos.compare_cont Eq) with Pos.compare.
      assert ((m' ?= m)%positive <> Gt) by (rewrite Pos.compare_le_iff; lia).
      destruct s; [destruct (m' ?= m)%positive|rewrite (Pos.compare_antisym m' m); destruct (m' ?= m)%positive]; done.
Qed.

(** Without a number of decimals: the finite values. *)
Lemma finite_kept f rec :
  real_type f = MYSQL_TYPE_FLOAT \/ real_type f = MYSQL_TYPE_DOUBLE -> (FLOATING_POINT_DECIMALS <= decimals f)%nat ->
  is_finite (val_real f rec) = true -> (unsigned_flag f = true -> SFltb (val_real f rec) (S754_zero false) = false) ->
  real_kept f rec.
Proof.
  intros Ht Hd Hf Hu. unfold real_kept, real_max. destruct Ht as [Ht|Ht]; rewrite Ht.
  - rewrite truncate_not_fixed; try done.
    + unfold val_real. rewrite Ht. split; [done|]. apply to_float_to_double.
    + unfold val_real. rewrite Ht. intros s m e H. unfold float_val_real, float_get in H.
      destruct (of_bits 24 128 (le_val (take 4 (data f rec)))) as [s0|s0| |s0 m0 e0] eqn:E; try done.
      destruct (double_of_float _ _ _ _ E) as (m' & e' & Em & _ & Hb). rewrite Em in H. by injection H as _ <- <-.
  - rewrite truncate_not_fixed; try done.
    + unfold val_real. by rewrite Ht.
    + unfold val_real. rewrite Ht. intros s m e H. apply of_bits_finite in H; [|lia..].
      change (2 ^ 53) with 9007199254740992 in H. lia.
Qed.

(** What is read with [val_real] and stored again. *)
Lemma float_stored f rec out :
  real_type f = MYSQL_TYPE_FLOAT -> bytes_ok rec -> (ptr f + 4 <= length rec)%nat -> real_kept f rec ->
  float_bytes (to_float (val_real f rec)) = take 4 (data f rec) /\
  forall p, take 4 p = take 4 (data f rec) ->
    real_store f (to_double (float_get p)) out = write_at (ptr f) (take 4 (data f rec)) out.
Proof.
  intros Ht Hb Hl Hk. unfold real_kept, val_real, real_store, real_max in *. rewrite Ht in *. unfold float_val_real in *.
  assert (length (take 4 (data f rec)) = 4%nat) as Hl4 by (unfold data; rewrite length_take, length_drop; lia).
  assert (bytes_ok (take 4 (data f rec))) as Hb4 by (unfold data; auto with bytes).
  assert (float_get (data f rec) <> S754_nan) as Hn by (intros E; rewrite E in Hk; by destruct Hk).
  pose proof (float_get_bytes (data f rec) Hb4 Hl4 Hn) as Hf. rewrite to_float_to_double. split; [done|]. intros p Hp.
  assert (float_get p = float_get (data f rec)) as -> by (unfold float_get; by rewrite Hp).
  unfold float_store. destruct (truncate_double _ _ _ _ _) as [nr error]. destruct Hk as [He Hk].
  rewrite (proj2 (Z.ltb_ge _ _) He). by rewrite Hk, Hf.
Qed.

Lemma double_stored f rec out :
  real_type f = MYSQL_TYPE_DOUBLE -> bytes_ok rec -> (ptr f + 8 <= length rec)%nat -> real_kept f rec ->
  double_bytes (val_real f rec) = take 8 (data f rec) /\
  forall p, take 8 p = take 8 (data f rec) ->
    real_store f (double_get p) out = write_at (ptr f) (take 8 (data f rec)) out.
Proof.
  intros Ht Hb Hl Hk. unfold real_kept, val_real, real_store, real_max in *. rewrite Ht in *. unfold double_val_real in *.
  assert (length (take 8 (data f rec)) = 8%nat) as Hl8 by (unfold data; rewrite length_take, length_drop; lia).
  assert (bytes_ok (take 8 (data f rec))) as Hb8 by (unfold data; auto with bytes).
  assert (double_get (data f rec) <> S754_nan) as Hn by (intros E; rewrite E in Hk; by destruct Hk).
  pose proof (double_get_bytes (data f rec) Hb8 Hl8 Hn) as Hf. split; [done|]. intros p Hp.
  assert (double_get p = double_get (data f rec)) as -> by (unfold double_get; by rewrite Hp).
  unfold double_store. destruct (truncate_double _ _ _ _ _) as [nr error]. destruct Hk as [He ->].
  rewrite (proj2 (Z.ltb_ge _ _) He). by rewrite Hf.
Qed.

(** FLOAT(5,2): 1.1 is kept, also as the double of a float; 1000.5 becomes
    999.99. *)
Example truncated :
  float_bytes (to_float (truncate_double (to_double (float_get [205; 204; 140; 63])) 5 2 false FLT_MAX).1) = [205; 204; 140; 63] /\
  (truncate_double (S754_finite false 2001 (-1)) 5 2 false FLT_MAX).2 = 1 /\
  float_bytes (to_float (truncate_double (S754_finite false 2001 (-1)) 5 2 false FLT_MAX).1) = [92; 255; 121; 68].
Proof. by vm_compute. Qed.

End Real.
