(* ===== verification/EloqKey.v ===== *)
(** * EloqKey: the keys and records of the transaction service

    [EloqKey] and [EloqRecord] (storage/eloq/eloqsql_key.h): packed keys with
    two objects that stand for the infinities, their order, the byte strings
    that keys and records are sent and logged as, and the estimate of where a
    key lies in an interval. *)

From Stdlib Require Import SpecFloat.
From S2P Require Import Prelude Slice Buff Charset Latin1 Copy Collation Field Placement Store.
From S2P Require Import Codec Packing VarFormat SpacePad Varchar KeySetup KeyDef KeyOrder Index KeyRead Neighbour Double.
Import Field Double Packing KeyDef KeyOrder Index KeyRead Neighbour.

Module EloqKey.

(** ** Keys *)

(** The infinities are two objects that the code knows by their address; every
    other object is a normal key. *)
Inductive KeyType := NegativeInf | PositiveInf | Normal.

#[export] Instance KeyType_eq_dec : EqDecision KeyType.
Proof. solve_decision. Defined.

Record EloqKey := { Type_ : KeyType; packed_key_ : bytes }.

Definition NegativeInfinity : EloqKey := {| Type_ := NegativeInf; packed_key_ := [] |}.
Definition PositiveInfinity : EloqKey := {| Type_ := PositiveInf; packed_key_ := [] |}.

Definition key_of_bytes (packed_key : bytes) : EloqKey := {| Type_ := Normal; packed_key_ := packed_key |}.

(** The constructor that packs a record; [None] when packing fails or when the
    length of the unique key is not set. *)
Definition key_of_record (mem : Z -> bytes) (key_desc : mono_key_def) (tbl : TABLE) (record : bytes)
    (is_hidden : bool) (hidden_pk : option bytes) (is_unique_sk : bool) : option EloqKey :=
  match
    (if negb is_hidden then
       match pack_record mem key_desc tbl record None is_unique_sk hidden_pk 0 with
       | Some st => Some (ps_tuple st, ps_unique_sk_pack_size st)
       | None => None
       end
     else match pack_hidden_pk key_desc record with Some t => Some (t, None) | None => None end)
  with
  | None => None
  | Some (packed_key, unique_sk_pack_size) =>
      if is_unique_sk then
        match unique_sk_pack_size with
        | Some size => Some (key_of_bytes (take size packed_key))
        | None => None
        end
      else Some (key_of_bytes packed_key)
  end.

(** Copying makes a new object. *)
Definition copy_key (other : EloqKey) : EloqKey := key_of_bytes (packed_key_ other).

Definition CloneTxKey (k : EloqKey) : EloqKey :=
  match Type_ k with NegativeInf => NegativeInfinity | PositiveInf => PositiveInfinity | Normal => copy_key k end.

Definition is_infinity (k : EloqKey) : bool := bool_decide (Type_ k <> Normal).

(** [&lhs == &rhs] when one of them is an infinity. *)
Definition same_object (lhs rhs : EloqKey) : bool := bool_decide (Type_ lhs = Type_ rhs).

Definition key_eqb (lhs rhs : EloqKey) : bool :=
  if is_infinity lhs || is_infinity rhs then same_object lhs rhs
  else match Slice.compare (packed_key_ lhs) (packed_key_ rhs) with Eq => true | _ => false end.

Definition key_neqb (lhs rhs : EloqKey) : bool := negb (key_eqb lhs rhs).

Definition IsPrefixOf (k rhs : EloqKey) : bool :=
  if is_infinity k || is_infinity rhs then same_object k rhs
  else
    let key_len := Nat.min (length (packed_key_ k)) (length (packed_key_ rhs)) in
    match memcmp (packed_key_ k) (packed_key_ rhs) key_len with
    | Eq => (length (packed_key_ k) <=? length (packed_key_ rhs))%nat
    | _ => false
    end.

Definition key_ltb (lhs rhs : EloqKey) : bool :=
  if bool_decide (Type_ lhs = NegativeInf) then negb (bool_decide (Type_ rhs = NegativeInf))
  else if bool_decide (Type_ lhs = PositiveInf) || bool_decide (Type_ rhs = NegativeInf) then false
  else if bool_decide (Type_ rhs = PositiveInf) then negb (bool_decide (Type_ lhs = PositiveInf))
  else match lex_cmp (packed_key_ lhs) (packed_key_ rhs) with Lt => true | _ => false end.

Definition key_leb (lhs rhs : EloqKey) : bool := negb (key_ltb rhs lhs).

(** ** Packed infinities *)

Record EloqKeySchema := { KeyDefinition : mono_key_def; IsUniqueIndex : bool }.

(** A schema of a primary key, or of a secondary key with its primary key. *)
Inductive KeySchema :=
| EloqPrimary (pk : EloqKeySchema)
| SecondaryKeySchema (sk_schema_ pk_schema_ : EloqKeySchema).

Definition PackedNegativeInfinity : EloqKey := key_of_bytes [0].

Definition PackedPositiveInfinity (key_schema : KeySchema) : EloqKey :=
  let max_length :=
    match key_schema with
    | EloqPrimary pk => m_maxlength (KeyDefinition pk)
    | SecondaryKeySchema sk pk => (m_maxlength (KeyDefinition sk) + m_maxlength (KeyDefinition pk))%nat
    end in
  key_of_bytes (replicate max_length 255).

(** ** Serialization *)

(** [std::vector<char>::resize]. *)
Definition resize (n : nat) (l : bytes) : bytes := take n l ++ replicate (n - length l) 0.

(** Into a vector at an offset; the new offset. *)
Definition key_Serialize (k : EloqKey) (buf : bytes) (offset : nat) : bytes * nat :=
  let size := length (packed_key_ k) in
  let buf := resize (offset + 2 + size) buf in
  let len_val := ushort_of (Z.of_nat size) in
  let buf := write_at offset (le_bytes 2 len_val) buf in
  let offset := (offset + 2)%nat in
  (write_at offset (packed_key_ k) buf, (offset + Z.to_nat len_val)%nat).

(** Appended to a string. *)
Definition key_SerializeString (k : EloqKey) (str : bytes) : bytes :=
  let len_val := ushort_of (Z.of_nat (length (packed_key_ k))) in
  str ++ le_bytes 2 len_val ++ take (Z.to_nat len_val) (packed_key_ k).

Definition key_SerializedLength (k : EloqKey) : nat := (2 + length (packed_key_ k))%nat.

Definition key_Deserialize (buf : bytes) (offset : nat) : EloqKey * nat :=
  let len_val := Z.to_nat (le_val (take 2 (drop offset buf))) in
  let offset := (offset + 2)%nat in
  (key_of_bytes (take len_val (drop offset buf)), (offset + len_val)%nat).

(** ** Records *)

Record EloqRecord := { encoded_blob_ : bytes; unpack_info_ : bytes }.

(** A [size_t] length and the bytes. *)
Definition put_block (l : bytes) : bytes := le_bytes 8 (Z.of_nat (length l)) ++ l.

Definition record_Serialize (r : EloqRecord) (buf : bytes) (offset : nat) : bytes * nat :=
  let buf := resize (offset + 2 * 8 + length (encoded_blob_ r) + length (unpack_info_ r)) buf in
  let buf := write_at offset (put_block (unpack_info_ r)) buf in
  let offset := (offset + 8 + length (unpack_info_ r))%nat in
  let buf := write_at offset (put_block (encoded_blob_ r)) buf in
  (buf, (offset + 8 + length (encoded_blob_ r))%nat).

Definition record_SerializeString (r : EloqRecord) (str : bytes) : bytes :=
  str ++ put_block (unpack_info_ r) ++ put_block (encoded_blob_ r).

Definition record_SerializedLength (r : EloqRecord) : nat :=
  (8 * 2 + length (unpack_info_ r) + length (encoded_blob_ r))%nat.

Definition get_block (buf : bytes) (offset : nat) : bytes * nat :=
  let len := Z.to_nat (le_val (take 8 (drop offset buf))) in
  let offset := (offset + 8)%nat in
  (take len (drop offset buf), (offset + len)%nat).

Definition record_Deserialize (buf : bytes) (offset : nat) : EloqRecord * nat :=
  let '(unpack_info, offset) := get_block buf offset in
  let '(encoded_blob, offset) := get_block buf offset in
  ({| encoded_blob_ := encoded_blob; unpack_info_ := unpack_info |}, offset).

Definition Length_ (r : EloqRecord) : nat := (length (encoded_blob_ r) + length (unpack_info_ r))%nat.

(** ** Position in an interval *)

Definition zero : double := double_of 0.
Definition one : double := double_of 1.
Definition half : double := double_div one (double_of 2).

Definition PosInInterval3 (k min_key max_key : EloqKey) : option double :=
  if negb (key_leb min_key max_key) then None
  else if key_leb k min_key then Some zero
  else if key_leb max_key k then Some one
  else Some half.

Definition MY_UUID_SIZE : nat := 16.

(** The hidden primary key at the end of the keys of a non-unique index. *)
Definition trim_suffix_size (key_schema : KeySchema) : nat :=
  match key_schema with
  | SecondaryKeySchema sk pk =>
      if bool_decide (m_index_type (KeyDefinition pk) = INDEX_TYPE_HIDDEN_PRIMARY) && negb (IsUniqueIndex sk)
      then MY_UUID_SIZE else 0%nat
  | EloqPrimary _ => 0%nat
  end.

(** The first eight bytes as a number. *)
Definition key_value (s : bytes) : Z :=
  let buf := write_at 0 (take (Nat.min 8 (length s)) s) (replicate 8 0) in
  le_val (reverse buf).

Definition trim (offset trim_size : nat) (s : bytes) : bytes :=
  take (if (trim_size <? length s)%nat then (length s - trim_size)%nat else 0%nat) (drop offset s).

(** [None] when an assertion fails. *)
Definition PosInInterval (key_schema : KeySchema) (k min_key max_key : EloqKey) : option double :=
  match PosInInterval3 k min_key max_key with
  | None => None
  | Some pos =>
      if SFeqb pos zero || SFeqb pos one then Some pos
      else if negb (bool_decide (Type_ k = Normal)) then None
      else if negb (key_ltb min_key k && key_ltb k max_key) then None
      else
        let min_slice := packed_key_ min_key in
        let max_slice := packed_key_ max_key in
        let this_slice := packed_key_ k in
        let offset := Slice.difference_offset min_slice max_slice in
        if (length min_slice <? offset)%nat || (length max_slice <? offset)%nat || (length this_slice <? offset)%nat
        then None
        else
          let trim_size := (offset + trim_suffix_size key_schema)%nat in
          let min_trimmed := trim offset trim_size min_slice in
          let max_trimmed := trim offset trim_size max_slice in
          let this_trimmed := drop offset this_slice in
          match Slice.compare min_trimmed this_trimmed, Slice.compare this_trimmed max_trimmed with
          | Gt, _ | _, Gt => None
          | _, _ =>
              let min_value := key_value min_trimmed in
              let max_value := key_value max_trimmed in
              let this_value := key_value this_trimmed in
              if negb ((min_value <=? this_value) && (this_value <=? max_value)) then None
              else
                let d := difference max_value min_value in
                if SFeqb d zero then Some half
                else if SFltb d zero then Some one
                else
                  let n := difference this_value min_value in
                  if SFleb n zero then Some zero
                  else let q := double_div n d in Some (if SFltb one q then one else q)
          end
  end.

(** ** The order of keys *)

(** The infinities have no content of their own. *)
Definition key_ok (k : EloqKey) : Prop := Type_ k = Normal \/ packed_key_ k = [].

Definition type_rank (t : KeyType) : Z := match t with NegativeInf => -1 | Normal => 0 | PositiveInf => 1 end.

(** By type, and normal keys by their bytes. *)
Definition key_cmp (a b : EloqKey) : comparison :=
  match type_rank (Type_ a) ?= type_rank (Type_ b) with
  | Eq => match Type_ a with Normal => lex_cmp (packed_key_ a) (packed_key_ b) | _ => Eq end
  | c => c
  end.

Lemma key_ltb_cmp a b : key_ltb a b = true <-> key_cmp a b = Lt.
Proof.
  unfold key_ltb, key_cmp. destruct (Type_ a), (Type_ b); try (by vm_compute). simpl.
  destruct (lex_cmp _ _); done.
Qed.

Lemma key_eqb_cmp a b : key_eqb a b = true <-> key_cmp a b = Eq.
Proof.
  unfold key_eqb, key_cmp, is_infinity, same_object. destruct (Type_ a), (Type_ b); try (by vm_compute).
  simpl. rewrite Slice.compare_lex. destruct (lex_cmp _ _); done.
Qed.

Lemma key_cmp_antisym a b : key_cmp a b = CompOpp (key_cmp b a).
Proof. unfold key_cmp. destruct (Type_ a), (Type_ b); try done. simpl. apply lex_cmp_antisym. Qed.

Lemma key_leb_cmp a b : key_leb a b = true <-> key_cmp a b <> Gt.
Proof.
  unfold key_leb. rewrite negb_true_iff, <- not_true_iff_false, key_ltb_cmp, (key_cmp_antisym b a).
  destruct (key_cmp a b); simpl; intuition congruence.
Qed.

Lemma key_cmp_Lt_trans a b c : key_cmp a b = Lt -> key_cmp b c = Lt -> key_cmp a c = Lt.
Proof. unfold key_cmp. destruct (Type_ a), (Type_ b), (Type_ c); try done. simpl. apply lex_cmp_trans. Qed.

Lemma key_cmp_Eq a b : key_ok a -> key_ok b -> key_cmp a b = Eq <-> a = b.
Proof.
  destruct a as [ta pa], b as [tb pb]. unfold key_cmp, key_ok. simpl. intros Ha Hb. split.
  - destruct ta, tb; simpl; try done; intros H; try (destruct Ha, Hb; congruence).
    apply lex_cmp_Eq in H. congruence.
  - intros [= -> ->]. destruct tb; simpl; try done. apply lex_cmp_refl.
Qed.

(** C28: the comparison operators of [EloqKey] are one total order, in which
    the infinities are below and above all keys: [<] is irreflexive and
    transitive, [==] is the equality of the keys, [<=] is [<] or [==], and of
    [a < b], [a == b] and [b < a] exactly one holds. *)
Theorem key_order_total a b c :
  key_ok a -> key_ok b -> key_ok c ->
  key_ltb a a = false /\ (key_ltb a b = true -> key_ltb b c = true -> key_ltb a c = true) /\
  (key_eqb a b = true <-> a = b) /\ key_leb a b = key_ltb a b || key_eqb a b /\
  (key_ltb a b = true /\ key_eqb a b = false /\ key_ltb b a = false \/
   key_ltb a b = false /\ key_eqb a b = true /\ key_ltb b a = false \/
   key_ltb a b = false /\ key_eqb a b = false /\ key_ltb b a = true) /\
  (Type_ a = Normal -> key_ltb NegativeInfinity a = true /\ key_ltb a PositiveInfinity = true).
Proof.
  intros Ha Hb Hc.
  assert (forall x y, key_ltb x y = match key_cmp x y with Lt => true | _ => false end) as Hlt.
  { intros x y. pose proof (key_ltb_cmp x y). destruct (key_cmp x y), (key_ltb x y); intuition congruence. }
  assert (key_eqb a b = match key_cmp a b with Eq => true | _ => false end) as Heq.
  { pose proof (key_eqb_cmp a b). destruct (key_cmp a b), (key_eqb a b); intuition congruence. }
  split_and!.
  - by rewrite Hlt, (proj2 (key_cmp_Eq a a Ha Ha)).
  - rewrite !key_ltb_cmp. apply key_cmp_Lt_trans.
  - rewrite key_eqb_cmp. by apply key_cmp_Eq.
  - unfold key_leb. rewrite !Hlt, Heq, (key_cmp_antisym b a). by destruct (key_cmp a b).
  - rewrite !Hlt, Heq, (key_cmp_antisym b a). destruct (key_cmp a b); simpl; auto.
  - intros Hn. rewrite !key_ltb_cmp. unfold key_cmp. by rewrite Hn.
Qed.

Lemma key_order_witness :
  key_ltb NegativeInfinity (key_of_bytes []) = true /\ key_ltb (key_of_bytes []) (key_of_bytes [0]) = true /\
  key_ltb NegativeInfinity (key_of_bytes [0]) = true.
Proof.
  split; [done|]. split; [done|].
  destruct (key_order_total NegativeInfinity (key_of_bytes []) (key_of_bytes [0])) as (_ & H & _);
    [by right|by left|by left|]. by apply H.
Defined.

(** [IsPrefixOf] holds for normal keys exactly if the bytes of the first
    are a prefix of the bytes of the second. *)
Theorem IsPrefixOf_correct k rhs :
  Type_ k = Normal -> Type_ rhs = Normal -> IsPrefixOf k rhs = true <-> packed_key_ k `prefix_of` packed_key_ rhs.
Proof.
  intros Hk Hr. unfold IsPrefixOf, is_infinity. rewrite Hk, Hr. simpl.
  pose proof (Slice.starts_with_prefix (packed_key_ rhs) (packed_key_ k)) as H. rewrite <- H.
  unfold Slice.starts_with, memcmp. destruct (Nat.leb_spec (length (packed_key_ k)) (length (packed_key_ rhs))) as [Hl|Hl].
  - rewrite Nat.min_l, !(take_ge (packed_key_ k)), lex_cmp_antisym by lia. simpl. by destruct (lex_cmp _ _).
  - simpl. destruct (lex_cmp _ _); done.
Qed.

Lemma IsPrefixOf_witness :
  IsPrefixOf (key_of_bytes [1; 2]) (key_of_bytes [1; 2; 3]) = true /\ [1; 2] `prefix_of` [1; 2; 3].
Proof. split; [done|]. by apply (IsPrefixOf_correct (key_of_bytes [1; 2]) (key_of_bytes [1; 2; 3])). Defined.

(** ** Serialization *)

Lemma resize_split offset n buf : (offset <= length buf)%nat ->
  exists junk, length junk = n /\ resize (offset + n) buf = take offset buf ++ junk.
Proof.
  intros H. exists (resize n (drop offset buf)). unfold resize. split.
  - rewrite length_app, length_take, length_replicate, length_drop. lia.
  - rewrite app_assoc, length_drop. f_equal; [|f_equal; lia].
    by rewrite take_take_drop.
Qed.

(** Writing over the rest of a buffer. *)
Lemma write_at_middle pre junk bs : (length bs <= length junk)%nat ->
  write_at (length pre) bs (pre ++ junk) = (pre ++ bs) ++ drop (length bs) junk.
Proof.
  intros H. unfold write_at. rewrite take_app_length, <- app_assoc. do 2 f_equal.
  by rewrite drop_app_ge, Nat.add_comm, Nat.add_sub by lia.
Qed.

Lemma write_two pre junk b1 b2 o1 o2 :
  o1 = length pre -> o2 = (o1 + length b1)%nat -> length junk = (length b1 + length b2)%nat ->
  write_at o2 b2 (write_at o1 b1 (pre ++ junk)) = pre ++ b1 ++ b2.
Proof.
  intros -> -> H. rewrite write_at_middle by lia. rewrite <- length_app.
  rewrite write_at_end by (rewrite length_drop; lia). by rewrite app_assoc.
Qed.

(** ** Reading a length and as many bytes *)

Lemma read_block n pre l rest :
  Z.of_nat (length l) < 256 ^ Z.of_nat n ->
  let buf := pre ++ (le_bytes n (Z.of_nat (length l)) ++ l) ++ rest in
  Z.to_nat (le_val (take n (drop (length pre) buf))) = length l /\
  take (length l) (drop (length pre + n) buf) = l.
Proof.
  intros H buf. unfold buf. rewrite drop_app_length, <- app_assoc.
  rewrite take_app_length' by (by rewrite length_le_bytes). rewrite le_val_le_bytes, Z.mod_small, Nat2Z.id by lia.
  split; [done|]. rewrite app_assoc, drop_app_length'; [by apply take_app_length|].
  by rewrite length_app, length_le_bytes.
Qed.

Lemma get_block_put pre l rest : Z.of_nat (length l) < 2 ^ 64 ->
  get_block (pre ++ put_block l ++ rest) (length pre) = (l, (length pre + 8 + length l)%nat).
Proof.
  intros H. destruct (read_block 8 pre l rest H) as [E1 E2]. unfold get_block, put_block. by rewrite E1, E2.
Qed.

Lemma key_Serialize_eq k buf offset :
  (offset <= length buf)%nat -> Z.of_nat (length (packed_key_ k)) < 2 ^ 16 ->
  key_Serialize k buf offset = (key_SerializeString k (take offset buf), (offset + key_SerializedLength k)%nat).
Proof.
  intros Ho Hl. unfold key_Serialize, key_SerializeString, key_SerializedLength, ushort_of.
  rewrite Z.mod_small, Nat2Z.id, (take_ge (packed_key_ k)) by lia.
  rewrite <- Nat.add_assoc. destruct (resize_split offset (2 + length (packed_key_ k)) buf Ho) as (junk & Hj & ->).
  rewrite (write_two (take offset buf)) by (rewrite ?length_take, ?length_le_bytes; lia). done.
Qed.

Lemma key_Deserialize_eq k pre rest :
  Type_ k = Normal -> Z.of_nat (length (packed_key_ k)) < 2 ^ 16 ->
  key_Deserialize (key_SerializeString k pre ++ rest) (length pre) = (k, (length pre + key_SerializedLength k)%nat).
Proof.
  intros Hk Hl. unfold key_SerializeString, key_Deserialize, key_SerializedLength, ushort_of.
  rewrite Z.mod_small, Nat2Z.id, (take_ge (packed_key_ k)), <- app_assoc by lia.
  destruct (read_block 2 pre (packed_key_ k) rest Hl) as [-> ->]. f_equal; [|lia].
  destruct k as [ty p]. simpl in *. by subst ty.
Qed.

Lemma record_Serialize_eq r buf offset :
  (offset <= length buf)%nat ->
  record_Serialize r buf offset = (record_SerializeString r (take offset buf), (offset + record_SerializedLength r)%nat).
Proof.
  intros Ho. unfold record_Serialize, record_SerializeString, record_SerializedLength.
  replace (offset + 2 * 8 + length (encoded_blob_ r) + length (unpack_info_ r))%nat
    with (offset + (16 + length (encoded_blob_ r) + length (unpack_info_ r)))%nat by lia.
  destruct (resize_split offset (16 + length (encoded_blob_ r) + length (unpack_info_ r)) buf Ho) as (junk & Hj & ->).
  rewrite (write_two (take offset buf))
    by (rewrite ?length_take; unfold put_block; rewrite ?length_app, ?length_le_bytes; lia).
  f_equal. lia.
Qed.

Lemma record_Deserialize_eq r pre rest :
  Z.of_nat (length (unpack_info_ r)) < 2 ^ 64 -> Z.of_nat (length (encoded_blob_ r)) < 2 ^ 64 ->
  record_Deserialize (record_SerializeString r pre ++ rest) (length pre) =
    (r, (length pre + record_SerializedLength r)%nat).
Proof.
  intros Hu Hb. unfold record_SerializeString, record_Deserialize. rewrite <- !app_assoc, (get_block_put _ _ _ Hu).
  replace (length pre + 8 + length (unpack_info_ r))%nat with (length (pre ++ put_block (unpack_info_ r)))
    by (unfold put_block; rewrite !length_app, length_le_bytes; lia).
  rewrite (app_assoc pre), (get_block_put _ _ _ Hb). unfold record_SerializedLength, put_block.
  rewrite !length_app, length_le_bytes. destruct r as [b u]. cbn [encoded_blob_ unpack_info_]. f_equal. lia.
Qed.

(** C29: a key and its record survive serialization.  Written behind each other
    into a buffer from an offset on, they are read back from there, with the
    offsets that the writers report; both ways of writing give the same
    bytes.  A key has at most 65535 bytes. *)
Theorem serialize_roundtrip k r buf offset rest :
  Type_ k = Normal -> (offset <= length buf)%nat -> Z.of_nat (length (packed_key_ k)) < 2 ^ 16 ->
  Z.of_nat (length (unpack_info_ r)) < 2 ^ 64 -> Z.of_nat (length (encoded_blob_ r)) < 2 ^ 64 ->
  let '(buf1, offset1) := key_Serialize k buf offset in
  let '(buf2, offset2) := record_Serialize r buf1 offset1 in
  buf2 = record_SerializeString r (key_SerializeString k (take offset buf)) /\
  (offset1 = offset + key_SerializedLength k)%nat /\ (offset2 = offset1 + record_SerializedLength r)%nat /\
  length buf2 = offset2 /\
  key_Deserialize (buf2 ++ rest) offset = (k, offset1) /\ record_Deserialize (buf2 ++ rest) offset1 = (r, offset2).
Proof.
  intros Hk Ho Hl Hu Hb. rewrite (key_Serialize_eq k buf offset Ho Hl).
  set (pre := take offset buf). assert (length pre = offset) as Hp by (unfold pre; rewrite length_take; lia).
  set (kb := key_SerializeString k pre).
  assert (length kb = (offset + key_SerializedLength k)%nat) as Hkb.
  { unfold kb, key_SerializeString, ushort_of, key_SerializedLength.
    rewrite Z.mod_small, Nat2Z.id, take_ge, !length_app, length_le_bytes by lia. lia. }
  rewrite record_Serialize_eq, (take_ge kb) by lia. split_and!; try done.
  - unfold record_SerializeString, put_block, record_SerializedLength.
    rewrite !length_app, !length_le_bytes, Hkb. lia.
  - unfold record_SerializeString. rewrite <- !app_assoc. unfold kb. rewrite <- Hp.
    by rewrite key_Deserialize_eq.
  - rewrite <- Hkb. by apply record_Deserialize_eq.
Qed.

Lemma serialize_witness :
  let k := key_of_bytes [10; 20; 30] in
  let r := {| encoded_blob_ := [1; 2]; unpack_info_ := [9] |} in
  key_Serialize k [7] 1 = ([7; 3; 0; 10; 20; 30], 6%nat) /\
  key_Deserialize ((record_Serialize r [7; 3; 0; 10; 20; 30] 6).1 ++ [99]) 1 = (k, 6%nat).
Proof.
  intros k r. split; [by vm_compute|].
  pose proof (serialize_roundtrip k r [7] 1 [99] eq_refl ltac:(simpl; lia) ltac:(done) ltac:(done) ltac:(done)) as H.
  destruct (key_Serialize k [7] 1) as [b1 o1] eqn:E1. vm_compute in E1. injection E1 as <- <-.
  destruct (record_Serialize r _ _) as [b2 o2]. apply H.
Defined.

(** ** Position in an interval *)

Lemma lex_cmp_between a k b n :
  lex_cmp a k = Lt -> lex_cmp k b = Lt -> take n a = take n b -> (n <= length a)%nat ->
  take n k = take n a /\ (n <= length k)%nat.
Proof.
  revert a k b. induction n as [|n IH]; intros a k b H1 H2 E Hl; [split; [done|lia]|].
  destruct a as [|x a], k as [|z k], b as [|y b]; simpl in *; try done; try lia.
  injection E as -> E. destruct (Z.compare_spec y z), (Z.compare_spec z y); try done; try lia.
  destruct (IH a k b) as [-> ?]; try done; try lia. split; [congruence|lia].
Qed.

Lemma lex_cmp_drop a b n : take n a = take n b -> lex_cmp (drop n a) (drop n b) = lex_cmp a b.
Proof.
  intros E. rewrite <- (take_drop n a) at 2. rewrite <- (take_drop n b) at 2. by rewrite E, lex_cmp_app_same.
Qed.

(** Padded with zero bytes. *)
Definition pad (n : nat) (s : bytes) : bytes := take n (s ++ replicate n 0).

Lemma length_pad n s : length (pad n s) = n.
Proof. unfold pad. rewrite length_take, length_app, length_replicate. lia. Qed.

Lemma pad_ok n s : bytes_ok s -> bytes_ok (pad n s).
Proof. intros H. unfold pad. apply bytes_ok_take, bytes_ok_app. split; [done|]. by apply bytes_ok_replicate. Qed.

Lemma pad_cons n x s : pad (S n) (x :: s) = x :: pad n s.
Proof.
  unfold pad. simpl. f_equal. rewrite replicate_cons_app, app_assoc.
  rewrite take_app_le; [done|]. rewrite length_app, length_replicate. lia.
Qed.

Lemma pad_le n a b : bytes_ok b -> lex_cmp a b <> Gt -> lex_cmp (pad n a) (pad n b) <> Gt.
Proof.
  revert a b. induction n as [|n IH]; intros a b Hb H; [done|].
  destruct a as [|x a], b as [|y b].
  - by rewrite lex_cmp_refl.
  - apply bytes_ok_cons in Hb as [Hy Hb]. rewrite pad_cons. change (pad (S n) []) with (0 :: pad n []) in *.
    specialize (IH [] b Hb ltac:(by destruct b)). unfold byte_ok in Hy.
    destruct y; [exact IH|done|lia].
  - done.
  - apply bytes_ok_cons in Hb as [Hy Hb]. rewrite !pad_cons. simpl in *.
    destruct (x ?= y); [|done|done]. by apply IH.
Qed.

Lemma key_value_pad s : key_value s = be_val (pad 8 s).
Proof.
  unfold key_value. rewrite <- be_val_reverse, reverse_involutive. f_equal. unfold pad, write_at.
  rewrite take_0, app_nil_l, Nat.add_0_l, drop_replicate, length_take.
  destruct (Nat.le_gt_cases 8 (length s)).
  - rewrite Nat.min_l, Nat.min_l, Nat.sub_diag, app_nil_r, take_app_le by lia. done.
  - rewrite Nat.min_r, Nat.min_r, !take_ge by (rewrite ?Nat.min_r, ?length_take; lia).
    rewrite take_app_ge, take_replicate by lia. do 2 f_equal. lia.
Qed.

Lemma key_value_le a b : bytes_ok a -> bytes_ok b -> lex_cmp a b <> Gt -> 0 <= key_value a <= key_value b /\ key_value b < 2 ^ 64.
Proof.
  intros Ha Hb H. rewrite !key_value_pad. pose proof (pad_le 8 a b Hb H) as Hp.
  rewrite be_val_compare in Hp by (auto using pad_ok; by rewrite !length_pad).
  pose proof (be_val_bound _ (pad_ok 8 a Ha)) as H1. pose proof (be_val_bound _ (pad_ok 8 b Hb)) as H2.
  rewrite length_pad in H1, H2. split; [|by destruct H2]. split; [lia|]. by apply Z.compare_le_iff in Hp.
Qed.

(** The quotient, at most one. *)
Definition clamp (n d : double) : double :=
  if SFeqb d zero then half
  else if SFltb d zero then one
  else if SFleb n zero then zero
  else let q := double_div n d in if SFltb one q then one else q.

Definition in_unit (x : double) : Prop := SFleb zero x = true /\ SFleb x one = true.

Lemma nonneg_leb x : nonneg x -> SFleb zero x = true.
Proof. by destruct x as [s|[]| |[] m e]. Qed.

Lemma nonneg_order x y : nonneg x -> nonneg y -> SFltb x y = false -> SFleb y x = true.
Proof.
  intros Hx Hy. unfold SFltb, SFleb. destruct x as [s|[]| |[] m e], y as [s'|[]| |[] m' e']; try done. simpl.
  rewrite (Z.compare_antisym e e'). destruct (e ?= e') eqn:E; simpl; try done.
  change (Pos.compare_cont Eq m m') with (Pos.compare m m'). change (Pos.compare_cont Eq m' m) with (Pos.compare m' m).
  rewrite (Pos.compare_antisym m m'). by destruct (Pos.compare m m').
Qed.

Lemma clamp_unit lo mid hi :
  0 <= lo <= mid -> mid <= hi < 2 ^ 64 -> in_unit (clamp (difference mid lo) (difference hi lo)).
Proof.
  intros H1 H2. unfold clamp. destruct (SFeqb (difference hi lo) zero) eqn:E0; [by vm_compute|].
  destruct (SFltb (difference hi lo) zero) eqn:E1; [by vm_compute|].
  destruct (SFleb (difference mid lo) zero) eqn:E2; [by vm_compute|].
  unfold difference in *. destruct (Z.ltb_spec lo mid) as [Hm|Hm].
  - rewrite (proj2 (Z.ltb_lt lo hi)) in * by lia.
    pose proof (double_div_nonneg _ _ (double_of_finite (mid - lo) ltac:(lia)) (double_of_finite (hi - lo) ltac:(lia)) E0) as Hq.
    cbv zeta. destruct (SFltb one _) eqn:E3; [by vm_compute|]. split; [by apply nonneg_leb|].
    by apply nonneg_order; [|done|].
  - replace (lo - mid) with 0 in E2 by lia. done.
Qed.

Lemma lt_bytes a b : Type_ b = Normal -> key_ok a -> key_ltb a b = true ->
  packed_key_ a = [] \/ lex_cmp (packed_key_ a) (packed_key_ b) = Lt.
Proof.
  intros Hb Ha. rewrite key_ltb_cmp. unfold key_cmp. rewrite Hb.
  destruct Ha as [E|E]; [rewrite E; simpl; auto|by left].
Qed.

(** Between the ends of the interval: no assertion fails, and the result is
    the clamped quotient of the numbers. *)
Lemma PosInInterval_inside sch k lo hi :
  trim_suffix_size sch = 0%nat -> key_ok k -> key_ok lo -> Type_ hi = Normal ->
  bytes_ok (packed_key_ k) -> bytes_ok (packed_key_ lo) -> bytes_ok (packed_key_ hi) ->
  key_ltb lo k = true -> key_ltb k hi = true ->
  exists a b c, 0 <= a <= b /\ b <= c < 2 ^ 64 /\
    PosInInterval sch k lo hi = Some (clamp (difference b a) (difference c a)).
Proof.
  intros Hs Hk Hl Hh Bk Bl Bh H1 H2.
  assert (Type_ k = Normal) as Hkn.
  { rewrite key_ltb_cmp in H1, H2. unfold key_cmp in H1, H2. destruct (Type_ k), (Type_ lo), (Type_ hi); done. }
  assert (lex_cmp (packed_key_ k) (packed_key_ hi) = Lt) as L2.
  { apply key_ltb_cmp in H2. unfold key_cmp in H2. by rewrite Hkn, Hh in H2. }
  assert (PosInInterval3 k lo hi = Some half) as E3.
  { unfold PosInInterval3, key_leb. rewrite H1, H2. simpl.
    assert (key_ltb hi lo = false) as ->; [|done]. apply not_true_iff_false. intros H3.
    rewrite key_ltb_cmp in H1, H2, H3. pose proof (key_cmp_Lt_trans _ _ _ (key_cmp_Lt_trans _ _ _ H1 H2) H3) as H4.
    rewrite (proj2 (key_cmp_Eq lo lo Hl Hl) eq_refl) in H4. done. }
  set (off := Slice.difference_offset (packed_key_ lo) (packed_key_ hi)).
  destruct (Slice.difference_offset_spec (packed_key_ lo) (packed_key_ hi)) as (O1 & O2 & O3 & _). fold off in O1, O2, O3.
  assert (take off (packed_key_ k) = take off (packed_key_ lo) /\ (off <= length (packed_key_ k))%nat /\
    lex_cmp (packed_key_ lo) (packed_key_ k) <> Gt) as (T & O4 & L1).
  { destruct (lt_bytes lo k Hkn Hl H1) as [E|E].
    - rewrite E in *. simpl in O1. assert (off = 0)%nat as -> by lia. split_and!; [done|lia|by destruct (packed_key_ k)].
    - destruct (lex_cmp_between _ _ _ off E L2 O3 O1). split_and!; [done|done|congruence]. }
  assert (forall s, (off <= length s)%nat -> trim off (off + 0) s = drop off s) as Htrim.
  { intros s Hle. unfold trim. rewrite Nat.add_0_r. rewrite take_ge; [done|]. rewrite length_drop.
    destruct (Nat.ltb_spec off (length s)); lia. }
  unfold PosInInterval. rewrite E3, Hkn, H1, H2. fold off.
  change (SFeqb half zero || SFeqb half one) with false. cbn [bool_decide negb andb orb decide KeyType_eq_dec].
  rewrite !(proj2 (Nat.ltb_ge _ _)) by lia. cbn [orb]. rewrite Hs, !Htrim by lia.
  rewrite !Slice.compare_lex, !lex_cmp_drop by congruence. rewrite L2.
  assert (lex_cmp (drop off (packed_key_ lo)) (drop off (packed_key_ k)) <> Gt) as D1 by (by rewrite lex_cmp_drop).
  assert (lex_cmp (drop off (packed_key_ k)) (drop off (packed_key_ hi)) <> Gt) as D2 by (rewrite lex_cmp_drop; congruence).
  destruct (key_value_le _ _ (bytes_ok_drop off _ Bl) (bytes_ok_drop off _ Bk) D1) as [V1 V2].
  destruct (key_value_le _ _ (bytes_ok_drop off _ Bk) (bytes_ok_drop off _ Bh) D2) as [V3 V4].
  do 3 eexists. split; [exact V1|]. split; [exact (conj (proj2 V3) V4)|].
  rewrite (proj2 (Z.leb_le _ _)), (proj2 (Z.leb_le _ _)) by lia. cbn [andb negb].
  destruct (lex_cmp (packed_key_ lo) (packed_key_ k)); [| |done]; unfold clamp; by repeat case_match.
Qed.

(** C30: [PosInInterval] gives a number between 0 and 1: 0 for a key at or
    below the interval, 1 for a key at or above it, and inside the interval
    no assertion of the code fails.  This holds for the keys whose schema does
    not ask to cut off a hidden primary key, and for an upper end that is a
    key and not an infinity; the key and the lower end can be infinities. *)
Theorem PosInInterval_correct sch k lo hi :
  trim_suffix_size sch = 0%nat -> key_ok k -> key_ok lo -> Type_ hi = Normal ->
  bytes_ok (packed_key_ k) -> bytes_ok (packed_key_ lo) -> bytes_ok (packed_key_ hi) ->
  key_leb lo hi = true ->
  exists d, PosInInterval sch k lo hi = Some d /\ SFleb zero d = true /\ SFleb d one = true /\
    (key_leb k lo = true -> d = zero) /\ (key_ltb lo k = true -> key_leb hi k = true -> d = one).
Proof.
  intros Hs Hk Hl Hh Bk Bl Bh Hlh. destruct (key_ltb lo k) eqn:H1, (key_ltb k hi) eqn:H2.
  - destruct (PosInInterval_inside sch k lo hi) as (a & b & c & Hab & Hbc & ->); try done.
    destruct (clamp_unit a b c Hab Hbc) as [U1 U2]. eexists. split_and!; try done.
    + unfold key_leb. by rewrite H1.
    + unfold key_leb. by rewrite H2.
  - exists one. unfold PosInInterval, PosInInterval3. rewrite Hlh. unfold key_leb. rewrite H1, H2.
    split_and!; try done; by vm_compute.
  - exists zero. unfold PosInInterval, PosInInterval3. rewrite Hlh. unfold key_leb. rewrite H1.
    split_and!; try done; by vm_compute.
  - exists zero. unfold PosInInterval, PosInInterval3. rewrite Hlh. unfold key_leb. rewrite H1.
    split_and!; try done; by vm_compute.
Qed.

(** The schema of the primary index of the sample table. *)
Definition sample_schema : EloqKeySchema := {| KeyDefinition := sample_pk_kd; IsUniqueIndex := true |}.

Lemma PosInInterval_witness :
  exists d, PosInInterval (EloqPrimary sample_schema) (key_of_bytes [7; 64]) (key_of_bytes [7]) (key_of_bytes [7; 128]) = Some d /\
    SFleb d one = true.
Proof.
  destruct (PosInInterval_correct (EloqPrimary sample_schema) (key_of_bytes [7; 64]) (key_of_bytes [7]) (key_of_bytes [7; 128]))
    as (d & E & _ & H & _); [reflexivity|by left|by left|reflexivity|by apply (bool_decide_unpack _)..|reflexivity|].
  exists d. split; [exact E|exact H].
Defined.

(** An infinite upper end has no bytes, and the key counts as above it: the
    assertion on the trimmed keys fails. *)
Example infinite_upper_end :
  PosInInterval (EloqPrimary sample_schema) (key_of_bytes [7; 64]) (key_of_bytes [7]) PositiveInfinity = None.
Proof. by vm_compute. Qed.

(** The schema of a non-unique index of a table without a primary key. *)
Definition hidden_pk_kd : mono_key_def := {|
  m_index_type := INDEX_TYPE_HIDDEN_PRIMARY; m_pk_part_no := []; m_pack_info := []; m_keyno := 1;
  m_pk_key_parts := 0; m_unique_sk_only_key_parts := 0; m_maxlength := 16 |}.

(** In a non-unique index of a table with a hidden primary key the
    assertions of [PosInInterval] can fail: for two keys with the same column
    value the upper end is cut off and the key is not. *)
Theorem PosInInterval_hidden_pk :
  let sch := SecondaryKeySchema {| KeyDefinition := sample_kd; IsUniqueIndex := false |}
               {| KeyDefinition := hidden_pk_kd; IsUniqueIndex := true |} in
  let key uuid := key_of_bytes (1 :: replicate 16 uuid) in
  key_ltb NegativeInfinity (key 3) = true /\ key_ltb (key 3) (key 9) = true /\
  PosInInterval sch (key 3) NegativeInfinity (key 9) = None.
Proof. by vm_compute. Qed.

(** The packed infinities enclose the keys of an index.  Every key that
    [pack_record] makes of a valid record is at most the packed positive
    infinity of the schema, of a primary index as of a secondary one, and the
    packed negative infinity is at most every key that is not empty. *)
Theorem packed_infinity_correct mem uninit tbl kd0 ki cols pk_cols :
  index_definition tbl kd0 ki cols pk_cols ->
  Forall (fun c => (0 < field_length (kp_field c.1))%nat) (index_columns ki cols pk_cols) ->
  exists kd, key_def_setup uninit tbl kd0 = Some kd /\
    forall rec u unique pk, row_ok (index_columns ki cols pk_cols) rec -> bytes_ok rec ->
      exists st, pack_record mem kd tbl rec u false None 0 = Some st /\
        let k := key_of_bytes (ps_tuple st) in
        let sch := {| KeyDefinition := kd; IsUniqueIndex := unique |} in
        key_leb k (PackedPositiveInfinity (EloqPrimary sch)) = true /\
        key_leb k (PackedPositiveInfinity (SecondaryKeySchema sch pk)) = true /\
        (ps_tuple st <> [] -> key_leb PackedNegativeInfinity k = true).
Proof.
  intros Hid Hpos. destruct (setup_ready mem uninit tbl kd0 ki cols pk_cols Hid) as (kd & E & Hr & _ & _ & _ & Hm & Hpack).
  exists kd. split; [done|]. intros rec u unique pk Hrow Hrb.
  destruct (Hpack rec u 0%nat Hrow ltac:(lia) ltac:(done)) as (st & Ep & Et). exists st. split; [done|].
  pose proof (row_key_ok mem uninit tbl _ _ rec Hr Hrow Hrb) as Hb.
  pose proof (row_key_bound mem uninit tbl _ _ rec Hr Hrow Hpos) as Hl. cbn [Nat.eqb] in Et. rewrite <- Et in Hb, Hl.
  assert (forall n, (length (ps_tuple st) <= n)%nat -> lex_cmp (ps_tuple st) (replicate n 255) <> Gt) as Hceil.
  { intros n Hn. pose proof (ceiling_cmp (set_key_parts kd [] [] 0 0 n) [] (ps_tuple st) Hb Hn) as Hc.
    unfold get_ceiling_key in Hc. simpl in Hc. rewrite Nat.sub_0_r in Hc. apply Hc. left. apply prefix_nil. }
  cbv zeta. rewrite !key_leb_cmp. unfold key_cmp. simpl. split_and!.
  - apply Hceil. rewrite Hm. exact Hl.
  - apply Hceil. rewrite Hm. lia.
  - intros Hne. destruct (ps_tuple st) as [|x l]; [done|]. apply bytes_ok_cons in Hb as [Hx _].
    unfold byte_ok in Hx. destruct x; [by destruct l|done|lia].
Qed.

Lemma packed_infinity_witness :
  exists kd, key_def_setup sample_uninit sample_table sample_pk_kd = Some kd /\
    exists st, pack_record (fun _ => []) kd sample_table sample_ann None false None 0 = Some st /\
      key_leb (key_of_bytes (ps_tuple st))
        (PackedPositiveInfinity (EloqPrimary {| KeyDefinition := kd; IsUniqueIndex := true |})) = true.
Proof.
  destruct (packed_infinity_correct (fun _ => []) sample_uninit sample_table sample_pk_kd sample_pk
    [sample_id_part] [] sample_pk_index) as (kd & E & H).
  - apply Forall_cons_iff. split; [simpl; lia|constructor].
  - exists kd. split; [exact E|].
    destruct (H sample_ann None true sample_schema) as (st & Ep & Hp & _).
    + apply sample_pk_row; [by apply (bool_decide_unpack _)|done].
    + by apply (bool_decide_unpack _).
    + exists st. split; [exact Ep|exact Hp].
Defined.

End EloqKey.
