(* ===== verification/Restore.v ===== *)
(** * Restore: unpacking single columns

    The unpack functions of eloq_key_def.cc invert the sort keys of sql/field.cc:
    integers, floating-point numbers (a negative zero becomes zero), dates,
    decimals, temporal values, enums; and the VARBINARY encoding. *)

From S2P Require Import Prelude Buff Charset Latin1 Collation Field Codec Packing VarFormat SpacePad.
From S2P Require Import Varchar KeySetup KeyDef KeyOrder.
Import Field Packing Varchar KeySetup KeyDef KeyOrder.

Module Restore.

(** ** Integers *)

Lemma reverse_signbit_twice (uf : bool) b : byte_ok b ->
  (if uf then reverse_signbit uf b else uchar_of (Z.lxor (reverse_signbit uf b) 128)) = b.
Proof.
  intros Hb. destruct uf; [done|]. unfold reverse_signbit.
  rewrite Z.lxor_assoc, Z.lxor_nilpotent, Z.lxor_0_r. by apply uchar_of_id.
Qed.

Lemma unpack_integer_sort_string n uf p :
  (0 < n)%nat -> image_ok n p -> unpack_integer_bytes uf (int_sort_string n uf p) = take n p.
Proof.
  intros Hn [Hb Hl]. unfold int_sort_string.
  assert (bytes_ok (reverse (take n p))) as Hr by auto with bytes.
  assert (length (reverse (take n p)) = n) as Hrl by (rewrite length_reverse, length_take; lia).
  destruct (reverse (take n p)) as [|b r] eqn:E; [simpl in Hrl; lia|].
  apply bytes_ok_cons in Hr as [Hb0 _]. simpl. rewrite reverse_signbit_twice by done.
  rewrite <- (reverse_involutive (take n p)), E. by rewrite reverse_cons.
Qed.

(** Sort keys without a sign bit are the reversed bytes. *)
Lemma reverse_sort_string n p : reverse (int_sort_string n true p) = take n p.
Proof.
  unfold int_sort_string. destruct (reverse (take n p)) as [|b r] eqn:E.
  - apply (f_equal reverse) in E. rewrite reverse_involutive in E. by rewrite E.
  - simpl. by rewrite <- E, reverse_involutive.
Qed.

Lemma enum_sort_string_reverse n p : image_ok n p -> reverse (enum_sort_string n p) = take n p.
Proof.
  intros [Hb Hl]. rewrite enum_sort_string_eq, be_bytes_reverse, reverse_involutive.
  rewrite <- (le_bytes_le_val (take n p)) at 2 by auto with bytes. by rewrite length_take, Nat.min_l.
Qed.

(** ** Floating-point numbers *)

(** The branches of [unpack_floating_point] for a number that is not zero. *)
Definition ieee_restore (exp_digit : Z) (tmp : bytes) : bytes :=
  if negb (Z.land (nth 0 tmp 0) 128 =? 0) then
    let exp_part := Z.lor (Z.shiftl (nth 0 tmp 0) 8) (nth 1 tmp 0) in
    let exp_part := Z.land exp_part 32767 in
    let exp_part := ushort_of (exp_part - Z.shiftl 1 (16 - 1 - exp_digit)) in
    uchar_of (Z.shiftr exp_part 8) :: uchar_of exp_part :: drop 2 tmp
  else map (fun b => Z.lxor b 255) tmp.

Lemma lxor_255_twice l : bytes_ok l -> map (fun b => Z.lxor b 255) (map (fun b => Z.lxor b 255) l) = l.
Proof.
  intros H. induction H as [|b l Hb _ IH]; [done|]. simpl. rewrite IH. f_equal.
  by rewrite Z.lxor_assoc, Z.lxor_nilpotent, Z.lxor_0_r.
Qed.

Lemma lxor_255 b : byte_ok b -> Z.lxor b 255 = 255 - b.
Proof.
  intros Hb. apply Z.eqb_eq. revert b Hb.
  apply (Z_range_forall 256 (fun b => Z.lxor b 255 =? 255 - b)). by vm_compute.
Qed.

(** Restoring what was changed for sorting. *)
Lemma ieee_restore_change k t0 t1 r :
  1 < k < 15 -> bytes_ok (t0 :: t1 :: r) -> (t0 < 128 -> t0 * 256 + t1 + 2 ^ (15 - k) < 32768) ->
  ieee_restore k (ieee_change_for_sort k (t0 :: t1 :: r)) = t0 :: t1 :: r.
Proof.
  intros Hk Hb Hfin. pose proof Hb as Hb'. rewrite !bytes_ok_cons in Hb'. destruct Hb' as (H0 & H1 & Hr).
  unfold ieee_change_for_sort. cbn [nth]. rewrite (land_128 t0) by done.
  destruct (Z.ltb_spec t0 128) as [Ht|Ht]; cbn [negb].
  - rewrite !Z.shiftl_mul_pow2 by lia. change (2 ^ 8) with 256. rewrite Z.mul_1_l.
    unfold byte_ok in *.
    rewrite (Charset.lor_hi 8 (t0 * 256) t1), (Z.lor_comm _ 32768), (Charset.lor_hi 15 32768) by (dlia || done).
    change (16 - 1 - k) with (15 - k).
    assert (0 < 2 ^ (15 - k)) by (apply Z.pow_pos_nonneg; lia). specialize (Hfin Ht).
    set (x := 2 ^ (15 - k)) in *. unfold ushort_of at 1 2. rewrite !Z.mod_small by lia.
    rewrite Z.shiftr_div_pow2 by lia. change (2 ^ 8) with 256.
    set (y := 32768 + (t0 * 256 + t1) + x). assert (32768 <= y < 65536) as Hy by (unfold y; lia).
    rewrite uchar_of_id by (unfold byte_ok; dlia). unfold uchar_of at 1.
    unfold ieee_restore. cbn [nth]. rewrite (land_128 (y / 256)) by (unfold byte_ok; dlia).
    rewrite (proj2 (Z.ltb_ge (y / 256) 128)) by dlia. cbn [negb].
    rewrite !Z.shiftl_mul_pow2 by lia. change (2 ^ 8) with 256. rewrite Z.mul_1_l.
    rewrite (Charset.lor_hi 8) by (dlia || done). change (16 - 1 - k) with (15 - k). fold x.
    change 32767 with (Z.ones 15). rewrite Z.land_ones by lia. change (2 ^ 15) with 32768.
    replace (y / 256 * 256 + y mod 256) with y by dlia.
    replace (y mod 32768) with (t0 * 256 + t1 + x) by (unfold y; dlia).
    unfold ushort_of. rewrite Z.mod_small by lia. rewrite Z.shiftr_div_pow2 by lia. change (2 ^ 8) with 256.
    unfold uchar_of. change (drop 2 (y / 256 :: y mod 256 :: drop 2 (t0 :: t1 :: r))) with r. repeat f_equal; dlia.
  - unfold ieee_restore. cbn [map nth]. rewrite lxor_255 by done. unfold byte_ok in H0.
    rewrite land_128 by (unfold byte_ok; lia). rewrite (proj2 (Z.ltb_lt _ _)) by lia. cbn [negb].
    rewrite <- lxor_255 by (unfold byte_ok; lia). apply (lxor_255_twice (t0 :: t1 :: r) Hb).
Qed.

(** The key of a number other than zero is not the key of zero. *)
Lemma ieee_key_nonzero n k bits :
  1 < k < 15 -> (2 <= n)%nat -> 0 <= bits < 2 * 2 ^ (8 * Z.of_nat n - 1) -> ieee_is_zero n bits = false ->
  ieee_key n k bits <> 2 ^ (8 * Z.of_nat n - 1).
Proof.
  intros Hk Hn Hb Hz. unfold ieee_is_zero in Hz. unfold ieee_key. rewrite Hz. apply Z.eqb_neq in Hz.
  pose proof (Z.pow_pos_nonneg 2 (8 * Z.of_nat n - 1 - k) ltac:(lia) ltac:(lia)).
  set (half := 2 ^ (8 * Z.of_nat n - 1)) in *. destruct (Z.ltb_spec bits half); lia.
Qed.

(** Unpacking a key of [n] bytes that restores to the image [t]. *)
Lemma unpack_floating_point_key n k key zero_val swap image rest :
  (2 <= n)%nat -> length key = n -> bytes_ok key -> be_val key <> 2 ^ (8 * Z.of_nat n - 1) ->
  swap (ieee_restore k key) = image ->
  unpack_floating_point (key ++ rest) n k (128 :: replicate (n - 1) 0) zero_val swap = Some (image, rest).
Proof.
  intros Hn Hl Hok Hz Hs. unfold unpack_floating_point, Rd.read.
  rewrite length_app, Hl. rewrite (proj2 (Nat.ltb_ge _ _)) by lia.
  rewrite take_app_length', drop_app_length' by done.
  destruct (memcmp key (128 :: replicate (n - 1) 0) n) eqn:E.
  - exfalso. apply Hz. unfold memcmp in E. apply lex_cmp_Eq in E.
    rewrite !take_ge in E by (simpl; rewrite ?length_replicate; lia). rewrite E.
    cbn [be_val]. rewrite length_replicate.
    assert (forall j, be_val (replicate j 0) = 0) as -> by (induction j; simpl; lia).
    pose proof (pow2_8_half n ltac:(lia)) as E2.
    replace n with (S (n - 1)) in E2 at 1 by lia. rewrite pow256_S in E2. lia.
  - by rewrite <- Hs.
  - by rewrite <- Hs.
Qed.

(** The exponent of a finite number leaves room for one more. *)
Lemma float_exponent b0 b1 b2 b3 :
  bytes_ok [b0; b1; b2; b3] -> ieee_finite 4 FLT_EXP_DIG (le_val [b0; b1; b2; b3]) ->
  b3 < 128 -> b3 * 256 + b2 + 2 ^ (15 - FLT_EXP_DIG) < 32768.
Proof.
  rewrite !bytes_ok_cons. unfold byte_ok, ieee_finite, FLT_EXP_DIG. cbn [le_val Z.of_nat].
  change (8 * Z.of_nat 4 - 1 - 8) with 23. change (2 ^ 23) with 8388608. change (2 ^ 8) with 256.
  change (2 ^ (15 - 8)) with 128. dlia.
Qed.

Lemma double_exponent b0 b1 b2 b3 b4 b5 b6 b7 :
  bytes_ok [b0; b1; b2; b3; b4; b5; b6; b7] ->
  ieee_finite 8 DBL_EXP_DIG (le_val [b0; b1; b2; b3; b4; b5; b6; b7]) ->
  b7 < 128 -> b7 * 256 + b6 + 2 ^ (15 - DBL_EXP_DIG) < 32768.
Proof.
  rewrite !bytes_ok_cons. unfold byte_ok, ieee_finite, DBL_EXP_DIG. cbn [le_val Z.of_nat].
  change (8 * Z.of_nat 8 - 1 - 11) with 52. change (2 ^ 52) with 4503599627370496. change (2 ^ 11) with 2048.
  change (2 ^ (15 - 11)) with 16. dlia.
Qed.

(** What is restored for a floating-point image: zero loses its sign. *)
Definition normal_image (n : nat) (p : bytes) : bytes :=
  if ieee_is_zero n (le_val (take n p)) then replicate n 0 else take n p.

Lemma unpack_float_key p rest : float_ok p ->
  unpack_floating_point (float_sort_string p ++ rest) 4 FLT_EXP_DIG float_zero_pattern (replicate 4 0)
    mono_swap_float_bytes = Some (normal_image 4 p, rest).
Proof.
  intros Hp. pose proof (float_sort_string_key p Hp) as (Hb & Hl & Hv). destruct Hp as [Hp Hfin].
  pose proof (image_val_bound 4 p ltac:(lia) Hp) as Hbound. destruct Hp as [Hok Hlen].
  unfold normal_image. destruct (ieee_is_zero 4 (le_val (take 4 p))) eqn:Ez.
  { unfold float_sort_string. by rewrite Ez. }
  apply (unpack_floating_point_key 4); try done; [lia| |].
  { rewrite Hv. apply ieee_key_nonzero; try done; unfold FLT_EXP_DIG; lia. }
  unfold float_sort_string. rewrite Ez. do 4 (destruct p as [|? p]; [simpl in Hlen; lia|]). cbn [nth].
  change (take 4 _) with [z; z0; z1; z2] in *. 
  assert (bytes_ok [z; z0; z1; z2]) as Hok4 by exact (bytes_ok_take 4 _ Hok).
  rewrite (ieee_restore_change FLT_EXP_DIG z2 z1 [z0; z]); [done|unfold FLT_EXP_DIG; lia| |].
  - rewrite !bytes_ok_cons in *. tauto.
  - by apply (float_exponent z z0).
Qed.

Lemma unpack_double_key p rest : double_ok p ->
  unpack_floating_point (double_sort_string p ++ rest) 8 DBL_EXP_DIG double_zero_pattern (replicate 8 0)
    mono_swap_double_bytes = Some (normal_image 8 p, rest).
Proof.
  intros Hp. pose proof (double_sort_string_key p Hp) as (Hb & Hl & Hv). destruct Hp as [Hp Hfin].
  pose proof (image_val_bound 8 p ltac:(lia) Hp) as Hbound. destruct Hp as [Hok Hlen].
  unfold normal_image. destruct (ieee_is_zero 8 (le_val (take 8 p))) eqn:Ez.
  { unfold double_sort_string, change_double_for_sort. by rewrite Ez. }
  apply (unpack_floating_point_key 8); try done; [lia| |].
  { rewrite Hv. apply ieee_key_nonzero; try done; unfold DBL_EXP_DIG; lia. }
  unfold double_sort_string, change_double_for_sort. rewrite Ez.
  do 8 (destruct p as [|? p]; [simpl in Hlen; lia|]). cbn [nth take].
  cbn [take] in *.
  assert (bytes_ok [z; z0; z1; z2; z3; z4; z5; z6]) as Hok8 by exact (bytes_ok_take 8 _ Hok).
  rewrite (ieee_restore_change DBL_EXP_DIG z6 z5 [z4; z3; z2; z1; z0; z]); [done|unfold DBL_EXP_DIG; lia| |].
  - rewrite !bytes_ok_cons in *. tauto.
  - by apply (double_exponent z z0 z1 z2 z3 z4).
Qed.

(** ** Restored columns *)

(** The column of [rec] written to [buf]. *)
Definition stored (field : Field) (rec buf : bytes) : bytes :=
  match real_type field with
  | MYSQL_TYPE_VARCHAR => store_varstring field (varstring_data field (data field rec)) buf
  | MYSQL_TYPE_FLOAT => write_at (ptr field) (normal_image 4 (data field rec)) buf
  | MYSQL_TYPE_DOUBLE => write_at (ptr field) (normal_image 8 (data field rec)) buf
  | _ => write_at (ptr field) (take (pack_length field) (data field rec)) buf
  end.

Section Restored.

Context (mem : Z -> bytes).

(** The contract of packing and unpacking one column: [packed] is the column
    as it is packed, [field] as it is unpacked.  Unpacking consumes the key
    and the unpack info [info] that packing added, and stores the value; a
    missing unpack reader does when there is no unpack info. *)
Definition part_restored (packed field : Field) (fpi : mono_field_packing) (ok : bytes -> Prop) : Prop :=
  exists f, m_unpack_func fpi = Some f /\
  forall rec w0, ok rec -> bytes_ok w0 ->
  exists info, bytes_ok info /\
    pack_value mem packed fpi rec (Some w0) = Some (part_key mem packed fpi rec, Some (w0 ++ info)) /\
    forall buf rest urest, bytes_ok urest ->
      call_unpack f fpi field buf (part_key mem packed fpi rec ++ rest) (Some (info ++ urest)) =
        Some (stored field rec buf, rest, Some urest) /\
      (info = [] -> uses_unpack_info fpi = true ->
       call_unpack f fpi field buf (part_key mem packed fpi rec ++ rest) None =
         Some (stored field rec buf, rest, None)).

(** *** Columns packed by their sort key, without unpack info *)

Lemma read_key n key rest : length key = n -> Rd.read n (key ++ rest) = Some (key, rest).
Proof.
  intros Hl. unfold Rd.read. rewrite length_app, (proj2 (Nat.ltb_ge _ _)) by lia.
  by rewrite take_app_length', drop_app_length'.
Qed.

Lemma restored_sort_key packed field fpi ok enc f :
  m_pack_func fpi = Some pack_with_make_sort_key -> m_make_unpack_info_func fpi = None ->
  m_unpack_func fpi = Some f ->
  (forall rec, ok rec -> sort_string packed (m_max_image_len fpi) rec = Some (enc rec) /\
     length (enc rec) = m_max_image_len fpi) ->
  (forall rec buf rest u, ok rec ->
     call_unpack f fpi field buf (enc rec ++ rest) u = Some (stored field rec buf, rest, u)) ->
  part_restored packed field fpi ok.
Proof.
  intros Hpf Hmk Hf Hs Hu. exists f. split; [done|]. intros rec w0 Hok Hw0. exists [].
  assert (forall u, pack_value mem packed fpi rec u = Some (enc rec, u)) as Hp.
  { intros u. unfold pack_value. rewrite Hpf. simpl. unfold do_pack_with_make_sort_key.
    destruct (Hs rec Hok) as [-> ->]. rewrite Nat.eqb_refl, Hmk. by destruct u. }
  assert (part_key mem packed fpi rec = enc rec) as Hk by (unfold part_key; by rewrite Hp).
  rewrite Hk, app_nil_r. split; [apply bytes_ok_nil|]. split; [apply Hp|].
  intros buf rest urest _. simpl. split; [by apply Hu|]. intros _ H. unfold uses_unpack_info in H.
  by rewrite Hmk in H.
Qed.

(** [memcpy(to, from)] style unpacking: an image computed from the key. *)
Lemma restored_image field len fpi n f enc (g : bytes -> bytes) :
  fixed_size field = Some n -> m_max_image_len fpi = n ->
  m_pack_func fpi = Some pack_with_make_sort_key -> m_make_unpack_info_func fpi = None ->
  m_unpack_func fpi = Some f ->
  (forall rec, sort_string (with_field_length len field) n rec = Some (enc (data field rec))) ->
  (forall rec, fixed_ok field rec -> image_ok n (data field rec)) ->
  (forall p, image_ok n p -> length (enc p) = n /\ g (enc p) = take (pack_length field) p) ->
  (forall key buf rest u, length key = n ->
     call_unpack f fpi field buf (key ++ rest) u = Some (write_at (ptr field) (g key) buf, rest, u)) ->
  (forall rec buf, stored field rec buf =
     write_at (ptr field) (take (pack_length field) (data field rec)) buf) ->
  part_restored (with_field_length len field) field fpi (fixed_ok field).
Proof.
  intros Hn Hi Hpf Hmk Hf Hs Himg Hg Hu Hst.
  apply (restored_sort_key _ _ _ _ (fun rec => enc (data field rec)) f Hpf Hmk Hf).
  - intros rec Hok. rewrite Hi. split; [apply Hs|]. by apply Hg, Himg.
  - intros rec buf rest u Hok. destruct (Hg (data field rec) (Himg rec Hok)) as [Hl Hge].
    by rewrite Hu, Hge, Hst by done.
Qed.

Lemma fixed_ok_image field n rec :
  fixed_size field = Some n -> real_type field <> MYSQL_TYPE_BIT -> fixed_ok field rec ->
  image_ok n (data field rec).
Proof.
  unfold fixed_ok. intros Hn Hb H. rewrite Hn in H. unfold fixed_size in Hn.
  destruct (real_type field); try done; try (by destruct H as (m & [= <-] & Hm)).
  - injection Hn as <-. apply H.
  - injection Hn as <-. apply H.
Qed.

Lemma unpack_int_image n field fpi key buf rest u (g : bytes -> bytes) f :
  m_max_image_len fpi = n -> length key = n ->
  (f = unpack_integer /\ g = unpack_integer_bytes (unsigned_flag field)) \/
  (f = unpack_unsigned /\ g = reverse) \/ (f = unpack_binary_str /\ g = id) ->
  call_unpack f fpi field buf (key ++ rest) u = Some (write_at (ptr field) (g key) buf, rest, u).
Proof.
  intros Hn Hl [[-> ->]|[[-> ->]|[-> ->]]]; cbn [call_unpack];
    unfold do_unpack_integer, do_unpack_unsigned, do_unpack_binary_str; rewrite Hn, read_key by done; done.
Qed.

(** The choice of [setup] for the type, and its image. *)
Ltac image_case field len n f enc g :=
  unfold setup; match goal with Et : real_type field = _ |- _ => rewrite Et end;
  eexists _, _; split; [reflexivity|];
  apply (restored_image field len _ n f enc g);
  [assumption|assumption|reflexivity|reflexivity|reflexivity
  |intros rec; unfold sort_string; cbn [real_type with_field_length];
   match goal with Et : real_type field = _ |- _ => rewrite Et end; reflexivity
  |assumption| |intros key buf rest u Hkey; eapply unpack_int_image; [eassumption|done|auto]
  |intros rec buf; unfold stored; match goal with Et : real_type field = _ |- _ => rewrite Et end; reflexivity].

Lemma int_image n uf (f : bool -> bytes -> bytes) p :
  (0 < n)%nat -> (forall p, (n <= length p)%nat -> f uf p = int_sort_string n uf p) -> image_ok n p ->
  length (f uf p) = n /\ unpack_integer_bytes uf (f uf p) = take n p.
Proof.
  intros Hn Hf Hp. rewrite Hf by apply Hp. split; [apply int_sort_string_length, Hp|].
  by apply unpack_integer_sort_string.
Qed.

Lemma memcpy_image n p : image_ok n p ->
  length (memcpy_sort_string n p) = n /\ id (memcpy_sort_string n p) = take n p.
Proof. intros [_ Hp]. split; [unfold memcpy_sort_string; rewrite length_take; lia|done]. Qed.

Lemma newdate_image p : (3 <= length p)%nat ->
  [nth 2 (newdate_sort_string p) 0; nth 1 (newdate_sort_string p) 0; nth 0 (newdate_sort_string p) 0] = take 3 p.
Proof. intros H. do 3 (destruct p as [|? p]; [simpl in H; lia|]). done. Qed.

Lemma enum_image n p : image_ok n p ->
  length (enum_sort_string n p) = n /\ reverse (enum_sort_string n p) = take n p.
Proof.
  intros Hp. split; [by rewrite enum_sort_string_eq, length_be_bytes|by apply enum_sort_string_reverse].
Qed.

(** What [setup] chooses restores the columns of a fixed size.  A YEAR is
    unsigned. *)
Lemma restored_fixed field len keynr part fpi0 n :
  fixed_size field = Some n -> pack_length field = n -> real_type field <> MYSQL_TYPE_BIT ->
  (real_type field = MYSQL_TYPE_YEAR -> unsigned_flag field = true) ->
  exists res fpi, setup true (Some field) keynr part len fpi0 = Some (res, fpi) /\
    part_restored (with_field_length len field) field fpi (fixed_ok field).
Proof.
  intros Hn Hl Hbit Hyear. pose proof (fun rec => fixed_ok_image field n rec Hn Hbit) as Himg.
  set (uf := unsigned_flag field) in *. pose proof Hn as Hsize. unfold fixed_size in Hsize.
  destruct (real_type field) eqn:Et; try discriminate Hsize; try done; injection Hsize as Hsize.
  - image_case field len n unpack_integer (tiny_sort_string uf) (unpack_integer_bytes uf).
    intros p. rewrite Hl, <- Hsize. apply int_image; [lia|apply tiny_sort_string_eq].
  - image_case field len n unpack_integer (short_sort_string uf) (unpack_integer_bytes uf).
    intros p. rewrite Hl, <- Hsize. apply int_image; [lia|apply short_sort_string_eq].
  - image_case field len n unpack_integer (long_sort_string uf) (unpack_integer_bytes uf).
    intros p. rewrite Hl, <- Hsize. apply int_image; [lia|apply long_sort_string_eq].
  - unfold setup. rewrite Et. eexists _, _. split; [reflexivity|].
    apply (restored_sort_key _ _ _ _ (fun rec => float_sort_string (data field rec)) unpack_float);
      [done..| |].
    + intros rec Hok. unfold fixed_ok in Hok. rewrite Et in Hok. simpl. unfold sort_string. simpl. rewrite Et, Hl, <- Hsize.
      split; [done|]. by apply float_sort_string_key.
    + intros rec buf rest u Hok. unfold fixed_ok in Hok. rewrite Et in Hok. cbn [call_unpack].
      unfold do_unpack_float, stored. by rewrite unpack_float_key, Et.
  - unfold setup. rewrite Et. eexists _, _. split; [reflexivity|].
    apply (restored_sort_key _ _ _ _ (fun rec => double_sort_string (data field rec)) unpack_double);
      [done..| |].
    + intros rec Hok. unfold fixed_ok in Hok. rewrite Et in Hok. simpl. unfold sort_string. simpl. rewrite Et, Hl, <- Hsize.
      split; [done|]. by apply double_sort_string_key.
    + intros rec buf rest u Hok. unfold fixed_ok in Hok. rewrite Et in Hok. cbn [call_unpack].
      unfold do_unpack_double, stored. by rewrite unpack_double_key, Et.
  - image_case field len n unpack_integer (longlong_sort_string uf) (unpack_integer_bytes uf).
    intros p. rewrite Hl, <- Hsize. apply int_image; [lia|apply longlong_sort_string_eq].
  - image_case field len n unpack_integer (medium_sort_string uf) (unpack_integer_bytes uf).
    intros p. rewrite Hl, <- Hsize. apply int_image; [lia|apply medium_sort_string_eq].
  - image_case field len n unpack_binary_str (tiny_sort_string uf) (@id bytes).
    intros p. rewrite Hl, <- Hsize, Hyear by done. intros [_ Hp].
    destruct p; [simpl in Hp; lia|done].
  - unfold setup. rewrite Et. eexists _, _. split; [reflexivity|].
    apply (restored_sort_key _ _ _ _ (fun rec => newdate_sort_string (data field rec)) unpack_newdate);
      [done..| |].
    + intros rec Hok. simpl. unfold sort_string. simpl. by rewrite Et, Hl, <- Hsize.
    + intros rec buf rest u Hok. destruct (Himg rec Hok) as [_ Hp]. rewrite <- Hsize in Hp. cbn [call_unpack].
      unfold do_unpack_newdate, stored. rewrite read_key by done. rewrite Et, Hl, <- Hsize.
      by rewrite newdate_image.
  - image_case field len n unpack_binary_str (memcpy_sort_string n) (@id bytes). rewrite Hl. apply memcpy_image.
  - image_case field len n unpack_binary_str (memcpy_sort_string n) (@id bytes). rewrite Hl. apply memcpy_image.
  - image_case field len n unpack_binary_str (memcpy_sort_string n) (@id bytes). rewrite Hl. apply memcpy_image.
  - image_case field len n unpack_binary_str (memcpy_sort_string n) (@id bytes). rewrite Hl. apply memcpy_image.
  - image_case field len n unpack_unsigned (enum_sort_string (packlength field)) (@reverse Z).
    rewrite Hl, Hsize. apply enum_image.
  - image_case field len n unpack_unsigned (enum_sort_string (packlength field)) (@reverse Z).
    rewrite Hl, Hsize. apply enum_image.
Qed.

(** *** VARCHAR columns *)

Lemma restored_varchar fpi field f weights :
  real_type field = MYSQL_TYPE_VARCHAR ->
  m_pack_func fpi = Some pack_with_varchar_space_pad -> m_unpack_func fpi = Some f ->
  (forall rec w0 buf rest urest, varchar_ok weights field rec -> bytes_ok w0 -> bytes_ok urest ->
     exists key info,
       pack_value mem field fpi rec (Some w0) = Some (key, Some (w0 ++ info)) /\ bytes_ok info /\ info <> [] /\
       call_unpack f fpi field buf (key ++ rest) (Some (info ++ urest)) =
         Some (store_varstring field (varstring_data field (data field rec)) buf, rest, Some urest)) ->
  KeyPart mem field fpi (varchar_ok weights field) ->
  part_restored field field fpi (varchar_ok weights field).
Proof.
  intros Ht Hpf Hf Hu Hkp. exists f. split; [done|]. intros rec w0 Hok Hw0.
  destruct (Hu rec w0 [] [] [] Hok Hw0 bytes_ok_nil) as (key & info & E & Hinfo & Hne & _).
  destruct (kp_pack mem (ok := varchar_ok weights field) rec (Some w0) Hok Hw0) as (u' & E' & _).
  rewrite E in E'. injection E' as -> <-.
  exists info. split; [done|]. split; [done|]. intros buf rest urest Hur.
  destruct (Hu rec w0 buf rest urest Hok Hw0 Hur) as (key' & info' & E2 & _ & _ & Hunp).
  rewrite E in E2. injection E2 as <- Hi%app_inv_head. subst info'. split; [|done].
  rewrite Hunp. unfold stored. by rewrite Ht.
Qed.

(** The template that [setup] chooses for a _bin collation. *)
Definition bin_wlen (cs : Collation.CHARSET_INFO) : nat :=
  if Collation.number cs =? Collation.COLLATION_UTF8MB4_BIN then 3
  else if Collation.number cs =? Collation.COLLATION_UTF8_BIN then 2 else 1.

Lemma restored_varchar_bin field keynr part fpi0 wlen k nsp sp weights D dec
    `{!Restorable (charset field) wlen sp weights D dec} :
  varchar_column field -> collation_spaces (charset field) wlen k nsp sp ->
  Collation.number (charset field) = Collation.COLLATION_LATIN1_BIN \/
  Collation.number (charset field) = Collation.COLLATION_UTF8_BIN \/
  Collation.number (charset field) = Collation.COLLATION_UTF8MB4_BIN ->
  wlen = bin_wlen (charset field) ->
  exists fpi, setup true (Some field) keynr part (field_length field) fpi0 = Some (true, fpi) /\
    part_restored field field fpi (varchar_ok weights field).
Proof.
  intros Hc Hsp Hn Hw. pose proof rs_pad as Hps.
  destruct (setup_varchar_bin field keynr part fpi0 wlen k nsp sp Hc Hsp Hn)
    as (fpi & E & Hset & Hcs & _ & Hpf & Hmk & _ & Huf).
  exists fpi. split; [done|].
  eapply (restored_varchar fpi field _ weights); [by apply vc_type|done|done| |].
  - intros rec w0 buf rest urest Hok Hw0 Hur.
    destruct (varchar_restored fpi field rec buf w0 rest urest wlen k nsp sp weights D dec Hset Hok Hcs)
      as (key & info & Ep & Eu).
    pose proof (pack_space_pad_info fpi field rec (Some w0) Hw0) as (u' & Ep' & Hu').
    rewrite Ep in Ep'. injection Ep' as _ <-. simpl in Hu'. apply bytes_ok_app in Hu' as [_ Hinfo].
    exists key, info. split_and!; [|done| |].
    + unfold pack_value. rewrite Hpf. simpl. by rewrite Ep, Hmk.
    + intros ->. destruct (varchar_restored fpi field rec buf w0 rest [] wlen k nsp sp weights D dec Hset Hok Hcs)
        as (key2 & info2 & Ep2 & Eu2).
      rewrite Ep in Ep2. injection Ep2 as <- Hi%app_inv_head. subst info2.
      unfold unpack_varchar_space_pad_templ, read_removed in Eu2.
      by destruct (m_unpack_info_uses_two_bytes fpi).
    + unfold bin_wlen in Hw. destruct (_ =? Collation.COLLATION_UTF8MB4_BIN); subst wlen.
      * cbn [call_unpack]. by rewrite Eu.
      * destruct (_ =? Collation.COLLATION_UTF8_BIN); cbn [call_unpack]; by rewrite Eu.
  - apply (key_part_varchar mem field fpi wlen k nsp sp weights); try done; [by apply vc_type|by left].
Qed.

(** Simple collations in which the space is the only byte of its weight. *)
Lemma restored_varchar_simple field keynr part fpi0 k nsp so
    `{!Collation.PadSpace (charset field) 1 (so 32) (fun s => Some (map so s))} :
  varchar_column field -> collation_spaces (charset field) 1 k nsp (so 32) ->
  simple_table so -> Collation.sort_order (charset field) = Some so ->
  Codec.mono_is_collation_supported (charset field) = true ->
  Collation.lengthsp (charset field) = Charset.trimmed_length ->
  uchar_of (Collation.pad_char (charset field)) = 32 ->
  Collation.number (charset field) <> Collation.COLLATION_LATIN1_BIN ->
  Collation.number (charset field) <> Collation.COLLATION_UTF8_BIN ->
  Collation.number (charset field) <> Collation.COLLATION_UTF8MB4_BIN ->
  exists fpi, setup true (Some field) keynr part (field_length field) fpi0 = Some (true, fpi) /\
    part_restored field field fpi (varchar_ok (fun s => Some (map so s)) field).
Proof.
  intros Hc Hsp Hso Hord Hsup Hlsp Hpc N1 N2 N3.
  destruct (setup_varchar_simple field keynr part fpi0 1 k nsp (so 32) (Codec.collation_codec so) Hc Hsp)
    as (fpi & E & Hset & Hcodec & _ & Hpf & Hmk & _ & Huf); try done.
  { unfold Codec.mono_init_collation_mapping. by rewrite Hsup, Hord. }
  pose proof (Codec.codec_spec so) as Hspec.
  assert (Codec.m_enc_size (Codec.collation_codec so) 32 = 0) as Hsz.
  { apply Codec.codec_unique; [unfold byte_ok; lia|]. intros d Hd. by apply (st_space so Hso). }
  revert Hcodec Hspec Hsz. generalize (Codec.collation_codec so). intros codec Hcodec Hspec Hsz.
  exists fpi. split; [done|].
  assert (forall rec w0 buf rest urest,
    varchar_ok (fun s => Some (map so s)) field rec -> bytes_ok w0 -> bytes_ok urest ->
    exists key info, pack_value mem field fpi rec (Some w0) = Some (key, Some (w0 ++ info)) /\
      do_unpack_simple_varchar_space_pad fpi field buf (key ++ rest) (info ++ urest) =
        Some (store_varstring field (varstring_data field (data field rec)) buf, rest, urest)) as Hboth.
  { intros rec w0 buf rest urest Hok Hw0 Hur.
    destruct (simple_varchar_restored fpi field rec buf w0 rest urest k nsp so codec Hset Hok Hso Hspec Hsz
      Hlsp Hpc Hcodec Hw0 Hur) as (key & w1 & info & Ep & Em & Eu).
    exists key, info. split; [|done]. unfold pack_value. rewrite Hpf. simpl. by rewrite Ep, Hmk, Hcodec, Em. }
  assert (KeyPart mem field fpi (varchar_ok (fun s => Some (map so s)) field)) as Hkp.
  { apply (key_part_varchar mem field fpi 1 k nsp (so 32)); try done; [by apply vc_type|].
    right. split; [done|]. by exists codec, so. }
  apply (restored_varchar fpi field _ _ (vc_type _ Hc) Hpf Huf); [|done].
  intros rec w0 buf rest urest Hok Hw0 Hur.
  destruct (Hboth rec w0 buf rest urest Hok Hw0 Hur) as (key & info & Ep & Eu).
  exists key, info. split; [done|]. split; [|split].
  - destruct (kp_pack mem rec (Some w0) Hok Hw0) as (u' & Ep' & Hu'). rewrite Ep in Ep'.
    injection Ep' as _ <-. simpl in Hu'. by apply bytes_ok_app in Hu' as [_ ?].
  - intros ->. destruct (Hboth rec w0 buf rest [] Hok Hw0 bytes_ok_nil) as (key2 & info2 & Ep2 & Eu2).
    rewrite Ep in Ep2. injection Ep2 as <- Hi%app_inv_head. subst info2.
    unfold do_unpack_simple_varchar_space_pad, read_removed in Eu2. rewrite Hcodec in Eu2.
    by destruct (m_unpack_info_uses_two_bytes fpi).
  - cbn [call_unpack]. by rewrite Eu.
Qed.

(** *** VARBINARY columns *)

Lemma restored_varbinary field keynr part fpi0 :
  varchar_column field -> charset field = Collation.my_charset_bin ->
  exists fpi, setup true (Some field) keynr part (field_length field) fpi0 = Some (true, fpi) /\
    part_restored field field fpi (varchar_ok Some field).
Proof.
  intros Hc Hcs.
  destruct (setup_varbinary field keynr part fpi0 Hc Hcs) as (fpi & E & _ & Hi & Hpf & Hmk & _ & Huf & Hvc & _).
  exists fpi. split; [done|]. exists unpack_binary_or_utf8_varchar. split; [done|].
  intros rec w0 Hok Hw0. exists [].
  assert (forall u, pack_value mem field fpi rec u =
    Some (pack_variable_format (varstring_data field (data field rec)), u)) as Hp.
  { intros u. unfold pack_value. rewrite Hpf. simpl. rewrite pack_varbinary by done. rewrite Hmk. by destruct u. }
  assert (part_key mem field fpi rec = pack_variable_format (varstring_data field (data field rec))) as ->
    by (unfold part_key; by rewrite Hp).
  rewrite app_nil_r. split; [apply bytes_ok_nil|]. split; [apply Hp|].
  intros buf rest urest _. split.
  - cbn [call_unpack app]. unfold do_unpack_binary_or_utf8_varchar. rewrite Hvc, Hcs.
    rewrite VarFormat.unpack_variable_format.
    + unfold stored. by rewrite (vc_type _ Hc).
    + done.
    + by apply (varstring_data_ok Some).
    + rewrite (varstring_data_length Some), (vc_pack_length _ Hc) by done. pose proof (vo_length Hok). lia.
    + rewrite length_app. pose proof (VarFormat.length_pack_variable_format (varstring_data field (data field rec))). lia.
  - intros _ H. unfold uses_unpack_info in H. by rewrite Hmk in H.
Qed.

End Restored.

End Restore.
