(* ===== verification/RoundTrip.v ===== *)
(** * RoundTrip: unpacking what was packed

    [unpack_record] applied to the key and the unpack info of [pack_record]
    restores every column of the index in the record buffer. *)

From S2P Require Import Prelude Buff Charset Latin1 Collation Field Codec Packing VarFormat SpacePad.
From S2P Require Import Store Varchar KeySetup KeyDef KeyOrder Index Restore.
Import Field Store Packing Varchar KeySetup KeyDef KeyOrder Index Restore.

Module RoundTrip.

(** ** Restored records *)

(** The column of [rec] in the buffer after [decode]. *)
Definition restored_column (tbl : TABLE) (field : Field) (rec buf : bytes) : bytes :=
  if real_maybe_null field then
    if is_real_null field rec
    then write_at (ptr field) (take (pack_length field) (drop (ptr field) (default_values tbl))) (set_null field buf)
    else stored field rec (set_notnull field buf)
  else stored field rec buf.

Fixpoint restored_row (tbl : TABLE) (parts : list KEY_PART_INFO) (rec buf : bytes) : bytes :=
  match parts with
  | [] => buf
  | p :: parts => restored_row tbl parts rec (restored_column tbl (kp_field p) rec buf)
  end.

(** ** Columns that are read back from their keys *)

(** The fixed-size types but BIT, and VARCHAR and VARBINARY columns in their
    full length. *)
Inductive readable_column (c : indexed_part) : Prop :=
  | readable_fixed n :
      fixed_size (kp_field c.1) = Some n -> pack_length (kp_field c.1) = n ->
      real_type (kp_field c.1) <> MYSQL_TYPE_BIT ->
      (real_type (kp_field c.1) = MYSQL_TYPE_YEAR -> unsigned_flag (kp_field c.1) = true) ->
      c.2 = fixed_ok (kp_field c.1) -> readable_column c
  | readable_varchar weights :
      varchar_column (kp_field c.1) -> kp_length c.1 = field_length (kp_field c.1) ->
      text_weights (charset (kp_field c.1)) weights ->
      c.2 = varchar_ok weights (kp_field c.1) -> readable_column c
  | readable_varbinary :
      varchar_column (kp_field c.1) -> kp_length c.1 = field_length (kp_field c.1) ->
      charset (kp_field c.1) = Collation.my_charset_bin ->
      c.2 = varchar_ok Some (kp_field c.1) -> readable_column c.

Section RoundTrip.

Context (mem : Z -> bytes).

(** A column whose value can be restored from its key. *)
Definition restorable (c : indexed_part) : Prop :=
  forall keynr part fpi0 res fpi,
    setup true (Some (kp_field c.1)) keynr part (kp_length c.1) fpi0 = Some (res, fpi) ->
    part_restored mem (with_field_length (kp_length c.1) (kp_field c.1)) (kp_field c.1) fpi c.2.

(** *** Columns that can be restored *)

Lemma restorable_fixed p n :
  fixed_size (kp_field p) = Some n -> pack_length (kp_field p) = n ->
  real_type (kp_field p) <> MYSQL_TYPE_BIT ->
  (real_type (kp_field p) = MYSQL_TYPE_YEAR -> unsigned_flag (kp_field p) = true) ->
  restorable (p, fixed_ok (kp_field p)).
Proof.
  intros Hn Hl Hb Hy keynr part fpi0 res fpi E.
  destruct (restored_fixed mem (kp_field p) (kp_length p) keynr part fpi0 n Hn Hl Hb Hy) as (res' & fpi' & E' & H).
  cbn [fst] in E. rewrite E in E'. injection E' as <- <-. exact H.
Qed.

(** A VARCHAR column that is indexed in its full length. *)
Lemma restorable_varchar p ok :
  varchar_column (kp_field p) -> kp_length p = field_length (kp_field p) ->
  (forall keynr part fpi0, exists fpi,
     setup true (Some (kp_field p)) keynr part (field_length (kp_field p)) fpi0 = Some (true, fpi) /\
     part_restored mem (kp_field p) (kp_field p) fpi ok) ->
  restorable (p, ok).
Proof.
  intros Hc Hl H keynr part fpi0 res fpi E. cbn [fst snd] in *. rewrite Hl in *. rewrite with_field_length_same by done.
  destruct (H keynr part fpi0) as (fpi' & E' & Hr). rewrite E in E'. injection E' as -> <-. exact Hr.
Qed.

Lemma readable_restorable c : readable_column c -> restorable c.
Proof.
  destruct c as [p ok]. intros [n Hn Hl Hb Hy Hok|weights Hc Hl Hw Hok|Hc Hl Hcs Hok]; cbn [fst snd] in *; subst ok.
  - by apply (restorable_fixed p n).
  - apply restorable_varchar; [done..|]. intros keynr part fpi0. inversion Hw as [E|E|E|E]; subst weights.
    + pose proof restorable_latin1_bin as Hi. pose proof latin1_bin_spaces as Hsp. rewrite E in Hi, Hsp.
      apply (restored_varchar_bin mem _ keynr part fpi0 1 8 32 32 _ _ _ Hc Hsp); rewrite <- E; [by left|done].
    + pose proof Collation.padspace_latin1 as Hi. pose proof latin1_spaces as Hsp. rewrite E in Hi, Hsp.
      apply (restored_varchar_simple mem _ keynr part fpi0 8 32 _ Hc Hsp); rewrite <- ?E; try done.
      split; [exact Latin1.sort_order_latin1_ok|exact Latin1.sort_order_latin1_space].
    + pose proof restorable_utf8mb3_bin as Hi. pose proof utf8mb3_bin_spaces as Hsp. rewrite E in Hi, Hsp.
      apply (restored_varchar_bin mem _ keynr part fpi0 2 4 16 32 _ _ _ Hc Hsp); rewrite <- E; [by right; left|done].
    + pose proof restorable_utf8mb4_bin as Hi. pose proof utf8mb4_bin_spaces as Hsp. rewrite E in Hi, Hsp.
      apply (restored_varchar_bin mem _ keynr part fpi0 3 3 11 32 _ _ _ Hc Hsp); rewrite <- E; [by right; right|done].
  - apply restorable_varchar; [done..|]. intros keynr part fpi0. by apply restored_varbinary.
Qed.

Lemma readable_columns cols : Forall readable_column cols -> Forall restorable cols.
Proof. apply Forall_impl. exact readable_restorable. Qed.

(** ** One column *)

(** The call of the unpack function in [decode], on what was packed. *)
Lemma call_unpack_decode info field (f : unpack_func) key inf rec buf rest urest (has_unpack_info : bool) :
  call_unpack f info field buf (key ++ rest) (Some (inf ++ urest)) = Some (stored field rec buf, rest, Some urest) ->
  (inf = [] -> uses_unpack_info info = true ->
   call_unpack f info field buf (key ++ rest) None = Some (stored field rec buf, rest, None)) ->
  has_unpack_info = true \/ inf = [] ->
  match call_unpack f info field buf (key ++ rest)
          (if negb has_unpack_info && uses_unpack_info info then None else Some (inf ++ urest)) with
  | None => None
  | Some (buf, reader, Some unpack_reader) => Some (buf, reader, unpack_reader)
  | Some (buf, reader, None) => Some (buf, reader, inf ++ urest)
  end = Some (stored field rec buf, rest, urest).
Proof.
  intros H1 H2 Hh. destruct has_unpack_info; simpl; [by rewrite H1|]. destruct Hh as [|Hinf]; [done|].
  destruct (uses_unpack_info info); simpl; [|by rewrite H1].
  rewrite H2 by done. by rewrite Hinf.
Qed.

(** [pack_part], then [decode]: [inf] is the unpack info of the column. *)
Lemma part_roundtrip uninit tbl c info rec st w0 :
  part_packed mem uninit tbl c info -> restorable c ->
  is_real_null (kp_field c.1) rec = true \/ c.2 rec ->
  ps_unpack_info st = Some w0 -> bytes_ok w0 ->
  exists key inf st', pack_part mem tbl info rec st = Some st' /\
    ps_tuple st' = ps_tuple st ++ key /\ ps_unpack_info st' = Some (w0 ++ inf) /\ bytes_ok inf /\
    forall has_unpack_info buf rest urest, bytes_ok urest -> has_unpack_info = true \/ inf = [] ->
      decode tbl info (kp_field c.1) has_unpack_info buf (key ++ rest) (inf ++ urest) =
        Some (restored_column tbl (kp_field c.1) rec buf, rest, urest).
Proof.
  intros Hpp Hres Hok Hw Hw0. destruct (pp_setup _ _ _ _ _ Hpp) as (res & Hset).
  destruct (Hres _ _ _ _ _ Hset) as (f & Hf & Hr).
  destruct (pp_packs _ _ _ _ _ Hpp) as ((f0 & Hf0 & Ef0) & _). cbn [column_of col_field] in Ef0.
  pose proof (pp_maybe_null _ _ _ _ _ Hpp) as Hmn.
  set (field := kp_field c.1) in *. set (packed := with_field_length (kp_length c.1) field) in *.
  assert (real_maybe_null packed = real_maybe_null field) as Hm by done.
  assert (is_real_null packed rec = is_real_null field rec) as Hn by done.
  unfold pack_part, pack_field. rewrite Hf0, <- Ef0, Hm, Hn, Hw.
  unfold decode, decode_field, restored_column. rewrite Hmn, Hf.
  destruct (is_real_null field rec) eqn:En.
  - rewrite (is_real_null_maybe _ _ En). exists [0], []. eexists. split; [reflexivity|].
    rewrite app_nil_r. split_and!; [done|done|apply bytes_ok_nil|].
    intros has buf rest urest _ _. rewrite read_key by done. simpl. by destruct (negb has && _).
  - destruct Hok as [?|Hok]; [congruence|]. destruct (Hr rec w0 Hok Hw0) as (inf & Hinf & Hp & Hu). rewrite Hp.
    destruct (real_maybe_null field).
    + eexists (1 :: _), inf. eexists. split; [reflexivity|]. split_and!; [done|done|done|].
      intros has buf rest urest Hur Hh. rewrite <- app_comm_cons.
      change (1 :: ?l) with ([1] ++ l). rewrite read_key by done. cbn [nth]. 
      destruct (Hu (set_notnull field buf) rest urest Hur) as [H1 H2]. by apply call_unpack_decode.
    + eexists _, inf. eexists. split; [reflexivity|]. split_and!; [done|done|done|].
      intros has buf rest urest Hur Hh. destruct (Hu buf rest urest Hur) as [H1 H2].
      by apply call_unpack_decode.
Qed.

(** ** All columns *)

(** The iterator over parts that can be unpacked. *)
Lemma iterate_next tbl it info infos fuel field f buf reader unp :
  it_infos it = info :: infos -> (it_hidden_pk_exists it = true -> infos <> []) -> it_is_hidden_pk it = false ->
  get_field_in_table info tbl = Some field -> m_unpack_func info = Some f ->
  decode tbl info field (it_has_unpack_info it) (it_buf it) (it_reader it) (it_unp_reader it) =
    Some (buf, reader, unp) ->
  iterate (S fuel) tbl it = iterate fuel tbl (it_move it infos reader unp buf).
Proof.
  intros Hi Hh Hp Hf Hu Hd. cbn [iterate]. unfold has_next, next. rewrite Hi. cbn [next_loop].
  assert (it_hidden_pk_exists it && bool_decide (infos = []) = false) as Hl.
  { destruct (it_hidden_pk_exists it); [|done]. by apply bool_decide_eq_false_2, Hh. }
  by rewrite <- andb_assoc, Hl, Hp, andb_false_r, Hf, Hu, Hd.
Qed.

Lemma restorable_unpack_func uninit tbl c info :
  part_packed mem uninit tbl c info -> restorable c -> exists f, m_unpack_func info = Some f.
Proof.
  intros Hpp Hres. destruct (pp_setup _ _ _ _ _ Hpp) as (res & Hset).
  destruct (Hres _ _ _ _ _ Hset) as (f & Hf & _). by exists f.
Qed.

(** Packing the columns, then unpacking them; a hidden primary key may
    follow. *)
Lemma columns_roundtrip uninit tbl usk hidden cols infos more rec n i st w0 :
  Forall2 (part_packed mem uninit tbl) cols infos -> Forall restorable cols -> row_ok cols rec ->
  ps_unpack_info st = Some w0 -> bytes_ok w0 ->
  (i + length cols + match hidden with Some _ => 1 | None => 0 end <= n)%nat ->
  exists key inf st', pack_record_loop mem tbl rec usk hidden n i (infos ++ more) st =
      pack_record_loop mem tbl rec usk hidden n (i + length cols) more st' /\
    ps_tuple st' = ps_tuple st ++ key /\ ps_unpack_info st' = Some (w0 ++ inf) /\ bytes_ok inf /\
    forall it rest urest m, bytes_ok urest ->
      it_infos it = infos ++ more -> (it_hidden_pk_exists it = true -> more <> []) -> it_is_hidden_pk it = false ->
      it_reader it = key ++ rest -> it_unp_reader it = inf ++ urest ->
      it_has_unpack_info it = true \/ inf = [] ->
      iterate (length infos + m) tbl it =
        iterate m tbl (it_move it more rest urest (restored_row tbl (map fst cols) rec (it_buf it))).
Proof.
  intros Hp. revert i st w0. induction Hp as [|c info cols infos Hc Hcs IH]; intros i st w0 Hres Hok Hw Hw0 Hn.
  { exists [], [], st. rewrite !app_nil_r, Nat.add_0_r. split_and!; try done.
    - apply bytes_ok_nil.
    - intros it rest urest m _ Hi _ _ Hr Hu _. simpl in *. f_equal. destruct it. simpl in *. by subst. }
  apply Forall_cons_iff in Hres as [Hres Hress]. apply Forall_cons_iff in Hok as [Hok Hoks]. simpl in Hn.
  cbn [pack_record_loop app]. rewrite (proj2 (Nat.leb_gt _ _)) by lia.
  match goal with |- context [pack_part _ _ _ _ ?s] => set (st0 := s) end.
  destruct (part_roundtrip uninit tbl c info rec st0 w0 Hc Hres Hok Hw Hw0)
    as (key & inf & st1 & -> & Ht & Hw1 & Hinf & Hd).
  destruct (IH (S i) st1 (w0 ++ inf) Hress Hoks Hw1 ltac:(by apply bytes_ok_app) ltac:(lia))
    as (key' & inf' & st' & E' & Ht' & Hw' & Hinf' & Hit).
  exists (key ++ key'), (inf ++ inf'), st'. split_and!.
  - cbn [length]. rewrite <- Nat.add_succ_comm. destruct hidden; [|done].
    by rewrite (proj2 (Nat.eqb_neq _ _)) by lia.
  - by rewrite Ht', Ht, app_assoc.
  - by rewrite Hw', app_assoc.
  - by apply bytes_ok_app.
  - intros it rest urest m Hur Hi Hh Hhp Hr Hu Hhas.
    destruct (restorable_unpack_func uninit tbl c info Hc Hres) as [f Hf].
    assert (it_has_unpack_info it = true \/ inf = []) as Hh1.
    { destruct Hhas as [|Hnil]; [by left|]. right. by apply app_nil in Hnil as [? _]. }
    assert (it_has_unpack_info it = true \/ inf' = []) as Hh2.
    { destruct Hhas as [|Hnil]; [by left|]. right. by apply app_nil in Hnil as [_ ?]. }
    cbn [length Nat.add]. rewrite (iterate_next tbl it info (infos ++ more) (length infos + m) (kp_field c.1) f
      (restored_column tbl (kp_field c.1) rec (it_buf it)) (key' ++ rest) (inf' ++ urest)); try done.
    + by rewrite (Hit (it_move it (infos ++ more) (key' ++ rest) (inf' ++ urest)
        (restored_column tbl (kp_field c.1) rec (it_buf it))) rest urest m).
    + intros He Hnil. apply app_nil in Hnil as [_ Hnil]. by apply (Hh He).
    + apply (pp_field _ _ _ _ _ Hc).
    + rewrite Hr, Hu, <- !app_assoc. apply Hd; [|done]. by apply bytes_ok_app.
Qed.

(** ** The header of the unpack info *)

Lemma finish_unpack_info_spec inf :
  let w := finish_unpack_info (Rd.write_uint16 0 [] ++ inf) in
  if (length inf =? 0)%nat then w = []
  else length w = (2 + length inf)%nat /\
    (Z.of_nat (length w) < 65536 -> Rd.read_uint16 w = Some (Z.of_nat (length w), inf)).
Proof.
  cbv zeta. unfold finish_unpack_info. rewrite length_app.
  change (length (Rd.write_uint16 0 [])) with 2%nat. destruct (Nat.eqb_spec (length inf) 0) as [E|E].
  { by rewrite (proj2 (Nat.ltb_ge _ _)) by (unfold MONO_UNPACK_DATA_LEN_SIZE; lia). }
  rewrite (proj2 (Nat.ltb_lt _ _)) by (unfold MONO_UNPACK_DATA_LEN_SIZE; lia).
  unfold Rd.write_uint16_at. rewrite write_at_0, length_le_bytes.
  change (drop 2 (Rd.write_uint16 0 [] ++ inf)) with inf.
  rewrite length_app, length_le_bytes. split; [done|]. intros Hl.
  exact (Rd.read_uint16_write [] (Z.of_nat (2 + length inf)) inf ltac:(lia)).
Qed.

(** [unpack_record] finds the unpack info behind its header. *)
Lemma unpack_record_info kd tbl buf key inf out :
  (forall has, has = true \/ inf = [] ->
     exists it, iterate (m_key_parts kd) tbl (new_iterator kd tbl has key inf buf) = Some it /\
       it_reader it = [] /\ it_buf it = out) ->
  let w := finish_unpack_info (Rd.write_uint16 0 [] ++ inf) in
  Z.of_nat (length w) < 65536 -> unpack_record kd tbl buf key w = Some out.
Proof.
  intros Hiter w Hlw. pose proof (finish_unpack_info_spec inf) as Hfin. cbv zeta in Hfin. fold w in Hfin.
  unfold unpack_record. destruct (Nat.eqb_spec (length inf) 0) as [Ei|Ei].
  - rewrite Hfin. cbn [length Nat.eqb negb].
    apply length_zero_iff_nil in Ei. subst inf. destruct (Hiter false ltac:(by right)) as (it' & -> & -> & ->). done.
  - destruct Hfin as [Hl Hr]. rewrite (proj2 (Nat.eqb_neq _ _)) by lia. rewrite Hr, Z.eqb_refl by done.
    cbn [negb]. destruct (Hiter true ltac:(by left)) as (it' & -> & -> & ->). done.
Qed.

End RoundTrip.

(** [unpack_record] applied to the key and the unpack info that [pack_record]
    produced succeeds and consumes the whole key.  The unpack info has to fit
    the 16-bit length of its header. *)
Lemma index_restored mem uninit tbl kd0 ki cols pk_cols :
  index_definition tbl kd0 ki cols pk_cols ->
  Forall (restorable mem) (index_columns ki cols pk_cols) ->
  exists kd, key_def_setup uninit tbl kd0 = Some kd /\
    forall rec u buf, row_ok (index_columns ki cols pk_cols) rec ->
    exists st w, pack_record mem kd tbl rec (Some u) false None 0 = Some st /\ ps_unpack_info st = Some w /\
      (Z.of_nat (length w) < 65536 ->
       unpack_record kd tbl buf (ps_tuple st) w =
         Some (restored_row tbl (map fst (index_columns ki cols pk_cols)) rec buf)).
Proof.
  intros Hid Hres.
  destruct (key_def_setup_packed mem uninit tbl kd0 ki cols pk_cols Hid) as (kd & E & Hp & Ht & _).
  exists kd. split; [done|]. intros rec u buf Hrow. pose proof (index_definition_pk _ _ _ _ _ Hid) as Hh.
  set (cs := index_columns ki cols pk_cols) in *. pose proof (Forall2_length Hp) as Hlen.
  set (st0 := {| ps_tuple := []; ps_unpack_info := Some (Rd.write_uint16 0 []); ps_null_fields := 0;
                 ps_unique_sk_pack_size := None |}).
  assert (bytes_ok (Rd.write_uint16 0 [])) as Hw0 by (unfold Rd.write_uint16; auto with bytes).
  destruct (columns_roundtrip mem uninit tbl None None cs (m_pack_info kd) [] rec (length cs) 0 st0 _ Hp Hres Hrow
    eq_refl Hw0 ltac:(simpl; lia)) as (key & inf & st' & Eloop & Htup & Hinfo & Hinf & Hit).
  assert (pack_record_loop mem tbl rec None None (length cs) (0 + length cs) [] st' = Some st') as Eend
    by (simpl; by rewrite Nat.leb_refl).
  unfold pack_record, parts_to_pack. rewrite Hh. cbn [Nat.eqb orb andb]. unfold m_key_parts.
  rewrite app_nil_r, Eend in Eloop. rewrite <- Hlen. unfold Rd.clear. fold st0. rewrite Eloop, Hinfo.
  eexists _, _. split; [reflexivity|]. split; [reflexivity|]. cbn [ps_tuple]. rewrite Htup. simpl (ps_tuple st0 ++ key).
  apply unpack_record_info. intros has Hhas. unfold m_key_parts. rewrite <- (Nat.add_0_r (length _)).
  rewrite (Hit (new_iterator kd tbl has key inf buf) [] []).
  - by eexists.
  - apply bytes_ok_nil.
  - by rewrite app_nil_r.
  - simpl. by rewrite Hh.
  - simpl. apply bool_decide_eq_false_2. rewrite Ht.
    by destruct (id_primary _ _ _ _ _ Hid) as (k & pk & _ & _ & [[-> _]|[-> _]]).
  - simpl. by rewrite app_nil_r.
  - simpl. by rewrite app_nil_r.
  - done.
Qed.

End RoundTrip.
