(* ===== verification/Layout.v ===== *)
(** * Layout: the record that [unpack_record] fills

    Storing one column leaves the others alone (Placement.v), so that the
    buffer that [unpack_record] fills holds, for every column of the index,
    the NULL flag and the value of the packed record. *)

From S2P Require Import Prelude Buff Charset Latin1 Collation Field Codec Packing VarFormat SpacePad.
From S2P Require Import Varchar KeySetup KeyDef KeyOrder Index Restore RoundTrip Placement Store.
Import Field Placement Packing Varchar KeySetup KeyDef KeyOrder Index Restore RoundTrip.

Module Layout.

(** ** Storing a column *)

(** The bytes [stored] writes. *)
Definition stored_image (f : Field) (rec : bytes) : bytes :=
  match real_type f with
  | MYSQL_TYPE_VARCHAR =>
      let value := varstring_data f (data f rec) in store_length f (length value) ++ value
  | MYSQL_TYPE_FLOAT => normal_image 4 (data f rec)
  | MYSQL_TYPE_DOUBLE => normal_image 8 (data f rec)
  | _ => column_bytes f rec
  end.

(** A value that fits the column. *)
Definition image_fits (f : Field) (rec : bytes) : Prop :=
  (length (stored_image f rec) <= pack_length f)%nat /\
  (real_type f = MYSQL_TYPE_VARCHAR -> length_bytes f = 1%nat \/ length_bytes f = 2%nat).

Lemma length_store_length f n : length_bytes f = 1%nat \/ length_bytes f = 2%nat ->
  length (store_length f n) = length_bytes f.
Proof. unfold store_length. intros [-> | ->]; done. Qed.

Lemma stored_eq f rec buf :
  image_fits f rec -> (ptr f + pack_length f <= length buf)%nat ->
  stored f rec buf = write_at (ptr f) (stored_image f rec) buf.
Proof.
  intros [Hl Hlb] Hfit. unfold stored, stored_image in *. destruct (real_type f); try done.
  unfold store_varstring. rewrite length_app in Hl.
  rewrite <- (length_store_length f (length (varstring_data f (data f rec)))) by auto.
  apply write_at_prefix. lia.
Qed.

(** What the buffer holds of a column of [rec]. *)
Definition holds (f : Field) (rec buf : bytes) : Prop :=
  is_real_null f buf = is_real_null f rec /\
  (is_real_null f rec = false ->
   take (length (stored_image f rec)) (column_bytes f buf) = stored_image f rec).

Lemma stored_same size f rec buf :
  placed size f -> self_apart f -> length buf = size -> image_fits f rec ->
  take (length (stored_image f rec)) (column_bytes f (stored f rec buf)) = stored_image f rec /\
  is_real_null f (stored f rec buf) = is_real_null f buf.
Proof.
  intros Hp Hs Hl Hi. pose proof (pl_fits _ _ Hp). rewrite stored_eq by (done || lia). destruct Hi as [Hi _]. split.
  - unfold column_bytes, data. rewrite take_take, Nat.min_l by done. apply write_at_same. lia.
  - unfold is_real_null. destruct (null_ptr f) as [o|] eqn:E; [|done].
    destruct (Hs o E); rewrite write_at_nth by lia; done.
Qed.

(** ** Restoring columns *)

Section Rows.

Context (tbl : TABLE) (size : nat) (Hdef : length (default_values tbl) = size).

Lemma length_restored_column f rec buf :
  placed size f -> length buf = size -> (is_real_null f rec = false -> image_fits f rec) ->
  length (restored_column tbl f rec buf) = size.
Proof.
  intros Hp Hl Hi. pose proof (pl_fits _ _ Hp). unfold restored_column.
  assert (forall is_null, length (set_null_bit f is_null buf) = size) as Hn by (intros; by rewrite length_set_null_bit).
  pose proof (Hn true) as Hn1. pose proof (Hn false) as Hn2. unfold set_null_bit in Hn1, Hn2.
  assert (forall b, length b = size -> is_real_null f rec = false -> length (stored f rec b) = size) as Hst.
  { intros b Hb Hr. specialize (Hi Hr). rewrite stored_eq by (done || lia). destruct Hi as [Hi _].
    rewrite length_write_at; lia. }
  destruct (real_maybe_null f) eqn:Em.
  - destruct (is_real_null f rec) eqn:En; [|by apply Hst].
    rewrite length_write_at; [done|]. rewrite length_take, length_drop. lia.
  - apply Hst; [done|]. destruct (is_real_null f rec) eqn:En; [|done].
    apply is_real_null_maybe in En. congruence.
Qed.

(** The column itself. *)
Lemma restored_column_holds f rec buf :
  placed size f -> self_apart f -> length buf = size -> (is_real_null f rec = false -> image_fits f rec) ->
  holds f rec (restored_column tbl f rec buf).
Proof.
  intros Hp Hs Hl Hi. unfold restored_column, holds. pose proof (pl_fits _ _ Hp).
  destruct (real_maybe_null f) eqn:Em.
  - unfold real_maybe_null in Em. destruct (null_ptr f) as [o|] eqn:Eo; [|done].
    destruct (is_real_null f rec) eqn:En.
    + destruct (set_null_bit_same size f true buf o Hp Hs Hl Eo) as [_ Hb]. simpl in Hb.
      split; [|done]. unfold is_real_null in Hb |- *. rewrite Eo in *.
      destruct (Hs o Eo); rewrite write_at_nth;
        rewrite ?length_set_null_bit, ?length_take, ?length_drop; try done;
        unfold set_null; rewrite ?Eo, ?length_insert; lia.
    + destruct (set_null_bit_same size f false buf o Hp Hs Hl Eo) as [_ Hb]. simpl in Hb.
      destruct (stored_same size f rec (set_notnull f buf) Hp Hs) as [H1 H2]; [|by apply Hi|].
      * by rewrite <- (length_set_null_bit f false buf) in Hl.
      * by rewrite H2, Hb.
  - assert (forall b, is_real_null f b = false) as Hn.
    { intros b. unfold is_real_null, real_maybe_null in *. by destruct (null_ptr f). }
    rewrite !Hn. split; [done|]. intros _. by apply (stored_same size); [..|apply Hi].
Qed.

(** The other columns. *)
Lemma restored_column_other f g rec rec' buf :
  placed size f -> placed size g -> apart f g -> length buf = size ->
  (is_real_null f rec = false -> image_fits f rec) ->
  holds g rec' buf -> holds g rec' (restored_column tbl f rec buf).
Proof.
  intros Hf Hg Ha Hl Hi [H1 H2].
  assert (column_bytes g (restored_column tbl f rec buf) = column_bytes g buf /\
    is_real_null g (restored_column tbl f rec buf) = is_real_null g buf) as [E1 E2].
  { pose proof (pl_fits _ _ Hf). unfold restored_column.
    assert (forall b, length b = size -> is_real_null f rec = false ->
      column_bytes g (stored f rec b) = column_bytes g b /\ is_real_null g (stored f rec b) = is_real_null g b) as Hst.
    { intros b Hb Hr. specialize (Hi Hr). rewrite stored_eq by (done || lia). destruct Hi as [Hi _].
      by apply (write_column_other size). }
    destruct (real_maybe_null f) eqn:Em.
    - destruct (is_real_null f rec) eqn:En.
      + destruct (set_null_bit_other size f g true buf Hf Hg Ha Hl) as [<- <-].
        apply (write_column_other size); try done; [by rewrite length_set_null_bit|rewrite length_take; lia].
      + destruct (set_null_bit_other size f g false buf Hf Hg Ha Hl) as [<- <-].
        apply Hst; [by rewrite length_set_null_bit|done].
    - apply Hst; [done|]. destruct (is_real_null f rec) eqn:En; [|done].
      apply is_real_null_maybe in En. congruence. }
  unfold holds. by rewrite E1, E2.
Qed.

(** Columns of a row: placed, and pairwise apart. *)
Fixpoint laid_out (parts : list KEY_PART_INFO) : Prop :=
  match parts with
  | [] => True
  | p :: parts =>
      placed size (kp_field p) /\ self_apart (kp_field p) /\
      Forall (fun q => apart (kp_field p) (kp_field q) /\ apart (kp_field q) (kp_field p)) parts /\
      laid_out parts
  end.

Definition row_fits (parts : list KEY_PART_INFO) (rec : bytes) : Prop :=
  Forall (fun p => is_real_null (kp_field p) rec = false -> image_fits (kp_field p) rec) parts.

Lemma laid_out_placed parts : laid_out parts -> Forall (fun p => placed size (kp_field p)) parts.
Proof. induction parts as [|p parts IH]; [done|]. intros (Hp & _ & _ & Hr). constructor; auto. Qed.

Lemma length_restored_row parts rec buf :
  laid_out parts -> row_fits parts rec -> length buf = size -> length (restored_row tbl parts rec buf) = size.
Proof.
  revert buf. induction parts as [|p parts IH]; intros buf Hlo Hfit Hl; [done|].
  destruct Hlo as (Hp & _ & _ & Hlo). apply Forall_cons_iff in Hfit as [Hf Hfit]. simpl.
  apply IH; try done. by apply length_restored_column.
Qed.

Lemma restored_row_other parts g rec rec' buf :
  laid_out parts -> row_fits parts rec -> placed size g ->
  Forall (fun p => apart (kp_field p) g) parts -> length buf = size ->
  holds g rec' buf -> holds g rec' (restored_row tbl parts rec buf).
Proof.
  revert buf. induction parts as [|p parts IH]; intros buf Hlo Hfit Hg Ha Hl Hh; [done|].
  destruct Hlo as (Hp & _ & _ & Hlo). apply Forall_cons_iff in Hfit as [Hf Hfit].
  apply Forall_cons_iff in Ha as [Hag Ha]. simpl. apply IH; try done.
  - by apply length_restored_column.
  - by apply restored_column_other.
Qed.

Lemma restored_row_holds parts rec buf :
  laid_out parts -> row_fits parts rec -> length buf = size ->
  Forall (fun p => holds (kp_field p) rec (restored_row tbl parts rec buf)) parts.
Proof.
  revert buf. induction parts as [|p parts IH]; intros buf Hlo Hfit Hl; [done|].
  destruct Hlo as (Hp & Hs & Ha & Hlo). apply Forall_cons_iff in Hfit as [Hf Hfit]. simpl.
  constructor; [|apply IH; [done|done|by apply length_restored_column]].
  apply restored_row_other; try done.
  - eapply Forall_impl; [|exact Ha]. by intros q [_ Hq].
  - by apply length_restored_column.
  - by apply restored_column_holds.
Qed.

End Rows.

(** ** Values *)

(** The column has the same value in [buf] as in [rec]: the same string, a
    number that compares equal, or the same bytes. *)
Definition same_value (f : Field) (rec buf : bytes) : Prop :=
  match real_type f with
  | MYSQL_TYPE_VARCHAR => varstring_data f (data f buf) = varstring_data f (data f rec)
  | MYSQL_TYPE_FLOAT | MYSQL_TYPE_DOUBLE => column_cmp f buf rec = Eq
  | _ => column_bytes f buf = column_bytes f rec
  end.

Lemma varstring_length_stored f value rest :
  length_bytes f = 1%nat \/ length_bytes f = 2%nat ->
  Z.of_nat (length value) < 256 ^ Z.of_nat (length_bytes f) ->
  varstring_length f ((store_length f (length value) ++ value) ++ rest) = length value.
Proof.
  intros Hlb Hl. unfold varstring_length. pose proof (length_store_length f (length value) Hlb) as Hsl.
  rewrite <- app_assoc. unfold store_length in *. destruct Hlb as [E|E]; rewrite E in *.
  - change (256 ^ Z.of_nat 1) with 256 in Hl. cbn [Nat.eqb app nth]. rewrite uchar_of_id; [lia|]. unfold byte_ok. lia.
  - change (2 =? 1)%nat with false. cbv iota. rewrite take_app_length' by done.
    rewrite le_val_le_bytes. rewrite Z.mod_small by lia. lia.
Qed.

Lemma varstring_stored f value rest :
  length_bytes f = 1%nat \/ length_bytes f = 2%nat ->
  Z.of_nat (length value) < 256 ^ Z.of_nat (length_bytes f) ->
  varstring_data f ((store_length f (length value) ++ value) ++ rest) = value.
Proof.
  intros Hlb Hl. unfold varstring_data. rewrite varstring_length_stored by done.
  pose proof (length_store_length f (length value) Hlb) as Hsl.
  rewrite <- app_assoc, (drop_app_length' _ _ (length_bytes f)) by done. by rewrite take_app_length.
Qed.

(** The length of a value fits the length bytes. *)
Lemma varchar_length_bound weights f rec : varchar_ok weights f rec ->
  Z.of_nat (varstring_length f (data f rec)) < 256 ^ Z.of_nat (length_bytes f).
Proof.
  intros Hok. unfold varstring_length. assert (bytes_ok (data f rec)) as Hb by (apply bytes_ok_drop, (vo_bytes Hok)).
  destruct (vo_length_bytes Hok) as [E|E]; rewrite E.
  - simpl Nat.eqb. cbv iota. change (256 ^ Z.of_nat 1) with 256.
    destruct (data f rec) as [|b l]; [simpl; lia|]. apply bytes_ok_cons in Hb as [Hb _]. unfold byte_ok in Hb. simpl. lia.
  - simpl Nat.eqb. cbv iota.
    pose proof (le_val_bound (take 2 (data f rec)) ltac:(auto with bytes)) as B.
    assert (256 ^ Z.of_nat (length (take 2 (data f rec))) <= 256 ^ Z.of_nat 2).
    { apply Z.pow_le_mono_r; [lia|]. rewrite length_take. lia. }
    lia.
Qed.

(** A buffer that starts with the image. *)
Lemma holds_data f rec buf : holds f rec buf -> is_real_null f rec = false ->
  exists rest, data f buf = stored_image f rec ++ rest.
Proof.
  intros [_ H] Hn. specialize (H Hn). unfold column_bytes in H. rewrite take_take in H.
  set (k := Nat.min _ _) in H. exists (drop k (data f buf)). rewrite <- H at 1. by rewrite take_drop.
Qed.

Lemma varchar_same_value weights f rec buf :
  real_type f = MYSQL_TYPE_VARCHAR -> varchar_ok weights f rec -> is_real_null f rec = false ->
  holds f rec buf -> same_value f rec buf.
Proof.
  intros Ht Hok Hn Hh. destruct (holds_data f rec buf Hh Hn) as [rest Hd].
  unfold same_value, stored_image in *. rewrite Ht in *. rewrite Hd.
  apply varstring_stored; [apply (vo_length_bytes Hok)|].
  rewrite (varstring_data_length _ _ _ Hok). by apply (varchar_length_bound weights).
Qed.

Lemma ieee_value_zero n k bits : 1 < k < 15 -> (2 <= n)%nat ->
  0 <= bits < 2 * 2 ^ (8 * Z.of_nat n - 1) -> ieee_is_zero n bits = true -> ieee_value n k bits = 0.
Proof.
  intros Hk Hn Hb Hz. unfold ieee_is_zero in Hz. apply Z.eqb_eq in Hz.
  rewrite ieee_value_eq by done. set (half := 2 ^ (8 * Z.of_nat n - 1)) in *.
  destruct (Z.ltb_spec bits half).
  - rewrite Z.mod_small in Hz by lia. subst. by apply magnitude_0.
  - assert (bits - half = 0) as ->.
    { rewrite <- (Z.mod_small (bits - half) half) by lia.
      replace (bits - half) with (bits + (-1) * half) by lia. rewrite Z.mod_add by lia. done. }
    by rewrite magnitude_0.
Qed.

(** The image of a floating-point number has its value. *)
Lemma normal_image_value n k p rest : 1 < k < 15 -> (2 <= n)%nat -> image_ok n p ->
  ieee_value n k (le_val (take n (normal_image n p ++ rest))) = ieee_value n k (le_val (take n p)).
Proof.
  intros Hk Hn Hp. pose proof (image_val_bound n p ltac:(lia) Hp) as Hb. destruct Hp as [Hok Hl].
  unfold normal_image. destruct (ieee_is_zero n (le_val (take n p))) eqn:Ez.
  - rewrite take_app_length' by (by rewrite length_replicate).
    rewrite (ieee_value_zero n k _ Hk Hn Hb Ez).
    assert (le_val (replicate n 0) = 0) as ->.
    { clear. induction n as [|n IH]; [done|]. cbn [replicate le_val]. rewrite IH. lia. }
    apply ieee_value_zero; [done|done|lia|]. unfold ieee_is_zero.
    rewrite Z.mod_0_l; [done|]. apply Z.pow_nonzero; lia.
  - rewrite take_app_length'; [done|]. rewrite length_take. lia.
Qed.

Lemma number_same_value size f rec buf :
  (real_type f = MYSQL_TYPE_FLOAT /\ pack_length f = 4%nat \/
   real_type f = MYSQL_TYPE_DOUBLE /\ pack_length f = 8%nat) ->
  placed size f -> fixed_ok f rec -> is_real_null f rec = false -> holds f rec buf -> same_value f rec buf.
Proof.
  intros Ht _ Hok Hn Hh. destruct (holds_data f rec buf Hh Hn) as [rest Hd].
  unfold same_value, stored_image, column_cmp, fixed_ok in *.
  destruct Ht as [[Ht Hl]|[Ht Hl]]; rewrite Ht in *; rewrite Hd; destruct Hok as [Hok _].
  - unfold float_cmp. rewrite normal_image_value; [apply Z.compare_refl|unfold FLT_EXP_DIG; lia|lia|done].
  - unfold double_cmp. rewrite normal_image_value; [apply Z.compare_refl|unfold DBL_EXP_DIG; lia|lia|done].
Qed.

Lemma bytes_same_value f rec buf :
  stored_image f rec = column_bytes f rec -> length (column_bytes f rec) = pack_length f ->
  is_real_null f rec = false -> holds f rec buf -> column_bytes f buf = column_bytes f rec.
Proof.
  intros Hs Hl Hn [_ H]. specialize (H Hn). rewrite Hs, Hl in H. unfold column_bytes in H at 1.
  by rewrite take_take, Nat.min_id in H.
Qed.

Lemma varchar_image_fits weights f rec : varchar_column f -> varchar_ok weights f rec -> image_fits f rec.
Proof.
  intros Hc Hok. unfold image_fits, stored_image. rewrite (vc_type _ Hc).
  split; [|intros _; apply (vo_length_bytes Hok)].
  rewrite length_app, length_store_length by apply (vo_length_bytes Hok).
  rewrite (varstring_data_length _ _ _ Hok), (vo_pack_length Hok). pose proof (vo_length Hok). lia.
Qed.

(** What is stored of a value of a supported column fits the column and is
    the value. *)
Lemma supported_value size f len ok rec :
  placed size f -> supported f len ok -> ok rec ->
  image_fits f rec /\
  forall buf, is_real_null f rec = false -> holds f rec buf -> same_value f rec buf.
Proof.
  intros Hp [n Hn Hl|wlen k nsp sp weights Hc -> _ _ _|Hc -> _] Hok.
  - pose proof (Restore.fixed_ok_image f n rec Hn (pl_type _ _ Hp) Hok) as [Hb Hlen].
    assert (length (column_bytes f rec) = pack_length f) as Hcl.
    { unfold column_bytes. rewrite length_take. lia. }
    split.
    + unfold image_fits, stored_image. unfold fixed_size in Hn.
      destruct (real_type f); try done; (split; [|done]);
        try (rewrite Hcl; lia); injection Hn as <-; unfold normal_image;
        (case_match; [rewrite length_replicate|rewrite length_take]; lia).
    + intros buf Hnn Hh. unfold same_value.
      destruct (real_type f) eqn:Ht; try discriminate Hn;
        try (apply bytes_same_value; [by unfold stored_image; rewrite Ht|done..]);
        unfold fixed_size in Hn; rewrite Ht in Hn; try discriminate Hn; injection Hn as Hn;
        pose proof (number_same_value size f rec buf) as Hv; unfold same_value in Hv; rewrite Ht in Hv; apply Hv;
        rewrite ?Hl, <- ?Hn; auto.
  - split; [by apply (varchar_image_fits weights)|]. intros buf Hnn Hh.
    by apply (varchar_same_value weights); [apply vc_type|..].
  - split; [by apply (varchar_image_fits Some)|]. intros buf Hnn Hh.
    by apply (varchar_same_value Some); [apply vc_type|..].
Qed.

(** ** The columns of an index *)

Definition column_kept (rec buf : bytes) (p : KEY_PART_INFO) : Prop :=
  is_real_null (kp_field p) buf = is_real_null (kp_field p) rec /\
  (is_real_null (kp_field p) rec = false -> same_value (kp_field p) rec buf).

Lemma columns_fit tbl size cols rec :
  Forall (indexed tbl) cols -> laid_out size (map fst cols) -> row_ok cols rec -> row_fits (map fst cols) rec.
Proof.
  intros Hin Hlo Hrow. pose proof (laid_out_placed size _ Hlo) as Hpl. rewrite Forall_fmap in Hpl.
  apply Forall_fmap. unfold row_ok in Hrow. rewrite !Forall_forall in *. intros c Hc Hn. destruct (Hin c Hc) as [Hs _].
  destruct (Hrow c Hc) as [|Hv]; [congruence|]. by apply (supported_value size _ _ _ _ (Hpl c Hc) Hs).
Qed.

(** A column that holds the image of the row has its value. *)
Lemma held_kept tbl size c rec out :
  placed size (kp_field c.1) -> indexed tbl c -> is_real_null (kp_field c.1) rec = true \/ c.2 rec ->
  holds (kp_field c.1) rec out -> column_kept rec out c.1.
Proof.
  intros Hp [Hs _] Hrow Hh. split; [apply Hh|]. intros Hn. destruct Hrow as [|Hv]; [congruence|].
  by apply (supported_value size _ _ _ _ Hp Hs Hv).
Qed.

(** The row that [unpack_record] stores. *)
Lemma restored_row_kept tbl size cols rec buf :
  length (default_values tbl) = size -> Forall (indexed tbl) cols -> laid_out size (map fst cols) ->
  row_ok cols rec -> length buf = size ->
  Forall (column_kept rec (restored_row tbl (map fst cols) rec buf)) (map fst cols).
Proof.
  intros Hdef Hin Hlo Hrow Hl. pose proof (columns_fit tbl size cols rec Hin Hlo Hrow) as Hfit.
  pose proof (laid_out_placed size _ Hlo) as Hpl. rewrite Forall_fmap in Hpl.
  pose proof (restored_row_holds tbl size Hdef (map fst cols) rec buf Hlo Hfit Hl) as Hh.
  rewrite Forall_fmap in Hh |- *. unfold row_ok in Hrow. rewrite !Forall_forall in *. intros c Hc.
  apply (held_kept tbl size); [by apply Hpl|by apply Hin|by apply Hrow|by apply Hh].
Qed.

(** C4: reading a row back from an index.  For an index on columns of the
    fixed-size types but BIT and on whole VARCHAR and VARBINARY columns of the
    character sets latin1, utf8mb3, utf8mb4 and binary ([readable_column]), which
    lie apart in the record, [unpack_record] applied to the key
    and the unpack info that [pack_record] produced succeeds, and for every
    column of the index the record buffer then has the NULL flag and, unless
    it is NULL, the value of the packed record.  The unpack info has to fit
    the 16-bit length of its header. *)
Theorem index_roundtrip mem uninit tbl kd0 ki cols pk_cols :
  index_definition tbl kd0 ki cols pk_cols ->
  Forall readable_column (index_columns ki cols pk_cols) ->
  laid_out (length (default_values tbl)) (map fst (index_columns ki cols pk_cols)) ->
  exists kd, key_def_setup uninit tbl kd0 = Some kd /\
    forall rec u buf, row_ok (index_columns ki cols pk_cols) rec -> length buf = length (default_values tbl) ->
    exists st w, pack_record mem kd tbl rec (Some u) false None 0 = Some st /\ ps_unpack_info st = Some w /\
      (Z.of_nat (length w) < 65536 ->
       exists buf', unpack_record kd tbl buf (ps_tuple st) w = Some buf' /\
         Forall (column_kept rec buf') (map fst (index_columns ki cols pk_cols))).
Proof.
  intros Hid Hres%(readable_columns mem) Hlo.
  destruct (index_restored mem uninit tbl kd0 ki cols pk_cols Hid Hres) as (kd & E & H).
  exists kd. split; [done|]. intros rec u buf Hrow Hl.
  destruct (H rec u buf Hrow) as (st & w & Ep & Ew & Hu). exists st, w. split_and!; [done..|].
  intros Hw. eexists. split; [by apply Hu|].
  apply (restored_row_kept tbl (length (default_values tbl))); try done. by eapply indexed_columns.
Qed.

Lemma sample_readable : Forall readable_column (index_columns sample_sk [sample_name_part] [sample_id_part]).
Proof.
  constructor; [|constructor; [|constructor]].
  - eapply readable_varchar; [split; simpl; done || lia|done|apply Store.text_utf8mb4_bin|done].
  - by apply (readable_fixed _ 4).
Qed.

Lemma sample_restorable mem :
  Forall (restorable mem) (index_columns sample_sk [sample_name_part] [sample_id_part]).
Proof. apply readable_columns, sample_readable. Qed.

Lemma sample_laid_out : laid_out 46 [sample_name_part.1; sample_id_part.1].
Proof.
  assert (apart sample_name sample_id) as H1 by (split; simpl; [lia|intros o [= <-]; lia|done|done]).
  assert (apart sample_id sample_name) as H2 by (split; simpl; [lia|done|intros o [= <-]; lia|done]).
  split_and!; simpl; try done.
  - split; simpl; [done|lia|]. intros o [= <-]. lia.
  - intros o [= <-]. simpl. lia.
  - by constructor.
  - split_and!; [split; [done|simpl; lia|done]|done|constructor|done].
Qed.

Lemma sample_info_small :
  match key_def_setup sample_uninit sample_table sample_kd with
  | Some kd =>
      match pack_record (fun _ => []) kd sample_table sample_ann (Some []) false None 0 with
      | Some {| ps_unpack_info := Some w |} => Z.of_nat (length w) <? 65536
      | _ => false
      end
  | None => false
  end = true.
Proof. by vm_compute. Qed.

Lemma index_roundtrip_witness :
  exists kd, key_def_setup sample_uninit sample_table sample_kd = Some kd /\
    exists st w, pack_record (fun _ => []) kd sample_table sample_ann (Some []) false None 0 = Some st /\
      ps_unpack_info st = Some w /\
      exists buf', unpack_record kd sample_table (replicate 46 255) (ps_tuple st) w = Some buf' /\
        varstring_data sample_name (data sample_name buf') = [97; 110; 110].
Proof.
  destruct (index_roundtrip (fun _ => []) sample_uninit sample_table sample_kd sample_sk
    [sample_name_part] [sample_id_part] sample_index sample_readable sample_laid_out) as (kd & E & H).
  exists kd. split; [exact E|].
  destruct (H sample_ann [] (replicate 46 255)) as (st & w & Ep & Ew & Hu).
  - sample_row.
  - done.
  - exists st, w. split; [exact Ep|]. split; [exact Ew|]. destruct Hu as (buf' & Eu & Hk).
    + pose proof sample_info_small as Hs. rewrite E, Ep in Hs. destruct st. simpl in Ew. subst. by apply Z.ltb_lt.
    + exists buf'. split; [exact Eu|]. apply Forall_cons_iff in Hk as [[_ Hk] _]. by apply Hk.
Defined.

End Layout.
