(* ===== verification/KeyTuple.v ===== *)
(** * KeyTuple: search keys of the SQL layer

    The SQL layer passes the values of a search condition as a key tuple: per
    key part a NULL byte, for VARCHAR and BLOB parts a length of two bytes,
    and the value, at a fixed length.  [key_copy] makes it from a record
    (sql/key.cc), [key_restore] writes it back into a record buffer, and
    [mono_key_def::pack_index_tuple] packs that buffer into a storage key. *)

From S2P Require Import Prelude Buff Charset Latin1 Copy Collation Field Placement Store.
From S2P Require Import Codec Packing VarFormat SpacePad Varchar KeySetup KeyDef KeyOrder Index KeyRead Restore.
From S2P Require Import RoundTrip Layout.
Import Charset Field Placement Store Packing Varchar KeySetup KeyDef KeyOrder Index KeyRead Layout.

Module KeyTuple.

(** ** Key parts *)

Abbreviation HA_KEY_NULL_LENGTH := 1%nat (only parsing).
Abbreviation HA_KEY_BLOB_LENGTH := 2%nat (only parsing).

Definition is_blob (f : Field) : bool :=
  match real_type f with
  | MYSQL_TYPE_TINY_BLOB | MYSQL_TYPE_MEDIUM_BLOB | MYSQL_TYPE_LONG_BLOB | MYSQL_TYPE_BLOB
  | MYSQL_TYPE_GEOMETRY => true
  | _ => false
  end.

(** [key_part_flag & HA_BLOB_PART], [key_part_flag & HA_VAR_LENGTH_PART]. *)
Definition blob_part (p : KEY_PART_INFO) : bool := is_blob (kp_field p).
Definition var_length_part (p : KEY_PART_INFO) : bool := bool_decide (real_type (kp_field p) = MYSQL_TYPE_VARCHAR).

Definition key_part_length_bytes (p : KEY_PART_INFO) : nat :=
  if blob_part p || var_length_part p then HA_KEY_BLOB_LENGTH else 0%nat.

Definition kp_store_length (p : KEY_PART_INFO) : nat :=
  kp_length p + (if real_maybe_null (kp_field p) then HA_KEY_NULL_LENGTH else 0) + key_part_length_bytes p.

(** [key_info->key_length]. *)
Definition ki_key_length (ki : KEY) : nat := sum_list (map kp_store_length (take (user_defined_key_parts ki) (key_part ki))).

(** ** Key images *)

(** What [get_key_image] writes for a string, and how many bytes it says that
    the value has. *)
Definition varstring_get_key_image (f : Field) (len : nat) (p : bytes) : bytes * nat :=
  let val := varstring_data f p in
  let chars := (len / Collation.mbmaxlen (charset f))%nat in
  let local_char_length := if (chars =? 0)%nat then 0%nat else Collation.charpos (charset f) val chars in
  let val := if (local_char_length <? length val)%nat then take local_char_length val else val in
  (le_bytes 2 (Z.of_nat (length val)) ++ val ++ replicate (len - length val) 0,
   (HA_KEY_BLOB_LENGTH + length val)%nat).

Definition string_get_key_image (f : Field) (len : nat) (p : bytes) : bytes * nat :=
  let n := Collation.charpos (charset f) (take (field_length f) p) (len / Collation.mbmaxlen (charset f)) in
  (take n p ++ my_fill_8bit (len - n) (Collation.pad_char (charset f)), n).

(** [mem] is what the pointers of BLOB columns point to. *)
Definition blob_get_key_image (mem : Z -> bytes) (f : Field) (len : nat) (p : bytes) : bytes * nat :=
  let blob_length := Z.to_nat (le_val (take (packlength f) p)) in
  let blob := mem (le_val (take 8 (drop (packlength f) p))) in
  let local_char_length :=
    Collation.charpos (charset f) (take blob_length blob) (len / Collation.mbmaxlen (charset f)) in
  let blob_length := Nat.min blob_length local_char_length in
  let used := Nat.min len blob_length in
  (le_bytes 2 (Z.of_nat used) ++ take used blob ++ replicate (len - used) 0, (HA_KEY_BLOB_LENGTH + used)%nat).

(** The virtual call [field->get_key_image(buff, length, ptr, itRAW)]. *)
Definition get_key_image (mem : Z -> bytes) (f : Field) (len : nat) (rec : bytes) : bytes * nat :=
  match real_type f with
  | MYSQL_TYPE_VARCHAR => varstring_get_key_image f len (data f rec)
  | MYSQL_TYPE_STRING => string_get_key_image f len (data f rec)
  | MYSQL_TYPE_BIT => let image := bit_get_key_image f len rec in (image, length image)
  | MYSQL_TYPE_TINY_BLOB | MYSQL_TYPE_MEDIUM_BLOB | MYSQL_TYPE_LONG_BLOB | MYSQL_TYPE_BLOB
  | MYSQL_TYPE_GEOMETRY => blob_get_key_image mem f len (data f rec)
  | _ => (take len (data f rec), len)
  end.

(** ** key_copy *)

(** [MY_MIN(key_length, length)] of unsigned integers. *)
Abbreviation umin key_length len := (Z.to_nat (Z.min (uint_of key_length) (Z.of_nat len))) (only parsing).

Section KeyCopy.

Context (mem : Z -> bytes) (with_zerofill : bool).

(** One key part that is not NULL: what is written, and what is left of
    [key_length] and [to_key]. *)
Definition copy_value (p : KEY_PART_INFO) (key_length : Z) (to_key rec : bytes) : bytes * Z * bytes :=
  let f := kp_field p in
  if blob_part p || var_length_part p then
    let key_length := key_length - Z.of_nat HA_KEY_BLOB_LENGTH in
    let len := umin key_length (kp_length p) in
    let '(image, bytes) := get_key_image mem f len rec in
    let to_key := write_at 0 image to_key in
    let to_key := if with_zerofill && (bytes <? len)%nat then write_at bytes (replicate (len - bytes) 0) to_key
                  else to_key in
    (take (HA_KEY_BLOB_LENGTH + len) to_key, key_length - Z.of_nat len, drop (HA_KEY_BLOB_LENGTH + len) to_key)
  else
    let len := umin key_length (kp_length p) in
    let '(image, bytes) := get_key_image mem f len rec in
    let to_key := write_at 0 image to_key in
    let to_key := if (bytes <? len)%nat then write_at bytes (my_fill_8bit (len - bytes) 32) to_key
                  else to_key in
    (take len to_key, key_length - Z.of_nat len, drop len to_key).

(** The data of a NULL is not copied. *)
Definition copy_null (p : KEY_PART_INFO) (key_length : Z) (to_key : bytes) : bytes * Z * bytes :=
  let len := umin key_length (kp_store_length p - 1) in
  (if with_zerofill then replicate len 0 else take len to_key, key_length - Z.of_nat len, drop len to_key).

(** The buffer [to_key] from the current position on; [key_length] as an
    int. *)
Fixpoint key_copy_loop (parts : list KEY_PART_INFO) (key_length : Z) (to_key rec : bytes) : bytes :=
  match parts with
  | [] => to_key
  | p :: parts =>
      if key_length <=? 0 then to_key
      else
        let f := kp_field p in
        if real_maybe_null f then
          let null_byte := if is_real_null f rec then 1 else 0 in
          let '(written, key_length, to_key) :=
            if is_real_null f rec then copy_null p (key_length - 1) (drop 1 to_key)
            else copy_value p (key_length - 1) (drop 1 to_key) rec in
          null_byte :: written ++ key_copy_loop parts key_length to_key rec
        else
          let '(written, key_length, to_key) := copy_value p key_length to_key rec in
          written ++ key_copy_loop parts key_length to_key rec
  end.

Definition key_copy (to_key rec : bytes) (ki : KEY) (key_length : nat) : bytes :=
  let key_length := if (key_length =? 0)%nat then ki_key_length ki else key_length in
  key_copy_loop (key_part ki) (Z.of_nat key_length) to_key rec.

End KeyCopy.

(** ** key_restore *)

Section KeyRestore.

(** The address of [from_key], for the pointers of BLOB columns. *)
Context (key_addr : Z).

Definition null_offset (f : Field) : nat := match null_ptr f with Some o => o | None => 0%nat end.
Definition key_part_null_bit (f : Field) : Z := if real_maybe_null f then null_bit f else 0.

(** [set_rec_bits(bits, to_record + ofs, ...)] *)
Definition set_rec_bits_at (bits : Z) (ofs : nat) (f : Field) (rec : bytes) : bytes :=
  write_at ofs (set_rec_bits bits (drop ofs rec) (bit_ofs f) (bit_len f)) rec.

(** [Field_varstring::set_key_image]: the real length is in the image. *)
Definition varstring_set_key_image (f : Field) (buff rec : bytes) : bytes :=
  let len := Z.to_nat (le_val (take 2 buff)) in
  varstring_store f (take len (drop HA_KEY_BLOB_LENGTH buff)) rec.

(** [Field_blob::set_ptr_offset] *)
Definition blob_set_ptr (f : Field) (len : nat) (addr : Z) (rec : bytes) : bytes :=
  write_at (ptr f + packlength f) (le_bytes 8 addr)
    (write_at (ptr f) (le_bytes (packlength f) (Z.of_nat len)) rec).

(** One key part that is not NULL, [pos] bytes after the start of the key: how
    many bytes are used up, what is left of [key_length], and the record. *)
Definition restore_value (p : KEY_PART_INFO) (key_length : Z) (from_key : bytes) (pos : nat) (to_record : bytes)
    : nat * Z * bytes :=
  let f := kp_field p in
  let '(used_uneven_bits, to_record) :=
    if bool_decide (real_type f = MYSQL_TYPE_BIT) && negb (bit_len f =? 0) then
      let bits := nth (kp_length p - bytes_in_rec f - 1) from_key 0 in
      (1%nat, set_rec_bits_at bits (null_offset f + if key_part_null_bit f =? 128 then 1 else 0) f to_record)
    else (0%nat, to_record) in
  if blob_part p then
    let blob_length := Z.to_nat (le_val (take 2 from_key)) in
    ((HA_KEY_BLOB_LENGTH + kp_length p)%nat,
     key_length - Z.of_nat HA_KEY_BLOB_LENGTH - Z.of_nat (kp_length p),
     blob_set_ptr f blob_length (key_addr + Z.of_nat (pos + HA_KEY_BLOB_LENGTH)) to_record)
  else if var_length_part p then
    let key_length := key_length - Z.of_nat HA_KEY_BLOB_LENGTH in
    let len := umin key_length (kp_length p) in
    ((HA_KEY_BLOB_LENGTH + len)%nat, key_length - Z.of_nat len, varstring_set_key_image f from_key to_record)
  else
    let len := umin key_length (kp_length p) in
    (len, key_length - Z.of_nat len,
     write_at (ptr f) (take (len - used_uneven_bits) (drop used_uneven_bits from_key)) to_record).

Fixpoint key_restore_loop (parts : list KEY_PART_INFO) (key_length : Z) (from_key : bytes) (pos : nat)
    (to_record : bytes) : bytes :=
  match parts with
  | [] => to_record
  | p :: parts =>
      if key_length <=? 0 then to_record
      else
        let f := kp_field p in
        if real_maybe_null f then
          if negb (nth 0 from_key 0 =? 0) then
            let len := umin (key_length - 1) (kp_store_length p - 1) in
            key_restore_loop parts (key_length - 1 - Z.of_nat len) (drop (S len) from_key) (S pos + len)
              (set_null f to_record)
          else
            let '(used, key_length, to_record) :=
              restore_value p (key_length - 1) (drop 1 from_key) (S pos) (set_notnull f to_record) in
            key_restore_loop parts key_length (drop (S used) from_key) (S pos + used) to_record
        else
          let '(used, key_length, to_record) := restore_value p key_length from_key pos to_record in
          key_restore_loop parts key_length (drop used from_key) (pos + used) to_record
  end.

Definition key_restore (to_record from_key : bytes) (ki : KEY) (key_length : nat) : bytes :=
  let key_length := if (key_length =? 0)%nat then ki_key_length ki else key_length in
  key_restore_loop (key_part ki) (Z.of_nat key_length) from_key 0 to_record.

(** ** The length of a key prefix *)

(** [table->actual_n_key_parts(key_info)]; [extended_keys] is the optimizer
    switch. *)
Definition actual_n_key_parts (extended_keys : bool) (ki : KEY) : nat :=
  if extended_keys then ext_key_parts ki else user_defined_key_parts ki.

Fixpoint key_len_loop (parts : list KEY_PART_INFO) (keypart_map : Z) (len : nat) : nat :=
  match parts with
  | [] => len
  | p :: parts =>
      if keypart_map =? 0 then len else key_len_loop parts (Z.shiftr keypart_map 1) (len + kp_store_length p)
  end.

Definition calculate_key_len (extended_keys : bool) (ki : KEY) (keypart_map : Z) : nat :=
  key_len_loop (take (actual_n_key_parts extended_keys ki) (key_part ki)) keypart_map 0.

End KeyRestore.

(** ** Counting the parts of a key *)

(** include/my_bit.h *)
Definition my_count_bits_uint32 (v : Z) : Z :=
  let v := uint_of (v - Z.land (Z.shiftr v 1) 0x55555555) in
  let v := uint_of (Z.land v 0x33333333 + Z.land (Z.shiftr v 2) 0x33333333) in
  Z.shiftr (uint_of (Z.land (uint_of (v + Z.shiftr v 4)) 0xF0F0F0F * 0x1010101)) 24.

Definition my_count_bits (x : Z) : Z :=
  my_count_bits_uint32 (uint_of x) + my_count_bits_uint32 (uint_of (Z.shiftr x 32)).

(** A [key_part_map] is a ulonglong. *)
Abbreviation HA_WHOLE_KEY := (2 ^ 64 - 1) (only parsing).

(** ** pack_index_tuple *)

(** The packed key, and the record buffer it was packed from. *)
Definition pack_index_tuple (mem : Z -> bytes) (key_addr : Z) (extended_keys : bool) (kd : mono_key_def)
    (tbl : TABLE) (record_buffer key_tuple : bytes) (keypart_map : Z) : option (bytes * bytes) :=
  match key_info tbl !! m_keyno kd with
  | None => None
  | Some ki =>
      let key_len := calculate_key_len extended_keys ki keypart_map in
      let record_buffer := key_restore key_addr record_buffer key_tuple ki key_len in
      let n_used_parts := Z.to_nat (my_count_bits keypart_map) in
      let n_used_parts := if keypart_map =? HA_WHOLE_KEY then 0%nat else n_used_parts in
      st ← pack_record mem kd tbl record_buffer None false None n_used_parts;
      Some (ps_tuple st, record_buffer)
  end.

(** ** The key tuple of a record *)

Definition total_length (parts : list KEY_PART_INFO) : nat := sum_list (map kp_store_length parts).

(** Columns whose value a key tuple keeps, and their values. *)
Inductive tuple_part (p : KEY_PART_INFO) : (bytes -> Prop) -> Prop :=
  | tuple_fixed n :
      fixed_size (kp_field p) = Some n -> real_type (kp_field p) <> MYSQL_TYPE_BIT -> (0 < n)%nat ->
      pack_length (kp_field p) = n -> kp_length p = n -> tuple_part p (fixed_ok (kp_field p))
  | tuple_varchar weights :
      varchar_column (kp_field p) -> kp_length p = field_length (kp_field p) ->
      Storable (charset (kp_field p)) weights -> tuple_part p (varchar_ok weights (kp_field p)).

Lemma umin_small key_length len : Z.of_nat len <= key_length < 2 ^ 32 -> umin key_length len = len.
Proof. intros H. unfold uint_of. rewrite Z.mod_small by lia. rewrite Z.min_r; lia. Qed.


(** Writing what is there. *)
Lemma write_at_id off bs dst :
  (off + length bs <= length dst)%nat -> take (length bs) (drop off dst) = bs -> write_at off bs dst = dst.
Proof.
  intros Hl H. unfold write_at. rewrite <- drop_drop.
  transitivity (take off dst ++ take (length bs) (drop off dst) ++ drop (length bs) (drop off dst)).
  - by rewrite H.
  - by rewrite !take_drop.
Qed.

(** What a key tuple holds for a column that is not NULL. *)
Definition key_image (p : KEY_PART_INFO) (rec : bytes) : bytes :=
  let f := kp_field p in
  if var_length_part p then
    let val := varstring_data f (data f rec) in
    le_bytes 2 (Z.of_nat (length val)) ++ val ++ replicate (kp_length p - length val) 0
  else take (kp_length p) (data f rec).

Lemma tuple_part_flags p ok : tuple_part p ok ->
  blob_part p = false /\
  var_length_part p = match real_type (kp_field p) with MYSQL_TYPE_VARCHAR => true | _ => false end.
Proof.
  unfold blob_part, is_blob, var_length_part. intros [n Hn _ _ _ _|weights Hc _ _].
  - unfold fixed_size in Hn. by destruct (real_type (kp_field p)).
  - by rewrite (vc_type _ Hc).
Qed.

Lemma varchar_key_image weights p rec :
  Storable (charset (kp_field p)) weights -> varchar_column (kp_field p) ->
  kp_length p = field_length (kp_field p) -> varchar_ok weights (kp_field p) rec ->
  let val := varstring_data (kp_field p) (data (kp_field p) rec) in
  (length val <= kp_length p)%nat /\
  varstring_get_key_image (kp_field p) (kp_length p) (data (kp_field p) rec) =
    (le_bytes 2 (Z.of_nat (length val)) ++ val ++ replicate (kp_length p - length val) 0,
     (2 + length val)%nat).
Proof.
  intros Hst Hc Hk Hok val. destruct (vo_chars Hok) as (ws & Hw & Hn).
  pose proof (varstring_data_ok _ _ _ Hok) as Hb. pose proof (vo_length Hok) as Hl.
  rewrite <- (varstring_data_length _ _ _ Hok) in Hl. fold val in Hw, Hb, Hl. split; [lia|].
  unfold varstring_get_key_image. fold val. rewrite Hk, (vc_field_length _ Hc).
  pose proof (vc_mbmaxlen _ Hc). rewrite Nat.div_mul by lia.
  pose proof (st_charpos val ws (char_length (kp_field p)) Hb Hw Hn) as Hp.
  destruct (Nat.eqb_spec (char_length (kp_field p)) 0) as [E|E].
  - rewrite (vc_field_length _ Hc), E in Hl. simpl in Hl. rewrite (proj2 (Nat.ltb_ge _ _)) by lia. done.
  - rewrite (proj2 (Nat.ltb_ge _ _)) by lia. done.
Qed.


Definition value_length (p : KEY_PART_INFO) : nat := kp_length p + key_part_length_bytes p.

Lemma length_key_image p ok rec : tuple_part p ok -> ok rec -> length (key_image p rec) = value_length p.
Proof.
  intros Hp Hok. destruct (tuple_part_flags p ok Hp) as [Hbl Hv].
  unfold key_image, value_length, key_part_length_bytes. rewrite Hbl. cbn [orb].
  destruct Hp as [n Hn Hbit Hpos Hpl Hk|weights Hc Hk Hst].
  - assert (var_length_part p = false) as -> by (rewrite Hv; unfold fixed_size in Hn; by destruct (real_type (kp_field p))).
    destruct (Restore.fixed_ok_image (kp_field p) n rec Hn Hbit Hok) as [_ Hl]. rewrite length_take. lia.
  - rewrite Hv, (vc_type _ Hc). destruct (varchar_key_image weights p rec Hst Hc Hk Hok) as [Hl _].
    rewrite !length_app, length_le_bytes, length_replicate. lia.
Qed.

Lemma take_write_at_0 bs dst : take (length bs) (write_at 0 bs dst) = bs.
Proof. rewrite write_at_0. apply take_app_length. Qed.

Lemma drop_write_at_0 bs dst : drop (length bs) (write_at 0 bs dst) = drop (length bs) dst.
Proof. rewrite write_at_0. apply drop_app_length. Qed.

(** The value of a column is copied as its key image. *)
Lemma copy_value_image mem zf p ok rest to_key rec :
  tuple_part p ok -> ok rec -> Z.of_nat (value_length p + rest) < 2 ^ 32 ->
  copy_value mem zf p (Z.of_nat (value_length p + rest)) to_key rec =
    (key_image p rec, Z.of_nat rest, drop (value_length p) to_key).
Proof.
  intros Hp Hok Hlim. pose proof (length_key_image p ok rec Hp Hok) as Hlen.
  destruct (tuple_part_flags p ok Hp) as [Hbl Hv].
  unfold copy_value, value_length, key_part_length_bytes, key_image in *. rewrite Hbl in *. cbn [orb] in *.
  destruct Hp as [n Hn Hbit Hpos Hpl Hk|weights Hc Hk Hst].
  - assert (var_length_part p = false) as Hvf by (rewrite Hv; unfold fixed_size in Hn; by destruct (real_type (kp_field p))).
    rewrite Hvf in *. rewrite Nat.add_0_r in *. rewrite umin_small by lia.
    assert (get_key_image mem (kp_field p) (kp_length p) rec = (take (kp_length p) (data (kp_field p) rec), kp_length p)) as ->.
    { unfold get_key_image. unfold fixed_size in Hn. by destruct (real_type (kp_field p)). }
    rewrite Nat.ltb_irrefl. set (img := take (kp_length p) (data _ rec)) in *. rewrite <- Hlen.
    rewrite take_write_at_0, drop_write_at_0. do 2 f_equal. lia.
  - rewrite (vc_type _ Hc) in Hv. rewrite Hv in *. 
    rewrite umin_small by lia. unfold get_key_image. rewrite (vc_type _ Hc).
    destruct (varchar_key_image weights p rec Hst Hc Hk Hok) as [Hl ->].
    set (val := varstring_data _ _) in *. set (img := le_bytes 2 _ ++ _) in *.
    assert ((if zf && (2 + length val <? kp_length p)%nat
      then write_at (2 + length val) (replicate (kp_length p - (2 + length val)) 0) (write_at 0 img to_key)
      else write_at 0 img to_key) = write_at 0 img to_key) as ->.
    { destruct (zf && _); [|done]. apply write_at_id; rewrite length_replicate.
      - rewrite write_at_0, length_app. lia.
      - rewrite write_at_0. unfold img. rewrite <- !app_assoc, !app_assoc.
        rewrite <- app_assoc, drop_app_length' by (rewrite length_app, length_le_bytes; lia).
        rewrite take_app_le by (rewrite length_replicate; lia). rewrite take_replicate. f_equal; lia. }
    replace (2 + kp_length p)%nat with (length img) by lia. rewrite take_write_at_0, drop_write_at_0.
    replace (kp_length p + 2)%nat with (length img) by lia. do 2 f_equal. lia.
Qed.


(** What a column of the record buffer holds afterwards. *)
Definition column_image (f : Field) (rec : bytes) : bytes :=
  match real_type f with
  | MYSQL_TYPE_VARCHAR => varstring_image f (varstring_data f (data f rec))
  | _ => column_bytes f rec
  end.

Section RestoreValue.

Context (key_addr : Z) (size : nat) (p : KEY_PART_INFO).
Context (Hpl : placed size (kp_field p)) (Hself : self_apart (kp_field p)).

Lemma varstring_set_key_image_spec weights rec k buf :
  Storable (charset (kp_field p)) weights -> varchar_column (kp_field p) ->
  kp_length p = field_length (kp_field p) -> varchar_ok weights (kp_field p) rec -> length buf = size ->
  let f := kp_field p in
  let val := varstring_data f (data f rec) in
  let img := le_bytes 2 (Z.of_nat (length val)) ++ val ++ replicate (kp_length p - length val) 0 in
  frame size f buf (varstring_set_key_image f (img ++ k) buf) /\
  holds_image f (is_real_null f buf) (varstring_image f val) (varstring_set_key_image f (img ++ k) buf).
Proof.
  intros Hst Hc Hk Hok Hl f val img. destruct (varchar_key_image weights p rec Hst Hc Hk Hok) as [Hv _].
  destruct (vo_chars Hok) as (ws & Hw & Hn). pose proof (varstring_data_ok _ _ _ Hok) as Hb.
  fold f val in Hv, Hw, Hb. pose proof (vc_limit _ Hc) as Hlim. fold f in Hlim, Hk.
  assert (varstring_set_key_image f (img ++ k) buf = varstring_store f val buf) as ->.
  { unfold varstring_set_key_image, img. rewrite <- !app_assoc.
    rewrite take_app_length', drop_app_length' by (by rewrite length_le_bytes).
    rewrite le_val_le_bytes, Z.mod_small, Nat2Z.id by (change (256 ^ Z.of_nat 2) with 65536; lia).
    by rewrite take_app_length. }
  destruct (varstring_store_safe size f weights Hpl Hself val buf (vo_length_bytes Hok) (vo_pack_length Hok) Hb Hl)
    as (value & ws' & _ & _ & _ & _ & Hid & Hh & Hfr).
  rewrite (Hid ws Hw ltac:(lia) Hn) in Hh. done.
Qed.

Lemma restore_value_image ok rest rec k pos buf :
  tuple_part p ok -> ok rec -> Z.of_nat (value_length p + rest) < 2 ^ 32 -> length buf = size ->
  exists buf', restore_value key_addr p (Z.of_nat (value_length p + rest)) (key_image p rec ++ k) pos buf =
      (value_length p, Z.of_nat rest, buf') /\
    frame size (kp_field p) buf buf' /\
    holds_image (kp_field p) (is_real_null (kp_field p) buf) (column_image (kp_field p) rec) buf'.
Proof.
  intros Hp Hok Hlim Hl. pose proof (length_key_image p ok rec Hp Hok) as Hlen.
  destruct (tuple_part_flags p ok Hp) as [Hbl Hv].
  unfold restore_value, value_length, key_part_length_bytes, key_image, column_image in *.
  rewrite (bool_decide_eq_false_2 (real_type (kp_field p) = MYSQL_TYPE_BIT)) by apply (pl_type _ _ Hpl).
  rewrite Hbl in *. cbn [orb andb] in *. destruct Hp as [n Hn Hbit Hpos Hpk Hk|weights Hc Hk Hst].
  - assert (var_length_part p = false) as Hvf by (rewrite Hv; unfold fixed_size in Hn; by destruct (real_type (kp_field p))).
    rewrite Hvf in *. rewrite Nat.add_0_r in *. rewrite umin_small by lia. eexists.
    rewrite Nat.sub_0_r, drop_0, take_app_le, take_take, Nat.min_id by lia. split; [do 2 f_equal; lia|].
    assert (match real_type (kp_field p) with
      | MYSQL_TYPE_VARCHAR => varstring_image (kp_field p) (varstring_data (kp_field p) (data (kp_field p) rec))
      | _ => column_bytes (kp_field p) rec end = take (kp_length p) (data (kp_field p) rec)) as ->.
    { unfold column_bytes. rewrite Hpk, Hk. unfold fixed_size in Hn. by destruct (real_type (kp_field p)). }
    destruct (Restore.fixed_ok_image (kp_field p) n rec Hn Hbit Hok) as [Hob _].
    split; [apply frame_write|apply (write_holds size)]; try done; try lia. auto with bytes.
  - rewrite (vc_type _ Hc) in *. rewrite Hv in *. 
    rewrite umin_small by lia. eexists. split; [do 2 f_equal; lia|].
    by apply (varstring_set_key_image_spec weights).
Qed.

End RestoreValue.


(** ** A key tuple restores the columns it was copied from *)

Definition null_bytes (f : Field) (rec : bytes) : bytes :=
  if real_maybe_null f then [if is_real_null f rec then 1 else 0] else [].

Lemma store_length_eq p : kp_store_length p = (length (null_bytes (kp_field p) []) + value_length p)%nat.
Proof. unfold kp_store_length, value_length, null_bytes. case_match; simpl; lia. Qed.

Lemma length_null_bytes f rec : length (null_bytes f rec) = length (null_bytes f []).
Proof. unfold null_bytes. by case_match. Qed.

Lemma value_length_pos p ok : tuple_part p ok -> (0 < value_length p)%nat.
Proof.
  intros Hp. destruct (tuple_part_flags p ok Hp) as [Hbl Hv]. unfold value_length, key_part_length_bytes.
  destruct Hp as [n Hn _ Hpos _ Hk|weights Hc Hk _]; [lia|].
  rewrite Hbl, Hv, (vc_type _ Hc). cbn [orb]. lia.
Qed.

Lemma key_copy_step mem zf p ok parts rest to_key rec :
  tuple_part p ok -> is_real_null (kp_field p) rec = true \/ ok rec ->
  Z.of_nat (kp_store_length p + rest) < 2 ^ 32 -> (kp_store_length p <= length to_key)%nat ->
  exists body, length body = value_length p /\
    (is_real_null (kp_field p) rec = false -> body = key_image p rec) /\
    key_copy_loop mem zf (p :: parts) (Z.of_nat (kp_store_length p + rest)) to_key rec =
      null_bytes (kp_field p) rec ++ body ++
      key_copy_loop mem zf parts (Z.of_nat rest) (drop (kp_store_length p) to_key) rec.
Proof.
  intros Hp Hok Hlim Hl. pose proof (value_length_pos p ok Hp). rewrite store_length_eq in *.
  cbn [key_copy_loop]. rewrite (proj2 (Z.leb_gt _ _)) by lia. unfold null_bytes in *.
  destruct (real_maybe_null (kp_field p)) eqn:Em; cbn [length] in *.
  - replace (Z.of_nat (1 + value_length p + rest) - 1) with (Z.of_nat (value_length p + rest)) by lia.
    destruct (is_real_null (kp_field p) rec) eqn:En.
    + unfold copy_null. rewrite store_length_eq. unfold null_bytes. rewrite Em. cbn [length].
      replace (1 + value_length p - 1)%nat with (value_length p) by lia. rewrite umin_small by lia.
      exists (if zf then replicate (value_length p) 0 else take (value_length p) (drop 1 to_key)).
      split_and!; [destruct zf; [apply length_replicate|rewrite length_take, length_drop; lia]|done|].
      rewrite drop_drop. simpl. do 3 f_equal. lia.
    + destruct Hok as [|Hok]; [done|]. rewrite (copy_value_image mem zf p ok) by (done || lia).
      exists (key_image p rec). split_and!; [by apply (length_key_image p ok)|done|].
      by rewrite drop_drop.
  - destruct Hok as [Hn|Hok]; [by apply is_real_null_maybe in Hn; congruence|].
    cbn [Nat.add] in *. rewrite (copy_value_image mem zf p ok) by (done || lia).
    exists (key_image p rec). split_and!; [by apply (length_key_image p ok)|done|done].
Qed.

Lemma key_restore_step key_addr size p ok parts rest rec body k pos buf :
  tuple_part p ok -> is_real_null (kp_field p) rec = true \/ ok rec ->
  placed size (kp_field p) -> self_apart (kp_field p) -> length buf = size ->
  Z.of_nat (kp_store_length p + rest) < 2 ^ 32 -> length body = value_length p ->
  (is_real_null (kp_field p) rec = false -> body = key_image p rec) ->
  exists pos' buf',
    key_restore_loop key_addr (p :: parts) (Z.of_nat (kp_store_length p + rest))
      (null_bytes (kp_field p) rec ++ body ++ k) pos buf =
    key_restore_loop key_addr parts (Z.of_nat rest) k pos' buf' /\
    frame size (kp_field p) buf buf' /\
    holds_image (kp_field p) (is_real_null (kp_field p) rec) (column_image (kp_field p) rec) buf'.
Proof.
  intros Hp Hok Hpl Hs Hl Hlim Hlb Hb. pose proof (value_length_pos p ok Hp). rewrite store_length_eq in *.
  cbn [key_restore_loop]. rewrite (proj2 (Z.leb_gt _ _)) by lia. unfold null_bytes in *.
  destruct (real_maybe_null (kp_field p)) eqn:Em; cbn [length] in *.
  - replace (Z.of_nat (1 + value_length p + rest) - 1) with (Z.of_nat (value_length p + rest)) by lia.
    assert (exists o, null_ptr (kp_field p) = Some o) as [o Ho].
    { unfold real_maybe_null in Em. destruct (null_ptr (kp_field p)); [eauto|done]. }
    destruct (is_real_null (kp_field p) rec) eqn:En; cbn [app nth negb Z.eqb].
    + rewrite store_length_eq. unfold null_bytes. rewrite Em. cbn [length]. replace (1 + value_length p - 1)%nat with (value_length p) by lia.
      rewrite umin_small by lia. cbn [drop]. rewrite <- Hlb, drop_app_length.
      do 2 eexists. split; [f_equal; lia|]. split; [by apply (frame_set_null_bit size _ true)|].
      split; [|done]. by apply (set_null_bit_same size _ true _ o).
    + destruct Hok as [|Hok]; [done|]. rewrite (Hb eq_refl) in *. cbn [drop]. rewrite drop_0.
      destruct (set_null_bit_same size (kp_field p) false buf o Hpl Hs Hl Ho) as [_ Hnb].
      pose proof (frame_set_null_bit size (kp_field p) false buf Hpl Hl) as Hf. cbn [set_null_bit] in Hnb, Hf.
      destruct (restore_value_image key_addr size p Hpl Hs ok rest rec k (S pos) (set_notnull (kp_field p) buf)
        Hp Hok ltac:(lia) (proj1 Hf)) as (buf' & -> & Hfr & Hh).
      do 2 eexists. split; [cbn [drop]; rewrite <- Hlb, drop_app_length; done|].
      split; [by eapply frame_trans|by rewrite Hnb in Hh].
  - destruct Hok as [Hn|Hok]; [by apply is_real_null_maybe in Hn; congruence|].
    assert (forall b, is_real_null (kp_field p) b = false) as Hnn.
    { intros b. destruct (is_real_null (kp_field p) b) eqn:E; [|done]. apply is_real_null_maybe in E. congruence. }
    rewrite (Hb (Hnn rec)) in *. cbn [Nat.add app] in *.
    destruct (restore_value_image key_addr size p Hpl Hs ok rest rec k pos buf Hp Hok ltac:(lia) Hl)
      as (buf' & -> & Hfr & Hh).
    do 2 eexists. split; [rewrite <- Hlb, drop_app_length; done|]. split; [done|]. by rewrite Hnn in *.
Qed.


Lemma tuple_restored mem zf key_addr size cols more rec to_key pos buf :
  Forall (fun c => tuple_part c.1 c.2) cols -> row_ok cols rec ->
  laid_out_fields size (map (fun c => kp_field c.1) cols) ->
  Z.of_nat (total_length (map fst cols)) < 2 ^ 32 -> (total_length (map fst cols) <= length to_key)%nat ->
  length buf = size ->
  let len := Z.of_nat (total_length (map fst cols)) in
  let buf' := key_restore_loop key_addr (map fst cols ++ more) len
                (key_copy_loop mem zf (map fst cols ++ more) len to_key rec) pos buf in
  length buf' = size /\ (bytes_ok buf -> bytes_ok buf') /\
  Forall (fun c => holds_image (kp_field c.1) (is_real_null (kp_field c.1) rec)
                     (column_image (kp_field c.1) rec) buf') cols /\
  forall g, placed size g -> Forall (fun c => apart (kp_field c.1) g) cols ->
    forall is_null image, holds_image g is_null image buf -> holds_image g is_null image buf'.
Proof.
  intros Hcols. revert to_key pos buf.
  induction Hcols as [|c cols Hc Hcols IH]; intros to_key pos buf Hrow Hlo Hlim Hlen Hl; cbv zeta.
  { simpl. destruct more; simpl; (split_and!; [done|done|by constructor|done]). }
  apply Forall_cons_iff in Hrow as [Hok Hrow]. destruct Hlo as (Hpl & Hs & Ha & Hlo). cbn [map fst app] in *.
  change (total_length (c.1 :: map fst cols)) with (kp_store_length c.1 + total_length (map fst cols))%nat in *.
  destruct (key_copy_step mem zf c.1 c.2 (map fst cols ++ more) (total_length (map fst cols)) to_key rec
    Hc Hok Hlim ltac:(lia)) as (body & Hb & Hi & ->).
  set (k := key_copy_loop mem zf (map fst cols ++ more) _ _ _).
  destruct (key_restore_step key_addr size c.1 c.2 (map fst cols ++ more) (total_length (map fst cols)) rec body k pos buf
    Hc Hok Hpl Hs Hl Hlim Hb Hi) as (pos' & buf1 & -> & Hfr & Hh).
  destruct (IH (drop (kp_store_length c.1) to_key) pos' buf1 Hrow Hlo ltac:(lia) ltac:(rewrite length_drop; lia)
    (proj1 Hfr)) as (Hl' & Hbo & Hall & Hoth). fold k in Hl', Hbo, Hall, Hoth.
  destruct Hfr as (Hl1 & Hb1 & Hfr). split_and!; [done|auto| |].
  - constructor; [|done]. apply Hoth; [done| |done].
    rewrite Forall_fmap in Ha. eapply Forall_impl; [|exact Ha]. by intros d [_ Hd].
  - intros g Hg Hap is_null image Hgi. apply Forall_cons_iff in Hap as [Hg1 Hap].
    apply Hoth; [done..|]. by apply (holds_image_frame size (kp_field c.1) g is_null image buf); split_and?.
Qed.

(** The length of the first [n] parts. *)
Lemma key_len_loop_prefix parts n len : (n <= 63)%nat ->
  key_len_loop parts (2 ^ Z.of_nat n - 1) len = (len + total_length (take n parts))%nat.
Proof.
  revert parts len. induction n as [|n IH]; intros parts len Hn.
  - destruct parts; unfold total_length; simpl; lia.
  - destruct parts as [|p parts]; [unfold total_length; simpl; lia|]. cbn [key_len_loop].
    rewrite Nat2Z.inj_succ, Z.pow_succ_r by lia. pose proof (Z.pow_pos_nonneg 2 (Z.of_nat n)).
    rewrite (proj2 (Z.eqb_neq _ _)) by lia.
    rewrite Z.shiftr_div_pow2 by lia. change (2 ^ 1) with 2.
    replace ((2 * 2 ^ Z.of_nat n - 1) / 2) with (2 ^ Z.of_nat n - 1) by dlia.
    rewrite IH by lia. cbn [take]. change (total_length (p :: take n parts)) with (kp_store_length p + total_length (take n parts))%nat.
    lia.
Qed.

Lemma my_count_bits_prefix n : (n <= 64)%nat -> my_count_bits (2 ^ Z.of_nat n - 1) = Z.of_nat n.
Proof.
  intros Hn. pose proof (Z_range_forall 65 (fun v => my_count_bits (2 ^ v - 1) =? v) ltac:(by vm_compute)
    (Z.of_nat n) ltac:(lia)) as H. by apply Z.eqb_eq in H.
Qed.


(** ** Values *)

(** A column that starts with the image of a value has that value: it is a
    value of the column, and compares with others in the same way. *)
Lemma varchar_image_value weights f rec buf :
  varchar_column f -> varchar_ok weights f rec -> bytes_ok buf -> (ptr f + pack_length f <= length buf)%nat ->
  holds_image f false (varstring_image f (varstring_data f (data f rec))) buf ->
  varstring_data f (data f buf) = varstring_data f (data f rec) /\ varchar_ok weights f buf /\
  varstring_length f (data f buf) = varstring_length f (data f rec).
Proof.
  intros Hc Hok Hb Hfit [_ H]. specialize (H eq_refl). set (val := varstring_data f (data f rec)) in *.
  pose proof (varstring_data_length _ _ _ Hok) as Hvl. fold val in Hvl. pose proof (vo_length Hok) as Hl.
  pose proof (vc_limit _ Hc) as Hlim.
  assert (exists rest, data f buf = varstring_image f val ++ rest) as [rest Hd].
  { unfold column_bytes in H. rewrite take_take in H. eexists. rewrite <- H at 1. symmetry. apply take_drop. }
  assert (varstring_data f (data f buf) = val) as Hv.
  { rewrite Hd. apply varstring_stored; [apply (vo_length_bytes Hok)|].
    rewrite Hvl. apply (varchar_length_bound weights f rec Hok). }
  assert (varstring_length f (data f buf) = length val) as Hln.
  { rewrite Hd. apply varstring_length_stored; [apply (vo_length_bytes Hok)|].
    rewrite Hvl. apply (varchar_length_bound weights f rec Hok). }
  split_and!; [done| |congruence]. split; try apply Hok; try done.
  - rewrite Hln. lia.
  - rewrite Hv. apply (vo_chars Hok).
Qed.


Lemma fixed_cmp_refl f n rec : fixed_size f = Some n -> real_type f <> MYSQL_TYPE_BIT -> column_cmp f rec rec = Eq.
Proof.
  unfold fixed_size, column_cmp. intros Hn Hb.
  destruct (real_type f); try done; unfold tiny_cmp, short_cmp, medium_cmp, long_cmp, longlong_cmp, int_cmp,
    float_cmp, double_cmp, newdate_cmp, enum_cmp; try case_match; try apply Z.compare_refl; apply lex_cmp_refl.
Qed.

Lemma fixed_image_value f n rec buf :
  fixed_size f = Some n -> real_type f <> MYSQL_TYPE_BIT -> pack_length f = n -> bytes_ok buf ->
  (ptr f + pack_length f <= length buf)%nat -> fixed_ok f rec -> holds_image f false (column_bytes f rec) buf ->
  column_bytes f buf = column_bytes f rec /\ fixed_ok f buf /\
  forall row, column_cmp f buf row = column_cmp f rec row.
Proof.
  intros Hn Hbit Hpl Hb Hfit Hok [_ H]. specialize (H eq_refl).
  destruct (Restore.fixed_ok_image f n rec Hn Hbit Hok) as [Hrb Hrl].
  assert (image_ok n (data f buf)) as Hi.
  { split; [by apply bytes_ok_drop|]. unfold data. rewrite length_drop. lia. }
  assert (take n (data f buf) = take n (data f rec)) as Ht.
  { unfold column_bytes in H. rewrite Hpl, length_take, (Nat.min_l n), take_take, Nat.min_id in H by lia. done. }
  split_and!; [unfold column_bytes; by rewrite Hpl| |].
  - unfold fixed_ok, fixed_size in *. destruct (real_type f) eqn:Et; try discriminate Hn; try congruence;
      try (exists n; by injection Hn as <-); injection Hn as <-; destruct Hok as [_ Hok]; split; by rewrite ?Ht.
  - intros row. unfold fixed_size, column_cmp in *.
    destruct (real_type f); try done; injection Hn as <-;
      unfold tiny_cmp, short_cmp, medium_cmp, long_cmp, longlong_cmp, int_cmp, sint_korr, float_cmp, double_cmp,
        newdate_cmp, enum_cmp, memcmp; rewrite ?Hpl in *; by rewrite Ht.
Qed.

Lemma tuple_value size p ok rec buf :
  tuple_part p ok -> placed size (kp_field p) -> length buf = size -> bytes_ok buf -> ok rec ->
  holds_image (kp_field p) false (column_image (kp_field p) rec) buf ->
  ok buf /\ same_value (kp_field p) rec buf /\
  forall row, column_cmp (kp_field p) buf row = column_cmp (kp_field p) rec row.
Proof.
  intros [n Hn Hbit _ Hpk _|weights Hc _ _] Hpl Hl Hb Hok Hh; pose proof (pl_fits _ _ Hpl);
    set (f := kp_field p) in *; unfold column_image, same_value, column_cmp in *.
  - assert (holds_image f false (column_bytes f rec) buf) as Hh'.
    { unfold fixed_size in Hn. by destruct (real_type f). }
    destruct (fixed_image_value f n rec buf) as (Hv & Hokb & Hcmp); try done; try lia. split_and!; [done| |done].
    assert (column_cmp f buf rec = Eq) as Hself.
    { rewrite Hcmp. by apply (fixed_cmp_refl f n). }
    unfold column_cmp in Hself. unfold fixed_size in Hn. by destruct (real_type f).
  - rewrite (vc_type _ Hc) in *.
    destruct (varchar_image_value weights f rec buf Hc Hok Hb ltac:(lia) Hh) as (Hv & Hokb & Hln).
    split_and!; [done|done|]. intros row. unfold varstring_cmp.
    assert (forall r, varchar_ok weights f r ->
      take (Nat.min (varstring_length f (data f r)) (field_length f)) (drop (length_bytes f) (data f r)) =
      varstring_data f (data f r)) as Hmin.
    { intros r Hr. rewrite Nat.min_l by apply (vo_length Hr). done. }
    by rewrite (Hmin buf), (Hmin rec), Hv by done.
Qed.


(** ** Rows *)

Section Rows.

Context (mem : Z -> bytes) (zf : bool) (key_addr : Z) (ext : bool) (size : nat) (ki : KEY).
Context (all : list indexed_part) (n : nat).
Context (Hparts : key_part ki = map fst all) (Hn : (0 < n <= 63)%nat) (Hact : (n <= actual_n_key_parts ext ki)%nat).
Context (Hall : (n <= length all)%nat) (Htuple : Forall (fun c => tuple_part c.1 c.2) (take n all)).
Context (Hlo : laid_out_fields size (map (fun c => kp_field c.1) (take n all))).

Notation keypart_map := (2 ^ Z.of_nat n - 1).
Notation key_len := (calculate_key_len ext ki keypart_map).

Lemma calculate_key_len_prefix : key_len = total_length (map fst (take n all)).
Proof.
  unfold calculate_key_len. rewrite key_len_loop_prefix, take_take, Nat.min_l, Hparts, firstn_map by lia. done.
Qed.

Lemma key_len_pos : (0 < key_len)%nat.
Proof.
  rewrite calculate_key_len_prefix. destruct all as [|c cs]; [simpl in Hall; lia|].
  destruct n as [|m]; [lia|]. cbn [take map] in *. apply Forall_cons_iff in Htuple as [Hc _].
  change (total_length (c.1 :: map fst (take m cs))) with (kp_store_length c.1 + total_length (map fst (take m cs)))%nat.
  pose proof (value_length_pos _ _ Hc). rewrite store_length_eq. lia.
Qed.

(** The record buffer after [key_restore] of a key that was copied from
    [rec]. *)
Definition restored_tuple (rec to_key buf : bytes) : bytes :=
  key_restore key_addr buf (key_copy mem zf to_key rec ki key_len) ki key_len.

Lemma restored_tuple_spec rec to_key buf :
  row_ok (take n all) rec -> Z.of_nat key_len < 2 ^ 32 -> (key_len <= length to_key)%nat ->
  length buf = size -> bytes_ok buf ->
  let buf' := restored_tuple rec to_key buf in
  length buf' = size /\ bytes_ok buf' /\ row_ok (take n all) buf' /\
  Forall (fun c => column_kept rec buf' c.1) (take n all) /\
  (forall row, row_ok (take n all) row ->
     parts_cmp (map fst (take n all)) buf' row = parts_cmp (map fst (take n all)) rec row) /\
  forall g, placed size g -> Forall (fun c => apart (kp_field c.1) g) (take n all) ->
    forall is_null image, holds_image g is_null image buf -> holds_image g is_null image buf'.
Proof.
  intros Hrow Hlim Hlen Hl Hb. pose proof key_len_pos as Hpos. unfold restored_tuple, key_restore, key_copy.
  rewrite (proj2 (Nat.eqb_neq _ _)) by lia. rewrite calculate_key_len_prefix in *.
  assert (map fst all = map fst (take n all) ++ map fst (drop n all)) as Hsplit by (by rewrite <- map_app, take_drop).
  rewrite Hparts, Hsplit.
  destruct (tuple_restored mem zf key_addr size (take n all) (map fst (drop n all)) rec to_key 0 buf
    Htuple Hrow Hlo Hlim Hlen Hl) as (Hl' & Hb' & Hh & Hoth). cbv zeta in *.
  set (buf' := key_restore_loop _ _ _ _ _ _) in *. clearbody buf'. specialize (Hb' Hb).
  assert (Forall (fun c => column_kept rec buf' c.1 /\ (is_real_null (kp_field c.1) buf' = true \/ c.2 buf') /\
    (forall row, part_cmp c.1 buf' row = part_cmp c.1 rec row)) (take n all)) as Hval.
  { pose proof (laid_out_fields_placed _ _ Hlo) as Hpl. rewrite Forall_fmap in Hpl.
    rewrite Forall_forall in *. intros c Hc. destruct (Hh c Hc) as [Hnul Himg]. unfold column_kept, part_cmp.
    rewrite Hnul. destruct (is_real_null (kp_field c.1) rec) eqn:En; [by split_and!; [..|left|]|].
    destruct (proj1 (Forall_forall _ _) Hrow c Hc) as [|Hok]; [congruence|].
    destruct (tuple_value size c.1 c.2 rec buf' (Htuple c Hc) (Hpl c Hc) Hl' Hb' Hok) as (H1 & H2 & H3).
    { rewrite <- En. apply (Hh c Hc). }
    split_and!; [done..|by right|]. intros row. by rewrite H3. }
  split_and!; try done.
  - unfold row_ok. eapply Forall_impl; [|exact Hval]. by intros c (_ & ? & _).
  - eapply Forall_impl; [|exact Hval]. by intros c (? & _).
  - intros row Hr. clear -Hval. induction Hval as [|c cs (_ & _ & Hc) _ IH]; [done|]. cbn [map parts_cmp].
    by rewrite Hc, IH.
Qed.

End Rows.


(** ** Theorems *)

(** C26: the SQL layer's search keys keep the values of the columns.  Copy the
    first [n] key parts of a record into a key tuple and restore the tuple into
    any record buffer: each of the [n] columns has the NULL flag and the value
    of the record, and the columns that lie apart from them are untouched. *)
Theorem key_tuple_roundtrip mem zf key_addr ext size ki all n rec to_key buf :
  key_part ki = map fst all -> (0 < n <= 63)%nat -> (n <= actual_n_key_parts ext ki)%nat ->
  (n <= length all)%nat -> Forall (fun c => tuple_part c.1 c.2) (take n all) ->
  laid_out_fields size (map (fun c => kp_field c.1) (take n all)) -> row_ok (take n all) rec ->
  let key_len := calculate_key_len ext ki (2 ^ Z.of_nat n - 1) in
  Z.of_nat key_len < 2 ^ 32 -> (key_len <= length to_key)%nat -> length buf = size -> bytes_ok buf ->
  let buf' := key_restore key_addr buf (key_copy mem zf to_key rec ki key_len) ki key_len in
  Forall (fun c => column_kept rec buf' c.1) (take n all) /\
  forall g, placed size g -> Forall (fun c => apart (kp_field c.1) g) (take n all) ->
    is_real_null g buf' = is_real_null g buf /\
    (is_real_null g buf = false -> column_bytes g buf' = column_bytes g buf).
Proof.
  intros Hparts Hn Hact Hall Ht Hlo Hrow key_len Hlim Hlen Hl Hb buf'.
  destruct (restored_tuple_spec mem zf key_addr ext size ki all n Hparts Hn Hact Hall Ht Hlo rec to_key buf
    Hrow Hlim Hlen Hl Hb) as (Hl' & _ & _ & Hk & _ & Hoth). split; [exact Hk|].
  intros g Hg Ha. pose proof (pl_fits _ _ Hg). destruct (Hoth g Hg Ha (is_real_null g buf) (column_bytes g buf)) as [Hnul Him].
  - split; [done|]. intros _. by apply take_ge.
  - split; [done|]. intros Hnn. specialize (Him Hnn). rewrite take_ge in Him; [done|].
    fold buf' in Hl'. unfold column_bytes, data. rewrite !length_take, !length_drop. lia.
Qed.

Lemma sample_tuple_name : tuple_part sample_name_part.1 sample_name_part.2.
Proof.
  apply tuple_varchar; [split; simpl; done || lia|done|exact storable_utf8mb4_bin].
Qed.

Lemma sample_name_placed : placed 46 sample_name /\ self_apart sample_name.
Proof.
  split; [split; simpl; [done|lia|intros o [= <-]; lia]|]. intros o [= <-]. simpl. lia.
Qed.

(** The key of 'ann', restored into a buffer of NULLs. *)
Lemma key_tuple_witness :
  let key := key_copy (fun _ => []) false (replicate 43 170) sample_ann sample_sk 43 in
  take 6 key = [0; 3; 0; 97; 110; 110] /\
  column_kept sample_ann (key_restore 0 (replicate 46 255) key sample_sk 43) sample_name_part.1.
Proof.
  split; [by vm_compute|].
  refine (Forall_inv (proj1 (key_tuple_roundtrip (fun _ => []) false 0 false 46 sample_sk [sample_name_part] 1
    sample_ann (replicate 43 170) (replicate 46 255) _ _ _ _ _ _ _ _ _ _ _))); try done; try (simpl; lia).
  - constructor; [exact sample_tuple_name|constructor].
  - destruct sample_name_placed as [Hp Hs]. exact (conj Hp (conj Hs (conj (Forall_nil_2 _) I))).
  - constructor; [|constructor]. right.
    eapply sample_name_ok; [by apply (bool_decide_unpack _)|done|vm_compute; congruence|by vm_compute|simpl; lia].
  - by apply (bool_decide_unpack _).
Defined.

(** C31: a VARCHAR or VARBINARY column of one of the character sets latin1
    (with the collations latin1_swedish_ci and latin1_bin), utf8mb3_bin,
    utf8mb4_bin and binary never holds a malformed string.  Whatever bytes are
    stored, the column then holds a well-formed string of at most its length
    (so that the order of keys applies to it); a string that is well-formed
    and fits is stored as it is; the NULL flag and the other columns do not
    change. *)
Theorem varstring_store_correct size f weights from rec :
  string_weights (charset f) weights -> varchar_column f -> placed size f -> self_apart f ->
  length_bytes f = 1%nat \/ length_bytes f = 2%nat ->
  Z.of_nat (field_length f) < 256 ^ Z.of_nat (length_bytes f) ->
  bytes_ok from -> length rec = size -> bytes_ok rec ->
  let rec' := varstring_store f from rec in
  varchar_ok weights f rec' /\ is_real_null f rec' = is_real_null f rec /\
  (forall ws, weights from = Some ws -> (length from <= field_length f)%nat -> (length ws <= char_length f)%nat ->
     varstring_data f (data f rec') = from) /\
  forall g, placed size g -> apart f g ->
    column_bytes g rec' = column_bytes g rec /\ is_real_null g rec' = is_real_null g rec.
Proof.
  intros Hst%string_storable Hc Hp Hs Hlb Hfl Hb Hl Hr rec'. pose proof (vc_pack_length _ Hc) as Hpk. pose proof (pl_fits _ _ Hp).
  destruct (varstring_store_eq size f weights Hp from rec Hlb Hpk Hb Hl) as [Hvl Heq].
  destruct (varstring_store_safe size f weights Hp Hs from rec Hlb Hpk Hb Hl)
    as (_ & _ & _ & _ & _ & _ & _ & [Hnul _] & Hl' & Hb' & Hfr).
  destruct (st_copy_safe (field_length f) from (char_length f) Hb) as (Hvok & _ & ws & Hw & Hwl).
  set (value := (Collation.copy_fix _ _ _ _).1) in *. fold rec' in Heq.
  assert (exists rest, data f rec' = varstring_image f value ++ rest) as [rest Hd].
  { rewrite Heq. unfold data, write_at. rewrite drop_app_length' by (rewrite length_take; lia). by eexists. }
  assert (varstring_length f (data f rec') = length value) as Hln.
  { rewrite Hd. apply varstring_length_stored; [done|lia]. }
  assert (varstring_data f (data f rec') = value) as Hv.
  { rewrite Hd. apply varstring_stored; [done|lia]. }
  fold rec' in Hnul, Hl', Hb'. split_and!; [|done| |exact Hfr].
  - split; try done; [by apply Hb'|lia|lia|]. rewrite Hv. by exists ws.
  - intros ws' Hw' Hl1 Hl2. rewrite Hv. by apply (st_copy_id _ _ _ ws').
Qed.

(** Storing the bytes 'a', 0xFF, 'b' into the name of 'ann' gives 'a?b'. *)
Lemma varstring_store_witness :
  let rec' := varstring_store sample_name [97; 255; 98] sample_ann in
  varstring_data sample_name (data sample_name rec') = [97; 63; 98] /\
  varchar_ok sample_weights sample_name rec' /\ column_bytes sample_id rec' = column_bytes sample_id sample_ann.
Proof.
  intros rec'. split; [by vm_compute|]. destruct sample_name_placed as [Hp Hs].
  destruct (varstring_store_correct 46 sample_name sample_weights [97; 255; 98] sample_ann
    (string_text _ _ text_utf8mb4_bin) ltac:(split; simpl; done || lia) Hp Hs ltac:(by left) ltac:(done)
    ltac:(by apply (bool_decide_unpack _)) eq_refl ltac:(by apply (bool_decide_unpack _)))
    as (Hok & _ & _ & Hoth).
  split; [exact Hok|]. apply Hoth.
  - split; simpl; [done|lia|done].
  - split; simpl; try lia; intros; simplify_eq; lia.
Defined.

End KeyTuple.
