(* ===== verification/Row.v ===== *)
(** * Row: the record format

    The columns of a row that are not in the primary key are stored as one
    byte string, the payload of the record of the primary key:
    [EloqRecordSchema] (storage/eloq/eloqsql_schema.h, eloqsql_schema.cpp)
    writes a bitmap of NULL flags and the values of the other columns behind
    each other, and reads them back into a record buffer. *)

From S2P Require Import Prelude Buff Charset Latin1 Copy Collation Field Placement Store.
From S2P Require Import Codec Packing VarFormat SpacePad Varchar KeySetup KeyDef KeyOrder Index KeyRead Restore.
From S2P Require Import RoundTrip Layout KeyTuple Double Real.
Import Charset Field Placement Store Packing Varchar KeySetup KeyDef KeyOrder Index KeyRead Layout KeyTuple.

Module Row.

(** ** Types of columns *)

Inductive EloqDataType :=
  | Integer | UnsignedInteger | Decimal | Float | Datetime | Timestamp | Date | Time | String | Binary
  | VarString | VarBinary.

#[export] Instance EloqDataType_eq_dec : EqDecision EloqDataType.
Proof. solve_decision. Defined.

(** [len_]: the bytes of a fixed-length type, the bytes of the length of a
    variable-length type, the decimals of a temporal type, precision and scale
    of a decimal. *)
Record EloqFieldType := { data_type_ : EloqDataType; len_ : nat }.

Definition integer_type (f : Field) : EloqDataType := if unsigned_flag f then UnsignedInteger else Integer.

Definition binary_or (f : Field) (b s : EloqDataType) : EloqDataType :=
  if Collation.number (charset f) =? 63 then b else s.

(** [EloqFieldType::Convert] for a column of a record ([key_length] is 0). *)
Definition Convert (f : Field) : EloqFieldType :=
  match real_type f with
  | MYSQL_TYPE_TINY => {| data_type_ := integer_type f; len_ := 1 |}
  | MYSQL_TYPE_SHORT => {| data_type_ := integer_type f; len_ := 2 |}
  | MYSQL_TYPE_INT24 => {| data_type_ := integer_type f; len_ := 3 |}
  | MYSQL_TYPE_LONG => {| data_type_ := integer_type f; len_ := 4 |}
  | MYSQL_TYPE_LONGLONG => {| data_type_ := integer_type f; len_ := 8 |}
  | MYSQL_TYPE_FLOAT => {| data_type_ := Float; len_ := 4 |}
  | MYSQL_TYPE_DOUBLE => {| data_type_ := Float; len_ := 8 |}
  | MYSQL_TYPE_DATE | MYSQL_TYPE_NEWDATE => {| data_type_ := Date; len_ := 3 |}
  | MYSQL_TYPE_TIME | MYSQL_TYPE_TIME2 => {| data_type_ := Time; len_ := decimals f |}
  | MYSQL_TYPE_DATETIME | MYSQL_TYPE_DATETIME2 => {| data_type_ := Datetime; len_ := decimals f |}
  | MYSQL_TYPE_TIMESTAMP | MYSQL_TYPE_TIMESTAMP2 => {| data_type_ := Timestamp; len_ := decimals f |}
  | MYSQL_TYPE_YEAR => {| data_type_ := Integer; len_ := 1 |}
  | MYSQL_TYPE_VARCHAR | MYSQL_TYPE_VAR_STRING =>
      {| data_type_ := binary_or f VarBinary VarString; len_ := length_bytes f |}
  | MYSQL_TYPE_STRING => {| data_type_ := binary_or f Binary String; len_ := field_length f |}
  | MYSQL_TYPE_DECIMAL | MYSQL_TYPE_NEWDECIMAL =>
      {| data_type_ := Decimal; len_ := (precision f * 256 + decimals f)%nat |}
  | MYSQL_TYPE_BIT => {| data_type_ := Integer; len_ := bytes_in_rec f |}
  | MYSQL_TYPE_TINY_BLOB => {| data_type_ := binary_or f VarBinary VarString; len_ := 1 |}
  | MYSQL_TYPE_MEDIUM_BLOB => {| data_type_ := binary_or f VarBinary VarString; len_ := 3 |}
  | MYSQL_TYPE_LONG_BLOB => {| data_type_ := binary_or f VarBinary VarString; len_ := 4 |}
  | MYSQL_TYPE_BLOB => {| data_type_ := binary_or f VarBinary VarString; len_ := packlength f |}
  | MYSQL_TYPE_SET =>
      let num_of_bytes := pack_length f in
      {| data_type_ := Integer;
         len_ := if (num_of_bytes <=? 2)%nat then num_of_bytes else if (num_of_bytes <=? 4)%nat then 4 else 8 |}
  | MYSQL_TYPE_ENUM => {| data_type_ := UnsignedInteger; len_ := pack_length f |}
  | _ => {| data_type_ := VarBinary; len_ := 4 |}
  end.

(** ** Sizes of values (sql/compat56.cc, strings/decimal.c) *)

Definition my_time_binary_length (dec : nat) : nat := 3 + (dec + 1) / 2.
Definition my_timestamp_binary_length (dec : nat) : nat := 4 + (dec + 1) / 2.
Definition my_datetime_binary_length (dec : nat) : nat := 5 + (dec + 1) / 2.

Definition dig2bytes (n : nat) : nat := nth n [0; 1; 1; 2; 2; 3; 3; 4; 4; 4]%nat 0%nat.

Definition decimal_bin_size (precision scale : nat) : nat :=
  let intg := (precision - scale)%nat in
  let intg0 := (intg / 9)%nat in
  let frac0 := (scale / 9)%nat in
  let intg0x := (intg - intg0 * 9)%nat in
  let frac0x := (scale - frac0 * 9)%nat in
  (intg0 * 4 + dig2bytes intg0x + frac0 * 4 + dig2bytes frac0x)%nat.

(** The bytes that a value of a fixed-length type takes. *)
Definition storage_len (t : EloqFieldType) : nat :=
  match data_type_ t with
  | Time => my_time_binary_length (len_ t)
  | Timestamp => my_timestamp_binary_length (len_ t)
  | Datetime => my_datetime_binary_length (len_ t)
  | Decimal => decimal_bin_size (len_ t / 256) (len_ t mod 256)
  | _ => len_ t
  end.

(** ** The schema of a record *)

(** A column of the table: whether it is stored (not a virtual column) and
    whether it is part of the primary key as a whole. *)
Record row_field := { rf_field : Field; rf_stored_in_db : bool; rf_part_of_pk : bool }.

Record EloqRecordSchema := {
  field_types_ : list EloqFieldType;
  is_part_of_pk_ : list bool;
  non_pk_column_count_ : nat
}.

Definition schema_step (s : EloqRecordSchema) (c : row_field) : EloqRecordSchema :=
  if negb (rf_stored_in_db c) then s
  else {| field_types_ := field_types_ s ++ [Convert (rf_field c)];
          is_part_of_pk_ := is_part_of_pk_ s ++ [rf_part_of_pk c];
          non_pk_column_count_ := non_pk_column_count_ s + (if rf_part_of_pk c then 0 else 1) |}.

Definition new_record_schema (fields : list row_field) : EloqRecordSchema :=
  fold_left schema_step fields {| field_types_ := []; is_part_of_pk_ := []; non_pk_column_count_ := 0 |}.

Definition BitmapBytes (s : EloqRecordSchema) : nat :=
  let field_cnt := non_pk_column_count_ s in
  (field_cnt / 8 + (if (field_cnt mod 8 =? 0)%nat then 0 else 1))%nat.

(** ** Encoding *)

Section Encode.

(** [mem] is what the pointers of BLOB columns point to. *)
Context (mem : Z -> bytes).

Definition blob_get_length (f : Field) (rec : bytes) : nat := Z.to_nat (le_val (take (packlength f) (data f rec))).
Definition blob_get_ptr (f : Field) (rec : bytes) : Z := le_val (take 8 (drop (packlength f) (data f rec))).

Definition EncodeUnsignedInteger (val : nat) (len : nat) : bytes := le_bytes len (Z.of_nat val).

Definition EncodeString (f : Field) (rec : bytes) (len : nat) (fixed_len : bool) : bytes :=
  if negb fixed_len then
    let '(str_len, str) :=
      match real_type f with
      | MYSQL_TYPE_VARCHAR => (varstring_length f (data f rec), drop len (data f rec))
      | _ => (blob_get_length f rec, mem (blob_get_ptr f rec))
      end in
    EncodeUnsignedInteger str_len len ++ take str_len str
  else take len (data f rec).

(** What is appended for a value that is not NULL. *)
Definition encode_value (t : EloqFieldType) (f : Field) (rec : bytes) : bytes :=
  match data_type_ t with
  | VarString => EncodeString f rec (len_ t) false
  | VarBinary =>
      match real_type f with
      | MYSQL_TYPE_VARCHAR =>
          let str_len := varstring_length f (data f rec) in
          EncodeUnsignedInteger str_len (len_ t) ++ take str_len (drop (len_ t) (data f rec))
      | _ =>
          let blob_len := blob_get_length f rec in
          let len_bytes := if (len_ t <=? 2)%nat then len_ t else 4%nat in
          EncodeUnsignedInteger blob_len len_bytes ++ take blob_len (mem (blob_get_ptr f rec))
      end
  | String => EncodeString f rec (len_ t) true
  | Float =>
      let val := Real.val_real f rec in
      if (len_ t =? 8)%nat then Real.double_bytes val else Real.float_bytes (Real.to_float val)
  | _ => take (storage_len t) (data f rec)
  end.

(** [buf[i >> 3] |= 1 << (i & 7)] *)
Definition set_bit (i : nat) (buf : bytes) : bytes :=
  <[(i / 8)%nat := uchar_of (Z.lor (nth (i / 8) buf 0) (Z.shiftl 1 (Z.of_nat (i mod 8))))]> buf.

Fixpoint encode_loop (s : EloqRecordSchema) (rec : bytes) (fields : list row_field) (fidx non_pk_offset : nat)
    (buf : bytes) : option bytes :=
  match fields with
  | [] => Some buf
  | c :: fields =>
      if negb (rf_stored_in_db c) then encode_loop s rec fields fidx non_pk_offset buf
      else
        match is_part_of_pk_ s !! fidx, field_types_ s !! fidx with
        | Some true, _ => encode_loop s rec fields (S fidx) non_pk_offset buf
        | Some false, Some t =>
            let f := rf_field c in
            let buf :=
              if real_maybe_null f && is_real_null f rec then set_bit non_pk_offset buf
              else buf ++ encode_value t f rec in
            encode_loop s rec fields (S fidx) (S non_pk_offset) buf
        | _, _ => None
        end
  end.

Definition Encode (s : EloqRecordSchema) (table_record : bytes) (fields : list row_field) : option bytes :=
  encode_loop s table_record fields 0 0 (replicate (BitmapBytes s) 0).

End Encode.

(** ** Decoding *)

Section Decode.

(** The address of the payload, for the pointers of BLOB columns. *)
Context (buf_addr : Z) (buf : bytes).

Definition DecodeUnsignedInteger (offset len : nat) : nat := Z.to_nat (le_val (take len (drop offset buf))).

(** The value of a column that is not NULL: the record and the offset behind
    the value. *)
Definition decode_value (t : EloqFieldType) (f : Field) (field_requested : bool) (offset : nat) (rec : bytes)
    : bytes * nat :=
  match data_type_ t with
  | VarString =>
      let len_bytes := len_ t in
      let str_len := DecodeUnsignedInteger offset len_bytes in
      let offset := (offset + len_bytes)%nat in
      (if field_requested then
         match real_type f with
         | MYSQL_TYPE_VARCHAR => varstring_store f (take str_len (drop offset buf)) rec
         | _ => blob_set_ptr f str_len (buf_addr + Z.of_nat offset) rec
         end
       else rec, (offset + str_len)%nat)
  | VarBinary =>
      let len_bytes :=
        match real_type f with
        | MYSQL_TYPE_VARCHAR => len_ t
        | _ => if (len_ t <=? 2)%nat then len_ t else 4%nat
        end in
      let str_len := DecodeUnsignedInteger offset len_bytes in
      let offset := (offset + len_bytes)%nat in
      (if field_requested then
         match real_type f with
         | MYSQL_TYPE_VARCHAR => varstring_store f (take str_len (drop offset buf)) rec
         | _ => blob_set_ptr f str_len (buf_addr + Z.of_nat offset) rec
         end
       else rec, (offset + str_len)%nat)
  | Float =>
      let nr := if (len_ t =? 8)%nat then Real.double_get (drop offset buf)
                else Real.to_double (Real.float_get (drop offset buf)) in
      (if field_requested then Real.real_store f nr rec else rec, (offset + len_ t)%nat)
  | String | Binary =>
      (if field_requested then string_store f (take (len_ t) (drop offset buf)) rec else rec, (offset + len_ t)%nat)
  | _ =>
      (if field_requested then write_at (ptr f) (take (storage_len t) (drop offset buf)) rec else rec,
       (offset + storage_len t)%nat)
  end.

Definition get_bit (i : nat) : bool := Z.testbit (nth (i / 8) buf 0) (Z.of_nat (i mod 8)).

(** [fid_off] counts all columns; [decode_set] has the requested ones.
    [is_ckpt_delta] is false in all calls. *)
Fixpoint decode_loop (s : EloqRecordSchema) (decode_set : nat -> bool) (fields : list row_field)
    (fidx fid_off non_pk_offset offset : nat) (rec : bytes) : option bytes :=
  match fields with
  | [] => Some rec
  | c :: fields =>
      if negb (rf_stored_in_db c) then decode_loop s decode_set fields fidx (S fid_off) non_pk_offset offset rec
      else
        match is_part_of_pk_ s !! fidx, field_types_ s !! fidx with
        | Some true, _ => decode_loop s decode_set fields (S fidx) (S fid_off) non_pk_offset offset rec
        | Some false, Some t =>
            let f := rf_field c in
            let '(rec, offset) :=
              if get_bit non_pk_offset then (set_null f rec, offset)
              else decode_value t f (decode_set fid_off) offset (set_notnull f rec) in
            decode_loop s decode_set fields (S fidx) (S fid_off) (S non_pk_offset) offset rec
        | _, _ => None
        end
  end.

Definition Decode (s : EloqRecordSchema) (decode_set : nat -> bool) (table_record : bytes) (fields : list row_field)
    : option bytes :=
  decode_loop s decode_set fields 0 0 0 (BitmapBytes s) table_record.

End Decode.


(** ** The schema of the columns *)

Definition stored (fields : list row_field) : list row_field := List.filter rf_stored_in_db fields.

Definition in_payload (c : row_field) : bool := rf_stored_in_db c && negb (rf_part_of_pk c).

(** The columns of the payload, with their numbers in the table. *)
Fixpoint payload (off : nat) (fields : list row_field) : list (nat * Field) :=
  match fields with
  | [] => []
  | c :: fields => if in_payload c then (off, rf_field c) :: payload (S off) fields else payload (S off) fields
  end.

Lemma new_record_schema_eq fields :
  field_types_ (new_record_schema fields) = map (fun c => Convert (rf_field c)) (stored fields) /\
  is_part_of_pk_ (new_record_schema fields) = map rf_part_of_pk (stored fields) /\
  forall off, non_pk_column_count_ (new_record_schema fields) = length (payload off fields).
Proof.
  unfold new_record_schema.
  assert (forall s, let s' := fold_left schema_step fields s in
    field_types_ s' = field_types_ s ++ map (fun c => Convert (rf_field c)) (stored fields) /\
    is_part_of_pk_ s' = is_part_of_pk_ s ++ map rf_part_of_pk (stored fields) /\
    forall off, non_pk_column_count_ s' = (non_pk_column_count_ s + length (payload off fields))%nat) as H.
  { induction fields as [|c fields IH]; intros s; simpl.
    { rewrite !app_nil_r. split_and!; [done..|]. intros _. lia. }
    destruct (IH (schema_step s c)) as (-> & -> & IH3). unfold schema_step, in_payload in *.
    destruct (rf_stored_in_db c) eqn:E; simpl in *; [|done].
    rewrite <- !app_assoc. split_and!; [done..|]. intros off. rewrite (IH3 (S off)).
    destruct (rf_part_of_pk c); simpl; lia. }
  destruct (H {| field_types_ := []; is_part_of_pk_ := []; non_pk_column_count_ := 0 |}) as (-> & -> & Hn).
  split_and!; done.
Qed.

(** The loops over the columns of the payload. *)
Fixpoint encode_payload (mem : Z -> bytes) (rec : bytes) (cols : list (nat * Field)) (k : nat) (buf : bytes) : bytes :=
  match cols with
  | [] => buf
  | (_, f) :: cols =>
      encode_payload mem rec cols (S k)
        (if real_maybe_null f && is_real_null f rec then set_bit k buf else buf ++ encode_value mem (Convert f) f rec)
  end.

Fixpoint decode_payload (buf_addr : Z) (buf : bytes) (decode_set : nat -> bool) (cols : list (nat * Field))
    (k offset : nat) (rec : bytes) : bytes :=
  match cols with
  | [] => rec
  | (off, f) :: cols =>
      let '(rec, offset) :=
        if get_bit buf k then (set_null f rec, offset)
        else decode_value buf_addr buf (Convert f) f (decode_set off) offset (set_notnull f rec) in
      decode_payload buf_addr buf decode_set cols (S k) offset rec
  end.

Lemma schema_lookup pre fields c rest s :
  fields = pre ++ c :: rest -> s = new_record_schema fields -> rf_stored_in_db c = true ->
  is_part_of_pk_ s !! length (stored pre) = Some (rf_part_of_pk c) /\
  field_types_ s !! length (stored pre) = Some (Convert (rf_field c)).
Proof.
  intros -> -> Hc. destruct (new_record_schema_eq (pre ++ c :: rest)) as (-> & -> & _).
  unfold stored. rewrite List.filter_app, !map_app. simpl. rewrite Hc. simpl.
  rewrite !lookup_app_r by (rewrite length_map; done). by rewrite !length_map, Nat.sub_diag.
Qed.

Lemma encode_loop_payload mem rec fields pre rest s k buf off :
  fields = pre ++ rest -> s = new_record_schema fields ->
  encode_loop mem s rec rest (length (stored pre)) k buf = Some (encode_payload mem rec (payload off rest) k buf).
Proof.
  intros Hf Hs. revert pre Hf k buf off. induction rest as [|c rest IH]; intros pre Hf k buf off; [done|].
  assert (fields = (pre ++ [c]) ++ rest) as Hf' by (rewrite Hf, <- app_assoc; done).
  assert (length (stored (pre ++ [c])) = (length (stored pre) + (if rf_stored_in_db c then 1 else 0))%nat) as Hl.
  { unfold stored. rewrite List.filter_app, length_app. simpl. by destruct (rf_stored_in_db c). }
  cbn [encode_loop payload]. unfold in_payload. destruct (rf_stored_in_db c) eqn:E; cbn [negb andb].
  - destruct (schema_lookup pre fields c rest s Hf Hs E) as [-> ->]. rewrite Nat.add_1_r in Hl. rewrite <- Hl.
    destruct (rf_part_of_pk c); cbn [negb encode_payload]; by rewrite (IH _ Hf' _ _ (S off)).
  - rewrite Nat.add_0_r in Hl. rewrite <- Hl. by rewrite (IH _ Hf' _ _ (S off)).
Qed.

Lemma decode_loop_payload buf_addr buf fields pre rest s decode_set k offset rec off :
  fields = pre ++ rest -> s = new_record_schema fields ->
  decode_loop buf_addr buf s decode_set rest (length (stored pre)) off k offset rec =
    Some (decode_payload buf_addr buf decode_set (payload off rest) k offset rec).
Proof.
  intros Hf Hs. revert pre Hf k offset rec off. induction rest as [|c rest IH]; intros pre Hf k offset rec off; [done|].
  assert (fields = (pre ++ [c]) ++ rest) as Hf' by (rewrite Hf, <- app_assoc; done).
  assert (length (stored (pre ++ [c])) = (length (stored pre) + (if rf_stored_in_db c then 1 else 0))%nat) as Hl.
  { unfold stored. rewrite List.filter_app, length_app. simpl. by destruct (rf_stored_in_db c). }
  cbn [decode_loop payload]. unfold in_payload. destruct (rf_stored_in_db c) eqn:E; cbn [negb andb].
  - destruct (schema_lookup pre fields c rest s Hf Hs E) as [-> ->]. rewrite Nat.add_1_r in Hl. rewrite <- Hl.
    destruct (rf_part_of_pk c); cbn [negb decode_payload]; [by rewrite (IH _ Hf')|].
    destruct (if get_bit buf k then _ else _) as [rec' offset']. by rewrite (IH _ Hf').
  - rewrite Nat.add_0_r in Hl. rewrite <- Hl. by rewrite (IH _ Hf').
Qed.


(** ** The bitmap *)

Lemma get_bit_app buf d j : (j / 8 < length buf)%nat -> get_bit (buf ++ d) j = get_bit buf j.
Proof. intros H. unfold get_bit. by rewrite app_nth1. Qed.

Lemma length_set_bit i buf : length (set_bit i buf) = length buf.
Proof. unfold set_bit. apply length_insert. Qed.

Lemma set_bit_app i buf d : (i / 8 < length buf)%nat -> set_bit i (buf ++ d) = set_bit i buf ++ d.
Proof. intros H. unfold set_bit. rewrite app_nth1 by done. by apply insert_app_l. Qed.

Lemma get_set_bit i j buf : (i / 8 < length buf)%nat -> get_bit (set_bit i buf) j = get_bit buf j || (i =? j)%nat.
Proof.
  intros Hi. unfold get_bit, set_bit. destruct (decide (i / 8 = j / 8)%nat) as [E|E].
  - assert (nth (j / 8) (<[(i / 8)%nat := uchar_of (Z.lor (nth (i / 8) buf 0) (Z.shiftl 1 (Z.of_nat (i mod 8))))]> buf) 0 =
      uchar_of (Z.lor (nth (i / 8) buf 0) (Z.shiftl 1 (Z.of_nat (i mod 8))))) as ->.
    { rewrite <- E. apply nth_lookup_Some. by apply list_lookup_insert_eq. }
    pose proof (Nat.mod_upper_bound i 8 ltac:(lia)). pose proof (Nat.mod_upper_bound j 8 ltac:(lia)).
    unfold uchar_of. change 256 with (2 ^ 8). rewrite Z.mod_pow2_bits_low, Z.lor_spec, E by lia. f_equal.
    rewrite Z.shiftl_spec by lia. destruct (Nat.eqb_spec i j) as [->|Hne].
    + by rewrite Z.sub_diag.
    + destruct (Z.lt_total (Z.of_nat (j mod 8)) (Z.of_nat (i mod 8))) as [Hlt|[Heq|Hgt]].
      * apply Z.testbit_neg_r. lia.
      * pose proof (Nat.div_mod i 8 ltac:(lia)). pose proof (Nat.div_mod j 8 ltac:(lia)). lia.
      * apply (Z.bits_above_log2 1); [lia|change (Z.log2 1) with 0; lia].
  - rewrite (proj2 (Nat.eqb_neq i j)), orb_false_r by congruence. f_equal.
    rewrite !nth_lookup. by rewrite list_lookup_insert_ne.
Qed.

Definition column_null (f : Field) (rec : bytes) : bool := real_maybe_null f && is_real_null f rec.

Lemma column_null_eq f rec : column_null f rec = is_real_null f rec.
Proof.
  unfold column_null. destruct (is_real_null f rec) eqn:E; [|by rewrite andb_false_r].
  apply is_real_null_maybe in E. by rewrite E.
Qed.

(** The values behind the bitmap. *)
Definition column_payload (mem : Z -> bytes) (rec : bytes) (c : nat * Field) : bytes :=
  if column_null c.2 rec then [] else encode_value mem (Convert c.2) c.2 rec.

Definition values (mem : Z -> bytes) (rec : bytes) (cols : list (nat * Field)) : bytes :=
  concat (map (column_payload mem rec) cols).

Lemma encode_payload_spec mem rec cols k bm d :
  (k + length cols <= 8 * length bm)%nat ->
  exists bm', length bm' = length bm /\ encode_payload mem rec cols k (bm ++ d) = bm' ++ d ++ values mem rec cols /\
    (forall j, (j < k)%nat -> get_bit bm' j = get_bit bm j) /\
    forall i c, cols !! i = Some c -> get_bit bm' (k + i) = get_bit bm (k + i) || column_null c.2 rec.
Proof.
  revert k bm d. induction cols as [|[off f] cols IH]; intros k bm d Hk.
  { exists bm. simpl. rewrite app_nil_r. split_and!; done. }
  simpl in Hk. cbn [encode_payload]. fold (column_null f rec).
  assert (k / 8 < length bm)%nat as Hk8 by (apply Nat.Div0.div_lt_upper_bound; lia).
  change (values mem rec ((off, f) :: cols)) with (column_payload mem rec (off, f) ++ values mem rec cols).
  unfold column_payload at 1. cbn [snd]. destruct (column_null f rec) eqn:En.
  - rewrite set_bit_app by done. destruct (IH (S k) (set_bit k bm) d) as (bm' & Hl & -> & Hlow & Hb);
      [rewrite length_set_bit; lia|]. rewrite length_set_bit in Hl. exists bm'. split_and!; [done|done| |].
    + intros j Hj. rewrite Hlow, get_set_bit by lia. by rewrite (proj2 (Nat.eqb_neq _ _)), orb_false_r by lia.
    + intros [|i] c Hc; simpl in Hc.
      * injection Hc as <-. simpl. rewrite En, Nat.add_0_r, Hlow, get_set_bit by lia. by rewrite Nat.eqb_refl, !orb_true_r.
      * rewrite <- Nat.add_succ_comm, (Hb i c Hc), get_set_bit by done. by rewrite (proj2 (Nat.eqb_neq _ _)), orb_false_r by lia.
  - rewrite <- app_assoc. destruct (IH (S k) bm (d ++ encode_value mem (Convert f) f rec)) as (bm' & Hl & -> & Hlow & Hb); [lia|].
    exists bm'. rewrite <- app_assoc. split_and!; [done|done| |].
    + intros j Hj. apply Hlow. lia.
    + intros [|i] c Hc; simpl in Hc.
      * injection Hc as <-. simpl. rewrite En, Nat.add_0_r, Hlow, orb_false_r by lia. done.
      * rewrite <- Nat.add_succ_comm. by apply Hb.
Qed.


(** ** Columns and their values *)

(** Types whose values are copied byte by byte. *)
Definition copied_type (t : EloqDataType) : bool :=
  match t with
  | Integer | UnsignedInteger | Decimal | Datetime | Timestamp | Date | Time => true
  | _ => false
  end.

(** The value of a CHAR column: a string that is well-formed and fits, and
    padding. *)
Definition char_ok (weights : bytes -> option (list Z)) (f : Field) (rec : bytes) : Prop :=
  exists v k ws, take (field_length f) (data f rec) = v ++ replicate k (Collation.pad_char (charset f)) /\
    (length v + k = field_length f)%nat /\ bytes_ok v /\ weights v = Some ws /\ (length ws <= char_length f)%nat.

(** A BLOB column points to as many bytes as its length says. *)
Definition blob_ok (mem : Z -> bytes) (f : Field) (rec : bytes) : Prop :=
  bytes_ok rec /\ (ptr f + packlength f + 8 <= length rec)%nat /\
  (blob_get_length f rec <= length (mem (blob_get_ptr f rec)))%nat.

(** Columns that the payload keeps, and their values.  A type that is copied
    takes as many bytes in the record as in the payload, which a SET of 17 to 24
    members does not; a FLOAT or DOUBLE value is one that the column keeps when
    it is stored again. *)
Inductive payload_part (mem : Z -> bytes) (f : Field) : (bytes -> Prop) -> Prop :=
  | payload_fixed :
      copied_type (data_type_ (Convert f)) = true -> pack_length f = storage_len (Convert f) ->
      payload_part mem f (fun rec => bytes_ok rec /\ (ptr f + pack_length f <= length rec)%nat)
  | payload_real :
      real_type f = MYSQL_TYPE_FLOAT \/ real_type f = MYSQL_TYPE_DOUBLE -> pack_length f = storage_len (Convert f) ->
      payload_part mem f (fun rec => bytes_ok rec /\ (ptr f + pack_length f <= length rec)%nat /\ Real.real_kept f rec)
  | payload_varchar weights :
      varchar_column f -> Storable (charset f) weights -> payload_part mem f (varchar_ok weights f)
  | payload_char weights :
      real_type f = MYSQL_TYPE_STRING -> pack_length f = field_length f ->
      byte_ok (Collation.pad_char (charset f)) -> Storable (charset f) weights ->
      payload_part mem f (char_ok weights f)
  | payload_blob :
      is_blob f = true -> (0 < packlength f <= 4)%nat -> pack_length f = (packlength f + 8)%nat ->
      len_ (Convert f) = packlength f -> payload_part mem f (blob_ok mem f).

(** What the column holds after decoding; [addr] is where the bytes of a BLOB
    are. *)
Definition row_image (addr : Z) (f : Field) (rec : bytes) : bytes :=
  if is_blob f then le_bytes (packlength f) (Z.of_nat (blob_get_length f rec)) ++ le_bytes 8 addr
  else match real_type f with
       | MYSQL_TYPE_VARCHAR => varstring_image f (varstring_data f (data f rec))
       | _ => column_bytes f rec
       end.

(** The address lies in the payload, where the bytes of the BLOB are. *)
Definition blob_at (mem : Z -> bytes) (buf_addr : Z) (buf : bytes) (addr : Z) (f : Field) (rec : bytes) : Prop :=
  is_blob f = true ->
  exists o, addr = buf_addr + Z.of_nat o /\ (o <= length buf)%nat /\
    take (blob_get_length f rec) (drop o buf) = take (blob_get_length f rec) (mem (blob_get_ptr f rec)).

Section Values.

Context (mem : Z -> bytes) (buf_addr : Z) (buf : bytes) (size : nat) (f : Field).
Context (Hpl : placed size f) (Hself : self_apart f).

(** Reading back [enc]: a requested column holds the value, another one keeps
    its bytes. *)
Definition decodes (rec : bytes) : Prop :=
  forall offset out rest,
    drop offset buf = encode_value mem (Convert f) f rec ++ rest -> length out = size ->
    let next := (offset + length (encode_value mem (Convert f) f rec))%nat in
    decode_value buf_addr buf (Convert f) f false offset out = (out, next) /\
    exists out' addr, decode_value buf_addr buf (Convert f) f true offset out = (out', next) /\
      frame size f out out' /\ holds_image f (is_real_null f out) (row_image addr f rec) out' /\
      blob_at mem buf_addr buf addr f rec.

Lemma copied_not_string : copied_type (data_type_ (Convert f)) = true ->
  is_blob f = false /\ real_type f <> MYSQL_TYPE_VARCHAR.
Proof.
  unfold Convert, is_blob, binary_or. intros H. split; destruct (real_type f) eqn:E; try done; simpl in H;
    by destruct (Collation.number (charset f) =? 63).
Qed.

Lemma decodes_fixed rec :
  copied_type (data_type_ (Convert f)) = true -> pack_length f = storage_len (Convert f) ->
  bytes_ok rec -> (ptr f + pack_length f <= length rec)%nat -> decodes rec.
Proof.
  intros Hc Hp Hb Hl offset out rest Hd Ho next. destruct (copied_not_string Hc) as [Hnb Hnv].
  set (img := column_bytes f rec).
  assert (length img = pack_length f) as Hli.
  { unfold img, column_bytes, data. rewrite length_take, length_drop. lia. }
  assert (encode_value mem (Convert f) f rec = img) as Hev.
  { unfold img, column_bytes, encode_value. rewrite Hp. by destruct (data_type_ (Convert f)). }
  assert (forall r, decode_value buf_addr buf (Convert f) f r offset out =
    (if r then write_at (ptr f) img out else out, next)) as Hdv.
  { intros r. unfold decode_value, next. rewrite Hev, Hli, Hp, Hd, Hev, <- Hp, <- Hli, take_app_length.
    by destruct (data_type_ (Convert f)). }
  rewrite !Hdv. split; [done|]. exists (write_at (ptr f) img out), 0. split; [done|].
  assert (row_image 0 f rec = img) as ->.
  { unfold row_image. rewrite Hnb. by destruct (real_type f). }
  split_and!.
  - apply frame_write; try done; [lia|]. unfold img, column_bytes, data. auto with bytes.
  - apply (write_holds size); try done. lia.
  - intros Hb'. congruence.
Qed.

(** A FLOAT or DOUBLE value, as [val_real] reads it and [store] writes it. *)
Lemma real_layout rec out :
  real_type f = MYSQL_TYPE_FLOAT \/ real_type f = MYSQL_TYPE_DOUBLE -> pack_length f = storage_len (Convert f) ->
  bytes_ok rec -> (ptr f + pack_length f <= length rec)%nat -> Real.real_kept f rec ->
  encode_value mem (Convert f) f rec = column_bytes f rec /\
  forall r offset rest, drop offset buf = column_bytes f rec ++ rest ->
    decode_value buf_addr buf (Convert f) f r offset out =
      (if r then write_at (ptr f) (column_bytes f rec) out else out, (offset + pack_length f)%nat).
Proof.
  intros Ht Hp Hb Hl Hk. unfold encode_value, decode_value, column_bytes.
  destruct Ht as [Ht|Ht]; unfold Convert in Hp |- *; rewrite Ht in Hp |- *; cbn in Hp; rewrite Hp in *; cbn [data_type_ len_ Nat.eqb].
  - destruct (Real.float_stored f rec out Ht Hb ltac:(lia) Hk) as [He Hs]. split; [done|]. intros r offset rest Hd.
    rewrite Hs; [done|]. rewrite Hd. apply take_app_length'. unfold data. rewrite length_take, length_drop. lia.
  - destruct (Real.double_stored f rec out Ht Hb ltac:(lia) Hk) as [He Hs]. split; [done|]. intros r offset rest Hd.
    rewrite Hs; [done|]. rewrite Hd. apply take_app_length'. unfold data. rewrite length_take, length_drop. lia.
Qed.

Lemma decodes_real rec :
  real_type f = MYSQL_TYPE_FLOAT \/ real_type f = MYSQL_TYPE_DOUBLE -> pack_length f = storage_len (Convert f) ->
  bytes_ok rec -> (ptr f + pack_length f <= length rec)%nat -> Real.real_kept f rec -> decodes rec.
Proof.
  intros Ht Hp Hb Hl Hk offset out rest Hd Ho next. destruct (real_layout rec out Ht Hp Hb Hl Hk) as [Hev Hdv].
  set (img := column_bytes f rec) in *.
  assert (length img = pack_length f) as Hli.
  { unfold img, column_bytes, data. rewrite length_take, length_drop. lia. }
  unfold next. rewrite Hev in Hd |- *. rewrite Hli, !(Hdv _ offset rest Hd). split; [done|].
  exists (write_at (ptr f) img out), 0. split; [done|].
  assert (is_blob f = false) as Hnb by (unfold is_blob; by destruct Ht as [-> | ->]).
  assert (row_image 0 f rec = img) as -> by (unfold row_image; rewrite Hnb; by destruct Ht as [-> | ->]).
  split_and!.
  - apply frame_write; try done; [lia|]. unfold img, column_bytes, data. auto with bytes.
  - apply (write_holds size); try done. lia.
  - intros Hb'. congruence.
Qed.

(** The length and the bytes of a string. *)
Lemma decode_length n len (s rest : bytes) offset :
  drop offset buf = (le_bytes len (Z.of_nat n) ++ s) ++ rest -> Z.of_nat n < 256 ^ Z.of_nat len ->
  DecodeUnsignedInteger buf offset len = n /\ drop (offset + len) buf = s ++ rest.
Proof.
  intros Hd Hn. unfold DecodeUnsignedInteger. rewrite <- drop_drop, Hd, <- app_assoc.
  rewrite take_app_length', drop_app_length' by (by rewrite length_le_bytes).
  rewrite le_val_le_bytes, Z.mod_small, Nat2Z.id by lia. done.
Qed.

Lemma Convert_varchar : real_type f = MYSQL_TYPE_VARCHAR ->
  Convert f = {| data_type_ := binary_or f VarBinary VarString; len_ := length_bytes f |}.
Proof. intros H. unfold Convert. by rewrite H. Qed.

Lemma decodes_varchar weights rec :
  varchar_column f -> Storable (charset f) weights -> varchar_ok weights f rec -> decodes rec.
Proof.
  intros Hc Hst Hok offset out rest Hd Ho next. pose proof (vc_type _ Hc) as Ht.
  set (val := varstring_data f (data f rec)).
  pose proof (varstring_data_length _ _ _ Hok) as Hlv. pose proof (varchar_length_bound _ _ _ Hok) as Hbound.
  destruct (vo_chars Hok) as (ws & Hw & Hn). pose proof (varstring_data_ok _ _ _ Hok) as Hb.
  pose proof (vo_length Hok) as Hfl. fold val in Hlv, Hw, Hb. rewrite <- Hlv in *.
  assert (encode_value mem (Convert f) f rec = le_bytes (length_bytes f) (Z.of_nat (length val)) ++ val) as Hev.
  { unfold encode_value, EncodeString, EncodeUnsignedInteger. rewrite (Convert_varchar Ht), Ht. cbn [data_type_ len_ negb].
    unfold binary_or, val at 2. unfold varstring_data. rewrite <- Hlv. by destruct (Collation.number (charset f) =? 63). }
  rewrite Hev in Hd. destruct (decode_length _ _ _ _ _ Hd Hbound) as [Hdl Hds].
  assert (forall r, decode_value buf_addr buf (Convert f) f r offset out =
    (if r then varstring_store f val out else out, next)) as Hdv.
  { intros r. unfold decode_value, next. rewrite Hev, length_app, length_le_bytes.
    rewrite (Convert_varchar Ht), Ht. cbn [data_type_ len_]. unfold binary_or.
    destruct (Collation.number (charset f) =? 63); rewrite Hdl, Hds, take_app_length, <- Nat.add_assoc; done. }
  rewrite !Hdv. split; [done|].
  destruct (varstring_store_safe size f weights Hpl Hself val out (vo_length_bytes Hok) (vo_pack_length Hok) Hb Ho)
    as (value & ws' & _ & _ & _ & _ & Hid & Hh & Hfr).
  rewrite (Hid ws Hw ltac:(lia) Hn) in Hh.
  exists (varstring_store f val out), 0. split_and!; try done.
  - unfold row_image, is_blob. by rewrite Ht.
  - unfold blob_at, is_blob. by rewrite Ht.
Qed.

Lemma Convert_char : real_type f = MYSQL_TYPE_STRING ->
  Convert f = {| data_type_ := binary_or f Binary String; len_ := field_length f |}.
Proof. intros H. unfold Convert. by rewrite H. Qed.

(** Storing a value and its padding gives the same bytes. *)
Lemma string_store_padded weights v k ws out :
  Storable (charset f) weights -> pack_length f = field_length f -> byte_ok (Collation.pad_char (charset f)) ->
  (length v + k = field_length f)%nat -> bytes_ok v -> weights v = Some ws -> (length ws <= char_length f)%nat ->
  length out = size ->
  let img := v ++ replicate k (Collation.pad_char (charset f)) in
  string_store f img out = write_at (ptr f) img out.
Proof.
  intros Hst Hp Hpad Hl Hb Hw Hn Ho img. pose proof (pl_fits _ _ Hpl).
  destruct (st_copy_pad (field_length f) v k (char_length f) ws Hb Hw ltac:(lia) Hn) as (j & Hj & Hc).
  unfold string_store. fold img in Hc. rewrite Hc. set (copied := v ++ replicate j _) in *.
  assert (length copied = (length v + j)%nat) as Hlc by (unfold copied; by rewrite length_app, length_replicate).
  destruct (Nat.ltb_spec (length copied) (field_length f)) as [Hlt|Hge].
  - rewrite write_at_app by lia. f_equal. unfold copied, img, my_fill_8bit.
    fold copied. rewrite Hlc, uchar_of_id by done. unfold copied. rewrite <- app_assoc, <- replicate_add. do 2 f_equal. lia.
  - f_equal. unfold copied, img. do 2 f_equal. lia.
Qed.

Lemma decodes_char weights rec :
  real_type f = MYSQL_TYPE_STRING -> pack_length f = field_length f -> byte_ok (Collation.pad_char (charset f)) ->
  Storable (charset f) weights -> char_ok weights f rec -> decodes rec.
Proof.
  intros Ht Hp Hpad Hst (v & k & ws & Hv & Hl & Hb & Hw & Hn) offset out rest Hd Ho next.
  set (img := v ++ replicate k (Collation.pad_char (charset f))) in *.
  assert (length img = field_length f) as Hli by (unfold img; rewrite length_app, length_replicate; lia).
  assert (encode_value mem (Convert f) f rec = img) as Hev.
  { unfold encode_value, EncodeString. rewrite (Convert_char Ht). cbn [data_type_ len_ negb]. unfold binary_or.
    destruct (Collation.number (charset f) =? 63); exact Hv. }
  rewrite Hev in Hd.
  assert (forall r, decode_value buf_addr buf (Convert f) f r offset out =
    (if r then string_store f img out else out, next)) as Hdv.
  { intros r. unfold decode_value, next. rewrite Hev, Hli, (Convert_char Ht). cbn [data_type_ len_]. unfold binary_or.
    rewrite Hd, <- Hli, take_app_length. by destruct (Collation.number (charset f) =? 63). }
  rewrite !Hdv. split; [done|]. rewrite (string_store_padded weights v k ws) by done. fold img.
  exists (write_at (ptr f) img out), 0. split; [done|].
  assert (row_image 0 f rec = img) as ->.
  { unfold row_image, is_blob, column_bytes. by rewrite Ht, Hp. }
  split_and!.
  - apply frame_write; try done; [lia|]. unfold img. apply bytes_ok_app. auto with bytes.
  - apply (write_holds size); try done. lia.
  - unfold blob_at, is_blob. by rewrite Ht.
Qed.

Lemma Convert_blob : is_blob f = true ->
  (data_type_ (Convert f) = VarBinary \/ data_type_ (Convert f) = VarString) /\ real_type f <> MYSQL_TYPE_VARCHAR.
Proof.
  unfold is_blob, Convert, binary_or. intros H.
  destruct (real_type f); try done; simpl; destruct (Collation.number (charset f) =? 63); auto.
Qed.

(** The length of a BLOB takes [len_bytes] bytes. *)
Lemma blob_layout : is_blob f = true -> (packlength f <= 4)%nat -> len_ (Convert f) = packlength f ->
  exists len_bytes, (packlength f <= len_bytes)%nat /\
    (forall rec, encode_value mem (Convert f) f rec =
       le_bytes len_bytes (Z.of_nat (blob_get_length f rec)) ++
       take (blob_get_length f rec) (mem (blob_get_ptr f rec))) /\
    forall r offset out, decode_value buf_addr buf (Convert f) f r offset out =
      let str_len := DecodeUnsignedInteger buf offset len_bytes in
      (if r then blob_set_ptr f str_len (buf_addr + Z.of_nat (offset + len_bytes)) out else out,
       (offset + len_bytes + str_len)%nat).
Proof.
  intros Hbl Hpk Hlen. destruct (Convert_blob Hbl) as [Hty Hnv].
  unfold encode_value, decode_value, EncodeString, EncodeUnsignedInteger. rewrite Hlen. clear Hlen Hbl.
  destruct Hty as [-> | ->]; cbn [negb].
  - exists (if (packlength f <=? 2)%nat then packlength f else 4%nat). split; [destruct (Nat.leb_spec (packlength f) 2); lia|].
    by destruct (real_type f).
  - exists (packlength f). split; [done|]. by destruct (real_type f).
Qed.

Lemma blob_length_bound rec :
  bytes_ok rec -> Z.of_nat (blob_get_length f rec) < 256 ^ Z.of_nat (packlength f).
Proof.
  intros Hb. unfold blob_get_length.
  pose proof (le_val_bound (take (packlength f) (data f rec)) ltac:(unfold data; auto with bytes)) as Hle.
  rewrite length_take in Hle.
  assert (256 ^ Z.of_nat (Nat.min (packlength f) (length (data f rec))) <= 256 ^ Z.of_nat (packlength f))
    by (apply Z.pow_le_mono_r; lia). lia.
Qed.

Lemma decodes_blob rec :
  is_blob f = true -> (0 < packlength f <= 4)%nat -> pack_length f = (packlength f + 8)%nat ->
  len_ (Convert f) = packlength f -> blob_ok mem f rec -> 0 <= buf_addr ->
  decodes rec.
Proof.
  intros Hbl Hpk Hp Hlen (Hb & Hfits & Hm) Ha offset out rest Hd Ho next. pose proof (pl_fits _ _ Hpl) as Hfit.
  destruct (blob_layout Hbl ltac:(lia) Hlen) as (len_bytes & Hge & Hev & Hdv).
  unfold next. rewrite !Hdv. rewrite Hev in *. pose proof (blob_length_bound rec Hb) as Hbound.
  set (n := blob_get_length f rec) in *. set (val := take n (mem (blob_get_ptr f rec))) in *.
  assert (length val = n) as Hlv by (unfold val; rewrite length_take; lia).
  assert (256 ^ Z.of_nat (packlength f) <= 256 ^ Z.of_nat len_bytes) as Hpow by (apply Z.pow_le_mono_r; lia).
  destruct (decode_length n len_bytes val rest offset Hd ltac:(lia)) as [Hdl Hds]. cbv zeta. rewrite Hdl.
  rewrite length_app, length_le_bytes, Hlv, Nat.add_assoc. split; [done|].
  set (addr := buf_addr + Z.of_nat (offset + len_bytes)).
  assert (row_image addr f rec = le_bytes (packlength f) (Z.of_nat n) ++ le_bytes 8 addr) as Hri.
  { unfold row_image. by rewrite Hbl. }
  assert (blob_set_ptr f n addr out = write_at (ptr f) (row_image addr f rec) out) as ->.
  { unfold blob_set_ptr. rewrite Hri, <- write_at_app by (rewrite length_le_bytes; lia). by rewrite length_le_bytes. }
  exists (write_at (ptr f) (row_image addr f rec) out), addr. split; [reflexivity|].
  assert (length (row_image addr f rec) <= pack_length f)%nat as Hil by (rewrite Hri, length_app, !length_le_bytes; lia).
  split_and!.
  - apply frame_write; try done. rewrite Hri. apply bytes_ok_app. split; apply le_bytes_ok.
  - by apply (write_holds size).
  - intros _. exists (offset + len_bytes)%nat. split; [done|]. rewrite Hds. split.
    + apply (f_equal length) in Hd. rewrite length_drop, !length_app, length_le_bytes in Hd. lia.
    + fold n. rewrite <- Hlv at 1. by rewrite take_app_length.
Qed.

Lemma payload_decodes ok rec : payload_part mem f ok -> ok rec -> 0 <= buf_addr -> decodes rec.
Proof.
  intros [Hc Hp|Ht Hp|weights Hc Hst|weights Ht Hp Hpad Hst|Hbl Hpk Hp Hlen] Hok Ha.
  - destruct Hok. by apply decodes_fixed.
  - destruct Hok as (? & ? & ?). by apply decodes_real.
  - by apply (decodes_varchar weights).
  - by apply (decodes_char weights).
  - by apply decodes_blob.
Qed.

End Values.


(** ** Decoding the payload *)

Section Payload.

Context (mem : Z -> bytes) (buf_addr : Z) (buf : bytes) (size : nat) (decode_set : nat -> bool) (rec : bytes).
Context (Haddr : 0 <= buf_addr).

(** A column with a value, or NULL. *)
Definition column_ok (c : nat * Field) : Prop :=
  exists ok, payload_part mem c.2 ok /\ (is_real_null c.2 rec = true \/ ok rec).

(** What the record buffer holds for it after decoding. *)
Definition column_decoded (out : bytes) (c : nat * Field) : Prop :=
  is_real_null c.2 out = is_real_null c.2 rec /\
  (decode_set c.1 = true -> is_real_null c.2 rec = false ->
   exists addr, blob_at mem buf_addr buf addr c.2 rec /\ holds_image c.2 false (row_image addr c.2 rec) out).

Lemma column_decoded_frame f out out' c :
  placed size c.2 -> apart f c.2 -> frame size f out out' -> column_decoded out c -> column_decoded out' c.
Proof.
  intros Hp Ha Hf [Hn Hd]. split.
  - destruct Hf as (_ & _ & H). destruct (H c.2 Hp Ha) as [_ ->]. done.
  - intros Hr Hnn. destruct (Hd Hr Hnn) as (addr & Hb & Hh). exists addr. split; [done|].
    by apply (holds_image_frame size f c.2 _ _ out).
Qed.

Lemma set_null_bit_flag f b out : placed size f -> self_apart f -> length out = size ->
  (b = true -> real_maybe_null f = true) -> is_real_null f (set_null_bit f b out) = b.
Proof.
  intros Hp Hs Hl Hb. destruct (null_ptr f) as [o|] eqn:Eo.
  - by apply (set_null_bit_same size f b out o).
  - unfold real_maybe_null, is_real_null in *. rewrite Eo in *. destruct b; [|done]. by specialize (Hb eq_refl).
Qed.

Lemma decode_step c cols k offset out :
  column_ok c -> placed size c.2 -> self_apart c.2 -> get_bit buf k = is_real_null c.2 rec ->
  drop offset buf = values mem rec (c :: cols) -> length out = size ->
  exists offset' out', decode_payload buf_addr buf decode_set (c :: cols) k offset out =
      decode_payload buf_addr buf decode_set cols (S k) offset' out' /\
    drop offset' buf = values mem rec cols /\ frame size c.2 out out' /\ column_decoded out' c.
Proof.
  intros (ok & Hp & Hok) Hpl Hs Hbit Hd Hl. destruct c as [off f]. cbn [fst snd decode_payload] in *.
  change (values mem rec ((off, f) :: cols)) with (column_payload mem rec (off, f) ++ values mem rec cols) in Hd.
  unfold column_payload in Hd. cbn [snd] in Hd. rewrite column_null_eq in Hd. rewrite Hbit.
  assert (forall b, frame size f out (set_null_bit f b out)) as Hfr by (intros b; by apply frame_set_null_bit).
  assert (is_real_null f (set_null_bit f (is_real_null f rec) out) = is_real_null f rec) as Hflag.
  { apply set_null_bit_flag; try done. apply is_real_null_maybe. }
  specialize (Hfr (is_real_null f rec)). destruct (is_real_null f rec) eqn:En.
  - exists offset, (set_null f out). split_and!; try done. split; cbn [fst snd]; rewrite En; [done|congruence].
  - destruct Hok as [|Hok]; [congruence|]. cbn [set_null_bit] in Hfr, Hflag.
    destruct (payload_decodes mem buf_addr buf size f Hpl Hs ok rec Hp Hok Haddr offset (set_notnull f out)
      (values mem rec cols) Hd (proj1 Hfr)) as (Hskip & out' & addr & Hdec & Hfr' & Hh & Hb).
    assert (forall o', drop (offset + length (encode_value mem (Convert f) f rec)) buf = o' -> o' = values mem rec cols) as Hrest.
    { intros o' <-. rewrite <- drop_drop, Hd. apply drop_app_length. }
    rewrite Hflag in Hh. destruct (decode_set off) eqn:Er.
    + rewrite Hdec. do 2 eexists. split_and!; [reflexivity|by apply Hrest|by eapply frame_trans|].
      split; cbn [fst snd]; rewrite En; [apply Hh|]. intros _ _. by exists addr.
    + rewrite Hskip. do 2 eexists. split_and!; [reflexivity|by apply Hrest|done|].
      split; cbn [fst snd]; rewrite En; [done|congruence].
Qed.

Lemma decode_payload_spec cols k offset out :
  Forall column_ok cols -> laid_out_fields size (map snd cols) ->
  (forall i c, cols !! i = Some c -> get_bit buf (k + i) = is_real_null c.2 rec) ->
  drop offset buf = values mem rec cols -> length out = size ->
  let out' := decode_payload buf_addr buf decode_set cols k offset out in
  length out' = size /\ (bytes_ok out -> bytes_ok out') /\ Forall (column_decoded out') cols /\
  forall g, placed size g -> Forall (fun c => apart c.2 g) cols ->
    column_bytes g out' = column_bytes g out /\ is_real_null g out' = is_real_null g out.
Proof.
  revert k offset out. induction cols as [|c cols IH]; intros k offset out Hok Hlo Hbits Hd Hl; [by split_and!|].
  apply Forall_cons_iff in Hok as [Hc Hok]. destruct Hlo as (Hpl & Hs & Hap & Hlo).
  destruct (decode_step c cols k offset out Hc Hpl Hs) as (offset' & out1 & -> & Hd' & Hfr & Hdec); try done.
  { rewrite <- (Hbits 0%nat c eq_refl). by rewrite Nat.add_0_r. }
  destruct (IH (S k) offset' out1 Hok Hlo) as (Hl' & Hb' & Hall & Hoth); try done.
  { intros i d Hi. rewrite <- (Hbits (S i) d Hi). f_equal. lia. }
  { apply Hfr. }
  cbv zeta. set (out' := decode_payload _ _ _ cols _ _ _) in *. destruct Hfr as (Hl1 & Hb1 & Hfr).
  split_and!; [done|auto| |].
  - constructor; [|done].
    assert (Forall (fun d => apart d.2 c.2) cols) as Hac.
    { rewrite Forall_fmap in Hap. eapply Forall_impl; [|exact Hap]. by intros d [_ ?]. }
    destruct (Hoth c.2 Hpl Hac) as [Ec En]. destruct Hdec as [D1 D2]. split; [by rewrite En|].
    intros H1 H2. destruct (D2 H1 H2) as (addr & Hb & Hh1 & Hh2). exists addr. split; [done|]. split; [by rewrite En|].
    by rewrite Ec.
  - intros g Hg Hap'. apply Forall_cons_iff in Hap' as [Hg1 Hap'].
    destruct (Hoth g Hg Hap') as [-> ->]. by apply Hfr.
Qed.

End Payload.


(** ** The values of a row *)

(** The value of a column that is not NULL. *)
Definition column_value (mem : Z -> bytes) (f : Field) (rec : bytes) : bytes :=
  if is_blob f then take (blob_get_length f rec) (mem (blob_get_ptr f rec))
  else match real_type f with
       | MYSQL_TYPE_VARCHAR => varstring_data f (data f rec)
       | _ => column_bytes f rec
       end.

Lemma image_data f image out :
  take (length image) (column_bytes f out) = image -> exists rest, data f out = image ++ rest.
Proof.
  intros H. exists (drop (length image) (column_bytes f out) ++ drop (pack_length f) (data f out)).
  rewrite app_assoc.
  transitivity ((take (length image) (column_bytes f out) ++ drop (length image) (column_bytes f out)) ++
    drop (pack_length f) (data f out)); [|by rewrite H].
  unfold column_bytes. by rewrite !take_drop.
Qed.

Lemma blob_value mem mem' buf_addr buf addr f rec out :
  bytes_ok rec -> 0 <= buf_addr -> buf_addr + Z.of_nat (length buf) < 2 ^ 64 ->
  (forall o, (o <= length buf)%nat -> mem' (buf_addr + Z.of_nat o) = drop o buf) ->
  is_blob f = true -> blob_at mem buf_addr buf addr f rec ->
  take (length (row_image addr f rec)) (column_bytes f out) = row_image addr f rec ->
  take (blob_get_length f out) (mem' (blob_get_ptr f out)) = take (blob_get_length f rec) (mem (blob_get_ptr f rec)).
Proof.
  intros Hb Ha Hlim Hmem Hbl Hat Himg. destruct (Hat Hbl) as (o & Eo & Ho & Hv).
  destruct (image_data f _ out Himg) as [rest Hd]. unfold row_image in Hd. rewrite Hbl, <- app_assoc in Hd.
  assert (blob_get_length f out = blob_get_length f rec) as ->.
  { unfold blob_get_length at 1. rewrite Hd, take_app_length' by (by rewrite length_le_bytes).
    rewrite le_val_le_bytes, Z.mod_small, Nat2Z.id; [done|]. pose proof (blob_length_bound f rec Hb). lia. }
  assert (blob_get_ptr f out = addr) as ->.
  { unfold blob_get_ptr. rewrite Hd, drop_app_length' by (by rewrite length_le_bytes).
    rewrite take_app_length' by (by rewrite length_le_bytes). rewrite le_val_le_bytes, Z.mod_small; [done|].
    change (256 ^ Z.of_nat 8) with (2 ^ 64). lia. }
  by rewrite Eo, Hmem.
Qed.

Lemma decoded_value mem mem' buf_addr buf addr f ok rec out :
  payload_part mem f ok -> ok rec -> 0 <= buf_addr -> buf_addr + Z.of_nat (length buf) < 2 ^ 64 ->
  (forall o, (o <= length buf)%nat -> mem' (buf_addr + Z.of_nat o) = drop o buf) ->
  blob_at mem buf_addr buf addr f rec -> holds_image f false (row_image addr f rec) out ->
  column_value mem' f out = column_value mem f rec.
Proof.
  intros Hp Hok Ha Hlim Hmem Hat [_ Himg]. specialize (Himg eq_refl). unfold column_value, row_image in *.
  assert (forall n, length (column_bytes f rec) = pack_length f -> n = column_bytes f out ->
    take (length (column_bytes f rec)) n = column_bytes f rec -> n = column_bytes f rec) as Hfull.
  { intros n Hl -> H. rewrite take_ge in H; [done|]. unfold column_bytes at 1. rewrite length_take. lia. }
  destruct Hp as [Hc Hp|Ht Hp|weights Hc Hst|weights Ht Hp Hpad Hst|Hbl Hpk Hp Hlen].
  - destruct (copied_not_string f Hc) as [Hnb Hnv]. rewrite Hnb in *. destruct Hok as [_ Hok].
    assert (length (column_bytes f rec) = pack_length f) as Hl.
    { unfold column_bytes, data. rewrite length_take, length_drop. lia. }
    destruct (real_type f); try done; by apply Hfull.
  - assert (is_blob f = false) as Hnb by (unfold is_blob; by destruct Ht as [-> | ->]). rewrite Hnb in *.
    destruct Hok as (_ & Hok & _). assert (length (column_bytes f rec) = pack_length f) as Hl.
    { unfold column_bytes, data. rewrite length_take, length_drop. lia. }
    destruct Ht as [Ht|Ht]; rewrite Ht in *; by apply Hfull.
  - assert (is_blob f = false) as Hnb by (unfold is_blob; by rewrite (vc_type _ Hc)).
    rewrite Hnb, (vc_type _ Hc) in *. destruct (image_data f _ out Himg) as [rest ->].
    pose proof (varchar_length_bound _ _ _ Hok) as Hb. rewrite <- (varstring_data_length _ _ _ Hok) in Hb.
    apply varstring_stored; [apply (vo_length_bytes Hok)|done].
  - assert (is_blob f = false) as Hnb by (unfold is_blob; by rewrite Ht).
    rewrite Hnb, Ht in *. destruct Hok as (v & k & ws & Hv & Hl & _). apply Hfull; [|done|done].
    unfold column_bytes. rewrite Hp, Hv, length_app, length_replicate. lia.
  - rewrite Hbl in *. destruct Hok as (Hb & _ & _).
    apply (blob_value mem mem' buf_addr buf addr f rec out); try done. unfold row_image. by rewrite Hbl.
Qed.

Lemma bitmap_bits n : (n <= 8 * (n / 8 + (if (n mod 8 =? 0)%nat then 0 else 1)))%nat.
Proof.
  pose proof (Nat.div_mod n 8 ltac:(lia)). pose proof (Nat.mod_upper_bound n 8 ltac:(lia)).
  destruct (Nat.eqb_spec (n mod 8) 0); lia.
Qed.

Lemma get_bit_zeros n j : get_bit (replicate n 0) j = false.
Proof.
  unfold get_bit. assert (nth (j / 8) (replicate n 0) 0 = 0) as ->; [|apply Z.bits_0].
  destruct (Nat.lt_ge_cases (j / 8) n); [apply nth_lookup_Some; by apply lookup_replicate_2|].
  apply nth_overflow. by rewrite length_replicate.
Qed.

(** The encoded payload: a bitmap and the values. *)
Lemma Encode_spec mem rec fields :
  let s := new_record_schema fields in
  exists bm, Encode mem s rec fields = Some (bm ++ values mem rec (payload 0 fields)) /\
    length bm = BitmapBytes s /\
    forall i c, payload 0 fields !! i = Some c -> get_bit (bm ++ values mem rec (payload 0 fields)) i = is_real_null c.2 rec.
Proof.
  intros s. destruct (new_record_schema_eq fields) as (_ & _ & Hcnt). specialize (Hcnt 0%nat). fold s in Hcnt.
  set (cols := payload 0 fields) in *.
  assert (0 + length cols <= 8 * length (replicate (BitmapBytes s) 0%Z))%nat as Hfit.
  { rewrite length_replicate. unfold BitmapBytes. rewrite Hcnt. apply bitmap_bits. }
  destruct (encode_payload_spec mem rec cols 0 (replicate (BitmapBytes s) 0) [] Hfit) as (bm & Hl & He & _ & Hb).
  rewrite app_nil_r, app_nil_l in He. rewrite length_replicate in *. exists bm. split_and!.
  - unfold Encode. rewrite (encode_loop_payload mem rec fields [] fields s 0 _ 0) by done. fold cols. by rewrite He.
  - done.
  - intros i c Hc. assert (i < length cols)%nat as Hi by (by apply lookup_lt_Some in Hc).
    rewrite get_bit_app by (apply Nat.Div0.div_lt_upper_bound; lia).
    specialize (Hb i c Hc). rewrite Nat.add_0_l in Hb. by rewrite Hb, get_bit_zeros, column_null_eq.
Qed.

(** Encoding and decoding: what the record buffer then holds. *)
Lemma row_decoded mem buf_addr size decode_set fields rec out :
  laid_out_fields size (map snd (payload 0 fields)) -> Forall (column_ok mem rec) (payload 0 fields) ->
  length out = size -> 0 <= buf_addr ->
  let s := new_record_schema fields in
  exists buf out', Encode mem s rec fields = Some buf /\ Decode buf_addr buf s decode_set out fields = Some out' /\
    length out' = size /\
    Forall (column_decoded mem buf_addr buf decode_set rec out') (payload 0 fields) /\
    forall g, placed size g -> Forall (fun c => apart c.2 g) (payload 0 fields) ->
      column_bytes g out' = column_bytes g out /\ is_real_null g out' = is_real_null g out.
Proof.
  intros Hlo Hok Hl Ha s. destruct (Encode_spec mem rec fields) as (bm & He & Hbm & Hbits). fold s in He, Hbm.
  set (cols := payload 0 fields) in *. set (buf := bm ++ values mem rec cols) in *.
  assert (drop (BitmapBytes s) buf = values mem rec cols) as Hd by (unfold buf; rewrite <- Hbm; apply drop_app_length).
  destruct (decode_payload_spec mem buf_addr buf size decode_set rec Ha cols 0 (BitmapBytes s) out Hok Hlo Hbits Hd Hl)
    as (Hlen & _ & Hdec & Hoth).
  exists buf, (decode_payload buf_addr buf decode_set cols 0 (BitmapBytes s) out). split_and!; [done| |done|exact Hdec|exact Hoth].
  unfold Decode. by rewrite (decode_loop_payload buf_addr buf fields [] fields s decode_set 0 _ _ 0).
Qed.

(** The values it then has. *)
Lemma row_restored mem mem' buf_addr size decode_set fields rec out :
  laid_out_fields size (map snd (payload 0 fields)) -> Forall (column_ok mem rec) (payload 0 fields) ->
  length out = size -> 0 <= buf_addr ->
  let s := new_record_schema fields in
  exists buf out', Encode mem s rec fields = Some buf /\ Decode buf_addr buf s decode_set out fields = Some out' /\
    length out' = size /\
    (buf_addr + Z.of_nat (length buf) < 2 ^ 64 ->
     (forall o, (o <= length buf)%nat -> mem' (buf_addr + Z.of_nat o) = drop o buf) ->
     Forall (fun c => is_real_null c.2 out' = is_real_null c.2 rec /\
       (decode_set c.1 = true -> is_real_null c.2 rec = false ->
        column_value mem' c.2 out' = column_value mem c.2 rec)) (payload 0 fields)) /\
    forall g, placed size g -> Forall (fun c => apart c.2 g) (payload 0 fields) ->
      column_bytes g out' = column_bytes g out /\ is_real_null g out' = is_real_null g out.
Proof.
  intros Hlo Hok Hl Ha s. destruct (row_decoded mem buf_addr size decode_set fields rec out Hlo Hok Hl Ha)
    as (buf & out' & He & Hd & Hlen & Hdec & Hoth).
  exists buf, out'. split_and!; [done..| |exact Hoth].
  intros Hlim Hmem. apply Forall_forall. intros c Hc. rewrite Forall_forall in Hdec, Hok.
  destruct (Hdec c Hc) as [Hn Hv]. split; [done|]. intros Hr Hnn. destruct (Hv Hr Hnn) as (addr & Hat & Hh).
  destruct (Hok c Hc) as (ok & Hp & [|Hrec]); [congruence|].
  by apply (decoded_value mem mem' buf_addr buf addr c.2 ok).
Qed.

(** C6: a row survives encoding.  [Decode] of what [Encode] made of the
    columns outside of the primary key restores, in any record buffer, the NULL
    flags of all of them and the values of those that are requested, BLOBs
    through pointers into the payload; every other column of the buffer stays
    as it was.  The columns lie apart in the record; those of a type that is
    copied take as many bytes there as in the payload, which excludes a SET of 17
    to 24 members (see [set_overwrites]); a FLOAT or DOUBLE value is one that
    [store] keeps, and a string is well-formed and fits its column. *)
Theorem row_roundtrip mem mem' buf_addr size decode_set fields rec out :
  laid_out_fields size (map snd (payload 0 fields)) -> Forall (column_ok mem rec) (payload 0 fields) ->
  length out = size -> 0 <= buf_addr ->
  let s := new_record_schema fields in
  exists buf out', Encode mem s rec fields = Some buf /\ Decode buf_addr buf s decode_set out fields = Some out' /\
    (buf_addr + Z.of_nat (length buf) < 2 ^ 64 ->
     (forall o, (o <= length buf)%nat -> mem' (buf_addr + Z.of_nat o) = drop o buf) ->
     Forall (fun c => is_real_null c.2 out' = is_real_null c.2 rec /\
       (decode_set c.1 = true -> is_real_null c.2 rec = false ->
        column_value mem' c.2 out' = column_value mem c.2 rec)) (payload 0 fields)) /\
    forall g, placed size g -> Forall (fun c => apart c.2 g) (payload 0 fields) ->
      column_bytes g out' = column_bytes g out /\ is_real_null g out' = is_real_null g out.
Proof.
  intros Hlo Hok Hl Ha s.
  destruct (row_restored mem mem' buf_addr size decode_set fields rec out Hlo Hok Hl Ha) as (buf & out' & ? & ? & _ & ? & ?).
  by exists buf, out'.
Qed.


(** A SET of 17 to 24 members takes three bytes in the record, but four in the
    payload: with it, [Decode] writes the byte of the column behind it. *)
Lemma set_overwrites mem buf_addr buf f rec out offset rest :
  real_type f = MYSQL_TYPE_SET -> pack_length f = 3%nat -> (ptr f + 4 <= length rec)%nat -> (ptr f + 4 <= length out)%nat ->
  drop offset buf = encode_value mem (Convert f) f rec ++ rest ->
  (decode_value buf_addr buf (Convert f) f true offset out).1 !! (ptr f + 3)%nat = rec !! (ptr f + 3)%nat.
Proof.
  intros Ht Hp Hr Ho. unfold encode_value, decode_value, Convert. rewrite Ht, Hp. cbn [data_type_ len_ Nat.leb storage_len].
  intros Hd. assert (length (take 4 (data f rec)) = 4%nat) as Hl by (unfold data; rewrite length_take, length_drop; lia).
  cbn [fst]. rewrite Hd, take_app_length' by done. unfold write_at.
  rewrite lookup_app_r by (rewrite length_take; lia). rewrite length_take, Nat.min_l by lia.
  replace (ptr f + 3 - ptr f)%nat with 3%nat by lia. rewrite lookup_app_l by lia.
  unfold data. by rewrite lookup_take, lookup_drop by lia.
Qed.

(** A SET of 20 members and a TINYINT behind it; the TINYINT is not requested
    and changes from 7 to 5. *)
Example set_overwrites_next :
  let column t index p n := {| field_index := index; real_type := t; ptr := p; null_ptr := None; null_bit := 0; field_length := n;
    pack_length := n; char_length := n; unsigned_flag := false; charset := Collation.my_charset_bin; length_bytes := 0;
    packlength := n; bit_ptr := 0; bit_ofs := 0; bit_len := 0; bytes_in_rec := 0; precision := 0; decimals := 0 |} in
  let fields := [{| rf_field := column MYSQL_TYPE_SET 0 0 3; rf_stored_in_db := true; rf_part_of_pk := false |};
                 {| rf_field := column MYSQL_TYPE_TINY 1 3 1; rf_stored_in_db := true; rf_part_of_pk := false |}]%nat in
  let s := new_record_schema fields in
  (buf ← Encode (fun _ => []) s [1; 2; 3; 5] fields; Decode 0 buf s (fun i => (i =? 0)%nat) [0; 0; 0; 7] fields) =
    Some [1; 2; 3; 5].
Proof. by vm_compute. Qed.

(** The row 9, 'ann' of the sample table without a primary key. *)
Definition sample_fields : list row_field :=
  [{| rf_field := sample_id; rf_stored_in_db := true; rf_part_of_pk := false |};
   {| rf_field := sample_name; rf_stored_in_db := true; rf_part_of_pk := false |}].

Lemma sample_row_laid_out : laid_out_fields 46 (map snd (payload 0 sample_fields)).
Proof.
  destruct sample_name_placed as [Hp Hs]. split_and!; simpl; try done.
  - split; simpl; [done|lia|done].
  - constructor; [|constructor]. split; split; simpl; try lia; intros; simplify_eq; lia.
Qed.

Lemma sample_columns_ok : Forall (column_ok (fun _ => []) sample_ann) (payload 0 sample_fields).
Proof.
  apply Forall_cons_iff. split; [|apply Forall_cons_iff; split; [|constructor]].
  - eexists. split; [by apply payload_fixed|]. right. split; [by apply (bool_decide_unpack _)|simpl; lia].
  - eexists. split; [apply (payload_varchar _ _ sample_weights); [split; simpl; done || lia|exact storable_utf8mb4_bin]|].
    right. eapply sample_name_ok; [by apply (bool_decide_unpack _)|done|vm_compute; congruence|by vm_compute|simpl; lia].
Qed.

Lemma row_roundtrip_witness :
  let s := new_record_schema sample_fields in
  exists buf out', Encode (fun _ => []) s sample_ann sample_fields = Some buf /\
    buf = [0; 9; 0; 0; 0; 3; 97; 110; 110] /\
    Decode 0 buf s (fun _ => true) (replicate 46 255) sample_fields = Some out' /\
    column_value (fun o => drop (Z.to_nat o) buf) sample_name out' = [97; 110; 110].
Proof.
  intros s.
  destruct (row_roundtrip (fun _ => []) (fun o => drop (Z.to_nat o) [0; 9; 0; 0; 0; 3; 97; 110; 110]) 0 46 (fun _ => true) sample_fields
    sample_ann (replicate 46 255) sample_row_laid_out sample_columns_ok eq_refl ltac:(lia)) as (buf & out' & He & Hd & Hv & _).
  fold s in He, Hd.
  assert (buf = [0; 9; 0; 0; 0; 3; 97; 110; 110]) as ->.
  { assert (Some buf = Some [0; 9; 0; 0; 0; 3; 97; 110; 110]) as H by (rewrite <- He; by vm_compute). congruence. }
  exists [0; 9; 0; 0; 0; 3; 97; 110; 110], out'. split; [exact He|]. split; [reflexivity|]. split; [exact Hd|].
  specialize (Hv ltac:(done) ltac:(intros o _; by rewrite Z.add_0_l, Nat2Z.id)).
  apply Forall_cons_iff in Hv as [_ Hv]. apply Forall_cons_iff in Hv as [[_ Hv] _].
  transitivity (column_value (fun _ => []) sample_name sample_ann); [exact (Hv eq_refl eq_refl)|by vm_compute].
Defined.

End Row.
