(* ===== verification/Temporal.v ===== *)
(** * Temporal: dates and times in memory and on disk

    The packed integers and the stored bytes of TIME, DATETIME and TIMESTAMP
    values (src/sql/compat56.cc and src/sql/compat56.h): conversion of a
    [MYSQL_TIME] to its packed integer and back, and of the packed integer to
    the big-endian bytes of a row and back, for each precision.  The lemmas
    give the number that the stored bytes hold: the seconds field by field in
    a mixed radix, followed by the fraction of a second. *)

From S2P Require Import Prelude Charset Row.

Module Temporal.
Import Charset Row.

Inductive enum_mysql_timestamp_type :=
| MYSQL_TIMESTAMP_NONE | MYSQL_TIMESTAMP_ERROR
| MYSQL_TIMESTAMP_DATE | MYSQL_TIMESTAMP_DATETIME | MYSQL_TIMESTAMP_TIME.

Record MYSQL_TIME := {
  year : Z;
  month : Z;
  day : Z;
  hour : Z;
  minute : Z;
  second : Z;
  second_part : Z;
  neg : bool;
  time_type : enum_mysql_timestamp_type
}.

Abbreviation MY_PACKED_TIME_GET_INT_PART x := (Z.shiftr x 24).
Abbreviation MY_PACKED_TIME_GET_FRAC_PART x := (Z.rem x (2 ^ 24)).

(** [MY_PACKED_TIME_MAKE], and [MY_PACKED_TIME_MAKE_INT] for [f = 0]: the sum
    is an [ulonglong] that the callers assign to a [longlong]. *)
Definition MY_PACKED_TIME_MAKE (i f : Z) : Z :=
  signed_of 64 (Z.shiftl (ulonglong_of i) 24 + f).

(** ** TIME *)

Definition TIME_to_longlong_time_packed (ltime : MYSQL_TIME) : Z :=
  let hms := Z.lor (Z.lor (uint_of (Z.shiftl (uint_of (day ltime * 24 + hour ltime)) 12))
                          (uint_of (Z.shiftl (minute ltime) 6)))
                   (second ltime) in
  let tmp := MY_PACKED_TIME_MAKE hms (second_part ltime) in
  if neg ltime then - tmp else tmp.

Definition TIME_from_longlong_time_packed (tmp : Z) : MYSQL_TIME :=
  let neg := tmp <? 0 in
  let tmp := if neg then - tmp else tmp in
  let hms := MY_PACKED_TIME_GET_INT_PART tmp in
  {| year := 0; month := 0; day := 0;
     hour := uint_of (Z.shiftr hms 12) mod 2 ^ 10;
     minute := uint_of (Z.shiftr hms 6) mod 2 ^ 6;
     second := uint_of hms mod 2 ^ 6;
     second_part := MY_PACKED_TIME_GET_FRAC_PART tmp;
     neg := neg;
     time_type := MYSQL_TIMESTAMP_TIME |}.

Abbreviation TIMEF_OFS := 0x800000000000.
Abbreviation TIMEF_INT_OFS := 0x800000.

(** A build whose assertions are compiled in, [dbug], stops where one fails;
    another build does not look. *)
Abbreviation DBUG_ASSERT dbug c x := (if andb dbug (negb c) then None else Some x).

(** The digits of the fraction behind the precision are zero. *)
Abbreviation frac_rounded frac dec :=
  ((dec <=? 6)%nat && (Z.rem frac (10 ^ (6 - Z.of_nat dec)) =? 0)).

(** The bytes stored at [ptr]. *)
Definition my_time_packed_to_binary (dbug : bool) (nr : Z) (dec : nat) : option bytes :=
  DBUG_ASSERT dbug (frac_rounded (MY_PACKED_TIME_GET_FRAC_PART nr) dec)
  match dec with
  | 1%nat | 2%nat =>
      be_bytes 3 (TIMEF_INT_OFS + MY_PACKED_TIME_GET_INT_PART nr)
      ++ [uchar_of (MY_PACKED_TIME_GET_FRAC_PART nr ÷ 10000)]
  | 3%nat | 4%nat =>
      be_bytes 3 (TIMEF_INT_OFS + MY_PACKED_TIME_GET_INT_PART nr)
      ++ be_bytes 2 (MY_PACKED_TIME_GET_FRAC_PART nr ÷ 100)
  | 5%nat | 6%nat => be_bytes 6 (nr + TIMEF_OFS)
  | _ => be_bytes 3 (TIMEF_INT_OFS + MY_PACKED_TIME_GET_INT_PART nr)
  end.

Definition my_time_packed_from_binary (ptr : bytes) (dec : nat) : Z :=
  match dec with
  | 1%nat | 2%nat =>
      let intpart := be_val (take 3 ptr) - TIMEF_INT_OFS in
      let frac := nth 3 ptr 0 in
      if (intpart <? 0) && negb (frac =? 0)
      then MY_PACKED_TIME_MAKE (intpart + 1) ((frac - 0x100) * 10000)
      else MY_PACKED_TIME_MAKE intpart (frac * 10000)
  | 3%nat | 4%nat =>
      let intpart := be_val (take 3 ptr) - TIMEF_INT_OFS in
      let frac := be_val (take 2 (drop 3 ptr)) in
      if (intpart <? 0) && negb (frac =? 0)
      then MY_PACKED_TIME_MAKE (intpart + 1) ((frac - 0x10000) * 100)
      else MY_PACKED_TIME_MAKE intpart (frac * 100)
  | 5%nat | 6%nat => be_val (take 6 ptr) - TIMEF_OFS
  | _ => MY_PACKED_TIME_MAKE (be_val (take 3 ptr) - TIMEF_INT_OFS) 0
  end.

(** ** DATETIME *)

Definition TIME_to_longlong_datetime_packed (ltime : MYSQL_TIME) : Z :=
  let ymd := Z.lor (uint_of (Z.shiftl (uint_of (year ltime * 13 + month ltime)) 5)) (day ltime) in
  let hms := Z.lor (Z.lor (uint_of (Z.shiftl (hour ltime) 12))
                          (uint_of (Z.shiftl (minute ltime) 6)))
                   (second ltime) in
  let tmp := MY_PACKED_TIME_MAKE (Z.lor (Z.shiftl ymd 17) hms) (second_part ltime) in
  if neg ltime then - tmp else tmp.

Definition TIME_from_longlong_datetime_packed (tmp : Z) : MYSQL_TIME :=
  let neg := tmp <? 0 in
  let tmp := if neg then - tmp else tmp in
  let ymdhms := MY_PACKED_TIME_GET_INT_PART tmp in
  let ymd := Z.shiftr ymdhms 17 in
  let ym := Z.shiftr ymd 5 in
  let hms := Z.rem ymdhms (2 ^ 17) in
  {| year := uint_of (ym ÷ 13);
     month := Z.rem ym 13;
     day := Z.rem ymd (2 ^ 5);
     hour := uint_of (Z.shiftr hms 12);
     minute := Z.rem (Z.shiftr hms 6) (2 ^ 6);
     second := Z.rem hms (2 ^ 6);
     second_part := MY_PACKED_TIME_GET_FRAC_PART tmp;
     neg := neg;
     time_type := MYSQL_TIMESTAMP_DATETIME |}.

Abbreviation DATETIMEF_INT_OFS := 0x8000000000.

Definition my_datetime_packed_to_binary (dbug : bool) (nr : Z) (dec : nat) : option bytes :=
  DBUG_ASSERT dbug (frac_rounded (MY_PACKED_TIME_GET_FRAC_PART nr) dec)
  (be_bytes 5 (MY_PACKED_TIME_GET_INT_PART nr + DATETIMEF_INT_OFS)
   ++ match dec with
      | 1%nat | 2%nat => [uchar_of (MY_PACKED_TIME_GET_FRAC_PART nr ÷ 10000)]
      | 3%nat | 4%nat => be_bytes 2 (MY_PACKED_TIME_GET_FRAC_PART nr ÷ 100)
      | 5%nat | 6%nat => be_bytes 3 (MY_PACKED_TIME_GET_FRAC_PART nr)
      | _ => []
      end).

Definition my_datetime_packed_from_binary (ptr : bytes) (dec : nat) : Z :=
  let intpart := signed_of 64 (be_val (take 5 ptr) - DATETIMEF_INT_OFS) in
  match dec with
  | 1%nat | 2%nat => MY_PACKED_TIME_MAKE intpart (signed_of 8 (nth 5 ptr 0) * 10000)
  | 3%nat | 4%nat => MY_PACKED_TIME_MAKE intpart (signed_of 16 (be_val (take 2 (drop 5 ptr))) * 100)
  | 5%nat | 6%nat => MY_PACKED_TIME_MAKE intpart (signed_of 24 (be_val (take 3 (drop 5 ptr))))
  | _ => MY_PACKED_TIME_MAKE intpart 0
  end.

(** ** TIMESTAMP *)

Record timeval := { tv_sec : Z; tv_usec : Z }.

Abbreviation my_max_usec_value dec :=
  (nth dec [0; 900000; 990000; 999000; 999900; 999990; 999999] 0).

Definition my_timestamp_to_binary (dbug : bool) (tm : timeval) (dec : nat) : option bytes :=
  DBUG_ASSERT dbug (frac_rounded (tv_usec tm) dec)
  (be_bytes 4 (tv_sec tm)
   ++ match dec with
      | 1%nat | 2%nat => [uchar_of (tv_usec tm ÷ 10000)]
      | 3%nat | 4%nat => be_bytes 2 (tv_usec tm ÷ 100)
      | 5%nat | 6%nat => be_bytes 3 (tv_usec tm)
      | _ => []
      end).

Definition my_timestamp_from_binary (ptr : bytes) (dec : nat) : timeval :=
  let cut usec := Z.min usec (my_max_usec_value dec) in
  {| tv_sec := be_val (take 4 ptr);
     tv_usec := match dec with
                | 1%nat | 2%nat => cut (nth 4 ptr 0 * 10000)
                | 3%nat | 4%nat => cut (be_val (take 2 (drop 4 ptr)) * 100)
                | 5%nat | 6%nat => cut (be_val (take 3 (drop 4 ptr)))
                | _ => 0
                end |}.

(** ** Precisions

    A precision [dec] keeps [dec] digits of the fraction of a second, in
    [(dec + 1) / 2] bytes of two digits each. *)

Definition frac_bytes (dec : nat) : nat := (dec + 1) / 2.
(** The number of microseconds in one unit of the stored fraction. *)
Definition frac_unit (dec : nat) : Z := 100 ^ (3 - Z.of_nat (frac_bytes dec)).
(** The number of units in one second. *)
Definition frac_units (dec : nat) : Z := 100 ^ Z.of_nat (frac_bytes dec).
Definition frac_range (dec : nat) : Z := 256 ^ Z.of_nat (frac_bytes dec).

(** A build with assertions takes only values without digits behind the
    precision. *)
Definition asserted (dbug : bool) (dec : nat) (us : Z) : Prop :=
  dbug = true -> us mod 10 ^ (6 - Z.of_nat dec) = 0.

Lemma DBUG_ASSERT_ok {A} dbug dec us frac (x : A) : (dec <= 6)%nat -> asserted dbug dec us ->
  frac = us \/ frac = - us -> 0 <= us -> DBUG_ASSERT dbug (frac_rounded frac dec) x = Some x.
Proof.
  intros Hd Ha Hf Hus. destruct dbug; [|done]. rewrite (proj2 (Nat.leb_le _ _) Hd). cbn [andb].
  assert (0 < 10 ^ (6 - Z.of_nat dec)) by (apply Z.pow_pos_nonneg; lia).
  assert (Z.rem frac (10 ^ (6 - Z.of_nat dec)) = 0) as ->; [|done].
  destruct Hf as [->| ->]; rewrite ?Z.rem_opp_l by lia;
    rewrite Z.rem_mod_nonneg, (Ha eq_refl) by lia; done.
Qed.

Lemma precision_ind (P : nat -> Prop) :
  P 0%nat -> P 1%nat -> P 2%nat -> P 3%nat -> P 4%nat -> P 5%nat -> P 6%nat ->
  forall dec, (dec <= 6)%nat -> P dec.
Proof. intros ??????? dec Hd. do 7 (destruct dec as [|dec]; [done|]). lia. Qed.

Lemma frac_unit_units dec : (dec <= 6)%nat ->
  frac_unit dec * frac_units dec = 1000000 /\ 0 < frac_unit dec /\ 0 < frac_units dec <= frac_range dec.
Proof. intros H. do 7 (destruct dec as [|dec]; [vm_compute; repeat split; congruence|]). lia. Qed.

(** A value of precision [dec] is a whole number of units. *)
Lemma frac_unit_divide dec z : (dec <= 6)%nat ->
  z mod 10 ^ (6 - Z.of_nat dec) = 0 -> z mod frac_unit dec = 0.
Proof.
  intros Hd Hmod. apply Z.mod_divide in Hmod; [|lia].
  destruct (frac_unit_units dec Hd) as (_ & Hu & _). apply Z.mod_divide; [lia|].
  refine (Z.divide_trans _ _ _ _ Hmod). exists (10 ^ (6 - Z.of_nat dec) / frac_unit dec).
  clear -Hd. pattern dec. by apply precision_ind.
Qed.

Lemma MY_PACKED_TIME_MAKE_eq i f : - 2 ^ 63 <= i * 2 ^ 24 + f < 2 ^ 63 ->
  MY_PACKED_TIME_MAKE i f = i * 2 ^ 24 + f.
Proof.
  intros H. unfold MY_PACKED_TIME_MAKE, ulonglong_of. rewrite Z.shiftl_mul_pow2 by lia.
  unfold signed_of.
  assert ((i mod 2 ^ 64 * 2 ^ 24 + f) mod 2 ^ 64 = (i * 2 ^ 24 + f) mod 2 ^ 64) as ->.
  { rewrite <- (Z.add_mod_idemp_l (i mod _ * _)), Z.mul_mod_idemp_l, Z.add_mod_idemp_l; lia. }
  destruct (Z.ltb_spec ((i * 2 ^ 24 + f) mod 2 ^ 64) (2 ^ (64 - 1))) as [Hl|Hl];
    revert Hl; dlia.
Qed.

(** The words that the shifts and ors make. *)
Lemma hms_word h m s : 0 <= h < 2 ^ 20 -> 0 <= m < 64 -> 0 <= s < 64 ->
  Z.lor (Z.lor (uint_of (Z.shiftl h 12)) (uint_of (Z.shiftl m 6))) s = h * 2 ^ 12 + m * 2 ^ 6 + s.
Proof.
  intros Hh Hm Hs. rewrite !Z.shiftl_mul_pow2 by lia. unfold uint_of. rewrite !Z.mod_small by lia.
  rewrite (lor_hi 12 (h * 2 ^ 12)), (lor_hi 6); dlia.
Qed.

(** ** TIME *)

(** [w] is the packed hours, minutes and seconds. *)
Lemma time_packed l h :
  h = day l * 24 + hour l -> 0 <= h < 1024 -> 0 <= minute l < 64 -> 0 <= second l < 64 ->
  0 <= second_part l < 2 ^ 24 ->
  TIME_to_longlong_time_packed l =
    (if neg l then -1 else 1) * ((h * 2 ^ 12 + minute l * 2 ^ 6 + second l) * 2 ^ 24 + second_part l).
Proof.
  intros Hh Hb Hm Hs Hp. unfold TIME_to_longlong_time_packed. rewrite <- Hh.
  replace (uint_of h) with h by (unfold uint_of; rewrite Z.mod_small; lia).
  rewrite hms_word, MY_PACKED_TIME_MAKE_eq by lia.
  destruct (neg l); cbv iota; lia.
Qed.

Lemma time_unpacked sg h m s us :
  sg = 1 \/ sg = -1 -> 0 <= h < 1024 -> 0 <= m < 64 -> 0 <= s < 64 -> 0 <= us < 2 ^ 24 ->
  0 < h + m + s + us ->
  TIME_from_longlong_time_packed (sg * ((h * 2 ^ 12 + m * 2 ^ 6 + s) * 2 ^ 24 + us)) =
    {| year := 0; month := 0; day := 0; hour := h; minute := m; second := s;
       second_part := us; neg := sg =? -1; time_type := MYSQL_TIMESTAMP_TIME |}.
Proof.
  intros Hsg Hh Hm Hs Hus Hpos. set (a := (h * 2 ^ 12 + m * 2 ^ 6 + s) * 2 ^ 24 + us).
  assert (0 < a) as Ha by (unfold a; lia).
  assert (TIME_from_longlong_time_packed (sg * a) =
    let hms := Z.shiftr a 24 in
    {| year := 0; month := 0; day := 0; hour := uint_of (Z.shiftr hms 12) mod 2 ^ 10;
       minute := uint_of (Z.shiftr hms 6) mod 2 ^ 6; second := uint_of hms mod 2 ^ 6;
       second_part := Z.rem a (2 ^ 24); neg := sg =? -1;
       time_type := MYSQL_TIMESTAMP_TIME |}) as ->.
  { unfold TIME_from_longlong_time_packed. destruct Hsg as [-> | ->].
    - rewrite Z.mul_1_l. by destruct (Z.ltb_spec a 0); [lia|].
    - destruct (Z.ltb_spec (-1 * a) 0); [|lia]. by replace (- (-1 * a)) with a by lia. }
  cbv zeta. rewrite !Z.shiftr_div_pow2, Z.rem_mod_nonneg by lia. unfold a, uint_of.
  f_equal; dlia.
Qed.

(** The high and the low part of a packed TIME, of either sign. *)
Lemma time_parts sg i k u :
  sg = 1 \/ sg = -1 -> 0 <= i -> 0 < u -> 0 <= k * u < 2 ^ 24 ->
  Z.rem (sg * (i * 2 ^ 24 + k * u)) (2 ^ 24) ÷ u = sg * k /\
  Z.shiftr (sg * (i * 2 ^ 24 + k * u)) 24 =
    if (sg =? -1) && negb (k =? 0) then - i - 1 else sg * i.
Proof.
  intros Hsg Hi Hu Hb. rewrite Z.shiftr_div_pow2 by lia. destruct Hsg as [-> | ->].
  - rewrite !Z.mul_1_l. replace (Z.rem _ _) with (k * u) by (revert Hb; generalize (k * u); dlia).
    split; [apply Z.quot_mul; lia|]. cbn [Z.eqb Pos.eqb andb]. revert Hb. generalize (k * u). dlia.
  - replace (Z.rem _ _) with (- k * u) by (revert Hb; rewrite Z.mul_opp_l; generalize (k * u); dlia).
    split; [rewrite Z.quot_mul; lia|]. cbn [Z.eqb Pos.eqb andb]. destruct (Z.eqb_spec k 0) as [->|Hk].
    + cbn [negb]. dlia.
    + cbn [negb]. assert (k * u <> 0) as Hz by nia. revert Hb Hz. generalize (k * u). dlia.
Qed.

Lemma time_binary_join sg i k u j :
  sg = 1 \/ sg = -1 -> 0 <= i -> 0 < u -> 0 <= k * u < 2 ^ 24 -> 0 <= k < 256 ^ Z.of_nat j ->
  be_bytes 3 (TIMEF_INT_OFS + Z.shiftr (sg * (i * 2 ^ 24 + k * u)) 24)
  ++ be_bytes j (Z.rem (sg * (i * 2 ^ 24 + k * u)) (2 ^ 24) ÷ u) =
    be_bytes (3 + j) ((2 ^ 23 + sg * i) * 256 ^ Z.of_nat j + sg * k).
Proof.
  intros Hsg Hi Hu Hb Hk. destruct (time_parts sg i k u Hsg Hi Hu Hb) as [-> ->].
  pose proof (pow256_pos j). rewrite be_bytes_join. f_equal. destruct Hsg as [-> | ->]; cbn [Z.eqb Pos.eqb andb].
  - rewrite Z.mod_small; lia.
  - destruct (Z.eqb_spec k 0) as [->|Hz]; cbn [negb].
    { rewrite Z.mul_0_r, Z.mod_0_l; lia. }
    rewrite <- (Z.mod_add _ 1), Z.mod_small; lia.
Qed.

(** The number that the bytes of a TIME hold: [i] is the packed hours, minutes
    and seconds, [k] the units of the fraction. *)
Lemma time_binary dbug sg i k dec :
  sg = 1 \/ sg = -1 -> 0 <= i -> 0 <= k < frac_units dec -> (dec <= 6)%nat ->
  asserted dbug dec (k * frac_unit dec) ->
  my_time_packed_to_binary dbug (sg * (i * 2 ^ 24 + k * frac_unit dec)) dec =
    Some (be_bytes (3 + frac_bytes dec) ((2 ^ 23 + sg * i) * frac_range dec + sg * k)).
Proof.
  intros Hsg Hi Hk Hd Has. destruct (frac_unit_units dec Hd) as (Hm & Hu & Hr).
  assert (0 <= k * frac_unit dec < 2 ^ 24) as Hb by nia.
  unfold my_time_packed_to_binary. erewrite DBUG_ASSERT_ok; [|done|exact Has| |lia].
  2: { clear -Hsg Hi Hb. revert Hb. generalize (k * frac_unit dec). intros f Hf.
       destruct Hsg as [-> | ->]; [left|right]; dlia. }
  f_equal.
  assert (0 <= k < 256 ^ Z.of_nat (frac_bytes dec)) as Hw by (unfold frac_range in Hr; lia).
  pose proof (time_binary_join sg i k _ _ Hsg Hi Hu Hb Hw) as Hj. unfold frac_range.
  rewrite <- Hj. clear -Hj Hd. revert Hj. pattern dec. apply precision_ind; [.. |done]; intros Hj.
  6,7: rewrite Hj; f_equal;
    change (frac_unit _) with 1; change (256 ^ _) with (2 ^ 24); lia.
  all: done || by rewrite be_bytes_1.
Qed.

(** The quotient and the remainder of the stored number. *)
Lemma time_stored_parts sg i k w :
  sg = 1 \/ sg = -1 -> 0 <= k < w ->
  ((2 ^ 23 + sg * i) * w + sg * k) / w - TIMEF_INT_OFS =
    (if (sg =? -1) && negb (k =? 0) then - i - 1 else sg * i) /\
  ((2 ^ 23 + sg * i) * w + sg * k) mod w =
    if (sg =? -1) && negb (k =? 0) then w - k else k.
Proof.
  intros Hsg Hk. destruct Hsg as [-> | ->]; cbn [Z.eqb Pos.eqb andb].
  - replace ((2 ^ 23 + 1 * i) * w + 1 * k) with (k + (2 ^ 23 + i) * w) by lia.
    rewrite Z.div_add, Z.div_small, Z.mod_add, Z.mod_small; lia.
  - destruct (Z.eqb_spec k 0) as [->|Hz]; cbn [negb].
    + rewrite Z.mul_0_r, Z.add_0_r, Z.div_mul, Z.mod_mul; lia.
    + replace ((2 ^ 23 + -1 * i) * w + -1 * k) with ((w - k) + (2 ^ 23 - i - 1) * w) by lia.
      rewrite Z.div_add, Z.div_small, Z.mod_add, Z.mod_small; lia.
Qed.


(** Reversing the fraction of a negative value gives the value back. *)
Lemma time_unfrac sg i k w u x f :
  sg = 1 \/ sg = -1 -> 0 <= i < 2 ^ 22 -> 0 <= k < w -> 0 <= k * u < 2 ^ 24 ->
  x = (if (sg =? -1) && negb (k =? 0) then - i - 1 else sg * i) ->
  f = (if (sg =? -1) && negb (k =? 0) then w - k else k) ->
  (if (x <? 0) && negb (f =? 0) then MY_PACKED_TIME_MAKE (x + 1) ((f - w) * u)
   else MY_PACKED_TIME_MAKE x (f * u)) = sg * (i * 2 ^ 24 + k * u).
Proof.
  intros Hsg Hi Hk Hb. destruct Hsg as [-> | ->]; cbn [Z.eqb Pos.eqb andb].
  - intros -> ->. destruct (Z.ltb_spec (1 * i) 0); [lia|]. cbn [andb].
    rewrite MY_PACKED_TIME_MAKE_eq; lia.
  - destruct (Z.eqb_spec k 0) as [->|Hz]; cbn [negb]; intros -> ->.
    + rewrite Z.eqb_refl, andb_false_r. rewrite MY_PACKED_TIME_MAKE_eq; lia.
    + destruct (Z.ltb_spec (- i - 1) 0); [|lia]. destruct (Z.eqb_spec (w - k) 0); [lia|].
      cbn [andb negb]. rewrite MY_PACKED_TIME_MAKE_eq; lia.
Qed.

Lemma time_stored_6 sg i k l :
  sg = 1 \/ sg = -1 -> (6 <= length l)%nat ->
  be_val (take 3 l) - TIMEF_INT_OFS = (if (sg =? -1) && negb (k =? 0) then - i - 1 else sg * i) ->
  be_val (take 3 (drop 3 l)) = (if (sg =? -1) && negb (k =? 0) then 256 ^ 3 - k else k) ->
  be_val (take 6 l) - TIMEF_OFS = sg * (i * 2 ^ 24 + k * 1).
Proof.
  intros Hsg Hlen Hq Hf. rewrite (be_val_take_app 3 3) by lia. rewrite Hf.
  change (256 ^ Z.of_nat 3) with (2 ^ 24). change (256 ^ 3) with (2 ^ 24) in Hf.
  destruct Hsg as [-> | ->]; cbn [Z.eqb Pos.eqb andb] in *; [lia|].
  destruct (Z.eqb_spec k 0) as [->|Hz]; cbn [negb] in *; lia.
Qed.

Lemma time_from_binary sg i k dec rest :
  sg = 1 \/ sg = -1 -> 0 <= i < 2 ^ 22 -> 0 <= k < frac_units dec -> (dec <= 6)%nat ->
  my_time_packed_from_binary
    (be_bytes (3 + frac_bytes dec) ((2 ^ 23 + sg * i) * frac_range dec + sg * k) ++ rest) dec =
  sg * (i * 2 ^ 24 + k * frac_unit dec).
Proof.
  intros Hsg Hi Hk Hd. destruct (frac_unit_units dec Hd) as (Hm & Hu & Hr).
  assert (0 <= k * frac_unit dec < 2 ^ 24) as Hb by nia.
  set (v := (2 ^ 23 + sg * i) * frac_range dec + sg * k).
  assert (0 <= v < 256 ^ Z.of_nat (3 + frac_bytes dec)) as Hv.
  { rewrite Nat2Z.inj_add, Z.pow_add_r by lia. fold (frac_range dec).
    change (256 ^ Z.of_nat 3) with (2 ^ 24). unfold v. destruct Hsg as [-> | ->]; nia. }
  destruct (be_bytes_read 3 (frac_bytes dec) v rest Hv) as [Hi' Hf'].
  destruct (time_stored_parts sg i k (frac_range dec) Hsg ltac:(lia)) as [Hq Hq'].
  fold v in Hq, Hq'. fold (frac_range dec) in Hi', Hf'. rewrite <- Hi' in Hq. rewrite Hq' in Hf'.
  assert (3 + frac_bytes dec <= length (be_bytes (3 + frac_bytes dec) v ++ rest))%nat as Hlen
    by (rewrite length_app, length_be_bytes; lia).
  revert Hq Hf' Hlen. generalize (be_bytes (3 + frac_bytes dec) v ++ rest). clear Hv Hi' Hq' v.
  intros l Hq Hf Hlen.
  pose proof (time_unfrac sg i k (frac_range dec) (frac_unit dec) _ _ Hsg Hi ltac:(lia) Hb Hq Hf) as Ht.
  rewrite <- Ht. revert Ht Hq Hf Hlen. clear -Hd Hi Hsg. pattern dec. apply precision_ind; [..|done];
    intros Ht Hq Hf Hlen.
  - by rewrite andb_false_r.
  - by rewrite be_val_take_1.
  - by rewrite be_val_take_1.
  - done.
  - done.
  - rewrite Ht. by apply time_stored_6.
  - rewrite Ht. by apply time_stored_6.
Qed.

(** ** DATETIME *)

Definition datetime_word (y mo d h mi se : Z) : Z :=
  ((y * 13 + mo) * 2 ^ 5 + d) * 2 ^ 17 + (h * 2 ^ 12 + mi * 2 ^ 6 + se).

Lemma datetime_packed y mo d h mi se us :
  0 <= y <= 9999 -> 0 <= mo <= 12 -> 0 <= d < 32 -> 0 <= h < 32 -> 0 <= mi < 64 -> 0 <= se < 64 ->
  0 <= us < 2 ^ 24 ->
  TIME_to_longlong_datetime_packed
    {| year := y; month := mo; day := d; hour := h; minute := mi; second := se;
       second_part := us; neg := false; time_type := MYSQL_TIMESTAMP_DATETIME |} =
  datetime_word y mo d h mi se * 2 ^ 24 + us.
Proof.
  intros Hy Hmo Hd Hh Hmi Hse Hus. unfold TIME_to_longlong_datetime_packed. simpl.
  rewrite hms_word by lia.
  assert (Z.lor (uint_of (Z.shiftl (uint_of (y * 13 + mo)) 5)) d = (y * 13 + mo) * 2 ^ 5 + d) as ->.
  { unfold uint_of. rewrite (Z.mod_small (y * 13 + mo)), Z.shiftl_mul_pow2 by lia.
    rewrite Z.mod_small, (lor_hi 5); dlia. }
  rewrite Z.shiftl_mul_pow2, (lor_hi 17) by dlia.
  unfold datetime_word. rewrite MY_PACKED_TIME_MAKE_eq; lia.
Qed.

Lemma datetime_unpacked y mo d h mi se us :
  0 <= y <= 9999 -> 0 <= mo <= 12 -> 0 <= d < 32 -> 0 <= h < 32 -> 0 <= mi < 64 -> 0 <= se < 64 ->
  0 <= us < 2 ^ 24 ->
  TIME_from_longlong_datetime_packed (datetime_word y mo d h mi se * 2 ^ 24 + us) =
    {| year := y; month := mo; day := d; hour := h; minute := mi; second := se;
       second_part := us; neg := false; time_type := MYSQL_TIMESTAMP_DATETIME |}.
Proof.
  intros Hy Hmo Hd Hh Hmi Hse Hus. unfold TIME_from_longlong_datetime_packed.
  set (t := datetime_word y mo d h mi se * 2 ^ 24 + us).
  assert (0 <= t) as Ht by (unfold t, datetime_word; lia).
  destruct (Z.ltb_spec t 0) as [?|_]; [lia|].
  assert (Z.shiftr t 24 = datetime_word y mo d h mi se) as ->.
  { rewrite Z.shiftr_div_pow2 by lia. unfold t. dlia. }
  assert (Z.shiftr (datetime_word y mo d h mi se) 17 = (y * 13 + mo) * 2 ^ 5 + d) as ->.
  { rewrite Z.shiftr_div_pow2 by lia. unfold datetime_word. dlia. }
  assert (Z.rem (datetime_word y mo d h mi se) (2 ^ 17) = h * 2 ^ 12 + mi * 2 ^ 6 + se) as ->.
  { unfold datetime_word. dlia. }
  rewrite !Z.shiftr_div_pow2 by lia. unfold uint_of. f_equal; try (clear t Ht; dlia).
  unfold t in *. revert Ht. clear -Hus. generalize (datetime_word y mo d h mi se). dlia.
Qed.

(** The bytes of a fraction of [us] microseconds, written after the bytes of
    a number [x]. *)
Lemma frac_binary n x us dec :
  0 <= us < 1000000 -> (dec <= 6)%nat ->
  be_bytes n x
  ++ match dec with
     | 1%nat | 2%nat => [uchar_of (us ÷ 10000)]
     | 3%nat | 4%nat => be_bytes 2 (us ÷ 100)
     | 5%nat | 6%nat => be_bytes 3 us
     | _ => []
     end =
  be_bytes (n + frac_bytes dec) (x * frac_range dec + us / frac_unit dec).
Proof.
  intros Hus Hd. destruct (frac_unit_units dec Hd) as (Hm & Hu & Hr).
  transitivity (be_bytes n x ++ be_bytes (frac_bytes dec) (us / frac_unit dec)).
  - f_equal. clear Hm Hu Hr. pattern dec. apply precision_ind; [..|done];
      rewrite <- ?Z.quot_div_nonneg by (vm_compute frac_unit; lia); rewrite ?be_bytes_1; try done;
      change (frac_unit _) with 1; by rewrite Z.quot_1_r.
  - rewrite be_bytes_join. fold (frac_range dec). f_equal. rewrite Z.mod_small; [lia|].
    split; [apply Z.div_pos; lia|]. apply Z.lt_le_trans with (frac_units dec); [|lia].
    apply Z.div_lt_upper_bound; lia.
Qed.

(** The number that the bytes of a DATETIME hold: [i] is the packed date and
    time of day. *)
Lemma datetime_binary dbug i us dec :
  0 <= i -> 0 <= us < 1000000 -> (dec <= 6)%nat -> asserted dbug dec us ->
  my_datetime_packed_to_binary dbug (i * 2 ^ 24 + us) dec =
    Some (be_bytes (5 + frac_bytes dec) ((2 ^ 39 + i) * frac_range dec + us / frac_unit dec)).
Proof.
  intros Hi Hus Hd Has. unfold my_datetime_packed_to_binary.
  assert (Z.shiftr (i * 2 ^ 24 + us) 24 = i) as -> by (rewrite Z.shiftr_div_pow2 by lia; dlia).
  assert (Z.rem (i * 2 ^ 24 + us) (2 ^ 24) = us) as -> by dlia.
  erewrite DBUG_ASSERT_ok; [|done|exact Has|by left|lia].
  rewrite Z.add_comm. f_equal. by apply frac_binary.
Qed.

Lemma datetime_from_binary i k dec rest :
  0 <= i < 2 ^ 39 -> 0 <= k < frac_units dec -> (dec <= 6)%nat ->
  my_datetime_packed_from_binary
    (be_bytes (5 + frac_bytes dec) ((2 ^ 39 + i) * frac_range dec + k) ++ rest) dec =
  i * 2 ^ 24 + k * frac_unit dec.
Proof.
  intros Hi Hk Hd. destruct (frac_unit_units dec Hd) as (Hm & Hu & Hr).
  set (v := (2 ^ 39 + i) * frac_range dec + k).
  assert (0 <= v < 256 ^ Z.of_nat (5 + frac_bytes dec)) as Hv.
  { rewrite Nat2Z.inj_add, Z.pow_add_r by lia. fold (frac_range dec).
    change (256 ^ Z.of_nat 5) with (2 ^ 40). unfold v. nia. }
  destruct (be_bytes_read 5 (frac_bytes dec) v rest Hv) as [Hq Hf]. fold (frac_range dec) in Hq, Hf.
  unfold v in Hq at 2, Hf at 2.
  rewrite Z.div_add_l, Z.div_small, Z.add_0_r in Hq by lia.
  rewrite Z.add_comm, Z.mod_add, Z.mod_small in Hf by lia.
  assert (5 + frac_bytes dec <= length (be_bytes (5 + frac_bytes dec) v ++ rest))%nat as Hlen
    by (rewrite length_app, length_be_bytes; lia).
  unfold my_datetime_packed_from_binary. rewrite Hq.
  replace (signed_of 64 (2 ^ 39 + i - DATETIMEF_INT_OFS)) with i
    by (rewrite signed_of_small; [|lia..]; lia).
  revert Hk Hf Hlen. generalize (be_bytes (5 + frac_bytes dec) v ++ rest). clear -Hd Hi.
  intros l. pattern dec. apply precision_ind; [..|done]; intros Hk Hf Hlen; cbv iota beta.
  2-7: vm_compute (frac_bytes _) in Hf.
  2,3: rewrite be_val_take_1 in Hf by done.
  2-7: rewrite Hf, signed_of_small by (vm_compute (frac_units _) in Hk; lia).
  all: rewrite MY_PACKED_TIME_MAKE_eq by (vm_compute (frac_units _) in Hk; lia).
  all: vm_compute (frac_units _) in Hk; vm_compute (frac_unit _); lia.
Qed.

(** ** TIMESTAMP *)

Lemma timestamp_binary dbug tm dec :
  0 <= tv_usec tm < 1000000 -> (dec <= 6)%nat -> asserted dbug dec (tv_usec tm) ->
  my_timestamp_to_binary dbug tm dec =
    Some (be_bytes (4 + frac_bytes dec) (tv_sec tm * frac_range dec + tv_usec tm / frac_unit dec)).
Proof.
  intros Hus Hd Has. unfold my_timestamp_to_binary.
  erewrite DBUG_ASSERT_ok; [|done|exact Has|by left|lia]. f_equal. by apply frac_binary.
Qed.

Lemma my_max_usec_value_eq dec : (dec <= 6)%nat ->
  my_max_usec_value dec = 1000000 - 10 ^ (6 - Z.of_nat dec).
Proof. intros Hd. pattern dec. by apply precision_ind. Qed.

(** The largest fraction of a precision is not cut. *)
Lemma my_max_usec_value_ok dec us : (dec <= 6)%nat ->
  0 <= us < 1000000 -> us mod 10 ^ (6 - Z.of_nat dec) = 0 -> us <= my_max_usec_value dec.
Proof.
  intros Hd Hus Hmod. apply Z.mod_divide in Hmod as [q ->]; [|lia].
  rewrite my_max_usec_value_eq by done.
  assert (10 ^ (6 - Z.of_nat dec) * 10 ^ Z.of_nat dec = 1000000) as Hp
    by (rewrite <- Z.pow_add_r by lia; replace (6 - _ + _) with 6 by lia; done).
  assert (0 < 10 ^ (6 - Z.of_nat dec)) by (apply Z.pow_pos_nonneg; lia).
  enough (q + 1 <= 10 ^ Z.of_nat dec) by nia. nia.
Qed.

Lemma timestamp_from_binary sec k dec rest :
  0 <= sec < 2 ^ 32 -> 0 <= k < frac_units dec -> (dec <= 6)%nat ->
  k * frac_unit dec <= my_max_usec_value dec ->
  my_timestamp_from_binary
    (be_bytes (4 + frac_bytes dec) (sec * frac_range dec + k) ++ rest) dec =
  {| tv_sec := sec; tv_usec := k * frac_unit dec |}.
Proof.
  intros Hi Hk Hd Hmax. destruct (frac_unit_units dec Hd) as (Hm & Hu & Hr).
  set (v := sec * frac_range dec + k).
  assert (0 <= v < 256 ^ Z.of_nat (4 + frac_bytes dec)) as Hv.
  { rewrite Nat2Z.inj_add, Z.pow_add_r by lia. fold (frac_range dec).
    change (256 ^ Z.of_nat 4) with (2 ^ 32). unfold v. nia. }
  destruct (be_bytes_read 4 (frac_bytes dec) v rest Hv) as [Hq Hf]. fold (frac_range dec) in Hq, Hf.
  unfold v in Hq at 2, Hf at 2.
  rewrite Z.div_add_l, Z.div_small, Z.add_0_r in Hq by lia.
  rewrite Z.add_comm, Z.mod_add, Z.mod_small in Hf by lia.
  assert (4 + frac_bytes dec <= length (be_bytes (4 + frac_bytes dec) v ++ rest))%nat as Hlen
    by (rewrite length_app, length_be_bytes; lia).
  unfold my_timestamp_from_binary. rewrite Hq. f_equal.
  revert Hk Hmax Hf Hlen. generalize (be_bytes (4 + frac_bytes dec) v ++ rest). clear -Hd.
  intros l. pattern dec. apply precision_ind; [..|done]; intros Hk Hmax Hf Hlen; cbv iota beta;
    vm_compute (frac_bytes _) in Hf; vm_compute (frac_units _) in Hk.
  2,3: rewrite be_val_take_1 in Hf by done.
  - replace (frac_unit 0) with 1000000 by done. lia.
  - by rewrite Hf, Z.min_l.
  - by rewrite Hf, Z.min_l.
  - by rewrite Hf, Z.min_l.
  - by rewrite Hf, Z.min_l.
  - rewrite Hf, Z.min_l; replace (frac_unit 5) with 1 in * by done; lia.
  - rewrite Hf, Z.min_l; replace (frac_unit 6) with 1 in * by done; lia.
Qed.

End Temporal.
