(* ===== verification/Dates.v ===== *)
(** * Dates: the calendar and the stored dates and times

    The calendar arithmetic of src/storage/eloq/date.h (days since 1970-01-01
    to year, month and day and back, the time of day of a duration) and its
    use in src/storage/eloq/eloqsql_schema.cpp: the conversion of a number of
    microseconds, nanoseconds or days, as an external store keeps a TIME,
    DATETIME, TIMESTAMP or DATE column, to the bytes of the column in a row
    and back. *)

From S2P Require Import Prelude Charset Row Temporal.

Module Dates.
Import Row Temporal.

(** ** The calendar of date.h *)

Record year_month_day := { y_ : Z; m_ : Z; d_ : Z }.

(** [year{y}/month/day]: the members are a [short] and two [unsigned char]. *)
Definition make_ymd (y m d : Z) : year_month_day :=
  {| y_ := signed_of 16 y; m_ := uchar_of m; d_ := uchar_of d |}.

Definition to_days (p : year_month_day) : Z :=
  let y := y_ p - (if m_ p <=? 2 then 1 else 0) in
  let m := m_ p in
  let d := d_ p in
  let era := (if 0 <=? y then y else y - 399) ÷ 400 in
  let yoe := uint_of (y - era * 400) in
  let doy := uint_of ((153 * (if 2 <? m then m - 3 else m + 9) + 2) / 5 + d - 1) in
  let doe := uint_of (yoe * 365 + yoe / 4 - yoe / 100 + doy) in
  era * 146097 + signed_of 32 doe - 719468.

Definition from_days (dp : Z) : year_month_day :=
  let z := dp + 719468 in
  let era := (if 0 <=? z then z else z - 146096) ÷ 146097 in
  let doe := uint_of (z - era * 146097) in
  let yoe := (doe - doe / 1460 + doe / 36524 - doe / 146096) / 365 in
  let y := yoe + era * 400 in
  let doy := doe - (365 * yoe + yoe / 4 - yoe / 100) in
  let mp := (5 * doy + 2) / 153 in
  let d := doy - (153 * mp + 2) / 5 + 1 in
  let m := if mp <? 10 then mp + 3 else mp - 9 in
  make_ymd (y + (if m <=? 2 then 1 else 0)) m d.

Abbreviation usec_per_day := 86400000000.
Abbreviation usec_per_hour := 3600000000.
Abbreviation usec_per_minute := 60000000.
Abbreviation usec_per_second := 1000000.

(** [floor<days>] of a number of microseconds. *)
Definition floor_days (d : Z) : Z :=
  let t := d ÷ usec_per_day in
  if d <? t * usec_per_day then t - 1 else t.

Record hh_mm_ss := { hours : Z; minutes : Z; seconds : Z; subseconds : Z; is_negative : bool }.

Definition make_time (d : Z) : hh_mm_ss :=
  let a := if 0 <=? d then d else - d in
  let h := a ÷ usec_per_hour in
  let m := a ÷ usec_per_minute - h * 60 in
  let rest := a - h * usec_per_hour - m * usec_per_minute in
  let s := rest ÷ usec_per_second in
  {| hours := h; minutes := m; seconds := s; subseconds := rest - s * usec_per_second;
     is_negative := d <? 0 |}.

(** ** Stored columns *)

Definition EncodeDatetime (dbug : bool) (elapse_micro_sec : Z) (precision : nat) (buf : bytes)
    : option bytes :=
  let day := floor_days elapse_micro_sec in
  let ltime := make_time (elapse_micro_sec - day * usec_per_day) in
  let dp := from_days day in
  let mysql_time :=
    {| year := uint_of (y_ dp); month := m_ dp; day := d_ dp;
       hour := uint_of (hours ltime); minute := uint_of (minutes ltime);
       second := uint_of (seconds ltime); second_part := ulonglong_of (subseconds ltime);
       neg := false; time_type := MYSQL_TIMESTAMP_DATETIME |} in
  let start := length buf in
  stored ← my_datetime_packed_to_binary dbug (TIME_to_longlong_datetime_packed mysql_time) precision;
  Some (write_at start stored (buf ++ replicate (my_datetime_binary_length precision) 0)).

(** The value and the offset behind it. *)
Definition DecodeDatetime (precision : nat) (buf : bytes) (offset : nat) : Z * nat :=
  let tmp := my_datetime_packed_from_binary (drop offset buf) precision in
  let mysql_time := TIME_from_longlong_datetime_packed tmp in
  let month := if month mysql_time =? 0 then 1 else month mysql_time in
  let day := if day mysql_time =? 0 then 1 else day mysql_time in
  let day_point := make_ymd (year mysql_time) month day in
  (to_days day_point * usec_per_day + hour mysql_time * usec_per_hour
   + minute mysql_time * usec_per_minute + second mysql_time * usec_per_second
   + second_part mysql_time,
   (offset + my_datetime_binary_length precision)%nat).

Definition EncodeTime (dbug : bool) (elapse_micro_sec : Z) (precision : nat) (buf : bytes)
    : option bytes :=
  let ltime := make_time elapse_micro_sec in
  let mysql_time :=
    {| year := 0; month := 0; day := 0;
       hour := uint_of (hours ltime); minute := uint_of (minutes ltime);
       second := uint_of (seconds ltime); second_part := ulonglong_of (subseconds ltime);
       neg := elapse_micro_sec <? 0; time_type := MYSQL_TIMESTAMP_TIME |} in
  let start := length buf in
  stored ← my_time_packed_to_binary dbug (TIME_to_longlong_time_packed mysql_time) precision;
  Some (write_at start stored (buf ++ replicate (my_time_binary_length precision) 0)).

Definition DecodeTime (precision : nat) (buf : bytes) (offset : nat) : Z * nat :=
  let tmp := my_time_packed_from_binary (drop offset buf) precision in
  let mysql_time := TIME_from_longlong_time_packed tmp in
  let tp := hour mysql_time * usec_per_hour + minute mysql_time * usec_per_minute
            + second mysql_time * usec_per_second + second_part mysql_time in
  (if neg mysql_time then - tp else tp, (offset + my_time_binary_length precision)%nat).

Abbreviation CassDateEpochCenter := 2147483648.

(** The DATE and TIMESTAMP cases of [EncodePlainValue], from the number that
    the text of the column holds, and of [BindDynamoAttribute], which gives the
    number and the offset behind the column; the TIME and DATETIME cases are
    the functions above.  [len] is the length of the field type: 3 for a DATE,
    the decimals of a TIMESTAMP. *)
Definition EncodePlainValue_Date (val : Z) (len : nat) (buf : bytes) : bytes :=
  let cass_days := uint_of val in
  let num_of_days :=
    signed_of 32 (if CassDateEpochCenter <=? cass_days then cass_days - CassDateEpochCenter
                  else - (CassDateEpochCenter - cass_days)) in
  let dp := from_days num_of_days in
  let tmp := uint_of (y_ dp * 16 * 32 + m_ dp * 32 + d_ dp) in
  write_at (length buf) (le_bytes 3 tmp) (buf ++ replicate len 0).

Definition BindDynamoAttribute_Date (len : nat) (rec_buf : bytes) (offset : nat) : Z * nat :=
  let tmp := le_val (take 3 (drop offset rec_buf)) in
  let day := Z.land tmp 31 in
  let month := Z.land (Z.shiftr tmp 5) 15 in
  let year := ushort_of (Z.shiftr tmp 9) in
  (uint_of (CassDateEpochCenter + to_days (make_ymd year month day)), (offset + len)%nat).

Definition EncodePlainValue_Timestamp (dbug : bool) (elapse_micro_sec : Z) (len : nat) (buf : bytes)
    : option bytes :=
  let tm := {| tv_sec := elapse_micro_sec ÷ 1000000; tv_usec := Z.rem elapse_micro_sec 1000000 |} in
  stored ← my_timestamp_to_binary dbug tm len;
  Some (write_at (length buf) stored (buf ++ replicate (my_timestamp_binary_length len) 0)).

Definition BindDynamoAttribute_Timestamp (len : nat) (rec_buf : bytes) (offset : nat) : Z * nat :=
  let tm := my_timestamp_from_binary (drop offset rec_buf) len in
  (tv_sec tm * 1000000 + tv_usec tm, (offset + my_timestamp_binary_length len)%nat).

(** ** The calendar

    A date is an era of 400 years, a year of the era that begins on the first
    of March, and a day of that year. *)

(** A date as one number, in the order of the calendar. *)
Definition date_word (p : year_month_day) : Z := (y_ p * 13 + m_ p) * 2 ^ 5 + d_ p.

Definition year_of_era (doe : Z) : Z := (doe - doe / 1460 + doe / 36524 - doe / 146096) / 365.
Definition year_start (yoe : Z) : Z := 365 * yoe + yoe / 4 - yoe / 100.

Lemma year_of_era_bounds doe : 0 <= doe < 146097 ->
  0 <= year_of_era doe < 400 /\ year_start (year_of_era doe) <= doe /\
  doe < year_start (year_of_era doe + 1) + (if year_of_era doe =? 399 then 1 else 0).
Proof.
  unfold year_start, year_of_era. intros H. split; [revert H; dlia|]. split; [revert H; dlia|].
  destruct (Z.eqb_spec ((doe - doe / 1460 + doe / 36524 - doe / 146096) / 365) 399) as [He|He];
    revert H He; dlia.
Qed.

Lemma year_of_era_mono a b : 0 <= a <= b -> year_of_era a <= year_of_era b.
Proof. unfold year_of_era. dlia. Qed.

Lemma year_of_era_unique doe y : 0 <= doe < 146097 -> 0 <= y < 400 ->
  year_start y <= doe < year_start (y + 1) + (if y =? 399 then 1 else 0) -> year_of_era doe = y.
Proof.
  intros Hd Hy. pose proof (year_of_era_bounds doe Hd) as (Hb & Hl & Hu). revert Hb Hl Hu.
  generalize (year_of_era doe). unfold year_start. intros w.
  destruct (Z.eqb_spec w 399), (Z.eqb_spec y 399); intros; try lia; dlia.
Qed.

(** The month and the day of a day of the year, with the months counted from
    March and the first months of the next year after December. *)
Definition month_of (doy : Z) : Z := let mp := (5 * doy + 2) / 153 in if mp <? 10 then mp + 3 else mp - 9.
Definition day_of (doy : Z) : Z := doy - (153 * ((5 * doy + 2) / 153) + 2) / 5 + 1.
Definition carry (doy : Z) : Z := if month_of doy <=? 2 then 1 else 0.
Definition doy_word (doy : Z) : Z := (carry doy * 13 + month_of doy) * 2 ^ 5 + day_of doy.

Definition doy_ok (doy : Z) : bool :=
  (1 <=? month_of doy) && (month_of doy <=? 12) && (1 <=? day_of doy) && (day_of doy <=? 31)
  && (doy_word doy <? doy_word (doy + 1))
  && ((153 * (if 2 <? month_of doy then month_of doy - 3 else month_of doy + 9) + 2) / 5
      + day_of doy - 1 =? doy).

Lemma doy_facts doy : 0 <= doy < 366 ->
  1 <= month_of doy <= 12 /\ 1 <= day_of doy <= 31 /\ doy_word doy < doy_word (doy + 1) /\
  (153 * (if 2 <? month_of doy then month_of doy - 3 else month_of doy + 9) + 2) / 5
    + day_of doy - 1 = doy.
Proof.
  intros H. assert (doy_ok doy = true) as Hok by (revert doy H; by apply Z_range_forall).
  unfold doy_ok in Hok. lia.
Qed.

Lemma doy_word_bounds doy : 0 <= doy < 366 -> 97 <= doy_word doy <= 509.
Proof.
  intros H. enough ((97 <=? doy_word doy) && (doy_word doy <=? 509) = true) by lia.
  revert doy H. by apply (Z_range_forall 366 (fun doy => (97 <=? doy_word doy) && (doy_word doy <=? 509))).
Qed.

Lemma doy_word_mono : mono_on 0 365 doy_word.
Proof. apply mono_on_step. intros x Hx. apply doy_facts. lia. Qed.

(** Days are counted from the first of March of the year 0. *)
Definition civil_year (z : Z) : Z := z / 146097 * 400 + year_of_era (z mod 146097).
Definition civil_doy (z : Z) : Z := z mod 146097 - year_start (year_of_era (z mod 146097)).
Definition civil (z : Z) : year_month_day :=
  {| y_ := civil_year z + carry (civil_doy z); m_ := month_of (civil_doy z); d_ := day_of (civil_doy z) |}.

Lemma civil_doy_bounds z : 0 <= civil_doy z < 366.
Proof.
  unfold civil_doy. pose proof (Z.mod_pos_bound z 146097 ltac:(lia)) as Hb.
  destruct (year_of_era_bounds _ Hb) as (Hy & Hl & Hu). revert Hy Hl Hu.
  generalize (z mod 146097) (year_of_era (z mod 146097)). intros a w. unfold year_start.
  destruct (Z.eqb_spec w 399); dlia.
Qed.

Lemma date_word_civil z : date_word (civil z) = civil_year z * 416 + doy_word (civil_doy z).
Proof. unfold date_word, doy_word, civil. simpl y_. simpl m_. simpl d_. lia. Qed.

Lemma civil_year_mono a b : a <= b -> civil_year a <= civil_year b.
Proof.
  intros H. unfold civil_year.
  pose proof (Z.mod_pos_bound a 146097 ltac:(lia)) as Ha.
  pose proof (Z.mod_pos_bound b 146097 ltac:(lia)) as Hb.
  destruct (year_of_era_bounds _ Ha) as (? & _). destruct (year_of_era_bounds _ Hb) as (? & _).
  assert (a / 146097 <= b / 146097) as Hd by (apply Z.div_le_mono; lia).
  destruct (Z.eq_dec (a / 146097) (b / 146097)) as [He|]; [|lia].
  enough (year_of_era (a mod 146097) <= year_of_era (b mod 146097)) by lia.
  apply year_of_era_mono. pose proof (Z.div_mod a 146097). pose proof (Z.div_mod b 146097). lia.
Qed.

(** The order of the dates is the order of the days. *)
Lemma date_word_mono a b : a < b -> date_word (civil a) < date_word (civil b).
Proof.
  intros H. rewrite !date_word_civil.
  pose proof (civil_doy_bounds a) as Ha. pose proof (civil_doy_bounds b) as Hb.
  pose proof (doy_word_bounds _ Ha). pose proof (doy_word_bounds _ Hb).
  pose proof (civil_year_mono a b ltac:(lia)) as Hy.
  destruct (Z.eq_dec (civil_year a) (civil_year b)) as [He|]; [|lia].
  enough (doy_word (civil_doy a) < doy_word (civil_doy b)) by lia.
  apply doy_word_mono; [lia| |lia]. revert He. unfold civil_year, civil_doy.
  destruct (year_of_era_bounds (a mod 146097)) as (? & _); [apply Z.mod_pos_bound; lia|].
  destruct (year_of_era_bounds (b mod 146097)) as (? & _); [apply Z.mod_pos_bound; lia|].
  intros He. assert (a / 146097 = b / 146097) as Hd by lia.
  assert (year_of_era (a mod 146097) = year_of_era (b mod 146097)) as -> by lia.
  pose proof (Z.div_mod a 146097). pose proof (Z.div_mod b 146097). lia.
Qed.

Lemma date_word_mono_le a b : a <= b -> date_word (civil a) <= date_word (civil b).
Proof.
  intros H. destruct (Z.eq_dec a b) as [->|]; [lia|]. apply Z.lt_le_incl, date_word_mono. lia.
Qed.

Lemma to_days_civil z : to_days (civil z) = z - 719468.
Proof.
  pose proof (civil_doy_bounds z) as Hd. destruct (doy_facts _ Hd) as (Hm & Hday & _ & Hdoy).
  unfold to_days, civil. cbn [y_ m_ d_]. fold (carry (civil_doy z)). rewrite Z.add_simpl_r, Hdoy.
  pose proof (Z.mod_pos_bound z 146097 ltac:(lia)) as Hb.
  destruct (year_of_era_bounds _ Hb) as (Hy & _).
  assert ((if 0 <=? civil_year z then civil_year z else civil_year z - 399) ÷ 400 = z / 146097) as ->.
  { unfold civil_year. revert Hy. generalize (year_of_era (z mod 146097)) (z / 146097). intros w e Hw.
    destruct (Z.leb_spec 0 (e * 400 + w)); dlia. }
  replace (civil_year z - z / 146097 * 400) with (year_of_era (z mod 146097)) by (unfold civil_year; lia).
  unfold uint_of. rewrite (Z.mod_small (year_of_era _)), (Z.mod_small (civil_doy z)) by lia.
  replace (year_of_era (z mod 146097) * 365 + _ - _ + civil_doy z) with (z mod 146097)
    by (unfold civil_doy, year_start; lia).
  rewrite Z.mod_small, signed_of_small by lia. pose proof (Z.div_mod z 146097). lia.
Qed.

Lemma from_days_civil z :
  -32768 <= y_ (civil z) < 32768 -> from_days (z - 719468) = civil z.
Proof.
  intros Hy. unfold from_days. rewrite Z.sub_add.
  assert ((if 0 <=? z then z else z - 146096) ÷ 146097 = z / 146097) as ->.
  { destruct (Z.leb_spec 0 z); dlia. }
  pose proof (Z.mod_pos_bound z 146097 ltac:(lia)) as Hb.
  replace (z - z / 146097 * 146097) with (z mod 146097) by (pose proof (Z.div_mod z 146097); lia).
  unfold uint_of. rewrite (Z.mod_small (z mod 146097)) by lia.
  fold (year_of_era (z mod 146097)). cbv zeta. fold (year_start (year_of_era (z mod 146097))).
  fold (civil_doy z). fold (month_of (civil_doy z)). fold (day_of (civil_doy z)).
  destruct (doy_facts _ (civil_doy_bounds z)) as (Hm & Hday & _ & _).
  fold (carry (civil_doy z)). revert Hy. unfold civil. cbn [y_]. intros Hy.
  unfold make_ymd, uchar_of, civil_year in *. rewrite !(Z.mod_small _ 256) by lia. f_equal.
  rewrite signed_of_id by lia. lia.
Qed.

(** The days of the years 0 to 9999, from 1970-01-01. *)
Definition day_ok (day : Z) : Prop := -719528 <= day < 2932897.

Lemma from_days_ok day : day_ok day ->
  from_days day = civil (day + 719468) /\ to_days (from_days day) = day /\
  0 <= y_ (from_days day) <= 9999 /\ 1 <= m_ (from_days day) <= 12 /\ 1 <= d_ (from_days day) <= 31.
Proof.
  intros Hd. unfold day_ok in Hd. set (z := day + 719468).
  destruct (doy_facts _ (civil_doy_bounds z)) as (Hm & Hday & _ & _).
  change (month_of (civil_doy z)) with (m_ (civil z)) in Hm.
  change (day_of (civil_doy z)) with (d_ (civil z)) in Hday.
  assert (0 <= y_ (civil z) <= 9999) as Hy.
  { assert (date_word (civil (-60)) <= date_word (civil z) <= date_word (civil 3652364)) as Hw.
    { split; apply date_word_mono_le; lia. }
    change (date_word (civil (-60))) with 33 in Hw.
    change (date_word (civil 3652364)) with 4159999 in Hw.
    unfold date_word in Hw. lia. }
  assert (from_days day = civil z) as He.
  { replace day with (z - 719468) by lia. apply from_days_civil. lia. }
  rewrite He, to_days_civil. repeat split; lia.
Qed.

(** ** The time of day *)

Lemma floor_days_eq d : floor_days d = d / usec_per_day.
Proof. unfold floor_days. destruct (Z.ltb_spec d (d ÷ usec_per_day * usec_per_day)); dlia. Qed.

Lemma make_time_eq d a : a = Z.abs d ->
  make_time d =
    {| hours := a / usec_per_hour; minutes := a / usec_per_minute mod 60;
       seconds := a / usec_per_second mod 60; subseconds := a mod usec_per_second;
       is_negative := d <? 0 |}.
Proof.
  intros Ha. assert (0 <= a) as Hp by lia. unfold make_time.
  replace (if 0 <=? d then d else - d) with a by (destruct (Z.leb_spec 0 d); lia).
  clear Ha. f_equal; revert Hp; dlia.
Qed.

(** The hours, minutes and seconds of a number of seconds as one number, over
    a number [f] of the hours. *)
Definition clock_word (f : Z -> Z) : Z -> Z := radix 60 64 (radix 60 64 f).

Lemma clock_word_eq f s :
  clock_word f s = f (s / 3600) * 2 ^ 12 + (s / 60) mod 60 * 2 ^ 6 + s mod 60.
Proof. unfold clock_word, radix. rewrite Z.div_div by lia. change (60 * 60) with 3600. lia. Qed.

Lemma clock_word_mono f lo hi :
  mono_on lo hi f -> mono_on (lo * 3600) (hi * 3600 + 3599) (clock_word f).
Proof.
  intros Hf. unfold clock_word. intros x y Hx Hxy Hy.
  apply (radix_mono 60 64 _ (lo * 60) (hi * 60 + 59)); [lia| |lia..].
  replace (hi * 60 + 59) with (hi * 60 + 60 - 1) by lia. apply radix_mono; [lia|done].
Qed.

(** A number of microseconds in units of the precision, over a number [f] of
    the seconds. *)
Definition usec_word (dec : nat) (f : Z -> Z) (t : Z) : Z :=
  radix (frac_units dec) (frac_range dec) f (t / frac_unit dec).

Lemma usec_word_eq dec f t : (dec <= 6)%nat ->
  usec_word dec f t = f (t / 1000000) * frac_range dec + t mod 1000000 / frac_unit dec.
Proof.
  intros Hd. destruct (frac_unit_units dec Hd) as (Hm & Hu & Hr).
  unfold usec_word, radix. rewrite Z.div_div, Hm by lia. f_equal.
  rewrite <- Hm, mod_mul_div; [done|lia..].
Qed.

Lemma usec_floor dec t : (dec <= 6)%nat ->
  t mod 1000000 / frac_unit dec * frac_unit dec = t mod 1000000 - t mod frac_unit dec.
Proof.
  intros Hd. destruct (frac_unit_units dec Hd) as (Hm & Hu & Hr).
  rewrite <- Hm, mod_mul_div, Z.rem_mul_r; lia.
Qed.

(** Strings of bytes of one length compare as the values they hold. *)
Lemma usec_word_compare dec f n lo hi a b :
  (dec <= 6)%nat -> mono_on lo hi f -> (forall s, lo <= s <= hi -> 0 <= f s < 256 ^ Z.of_nat n) ->
  lo * 1000000 <= a < hi * 1000000 + 1000000 -> lo * 1000000 <= b < hi * 1000000 + 1000000 ->
  lex_cmp (be_bytes (n + frac_bytes dec) (usec_word dec f a))
          (be_bytes (n + frac_bytes dec) (usec_word dec f b)) =
  (a / frac_unit dec ?= b / frac_unit dec).
Proof.
  intros Hd Hf Hr Ha Hb. destruct (frac_unit_units dec Hd) as (Hm & Hu & Hw).
  assert (forall t, lo * 1000000 <= t < hi * 1000000 + 1000000 ->
    0 <= usec_word dec f t < 256 ^ Z.of_nat (n + frac_bytes dec) /\
    lo * frac_units dec <= t / frac_unit dec <= hi * frac_units dec + frac_units dec - 1) as Hin.
  { intros t Ht. split.
    - rewrite usec_word_eq by done.
      assert (lo <= t / 1000000 <= hi) as Hs by dlia. specialize (Hr _ Hs).
      assert (0 <= t mod 1000000 / frac_unit dec < frac_units dec) as Hk.
      { pose proof (Z.mod_pos_bound t 1000000). split; [apply Z.div_pos; lia|].
        apply Z.div_lt_upper_bound; lia. }
      rewrite Nat2Z.inj_add, Z.pow_add_r by lia. fold (frac_range dec). clear -Hr Hk Hw. nia.
    - assert (forall x, frac_unit dec * (x * frac_units dec) = x * 1000000) as Hx
        by (intros x; rewrite <- Hm; ring).
      split; [apply Z.div_le_lower_bound; [lia|rewrite Hx; lia]|].
      apply Z.lt_succ_r, Z.div_lt_upper_bound; [lia|].
      replace (Z.succ _) with ((hi + 1) * frac_units dec) by lia. rewrite Hx. lia. }
  rewrite lex_cmp_be_bytes by (apply Hin; lia).
  unfold usec_word. eapply mono_on_compare; [by apply radix_mono|apply Hin; lia..].
Qed.

(** ** DATETIME *)

(** The microseconds of the years 0 to 9999. *)
Definition datetime_ok (t : Z) : Prop := day_ok (t / usec_per_day).

#[export] Instance datetime_ok_dec t : Decision (datetime_ok t).
Proof. unfold datetime_ok, day_ok. apply _. Defined.

Definition day_word (day : Z) : Z := date_word (civil (day + 719468)).
Definition datetime_sec (s : Z) : Z := 2 ^ 39 + clock_word (radix 24 32 day_word) s.

Lemma datetime_sec_eq t :
  datetime_sec (t / 1000000) =
    2 ^ 39 + (day_word (t / usec_per_day) * 2 ^ 17
      + (t mod usec_per_day / usec_per_hour * 2 ^ 12
         + t mod usec_per_day / usec_per_minute mod 60 * 2 ^ 6
         + t mod usec_per_day / usec_per_second mod 60)).
Proof.
  unfold datetime_sec. rewrite clock_word_eq. unfold radix. rewrite !Z.div_div by lia.
  change (1000000 * (3600 * 24)) with usec_per_day. change (1000000 * 3600) with usec_per_hour.
  change (1000000 * 60) with usec_per_minute.
  pose proof (mod_mul_div t usec_per_hour 24 ltac:(lia) ltac:(lia)) as Hh.
  pose proof (mod_mul_div t usec_per_minute 1440 ltac:(lia) ltac:(lia)) as Hm.
  pose proof (mod_mul_div t usec_per_second 86400 ltac:(lia) ltac:(lia)) as Hs.
  change (t mod usec_per_day / usec_per_hour = (t / usec_per_hour) mod 24) in Hh.
  change (t mod usec_per_day / usec_per_minute = (t / usec_per_minute) mod 1440) in Hm.
  change (t mod usec_per_day / usec_per_second = (t / usec_per_second) mod 86400) in Hs.
  rewrite Hh, Hm, Hs.
  assert (t / usec_per_minute mod 60 = (t / usec_per_minute) mod 1440 mod 60) as -> by dlia.
  assert (t / 1000000 mod 60 = (t / 1000000) mod 86400 mod 60) as -> by dlia.
  lia.
Qed.

(** The fields of the time of day. *)
Lemma time_of_day_bounds a : 0 <= a < usec_per_day ->
  0 <= a / usec_per_hour < 24 /\ 0 <= a / usec_per_minute mod 60 < 60 /\
  0 <= a / usec_per_second mod 60 < 60 /\ 0 <= a mod usec_per_second < 1000000.
Proof. dlia. Qed.

Lemma time_of_day_sum a : 0 <= a ->
  a = a / usec_per_hour * usec_per_hour + a / usec_per_minute mod 60 * usec_per_minute
      + a / usec_per_second mod 60 * usec_per_second + a mod usec_per_second.
Proof. dlia. Qed.

Lemma usec_precision dec t : (dec <= 6)%nat ->
  t mod 10 ^ (6 - Z.of_nat dec) = 0 -> (t mod 1000000) mod 10 ^ (6 - Z.of_nat dec) = 0.
Proof.
  intros Hd H. assert (10 ^ Z.of_nat dec * 10 ^ (6 - Z.of_nat dec) = 1000000) as Hp
    by (rewrite <- Z.pow_add_r by lia; replace (_ + (6 - _)) with 6 by lia; done).
  assert (10 ^ (6 - Z.of_nat dec) <> 0) as Hz by (apply Z.pow_nonzero; lia).
  apply Z.mod_divide; [done|]. apply Z.mod_divide in H; [|done]. rewrite Z.mod_eq by lia.
  apply Z.divide_sub_r; [done|]. rewrite <- Hp at 1. exists (10 ^ Z.of_nat dec * (t / 1000000)). ring.
Qed.

Lemma asserted_fraction dbug dec t : (dec <= 6)%nat ->
  asserted dbug dec t -> asserted dbug dec (t mod 1000000).
Proof. intros Hd Ha He. by apply usec_precision, Ha. Qed.

(** The stored number of a DATETIME, by its fields. *)
Lemma usec_word_datetime t dec : datetime_ok t -> (dec <= 6)%nat ->
  let dp := from_days (t / usec_per_day) in
  let a := t mod usec_per_day in
  usec_word dec datetime_sec t =
    (2 ^ 39 + datetime_word (y_ dp) (m_ dp) (d_ dp) (a / usec_per_hour)
                (a / usec_per_minute mod 60) (a / usec_per_second mod 60)) * frac_range dec
    + a mod usec_per_second / frac_unit dec.
Proof.
  intros Ht Hd dp a. destruct (from_days_ok _ Ht) as (Hc & _). fold dp in Hc.
  rewrite usec_word_eq, datetime_sec_eq by done. fold a. unfold day_word, datetime_word, date_word.
  rewrite <- Hc. replace (t mod 1000000) with (a mod usec_per_second) by (unfold a; dlia). lia.
Qed.

Lemma EncodeDatetime_eq dbug t dec buf : datetime_ok t -> (dec <= 6)%nat -> asserted dbug dec t ->
  EncodeDatetime dbug t dec buf =
    Some (buf ++ be_bytes (5 + frac_bytes dec) (usec_word dec datetime_sec t)).
Proof.
  intros Ht Hd Has. unfold EncodeDatetime. rewrite floor_days_eq.
  destruct (from_days_ok _ Ht) as (_ & _ & Hy & Hm & Hday).
  set (a := t mod usec_per_day).
  assert (0 <= a < usec_per_day) as Ha by (apply Z.mod_pos_bound; lia).
  destruct (time_of_day_bounds a Ha) as (Hh & Hmi & Hse & Hus).
  rewrite (make_time_eq _ a) by (pose proof (Z.div_mod t usec_per_day); lia).
  cbn [hours minutes seconds subseconds]. unfold uint_of, ulonglong_of.
  rewrite !(Z.mod_small _ (2 ^ 32)), (Z.mod_small _ (2 ^ 64)) by lia.
  rewrite datetime_packed by lia. rewrite datetime_binary; [|unfold datetime_word; lia|done..|].
  - cbn [mbind option_bind]. rewrite write_at_end by by rewrite length_replicate, length_be_bytes.
    by rewrite usec_word_datetime.
  - replace (a mod usec_per_second) with (t mod 1000000) by (unfold a; dlia).
    by apply asserted_fraction.
Qed.

Lemma make_ymd_id p : -32768 <= y_ p < 32768 -> 0 <= m_ p < 256 -> 0 <= d_ p < 256 ->
  make_ymd (y_ p) (m_ p) (d_ p) = p.
Proof.
  intros Hy Hm Hd. unfold make_ymd, uchar_of. rewrite signed_of_id, !Z.mod_small by lia.
  by destruct p.
Qed.

Lemma DecodeDatetime_eq t dec buf rest : datetime_ok t -> (dec <= 6)%nat ->
  DecodeDatetime dec (buf ++ be_bytes (5 + frac_bytes dec) (usec_word dec datetime_sec t) ++ rest)
    (length buf) = (t - t mod frac_unit dec, (length buf + (5 + frac_bytes dec))%nat).
Proof.
  intros Ht Hd. unfold DecodeDatetime. rewrite drop_app_length, usec_word_datetime by done.
  destruct (frac_unit_units dec Hd) as (Hu1 & Hu & Hw).
  destruct (from_days_ok _ Ht) as (_ & Hto & Hy & Hm & Hday).
  set (a := t mod usec_per_day).
  assert (0 <= a < usec_per_day) as Ha by (apply Z.mod_pos_bound; lia).
  destruct (time_of_day_bounds a Ha) as (Hh & Hmi & Hse & Hus).
  set (k := a mod usec_per_second / frac_unit dec).
  assert (0 <= k < frac_units dec) as Hk.
  { split; [apply Z.div_pos; lia|]. apply Z.div_lt_upper_bound; lia. }
  rewrite datetime_from_binary by (try done; unfold datetime_word; lia).
  rewrite datetime_unpacked by first [lia | nia]. cbn [year month day hour minute second second_part].
  destruct (Z.eqb_spec (m_ (from_days (t / usec_per_day))) 0) as [?|_]; [lia|].
  destruct (Z.eqb_spec (d_ (from_days (t / usec_per_day))) 0) as [?|_]; [lia|].
  rewrite make_ymd_id, Hto by lia. f_equal.
  assert (a mod usec_per_second = t mod 1000000) as He by (unfold a; dlia).
  unfold k. rewrite He, usec_floor by done.
  pose proof (time_of_day_sum a ltac:(lia)). pose proof (Z.div_mod t usec_per_day). lia.
Qed.

Lemma datetime_sec_mono : mono_on (-719528 * 86400) (2932896 * 86400 + 86399) datetime_sec.
Proof.
  intros x y Hx Hxy Hy. unfold datetime_sec. enough (clock_word (radix 24 32 day_word) x <
    clock_word (radix 24 32 day_word) y) by lia.
  apply (clock_word_mono _ (-719528 * 24) (2932896 * 24 + 24 - 1)); [|lia..].
  apply radix_mono; [lia|]. intros a b _ Hab _. apply date_word_mono. lia.
Qed.

Lemma datetime_sec_range s : -719528 * 86400 <= s <= 2932896 * 86400 + 86399 ->
  0 <= datetime_sec s < 256 ^ Z.of_nat 5.
Proof.
  intros Hs. assert (datetime_ok (s * 1000000)) as Ht by (unfold datetime_ok, day_ok; revert Hs; dlia).
  destruct (from_days_ok _ Ht) as (Hc & _ & Hy & Hm & Hday).
  pose proof (datetime_sec_eq (s * 1000000)) as He. rewrite Z.div_mul in He by lia. rewrite He.
  destruct (time_of_day_bounds ((s * 1000000) mod usec_per_day)) as (Hh & Hmi & Hse & _);
    [apply Z.mod_pos_bound; lia|].
  unfold day_word, date_word. rewrite <- Hc. change (256 ^ Z.of_nat 5) with (2 ^ 40). lia.
Qed.

(** C8: a DATETIME of the years 0 to 9999, given in microseconds from
    1970-01-01.  [EncodeDatetime] appends the same bytes to every buffer,
    [DecodeDatetime] gives the microseconds back with the offset behind the
    column, cut down to the stored unit, and the stored bytes of two values
    compare as the values do in that unit.  The stored unit is two digits per
    byte: the precisions 1 and 2 store hundredths, 3 and 4 hundred
    microseconds, 5 and 6 microseconds.  A build without assertions takes every
    value; a build with them only values that have no digit behind the
    precision, and stops at another one. *)
Theorem datetime_stored dbug t t' dec rest :
  datetime_ok t -> datetime_ok t' -> (dec <= 6)%nat ->
  asserted dbug dec t -> asserted dbug dec t' ->
  exists stored stored',
    (forall buf, EncodeDatetime dbug t dec buf = Some (buf ++ stored)) /\
    (forall buf, EncodeDatetime dbug t' dec buf = Some (buf ++ stored')) /\
    (forall buf, DecodeDatetime dec (buf ++ stored ++ rest) (length buf) =
      (t - t mod frac_unit dec, length (buf ++ stored))) /\
    lex_cmp stored stored' = (t / frac_unit dec ?= t' / frac_unit dec).
Proof.
  intros Ht Ht' Hd Ha Ha'. eexists _, _.
  split; [intros buf; by apply EncodeDatetime_eq|]. split; [intros buf; by apply EncodeDatetime_eq|].
  split.
  - intros buf. by rewrite DecodeDatetime_eq, length_app, length_be_bytes.
  - eapply usec_word_compare; [done|exact datetime_sec_mono|exact datetime_sec_range|..];
      [revert Ht|revert Ht']; unfold datetime_ok, day_ok; dlia.
Qed.

Lemma datetime_stored_witness :
  datetime_ok 1700000000123400 /\ datetime_ok (-62167219200000000) /\
  asserted true 4 1700000000123400 /\
  exists stored stored',
    (forall buf, EncodeDatetime true 1700000000123400 4 buf = Some (buf ++ stored)) /\
    (forall buf, EncodeDatetime true (-62167219200000000) 4 buf = Some (buf ++ stored')) /\
    (forall buf, DecodeDatetime 4 (buf ++ stored ++ [9]) (length buf) =
      (1700000000123400, length (buf ++ stored))) /\
    lex_cmp stored stored' = Gt.
Proof.
  assert (datetime_ok 1700000000123400) as H1 by (vm_compute; split; congruence).
  assert (datetime_ok (-62167219200000000)) as H2 by (vm_compute; split; congruence).
  assert (asserted true 4 1700000000123400) as H3 by (intros _; vm_compute; reflexivity).
  split; [exact H1|]. split; [exact H2|]. split; [exact H3|].
  exact (datetime_stored true 1700000000123400 (-62167219200000000) 4 [9] H1 H2 ltac:(lia) H3
    ltac:(intros _; vm_compute; reflexivity)).
Defined.

(** A fraction finer than the precision: cut without assertions, refused by
    them. *)
Example datetime_finer :
  (stored ← EncodeDatetime false 1700000000123456 4 []; Some (DecodeDatetime 4 stored 0)) =
    Some (1700000000123400, 7%nat) /\
  EncodeDatetime true 1700000000123456 4 [] = None.
Proof. by vm_compute. Qed.

(** ** TIME *)

(** The hours have ten bits; the value is a whole number of units. *)
Definition time_ok (dec : nat) (t : Z) : Prop :=
  Z.abs t < 1024 * usec_per_hour /\ t mod frac_unit dec = 0.

Definition sign (t : Z) : Z := if t <? 0 then -1 else 1.
Definition time_sec : Z -> Z := clock_word (fun h => h).
(** The stored number, before the offset. *)
Definition time_number (dec : nat) (t : Z) : Z := sign t * usec_word dec time_sec (Z.abs t).

Lemma sign_cases t : sign t = 1 \/ sign t = -1.
Proof. unfold sign. destruct (t <? 0); auto. Qed.

Lemma sign_abs t : sign t * Z.abs t = t.
Proof. unfold sign. destruct (Z.ltb_spec t 0); lia. Qed.

Lemma abs_unit dec t : (dec <= 6)%nat -> t mod frac_unit dec = 0 -> Z.abs t mod frac_unit dec = 0.
Proof.
  intros Hd H. destruct (frac_unit_units dec Hd) as (_ & Hu & _).
  apply Z.mod_divide; [lia|]. apply Z.divide_abs_r. apply Z.mod_divide; [lia|done].
Qed.

Lemma asserted_abs dbug dec t : (dec <= 6)%nat -> asserted dbug dec t -> asserted dbug dec (Z.abs t).
Proof.
  intros Hd Ha He. specialize (Ha He). assert (10 ^ (6 - Z.of_nat dec) <> 0) by (apply Z.pow_nonzero; lia).
  apply Z.mod_divide; [done|]. apply Z.divide_abs_r. by apply Z.mod_divide.
Qed.

(** The fields of a TIME of [a] microseconds. *)
Lemma clock_bounds a : 0 <= a < 1024 * usec_per_hour ->
  0 <= a / usec_per_hour < 1024 /\ 0 <= a / usec_per_minute mod 60 < 60 /\
  0 <= a / usec_per_second mod 60 < 60 /\ 0 <= a mod usec_per_second < 1000000.
Proof. dlia. Qed.

Lemma time_sec_eq a :
  time_sec (a / 1000000) =
    a / usec_per_hour * 2 ^ 12 + a / usec_per_minute mod 60 * 2 ^ 6 + a / usec_per_second mod 60.
Proof. unfold time_sec. by rewrite clock_word_eq, !Z.div_div by lia. Qed.

Lemma EncodeTime_eq dbug t dec buf : time_ok dec t -> (dec <= 6)%nat -> asserted dbug dec t ->
  EncodeTime dbug t dec buf =
    Some (buf ++ be_bytes (3 + frac_bytes dec) (2 ^ 23 * frac_range dec + time_number dec t)).
Proof.
  intros [Ha Hu] Hd Has. apply (asserted_abs _ _ _ Hd), (asserted_fraction _ _ _ Hd) in Has. apply abs_unit in Hu; [|done]. unfold EncodeTime.
  destruct (frac_unit_units dec Hd) as (Hu1 & Hu2 & Hw).
  rewrite (make_time_eq t (Z.abs t)) by done. unfold time_number.
  pose proof (sign_cases t) as Hsg. set (sg := sign t) in *.
  destruct (clock_bounds (Z.abs t)) as (Hh & Hmi & Hse & Hus); [lia|].
  pose proof (usec_floor dec (Z.abs t) Hd) as Hf. rewrite Hu, Z.sub_0_r in Hf.
  rewrite usec_word_eq, time_sec_eq by done. set (a := Z.abs t) in *.
  cbn [hours minutes seconds subseconds]. unfold uint_of, ulonglong_of.
  rewrite !(Z.mod_small _ (2 ^ 32)), (Z.mod_small _ (2 ^ 64)) by lia.
  rewrite (time_packed _ (a / usec_per_hour)); cbn [day hour minute second second_part neg]; [|lia..].
  change (if t <? 0 then -1 else 1) with sg. rewrite <- Hf at 1.
  set (k := a mod 1000000 / frac_unit dec) in *.
  rewrite time_binary; [|done|lia| |done|by rewrite Hf].
  - cbn [mbind option_bind]. rewrite write_at_end by by rewrite length_replicate, length_be_bytes.
    do 3 f_equal. lia.
  - unfold k. split; [apply Z.div_pos; lia|]. apply Z.div_lt_upper_bound; lia.
Qed.

Lemma DecodeTime_eq t dec buf rest : time_ok dec t -> (dec <= 6)%nat ->
  DecodeTime dec (buf ++ be_bytes (3 + frac_bytes dec) (2 ^ 23 * frac_range dec + time_number dec t) ++ rest)
    (length buf) = (t, (length buf + (3 + frac_bytes dec))%nat).
Proof.
  intros [Ha Hu] Hd. apply abs_unit in Hu; [|done]. unfold DecodeTime. rewrite drop_app_length.
  destruct (frac_unit_units dec Hd) as (Hu1 & Hu2 & Hw). unfold time_number.
  pose proof (sign_cases t) as Hsg. pose proof (sign_abs t) as Ht. set (sg := sign t) in *.
  destruct (clock_bounds (Z.abs t)) as (Hh & Hmi & Hse & Hus); [lia|].
  pose proof (usec_floor dec (Z.abs t) Hd) as Hf. rewrite Hu, Z.sub_0_r in Hf.
  rewrite usec_word_eq, time_sec_eq by done. pose proof (time_of_day_sum (Z.abs t) ltac:(lia)) as Hsum.
  set (a := Z.abs t) in *. set (k := a mod 1000000 / frac_unit dec) in *.
  set (i := a / usec_per_hour * 2 ^ 12 + a / usec_per_minute mod 60 * 2 ^ 6 + a / usec_per_second mod 60).
  replace (2 ^ 23 * frac_range dec + sg * (i * frac_range dec + k))
    with ((2 ^ 23 + sg * i) * frac_range dec + sg * k) by lia.
  rewrite time_from_binary; [|done|unfold i; lia| |done].
  2: { unfold k. split; [apply Z.div_pos; lia|]. apply Z.div_lt_upper_bound; lia. }
  rewrite Hf. f_equal. destruct (Z.eq_dec t 0) as [->|Hz]; [by vm_compute|].
  unfold i. rewrite time_unpacked by lia. cbn [neg hour minute second second_part]. rewrite <- Hsum.
  destruct Hsg as [He|He]; rewrite He in *; cbn [Z.eqb Pos.eqb]; lia.
Qed.

Lemma usec_word_time_lt dec a b : (dec <= 6)%nat ->
  a mod frac_unit dec = 0 -> b mod frac_unit dec = 0 -> 0 <= a < b -> b < 1024 * usec_per_hour ->
  usec_word dec time_sec a < usec_word dec time_sec b.
Proof.
  intros Hd Ha Hb Hab Hlim. destruct (frac_unit_units dec Hd) as (Hu1 & Hu & Hw).
  assert (mono_on 0 (1023 * 3600 + 3599) time_sec) as Hm.
  { apply (clock_word_mono _ 0 1023). intros x y _ Hxy _. lia. }
  apply (radix_mono (frac_units dec) (frac_range dec) _ _ _ Hw Hm).
  - rewrite Z.mul_0_l. apply Z.div_pos; lia.
  - pose proof (Z.div_mod a (frac_unit dec)). pose proof (Z.div_mod b (frac_unit dec)). nia.
  - apply Z.lt_succ_r, Z.div_lt_upper_bound; [lia|].
    replace (Z.succ _) with (frac_units dec * 3686400) by lia. rewrite Z.mul_assoc, Hu1. lia.
Qed.

Lemma usec_word_time_0 dec : (dec <= 6)%nat -> usec_word dec time_sec 0 = 0.
Proof. intros Hd. pattern dec. by apply precision_ind. Qed.

Lemma usec_word_time_range dec a : (dec <= 6)%nat -> 0 <= a < 1024 * usec_per_hour ->
  0 <= usec_word dec time_sec a < 2 ^ 22 * frac_range dec.
Proof.
  intros Hd Ha. destruct (frac_unit_units dec Hd) as (Hu1 & Hu & Hw).
  destruct (clock_bounds a Ha) as (Hh & Hmi & Hse & Hus). rewrite usec_word_eq, time_sec_eq by done.
  assert (0 <= a mod usec_per_second / frac_unit dec < frac_units dec) as Hk.
  { split; [apply Z.div_pos; lia|]. apply Z.div_lt_upper_bound; lia. }
  revert Hk Hh Hmi Hse. clear -Hw. generalize (a mod usec_per_second / frac_unit dec). intros k Hk Hh Hm Hs.
  set (i := a / usec_per_hour * 2 ^ 12 + _ + _). assert (0 <= i < 2 ^ 22) as Hi by (unfold i; lia).
  clear Hh Hm Hs. clearbody i. nia.
Qed.

Lemma time_number_range dec t : (dec <= 6)%nat -> time_ok dec t ->
  0 <= 2 ^ 23 * frac_range dec + time_number dec t < 256 ^ Z.of_nat (3 + frac_bytes dec).
Proof.
  intros Hd [Ha _]. rewrite Nat2Z.inj_add, Z.pow_add_r by lia. fold (frac_range dec).
  change (256 ^ Z.of_nat 3) with (2 ^ 24). destruct (frac_unit_units dec Hd) as (_ & _ & Hw).
  pose proof (usec_word_time_range dec (Z.abs t) Hd ltac:(lia)) as Hr.
  unfold time_number. destruct (sign_cases t) as [-> | ->]; lia.
Qed.

Lemma time_number_mono dec a b : (dec <= 6)%nat -> time_ok dec a -> time_ok dec b -> a < b ->
  time_number dec a < time_number dec b.
Proof.
  intros Hd [Ha Hua] [Hb Hub] Hab. apply abs_unit in Hua, Hub; try done. unfold time_number, sign.
  pose proof (usec_word_time_0 dec Hd) as H0.
  pose proof (usec_word_time_lt dec (Z.abs a) (Z.abs b) Hd Hua Hub) as H1.
  pose proof (usec_word_time_lt dec (Z.abs b) (Z.abs a) Hd Hub Hua) as H2.
  pose proof (usec_word_time_lt dec 0 (Z.abs a) Hd eq_refl Hua) as H3. rewrite H0 in H3.
  destruct (usec_word_time_range dec (Z.abs b) Hd ltac:(lia)) as [Hr _].
  destruct (Z.ltb_spec a 0), (Z.ltb_spec b 0); lia.
Qed.

(** C9: a TIME of less than 1024 hours, of either sign, that is a whole
    number of the stored units of its precision: [EncodeTime] appends the same
    bytes to every buffer, [DecodeTime] gives the value back with the offset
    behind the column, and the stored bytes of two values compare as the
    values, negative ones included.  A build with assertions takes only values
    that have no digit behind the precision. *)
Theorem time_stored dbug t t' dec rest :
  time_ok dec t -> time_ok dec t' -> (dec <= 6)%nat ->
  asserted dbug dec t -> asserted dbug dec t' ->
  exists stored stored',
    (forall buf, EncodeTime dbug t dec buf = Some (buf ++ stored)) /\
    (forall buf, EncodeTime dbug t' dec buf = Some (buf ++ stored')) /\
    (forall buf, DecodeTime dec (buf ++ stored ++ rest) (length buf) = (t, length (buf ++ stored))) /\
    lex_cmp stored stored' = (t ?= t').
Proof.
  intros Ht Ht' Hd Ha Ha'. eexists _, _.
  split; [intros buf; by apply EncodeTime_eq|]. split; [intros buf; by apply EncodeTime_eq|]. split.
  - intros buf. by rewrite DecodeTime_eq, length_app, length_be_bytes.
  - rewrite lex_cmp_be_bytes by by apply time_number_range.
    rewrite Z.add_compare_mono_l. destruct (Z.compare_spec t t') as [->|H|H].
    + apply Z.compare_refl.
    + apply Z.compare_lt_iff. by apply time_number_mono.
    + apply Z.compare_gt_iff. by apply time_number_mono.
Qed.

Lemma time_stored_witness :
  time_ok 2 (-3661990000) /\ time_ok 2 (-3661500000) /\
  exists stored stored',
    (forall buf, EncodeTime true (-3661990000) 2 buf = Some (buf ++ stored)) /\
    (forall buf, EncodeTime true (-3661500000) 2 buf = Some (buf ++ stored')) /\
    (forall buf, DecodeTime 2 (buf ++ stored ++ [9]) (length buf) =
      (-3661990000, length (buf ++ stored))) /\
    lex_cmp stored stored' = Lt.
Proof.
  assert (time_ok 2 (-3661990000)) as H1 by (split; vm_compute; reflexivity).
  assert (time_ok 2 (-3661500000)) as H2 by (split; vm_compute; reflexivity).
  split; [exact H1|]. split; [exact H2|].
  exact (time_stored true (-3661990000) (-3661500000) 2 [9] H1 H2 ltac:(lia)
    ltac:(intros _; vm_compute; reflexivity) ltac:(intros _; vm_compute; reflexivity)).
Defined.

(** ** DATE and TIMESTAMP *)

(** The three bytes of a date: nine bits for the month and the day. *)
Lemma newdate_fields y m d : 0 <= y <= 9999 -> 1 <= m <= 12 -> 1 <= d <= 31 ->
  let tmp := y * 16 * 32 + m * 32 + d in
  0 <= tmp < 2 ^ 24 /\ Z.land tmp 31 = d /\ Z.land (Z.shiftr tmp 5) 15 = m /\
  ushort_of (Z.shiftr tmp 9) = y.
Proof.
  intros Hy Hm Hd tmp. change 31 with (Z.ones 5). change 15 with (Z.ones 4).
  rewrite (Z.land_ones tmp 5), (Z.land_ones _ 4), !Z.shiftr_div_pow2 by lia.
  unfold tmp, ushort_of. repeat split; revert Hy Hm Hd; dlia.
Qed.

(** A DATE of the years 0 to 9999 reads back as it was given. *)
Lemma date_stored day buf rest : day_ok day ->
  let val := CassDateEpochCenter + day in
  BindDynamoAttribute_Date 3 (EncodePlainValue_Date val 3 buf ++ rest) (length buf) =
    (val, length (EncodePlainValue_Date val 3 buf)).
Proof.
  intros Hd val. unfold EncodePlainValue_Date.
  assert (uint_of val = val) as -> by (apply Z.mod_small; unfold val, day_ok in *; lia).
  assert (signed_of 32 (if CassDateEpochCenter <=? val then val - CassDateEpochCenter
    else - (CassDateEpochCenter - val)) = day) as ->.
  { unfold val, day_ok in *. destruct (Z.leb_spec CassDateEpochCenter (CassDateEpochCenter + day));
      rewrite signed_of_id; lia. }
  destruct (from_days_ok day Hd) as (_ & Hto & Hy & Hm & Hday). set (dp := from_days day) in *.
  destruct (newdate_fields _ _ _ Hy Hm Hday) as (Hr & H1 & H2 & H3). cbv zeta in *.
  set (tmp := y_ dp * 16 * 32 + m_ dp * 32 + d_ dp) in *.
  assert (uint_of tmp = tmp) as -> by (apply Z.mod_small; lia).
  rewrite write_at_end by by rewrite length_replicate. unfold BindDynamoAttribute_Date.
  rewrite <- app_assoc, drop_app_length, take_app_length' by done.
  rewrite le_val_le_bytes, (Z.mod_small tmp) by (change (256 ^ _) with (2 ^ 24); lia).
  rewrite H1, H2, H3, make_ymd_id, Hto by lia. unfold uint_of.
  rewrite Z.mod_small, length_app by (unfold day_ok in Hd; lia). done.
Qed.

(** The zero date does not: its month and day are 0, which [DecodeDatetime]
    replaces by 1 and the DATE case does not. *)
Example zero_date_changed :
  EncodePlainValue_Date (fst (BindDynamoAttribute_Date 3 [0; 0; 0] 0)) 3 [] = [126; 255; 255].
Proof. by vm_compute. Qed.

Example zero_datetime_first_day :
  DecodeDatetime 0 [128; 0; 0; 0; 0] 0 = (-719528 * usec_per_day, 5%nat).
Proof. by vm_compute. Qed.

(** A TIMESTAMP of 32 bits of seconds reads back as it was given, and its bytes
    compare as the values. *)
Definition timestamp_ok (dec : nat) (t : Z) : Prop :=
  0 <= t < 2 ^ 32 * 1000000 /\ t mod 10 ^ (6 - Z.of_nat dec) = 0.

Lemma EncodePlainValue_Timestamp_eq dbug t dec buf : 0 <= t -> (dec <= 6)%nat -> asserted dbug dec t ->
  EncodePlainValue_Timestamp dbug t dec buf =
    Some (buf ++ be_bytes (4 + frac_bytes dec) (usec_word dec (fun s => s) t)).
Proof.
  intros Ht Hd Has. unfold EncodePlainValue_Timestamp.
  rewrite Z.quot_div_nonneg, Z.rem_mod_nonneg by lia. rewrite timestamp_binary; cbn [tv_usec];
    [|dlia|done|by apply asserted_fraction].
  cbn [mbind option_bind tv_sec]. rewrite write_at_end by by rewrite length_replicate, length_be_bytes.
  by rewrite usec_word_eq.
Qed.

Lemma unit_compare u a b : 0 < u -> a mod u = 0 -> b mod u = 0 -> (a / u ?= b / u) = (a ?= b).
Proof.
  intros Hu Ha Hb. pose proof (Z.div_mod a u) as Hqa. pose proof (Z.div_mod b u) as Hqb.
  rewrite Ha, Z.add_0_r in Hqa. rewrite Hb, Z.add_0_r in Hqb. rewrite Hqa, Hqb at 2 by lia.
  destruct (Z.compare_spec (a / u) (b / u)) as [->|H|H]; symmetry.
  - apply Z.compare_refl.
  - apply Z.compare_lt_iff. nia.
  - apply Z.compare_gt_iff. nia.
Qed.

Lemma timestamp_stored dbug t t' dec rest :
  timestamp_ok dec t -> timestamp_ok dec t' -> (dec <= 6)%nat ->
  exists stored stored',
    (forall buf, EncodePlainValue_Timestamp dbug t dec buf = Some (buf ++ stored)) /\
    (forall buf, EncodePlainValue_Timestamp dbug t' dec buf = Some (buf ++ stored')) /\
    (forall buf, BindDynamoAttribute_Timestamp dec (buf ++ stored ++ rest) (length buf) =
      (t, length (buf ++ stored))) /\
    lex_cmp stored stored' = (t ?= t').
Proof.
  intros [Ht Hm] [Ht' Hm'] Hd. eexists _, _.
  split; [intros buf; apply EncodePlainValue_Timestamp_eq; [lia|done|by intros _]|].
  split; [intros buf; apply EncodePlainValue_Timestamp_eq; [lia|done|by intros _]|].
  destruct (frac_unit_units dec Hd) as (Hu1 & Hu & Hw).
  pose proof (frac_unit_divide _ _ Hd Hm) as Hf. pose proof (frac_unit_divide _ _ Hd Hm') as Hf'.
  split.
  - intros buf. unfold BindDynamoAttribute_Timestamp. rewrite drop_app_length, usec_word_eq by done.
    pose proof (usec_floor dec t Hd) as Hk. rewrite Hf, Z.sub_0_r in Hk.
    rewrite timestamp_from_binary; [|revert Ht; dlia| |done|].
    + rewrite Hk. cbn [tv_sec tv_usec]. rewrite length_app, length_be_bytes. f_equal. dlia.
    + split; [apply Z.div_pos; dlia|]. apply Z.div_lt_upper_bound; dlia.
    + rewrite Hk. apply my_max_usec_value_ok; [done|dlia|]. by apply usec_precision.
  - rewrite (usec_word_compare dec (fun s => s) 4 0 (2 ^ 32 - 1)); try done || lia.
    + by apply unit_compare.
    + intros x y _ Hxy _. done.
Qed.

End Dates.
