(* ===== verification/Decimal.v ===== *)
(** * Decimal: DECIMAL values as comparable bytes

    The conversion between the digits of a DECIMAL, kept nine to a word, and
    the bytes of a DECIMAL column (src/strings/decimal.c): [decimal2bin] and
    [bin2decimal] with the functions they call.  The lemmas give the number
    that the bytes hold, from which the order of the bytes and the round trip
    follow for every precision and scale. *)

From Stdlib Require Import ZifyNat.
From S2P Require Import Prelude Charset Row.

Module Decimal.
Import Row.

Abbreviation E_DEC_OK := 0.
Abbreviation E_DEC_TRUNCATED := 1.
Abbreviation E_DEC_OVERFLOW := 2.
Abbreviation E_DEC_BAD_NUM := 8.
Abbreviation DIG_PER_DEC1 := 9%nat.
Abbreviation DIG_BASE := 1000000000.
Abbreviation DIG_MAX := 999999999.

(** [powers10[i]] *)
Abbreviation powers10 i := (10 ^ Z.of_nat i).

(** [intg] and [frac] count the digits before and after the point; [buf] has
    the words of both, [len] is the number of words allocated for it. *)
Record decimal_t := { intg : nat; frac : nat; len : nat; sign : bool; buf : list Z }.

Definition ROUND_UP (x : nat) : nat :=
  ((x + (if (0 <? x)%nat then DIG_PER_DEC1 - 1 else 0)) / DIG_PER_DEC1)%nat.

(** The words that are zero; the first one has [i] digits. *)
Fixpoint skip_zero_words (intg i : nat) (buf0 : list Z) : nat * list Z :=
  match buf0 with
  | w :: rest =>
      if (0 <? intg)%nat && (w =? 0) then skip_zero_words (intg - i) DIG_PER_DEC1 rest
      else (intg, buf0)
  | [] => (intg, buf0)
  end.

(** The leading digits of a word that are zero. *)
Fixpoint skip_zero_digits (w : Z) (i intg : nat) : nat :=
  if w <? powers10 i
  then match i with O => (intg - 1)%nat | S i => skip_zero_digits w i (intg - 1) end
  else intg.

Definition remove_leading_zeroes (from : decimal_t) : nat * list Z :=
  let i := if (0 <? intg from)%nat then ((intg from - 1) mod DIG_PER_DEC1 + 1)%nat else 0%nat in
  let '(n, buf0) := skip_zero_words (intg from) i (buf from) in
  if (0 <? n)%nat
  then (skip_zero_digits (hd 0 buf0) ((n - 1) mod DIG_PER_DEC1) n, buf0)
  else (0%nat, buf0).

(** [while (frac1x < lim && dig2bytes[frac1x] == i) frac1x++] *)
Fixpoint widen (fuel frac1x lim i : nat) : nat :=
  match fuel with
  | O => frac1x
  | S fuel =>
      if (frac1x <? lim)%nat && (dig2bytes frac1x =? i)%nat
      then widen fuel (frac1x + 1) lim i else frac1x
  end.

(** [mi_int1store] to [mi_int4store] of [x ^ mask]. *)
Abbreviation store_masked i x mask := (be_bytes i (Z.lxor x mask)).

(** [p[0] ^= 0x80] *)
Definition flip_sign (l : bytes) : bytes :=
  match l with
  | b :: l => Z.lxor b 128 :: l
  | [] => []
  end.

Definition decimal2bin (from : decimal_t) (precision scale : nat) : Z * bytes :=
  let mask := if sign from then -1 else 0 in
  let intg := (precision - scale)%nat in
  let intg0 := (intg / DIG_PER_DEC1)%nat in
  let frac0 := (scale / DIG_PER_DEC1)%nat in
  let intg0x := (intg - intg0 * DIG_PER_DEC1)%nat in
  let frac0x := (scale - frac0 * DIG_PER_DEC1)%nat in
  let frac1 := (frac from / DIG_PER_DEC1)%nat in
  let frac1x := (frac from - frac1 * DIG_PER_DEC1)%nat in
  let isize0 := (intg0 * 4 + dig2bytes intg0x)%nat in
  let fsize0 := (frac0 * 4 + dig2bytes frac0x)%nat in
  let fsize1 := (frac1 * 4 + dig2bytes frac1x)%nat in
  let orig_size := (fsize0 + isize0)%nat in
  let '(from_intg, buf1) := remove_leading_zeroes from in
  let zero := (from_intg + fsize1 =? 0)%nat in
  let mask := if zero then 0 else mask in
  let intg := if zero then 1%nat else intg in
  let buf1 := if zero then [mask] else buf1 in
  let intg1 := (from_intg / DIG_PER_DEC1)%nat in
  let intg1x := (from_intg - intg1 * DIG_PER_DEC1)%nat in
  let isize1 := (intg1 * 4 + dig2bytes intg1x)%nat in
  let '(error, buf1, intg1, intg1x, to) :=
    if (intg <? from_intg)%nat
    then (E_DEC_OVERFLOW,
          drop (intg1 - intg0 + Nat.b2n (0 <? intg1x)%nat - Nat.b2n (0 <? intg0x)%nat) buf1,
          intg0, intg0x, [])
    else (E_DEC_OK, buf1, intg1, intg1x, replicate (isize0 - isize1) (uchar_of mask)) in
  let '(error, frac1, frac1x, fsize0) :=
    if (fsize0 <? fsize1)%nat then (E_DEC_TRUNCATED, frac0, frac0x, fsize0)
    else if (fsize1 <? fsize0)%nat && (0 <? frac1x)%nat
    then if (frac0 =? frac1)%nat then (error, frac1, frac0x, fsize1)
         else (error, (frac1 + 1)%nat, 0%nat, fsize0)
    else (error, frac1, frac1x, fsize0) in
  let '(to, buf1) :=
    if (0 <? intg1x)%nat
    then (to ++ store_masked (dig2bytes intg1x) (Z.rem (hd 0 buf1) (powers10 intg1x)) mask, tl buf1)
    else (to, buf1) in
  let to := to ++ concat (map (fun w => store_masked 4 w mask) (take (intg1 + frac1) buf1)) in
  let buf1 := drop (intg1 + frac1) buf1 in
  let to :=
    if (0 <? frac1x)%nat
    then
      let i := dig2bytes frac1x in
      let lim := if (frac1 <? frac0)%nat then DIG_PER_DEC1 else frac0x in
      let frac1x := widen DIG_PER_DEC1 frac1x lim i in
      to ++ store_masked i (hd 0 buf1 ÷ powers10 (DIG_PER_DEC1 - frac1x)) mask
    else to in
  let to := to ++ replicate ((fsize0 - fsize1) `min` (orig_size - length to)) (uchar_of mask) in
  (error, flip_sign to).

(** [mi_sint1korr] to [mi_sint4korr]. *)
Abbreviation sint_korr i from := (signed_of (8 * Z.of_nat i) (be_val (take i from))).

Definition decimal_make_zero (to : decimal_t) : decimal_t :=
  {| intg := 1; frac := 0; len := len to; sign := false; buf := [0] |}.

(** The words of the integer part: words that are zero are not kept before
    the first other word, and their digits are not counted.  [None] is the
    jump to the error. *)
Fixpoint read_intg (n : nat) (mask : Z) (from : bytes) (intg : nat) (buf : list Z) : option (bytes * nat * list Z) :=
  match n with
  | O => Some (from, intg, buf)
  | S n =>
      let w := Z.lxor (sint_korr 4 from) mask in
      if DIG_MAX <? uint_of w then None
      else if negb (bool_decide (buf = [])) || negb (w =? 0)
      then read_intg n mask (drop 4 from) intg (buf ++ [w])
      else read_intg n mask (drop 4 from) (intg - DIG_PER_DEC1) buf
  end.

Fixpoint read_frac (n : nat) (mask : Z) (from : bytes) (buf : list Z) : option (bytes * list Z) :=
  match n with
  | O => Some (from, buf)
  | S n =>
      let w := Z.lxor (sint_korr 4 from) mask in
      if DIG_MAX <? uint_of w then None else read_frac n mask (drop 4 from) (buf ++ [w])
  end.

Definition FIX_INTG_FRAC_ERROR (len intg1 frac1 : nat) : nat * nat * Z :=
  if (len <? intg1 + frac1)%nat
  then if (len <? intg1)%nat then (len, 0%nat, E_DEC_OVERFLOW)
       else (intg1, (len - intg1)%nat, E_DEC_TRUNCATED)
  else (intg1, frac1, E_DEC_OK).

Definition bin2decimal (from : bytes) (to : decimal_t) (precision scale : nat) : Z * decimal_t :=
  let intg := (precision - scale)%nat in
  let intg0 := (intg / DIG_PER_DEC1)%nat in
  let frac0 := (scale / DIG_PER_DEC1)%nat in
  let intg0x := (intg - intg0 * DIG_PER_DEC1)%nat in
  let frac0x := (scale - frac0 * DIG_PER_DEC1)%nat in
  let intg1 := (intg0 + Nat.b2n (0 <? intg0x)%nat)%nat in
  let frac1 := (frac0 + Nat.b2n (0 <? frac0x)%nat)%nat in
  let mask := if Z.land (hd 0 from) 128 =? 0 then -1 else 0 in
  let from := flip_sign (take (decimal_bin_size precision scale) from) in
  let '(intg1, frac1, error) := FIX_INTG_FRAC_ERROR (len to) intg1 frac1 in
  let '(from, intg0, intg0x, frac0, frac0x) :=
    if error =? E_DEC_OK then (from, intg0, intg0x, frac0, frac0x)
    else if (intg1 <? intg0 + Nat.b2n (0 <? intg0x)%nat)%nat
    then (drop (dig2bytes intg0x + 4 * (intg0 - intg1)) from, intg1, 0%nat, 0%nat, 0%nat)
    else (from, intg0, intg0x, frac1, 0%nat) in
  let bad := (E_DEC_BAD_NUM, decimal_make_zero to) in
  let x := Z.lxor (sint_korr (dig2bytes intg0x) from) mask in
  if (0 <? intg0x)%nat && (powers10 (intg0x + 1) <=? ulonglong_of x) then bad
  else
    let '(from, n, words) :=
      if (0 <? intg0x)%nat
      then if x =? 0
           then (drop (dig2bytes intg0x) from, (intg0 * DIG_PER_DEC1)%nat, [])
           else (drop (dig2bytes intg0x) from, (intg0 * DIG_PER_DEC1 + intg0x)%nat, [x])
      else (from, (intg0 * DIG_PER_DEC1)%nat, []) in
    match read_intg intg0 mask from n words with
    | None => bad
    | Some (from, n, words) =>
        match read_frac frac0 mask from words with
        | None => bad
        | Some (from, words) =>
            let w := signed_of 32 (Z.lxor (sint_korr (dig2bytes frac0x) from) mask
                                   * powers10 (DIG_PER_DEC1 - frac0x)) in
            if (0 <? frac0x)%nat && (DIG_MAX <? uint_of w) then bad
            else
              let to := {| intg := n; frac := (frac0 * DIG_PER_DEC1 + frac0x)%nat; len := len to;
                           sign := negb (mask =? 0);
                           buf := if (0 <? frac0x)%nat then words ++ [w] else words |} in
              (error, if (n =? 0)%nat && (frac to =? 0)%nat then decimal_make_zero to else to)
        end
    end.

(** ** Words

    A list of words is a number with digits to the base [DIG_BASE]. *)

Fixpoint word_val (base : Z) (l : list Z) : Z :=
  match l with
  | [] => 0
  | w :: l => w * base ^ Z.of_nat (length l) + word_val base l
  end.

Definition words_ok (l : list Z) : Prop := Forall (fun w => 0 <= w < DIG_BASE) l.

Lemma word_val_app base l k :
  word_val base (l ++ k) = word_val base l * base ^ Z.of_nat (length k) + word_val base k.
Proof.
  induction l as [|w l IH]; [done|]. cbn [word_val app].
  rewrite IH, length_app, Nat2Z.inj_add, Z.pow_add_r by lia. lia.
Qed.

Lemma word_val_bound base l : DIG_BASE <= base -> words_ok l ->
  0 <= word_val base l < base ^ Z.of_nat (length l).
Proof.
  intros Hb H. induction H as [|w l Hw _ IH]; [simpl; lia|].
  cbn [word_val length]. rewrite Nat2Z.inj_succ, Z.pow_succ_r by lia. nia.
Qed.

Lemma word_val_zeros base l : Forall (eq 0) l -> word_val base l = 0.
Proof. induction 1 as [|w l <- _ IH]; [done|]. cbn [word_val]. lia. Qed.

(** The same digits with [2 ^ 32] numbers reserved for each of the [n] low
    words. *)
Fixpoint rebase (n : nat) : Z -> Z :=
  match n with
  | O => fun v => v
  | S n => radix DIG_BASE (2 ^ 32) (rebase n)
  end.

Lemma rebase_nonneg n v : 0 <= v -> 0 <= rebase n v.
Proof.
  revert v. induction n as [|n IH]; intros v Hv; [done|]. cbn [rebase]. unfold radix.
  pose proof (IH (v / DIG_BASE) ltac:(apply Z.div_pos; lia)). pose proof (Z.mod_pos_bound v DIG_BASE). lia.
Qed.

Lemma rebase_0 n : rebase n 0 = 0.
Proof. induction n as [|n IH]; [done|]. cbn [rebase]. unfold radix. rewrite Z.div_0_l, IH by lia. done. Qed.

Lemma rebase_mono n hi : 0 <= hi -> mono_on 0 hi (rebase n).
Proof.
  revert hi. induction n as [|n IH]; intros hi Hhi; [by intros x y _ Hxy _|].
  intros x y Hx Hxy Hy. apply (radix_mono DIG_BASE (2 ^ 32) _ 0 (hi / DIG_BASE));
    [lia|apply IH; apply Z.div_pos; lia|lia|lia|dlia].
Qed.

(** High words that are zero do not matter. *)
Lemma rebase_stable n k v : 0 <= v < DIG_BASE ^ Z.of_nat (S n) -> rebase (n + k) v = rebase n v.
Proof.
  revert v. induction n as [|n IH]; intros v Hv.
  - cbn [Nat.add rebase]. change (DIG_BASE ^ Z.of_nat 1) with DIG_BASE in Hv.
    destruct k as [|k]; [done|]. cbn [rebase]. unfold radix.
    rewrite Z.div_small, rebase_0, Z.mod_small; lia.
  - cbn [Nat.add rebase]. unfold radix. rewrite IH; [done|].
    rewrite Nat2Z.inj_succ, Z.pow_succ_r in Hv by lia. split; [apply Z.div_pos; lia|].
    apply Z.div_lt_upper_bound; lia.
Qed.

Lemma rebase_shift n j v : rebase (n + j) (v * DIG_BASE ^ Z.of_nat j) = rebase n v * 2 ^ (32 * Z.of_nat j).
Proof.
  induction j as [|j IH]; [by rewrite Nat.add_0_r, !Z.mul_1_r|].
  rewrite Nat.add_succ_r. cbn [rebase]. unfold radix.
  rewrite Nat2Z.inj_succ, Z.pow_succ_r, (Z.mul_comm DIG_BASE), Z.mul_assoc by lia.
  rewrite Z.div_mul, Z.mod_mul, IH by lia.
  replace (32 * Z.succ (Z.of_nat j)) with (32 * Z.of_nat j + 32) by lia. rewrite Z.pow_add_r by lia. lia.
Qed.

Lemma rebase_snoc n v w : 0 <= w < DIG_BASE -> rebase (S n) (v * DIG_BASE + w) = rebase n v * 2 ^ 32 + w.
Proof.
  intros Hw. cbn [rebase]. unfold radix.
  rewrite Z.div_add_l, Z.div_small, Z.add_0_r by lia. f_equal.
  rewrite Z.add_comm, Z.mod_add, Z.mod_small; lia.
Qed.

Lemma rebase_words l : words_ok l -> rebase (length l) (word_val DIG_BASE l) = word_val (2 ^ 32) l.
Proof.
  induction l as [|w l IH] using rev_ind; intros H; [done|].
  apply Forall_app in H as [Hl Hw]. apply Forall_cons_iff in Hw as [Hw _].
  rewrite !word_val_app, length_app, Nat.add_comm. cbn [word_val length Nat.add].
  change (Z.of_nat 1) with 1. change (Z.of_nat 0) with 0. rewrite !Z.pow_1_r, !Z.pow_0_r.
  rewrite !Z.mul_1_r, !Z.add_0_r. by rewrite rebase_snoc, IH.
Qed.

(** ** Masks *)

Definition mask_of (sg : bool) : Z := if sg then -1 else 0.
Definition masked (sg : bool) (v : Z) : Z := if sg then -1 - v else v.

Lemma lxor_mask sg x : Z.lxor x (mask_of sg) = masked sg x.
Proof.
  destruct sg; cbn [mask_of masked]; [|apply Z.lxor_0_r].
  rewrite Z.lxor_m1_r. unfold Z.lnot. lia.
Qed.

Lemma masked_join sg n m a b : 0 <= b < 256 ^ Z.of_nat m ->
  be_bytes n (masked sg a) ++ be_bytes m (masked sg b) =
  be_bytes (n + m) (masked sg (a * 256 ^ Z.of_nat m + b)).
Proof.
  intros Hb. rewrite be_bytes_join. f_equal. destruct sg; cbn [masked].
  - rewrite <- (Z.mod_add _ 1), Z.mod_small; lia.
  - rewrite Z.mod_small; lia.
Qed.

Lemma masked_pad sg k : replicate k (uchar_of (mask_of sg)) = be_bytes k (masked sg 0).
Proof.
  induction k as [|k IH]; [done|]. cbn [replicate be_bytes]. f_equal; [|exact IH].
  pose proof (pow256_pos k). destruct sg; cbn [mask_of masked]; [|by rewrite Z.div_0_l by lia].
  replace (-1 - 0) with (-1) by lia.
  rewrite <- (Z.div_unique_pos (-1) (256 ^ Z.of_nat k) (-1) (256 ^ Z.of_nat k - 1)) by lia. done.
Qed.

Lemma masked_words sg l : words_ok l ->
  concat (map (fun w => store_masked 4 w (mask_of sg)) l) =
  be_bytes (4 * length l) (masked sg (word_val (2 ^ 32) l)).
Proof.
  intros H. induction H as [|w l Hw Hl IH]; [done|]. cbn [map concat]. rewrite IH.
  rewrite lxor_mask, masked_join.
  - cbn [word_val length]. rewrite Nat.mul_succ_r, Nat.add_comm. do 3 f_equal.
    change (2 ^ 32) with (256 ^ 4). rewrite Nat2Z.inj_mul, <- Z.pow_mul_r by lia. done.
  - pose proof (word_val_bound (2 ^ 32) l ltac:(lia) Hl).
    rewrite Nat2Z.inj_mul, Z.pow_mul_r by lia. done.
Qed.

(** ** Leading zeros *)

(** [n] is the number of digits of the words [ws], of which the first has [c]
    digits and is not zero. *)
Definition digits_of (n : nat) (ws : list Z) : Prop :=
  (n = 0%nat /\ ws = []) \/
  exists c w ws', ws = w :: ws' /\ n = (9 * length ws' + c)%nat /\ (1 <= c <= 9)%nat /\
    10 ^ (Z.of_nat c - 1) <= w < 10 ^ Z.of_nat c.

Lemma skip_zero_digits_spec w i n : 0 < w < 10 ^ Z.of_nat (S i) -> (i < n)%nat ->
  exists c, (1 <= c <= S i)%nat /\ 10 ^ (Z.of_nat c - 1) <= w < 10 ^ Z.of_nat c /\
    (skip_zero_digits w i n + S i = n + c)%nat.
Proof.
  revert n. induction i as [|i IH]; intros n Hw Hn; cbn [skip_zero_digits].
  - exists 1%nat. change (10 ^ Z.of_nat 0) with 1. destruct (Z.ltb_spec w 1); [lia|].
    change (Z.of_nat 1 - 1) with 0. lia.
  - destruct (Z.ltb_spec w (10 ^ Z.of_nat (S i))) as [Hlt|Hge].
    + destruct (IH (n - 1)%nat) as (c & Hc & Hb & He); [lia..|]. exists c. lia.
    + exists (S (S i)). split; [lia|]. split; [|lia].
      replace (Z.of_nat (S (S i)) - 1) with (Z.of_nat (S i)) by lia. lia.
Qed.

Lemma skip_zero_words_spec m i l rest :
  length l = m -> (m = 0 \/ 1 <= i <= 9)%nat ->
  exists z ws n, l = replicate z 0 ++ ws /\
    skip_zero_words (if m =? 0 then 0 else 9 * (m - 1) + i)%nat i (l ++ rest) = (n, ws ++ rest) /\
    match ws with
    | [] => n = 0%nat
    | w :: ws' => w <> 0 /\ n = (9 * length ws' + (if z =? 0 then i else 9))%nat
    end.
Proof.
  revert m i. induction l as [|w l IH]; intros m i Hlen Hi; cbn [length] in Hlen; subst m.
  - exists 0%nat, [], 0%nat. cbn. split; [done|]. destruct rest as [|r rest]; [done|]. done.
  - destruct (Z.eqb_spec w 0) as [->|Hw].
    + destruct (IH (length l) 9%nat eq_refl ltac:(lia)) as (z & ws & n & Hl & Hs & Hn).
      exists (S z), ws, n. cbn [replicate app Nat.eqb Nat.sub skip_zero_words].
      split; [by rewrite Hl at 1|].
      destruct (Nat.ltb_spec 0 (9 * (length l - 0) + i)) as [_|?]; [|lia]. cbn [andb Z.eqb].
      replace (9 * (length l - 0) + i - i)%nat
        with (if length l =? 0 then 0 else 9 * (length l - 1) + 9)%nat
        by (destruct (Nat.eqb_spec (length l) 0); lia).
      split; [exact Hs|]. destruct ws as [|w ws']; [done|]. destruct Hn as [Hw Hn].
      split; [done|]. rewrite Hn. by destruct (z =? 0)%nat.
    + exists 0%nat, (w :: l), (9 * length l + i)%nat. split; [done|]. split; [|done].
      cbn [Nat.eqb Nat.sub app skip_zero_words]. rewrite (proj2 (Z.eqb_neq w 0) Hw), andb_false_r.
      by rewrite Nat.sub_0_r.
Qed.

(** ** Decimals

    The words of the integer part and of the fraction.  The first word has the
    digits that are left over from whole words of nine digits; the digits
    after the last one of the fraction are zero; zero has no sign. *)

Definition intg_words (d : decimal_t) : list Z := take (ROUND_UP (intg d)) (buf d).
Definition frac_words (d : decimal_t) : list Z := take (ROUND_UP (frac d)) (drop (ROUND_UP (intg d)) (buf d)).

Record dec_ok (d : decimal_t) : Prop := {
  ok_length : (ROUND_UP (intg d) + ROUND_UP (frac d) <= length (buf d))%nat;
  ok_intg : words_ok (intg_words d);
  ok_frac : words_ok (frac_words d);
  ok_first : (0 < intg d)%nat -> hd 0 (buf d) < 10 ^ Z.of_nat (S ((intg d - 1) mod 9));
  ok_last : (10 ^ Z.of_nat (9 * ROUND_UP (frac d) - frac d) | word_val DIG_BASE (frac_words d));
  ok_sign : sign d = true -> word_val DIG_BASE (intg_words d ++ frac_words d) <> 0
}.

(** [lia] with division and modulo of [nat]s by constants. *)
Ltac nlia := intros; zify; Z.to_euclidean_division_equations; lia.

Lemma ROUND_UP_spec x : (x <= 9 * ROUND_UP x < x + 9)%nat.
Proof. unfold ROUND_UP. destruct (Nat.ltb_spec 0 x); nlia. Qed.

Lemma length_intg_words d : dec_ok d -> length (intg_words d) = ROUND_UP (intg d).
Proof. intros H. unfold intg_words. rewrite length_take. pose proof (ok_length d H). lia. Qed.

Lemma length_frac_words d : dec_ok d -> length (frac_words d) = ROUND_UP (frac d).
Proof. intros H. unfold frac_words. rewrite length_take, length_drop. pose proof (ok_length d H). lia. Qed.

Lemma remove_leading_zeroes_spec d : dec_ok d ->
  exists z ws n rest, intg_words d = replicate z 0 ++ ws /\
    remove_leading_zeroes d = (n, ws ++ frac_words d ++ rest) /\ digits_of n ws.
Proof.
  intros Hok. set (i := if (0 <? intg d)%nat then ((intg d - 1) mod 9 + 1)%nat else 0%nat).
  pose proof (length_intg_words d Hok) as Hlen. pose proof (ROUND_UP_spec (intg d)) as Hr.
  destruct (skip_zero_words_spec (ROUND_UP (intg d)) i (intg_words d)
    (drop (ROUND_UP (intg d)) (buf d)) Hlen) as (z & ws & n & Hw & Hs & Hn).
  { unfold i. destruct (Nat.ltb_spec 0 (intg d)); [right|left]; nlia. }
  exists z, ws. unfold remove_leading_zeroes. fold i.
  assert (intg d = if (ROUND_UP (intg d) =? 0)%nat then 0%nat else (9 * (ROUND_UP (intg d) - 1) + i)%nat) as Hi.
  { unfold i. destruct (Nat.eqb_spec (ROUND_UP (intg d)) 0), (Nat.ltb_spec 0 (intg d)); nlia. }
  rewrite <- Hi in Hs. unfold intg_words in Hs at 1. rewrite take_drop in Hs. rewrite Hs.
  set (rest := drop (ROUND_UP (frac d)) (drop (ROUND_UP (intg d)) (buf d))).
  assert (drop (ROUND_UP (intg d)) (buf d) = frac_words d ++ rest) as Hd by (by unfold frac_words, rest; rewrite take_drop).
  rewrite Hd. destruct ws as [|w ws']; [subst n; exists 0%nat, rest; split; [done|]; split; [done|by left]|].
  destruct Hn as [Hw0 Hn]. set (i' := if (z =? 0)%nat then i else 9%nat) in *.
  assert ((0 < intg d)%nat) as Hpos.
  { rewrite Hw, length_app in Hlen. cbn [length] in Hlen. lia. }
  assert ((1 <= i' <= 9)%nat) as Hi'.
  { unfold i', i. destruct (z =? 0)%nat; [|lia]. destruct (Nat.ltb_spec 0 (intg d)); nlia. }
  assert (0 < w < 10 ^ Z.of_nat i') as Hwb.
  { pose proof (ok_intg d Hok) as Hwok. rewrite Hw in Hwok. apply Forall_app in Hwok as [_ Hwok].
    apply Forall_cons_iff in Hwok as [Hwok _]. split; [lia|]. unfold i'.
    destruct (Nat.eqb_spec z 0) as [->|_]; [|exact (proj2 Hwok)].
    pose proof (ok_first d Hok Hpos) as Hf. unfold i. destruct (Nat.ltb_spec 0 (intg d)); [|lia].
    rewrite Nat.add_1_r. replace (hd 0 (buf d)) with w in Hf; [done|].
    unfold intg_words in Hw. destruct (buf d) as [|b bs]; [by rewrite take_nil in Hw|].
    destruct (ROUND_UP (intg d)); [done|]. cbn in Hw. by simplify_eq. }
  exists (skip_zero_digits w ((n - 1) mod 9) n), rest. split; [done|].
  destruct (Nat.ltb_spec 0 n) as [_|?]; [|lia]. cbn [hd app]. split; [done|]. right.
  assert (S ((n - 1) mod 9) = i') as Hm by nlia.
  destruct (skip_zero_digits_spec w ((n - 1) mod 9) n) as (c & Hc & Hb & He); [by rewrite Hm|nlia|].
  exists c, w, ws'. repeat split; try lia.
Qed.

(** ** The written bytes *)

(** A part of [c] digits fits its bytes, with a bit to spare. *)
Lemma dig2bytes_fits c : (1 <= c <= 9)%nat ->
  2 * 10 ^ Z.of_nat c <= 256 ^ Z.of_nat (dig2bytes c).
Proof.
  intros Hc. do 10 (destruct c as [|c]; [first [lia | by vm_compute]|]). lia.
Qed.

Lemma dig2bytes_le a b : (a <= b <= 9)%nat -> (dig2bytes a <= dig2bytes b)%nat.
Proof.
  intros H. do 10 (destruct b as [|b]; [do 10 (destruct a as [|a]; [first [lia | cbn; lia]|]); lia|]). lia.
Qed.

Lemma masked_lead sg k m v : 0 <= v < 256 ^ Z.of_nat m ->
  replicate k (uchar_of (mask_of sg)) ++ be_bytes m (masked sg v) = be_bytes (k + m) (masked sg v).
Proof. intros Hv. rewrite masked_pad, masked_join by done. by rewrite Z.mul_0_l. Qed.

Lemma word_val_32_bound l : words_ok l -> 0 <= word_val (2 ^ 32) l < 256 ^ Z.of_nat (4 * length l).
Proof.
  intros H. pose proof (word_val_bound (2 ^ 32) l ltac:(lia) H).
  rewrite Nat2Z.inj_mul, Z.pow_mul_r by lia. done.
Qed.

(** Padding and whole words; padding, a part of [c] digits and whole words. *)
Lemma pad_words sg k l : words_ok l ->
  replicate k (uchar_of (mask_of sg)) ++ concat (map (fun w => store_masked 4 w (mask_of sg)) l) =
  be_bytes (k + 4 * length l) (masked sg (word_val (2 ^ 32) l)).
Proof. intros H. rewrite masked_words, masked_lead; [done|by apply word_val_32_bound|done]. Qed.

Lemma pad_part_words sg k c w l : (1 <= c <= 9)%nat -> 0 <= w < powers10 c -> words_ok l ->
  replicate k (uchar_of (mask_of sg))
  ++ store_masked (dig2bytes c) (Z.rem w (powers10 c)) (mask_of sg)
  ++ concat (map (fun w => store_masked 4 w (mask_of sg)) l) =
  be_bytes (k + (dig2bytes c + 4 * length l)) (masked sg (word_val (2 ^ 32) (w :: l))).
Proof.
  intros Hc Hw Hl. pose proof (word_val_32_bound l Hl) as Hb.
  pose proof (dig2bytes_fits c Hc) as Hf. rewrite masked_words by done.
  rewrite lxor_mask, Z.rem_small, masked_join by lia.
  assert (w * 256 ^ Z.of_nat (4 * length l) + word_val (2 ^ 32) l = word_val (2 ^ 32) (w :: l)) as He.
  { cbn [word_val]. do 2 f_equal. by rewrite Nat2Z.inj_mul, Z.pow_mul_r by lia. }
  rewrite He, masked_lead; [done|]. rewrite <- He, Nat2Z.inj_add, Z.pow_add_r by lia. nia.
Qed.

(** The integer part and the words [fs] of the fraction that are written as
    whole words: the leading part, the padding before it and the words. *)
Lemma lead_bytes sg n ws fs rest isize0 :
  let intg1 := (n / 9)%nat in
  let intg1x := (n - intg1 * 9)%nat in
  let isize1 := (intg1 * 4 + dig2bytes intg1x)%nat in
  let mask := mask_of sg in
  let b := ws ++ fs ++ rest in
  digits_of n ws -> words_ok ws -> words_ok fs -> (isize1 <= isize0)%nat ->
  replicate (isize0 - isize1) (uchar_of mask)
  ++ (if (0 <? intg1x)%nat
      then store_masked (dig2bytes intg1x) (Z.rem (hd 0 b) (powers10 intg1x)) mask else [])
  ++ concat (map (fun w => store_masked 4 w mask)
       (take (intg1 + length fs) (if (0 <? intg1x)%nat then tl b else b))) =
    be_bytes (isize0 + 4 * length fs) (masked sg (word_val (2 ^ 32) (ws ++ fs))) /\
  drop (intg1 + length fs) (if (0 <? intg1x)%nat then tl b else b) = rest.
Proof.
  intros intg1 intg1x isize1 mask b Hn Hws Hfs Hsize.
  assert (words_ok (ws ++ fs)) as Hall by (apply Forall_app; done).
  assert (length ws = intg1 -> intg1x = 0%nat ->
    replicate (isize0 - isize1) (uchar_of mask) ++ []
    ++ concat (map (fun w => store_masked 4 w mask) (take (intg1 + length fs) b)) =
    be_bytes (isize0 + 4 * length fs) (masked sg (word_val (2 ^ 32) (ws ++ fs))) /\
    drop (intg1 + length fs) b = rest) as Hfull.
  { intros Hlen Hx. unfold b. rewrite (app_assoc ws fs rest).
    rewrite take_app_length', drop_app_length' by (rewrite length_app; lia). split; [|done].
    cbn [app]. unfold mask. rewrite pad_words by done. f_equal. rewrite length_app.
    unfold isize1 in *. rewrite Hx in *. cbn [dig2bytes nth] in *. lia. }
  destruct Hn as [[-> ->]|(c & w & ws' & -> & Hn & Hc & Hw)]; [by apply Hfull|].
  destruct (Nat.eq_dec c 9%nat) as [->|Hc9].
  - assert (intg1x = 0%nat) as Hx by (unfold intg1x, intg1; nlia). rewrite Hx.
    apply Hfull; [|done]. cbn [length]. unfold intg1. nlia.
  - assert (intg1 = length ws') as H1 by (unfold intg1; nlia).
    assert (intg1x = c) as Hx by (unfold intg1x; rewrite H1; lia). rewrite Hx.
    destruct (Nat.ltb_spec 0 c) as [_|?]; [|lia]. unfold b. cbn [app tl hd].
    rewrite H1, (app_assoc ws' fs rest).
    rewrite take_app_length', drop_app_length' by (rewrite length_app; lia). split; [|done].
    apply Forall_cons_iff in Hall as [Hw9 Hall]. unfold mask. rewrite pad_part_words by (done || lia).
    f_equal. rewrite length_app. unfold isize1 in *. rewrite Hx, H1 in *. lia.
Qed.

Lemma dig2bytes_pos c : (c <= 9 -> 0 < c -> 0 < dig2bytes c)%nat.
Proof. intros Hc Hp. pose proof (dig2bytes_le 1 c ltac:(lia)) as H. change (dig2bytes 1) with 1%nat in H. lia. Qed.

Lemma widen_same a b : (1 <= a <= b)%nat -> (b <= 9)%nat -> dig2bytes a = dig2bytes b ->
  widen 9 a b (dig2bytes a) = b.
Proof.
  intros Ha Hb. do 10 (destruct b as [|b]; [do 10 (destruct a as [|a]; [first [lia | by vm_compute]|]); lia|]).
  lia.
Qed.

(** What is written of a fraction of [f] digits for a column of [s]: whole
    words and padding, or whole words and a last part of [frac0x] digits, or
    whole words and a last word. *)
Lemma frac_plan f s : (f <= s)%nat ->
  let frac0 := (s / 9)%nat in
  let frac0x := (s - frac0 * 9)%nat in
  let frac1 := (f / 9)%nat in
  let frac1x := (f - frac1 * 9)%nat in
  let fsize0 := (frac0 * 4 + dig2bytes frac0x)%nat in
  let fsize1 := (frac1 * 4 + dig2bytes frac1x)%nat in
  exists frac1' frac1x' fsize0',
    (if (fsize0 <? fsize1)%nat then (E_DEC_TRUNCATED, frac0, frac0x, fsize0)
     else if (fsize1 <? fsize0)%nat && (0 <? frac1x)%nat
     then if (frac0 =? frac1)%nat then (E_DEC_OK, frac1, frac0x, fsize1)
          else (E_DEC_OK, (frac1 + 1)%nat, 0%nat, fsize0)
     else (E_DEC_OK, frac1, frac1x, fsize0)) = (E_DEC_OK, frac1', frac1x', fsize0') /\
    ((frac1x' = 0 /\ frac1' = ROUND_UP f /\ frac1' <= frac0 /\ fsize0 - 4 * frac1' <= fsize0' - fsize1)%nat \/
     (ROUND_UP f = frac0 + 1 /\ frac1' = frac0 /\ 0 < frac1x' /\ dig2bytes frac1x' = dig2bytes frac0x /\
      widen 9 frac1x' (if frac1' <? frac0 then 9 else frac0x) (dig2bytes frac1x') = frac0x /\
      0 < frac0x /\ fsize0' = fsize1)%nat \/
     (ROUND_UP f = frac0 /\ frac1' + 1 = frac0 /\ frac0x = 0 /\ 0 < frac1x' /\ dig2bytes frac1x' = 4 /\
      widen 9 frac1x' (if frac1' <? frac0 then 9 else frac0x) (dig2bytes frac1x') = 9 /\
      fsize0' = fsize1)%nat).
Proof.
  intros Hf frac0 frac0x frac1 frac1x fsize0 fsize1.
  assert (frac0x <= 8 /\ frac1x <= 8 /\ frac1 <= frac0 /\ (frac1 = frac0 -> frac1x <= frac0x))%nat
    as (H0 & H1 & Hle & Heq) by (unfold frac0x, frac1x, frac0, frac1; nlia).
  assert (ROUND_UP f = frac1 + Nat.min 1 frac1x)%nat as Hr.
  { unfold ROUND_UP, frac1x, frac1. destruct (Nat.ltb_spec 0 f); nlia. }
  pose proof (dig2bytes_le frac1x 8 ltac:(lia)) as Hd1. change (dig2bytes 8) with 4%nat in Hd1.
  pose proof (dig2bytes_pos frac0x) as Hp0. unfold fsize0, fsize1. rewrite Hr.
  clearbody frac0 frac0x frac1 frac1x. clear Hf Hr fsize0 fsize1.
  destruct (Nat.eq_dec frac1 frac0) as [->|Hne].
  - specialize (Heq eq_refl). pose proof (dig2bytes_le frac1x frac0x ltac:(lia)) as Hd.
    destruct (Nat.ltb_spec (frac0 * 4 + dig2bytes frac0x) (frac0 * 4 + dig2bytes frac1x)); [lia|].
    rewrite Nat.eqb_refl. destruct (Nat.eq_dec frac1x 0%nat) as [->|Hx].
    + rewrite andb_false_r. exists frac0, 0%nat, (frac0 * 4 + dig2bytes frac0x)%nat.
      split; [done|]. left. cbn [dig2bytes nth]. lia.
    + destruct (Nat.ltb_spec 0 frac1x); [|lia]. rewrite andb_true_r.
      destruct (Nat.ltb_spec (frac0 * 4 + dig2bytes frac1x) (frac0 * 4 + dig2bytes frac0x)).
      * exists frac0, frac0x, (frac0 * 4 + dig2bytes frac1x)%nat. split; [done|]. right. left.
        rewrite Nat.ltb_irrefl, widen_same by lia. lia.
      * exists frac0, frac1x, (frac0 * 4 + dig2bytes frac0x)%nat. split; [done|]. right. left.
        rewrite Nat.ltb_irrefl, (widen_same frac1x) by lia. lia.
  - destruct (Nat.ltb_spec (frac0 * 4 + dig2bytes frac0x) (frac1 * 4 + dig2bytes frac1x)); [lia|].
    rewrite (proj2 (Nat.eqb_neq frac0 frac1)) by lia. destruct (Nat.eq_dec frac1x 0%nat) as [->|Hx].
    + rewrite andb_false_r. exists frac1, 0%nat, (frac0 * 4 + dig2bytes frac0x)%nat.
      split; [done|]. left. cbn [dig2bytes nth]. lia.
    + destruct (Nat.ltb_spec 0 frac1x); [|lia]. rewrite andb_true_r.
      destruct (Nat.ltb_spec (frac1 * 4 + dig2bytes frac1x) (frac0 * 4 + dig2bytes frac0x)).
      * exists (frac1 + 1)%nat, 0%nat, (frac0 * 4 + dig2bytes frac0x)%nat. split; [done|]. left. lia.
      * exists frac1, frac1x, (frac0 * 4 + dig2bytes frac0x)%nat. split; [done|]. right. right.
        destruct (Nat.ltb_spec frac1 frac0); [|lia]. rewrite (widen_same frac1x 9%nat) by (try change (dig2bytes 9) with 4%nat; lia). lia.
Qed.

(** ** The stored number *)

(** The number that the bytes of a column hold, before the sign, for a value
    of [x] units of the last digit of the scale. *)
Definition dec_number (precision scale : nat) (x : Z) : Z :=
  let frac0 := (scale / 9)%nat in
  let frac0x := (scale - frac0 * 9)%nat in
  radix (10 ^ Z.of_nat frac0x) (256 ^ Z.of_nat (dig2bytes frac0x))
    (rebase ((precision - scale) / 9 + frac0)) x.

(** The absolute value of a decimal in units of [10 ^ - scale]. *)
Definition dec_abs (d : decimal_t) (scale : nat) : Z :=
  word_val DIG_BASE (intg_words d ++ frac_words d) * 10 ^ Z.of_nat scale
  / 10 ^ Z.of_nat (9 * ROUND_UP (frac d)).

Lemma pow_base n : DIG_BASE ^ Z.of_nat n = 10 ^ Z.of_nat (9 * n).
Proof. change DIG_BASE with (10 ^ 9). rewrite <- Z.pow_mul_r by lia. f_equal. lia. Qed.

Lemma rebase_word_val n l : words_ok l -> word_val DIG_BASE l < DIG_BASE ^ Z.of_nat (S n) ->
  rebase n (word_val DIG_BASE l) = word_val (2 ^ 32) l.
Proof.
  intros Hl Hv. pose proof (word_val_bound DIG_BASE l ltac:(lia) Hl) as Hb.
  rewrite <- rebase_words by done. destruct (Nat.le_ge_cases n (length l)) as [H|H].
  - replace (length l) with (n + (length l - n))%nat by lia. rewrite rebase_stable; [done|lia].
  - replace n with (length l + (n - length l))%nat by lia. apply rebase_stable.
    split; [lia|]. rewrite Nat2Z.inj_succ, Z.pow_succ_r by lia. lia.
Qed.

(** The three ways to write a fraction, as numbers. *)
Lemma dec_number_pad p s l j :
  let frac0 := (s / 9)%nat in
  let frac0x := (s - frac0 * 9)%nat in
  words_ok l -> (j <= frac0)%nat ->
  word_val DIG_BASE l < DIG_BASE ^ Z.of_nat (S ((p - s) / 9 + (frac0 - j))) ->
  dec_number p s (word_val DIG_BASE l * 10 ^ Z.of_nat (9 * j + frac0x)) =
  word_val (2 ^ 32) l * 256 ^ Z.of_nat (4 * j + dig2bytes frac0x).
Proof.
  intros frac0 frac0x Hl Hj Hv. unfold dec_number. fold frac0. fold frac0x. unfold radix.
  rewrite (Nat2Z.inj_add (9 * j)), Z.pow_add_r, Z.mul_assoc, Z.div_mul, Z.mod_mul, Z.add_0_r by lia.
  rewrite <- pow_base. replace ((p - s) / 9 + frac0)%nat with ((p - s) / 9 + (frac0 - j) + j)%nat by lia.
  rewrite rebase_shift, rebase_word_val by done.
  rewrite (Nat2Z.inj_add (4 * j)), (Z.pow_add_r 256), Z.mul_assoc by lia. f_equal. f_equal.
  rewrite Nat2Z.inj_mul. change 256 with (2 ^ 8). rewrite <- Z.pow_mul_r by lia. f_equal. lia.
Qed.

Lemma dec_number_part p s l w :
  let frac0 := (s / 9)%nat in
  let frac0x := (s - frac0 * 9)%nat in
  words_ok l -> 0 <= w < 10 ^ Z.of_nat frac0x ->
  word_val DIG_BASE l < DIG_BASE ^ Z.of_nat (S ((p - s) / 9 + frac0)) ->
  dec_number p s (word_val DIG_BASE l * 10 ^ Z.of_nat frac0x + w) =
  word_val (2 ^ 32) l * 256 ^ Z.of_nat (dig2bytes frac0x) + w.
Proof.
  intros frac0 frac0x Hl Hw Hv. unfold dec_number. fold frac0. fold frac0x. unfold radix.
  rewrite Z.div_add_l, (Z.div_small w), Z.add_0_r, rebase_word_val by (done || lia).
  f_equal. rewrite Z.add_comm, Z.mod_add, Z.mod_small; lia.
Qed.

Lemma flip_sign_eq n v : flip_sign (be_bytes (S n) v) = be_bytes (S n) (256 ^ Z.of_nat (S n) / 2 + v).
Proof.
  pose proof (pow256_pos n) as Hp. cbn [be_bytes flip_sign].
  assert (256 ^ Z.of_nat (S n) / 2 = 128 * 256 ^ Z.of_nat n) as He.
  { rewrite pow256_S. replace (256 * 256 ^ Z.of_nat n) with (128 * 256 ^ Z.of_nat n * 2) by lia.
    apply Z.div_mul. lia. }
  rewrite He. f_equal.
  - rewrite Z.div_add_l, <- Z.add_mod_idemp_r by lia.
    pose proof (Z.mod_pos_bound (v / 256 ^ Z.of_nat n) 256 ltac:(lia)) as Hb.
    revert Hb. generalize ((v / 256 ^ Z.of_nat n) mod 256). intros b Hb.
    enough ((Z.lxor b 128 =? (128 + b) mod 256) = true) by lia.
    revert b Hb. by apply (Z_range_forall 256 (fun b => Z.lxor b 128 =? (128 + b) mod 256)).
  - rewrite Z.add_comm. symmetry. apply be_bytes_mod. lia.
Qed.

(** A decimal fits a column when its digits do. *)
Record dec_fits (d : decimal_t) (precision scale : nat) : Prop := {
  fits_intg : word_val DIG_BASE (intg_words d) < 10 ^ Z.of_nat (precision - scale);
  fits_frac : (frac d <= scale)%nat;
  fits_scale : (scale <= precision)%nat;
  fits_precision : (0 < precision)%nat
}.

(** More digits do not take fewer bytes. *)
Lemma group_size_mono a b : (a <= b)%nat ->
  (a / 9 * 4 + dig2bytes (a - a / 9 * 9) <= b / 9 * 4 + dig2bytes (b - b / 9 * 9))%nat.
Proof.
  intros H. pose proof (dig2bytes_le (a - a / 9 * 9) 8 ltac:(nlia)) as H8.
  change (dig2bytes 8) with 4%nat in H8.
  destruct (Nat.eq_dec (a / 9)%nat (b / 9)%nat) as [He|He].
  - rewrite He in *. pose proof (dig2bytes_le (a - b / 9 * 9)%nat (b - b / 9 * 9)%nat). nlia.
  - nlia.
Qed.

Lemma digits_of_le n ws k : digits_of n ws -> words_ok ws -> word_val DIG_BASE ws < 10 ^ Z.of_nat k -> (n <= k)%nat.
Proof.
  intros [[-> _]|(c & w & ws' & -> & -> & Hc & Hw)] Hok Hv; [lia|].
  apply Forall_cons_iff in Hok as [_ Hok]. pose proof (word_val_bound DIG_BASE ws' ltac:(lia) Hok) as Hb.
  cbn [word_val] in Hv. rewrite pow_base in Hv.
  assert (10 ^ (Z.of_nat c - 1 + Z.of_nat (9 * length ws')) < 10 ^ Z.of_nat k) as Hlt.
  { rewrite Z.pow_add_r by lia. pose proof (Z.pow_pos_nonneg 10 (Z.of_nat (9 * length ws'))). nia. }
  apply Z.pow_lt_mono_r_iff in Hlt; lia.
Qed.

Lemma word_val_lead_zeros base z l : word_val base (replicate z 0 ++ l) = word_val base l.
Proof. rewrite word_val_app, word_val_zeros; [lia|]. by apply Forall_replicate. Qed.

(** The integer words and [k] words of the fraction as a number. *)
Lemma lead_bound ws l k : words_ok l -> word_val DIG_BASE ws < 10 ^ Z.of_nat k -> 0 <= word_val DIG_BASE ws ->
  word_val DIG_BASE (ws ++ l) < DIG_BASE ^ Z.of_nat (S (k / 9 + length l)).
Proof.
  intros Hl Hw Hp. pose proof (word_val_bound DIG_BASE l ltac:(lia) Hl) as Hb. rewrite word_val_app.
  assert (10 ^ Z.of_nat k <= DIG_BASE ^ Z.of_nat (S (k / 9))) as Hk.
  { rewrite pow_base. apply Z.pow_le_mono_r; [lia|]. nlia. }
  replace (S (k / 9 + length l)) with (S (k / 9) + length l)%nat by lia.
  rewrite (Nat2Z.inj_add (S (k / 9))), Z.pow_add_r by lia. nia.
Qed.

(** The scaled value when the words of the fraction are within the scale, and
    when the last word is beyond it. *)
Lemma dec_abs_within V s k : (9 * k <= s)%nat ->
  V * 10 ^ Z.of_nat s / 10 ^ Z.of_nat (9 * k) = V * 10 ^ Z.of_nat (s - 9 * k).
Proof.
  intros H. replace s with (s - 9 * k + 9 * k)%nat at 1 by lia.
  rewrite Nat2Z.inj_add, Z.pow_add_r, Z.mul_assoc, Z.div_mul; lia.
Qed.

Lemma dec_abs_beyond Y w k e : (e <= 9)%nat ->
  (Y * DIG_BASE + w) * 10 ^ Z.of_nat (9 * k + e) / 10 ^ Z.of_nat (9 * (k + 1)) =
  Y * 10 ^ Z.of_nat e + w / 10 ^ Z.of_nat (9 - e).
Proof.
  intros He. pose proof (Z.pow_pos_nonneg 10 (Z.of_nat (9 * k + e)) ltac:(lia) ltac:(lia)).
  replace (9 * (k + 1))%nat with (9 - e + (9 * k + e))%nat by lia.
  rewrite (Nat2Z.inj_add (9 - e)), Z.pow_add_r, Z.div_mul_cancel_r by lia.
  replace DIG_BASE with (10 ^ Z.of_nat e * 10 ^ Z.of_nat (9 - e))
    by (rewrite <- Z.pow_add_r by lia; replace (Z.of_nat e + _) with 9 by lia; done).
  rewrite Z.mul_assoc, Z.div_add_l by lia. done.
Qed.

(** The end of the fraction, after the bytes of the whole words. *)
Section Tail.
Context (sg : bool) (p s : nat) (ws : list Z) (Hws : words_ok ws).
Context (Hint : word_val DIG_BASE ws < 10 ^ Z.of_nat (p - s)).
Let frac0 := (s / 9)%nat.
Let frac0x := (s - frac0 * 9)%nat.
Let isize0 := ((p - s) / 9 * 4 + dig2bytes (p - s - (p - s) / 9 * 9))%nat.
Let fsize0 := (frac0 * 4 + dig2bytes frac0x)%nat.
Let number fw :=
  dec_number p s (word_val DIG_BASE (ws ++ fw) * 10 ^ Z.of_nat s / 10 ^ Z.of_nat (9 * length fw)).

Lemma tail_value l : words_ok l ->
  words_ok (ws ++ l) /\ word_val DIG_BASE (ws ++ l) < DIG_BASE ^ Z.of_nat (S ((p - s) / 9 + length l)).
Proof.
  intros Hl. pose proof (word_val_bound DIG_BASE ws ltac:(lia) Hws). split.
  - apply Forall_app; done.
  - apply lead_bound; done || lia.
Qed.

Lemma tail_pad fw : words_ok fw -> (length fw <= frac0)%nat ->
  be_bytes (isize0 + 4 * length fw) (masked sg (word_val (2 ^ 32) (ws ++ fw)))
  ++ replicate (fsize0 - 4 * length fw) (uchar_of (mask_of sg)) =
  be_bytes (isize0 + fsize0) (masked sg (number fw)).
Proof.
  intros Hfw Hlen. destruct (tail_value fw Hfw) as [Hall Hv].
  pose proof (pow256_pos (fsize0 - 4 * length fw)).
  rewrite masked_pad, masked_join, Z.add_0_r by lia. unfold number.
  rewrite dec_abs_within by (unfold frac0 in Hlen; nlia).
  replace (s - 9 * length fw)%nat with (9 * (frac0 - length fw) + frac0x)%nat
    by (assert (frac0 * 9 <= s)%nat by (unfold frac0; nlia); unfold frac0x; lia).
  rewrite dec_number_pad; fold frac0; fold frac0x; [|done|lia|].
  - f_equal; [unfold fsize0; lia|]. do 4 f_equal. unfold fsize0. lia.
  - by replace (frac0 - (frac0 - length fw))%nat with (length fw) by lia.
Qed.

Lemma tail_part fs w : words_ok (fs ++ [w]) -> length fs = frac0 -> (0 < frac0x)%nat ->
  be_bytes (isize0 + 4 * length fs) (masked sg (word_val (2 ^ 32) (ws ++ fs)))
  ++ store_masked (dig2bytes frac0x) (w ÷ powers10 (9 - frac0x)) (mask_of sg) =
  be_bytes (isize0 + fsize0) (masked sg (number (fs ++ [w]))).
Proof.
  intros Hfw Hlen Hx. assert (frac0x < 9)%nat as Hx9 by (unfold frac0x, frac0; nlia).
  apply Forall_app in Hfw as [Hfs Hw]. apply Forall_cons_iff in Hw as [Hw _].
  destruct (tail_value fs Hfs) as [Hall Hv].
  pose proof (Z.pow_pos_nonneg 10 (Z.of_nat (9 - frac0x)) ltac:(lia) ltac:(lia)).
  pose proof (dig2bytes_fits frac0x ltac:(lia)) as Hfit.
  assert (0 <= w / powers10 (9 - frac0x) < powers10 frac0x) as Hq.
  { split; [apply Z.div_pos; lia|]. apply Z.div_lt_upper_bound; [lia|].
    rewrite <- Z.pow_add_r by lia. replace (Z.of_nat (9 - frac0x) + Z.of_nat frac0x) with 9 by lia. lia. }
  rewrite lxor_mask, Z.quot_div_nonneg, masked_join by lia. unfold number.
  rewrite (app_assoc ws), (word_val_app DIG_BASE (ws ++ fs)), length_app. cbn [word_val length].
  change (DIG_BASE ^ Z.of_nat 1) with DIG_BASE. change (DIG_BASE ^ Z.of_nat 0) with 1.
  rewrite Z.mul_1_r, Z.add_0_r, Hlen.
  replace s with (9 * frac0 + frac0x)%nat at 2 by (unfold frac0x, frac0; nlia).
  rewrite dec_abs_beyond by lia. rewrite dec_number_part; fold frac0; fold frac0x; [|done..|by rewrite <- Hlen].
  f_equal. unfold fsize0. lia.
Qed.

Lemma tail_word fs w : words_ok (fs ++ [w]) -> (length fs + 1 = frac0)%nat -> frac0x = 0%nat ->
  be_bytes (isize0 + 4 * length fs) (masked sg (word_val (2 ^ 32) (ws ++ fs)))
  ++ store_masked 4 (w ÷ powers10 (9 - 9)) (mask_of sg) =
  be_bytes (isize0 + fsize0) (masked sg (number (fs ++ [w]))).
Proof.
  intros Hfw Hlen Hx. rewrite <- tail_pad by (done || (rewrite length_app; cbn [length]; lia)).
  apply Forall_app in Hfw as [Hfs Hw]. apply Forall_cons_iff in Hw as [Hw _].
  rewrite lxor_mask, masked_join by (rewrite Z.quot_1_r; lia).
  rewrite length_app. cbn [length]. replace (fsize0 - 4 * (length fs + 1))%nat with 0%nat
    by (unfold fsize0; rewrite Hx; cbn [dig2bytes nth]; lia).
  rewrite app_nil_r, (app_assoc ws), (word_val_app (2 ^ 32) (ws ++ fs)). cbn [word_val length].
  change (powers10 (9 - 9)) with 1. rewrite Z.quot_1_r. f_equal; [lia|]. do 2 f_equal. simpl. lia.
Qed.

(** The three cases of [frac_plan] together. *)
Lemma tail_bytes fw rest fsize1 frac1 frac1x fsize0' :
  words_ok fw ->
  ((frac1x = 0 /\ frac1 = length fw /\ frac1 <= frac0 /\ fsize0 - 4 * frac1 <= fsize0' - fsize1)%nat \/
   (length fw = frac0 + 1 /\ frac1 = frac0 /\ 0 < frac1x /\ dig2bytes frac1x = dig2bytes frac0x /\
    widen 9 frac1x (if frac1 <? frac0 then 9 else frac0x) (dig2bytes frac1x) = frac0x /\
    0 < frac0x /\ fsize0' = fsize1)%nat \/
   (length fw = frac0 /\ frac1 + 1 = frac0 /\ frac0x = 0 /\ 0 < frac1x /\ dig2bytes frac1x = 4 /\
    widen 9 frac1x (if frac1 <? frac0 then 9 else frac0x) (dig2bytes frac1x) = 9 /\
    fsize0' = fsize1)%nat) ->
  let T := be_bytes (isize0 + 4 * frac1) (masked sg (word_val (2 ^ 32) (ws ++ take frac1 fw))) in
  let out := if (0 <? frac1x)%nat
    then T ++ store_masked (dig2bytes frac1x)
           (hd 0 (drop frac1 fw ++ rest) ÷ powers10 (9 - widen 9 frac1x
             (if frac1 <? frac0 then 9 else frac0x)%nat (dig2bytes frac1x))) (mask_of sg)
    else T in
  out ++ replicate ((fsize0' - fsize1) `min` (fsize0 + isize0 - length out)) (uchar_of (mask_of sg)) =
  be_bytes (isize0 + fsize0) (masked sg (number fw)).
Proof.
  intros Hfw Hplan T out. subst out.
  assert (forall k, length fw = (k + 1)%nat -> exists w, fw = take k fw ++ [w] /\ drop k fw = [w]) as Hlast.
  { intros k Hk. destruct (drop k fw) as [|w [|w' l]] eqn:E;
      pose proof (length_drop fw k) as Hl; rewrite E in Hl; cbn [length] in Hl; try lia.
    exists w. by rewrite <- E, take_drop. }
  destruct Hplan as [(-> & -> & Hle & Hsz)|[(Hlen & -> & Hx & Hd & Hwd & Hx0 & ->)
    |(Hlen & Hk & Hx0 & Hx & Hd & Hwd & ->)]].
  - cbn [Nat.ltb Nat.leb]. unfold T. rewrite take_ge, length_be_bytes by lia.
    replace (_ `min` _)%nat with (fsize0 - 4 * length fw)%nat by lia. by apply tail_pad.
  - destruct (Nat.ltb_spec 0 frac1x); [|lia]. rewrite Hwd, Hd, (Nat.sub_diag fsize1), Nat.min_0_l, app_nil_r.
    destruct (Hlast frac0 Hlen) as (w & Hfw' & Hdr). rewrite Hdr. cbn [app hd].
    rewrite Hfw' at 1. rewrite <- (tail_part (take frac0 fw)); [|by rewrite <- Hfw'| |done].
    + unfold T. rewrite length_take. do 2 f_equal. lia.
    + rewrite length_take. lia.
  - destruct (Nat.ltb_spec 0 frac1x); [|lia]. rewrite Hwd, Hd, (Nat.sub_diag fsize1), Nat.min_0_l, app_nil_r.
    destruct (Hlast frac1 ltac:(lia)) as (w & Hfw' & Hdr). rewrite Hdr. cbn [app hd].
    rewrite Hfw' at 1. rewrite <- (tail_word (take frac1 fw)); [|by rewrite <- Hfw'| |done].
    + unfold T. rewrite length_take. do 2 f_equal. lia.
    + rewrite length_take. lia.
Qed.
End Tail.

(** The test for zero changes nothing for a decimal that fits. *)
Lemma zero_test d p s ws n rest : dec_ok d -> dec_fits d p s ->
  digits_of n ws -> (n <= p - s)%nat -> word_val DIG_BASE (intg_words d) = word_val DIG_BASE ws ->
  let frac1 := (frac d / 9)%nat in
  let zero := (n + (frac1 * 4 + dig2bytes (frac d - frac1 * 9)) =? 0)%nat in
  let mask := if zero then 0 else if sign d then -1 else 0 in
  mask = mask_of (sign d) /\ ((if zero then 1 else p - s) <? n)%nat = false /\
  exists rest', (if zero then [mask] else ws ++ frac_words d ++ rest) = ws ++ frac_words d ++ rest'.
Proof.
  intros Hok Hfit Hn Hle Hval frac1 zero mask.
  assert (zero = true -> n = 0%nat /\ ws = [] /\ frac_words d = []) as Hz.
  { unfold zero. rewrite Nat.eqb_eq. intros Hz.
    assert (n = 0%nat) as Hn0 by lia.
    assert (frac d = 0%nat) as Hf.
    { pose proof (dig2bytes_pos (frac d - frac1 * 9)). unfold frac1 in *. nlia. }
    split; [done|]. split.
    - destruct Hn as [[_ ->]|(c & w & ws' & _ & He & Hc & _)]; [done|lia].
    - unfold frac_words. rewrite Hf. done. }
  unfold mask. destruct zero eqn:Ez.
  - destruct (Hz eq_refl) as (-> & -> & Hf). split; [|split; [done|]].
    + destruct (sign d) eqn:Es; [|done]. exfalso. apply (ok_sign d Hok Es).
      rewrite Hf, app_nil_r, Hval. done.
    + exists [0]. by rewrite Hf.
  - split; [by destruct (sign d)|]. split; [apply Nat.ltb_ge; lia|by exists rest].
Qed.

(** The bytes before the sign bit. *)
Lemma decimal2bin_eq d p s : dec_ok d -> dec_fits d p s ->
  decimal2bin d p s =
    (E_DEC_OK, flip_sign (be_bytes (decimal_bin_size p s) (masked (sign d) (dec_number p s (dec_abs d s))))).
Proof.
  intros Hok Hfit.
  destruct (remove_leading_zeroes_spec d Hok) as (z & ws & n & rest & Hw & Hr & Hn).
  assert (word_val DIG_BASE (intg_words d) = word_val DIG_BASE ws) as Hval
    by (rewrite Hw; apply word_val_lead_zeros).
  assert (words_ok ws) as Hws.
  { pose proof (ok_intg d Hok) as H. rewrite Hw in H. by apply Forall_app in H as [_ H]. }
  assert (word_val DIG_BASE ws < 10 ^ Z.of_nat (p - s)) as Hint by (rewrite <- Hval; apply Hfit).
  pose proof (digits_of_le n ws _ Hn Hws Hint) as Hle.
  destruct (zero_test d p s ws n rest Hok Hfit Hn Hle Hval) as (Hmask & Hov & rest' & Hbuf).
  unfold decimal2bin. rewrite Hr. cbv zeta in *. rewrite Hbuf, Hmask, Hov.
  destruct (frac_plan (frac d) s (fits_frac d p s Hfit)) as (frac1 & frac1x & fsize0 & Hp & Hplan).
  cbv zeta in Hp. rewrite Hp. clear Hp Hbuf Hmask Hov.
  rewrite <- (length_frac_words d Hok) in Hplan.
  pose proof (ok_frac d Hok) as Hfw. set (fw := frac_words d) in *.
  assert (length (take frac1 fw) = frac1) as Hf1 by (rewrite length_take; lia).
  rewrite <- (take_drop frac1 fw), <- app_assoc.
  destruct (lead_bytes (sign d) n ws (take frac1 fw) (drop frac1 fw ++ rest')
    ((p - s) / 9 * 4 + dig2bytes (p - s - (p - s) / 9 * 9)) Hn Hws ltac:(by apply Forall_take)) as [HT Hdrop].
  { by apply group_size_mono. }
  rewrite Hf1 in HT, Hdrop.
  pose proof (tail_bytes (sign d) p s ws Hws Hint fw rest' _ frac1 frac1x fsize0 Hfw Hplan) as Htail.
  cbv beta zeta in Htail. rewrite (length_frac_words d Hok : length fw = _) in Htail.
  assert (word_val DIG_BASE (ws ++ fw) = word_val DIG_BASE (intg_words d ++ fw)) as Hv
    by (by rewrite !word_val_app, Hval).
  rewrite Hv in Htail. unfold dec_abs. fold fw.
  replace (decimal_bin_size p s) with
    ((p - s) / 9 * 4 + dig2bytes (p - s - (p - s) / 9 * 9) + (s / 9 * 4 + dig2bytes (s - s / 9 * 9)))%nat
    by (unfold decimal_bin_size; lia).
  rewrite <- Htail. clear -HT Hdrop.
  destruct (0 <? n - n / 9 * 9)%nat; [rewrite app_assoc in HT|cbn [app] in HT]; by rewrite HT, Hdrop.
Qed.

(** ** Order *)

(** The value of a decimal in units of [10 ^ - scale]. *)
Definition dec_val (d : decimal_t) (scale : nat) : Z :=
  if sign d then - dec_abs d scale else dec_abs d scale.

Lemma rebase_bound n v c : 0 <= v < c * DIG_BASE ^ Z.of_nat n ->
  0 <= rebase n v < c * 256 ^ Z.of_nat (4 * n).
Proof.
  revert v. induction n as [|n IH]; intros v Hv; [exact Hv|].
  rewrite Nat2Z.inj_succ, Z.pow_succ_r in Hv by lia. cbn [rebase]. unfold radix.
  destruct (IH (v / DIG_BASE)) as [Hl Hu].
  { split; [apply Z.div_pos; lia|]. apply Z.div_lt_upper_bound; lia. }
  pose proof (Z.mod_pos_bound v DIG_BASE ltac:(lia)).
  replace (4 * S n)%nat with (4 * n + 4)%nat by lia.
  rewrite (Nat2Z.inj_add (4 * n)), Z.pow_add_r by lia. change (256 ^ Z.of_nat 4) with (2 ^ 32). lia.
Qed.

(** A number with leading zero digits leaves the sign bit free. *)
Lemma half_bound n v c m : 0 <= v < 10 ^ Z.of_nat c * DIG_BASE ^ Z.of_nat n -> (c <= 9)%nat ->
  m = dig2bytes c -> (0 < c + n)%nat -> 0 <= 2 * rebase n v < 256 ^ Z.of_nat (m + 4 * n).
Proof.
  intros Hv Hc -> Hpos. destruct (Nat.eq_dec c 0%nat) as [->|Hc0].
  - destruct n as [|n]; [lia|]. cbn [dig2bytes nth Nat.add].
    assert (0 <= v < DIG_BASE * DIG_BASE ^ Z.of_nat n) as Hv'.
    { rewrite Nat2Z.inj_succ, Z.pow_succ_r in Hv by lia. lia. }
    replace (rebase (S n) v) with (rebase n v).
    + pose proof (rebase_bound n v DIG_BASE Hv') as Hb.
      replace (4 * S n)%nat with (4 + 4 * n)%nat by lia.
      rewrite (Nat2Z.inj_add 4), Z.pow_add_r by lia. change (256 ^ Z.of_nat 4) with (2 ^ 32). lia.
    + rewrite <- (rebase_stable n 1); [by rewrite Nat.add_1_r|].
      rewrite Nat2Z.inj_succ, Z.pow_succ_r by lia. lia.
  - pose proof (rebase_bound n v _ Hv) as Hb. pose proof (dig2bytes_fits c ltac:(lia)).
    rewrite Nat2Z.inj_add, Z.pow_add_r by lia. pose proof (pow256_pos (4 * n)). nia.
Qed.

Lemma dec_number_bound p s x : (s <= p)%nat -> (0 < p)%nat -> 0 <= x < 10 ^ Z.of_nat p ->
  0 <= 2 * dec_number p s x < 256 ^ Z.of_nat (decimal_bin_size p s).
Proof.
  intros Hs Hp Hx. unfold dec_number, decimal_bin_size.
  set (frac0 := (s / 9)%nat). set (frac0x := (s - frac0 * 9)%nat).
  set (intg0 := ((p - s) / 9)%nat). set (intg0x := (p - s - intg0 * 9)%nat).
  assert (frac0x <= 8 /\ intg0x <= 8 /\ p = intg0x + 9 * (intg0 + frac0) + frac0x)%nat as (Hfx & Hix & Hpe)
    by (unfold frac0x, intg0x, frac0, intg0; nlia).
  unfold radix. set (f := 10 ^ Z.of_nat frac0x). assert (0 < f) as Hf by (apply Z.pow_pos_nonneg; lia).
  pose proof (Z.mod_pos_bound x f Hf) as Hm.
  assert (0 <= x / f < 10 ^ Z.of_nat intg0x * DIG_BASE ^ Z.of_nat (intg0 + frac0)) as Hq.
  { split; [apply Z.div_pos; lia|]. apply Z.div_lt_upper_bound; [lia|]. rewrite pow_base.
    unfold f. rewrite <- !Z.pow_add_r by lia. replace (_ + _) with (Z.of_nat p) by lia. lia. }
  replace (intg0 * 4 + dig2bytes intg0x + frac0 * 4 + dig2bytes frac0x)%nat
    with (dig2bytes intg0x + 4 * (intg0 + frac0) + dig2bytes frac0x)%nat by lia.
  rewrite (Nat2Z.inj_add (_ + _)), Z.pow_add_r by lia.
  set (G := 256 ^ Z.of_nat (dig2bytes frac0x)).
  assert (f <= G /\ ((0 < frac0x)%nat -> 2 * f <= G)) as [HG HG2].
  { unfold f, G. destruct (Nat.eq_dec frac0x 0%nat) as [->|]; [split; [done|lia]|].
    pose proof (dig2bytes_fits frac0x). lia. }
  destruct (Nat.eq_dec (intg0x + (intg0 + frac0))%nat 0%nat) as [Hz|Hz].
  - assert (intg0x = 0 /\ intg0 + frac0 = 0)%nat as [Hz1 Hz2] by lia. rewrite Hz1, Hz2 in *.
    change (10 ^ Z.of_nat 0 * DIG_BASE ^ Z.of_nat 0) with 1 in Hq.
    cbn [rebase dig2bytes nth Nat.add Nat.mul]. replace (x / f) with 0 by lia.
    change (256 ^ Z.of_nat 0) with 1. specialize (HG2 ltac:(lia)). lia.
  - pose proof (half_bound _ _ _ _ Hq ltac:(lia) eq_refl ltac:(lia)) as Hb.
    set (k := (dig2bytes intg0x + 4 * (intg0 + frac0))%nat) in *.
    assert (exists h, 256 ^ Z.of_nat k = 2 * h) as [h Hh].
    { assert (0 < k)%nat as Hk by (unfold k; pose proof (dig2bytes_pos intg0x); lia).
      destruct k as [|k']; [lia|]. exists (128 * 256 ^ Z.of_nat k'). rewrite pow256_S. lia. }
    rewrite Hh in *. clear -Hb Hm HG. nia.
Qed.

Lemma dec_number_mono p s hi : 0 <= hi -> mono_on 0 hi (dec_number p s).
Proof.
  intros Hhi x y Hx Hxy Hy. unfold dec_number. set (e := (s - s / 9 * 9)%nat).
  assert (e <= 8)%nat as He by (unfold e; nlia).
  assert (0 < 10 ^ Z.of_nat e <= 256 ^ Z.of_nat (dig2bytes e)) as HR.
  { split; [apply Z.pow_pos_nonneg; lia|]. destruct (Nat.eq_dec e 0%nat) as [->|]; [done|].
    pose proof (dig2bytes_fits e ltac:(lia)). pose proof (Z.pow_pos_nonneg 10 (Z.of_nat e)). lia. }
  assert (hi < hi / 10 ^ Z.of_nat e * 10 ^ Z.of_nat e + 10 ^ Z.of_nat e) as Hlim.
  { pose proof (Z.div_mod hi (10 ^ Z.of_nat e)). pose proof (Z.mod_pos_bound hi (10 ^ Z.of_nat e)). lia. }
  apply (radix_mono _ _ _ 0 (hi / 10 ^ Z.of_nat e) HR); [|lia..].
  apply rebase_mono. apply Z.div_pos; lia.
Qed.

(** The digits of a decimal that fits are those of the column: the scaled
    value is exact and within the precision. *)
Lemma dec_abs_spec d p s : dec_ok d -> dec_fits d p s ->
  dec_abs d s * 10 ^ Z.of_nat (9 * ROUND_UP (frac d)) =
    word_val DIG_BASE (intg_words d ++ frac_words d) * 10 ^ Z.of_nat s /\
  0 <= dec_abs d s < 10 ^ Z.of_nat p.
Proof.
  intros Hok Hfit. unfold dec_abs. rewrite word_val_app, length_frac_words, pow_base by done.
  pose proof (word_val_bound DIG_BASE _ ltac:(lia) (ok_intg d Hok)) as HI.
  pose proof (word_val_bound DIG_BASE _ ltac:(lia) (ok_frac d Hok)) as HF.
  rewrite length_frac_words, pow_base in HF by done.
  pose proof (fits_intg d p s Hfit) as Hint. pose proof (fits_frac d p s Hfit) as Hfs.
  pose proof (fits_scale d p s Hfit) as Hsp. destruct (ok_last d Hok) as [q Hq].
  pose proof (ROUND_UP_spec (frac d)) as Hr. set (k := (9 * ROUND_UP (frac d))%nat) in *.
  set (I := word_val DIG_BASE (intg_words d)) in *. set (F := word_val DIG_BASE (frac_words d)) in *.
  assert (0 < 10 ^ Z.of_nat k) as Hk by (apply Z.pow_pos_nonneg; lia).
  assert (0 < 10 ^ Z.of_nat s) as Hs by (apply Z.pow_pos_nonneg; lia).
  assert ((I * 10 ^ Z.of_nat k + F) * 10 ^ Z.of_nat s =
    (I * 10 ^ Z.of_nat s + q * 10 ^ Z.of_nat (s - frac d)) * 10 ^ Z.of_nat k) as He.
  { assert (F * 10 ^ Z.of_nat s = q * 10 ^ Z.of_nat (s - frac d) * 10 ^ Z.of_nat k) as HFs; [|lia].
    assert (forall a, (frac d <= a)%nat ->
      10 ^ Z.of_nat a = 10 ^ Z.of_nat (a - frac d) * 10 ^ Z.of_nat (frac d)) as Hsplit
      by (intros a Ha; rewrite <- Z.pow_add_r by lia; f_equal; lia).
    rewrite Hq, (Hsplit s), (Hsplit k) by lia. ring. }
  rewrite He, Z.div_mul by lia. split; [done|].
  assert (10 ^ Z.of_nat p = 10 ^ Z.of_nat (p - s) * 10 ^ Z.of_nat s) as Hp
    by (rewrite <- Z.pow_add_r by lia; f_equal; lia).
  assert (10 ^ Z.of_nat k * 10 ^ Z.of_nat s > 0) as Hks by nia. split.
  - nia.
  - apply Z.mul_lt_mono_pos_r with (10 ^ Z.of_nat k); [lia|]. rewrite <- He, Hp. nia.
Qed.

(** A stored value of the given sign, as a number from 0 on. *)
Lemma stored_compare p s d e : dec_ok d -> dec_ok e -> dec_fits d p s -> dec_fits e p s ->
  (masked (sign d) (dec_number p s (dec_abs d s)) ?= masked (sign e) (dec_number p s (dec_abs e s))) =
  (dec_val d s ?= dec_val e s).
Proof.
  intros Hd He Hfd Hfe. destruct (dec_abs_spec d p s Hd Hfd) as [Hxd Hrd].
  destruct (dec_abs_spec e p s He Hfe) as [Hxe Hre].
  assert (forall c, dec_ok c -> dec_fits c p s -> sign c = true -> 0 < dec_abs c s) as Hpos.
  { intros c Hc Hfc Hsg. destruct (dec_abs_spec c p s Hc Hfc) as [Hx Hr].
    pose proof (ok_sign c Hc Hsg). pose proof (Z.pow_pos_nonneg 10 (Z.of_nat s)). nia. }
  assert (forall x, 0 <= x < 10 ^ Z.of_nat p -> 0 <= dec_number p s x) as Hnn.
  { intros x Hx. pose proof (dec_number_bound p s x (fits_scale d p s Hfd) (fits_precision d p s Hfd) Hx). lia. }
  pose proof (Hnn _ Hrd). pose proof (Hnn _ Hre).
  pose proof (mono_on_compare 0 (10 ^ Z.of_nat p) (dec_number p s) (dec_abs d s) (dec_abs e s)
    (dec_number_mono p s (10 ^ Z.of_nat p) ltac:(lia)) ltac:(lia) ltac:(lia)) as Hcmp.
  unfold dec_val, masked. destruct (sign d) eqn:Ed, (sign e) eqn:Ee.
  - rewrite Z.compare_opp, (Z.compare_antisym (dec_abs d s)), <- Hcmp, <- Z.compare_antisym.
    destruct (Z.compare_spec (dec_number p s (dec_abs e s)) (dec_number p s (dec_abs d s)));
      [apply Z.compare_eq_iff|apply Z.compare_lt_iff|apply Z.compare_gt_iff]; lia.
  - specialize (Hpos d Hd Hfd Ed). trans Lt; [|symmetry]; apply Z.compare_lt_iff; lia.
  - specialize (Hpos e He Hfe Ee). trans Gt; [|symmetry]; apply Z.compare_gt_iff; lia.
  - done.
Qed.

Lemma decimal_bin_size_pos p s : (s <= p)%nat -> (0 < p)%nat -> (0 < decimal_bin_size p s)%nat.
Proof.
  intros Hs Hp. unfold decimal_bin_size. pose proof (dig2bytes_pos (p - s - (p - s) / 9 * 9)).
  pose proof (dig2bytes_pos (s - s / 9 * 9)). nlia.
Qed.

Lemma decimal2bin_bytes d p s : dec_ok d -> dec_fits d p s ->
  let size := decimal_bin_size p s in
  decimal2bin d p s =
    (E_DEC_OK, be_bytes size (256 ^ Z.of_nat size / 2 + masked (sign d) (dec_number p s (dec_abs d s)))).
Proof.
  intros Hok Hfit size. rewrite decimal2bin_eq by done. fold size.
  pose proof (decimal_bin_size_pos p s (fits_scale d p s Hfit) (fits_precision d p s Hfit)) as Hpos.
  fold size in Hpos. destruct size as [|n]; [lia|]. by rewrite flip_sign_eq.
Qed.

Lemma masked_range d p s : dec_ok d -> dec_fits d p s ->
  let size := decimal_bin_size p s in
  0 <= 256 ^ Z.of_nat size / 2 + masked (sign d) (dec_number p s (dec_abs d s)) < 256 ^ Z.of_nat size.
Proof.
  intros Hok Hfit size. destruct (dec_abs_spec d p s Hok Hfit) as [_ Hr].
  pose proof (dec_number_bound p s _ (fits_scale d p s Hfit) (fits_precision d p s Hfit) Hr) as Hb.
  pose proof (decimal_bin_size_pos p s (fits_scale d p s Hfit) (fits_precision d p s Hfit)) as Hpos.
  fold size in Hb, Hpos. destruct size as [|n]; [lia|]. rewrite pow256_S in *.
  replace (256 * 256 ^ Z.of_nat n) with (128 * 256 ^ Z.of_nat n * 2) in * by lia.
  rewrite Z.div_mul by lia. unfold masked. destruct (sign d); lia.
Qed.

(** Byte order is the order of the values. *)
Lemma decimal_order d e p s : dec_ok d -> dec_ok e -> dec_fits d p s -> dec_fits e p s ->
  lex_cmp (decimal2bin d p s).2 (decimal2bin e p s).2 = (dec_val d s ?= dec_val e s).
Proof.
  intros Hd He Hfd Hfe. rewrite !decimal2bin_bytes by done. cbn [snd].
  rewrite lex_cmp_be_bytes by by apply masked_range. rewrite Z.add_compare_mono_l. by apply stored_compare.
Qed.

End Decimal.
