(* ===== verification/DecimalRead.v ===== *)
(** * DecimalRead: reading DECIMAL columns

    [bin2decimal] on the bytes of any value of a column: it succeeds, and the
    decimal it makes is well-formed and has the value.  With the bytes that
    [decimal2bin] writes this is the round trip of a DECIMAL. *)

From Stdlib Require Import ZifyNat.
From S2P Require Import Prelude Charset Row Decimal.

Module DecimalRead.
Import Row Decimal.

(** ** Groups *)

(** The [n] low words of a number. *)
Fixpoint words (n : nat) (v : Z) : list Z :=
  match n with
  | O => []
  | S n => words n (v / DIG_BASE) ++ [v mod DIG_BASE]
  end.

Lemma words_spec n v : words_ok (words n v) /\ length (words n v) = n /\
  v = v / DIG_BASE ^ Z.of_nat n * DIG_BASE ^ Z.of_nat n + word_val DIG_BASE (words n v) /\
  rebase n v = v / DIG_BASE ^ Z.of_nat n * 256 ^ Z.of_nat (4 * n) + word_val (2 ^ 32) (words n v).
Proof.
  revert v. induction n as [|n IH]; intros v.
  - cbn [words word_val rebase length]. change (DIG_BASE ^ Z.of_nat 0) with 1. rewrite Z.div_1_r.
    repeat split; [constructor|lia|]. change (256 ^ Z.of_nat (4 * 0)) with 1. lia.
  - destruct (IH (v / DIG_BASE)) as (Hok & Hlen & Hv & Hr). cbn [words rebase]. unfold radix.
    pose proof (Z.mod_pos_bound v DIG_BASE ltac:(lia)) as Hm.
    pose proof (Z.pow_pos_nonneg DIG_BASE (Z.of_nat n) ltac:(lia) ltac:(lia)).
    rewrite !word_val_app, length_app. cbn [word_val length].
    change (DIG_BASE ^ Z.of_nat 1) with DIG_BASE. change (DIG_BASE ^ Z.of_nat 0) with 1.
    change ((2 ^ 32) ^ Z.of_nat 1) with (2 ^ 32). change ((2 ^ 32) ^ Z.of_nat 0) with 1.
    rewrite (Nat2Z.inj_succ n), Z.pow_succ_r, <- Z.div_div by lia.
    replace (4 * S n)%nat with (4 * n + 4)%nat by lia. rewrite (Nat2Z.inj_add (4 * n)), (Z.pow_add_r 256) by lia.
    change (256 ^ Z.of_nat 4) with (2 ^ 32). split; [apply Forall_app; split; [done|apply Forall_cons_iff; split; [exact Hm|constructor]]|].
    split; [lia|]. split; [|lia]. pose proof (Z.div_mod v DIG_BASE). lia.
Qed.

(** The bytes of a column by their groups. *)
Lemma dec_groups sg p s x : (s <= p)%nat -> 0 <= x < 10 ^ Z.of_nat p ->
  let frac0 := (s / 9)%nat in
  let frac0x := (s - frac0 * 9)%nat in
  let intg0 := ((p - s) / 9)%nat in
  let intg0x := (p - s - intg0 * 9)%nat in
  let y := x / 10 ^ Z.of_nat frac0x in
  let n := (intg0 + frac0)%nat in
  be_bytes (decimal_bin_size p s) (masked sg (dec_number p s x)) =
    be_bytes (dig2bytes intg0x) (masked sg (y / DIG_BASE ^ Z.of_nat n))
    ++ concat (map (fun w => store_masked 4 w (mask_of sg)) (words n y))
    ++ be_bytes (dig2bytes frac0x) (masked sg (x mod 10 ^ Z.of_nat frac0x)) /\
  0 <= y / DIG_BASE ^ Z.of_nat n < 10 ^ Z.of_nat intg0x.
Proof.
  intros Hs Hx frac0 frac0x intg0 intg0x y n.
  assert (frac0x <= 8 /\ p = intg0x + 9 * n + frac0x)%nat as (Hfx & Hp)
    by (unfold n, frac0x, intg0x, frac0, intg0; nlia).
  assert (0 < 10 ^ Z.of_nat frac0x <= 256 ^ Z.of_nat (dig2bytes frac0x)) as HR.
  { split; [apply Z.pow_pos_nonneg; lia|]. destruct (Nat.eq_dec frac0x 0%nat) as [->|]; [done|].
    pose proof (dig2bytes_fits frac0x ltac:(lia)). pose proof (Z.pow_pos_nonneg 10 (Z.of_nat frac0x)). lia. }
  destruct (words_spec n y) as (Hok & Hlen & Hy & Hr). split.
  - rewrite masked_words by done. pose proof (word_val_32_bound _ Hok) as Hb. rewrite Hlen in *.
    pose proof (Z.mod_pos_bound x (10 ^ Z.of_nat frac0x) ltac:(lia)).
    rewrite app_assoc, !masked_join by lia. rewrite <- Hr.
    f_equal. unfold decimal_bin_size. fold frac0 intg0 frac0x intg0x. unfold n. lia.
  - pose proof (Z.pow_pos_nonneg DIG_BASE (Z.of_nat n) ltac:(lia) ltac:(lia)). unfold y.
    split; [repeat apply Z.div_pos; lia|]. repeat apply Z.div_lt_upper_bound; try lia.
    rewrite pow_base, <- !Z.pow_add_r by lia. replace (_ + _) with (Z.of_nat p) by lia. lia.
Qed.

(** ** One group *)

Lemma masked_masked sg v : masked sg (masked sg v) = v.
Proof. destruct sg; cbn [masked]; lia. Qed.

(** A group of [i] bytes whose top bit the sign can use. *)
Lemma sint_korr_masked sg i v rest : (0 < i)%nat -> 0 <= v -> 2 * v < 256 ^ Z.of_nat i ->
  Z.lxor (sint_korr i (be_bytes i (masked sg v) ++ rest)) (mask_of sg) = v.
Proof.
  intros Hi Hv Hb. rewrite take_app_length' by by rewrite length_be_bytes.
  rewrite be_val_be_bytes, lxor_mask.
  assert (256 ^ Z.of_nat i = 2 ^ (8 * Z.of_nat i)) as Hp by (change 256 with (2 ^ 8); by rewrite <- Z.pow_mul_r by lia).
  assert (2 ^ (8 * Z.of_nat i) = 2 * 2 ^ (8 * Z.of_nat i - 1)) as H2 by (rewrite <- Z.pow_succ_r by lia; f_equal; lia).
  rewrite Hp in *. assert (signed_of (8 * Z.of_nat i) (masked sg v mod 2 ^ (8 * Z.of_nat i)) = masked sg v) as ->.
  { transitivity (signed_of (8 * Z.of_nat i) (masked sg v)).
    - unfold signed_of. by rewrite Z.mod_mod by lia.
    - apply signed_of_id; [lia|]. destruct sg; cbn [masked]; lia. }
  apply masked_masked.
Qed.

Lemma word_read sg w rest : 0 <= w < DIG_BASE ->
  Z.lxor (sint_korr 4 (store_masked 4 w (mask_of sg) ++ rest)) (mask_of sg) = w.
Proof.
  intros Hw. rewrite (lxor_mask sg w). apply sint_korr_masked; [lia..|].
  change (256 ^ Z.of_nat 4) with (2 ^ 32). lia.
Qed.

Lemma word_in_range w : 0 <= w < DIG_BASE -> (DIG_MAX <? uint_of w) = false.
Proof. intros Hw. apply Z.ltb_ge. unfold uint_of. rewrite Z.mod_small; lia. Qed.

(** ** The loops *)

Lemma read_intg_spec sg l rest n buf : words_ok l ->
  exists z ws, l = replicate z 0 ++ ws /\ (buf <> [] -> z = 0%nat) /\ (buf = [] -> ws <> [] -> hd 0 ws <> 0) /\
    read_intg (length l) (mask_of sg) (concat (map (fun w => store_masked 4 w (mask_of sg)) l) ++ rest) n buf =
    Some (rest, (n - 9 * z)%nat, buf ++ ws).
Proof.
  intros Hl. revert n buf. induction Hl as [|w l Hw Hl IH]; intros n buf.
  - exists 0%nat, []. split; [done|]. split; [done|]. split; [by intros _ []|].
    rewrite app_nil_r, Nat.sub_0_r. done.
  - cbn [length map concat read_intg]. rewrite <- app_assoc, word_read, word_in_range by done.
    rewrite drop_app_length' by by rewrite length_be_bytes.
    destruct (bool_decide (buf = [])) eqn:Eb; cbn [negb orb].
    + apply bool_decide_eq_true in Eb as ->. destruct (Z.eqb_spec w 0) as [->|Hw0]; cbn [negb].
      * destruct (IH (n - 9)%nat []) as (z & ws & Hzw & _ & Hh & Hr). exists (S z), ws.
        split; [by cbn; rewrite Hzw at 1|]. split; [done|]. split; [done|]. rewrite Hr. do 3 f_equal. lia.
      * destruct (IH n ([] ++ [w])) as (z & ws & Hzw & Hz & _ & Hr). rewrite (Hz ltac:(done)) in *.
        exists 0%nat, (w :: ws). cbn in Hzw. subst l. by repeat split.
    + apply bool_decide_eq_false in Eb.
      destruct (IH n (buf ++ [w])) as (z & ws & Hzw & Hz & _ & Hr).
      assert (z = 0%nat) as -> by (apply Hz; by destruct buf).
      exists 0%nat, (w :: ws). cbn in Hzw. subst l. rewrite <- app_assoc in Hr. by repeat split.
Qed.

Lemma read_frac_spec sg l rest buf : words_ok l ->
  read_frac (length l) (mask_of sg) (concat (map (fun w => store_masked 4 w (mask_of sg)) l) ++ rest) buf =
  Some (rest, buf ++ l).
Proof.
  intros Hl. revert buf. induction Hl as [|w l Hw Hl IH]; intros buf; [cbn; by rewrite app_nil_r|].
  cbn [length map concat read_frac]. rewrite <- app_assoc, word_read, word_in_range by done.
  rewrite drop_app_length' by by rewrite length_be_bytes.
  by rewrite IH, <- app_assoc.
Qed.

(** ** The sign *)

Lemma flip_sign_twice l : flip_sign (flip_sign l) = l.
Proof. destruct l as [|b l]; [done|]. cbn. by rewrite Z.lxor_assoc, Z.lxor_nilpotent, Z.lxor_0_r. Qed.

Lemma sign_read sg n v rest : 0 <= v -> 2 * v < 256 ^ Z.of_nat (S n) ->
  (if Z.land (hd 0 (flip_sign (be_bytes (S n) (masked sg v)) ++ rest)) 128 =? 0 then -1 else 0) = mask_of sg.
Proof.
  intros Hv Hb. cbn [be_bytes flip_sign hd app]. pose proof (pow256_pos n) as Hp. rewrite pow256_S in Hb.
  assert ((128 <=? (masked sg v / 256 ^ Z.of_nat n) mod 256) = sg) as Hbit.
  { set (P := 256 ^ Z.of_nat n) in *. destruct sg; cbn [masked].
    - assert (-128 <= (-1 - v) / P < 0) as Hq.
      { split; [apply Z.div_le_lower_bound; lia|apply Z.div_lt_upper_bound; lia]. }
      apply Z.leb_le. revert Hq. generalize ((-1 - v) / P). clear. dlia.
    - assert (0 <= v / P < 128) as Hq.
      { split; [apply Z.div_pos; lia|apply Z.div_lt_upper_bound; lia]. }
      apply Z.leb_gt. revert Hq. generalize (v / P). clear. dlia. }
  pose proof (Z.mod_pos_bound (masked sg v / 256 ^ Z.of_nat n) 256 ltac:(lia)) as Hr. revert Hbit Hr.
  generalize ((masked sg v / 256 ^ Z.of_nat n) mod 256). intros b <- Hr.
  assert ((Z.land (Z.lxor b 128) 128 =? 0) = (128 <=? b)) as ->; [|by destruct (128 <=? b)].
  apply eqb_true_iff. revert b Hr.
  by apply (Z_range_forall 256 (fun b => eqb (Z.land (Z.lxor b 128) 128 =? 0) (128 <=? b))).
Qed.

(** ** The decimal that is made *)

Section Made.
Context (p s : nat) (x : Z) (sg : bool) (iw fw : list Z) (n len0 : nat).
Let e := (s - s / 9 * 9)%nat.
Let last := if (0 <? e)%nat then [x mod 10 ^ Z.of_nat e * powers10 (9 - e)] else [].
Let d := {| intg := n; frac := s; len := len0; sign := sg; buf := iw ++ fw ++ last |}.

Context (Hs : (s <= p)%nat) (Hp : (0 < p)%nat) (Hx : 0 <= x < 10 ^ Z.of_nat p) (Hsg : sg = true -> x <> 0).
Context (Hiw : words_ok iw) (Hfw : words_ok fw) (Hlen : length fw = (s / 9)%nat).
Context (Hval : word_val DIG_BASE (iw ++ fw) = x / 10 ^ Z.of_nat e).
Context (Hn : ROUND_UP n = length iw).
Context (Hfirst : (0 < n)%nat -> hd 0 iw < 10 ^ Z.of_nat (S ((n - 1) mod 9))).

Lemma made_last : words_ok (fw ++ last) /\ length (fw ++ last) = ROUND_UP s /\
  word_val DIG_BASE (iw ++ fw ++ last) = x * 10 ^ Z.of_nat (9 * ROUND_UP s - s) /\
  (10 ^ Z.of_nat (9 * ROUND_UP s - s) | word_val DIG_BASE (fw ++ last)).
Proof.
  assert (e <= 8 /\ s = 9 * (s / 9) + e)%nat as [He Hse] by (unfold e; nlia).
  assert (ROUND_UP s = s / 9 + (if 0 <? e then 1 else 0))%nat as Hr.
  { unfold ROUND_UP. destruct (Nat.ltb_spec 0 s), (Nat.ltb_spec 0 e); nlia. }
  rewrite app_assoc, length_app, Hlen. unfold last. rewrite Hr.
  destruct (Nat.ltb_spec 0 e) as [Hpos|Hz].
  - replace (9 * (s / 9 + 1) - s)%nat with (9 - e)%nat by lia.
    pose proof (Z.mod_pos_bound x (10 ^ Z.of_nat e) ltac:(lia)) as Hm.
    assert (10 ^ Z.of_nat e * powers10 (9 - e) = DIG_BASE) as HB.
    { rewrite <- Z.pow_add_r by lia. replace (_ + _) with 9 by lia. done. }
    assert (0 < powers10 (9 - e)) as Hp9 by (apply Z.pow_pos_nonneg; lia).
    split; [apply Forall_app; split; [done|apply Forall_cons_iff; split; [nia|constructor]]|].
    split; [done|]. rewrite !word_val_app, <- word_val_app, Hval. cbn [word_val length].
    change (DIG_BASE ^ Z.of_nat 1) with DIG_BASE. change (DIG_BASE ^ Z.of_nat 0) with 1.
    split; [pose proof (Z.div_mod x (10 ^ Z.of_nat e)); rewrite <- HB at 1; nia|].
    exists (word_val DIG_BASE fw * 10 ^ Z.of_nat e + x mod 10 ^ Z.of_nat e). rewrite <- HB at 2. ring.
  - assert (e = 0)%nat as H0 by lia. replace (9 * (s / 9 + 0) - s)%nat with 0%nat by lia.
    rewrite !app_nil_r, Hval, H0. change (10 ^ Z.of_nat 0) with 1.
    rewrite Z.div_1_r, Z.mul_1_r. split; [done|]. split; [cbn; lia|]. split; [done|apply Z.divide_1_l].
Qed.

Lemma made_words : intg_words d = iw /\ frac_words d = fw ++ last.
Proof.
  destruct made_last as (_ & Hl & _). unfold intg_words, frac_words, d. cbn [intg frac buf].
  rewrite Hn, take_app_length, drop_app_length, take_ge by lia. done.
Qed.

Lemma made_ok : dec_ok d /\ dec_fits d p s /\ dec_abs d s = x.
Proof.
  destruct made_last as (Hl & Hlenl & Hv & Hdiv). destruct made_words as [Hi Hf].
  pose proof (ROUND_UP_spec s) as Hr.
  assert (10 ^ Z.of_nat (9 * ROUND_UP s) = 10 ^ Z.of_nat (9 * ROUND_UP s - s) * 10 ^ Z.of_nat s) as Hpow
    by (rewrite <- Z.pow_add_r by lia; f_equal; lia).
  assert (0 < 10 ^ Z.of_nat (9 * ROUND_UP s - s)) as H1 by (apply Z.pow_pos_nonneg; lia).
  assert (0 < 10 ^ Z.of_nat s) as H2 by (apply Z.pow_pos_nonneg; lia).
  split_and!.
  - split; rewrite ?Hi, ?Hf; try done; unfold d; cbn [intg frac buf sign].
    + rewrite Hn, !length_app in *. lia.
    + intros Hn0. specialize (Hfirst Hn0). destruct iw as [|w iw']; [|done].
      pose proof (ROUND_UP_spec n) as Hrn. rewrite Hn in Hrn. cbn [length] in Hrn. lia.
    + intros Hsg'. rewrite Hv. specialize (Hsg Hsg'). nia.
  - split; try done. rewrite Hi.
    pose proof (word_val_bound DIG_BASE _ ltac:(lia) Hl) as Hb.
    rewrite word_val_app, Hlenl, pow_base, Hpow in Hv.
    assert (10 ^ Z.of_nat p = 10 ^ Z.of_nat (p - s) * 10 ^ Z.of_nat s) as Hpp
      by (rewrite <- Z.pow_add_r by lia; f_equal; lia).
    apply Z.mul_lt_mono_pos_r with (10 ^ Z.of_nat s); [done|]. nia.
  - unfold dec_abs. rewrite Hi, Hf, Hv. change (frac d) with s. rewrite Hpow, <- Z.mul_assoc.
    apply Z.div_mul. nia.
Qed.
End Made.

Lemma ROUND_UP_groups n : ROUND_UP n = (n / 9 + Nat.b2n (0 <? n - n / 9 * 9)%nat)%nat.
Proof. unfold ROUND_UP. destruct (Nat.ltb_spec 0 n), (Nat.ltb_spec 0 (n - n / 9 * 9)); cbn [Nat.b2n]; nlia. Qed.

(** The first part, of [c] digits. *)
Lemma lead_read sg c g k T : (c <= 8)%nat -> 0 <= g < powers10 c ->
  let from := be_bytes (dig2bytes c) (masked sg g) ++ T in
  let w := Z.lxor (sint_korr (dig2bytes c) from) (mask_of sg) in
  (0 <? c)%nat && (powers10 (c + 1) <=? ulonglong_of w) = false /\
  (if (0 <? c)%nat
   then if w =? 0 then (drop (dig2bytes c) from, k, []) else (drop (dig2bytes c) from, (k + c)%nat, [w])
   else (from, k, [])) =
  (T, (k + (if (g =? 0)%Z then 0 else c))%nat, if g =? 0 then [] else [g]).
Proof.
  intros Hc Hg from w. destruct (Nat.ltb_spec 0 c) as [Hpos|Hz]; cbn [andb].
  - pose proof (dig2bytes_fits c ltac:(lia)) as Hf. pose proof (dig2bytes_pos c ltac:(lia) Hpos).
    assert (w = g) as -> by (apply sint_korr_masked; lia).
    assert (10 ^ Z.of_nat (c + 1) <= 10 ^ 9) as H9 by (apply Z.pow_le_mono_r; lia).
    rewrite Nat2Z.inj_add, Z.pow_add_r in * by lia. split.
    + apply Z.leb_gt. unfold ulonglong_of. rewrite Z.mod_small; lia.
    + unfold from. rewrite drop_app_length' by by rewrite length_be_bytes.
      destruct (g =? 0); [by rewrite Nat.add_0_r|done].
  - assert (c = 0)%nat as -> by lia. assert (g = 0) as -> by (change (powers10 0) with 1 in Hg; lia).
    cbn. by rewrite Nat.add_0_r.
Qed.

(** The last part, of [e] digits. *)
Lemma last_read sg e r rest : (1 <= e <= 8)%nat -> 0 <= r < powers10 e ->
  signed_of 32 (Z.lxor (sint_korr (dig2bytes e) (be_bytes (dig2bytes e) (masked sg r) ++ rest)) (mask_of sg)
    * powers10 (9 - e)) = r * powers10 (9 - e) /\ 0 <= r * powers10 (9 - e) < DIG_BASE.
Proof.
  intros He Hr. pose proof (dig2bytes_fits e ltac:(lia)). pose proof (dig2bytes_pos e ltac:(lia) ltac:(lia)).
  assert (10 ^ Z.of_nat e * powers10 (9 - e) = DIG_BASE) as HB.
  { rewrite <- Z.pow_add_r by lia. replace (_ + _) with 9 by lia. done. }
  assert (0 < powers10 (9 - e)) as Hp9 by (apply Z.pow_pos_nonneg; lia).
  rewrite sint_korr_masked by lia.
  assert (0 <= r * powers10 (9 - e) < DIG_BASE) as Hb by nia. split; [|done].
  apply signed_of_small; lia.
Qed.

(** The digits and the words of the integer part that are kept. *)
Lemma kept_words c g z ws k : (c <= 8)%nat -> 0 <= g < powers10 c -> words_ok ws -> (length ws + z = k)%nat ->
  (g <> 0 -> z = 0%nat) ->
  let n := (k * 9 + (if (g =? 0)%Z then 0 else c) - 9 * z)%nat in
  let iw := (if g =? 0 then [] else [g]) ++ ws in
  words_ok iw /\ ROUND_UP n = length iw /\ ((0 < n)%nat -> hd 0 iw < 10 ^ Z.of_nat (S ((n - 1) mod 9))) /\
  word_val DIG_BASE iw = g * DIG_BASE ^ Z.of_nat k + word_val DIG_BASE (replicate z 0 ++ ws).
Proof.
  intros Hc Hg Hws Hk Hz n iw. rewrite word_val_lead_zeros. unfold iw, n.
  destruct (Z.eqb_spec g 0) as [->|Hg0].
  - cbn [app]. replace (k * 9 + 0 - 9 * z)%nat with (9 * length ws)%nat by lia. split_and!; [done| | |lia].
    + pose proof (ROUND_UP_spec (9 * length ws)). lia.
    + intros Hn. replace (S ((9 * length ws - 1) mod 9)) with 9%nat by nlia.
      destruct Hws as [|w ws Hw _]; [cbn; lia|]. cbn [hd]. exact (proj2 Hw).
  - rewrite (Hz Hg0) in *. assert (c <> 0)%nat as Hc0 by (intros ->; change (powers10 0) with 1 in Hg; lia).
    assert (10 ^ Z.of_nat c <= 10 ^ 9) as H9 by (apply Z.pow_le_mono_r; lia).
    assert (length ws = k) as Hlk by lia. split_and!.
    + apply Forall_app. split; [|done]. apply Forall_cons_iff. split; [lia|constructor].
    + pose proof (ROUND_UP_spec (k * 9 + c - 9 * 0)). cbn [app length]. lia.
    + intros _. cbn [hd app]. replace (S ((k * 9 + c - 9 * 0 - 1) mod 9)) with c by nlia. exact (proj2 Hg).
    + cbn [app word_val]. rewrite Hlk. lia.
Qed.

(** The last part, and a zero without digits. *)
Lemma made_zero p s len0 : (s <= p)%nat -> (0 < p)%nat ->
  let d := {| intg := 1; frac := 0; len := len0; sign := false; buf := [0] |} in
  dec_ok d /\ dec_fits d p s /\ dec_val d s = 0.
Proof.
  intros Hs Hp d. split_and!.
  - split; try done; [by repeat constructor|constructor|apply Z.divide_0_r].
  - split; cbn; lia.
  - done.
Qed.

Lemma finish_read sg p s x to bad iw fw n :
  let e := (s - s / 9 * 9)%nat in
  let w := signed_of 32 (Z.lxor (sint_korr (dig2bytes e) (be_bytes (dig2bytes e) (masked sg (x mod 10 ^ Z.of_nat e))))
             (mask_of sg) * powers10 (9 - e)) in
  let d := {| intg := n; frac := (s / 9 * 9 + e)%nat; len := len to; sign := negb (mask_of sg =? 0);
              buf := if (0 <? e)%nat then (iw ++ fw) ++ [w] else iw ++ fw |} in
  (s <= p)%nat -> (0 < p)%nat -> 0 <= x < 10 ^ Z.of_nat p -> (sg = true -> x <> 0) ->
  words_ok iw -> words_ok fw -> length fw = (s / 9)%nat ->
  word_val DIG_BASE (iw ++ fw) = x / 10 ^ Z.of_nat e -> ROUND_UP n = length iw ->
  ((0 < n)%nat -> hd 0 iw < 10 ^ Z.of_nat (S ((n - 1) mod 9))) ->
  exists r, (if (0 <? e)%nat && (DIG_MAX <? uint_of w) then bad
             else (E_DEC_OK, if (n =? 0)%nat && (frac d =? 0)%nat then decimal_make_zero d else d)) =
    (E_DEC_OK, r) /\ dec_ok r /\ dec_fits r p s /\ dec_val r s = if sg then - x else x.
Proof.
  intros e w d Hs Hp Hx Hsg Hiw Hfw Hlen Hval Hn Hfirst.
  assert (e <= 8 /\ s / 9 * 9 + e = s)%nat as [He Hse] by (unfold e; nlia).
  pose proof (Z.mod_pos_bound x (10 ^ Z.of_nat e) ltac:(apply Z.pow_pos_nonneg; lia)) as Hm.
  assert ((0 < e)%nat -> w = x mod 10 ^ Z.of_nat e * powers10 (9 - e) /\ 0 <= w < DIG_BASE) as Hw.
  { intros Hpos. destruct (last_read sg e (x mod 10 ^ Z.of_nat e) [] ltac:(lia) Hm) as [H1 H2].
    rewrite app_nil_r in H1. fold w in H1. by rewrite H1. }
  assert ((0 <? e)%nat && (DIG_MAX <? uint_of w) = false) as ->.
  { destruct (Nat.ltb_spec 0 e) as [Hpos|]; [|done]. apply word_in_range, Hw, Hpos. }
  assert (d = {| intg := n; frac := s; len := len to; sign := sg;
    buf := iw ++ fw ++ (if (0 <? e)%nat then [x mod 10 ^ Z.of_nat e * powers10 (9 - e)] else []) |}) as Hd.
  { unfold d. rewrite Hse. replace (negb (mask_of sg =? 0)) with sg by by destruct sg.
    f_equal. destruct (Nat.ltb_spec 0 e) as [Hpos|]; [|by rewrite app_nil_r].
    destruct (Hw Hpos) as [-> _]. by rewrite <- app_assoc. }
  eexists. split; [reflexivity|].
  destruct ((n =? 0)%nat && (frac d =? 0)%nat) eqn:Ez.
  - apply andb_true_iff in Ez as [En Ef]. apply Nat.eqb_eq in En, Ef. rewrite Hd in Ef. cbn [frac] in Ef.
    subst n s. destruct iw; [|done]. destruct fw; [|done]. cbn in Hval. rewrite Z.div_1_r in Hval. subst x.
    destruct sg; [by destruct (Hsg eq_refl)|]. by apply made_zero.
  - rewrite Hd. pose proof (made_ok p s x sg iw fw n (len to) Hs Hp Hx Hsg Hiw Hfw Hlen Hval Hn Hfirst) as Hok.
    cbv zeta in Hok. fold e in Hok. destruct Hok as (H1 & H2 & H3). split; [exact H1|]. split; [exact H2|].
    unfold dec_val. cbn [sign]. by rewrite H3.
Qed.

(** [bin2decimal] on the bytes of a value of [x] units, in a decimal with
    enough words. *)
Lemma bin2decimal_eq sg p s x to rest : (s <= p)%nat -> (0 < p)%nat -> 0 <= x < 10 ^ Z.of_nat p ->
  (sg = true -> x <> 0) -> (ROUND_UP (p - s) + ROUND_UP s <= len to)%nat ->
  exists d, bin2decimal (flip_sign (be_bytes (decimal_bin_size p s) (masked sg (dec_number p s x))) ++ rest) to p s =
    (E_DEC_OK, d) /\ dec_ok d /\ dec_fits d p s /\ dec_val d s = if sg then - x else x.
Proof.
  intros Hs Hp Hx Hsg Hlen. unfold bin2decimal.
  pose proof (dec_number_bound p s x Hs Hp Hx) as Hb.
  pose proof (decimal_bin_size_pos p s Hs Hp) as Hpos.
  assert ((if Z.land (hd 0 (flip_sign (be_bytes (decimal_bin_size p s) (masked sg (dec_number p s x))) ++ rest)) 128 =? 0
    then -1 else 0) = mask_of sg) as ->.
  { destruct (decimal_bin_size p s) as [|k]; [lia|]. apply sign_read; lia. }
  rewrite take_app_length', flip_sign_twice by (destruct (decimal_bin_size p s); [lia|]; cbn; by rewrite length_be_bytes).
  destruct (dec_groups sg p s x Hs Hx) as [Hg Hlead]. cbv zeta. cbv zeta in Hg, Hlead. rewrite Hg. clear Hg Hb.
  set (frac0 := (s / 9)%nat) in *. set (frac0x := (s - frac0 * 9)%nat) in *.
  set (intg0 := ((p - s) / 9)%nat) in *. set (intg0x := (p - s - intg0 * 9)%nat) in *.
  set (y := x / 10 ^ Z.of_nat frac0x) in *. set (g := y / DIG_BASE ^ Z.of_nat (intg0 + frac0)) in *.
  assert (frac0x <= 8 /\ intg0x <= 8)%nat as [Hfx Hix] by (unfold frac0x, intg0x, frac0, intg0; nlia).
  destruct (words_spec (intg0 + frac0) y) as (Hok & Hwl & Hy & _). fold g in Hy.
  set (W := words (intg0 + frac0) y) in *. clearbody W.
  rewrite <- (take_drop intg0 W) in Hok, Hy |- *. apply Forall_app in Hok as [Hoki Hokf].
  assert (length (take intg0 W) = intg0 /\ length (drop intg0 W) = frac0) as [Hli Hlf]
    by (rewrite length_take, length_drop; lia).
  unfold FIX_INTG_FRAC_ERROR. rewrite !ROUND_UP_groups in Hlen.
  fold frac0 in Hlen. fold frac0x intg0 in Hlen. fold intg0x in Hlen.
  rewrite (proj2 (Nat.ltb_ge _ _) Hlen). cbn [Z.eqb].
  set (T := concat _ ++ be_bytes (dig2bytes frac0x) _).
  destruct (lead_read sg intg0x g (intg0 * 9) T Hix Hlead) as [Hbad Hfirst]. cbv zeta in Hbad, Hfirst.
  rewrite Hbad, Hfirst. unfold T. rewrite map_app, concat_app, <- app_assoc.
  destruct (read_intg_spec sg (take intg0 W) (concat (map (fun w => store_masked 4 w (mask_of sg)) (drop intg0 W))
    ++ be_bytes (dig2bytes frac0x) (masked sg (x mod 10 ^ Z.of_nat frac0x)))
    (intg0 * 9 + (if (g =? 0)%Z then 0 else intg0x)) (if g =? 0 then [] else [g]) Hoki) as (z & ws & Hiw & Hz & _ & Hread).
  rewrite Hli in Hread. rewrite Hread.
  pose proof (read_frac_spec sg (drop intg0 W) (be_bytes (dig2bytes frac0x) (masked sg (x mod 10 ^ Z.of_nat frac0x)))
    ((if g =? 0 then [] else [g]) ++ ws) Hokf) as Hreadf. rewrite Hlf in Hreadf. rewrite Hreadf.
  destruct (kept_words intg0x g z ws intg0 Hix Hlead) as (Hiok & Hin & Hih & Hiv).
  { rewrite Hiw in Hoki. by apply Forall_app in Hoki as [_ ?]. }
  { rewrite Hiw, length_app, length_replicate in Hli. lia. }
  { intros Hg. apply Hz. by destruct (Z.eqb_spec g 0). }
  apply finish_read; try done.
  rewrite word_val_app, Hiv, <- Hiw, Hlf. fold frac0. fold frac0x. fold y. rewrite Hy.
  rewrite word_val_app, Hlf, Nat2Z.inj_add, Z.pow_add_r by lia. ring.
Qed.

(** C7: two well-formed decimals whose digits fit a column of [p] digits, [s]
    of them after the point: [decimal2bin] succeeds and fills the bytes of the
    column; [bin2decimal] on those bytes, into a decimal with enough words,
    succeeds and gives a well-formed decimal of the same value; and the bytes
    of the two compare as their values, of any sign.  The value in units of
    the last digit of the column is exact. *)
Theorem decimal_stored d e to p s rest :
  dec_ok d -> dec_ok e -> dec_fits d p s -> dec_fits e p s ->
  (ROUND_UP (p - s) + ROUND_UP s <= len to)%nat ->
  (decimal2bin d p s).1 = E_DEC_OK /\ length (decimal2bin d p s).2 = decimal_bin_size p s /\
  dec_abs d s * 10 ^ Z.of_nat (9 * ROUND_UP (frac d)) =
    word_val DIG_BASE (intg_words d ++ frac_words d) * 10 ^ Z.of_nat s /\
  (exists r, bin2decimal ((decimal2bin d p s).2 ++ rest) to p s = (E_DEC_OK, r) /\
             dec_ok r /\ dec_val r s = dec_val d s) /\
  lex_cmp (decimal2bin d p s).2 (decimal2bin e p s).2 = (dec_val d s ?= dec_val e s).
Proof.
  intros Hd He Hfd Hfe Hlen. destruct (dec_abs_spec d p s Hd Hfd) as [Hx Hr].
  split_and!; [| |done| |by apply decimal_order].
  - by rewrite decimal2bin_bytes.
  - rewrite decimal2bin_bytes by done. apply length_be_bytes.
  - rewrite decimal2bin_eq by done. cbn [snd].
    destruct (bin2decimal_eq (sign d) p s (dec_abs d s) to rest (fits_scale d p s Hfd) (fits_precision d p s Hfd) Hr)
      as (r & Hb & Hok & _ & Hv); [|done|by exists r].
    intros Hsg H0. rewrite H0 in Hx. pose proof (Z.pow_pos_nonneg 10 (Z.of_nat s)).
    pose proof (ok_sign d Hd Hsg). nia.
Qed.

(** [-1234567890.1234] and [0.5]. *)
Definition sample_d : decimal_t :=
  {| intg := 10; frac := 4; len := 9; sign := true; buf := [1; 234567890; 123400000] |}.
Definition sample_e : decimal_t :=
  {| intg := 1; frac := 1; len := 9; sign := false; buf := [0; 500000000] |}.

Lemma sample_d_ok : dec_ok sample_d.
Proof.
  split; try done; [by repeat constructor|by repeat constructor|].
  exists 1234. by vm_compute.
Qed.

Lemma sample_e_ok : dec_ok sample_e.
Proof.
  split; try done; [by repeat constructor|by repeat constructor|].
  exists 5. by vm_compute.
Qed.

Lemma decimal_stored_witness :
  dec_ok sample_d /\ dec_ok sample_e /\
  (decimal2bin sample_d 14 4).2 = [126; 242; 4; 199; 45; 251; 45] /\
  (exists r, bin2decimal ((decimal2bin sample_d 14 4).2 ++ [7]) sample_d 14 4 = (E_DEC_OK, r) /\
             dec_ok r /\ dec_val r 4 = dec_val sample_d 4) /\
  lex_cmp (decimal2bin sample_d 14 4).2 (decimal2bin sample_e 14 4).2 = Lt.
Proof.
  split; [exact sample_d_ok|]. split; [exact sample_e_ok|].
  assert (dec_fits sample_d 14 4) as Hd by (split; vm_compute; first [reflexivity | lia]).
  assert (dec_fits sample_e 14 4) as He by (split; vm_compute; first [reflexivity | lia]).
  destruct (decimal_stored sample_d sample_e sample_d 14 4 [7] sample_d_ok sample_e_ok Hd He
    ltac:(vm_compute; lia)) as (_ & _ & _ & Hr & Ho).
  split; [vm_compute; reflexivity|]. split; [exact Hr|]. rewrite Ho. vm_compute. reflexivity.
Defined.

(** The first digits are checked against a power of ten that is one too high:
    a byte that holds 99 is accepted for a column of one digit. *)
Example first_digits_unchecked :
  bin2decimal [227] sample_d 1 0 =
    (E_DEC_OK, {| intg := 1; frac := 0; len := len sample_d; sign := false; buf := [99] |}).
Proof. vm_compute. reflexivity. Qed.

End DecimalRead.
