(* ===== verification/Entry.v ===== *)
(** * Entry: the entries of a secondary index

    An index entry maps a key to a record.  For an ordinary index the key is
    the whole packed key, which ends in the primary key.  For a unique index
    the key has the columns of the index only, and the rest of the packed key
    is kept in the record, to find the row by ([ha_eloq::Insert], [Update] and
    [DecodeUniqueSkRecord] in storage/eloq/ha_eloq.cc). *)

From S2P Require Import Prelude Slice Buff Charset Latin1 Copy Collation Field Placement Store.
From S2P Require Import Codec Packing VarFormat SpacePad Varchar KeySetup KeyDef KeyOrder Index KeyRead PkTuple.
From S2P Require Import Neighbour Double EloqKey Restore RoundTrip Layout.
Import Field Packing KeyDef KeyOrder Index KeyRead PkTuple EloqKey Restore RoundTrip Layout.

Module Entry.

Section Entry.

Context (mem : Z -> bytes) (tbl : TABLE).

(** The packed record of [buf] for an index, with [unique_sk_packed_size]
    initialised to 0: key and record of the entry.  [unpack_info] is the writer
    [unpack_info_], or none where only the key is needed. *)
Definition index_entry (kd : mono_key_def) (is_unique_sk : bool) (unpack_info : option bytes) (buf : bytes)
    (hidden_pk : option bytes) : option (bytes * EloqRecord) :=
  match pack_record mem kd tbl buf unpack_info true hidden_pk 0 with
  | None => None
  | Some st =>
      let sk_packed_tuple := ps_tuple st in
      let size := length sk_packed_tuple in
      let unique_sk_packed_size := match ps_unique_sk_pack_size st with Some n => n | None => 0%nat end in
      let new_sk := take (if is_unique_sk then unique_sk_packed_size else size) sk_packed_tuple in
      let encoded_blob := if is_unique_sk then drop unique_sk_packed_size sk_packed_tuple else [] in
      let unpack_info := match ps_unpack_info st with Some w => w | None => [] end in
      Some (new_sk, {| encoded_blob_ := encoded_blob; unpack_info_ := unpack_info |})
  end.

(** The columns of the record buffer that the entry has, and the key of the
    row. *)
Definition DecodeUniqueSkRecord (kd : mono_key_def) (table_record key : bytes) (rec : EloqRecord)
    : option bytes * option bytes :=
  let sk_packed_tuple := key ++ encoded_blob_ rec in
  (unpack_record kd tbl table_record sk_packed_tuple (unpack_info_ rec),
   get_primary_key_tuple kd tbl sk_packed_tuple).

(** ** The size of the unique key *)

(** Packing does not depend on whether the size is asked for. *)
Definition same_pack (a b : pack_state) : Prop :=
  ps_tuple a = ps_tuple b /\ ps_unpack_info a = ps_unpack_info b /\ ps_null_fields a = ps_null_fields b.

Lemma pack_part_same info record a b a' :
  same_pack a b -> pack_part mem tbl info record a = Some a' ->
  ps_unique_sk_pack_size a' = ps_unique_sk_pack_size a /\
  exists b', pack_part mem tbl info record b = Some b' /\ same_pack a' b'.
Proof.
  intros (H1 & H2 & H3). unfold pack_part. destruct (get_original_field_in_table info tbl); [|done].
  rewrite <- H2. destruct (pack_field mem _ info record _) as [[[key u] is_null]|]; [|done]. intros [= <-].
  split; [done|]. eexists. split; [reflexivity|]. unfold same_pack. simpl. by rewrite H1, H3.
Qed.

(** After [p] parts the size is noted; it is not set if there is no part [p]. *)
Lemma pack_record_loop_unique record p n i infos b b' a :
  pack_record_loop mem tbl record None None n i infos b = Some b' -> same_pack a b ->
  n = (i + length infos)%nat ->
  exists a', pack_record_loop mem tbl record (Some p) None n i infos a = Some a' /\ same_pack a' b' /\
    if (i <=? p)%nat && (p <? n)%nat then
      exists m, pack_record_loop mem tbl record None None p i (take (p - i) infos) b = Some m /\
        ps_unique_sk_pack_size a' = Some (length (ps_tuple m))
    else ps_unique_sk_pack_size a' = ps_unique_sk_pack_size a.
Proof.
  revert i a b. induction infos as [|info infos IH]; intros i a b Hb Hs Hn; simpl in Hn.
  - cbn [pack_record_loop] in *. rewrite (proj2 (Nat.leb_le n i)) in * by lia. injection Hb as <-. exists a.
    split_and!; try done. destruct (Nat.leb_spec i p), (Nat.ltb_spec p n); simpl; done || lia.
  - cbn [pack_record_loop] in Hb |- *. rewrite (proj2 (Nat.leb_gt n i)) in * by lia.
    rewrite decide_False in Hb by done.
    set (b0 := {| ps_tuple := ps_tuple b |}) in Hb. set (a0 := {| ps_tuple := ps_tuple a |}).
    assert (same_pack b0 a0) as Hs0 by (destruct Hs as (? & ? & ?); by split_and!).
    destruct (pack_part mem tbl info record b0) as [b1|] eqn:Eb; [|done].
    destruct (pack_part_same _ _ _ _ _ Hs0 Eb) as (_ & a1 & Ea & Hs1).
    assert (same_pack a0 b0) as Hs0' by (destruct Hs as (? & ? & ?); by split_and!).
    destruct (pack_part_same _ _ _ _ _ Hs0' Ea) as [Hu _].
    assert (same_pack a1 b1) as Hs1' by (destruct Hs1 as (? & ? & ?); by split_and!).
    rewrite Ea. destruct (IH (S i) a1 b1 Hb Hs1' ltac:(lia)) as (a' & -> & Hs' & Hsize). exists a'. split_and!; try done.
    destruct (Nat.leb_spec i p) as [Hip|Hip], (Nat.ltb_spec p n) as [Hpn|Hpn];
      destruct (Nat.leb_spec (S i) p) as [Hip'|Hip']; cbn [andb] in *; try lia.
    + destruct Hsize as (m & Em & Hm). exists m. split; [|done].
      replace (p - i)%nat with (S (p - S i)) by lia. cbn [take pack_record_loop].
      rewrite (proj2 (Nat.leb_gt p i)) by lia. rewrite decide_False by done. fold b0. by rewrite Eb.
    + assert (i = p) as -> by lia. exists b. rewrite Nat.sub_diag. simpl. rewrite Nat.leb_refl. split; [done|].
      rewrite Hsize, Hu. unfold a0. simpl. rewrite decide_True by done. by destruct Hs as [-> _].
    + rewrite Hsize, Hu. unfold a0. simpl. rewrite decide_False; [done|]. intros [= ->]. lia.
    + rewrite Hsize, Hu. unfold a0. simpl. rewrite decide_False; [done|]. intros [= ->]. lia.
Qed.

(** [pack_record] with [unique_sk_pack_size]. *)
Lemma pack_record_unique uninit kd cols rec u st :
  table_has_hidden_pk tbl = false -> Forall2 (part_packed mem uninit tbl) cols (m_pack_info kd) -> row_ok cols rec ->
  pack_record mem kd tbl rec u false None 0 = Some st ->
  let p := m_unique_sk_only_key_parts kd in
  pack_record mem kd tbl rec u true None 0 = Some {|
    ps_tuple := ps_tuple st; ps_unpack_info := ps_unpack_info st; ps_null_fields := ps_null_fields st;
    ps_unique_sk_pack_size :=
      if (p <? length cols)%nat then Some (length (row_key mem (take p cols) (take p (m_pack_info kd)) rec)) else None |}.
Proof.
  intros Hh Hp Hrow. unfold pack_record, parts_to_pack. rewrite Hh. simpl.
  match goal with |- context [pack_record_loop _ _ _ _ _ _ _ _ ?s] => set (st0 := s) end.
  destruct (pack_record_loop mem tbl rec None None _ _ _ st0) as [b|] eqn:Eb; [|done]. intros [= <-].
  destruct (pack_record_loop_unique rec (m_unique_sk_only_key_parts kd) _ _ _ _ _ st0 Eb)
    as (a & -> & (-> & -> & ->) & Hsize); [done..|].
  unfold m_key_parts in Hsize. rewrite <- (Forall2_length Hp) in Hsize. simpl. f_equal. f_equal.
  set (p := m_unique_sk_only_key_parts kd) in *. cbn [Nat.leb andb] in Hsize.
  destruct (Nat.ltb_spec p (length cols)) as [Hlt|]; [|done].
  destruct Hsize as (m & Em & ->). f_equal. rewrite Nat.sub_0_r in Em.
  pose proof (Forall2_length Hp) as Hlen.
  destruct (pack_record_loop_key mem tbl rec None None (take p (m_pack_info kd))
    (columns_of (take p cols) (take p (m_pack_info kd))) 0 st0) with (rest := @nil mono_field_packing) (n := p)
    as (m' & Em' & Ht & _); try done.
  - by apply (columns_of_packs mem uninit), Forall2_take.
  - apply (columns_of_ok mem uninit tbl); [by apply Forall2_take|by apply Forall_take].
  - simpl. destruct u; [|done]. apply bytes_ok_app. split; [apply bytes_ok_nil|auto with bytes].
  - unfold columns_of. rewrite length_zip_with, !length_take. lia.
  - rewrite app_nil_r, Em in Em'. injection Em' as <-. rewrite app_nil_r in Ht. by rewrite Ht.
Qed.

(** Without [unique_sk_only_key_parts] parts the size would stay 0; a unique
    index sets it. *)
Lemma setup_unique uninit kd0 ki cols pk_cols kd :
  index_definition tbl kd0 ki cols pk_cols -> m_index_type kd0 = INDEX_TYPE_SECONDARY -> key_flags_nosame ki = true ->
  key_def_setup uninit tbl kd0 = Some kd -> m_unique_sk_only_key_parts kd = length cols.
Proof.
  intros Hid Hs Hu. unfold key_def_setup. rewrite (id_fresh _ _ _ _ _ Hid), (id_key _ _ _ _ _ Hid), Hs.
  cbn [Nat.eqb negb]. rewrite decide_False, bool_decide_true, Hu by done. cbn [andb].
  destruct (setup_loop _ _ _ _ _ _ _ _ _ _); [|done]. intros [= <-]. apply (id_ext _ _ _ _ _ Hid).
Qed.

(** The key of a row, split after the columns of the index. *)
Definition own_key (cols : list indexed_part) (kd : mono_key_def) (rec : bytes) : bytes :=
  row_key mem cols (take (length cols) (m_pack_info kd)) rec.

Lemma row_key_split cols cols' kd rec :
  length (m_pack_info kd) = length (cols ++ cols') ->
  row_key mem (cols ++ cols') (m_pack_info kd) rec =
    own_key cols kd rec ++ row_key mem cols' (drop (length cols) (m_pack_info kd)) rec.
Proof.
  intros Hlen. rewrite length_app in Hlen. unfold own_key, row_key, columns_of.
  rewrite <- (take_drop (length cols) (m_pack_info kd)) at 1.
  rewrite zip_with_app by (rewrite length_take; lia). unfold index_key. by rewrite map_app, concat_app.
Qed.

(** The entry of a row in a unique index. *)
Lemma unique_index_entry uninit kd0 ki cols pk_cols kd rec u :
  index_definition tbl kd0 ki cols pk_cols -> m_index_type kd0 = INDEX_TYPE_SECONDARY -> key_flags_nosame ki = true ->
  key_def_setup uninit tbl kd0 = Some kd -> row_ok (index_columns ki cols pk_cols) rec ->
  exists st, pack_record mem kd tbl rec u false None 0 = Some st /\
    ps_tuple st = row_key mem (index_columns ki cols pk_cols) (m_pack_info kd) rec /\
    let size := if decide (missing ki pk_cols = []) then 0%nat else length (own_key cols kd rec) in
    index_entry kd true u rec None = Some (take size (ps_tuple st),
      {| encoded_blob_ := drop size (ps_tuple st);
         unpack_info_ := match ps_unpack_info st with Some w => w | None => [] end |}).
Proof.
  intros Hid Hs Hu E Hrow. destruct (setup_ready mem uninit tbl kd0 ki cols pk_cols Hid)
    as (kd' & E' & _ & Hh & _ & _ & _ & Hpack). rewrite E in E'. injection E' as <-.
  destruct (key_def_setup_packed mem uninit tbl kd0 ki cols pk_cols Hid) as (kd' & E' & Hp & _).
  rewrite E in E'. injection E' as <-.
  destruct (Hpack rec u 0%nat Hrow ltac:(lia) ltac:(done)) as (st & Est & Ht).
  exists st. split_and!; [done|done|]. unfold index_entry.
  rewrite (pack_record_unique uninit kd _ rec u st Hh Hp Hrow Est).
  rewrite (setup_unique uninit kd0 ki cols pk_cols kd Hid Hs Hu E). cbn [ps_tuple ps_unpack_info ps_unique_sk_pack_size].
  unfold index_columns. rewrite length_app, take_app_length. fold (own_key cols kd rec).
  destruct (missing ki pk_cols) as [|c m]; cbn [length].
  - rewrite (proj2 (Nat.ltb_ge _ _)) by lia. by rewrite decide_True.
  - rewrite (proj2 (Nat.ltb_lt _ _)) by lia. by rewrite decide_False.
Qed.

(** With a part of the primary key to append, the key is that of the columns
    of the index, and the record has the rest. *)
Lemma unique_entry_split uninit kd0 ki cols pk_cols kd rec u :
  index_definition tbl kd0 ki cols pk_cols -> m_index_type kd0 = INDEX_TYPE_SECONDARY -> key_flags_nosame ki = true ->
  missing ki pk_cols <> [] -> key_def_setup uninit tbl kd0 = Some kd -> row_ok (index_columns ki cols pk_cols) rec ->
  exists st, pack_record mem kd tbl rec u false None 0 = Some st /\
    ps_tuple st = row_key mem (index_columns ki cols pk_cols) (m_pack_info kd) rec /\
    index_entry kd true u rec None = Some (own_key cols kd rec,
      {| encoded_blob_ := drop (length (own_key cols kd rec)) (ps_tuple st);
         unpack_info_ := match ps_unpack_info st with Some w => w | None => [] end |}) /\
    own_key cols kd rec ++ drop (length (own_key cols kd rec)) (ps_tuple st) = ps_tuple st.
Proof.
  intros Hid Hs Hu Hm E Hr. destruct (unique_index_entry uninit kd0 ki cols pk_cols kd rec u Hid Hs Hu E Hr) as (st & Est & Ht & He).
  destruct (key_def_setup_packed mem uninit tbl kd0 ki cols pk_cols Hid) as (kd' & E' & Hp & _).
  rewrite E in E'. injection E' as <-.
  rewrite decide_False in He by done. exists st. rewrite Ht in *. unfold index_columns in *.
  rewrite row_key_split in * by by rewrite (Forall2_length Hp).
  rewrite take_app_length in He. by rewrite drop_app_length in *.
Qed.

(** Keys are equal when the columns are. *)
Lemma row_key_eq uninit cols infos a b :
  Forall2 (part_packed mem uninit tbl) cols infos -> row_ok cols a -> row_ok cols b ->
  row_key mem cols infos a = row_key mem cols infos b <-> parts_cmp (map fst cols) a b = Eq.
Proof.
  intros Hp Ha Hb. unfold row_key. rewrite <- (columns_of_cmp mem uninit tbl _ _ a b Hp).
  pose proof (mem_cmp_index mem tbl _ _ (columns_of_packs mem uninit tbl _ _ Hp)) as HM.
  rewrite <- (mem_cmp_nil (MemCmp0 := HM)) by by eapply columns_of_ok. symmetry. apply lex_cmp_Eq.
Qed.

Lemma own_key_eq uninit ki cols pk_cols kd a b :
  Forall2 (part_packed mem uninit tbl) (index_columns ki cols pk_cols) (m_pack_info kd) ->
  row_ok cols a -> row_ok cols b ->
  own_key cols kd a = own_key cols kd b <-> parts_cmp (map fst cols) a b = Eq.
Proof.
  intros Hp. apply row_key_eq with (uninit := uninit).
  apply (Forall2_take _ _ _ (length cols)) in Hp. unfold index_columns in Hp. by rewrite take_app_length in Hp.
Qed.

(** The entry of an ordinary index: the whole key. *)
Lemma plain_index_entry uninit kd0 ki cols pk_cols kd rec u :
  index_definition tbl kd0 ki cols pk_cols -> key_def_setup uninit tbl kd0 = Some kd ->
  row_ok (index_columns ki cols pk_cols) rec ->
  exists st, pack_record mem kd tbl rec u false None 0 = Some st /\
    ps_tuple st = row_key mem (index_columns ki cols pk_cols) (m_pack_info kd) rec /\
    index_entry kd false u rec None = Some (ps_tuple st,
      {| encoded_blob_ := []; unpack_info_ := match ps_unpack_info st with Some w => w | None => [] end |}).
Proof.
  intros Hid E Hrow. destruct (setup_ready mem uninit tbl kd0 ki cols pk_cols Hid)
    as (kd' & E' & _ & Hh & _ & _ & _ & Hpack). rewrite E in E'. injection E' as <-.
  destruct (key_def_setup_packed mem uninit tbl kd0 ki cols pk_cols Hid) as (kd' & E' & Hp & _).
  rewrite E in E'. injection E' as <-.
  destruct (Hpack rec u 0%nat Hrow ltac:(lia) ltac:(done)) as (st & Est & Ht).
  exists st. split_and!; [done|done|]. unfold index_entry.
  rewrite (pack_record_unique uninit kd _ rec u st Hh Hp Hrow Est). cbn [ps_tuple ps_unpack_info].
  by rewrite take_ge by lia.
Qed.

End Entry.

(** C22: the entries of a unique index.  The key of a row's entry decides the
    uniqueness: two rows have the same key exactly when they agree in the
    columns of the index.  Key and record of the entry together identify the
    row: [DecodeUniqueSkRecord] returns the key of the row in the primary
    index, and restores the columns that the entry holds.  This is proved for
    an index that lacks some column of the primary key. *)
Theorem unique_entry_correct mem uninit tbl kd0 ki cols pkd0 pk pk_cols :
  index_definition tbl kd0 ki cols pk_cols -> m_index_type kd0 = INDEX_TYPE_SECONDARY ->
  key_flags_nosame ki = true -> missing ki pk_cols <> [] -> index_definition tbl pkd0 pk pk_cols [] ->
  NoDup (map (fun c => part_index c.1) cols) -> NoDup (map (fun c => part_index c.1) pk_cols) ->
  Forall (restorable mem) (index_columns ki cols pk_cols) ->
  laid_out (length (default_values tbl)) (map fst (index_columns ki cols pk_cols)) ->
  exists kd pkd, key_def_setup uninit tbl kd0 = Some kd /\ key_def_setup uninit tbl pkd0 = Some pkd /\
    forall a, row_ok (index_columns ki cols pk_cols) a -> row_ok pk_cols a ->
      exists key r pst, index_entry mem tbl kd true (Some []) a None = Some (key, r) /\
        pack_record mem pkd tbl a None false None 0 = Some pst /\
        (forall buf, (DecodeUniqueSkRecord tbl kd buf key r).2 = Some (ps_tuple pst)) /\
        (forall buf, length buf = length (default_values tbl) -> Z.of_nat (length (unpack_info_ r)) < 65536 ->
          exists buf', (DecodeUniqueSkRecord tbl kd buf key r).1 = Some buf' /\
            Forall (column_kept a buf') (map fst (index_columns ki cols pk_cols))) /\
        (forall b, row_ok (index_columns ki cols pk_cols) b ->
          exists key' r', index_entry mem tbl kd true (Some []) b None = Some (key', r') /\
            (key = key' <-> parts_cmp (map fst cols) a b = Eq)).
Proof.
  intros Hid Hs Hu Hm Hpid Hn1 Hn2 Hres Hlo.
  destruct (primary_key_of_key mem uninit tbl kd0 ki cols pkd0 pk pk_cols Hid Hs Hpid Hn1 Hn2) as (kd & pkd & E & Epk & Hget).
  destruct (index_restored mem uninit tbl kd0 ki cols pk_cols Hid Hres) as (kd' & E' & Hun).
  rewrite E in E'. injection E' as <-.
  destruct (key_def_setup_packed mem uninit tbl kd0 ki cols pk_cols Hid) as (kd' & E' & Hp & _).
  rewrite E in E'. injection E' as <-.
  destruct (setup_ready mem uninit tbl pkd0 pk pk_cols [] Hpid) as (pkd' & Epk' & _ & _ & _ & _ & _ & Hppack).
  rewrite Epk in Epk'. injection Epk' as <-. rewrite (app_nil_r pk_cols : index_columns pk pk_cols [] = pk_cols) in Hppack.
  exists kd, pkd. split_and!; [done|done|]. intros a Ha Hpa.
  pose proof (fun rec => unique_entry_split mem tbl uninit kd0 ki cols pk_cols kd rec (Some []) Hid Hs Hu Hm E) as Hent.
  destruct (Hent a Ha) as (st & Est & Ht & He & Hcat).
  destruct (Hppack a None 0%nat Hpa ltac:(lia) ltac:(done)) as (pst & Epst & Hpt).
  exists (own_key mem cols kd a), {| encoded_blob_ := drop (length (own_key mem cols kd a)) (ps_tuple st);
         unpack_info_ := match ps_unpack_info st with Some w => w | None => [] end |}, pst.
  unfold DecodeUniqueSkRecord. cbn [fst snd encoded_blob_ unpack_info_]. rewrite Hcat. split_and!; try done.
  - intros _. rewrite Ht, Hpt. by apply Hget.
  - intros buf Hl Hw. destruct (Hun a [] buf Ha) as (st' & w & Est' & Ew & Hun').
    rewrite Est in Est'. injection Est' as <-. rewrite Ew in *. eexists. split; [by apply Hun'|].
    apply (restored_row_kept tbl (length (default_values tbl))); try done. by eapply indexed_columns.
  - intros b Hb. destruct (Hent b Hb) as (stb & _ & _ & Heb & _). eexists _, _. split; [exact Heb|].
    apply Forall_app in Ha as [Ha _]. apply Forall_app in Hb as [Hb _]. by apply (own_key_eq mem tbl uninit ki cols pk_cols).
Qed.

(** A unique index on the name of the sample table, and one on name and id. *)
Definition unique_sk : KEY := {|
  user_defined_key_parts := 1; ext_key_parts := 1; key_flags_nosame := true;
  key_part := [{| kp_field := sample_name; kp_length := 40 |}] |}.

Definition covering_sk : KEY := {|
  user_defined_key_parts := 2; ext_key_parts := 2; key_flags_nosame := true;
  key_part := [{| kp_field := sample_name; kp_length := 40 |}; {| kp_field := sample_id; kp_length := 4 |}] |}.

Definition unique_table : TABLE := {|
  fields := [sample_id; sample_name]; key_info := [sample_pk; unique_sk; covering_sk]; primary_key := Some 0%nat;
  default_values := replicate 46 0 |}.

Definition covering_kd : mono_key_def := {|
  m_index_type := INDEX_TYPE_SECONDARY; m_pk_part_no := []; m_pack_info := []; m_keyno := 2;
  m_pk_key_parts := 0; m_unique_sk_only_key_parts := 0; m_maxlength := 0 |}.

Lemma unique_parts_indexed : Forall (indexed unique_table) [sample_name_part; sample_id_part].
Proof.
  constructor; [|constructor; [|constructor]].
  - split; [apply sample_indexed_name|done].
  - split; [apply sample_indexed_id|done].
Qed.

Lemma unique_index : index_definition unique_table sample_kd unique_sk [sample_name_part] [sample_id_part].
Proof.
  pose proof unique_parts_indexed as [H1 H2]%Forall_cons_iff. split; try done.
  - by constructor.
  - exists 0%nat, sample_pk. split_and!; [done..|]. right. by split_and!.
Qed.

Lemma unique_pk_index : index_definition unique_table sample_pk_kd sample_pk [sample_id_part] [].
Proof.
  pose proof unique_parts_indexed as [H1 H2]%Forall_cons_iff. split; try done.
  exists 0%nat, sample_pk. split_and!; [done..|]. by left.
Qed.

Lemma covering_index :
  index_definition unique_table covering_kd covering_sk [sample_name_part; sample_id_part] [sample_id_part].
Proof.
  pose proof unique_parts_indexed as H. split; try done.
  exists 0%nat, sample_pk. split_and!; [done..|]. right. split_and!; try done. by apply Forall_cons_iff in H as [_ H].
Qed.

Lemma unique_entry_witness :
  exists kd pkd, key_def_setup sample_uninit unique_table sample_kd = Some kd /\
    key_def_setup sample_uninit unique_table sample_pk_kd = Some pkd /\
    exists key r pst, index_entry (fun _ => []) unique_table kd true (Some []) sample_ann None = Some (key, r) /\
      pack_record (fun _ => []) pkd unique_table sample_ann None false None 0 = Some pst /\
      (DecodeUniqueSkRecord unique_table kd [] key r).2 = Some (ps_tuple pst) /\
      exists key' r', index_entry (fun _ => []) unique_table kd true (Some []) (sample_row 0 8 [97; 110; 110; 32]) None =
        Some (key', r') /\ key = key'.
Proof.
  destruct (unique_entry_correct (fun _ => []) sample_uninit unique_table sample_kd unique_sk [sample_name_part]
    sample_pk_kd sample_pk [sample_id_part] unique_index eq_refl eq_refl) as (kd & pkd & E & Epk & H).
  - done.
  - exact unique_pk_index.
  - by apply (bool_decide_unpack _).
  - by apply (bool_decide_unpack _).
  - exact (sample_restorable _).
  - exact sample_laid_out.
  - exists kd, pkd. split; [exact E|]. split; [exact Epk|].
    destruct (H sample_ann) as (key & r & pst & E1 & E2 & Hpk & _ & Hk).
    + sample_row.
    + apply (sample_pk_row sample_ann); [by apply (bool_decide_unpack _)|done].
    + exists key, r, pst. split; [exact E1|]. split; [exact E2|]. split; [apply Hpk|].
      destruct (Hk (sample_row 0 8 [97; 110; 110; 32])) as (key' & r' & E3 & Heq); [sample_row|].
      exists key', r'. split; [exact E3|]. by apply Heq.
Defined.

(** C39: a unique index that has all the columns of the primary key.
    [m_unique_sk_only_key_parts] is then the number of its key parts, which
    the loop of [pack_record] never reaches: [unique_sk_packed_size] stays 0,
    and the key of the entry is empty for every row. *)
Theorem unique_entry_covering mem uninit tbl kd0 ki cols pk_cols :
  index_definition tbl kd0 ki cols pk_cols -> m_index_type kd0 = INDEX_TYPE_SECONDARY ->
  key_flags_nosame ki = true -> missing ki pk_cols = [] ->
  exists kd, key_def_setup uninit tbl kd0 = Some kd /\
    forall rec, row_ok (index_columns ki cols pk_cols) rec ->
      exists r, index_entry mem tbl kd true (Some []) rec None = Some ([], r).
Proof.
  intros Hid Hs Hu Hm. destruct (setup_ready mem uninit tbl kd0 ki cols pk_cols Hid) as (kd & E & _).
  exists kd. split; [done|]. intros rec Hrow.
  destruct (unique_index_entry mem tbl uninit kd0 ki cols pk_cols kd rec (Some []) Hid Hs Hu E Hrow) as (st & _ & _ & He).
  rewrite decide_True in He by done. by eexists.
Qed.

Lemma unique_entry_covering_witness :
  exists kd, key_def_setup sample_uninit unique_table covering_kd = Some kd /\
    (exists r, index_entry (fun _ => []) unique_table kd true (Some []) sample_ann None = Some ([], r)) /\
    (exists r, index_entry (fun _ => []) unique_table kd true (Some []) sample_bob None = Some ([], r)).
Proof.
  destruct (unique_entry_covering (fun _ => []) sample_uninit unique_table covering_kd covering_sk
    [sample_name_part; sample_id_part] [sample_id_part] covering_index eq_refl eq_refl eq_refl) as (kd & E & H).
  exists kd. split; [exact E|]. split; apply H; sample_row.
Defined.

End Entry.
