(* ===== verification/Hidden.v ===== *)
(** * Hidden: indexes of a table without a primary key

    The rows of such a table have a UUID as hidden primary key.  It is the last
    part of the keys of every secondary index, where it has no column
    ([mono_key_def::setup], [pack_record] and [get_primary_key_tuple] in
    storage/eloq/eloq_key_def.cc). *)

From stdpp Require Import gmap.
From S2P Require Import Prelude Slice Buff Charset Latin1 Copy Collation Field Placement Store.
From S2P Require Import Codec Packing VarFormat SpacePad Varchar KeySetup KeyDef KeyOrder Index KeyRead PkTuple.
From S2P Require Import Neighbour Double EloqKey Restore RoundTrip Layout Entry.
Import Field Packing KeyDef KeyOrder Index KeyRead PkTuple EloqKey Restore RoundTrip Layout Entry.

Module Hidden.

(** ** Setup *)

(** A secondary index of a table without a primary key, to be set up. *)
Record hidden_definition (tbl : TABLE) (kd : mono_key_def) (ki : KEY) (cols : list indexed_part) : Prop := {
  hd_fresh : m_maxlength kd = 0%nat;
  hd_key : key_info tbl !! m_keyno kd = Some ki;
  hd_parts : key_part ki = map fst cols;
  hd_ext : ext_key_parts ki = length cols;
  hd_nonempty : cols <> [];
  hd_small : Z.of_nat (length cols) < 2 ^ 32;
  hd_indexed : Forall (indexed tbl) cols;
  hd_secondary : m_index_type kd = INDEX_TYPE_SECONDARY;
  hd_no_primary : primary_key tbl = None
}.

(** The parts of its keys: the columns, and 16 bytes that are skipped as
    such. *)
Record hidden_parts (mem : Z -> bytes) (uninit : mono_field_packing) (tbl : TABLE) (kd : mono_key_def)
    (cols : list indexed_part) (infos : list mono_field_packing) (last : mono_field_packing) : Prop := {
  hp_infos : m_pack_info kd = infos ++ [last];
  hp_packed : Forall2 (part_packed mem uninit tbl) cols infos;
  hp_size : m_max_image_len last = KeySetup.MY_UUID_SIZE;
  hp_maybe_null : m_maybe_null last = false;
  hp_skip : m_skip_func last = skip_max_length;
  hp_pk_part_no : m_pk_part_no kd = replicate (length cols) None ++ [Some 0%nat];
  hp_pk_key_parts : m_pk_key_parts kd = 1%nat;
  hp_secondary : m_index_type kd = INDEX_TYPE_SECONDARY
}.

Lemma concat_nones (cols : list indexed_part) :
  concat (map (fun _ => [@None nat]) cols) = replicate (length cols) None.
Proof. induction cols as [|c cols IH]; [done|]. cbn [map concat length replicate app]. by rewrite IH. Qed.

Section Setup.

Context (mem : Z -> bytes) (uninit : mono_field_packing) (tbl : TABLE).

(** The last iteration of the loop: no column is left. *)
Lemma setup_loop_hidden ki n src_i st :
  su_key_part st = None -> su_simulating_extkey st = true ->
  exists last st', setup_loop uninit tbl ki None true true n 1 src_i st = Some st' /\
    su_infos st' = su_infos st ++ [last] /\ su_pk_part_no st' = su_pk_part_no st ++ [Some 0%nat] /\
    m_max_image_len last = KeySetup.MY_UUID_SIZE /\ m_maybe_null last = false /\ m_skip_func last = skip_max_length.
Proof.
  intros Hk Hs. cbn [setup_loop]. unfold setup_part. rewrite Hk, Hs. cbn [KeySetup.setup].
  destruct (advance _ _ _ _ _ _) as [[[np sim] kn] kp]. by eexists _, _.
Qed.

Lemma hidden_setup kd0 ki cols : hidden_definition tbl kd0 ki cols ->
  exists kd infos last, key_def_setup uninit tbl kd0 = Some kd /\ hidden_parts mem uninit tbl kd cols infos last /\
    (key_flags_nosame ki = true -> m_unique_sk_only_key_parts kd = length cols).
Proof.
  intros [Hmax Hki Hparts Hext Hne Hs Hcols Hsec Hno]. unfold key_def_setup, table_has_hidden_pk.
  rewrite Hmax, Hki, Hsec, Hno. cbn [Nat.eqb negb].
  assert (bool_decide (INDEX_TYPE_SECONDARY = INDEX_TYPE_SECONDARY) = true) as -> by done.
  rewrite decide_False by done. cbn [andb].
  match goal with |- context [setup_loop _ _ _ _ _ _ 1 (_ + 1) 0 ?st] =>
    destruct (setup_loop_index mem uninit tbl ki None true true 1 cols 0 1 st Hcols Hne)
      as (infos & st' & E & [Hi Hp Hm Hn] & [Hsim Hkp] & _); [by rewrite <- Hparts| |done|done|] end.
  { exists ki, []. split_and!; try done. by rewrite Hparts, length_map. }
  rewrite Hext, E. destruct (setup_loop_hidden ki 1 (0 + length cols) st' Hkp Hsim)
    as (last & st2 & -> & Hi2 & Hn2 & Hsize & Hnull & Hskip).
  eexists _, infos, last. split; [reflexivity|]. simpl in Hi, Hn. split.
  - split; simpl; try done; [by rewrite Hi2, Hi|]. rewrite Hn2, Hn. f_equal. apply concat_nones.
  - simpl. by intros ->.
Qed.

End Setup.

(** ** Keys *)

(** A UUID. *)
Definition uuid_ok (id : bytes) : Prop := length id = KeySetup.MY_UUID_SIZE.

Section Keys.

Context (mem : Z -> bytes) (uninit : mono_field_packing) (tbl : TABLE) (kd : mono_key_def).
Context (cols : list indexed_part) (infos : list mono_field_packing) (last : mono_field_packing).
Context (Hno : primary_key tbl = None) (Hparts : hidden_parts mem uninit tbl kd cols infos last).

Lemma fill_uuid id : uuid_ok id -> fill_hidden_pk_val last id = id.
Proof. intros H. unfold fill_hidden_pk_val. rewrite (hp_size _ _ _ _ _ _ _ Hparts). apply take_ge. by rewrite H. Qed.

Lemma own_key_infos rec : own_key mem cols kd rec = row_key mem cols infos rec.
Proof.
  unfold own_key. rewrite (hp_infos _ _ _ _ _ _ _ Hparts), (Forall2_length (hp_packed _ _ _ _ _ _ _ Hparts)).
  by rewrite take_app_length.
Qed.

(** The size of the unique key is noted before the hidden primary key. *)
Lemma pack_loop_size rec id p n i l st st' :
  pack_record_loop mem tbl rec (Some p) (Some id) n i (l ++ [last]) st = Some st' ->
  p = (i + length l)%nat -> n = S p ->
  exists t, ps_tuple st' = t ++ fill_hidden_pk_val last id /\ ps_unique_sk_pack_size st' = Some (length t).
Proof.
  revert i st. induction l as [|info l IH]; intros i st E Hp Hn; simpl in Hp; cbn [app pack_record_loop] in E;
    rewrite (proj2 (Nat.leb_gt _ _)) in E by lia.
  - rewrite (proj2 (Nat.eqb_eq _ _)) in E by lia. injection E as <-. exists (ps_tuple st). split; [done|].
    simpl. rewrite decide_True; [done|]. f_equal. lia.
  - rewrite (proj2 (Nat.eqb_neq _ _)) in E by lia. destruct (pack_part _ _ _ _ _) as [st1|]; [|done].
    apply (IH (S i) st1); [done|lia|done].
Qed.

Lemma pack_hidden rec u unique id : row_ok cols rec -> uuid_ok id ->
  exists st, pack_record mem kd tbl rec u unique (Some id) 0 = Some st /\
    ps_tuple st = own_key mem cols kd rec ++ id /\
    (unique = true -> m_unique_sk_only_key_parts kd = length cols -> ps_unique_sk_pack_size st = Some (length (own_key mem cols kd rec))).
Proof.
  intros Hrow Hid. pose proof Hparts as [Hi Hp _ _ _ _ _ _]. pose proof (Forall2_length Hp) as Hlen.
  unfold pack_record, parts_to_pack, table_has_hidden_pk. rewrite Hno. cbn [Nat.eqb orb].
  match goal with |- context [pack_record_loop _ _ _ ?k _ ?m _ _ ?s] =>
    destruct (pack_record_loop_key mem tbl rec k (Some id) infos (columns_of cols infos) 0 s)
      with (rest := [last]) (n := m) as (st & E & Ht & _) end.
  - by apply (columns_of_packs mem uninit).
  - by apply (columns_of_ok mem uninit tbl).
  - simpl. destruct u; [|done]. apply bytes_ok_app. split; [apply bytes_ok_nil|auto with bytes].
  - unfold m_key_parts, columns_of. rewrite Hi, length_zip_with, length_app. simpl. lia.
  - done.
  - rewrite Hi, E. eexists. split; [reflexivity|]. cbn [ps_tuple ps_unique_sk_pack_size] in *.
    rewrite own_key_infos. cbn [app] in Ht. split; [by rewrite Ht, fill_uuid|]. intros -> Hu.
    apply pack_loop_size in E as (t & Et & ->); [|rewrite Hu; simpl; lia|].
    + rewrite Et in Ht. by apply app_inv_tail in Ht as ->.
    + unfold m_key_parts. rewrite Hu, Hi, length_app. simpl. lia.
Qed.

(** The entry of a row, and its key alone. *)
Definition hidden_key (unique : bool) (rec id : bytes) : bytes :=
  own_key mem cols kd rec ++ if unique then [] else id.

Lemma hidden_entry rec u (unique : bool) id : row_ok cols rec -> uuid_ok id ->
  (unique = true -> m_unique_sk_only_key_parts kd = length cols) ->
  exists r, index_entry mem tbl kd unique u rec (Some id) = Some (hidden_key unique rec id, r) /\
    encoded_blob_ r = if unique then id else [].
Proof.
  intros Hrow Hid Hu. unfold index_entry, hidden_key.
  destruct (pack_hidden rec u true id Hrow Hid) as (st & -> & -> & Hsize). destruct unique.
  - rewrite (Hsize eq_refl (Hu eq_refl)), take_app_length, drop_app_length, app_nil_r. by eexists.
  - rewrite take_ge by lia. by eexists.
Qed.

Lemma hidden_entry_key rec unique id : row_ok cols rec -> uuid_ok id ->
  (unique = true -> m_unique_sk_only_key_parts kd = length cols) ->
  key_of_record mem kd tbl rec false (Some id) unique = Some (key_of_bytes (hidden_key unique rec id)).
Proof.
  intros Hrow Hid Hu. unfold key_of_record, hidden_key. cbn [negb].
  destruct (pack_hidden rec None unique id Hrow Hid) as (st & -> & -> & Hsize). destruct unique; [|done].
  by rewrite (Hsize eq_refl (Hu eq_refl)), take_app_length, app_nil_r.
Qed.

(** The hidden primary key is found in a key. *)
Lemma hidden_primary_key rec id : Forall (indexed tbl) cols -> row_ok cols rec -> uuid_ok id ->
  get_primary_key_tuple kd tbl (own_key mem cols kd rec ++ id) = Some id.
Proof.
  intros Hix Hrow Hid. pose proof Hparts as [Hi Hp Hsize Hnull Hskip Hno' Hnum _]. pose proof (Forall2_length Hp) as Hlen.
  unfold get_primary_key_tuple. rewrite Hno', Hnum, own_key_infos.
  rewrite (pk_parts_loop_keys mem uninit tbl kd cols infos 0).
  2: { intros j info Hj. rewrite Hi. by apply lookup_app_l_Some. }
  2: by apply parts_ready.
  2: done.
  2: by rewrite length_replicate.
  cbn [pk_parts_loop]. unfold read_memcmp_key_part. rewrite Hi, Hlen, Nat.add_0_l.
  rewrite list_lookup_middle, Hnull, Hskip by done. cbn [call_skip]. unfold do_skip_max_length.
  rewrite Hsize, <- (app_nil_r id), (Rd.read_app id [] _) by done. cbn [fmap option_fmap option_map snd].
  rewrite consumed_app, app_nil_r. cbn [seq mapM]. rewrite lookup_insert_eq. simpl. by rewrite app_nil_r.
Qed.

(** Unpacking skips it. *)
Lemma hidden_restored rec u unique id buf : Forall (restorable mem) cols -> row_ok cols rec -> uuid_ok id ->
  exists st w, pack_record mem kd tbl rec (Some u) unique (Some id) 0 = Some st /\ ps_unpack_info st = Some w /\
    (Z.of_nat (length w) < 65536 ->
     unpack_record kd tbl buf (ps_tuple st) w = Some (restored_row tbl (map fst cols) rec buf)).
Proof.
  intros Hres Hrow Hid. pose proof Hparts as [Hi Hp Hsize _ Hskip _ _ Hsec]. pose proof (Forall2_length Hp) as Hlen.
  unfold pack_record, parts_to_pack, table_has_hidden_pk, m_key_parts, Rd.clear.
  rewrite Hno, Hi, length_app. cbn [Nat.eqb orb length].
  match goal with |- context [pack_record_loop _ _ _ ?k _ ?m _ _ ?s] =>
    destruct (columns_roundtrip mem uninit tbl k (Some id) cols infos [last] rec m 0 s _ Hp Hres Hrow eq_refl)
      as (key & inf & st & -> & Ht & Hw & _ & Hit) end; [unfold Rd.write_uint16; auto with bytes|lia|].
  cbn [pack_record_loop]. rewrite (proj2 (Nat.leb_gt _ _)), (proj2 (Nat.eqb_eq _ _)) by lia.
  cbn [ps_tuple ps_unpack_info ps_unique_sk_pack_size]. rewrite Hw. eexists _, _. split; [reflexivity|]. split; [reflexivity|].
  cbn [ps_tuple]. rewrite Ht, fill_uuid by done. simpl. apply unpack_record_info. intros has Hhas.
  unfold m_key_parts. rewrite Hi, length_app. rewrite (Hit (new_iterator kd tbl has (key ++ id) inf buf) id []).
  - cbn [length iterate]. unfold has_next, next. cbn [it_infos it_move next_loop new_iterator it_secondary_key
      it_hidden_pk_exists it_is_hidden_pk it_reader it_unp_reader it_buf]. unfold table_has_hidden_pk.
    rewrite Hsec, Hno, bool_decide_true by done. cbn [andb orb]. rewrite Hskip. cbn [call_skip].
    unfold do_skip_max_length. rewrite Hsize. assert (Rd.read KeySetup.MY_UUID_SIZE id = Some (id, [])) as ->.
    { rewrite <- (app_nil_r id) at 1. by apply Rd.read_app. }
    by eexists.
  - apply bytes_ok_nil.
  - done.
  - done.
  - simpl. by rewrite Hsec.
  - done.
  - simpl. by rewrite app_nil_r.
  - done.
Qed.

Lemma hidden_entry_restored rec (unique : bool) id buf key r : Forall (restorable mem) cols -> row_ok cols rec ->
  uuid_ok id -> index_entry mem tbl kd unique (Some []) rec (Some id) = Some (key, r) ->
  Z.of_nat (length (unpack_info_ r)) < 65536 ->
  unpack_record kd tbl buf (key ++ encoded_blob_ r) (unpack_info_ r) = Some (restored_row tbl (map fst cols) rec buf).
Proof.
  intros Hres Hrow Hid. unfold index_entry.
  destruct (hidden_restored rec [] true id buf Hres Hrow Hid) as (st & w & -> & Ew & Hu). rewrite Ew.
  intros [= <- <-]. cbn [encoded_blob_ unpack_info_]. destruct unique.
  - by rewrite take_drop.
  - by rewrite take_ge, app_nil_r by lia.
Qed.

(** Two rows by their columns, then by the hidden primary key. *)
Lemma hidden_key_cmp a b ida idb : row_ok cols a -> row_ok cols b ->
  lex_cmp (own_key mem cols kd a ++ ida) (own_key mem cols kd b ++ idb) =
    (parts_cmp (map fst cols) a b ;;; lex_cmp ida idb).
Proof.
  intros Ha Hb. pose proof (hp_packed _ _ _ _ _ _ _ Hparts) as Hp. rewrite !own_key_infos.
  pose proof (mem_cmp_index mem tbl _ _ (columns_of_packs mem uninit tbl _ _ Hp)) as HM.
  rewrite <- (columns_of_cmp mem uninit tbl _ _ a b Hp). apply (mem_cmp (MemCmp := HM)); by eapply columns_of_ok.
Qed.

Lemma hidden_own_key_eq a b : row_ok cols a -> row_ok cols b ->
  own_key mem cols kd a = own_key mem cols kd b <-> parts_cmp (map fst cols) a b = Eq.
Proof.
  intros Ha Hb. rewrite !own_key_infos. apply (row_key_eq mem tbl uninit); [|done|done].
  apply (hp_packed _ _ _ _ _ _ _ Hparts).
Qed.

End Keys.

(** C23: the keys of an index of a table without a primary key.  The columns of
    the index are [supported]: numbers, dates and the other types of a fixed
    size, VARCHAR and VARBINARY columns in their full length; not CHAR and
    BINARY, BLOB and TEXT, or parts of a column.  The setup succeeds; the keys
    of two rows compare as the rows do by the columns of the index, and by
    their UUIDs when those are equal; and [get_primary_key_tuple] returns the
    UUID. *)
Theorem hidden_index_order mem uninit tbl kd0 ki cols :
  hidden_definition tbl kd0 ki cols ->
  exists kd, key_def_setup uninit tbl kd0 = Some kd /\
    forall a b ua ub ida idb, row_ok cols a -> row_ok cols b -> uuid_ok ida -> uuid_ok idb ->
      exists sa sb, pack_record mem kd tbl a ua false (Some ida) 0 = Some sa /\
        pack_record mem kd tbl b ub false (Some idb) 0 = Some sb /\
        lex_cmp (ps_tuple sa) (ps_tuple sb) = (parts_cmp (map fst cols) a b ;;; lex_cmp ida idb) /\
        get_primary_key_tuple kd tbl (ps_tuple sa) = Some ida.
Proof.
  intros Hd. destruct (hidden_setup mem uninit tbl kd0 ki cols Hd) as (kd & infos & last & E & Hp & _).
  pose proof (hd_no_primary _ _ _ _ Hd) as Hno. exists kd. split; [done|]. intros a b ua ub ida idb Ha Hb Hia Hib.
  destruct (pack_hidden mem uninit tbl kd cols infos last Hno Hp a ua false ida Ha Hia) as (sa & Ea & Ta & _).
  destruct (pack_hidden mem uninit tbl kd cols infos last Hno Hp b ub false idb Hb Hib) as (sb & Eb & Tb & _).
  exists sa, sb. rewrite Ta, Tb. split_and!; [done|done| |].
  - by apply (hidden_key_cmp mem uninit tbl kd cols infos last).
  - apply (hidden_primary_key mem uninit tbl kd cols infos last); try done. apply (hd_indexed _ _ _ _ Hd).
Qed.

(** C24: the entries of a unique index of a table without a primary key.  Two
    rows have the same key exactly when they agree in the columns of the index,
    and [DecodeUniqueSkRecord] returns the UUID of the row and restores the
    columns of the index. *)
Theorem hidden_unique_entry mem uninit tbl kd0 ki cols :
  hidden_definition tbl kd0 ki cols -> key_flags_nosame ki = true -> Forall (restorable mem) cols ->
  laid_out (length (default_values tbl)) (map fst cols) ->
  exists kd, key_def_setup uninit tbl kd0 = Some kd /\
    forall a id, row_ok cols a -> uuid_ok id ->
      exists key r, index_entry mem tbl kd true (Some []) a (Some id) = Some (key, r) /\
        (forall buf, (DecodeUniqueSkRecord tbl kd buf key r).2 = Some id) /\
        (forall buf, length buf = length (default_values tbl) -> Z.of_nat (length (unpack_info_ r)) < 65536 ->
          exists buf', (DecodeUniqueSkRecord tbl kd buf key r).1 = Some buf' /\
            Forall (column_kept a buf') (map fst cols)) /\
        (forall b id', row_ok cols b -> uuid_ok id' ->
          exists key' r', index_entry mem tbl kd true (Some []) b (Some id') = Some (key', r') /\
            (key = key' <-> parts_cmp (map fst cols) a b = Eq)).
Proof.
  intros Hd Hu Hres Hlo. destruct (hidden_setup mem uninit tbl kd0 ki cols Hd) as (kd & infos & last & E & Hp & Hun).
  specialize (Hun Hu). pose proof (hd_no_primary _ _ _ _ Hd) as Hno. pose proof (hd_indexed _ _ _ _ Hd) as Hix.
  exists kd. split; [done|]. intros a id Ha Hid.
  pose proof (hidden_entry mem uninit tbl kd cols infos last Hno Hp) as Hent. unfold hidden_key in Hent.
  destruct (Hent a (Some []) true id Ha Hid (fun _ => Hun)) as (r & Er & Hb). eexists _, r. split; [exact Er|].
  rewrite app_nil_r in Er |- *. unfold DecodeUniqueSkRecord. cbn [fst snd]. split_and!.
  - intros _. rewrite Hb. by apply (hidden_primary_key mem uninit tbl kd cols infos last).
  - intros buf Hl Hw. eexists. split; [by apply (hidden_entry_restored mem uninit tbl kd cols infos last Hno Hp a true id)|].
    by apply (restored_row_kept tbl (length (default_values tbl))).
  - intros b id' Hb' Hid'. destruct (Hent b (Some []) true id' Hb' Hid' (fun _ => Hun)) as (r' & Er' & _).
    rewrite app_nil_r in Er'. eexists _, r'. split; [exact Er'|]. by apply (hidden_own_key_eq mem uninit tbl kd cols infos last).
Qed.

(** The sample table without its primary key, with an index on [name] that is
    unique. *)
Definition hidden_table : TABLE := {|
  fields := [sample_id; sample_name]; key_info := [unique_sk]; primary_key := None; default_values := replicate 46 0 |}.

Definition hidden_sk_kd : mono_key_def := {|
  m_index_type := INDEX_TYPE_SECONDARY; m_pk_part_no := []; m_pack_info := []; m_keyno := 0;
  m_pk_key_parts := 0; m_unique_sk_only_key_parts := 0; m_maxlength := 0 |}.

Lemma hidden_index : hidden_definition hidden_table hidden_sk_kd unique_sk [sample_name_part].
Proof. split; try done. constructor; [|constructor]. split; [apply sample_indexed_name|done]. Qed.

Lemma hidden_row row : row_ok (index_columns sample_sk [sample_name_part] [sample_id_part]) row -> row_ok [sample_name_part] row.
Proof. intros [H _]%Forall_cons_iff. by constructor. Qed.

Definition sample_uuid (n : Z) : bytes := le_bytes 16 n.

Lemma sample_uuid_ok n : uuid_ok (sample_uuid n).
Proof. apply length_le_bytes. Qed.

(** Two rows with the same name. *)
Lemma hidden_index_order_witness :
  exists kd, key_def_setup sample_uninit hidden_table hidden_sk_kd = Some kd /\
    exists sa sb, pack_record (fun _ => []) kd hidden_table sample_ann None false (Some (sample_uuid 1)) 0 = Some sa /\
      pack_record (fun _ => []) kd hidden_table sample_ann None false (Some (sample_uuid 2)) 0 = Some sb /\
      lex_cmp (ps_tuple sa) (ps_tuple sb) = Lt.
Proof.
  destruct (hidden_index_order (fun _ => []) sample_uninit hidden_table hidden_sk_kd unique_sk [sample_name_part] hidden_index)
    as (kd & E & H).
  exists kd. split; [exact E|]. destruct (H sample_ann sample_ann None None (sample_uuid 1) (sample_uuid 2)) as (sa & sb & Ea & Eb & Ec & _).
  - apply hidden_row. sample_row.
  - apply hidden_row. sample_row.
  - apply sample_uuid_ok.
  - apply sample_uuid_ok.
  - exists sa, sb. split; [exact Ea|]. split; [exact Eb|]. rewrite Ec. by vm_compute.
Defined.

Lemma hidden_unique_entry_witness :
  exists kd, key_def_setup sample_uninit hidden_table hidden_sk_kd = Some kd /\
    exists key r, index_entry (fun _ => []) hidden_table kd true (Some []) sample_ann (Some (sample_uuid 1)) = Some (key, r) /\
      (DecodeUniqueSkRecord hidden_table kd (replicate 46 0) key r).2 = Some (sample_uuid 1).
Proof.
  destruct (hidden_unique_entry (fun _ => []) sample_uninit hidden_table hidden_sk_kd unique_sk [sample_name_part] hidden_index)
    as (kd & E & H).
  - reflexivity.
  - constructor; [|constructor]. by pose proof (sample_restorable (fun _ => [])) as [Hr _]%Forall_cons_iff.
  - pose proof sample_laid_out as (H1 & H2 & _ & _). by split_and!.
  - exists kd. split; [exact E|]. destruct (H sample_ann (sample_uuid 1)) as (key & r & Er & Hd & _).
    + apply hidden_row. sample_row.
    + apply sample_uuid_ok.
    + exists key, r. split; [exact Er|apply Hd].
Defined.

End Hidden.
