(* ===== verification/Handler.v ===== *)
(** * Handler: writing rows

    [write_row], [update_row] and [delete_row] of [ha_eloq]
    (storage/eloq/ha_eloq.cc) translate a change of a row into reads and writes
    of the transaction service: one record under the primary key, and one entry
    per secondary index.  The transaction service and the data store are not
    part of the sources; [TxService] and [DataStoreHandler] are their calls,
    and [TxLaws] what a single transaction sees of them: its own writes, and
    behind them the committed data. *)

From stdpp Require Import gmap strings.
From S2P Require Import Prelude Slice Buff Charset Latin1 Copy Collation Field Placement Store.
From S2P Require Import Codec Packing VarFormat SpacePad Varchar KeySetup KeyDef KeyOrder Index KeyRead PkTuple.
From S2P Require Import Neighbour Double EloqKey Restore RoundTrip Layout KeyTuple Row Entry.
Import Field Packing KeyDef KeyOrder Index KeyRead PkTuple EloqKey Entry.

Module Handler.

(** ** Error codes *)

(** The codes that the sources name, and one for all others. *)
Inductive TxErrorCode :=
  | NO_ERROR
  | DEAD_LOCK_ABORT
  | OCC_BREAK_REPEATABLE_READ
  | SI_R4W_ERR_KEY_WAS_UPDATED
  | READ_WRITE_CONFLICT
  | WRITE_WRITE_CONFLICT
  | TX_INIT_FAIL
  | DATA_STORE_ERROR
  | INTERNAL_ERR_TIMEOUT
  | DUPLICATE_KEY
  | OTHER_ERROR.

#[export] Instance TxErrorCode_eq_dec : EqDecision TxErrorCode.
Proof. solve_decision. Defined.

Abbreviation HA_ERR_FOUND_DUPP_KEY := 121 (only parsing).
Abbreviation HA_ERR_OUT_OF_MEM := 128 (only parsing).
Abbreviation HA_ERR_LOCK_WAIT_TIMEOUT := 146 (only parsing).
Abbreviation HA_ERR_LOCK_DEADLOCK := 149 (only parsing).
Abbreviation HA_ERR_LAST := 198 (only parsing).
Abbreviation HA_ERR_ELOQ_START_TRANSACTION_FAILED := (HA_ERR_LAST + 4) (only parsing).
Abbreviation HA_ERR_ELOQ_AUTO_INCREMENT_FAILED := (HA_ERR_LAST + 6) (only parsing).
Abbreviation HA_ERR_ELOQ_RW_CONFLICT := (HA_ERR_LAST + 14) (only parsing).
Abbreviation HA_ERR_ELOQ_WW_CONFLICT := (HA_ERR_LAST + 15) (only parsing).
Abbreviation HA_ERR_ELOQ_RECORD_WAS_UPDATED := (HA_ERR_LAST + 16) (only parsing).
Abbreviation HA_ERR_ELOQ_DATA_STORE_ERROR := (HA_ERR_LAST + 17) (only parsing).
Abbreviation HA_ERR_ELOQ_DEFAULT_ERROR := (HA_ERR_LAST + 18) (only parsing).

Definition convert_tx_error (err_code : TxErrorCode) : Z :=
  match err_code with
  | NO_ERROR => 0
  | DEAD_LOCK_ABORT => HA_ERR_LOCK_DEADLOCK
  | OCC_BREAK_REPEATABLE_READ | SI_R4W_ERR_KEY_WAS_UPDATED => HA_ERR_ELOQ_RECORD_WAS_UPDATED
  | READ_WRITE_CONFLICT => HA_ERR_ELOQ_RW_CONFLICT
  | WRITE_WRITE_CONFLICT => HA_ERR_ELOQ_WW_CONFLICT
  | TX_INIT_FAIL => HA_ERR_ELOQ_START_TRANSACTION_FAILED
  | DATA_STORE_ERROR => HA_ERR_ELOQ_DATA_STORE_ERROR
  | INTERNAL_ERR_TIMEOUT => HA_ERR_LOCK_WAIT_TIMEOUT
  | _ => HA_ERR_ELOQ_DEFAULT_ERROR
  end.

(** ** The transaction service *)

Definition table_name := string.

Inductive RecordStatus :=
  | RecordNormal
  | RecordDeleted
  | RecordUnknown
  | VersionUnknown
  | BaseVersionMiss
  | ArchiveVersionMiss.

#[export] Instance RecordStatus_eq_dec : EqDecision RecordStatus.
Proof. solve_decision. Defined.

Inductive OperationType := OpInsert | OpUpdate | OpDelete.

Record ReadTxRequest := {
  req_table : table_name; req_version : Z; req_key : bytes; req_for_update : bool; req_for_share : bool;
  req_ts : Z; req_is_covering_keys : bool; req_point_read_on_miss : bool
}.

(** The calls; [S] is the state of the service.  A read returns an error, or
    the status, the record and the commit timestamp. *)
Class TxService (S : Type) := {
  tx_Read : S -> ReadTxRequest -> S * (TxErrorCode + RecordStatus * EloqRecord * Z);
  tx_ReadOutside : S -> EloqRecord -> bool -> Z -> S;
  tx_Upsert : S -> table_name -> Z -> bytes -> option EloqRecord -> OperationType -> S * TxErrorCode;
  tx_Revert : S -> table_name -> bytes -> S;
  tx_is_snapshot : S -> bool;
  tx_start_ts : S -> Z
}.

(** [None]: the call fails. *)
Record DataStoreHandler (S : Type) := {
  store_Read : S -> table_name -> bytes -> option (EloqRecord * bool * Z);
  store_FetchVisibleArchive : S -> table_name -> bytes -> Z -> option (EloqRecord * RecordStatus * Z)
}.
Arguments store_Read {S}.
Arguments store_FetchVisibleArchive {S}.

(** ** The handler *)

(** [IndexNameSchema]: name and schema of an index. *)
Record index_schema := { is_name : table_name; is_kd : mono_key_def; is_SchemaTs : Z }.

(** What the handler knows of its table, and the parts of the environment that
    a statement does not change. *)
Record ha_env := {
  ha_table : TABLE;
  ha_mem : Z -> bytes;
  ha_fields : list Row.row_field;
  base_table_name : table_name;
  base_version : Z;
  pk_descr_ : mono_key_def;
  IndexNameSchema : list index_schema;
  DirtyIndexes : list index_schema;
  is_insert_semantic_ : bool;
  next_number_index : option nat;
  lock_write : bool;
  lock_shared : bool;
  is_covering : bool
}.

(** What a statement changes. *)
Record ha_state (S : Type) := {
  txm : S;
  tx_err_code_ : TxErrorCode;
  errkey : option nat;
  dup_errkey_ : option nat;
  last_read_record_ : EloqRecord;
  last_read_key_ : bytes;
  insert_id_for_cur_row : Z
}.
Arguments txm {S}.
Arguments tx_err_code_ {S}.
Arguments errkey {S}.
Arguments dup_errkey_ {S}.
Arguments last_read_record_ {S}.
Arguments last_read_key_ {S}.
Arguments insert_id_for_cur_row {S}.

Section Handler.

Context {S : Type} `{!TxService S} (storage_hd : option (DataStoreHandler S)) (env : ha_env).

Definition with_txm (s : S) (st : ha_state S) : ha_state S := {|
  txm := s; tx_err_code_ := tx_err_code_ st; errkey := errkey st; dup_errkey_ := dup_errkey_ st;
  last_read_record_ := last_read_record_ st; last_read_key_ := last_read_key_ st;
  insert_id_for_cur_row := insert_id_for_cur_row st |}.

Definition with_error (e : TxErrorCode) (st : ha_state S) : ha_state S := {|
  txm := txm st; tx_err_code_ := e; errkey := errkey st; dup_errkey_ := dup_errkey_ st;
  last_read_record_ := last_read_record_ st; last_read_key_ := last_read_key_ st;
  insert_id_for_cur_row := insert_id_for_cur_row st |}.

Definition with_errkey (k : option nat) (st : ha_state S) : ha_state S := {|
  txm := txm st; tx_err_code_ := tx_err_code_ st; errkey := k; dup_errkey_ := k;
  last_read_record_ := last_read_record_ st; last_read_key_ := last_read_key_ st;
  insert_id_for_cur_row := insert_id_for_cur_row st |}.

Definition with_record (r : EloqRecord) (st : ha_state S) : ha_state S := {|
  txm := txm st; tx_err_code_ := tx_err_code_ st; errkey := errkey st; dup_errkey_ := dup_errkey_ st;
  last_read_record_ := r; last_read_key_ := last_read_key_ st;
  insert_id_for_cur_row := insert_id_for_cur_row st |}.

(** [PkRead] into [last_read_record_]. *)
Definition PkRead (st : ha_state S) (pk_tx_key : bytes) (for_update : bool) (ts : Z) (point_read_on_miss : bool)
    : ha_state S * RecordStatus :=
  let for_update := for_update || lock_write env in
  let '(s, r) := tx_Read (txm st) {|
    req_table := base_table_name env; req_version := base_version env; req_key := pk_tx_key;
    req_for_update := for_update; req_for_share := lock_shared env; req_ts := ts;
    req_is_covering_keys := false; req_point_read_on_miss := point_read_on_miss |} in
  let st := with_txm s st in
  match r with
  | inl e => (with_error e st, RecordUnknown)
  | inr (rec_status, rec, _) => (with_record rec st, rec_status)
  end.

(** [SkRead]: status, timestamp and the record read. *)
Definition SkRead (st : ha_state S) (index : index_schema) (eloq_key : bytes) (for_update : bool)
    : ha_state S * (RecordStatus * Z * EloqRecord) :=
  let for_update := for_update || lock_write env in
  let for_share := lock_shared env in
  let '(s, r) := tx_Read (txm st) {|
    req_table := is_name index; req_version := is_SchemaTs index; req_key := eloq_key;
    req_for_update := for_update; req_for_share := for_share; req_ts := 0;
    req_is_covering_keys := if for_update then false else is_covering env; req_point_read_on_miss := false |} in
  let st := with_txm s st in
  let empty := {| encoded_blob_ := []; unpack_info_ := [] |} in
  match r with
  | inl e => (with_error e st, (RecordUnknown, 0, empty))
  | inr (rec_status, rec, unique_sk_ts) =>
      match rec_status, storage_hd with
      | RecordDeleted, _ | RecordNormal, _ => (st, (rec_status, unique_sk_ts, rec))
      | _, None => (st, (RecordDeleted, 0, rec))
      | _, Some hd =>
          match
            (if bool_decide (rec_status = ArchiveVersionMiss) then Some (st, empty, RecordUnknown, 1)
             else
               match store_Read hd s (is_name index) eloq_key with
               | None => None
               | Some (latest_rec, store_found, latest_version_ts) =>
                   let latest_rec_status := if store_found then RecordNormal else RecordDeleted in
                   let st := if bool_decide (rec_status = RecordUnknown)
                             then with_txm (tx_ReadOutside s latest_rec (negb store_found) latest_version_ts) st
                             else st in
                   Some (st, latest_rec, latest_rec_status, latest_version_ts)
               end)
          with
          | None => (st, (RecordDeleted, 0, rec))
          | Some (st, latest_rec, latest_rec_status, latest_version_ts) =>
              if bool_decide (rec_status = ArchiveVersionMiss) ||
                 (negb for_update && negb for_share && tx_is_snapshot (txm st) &&
                  (tx_start_ts (txm st) <? latest_version_ts))
              then
                match store_FetchVisibleArchive hd (txm st) (is_name index) eloq_key (tx_start_ts (txm st)) with
                | Some (visible_record, status, archive_version_ts) => (st, (status, archive_version_ts, visible_record))
                | None => (with_error DATA_STORE_ERROR st, (RecordUnknown, unique_sk_ts, rec))
                end
              else (st, (latest_rec_status, latest_version_ts, latest_rec))
          end
      end
  end.

(** *** The indexes of a statement

    The loops of [Insert], [Update] and [Delete] run over the keys of the
    table, skip the primary key, and end with the dirty indexes, which are not
    checked for uniqueness. *)
Record target := { t_kid : nat; t_unique : bool; t_index : index_schema }.

Fixpoint key_targets (kid : nat) (keys : list KEY) (schemas : list index_schema) : list target :=
  match keys, schemas with
  | key :: keys, index :: schemas =>
      let rest := key_targets (Datatypes.S kid) keys schemas in
      if decide (Some kid = primary_key (ha_table env)) then rest
      else {| t_kid := kid; t_unique := key_flags_nosame key; t_index := index |} :: rest
  | _, _ => []
  end.

Definition own_targets : list target := key_targets 0 (key_info (ha_table env)) (IndexNameSchema env).

Definition dirty_targets : list target :=
  map (fun index => {| t_kid := length (key_info (ha_table env)); t_unique := false; t_index := index |})
    (DirtyIndexes env).

Definition targets : list target := own_targets ++ dirty_targets.

(** The hidden primary key of a row, where the table has one. *)
Definition hidden_pk (eloq_key : bytes) : option bytes :=
  if table_has_hidden_pk (ha_table env) then Some eloq_key else None.

(** The entry of a row in an index. *)
Definition entry (t : target) (unpack_info : option bytes) (eloq_key buf : bytes) : option (bytes * EloqRecord) :=
  index_entry (ha_mem env) (ha_table env) (is_kd (t_index t)) (t_unique t) unpack_info buf (hidden_pk eloq_key).

Definition upsert (st : ha_state S) (index : index_schema) (key : bytes) (rec : option EloqRecord) (op : OperationType)
    : ha_state S * TxErrorCode :=
  let '(s, err) := tx_Upsert (txm st) (is_name index) (is_SchemaTs index) key rec op in
  let st := with_txm s st in
  (if decide (err = NO_ERROR) then st else with_error err st, err).

Definition base_index : index_schema :=
  {| is_name := base_table_name env; is_kd := pk_descr_ env; is_SchemaTs := base_version env |}.

(** *** Insert *)

(** The entries of the indexes before the current one are taken back; their
    keys are packed as those of the current index, which is a unique one. *)
Fixpoint revert_loop (st : ha_state S) (kid : nat) (eloq_key buf : bytes) (ts : list target) : option (ha_state S) :=
  match ts with
  | [] => Some st
  | t :: ts =>
      if (t_kid t <? kid)%nat then
        match index_entry (ha_mem env) (ha_table env) (is_kd (t_index t)) true None buf (hidden_pk eloq_key) with
        | None => None
        | Some (sk, _) =>
            revert_loop (with_txm (tx_Revert (txm st) (is_name (t_index t)) sk) st) kid eloq_key buf ts
        end
      else Some st
  end.

(** [Some rc] when the loop returns from [Insert]. *)
Fixpoint insert_loop (st : ha_state S) (eloq_key buf : bytes) (ts : list target) : option (ha_state S * option Z) :=
  match ts with
  | [] => Some (st, None)
  | t :: ts =>
      match entry t (Some []) eloq_key buf with
      | None => None
      | Some (new_sk, new_sk_rec) =>
          let upsert_entry st :=
            let '(st, err) := upsert st (t_index t) new_sk (Some new_sk_rec) OpInsert in
            if decide (err = NO_ERROR) then insert_loop st eloq_key buf ts else Some (st, Some HA_ERR_OUT_OF_MEM) in
          if t_unique t then
            let '(st, (rec_status, _, _)) := SkRead st (t_index t) new_sk true in
            match rec_status with
            | RecordDeleted => upsert_entry st
            | RecordNormal =>
                match revert_loop st (t_kid t) eloq_key buf own_targets with
                | None => None
                | Some st => Some (with_errkey (Some (t_kid t)) st, Some HA_ERR_FOUND_DUPP_KEY)
                end
            | _ => Some (st, Some (convert_tx_error (tx_err_code_ st)))
            end
          else upsert_entry st
      end
  end.

(** The primary key is not looked up: with upsert semantics, for a hidden
    primary key and for a generated auto-increment value. *)
Definition pk_check_skipped (st : ha_state S) : bool :=
  let pk := primary_key (ha_table env) in
  negb (is_insert_semantic_ env) || bool_decide (pk = None) ||
  (bool_decide (pk = next_number_index env) && negb (insert_id_for_cur_row st =? 0)).

Definition Insert (st : ha_state S) (buf eloq_key : bytes) (eloq_rec : EloqRecord) : option (ha_state S * Z) :=
  let '(st, rec_stat) :=
    if pk_check_skipped st then (st, RecordDeleted)
    else PkRead st eloq_key true 0 true in
  match rec_stat with
  | RecordDeleted =>
      match insert_loop st eloq_key buf targets with
      | None => None
      | Some (st, Some rc) => Some (st, rc)
      | Some (st, None) =>
          let '(st, err) := upsert st base_index eloq_key (Some eloq_rec) OpInsert in
          Some (st, if decide (err = NO_ERROR) then 0 else HA_ERR_OUT_OF_MEM)
      end
  | RecordNormal => Some (with_errkey (primary_key (ha_table env)) st, HA_ERR_FOUND_DUPP_KEY)
  | _ => Some (st, convert_tx_error (tx_err_code_ st))
  end.

(** *** Update *)

Fixpoint update_loop (st : ha_state S) (new_data old_data mono_key : bytes) (ts : list target)
    : option (ha_state S * option Z) :=
  match ts with
  | [] => Some (st, None)
  | t :: ts =>
      match entry t None mono_key old_data, entry t (Some []) mono_key new_data with
      | Some (old_sk, _), Some (new_sk, new_sk_rec) =>
          if negb (key_eqb (key_of_bytes new_sk) (key_of_bytes old_sk)) then
            let upsert_entry st :=
              let '(st, err) := upsert st (t_index t) new_sk (Some new_sk_rec) OpInsert in
              if decide (err = NO_ERROR) then
                let '(st, err) := upsert st (t_index t) old_sk None OpDelete in
                if decide (err = NO_ERROR) then update_loop st new_data old_data mono_key ts
                else Some (st, Some HA_ERR_OUT_OF_MEM)
              else Some (st, Some HA_ERR_OUT_OF_MEM) in
            if t_unique t then
              let '(st, (rec_status, _, _)) := SkRead st (t_index t) new_sk true in
              match rec_status with
              | RecordNormal => Some (with_errkey (Some (t_kid t)) st, Some HA_ERR_FOUND_DUPP_KEY)
              | RecordDeleted => upsert_entry st
              | _ => Some (st, Some (convert_tx_error (tx_err_code_ st)))
              end
            else upsert_entry st
          else update_loop st new_data old_data mono_key ts
      | _, _ => None
      end
  end.

Definition Update (st : ha_state S) (new_data old_data mono_key : bytes) (new_mono_rec : EloqRecord)
    : option (ha_state S * Z) :=
  match update_loop st new_data old_data mono_key targets with
  | None => None
  | Some (st, Some rc) => Some (st, rc)
  | Some (st, None) =>
      let '(st, err) := upsert st base_index mono_key (Some new_mono_rec) OpUpdate in
      Some (st, if decide (err = NO_ERROR) then 0 else HA_ERR_OUT_OF_MEM)
  end.

(** *** Delete *)

Fixpoint delete_loop (st : ha_state S) (old_data mono_key : bytes) (ts : list target)
    : option (ha_state S * option Z) :=
  match ts with
  | [] => Some (st, None)
  | t :: ts =>
      match key_of_record (ha_mem env) (is_kd (t_index t)) (ha_table env) old_data false (hidden_pk mono_key) (t_unique t) with
      | None => None
      | Some old_sk =>
          let '(st, err) := upsert st (t_index t) (packed_key_ old_sk) None OpDelete in
          if decide (err = NO_ERROR) then delete_loop st old_data mono_key ts else Some (st, Some HA_ERR_OUT_OF_MEM)
      end
  end.

Definition Delete (st : ha_state S) (old_data mono_key : bytes) : option (ha_state S * Z) :=
  match delete_loop st old_data mono_key targets with
  | None => None
  | Some (st, Some rc) => Some (st, rc)
  | Some (st, None) =>
      let '(st, err) := upsert st base_index mono_key None OpDelete in
      Some (st, if decide (err = NO_ERROR) then 0 else HA_ERR_OUT_OF_MEM)
  end.

(** *** Rows *)

Definition PackRecord (buf : bytes) : option EloqRecord :=
  match Row.Encode (ha_mem env) (Row.new_record_schema (ha_fields env)) buf (ha_fields env) with
  | Some blob => Some {| encoded_blob_ := blob; unpack_info_ := [] |}
  | None => None
  end.

(** [uuid]: the next UUID that [my_uuid] returns. *)
Definition PackKeyRecord (uuid buf : bytes) : option (bytes * EloqRecord) :=
  match PackRecord buf with
  | None => None
  | Some rec =>
      if negb (table_has_hidden_pk (ha_table env)) then
        match pack_record (ha_mem env) (pk_descr_ env) (ha_table env) buf (Some []) false None 0 with
        | None => None
        | Some st =>
            let unpack_info := match ps_unpack_info st with Some w => w | None => [] end in
            Some (ps_tuple st, {| encoded_blob_ := encoded_blob_ rec; unpack_info_ := unpack_info |})
        end
      else
        match key_of_record (ha_mem env) (pk_descr_ env) (ha_table env) uuid true None false with
        | None => None
        | Some key => Some (packed_key_ key, rec)
        end
  end.

(** [write_row] of a single row, without the bulk path, which [Bulk] adds;
    [auto_increment] is the result of [update_auto_increment] when the table
    has such a column. *)
Definition write_row (st : ha_state S) (auto_increment : option Z) (uuid buf : bytes) : option (ha_state S * Z) :=
  match auto_increment with
  | Some e => if e =? 0 then
                match PackKeyRecord uuid buf with
                | Some (new_mono_key, new_rec) => Insert st buf new_mono_key new_rec
                | None => None
                end
              else Some (st, HA_ERR_ELOQ_AUTO_INCREMENT_FAILED)
  | None =>
      match PackKeyRecord uuid buf with
      | Some (new_mono_key, new_rec) => Insert st buf new_mono_key new_rec
      | None => None
      end
  end.

(** The key of a row that is in the table. *)
Definition row_pk (st : ha_state S) (buf : bytes) : option bytes :=
  if negb (table_has_hidden_pk (ha_table env)) then
    match key_of_record (ha_mem env) (pk_descr_ env) (ha_table env) buf false None false with
    | Some key => Some (packed_key_ key)
    | None => None
    end
  else Some (last_read_key_ st).

(** Key and record of the new row. *)
Definition new_row (st : ha_state S) (new_data : bytes) : option (bytes * EloqRecord) :=
  if negb (table_has_hidden_pk (ha_table env)) then PackKeyRecord [] new_data
  else match PackRecord new_data with Some rec => Some (last_read_key_ st, rec) | None => None end.

Definition update_row (st : ha_state S) (old_data new_data : bytes) : option (ha_state S * Z) :=
  match new_row st new_data, row_pk st old_data with
  | Some (new_primary_key, new_rec), Some old_primary_key =>
      let pk_changed :=
        if negb (table_has_hidden_pk (ha_table env))
        then key_neqb (key_of_bytes new_primary_key) (key_of_bytes old_primary_key) else false in
      if pk_changed then
        match Insert st new_data new_primary_key new_rec with
        | Some (st, rc) => if rc =? 0 then Delete st old_data old_primary_key else Some (st, rc)
        | None => None
        end
      else Update st new_data old_data new_primary_key new_rec
  | _, _ => None
  end.

Definition delete_row (st : ha_state S) (buf : bytes) : option (ha_state S * Z) :=
  match row_pk st buf with
  | Some del_key => Delete st buf del_key
  | None => None
  end.

End Handler.

End Handler.
