(* ===== verification/Consistency.v ===== *)
(** * Consistency: rows and index entries

    A table is a set of rows.  The data that the transaction service holds for
    it is consistent with the rows when the base table has one record per row
    and every index one entry per row and no others; [write_row], [update_row]
    and [delete_row] preserve this, whatever the order of the statements, and
    report a duplicate key only for one (storage/eloq/ha_eloq.cc). *)

From stdpp Require Import gmap strings.
From S2P Require Import Prelude Slice Buff Charset Latin1 Copy Collation Field Placement Store.
From S2P Require Import Codec Packing VarFormat SpacePad Varchar KeySetup KeyDef KeyOrder Index KeyRead PkTuple.
From S2P Require Import Neighbour Double EloqKey Restore RoundTrip Layout KeyTuple Row Entry Handler.
Import Field Packing KeyDef KeyOrder Index KeyRead PkTuple EloqKey Entry Handler.

Module Consistency.

(** ** What a transaction sees

    [pending]: the writes of the transaction, [Some None] for a deletion;
    [committed]: the data behind them.  Reads for update return what the
    transaction sees or fail; a write that succeeds is pending; [TxRevert]
    takes a pending write back. *)
Class TxLaws (S : Type) `{!TxService S} := {
  pending : S -> table_name -> bytes -> option (option EloqRecord);
  committed : S -> table_name -> bytes -> option EloqRecord;
  law_read s req s' r : tx_Read s req = (s', r) ->
    pending s' = pending s /\ committed s' = committed s /\
    match r with
    | inl e => e <> NO_ERROR
    | inr (status, rec, _) =>
        let seen := match pending s (req_table req) (req_key req) with
                    | Some w => w | None => committed s (req_table req) (req_key req) end in
        match status with
        | RecordNormal => seen = Some rec
        | RecordDeleted => seen = None
        | _ => req_for_update req = false
        end
    end;
  law_upsert s tn v key rec op s' : tx_Upsert s tn v key rec op = (s', NO_ERROR) ->
    committed s' = committed s /\
    forall tn' key', pending s' tn' key' = if decide (tn' = tn /\ key' = key) then Some rec else pending s tn' key';
  law_revert s tn key :
    committed (tx_Revert s tn key) = committed s /\
    forall tn' key', pending (tx_Revert s tn key) tn' key' =
      if decide (tn' = tn /\ key' = key) then None else pending s tn' key'
}.

Definition view {S : Type} `{!TxService S, !TxLaws S} (s : S) (tn : table_name) (key : bytes) : option EloqRecord :=
  match pending s tn key with Some w => w | None => committed s tn key end.

(** ** The entries of the rows

    What the statements need of packing: entries exist, their keys are the
    same however they are packed, and the key of an ordinary index tells the
    rows apart. *)
Class Entries (env : ha_env) (good : bytes -> bytes -> Prop) : Prop := {
  en_entry t k buf : t ∈ targets env -> good k buf ->
    exists key r r', entry env t (Some []) k buf = Some (key, r) /\ entry env t None k buf = Some (key, r') /\
      key_of_record (ha_mem env) (is_kd (t_index t)) (ha_table env) buf false (hidden_pk env k) (t_unique t) =
        Some (key_of_bytes key);
  en_apart t k1 k2 buf1 buf2 key r1 r2 : t ∈ targets env -> t_unique t = false -> good k1 buf1 -> good k2 buf2 ->
    entry env t (Some []) k1 buf1 = Some (key, r1) -> entry env t (Some []) k2 buf2 = Some (key, r2) -> k1 = k2;
  en_names : NoDup (base_table_name env :: map (fun t => is_name (t_index t)) (targets env));
  en_unique_first t1 t2 : t1 ∈ own_targets env -> t2 ∈ own_targets env -> (t_kid t1 < t_kid t2)%nat ->
    t_unique t2 = true -> t_unique t1 = true
}.

(** ** One index *)

Definition vupd (key : bytes) (w : option EloqRecord) (m : bytes -> option EloqRecord) : bytes -> option EloqRecord :=
  fun k => if decide (k = key) then w else m k.

Section Index.

Context (env : ha_env) (good : bytes -> bytes -> Prop) `{!Entries env good}.
Context (t : target) (Ht : t ∈ targets env).

(** The entries in [m] are those of the rows: an entry has the key of its row,
    and the record that was written for it or for an earlier version of the row
    with the same key. *)
Record index_consistent (rows : gmap bytes bytes) (m : bytes -> option EloqRecord) : Prop := {
  ic_good k buf : rows !! k = Some buf -> good k buf;
  ic_row k buf key r : rows !! k = Some buf -> entry env t (Some []) k buf = Some (key, r) ->
    exists r' buf', m key = Some r' /\ good k buf' /\ entry env t (Some []) k buf' = Some (key, r');
  ic_entry key r' : m key = Some r' ->
    exists k buf r, rows !! k = Some buf /\ entry env t (Some []) k buf = Some (key, r);
  ic_apart k1 k2 buf1 buf2 key r1 r2 : rows !! k1 = Some buf1 -> rows !! k2 = Some buf2 ->
    entry env t (Some []) k1 buf1 = Some (key, r1) -> entry env t (Some []) k2 buf2 = Some (key, r2) -> k1 = k2
}.

Lemma index_consistent_ext rows m m' :
  (forall key, m' key = m key) -> index_consistent rows m -> index_consistent rows m'.
Proof.
  intros Hm [H1 H2 H3 H4]. split; [done| |intros key r'; rewrite Hm; apply H3|done].
  intros k buf key r Hk He. rewrite Hm. by apply (H2 k buf key r).
Qed.

(** A key of an ordinary index that the row itself does not have is free. *)
Lemma ordinary_free rows m k buf key r :
  index_consistent rows m -> t_unique t = false -> good k buf ->
  entry env t (Some []) k buf = Some (key, r) ->
  (forall old r0, rows !! k = Some old -> entry env t (Some []) k old <> Some (key, r0)) -> m key = None.
Proof.
  intros Hic Hu Hg He Hk. destruct (m key) as [r'|] eqn:Hm; [|done].
  destruct (ic_entry _ _ Hic key r' Hm) as (k' & buf' & r'' & Hk' & He').
  rewrite (en_apart t k k' buf buf' key r r'') in Hk; try done; [|by eapply ic_good].
  by destruct (Hk buf' r'' Hk').
Qed.

Lemma index_insert rows m k buf key r :
  index_consistent rows m -> rows !! k = None -> good k buf -> m key = None ->
  entry env t (Some []) k buf = Some (key, r) ->
  index_consistent (<[k:=buf]> rows) (vupd key (Some r) m).
Proof.
  intros Hic Hk Hg Hm He.
  assert (forall k' buf' r', rows !! k' = Some buf' -> entry env t (Some []) k' buf' = Some (key, r') -> False) as Hfree.
  { intros k' buf' r' Hk' He'. destruct (ic_row _ _ Hic k' buf' key r' Hk' He') as (? & ? & ? & _). congruence. }
  split.
  - intros k' buf' [[<- <-]|[_ Hk']]%lookup_insert_Some; [done|by eapply ic_good].
  - intros k' buf' key' r' [[<- <-]|[Hne Hk']]%lookup_insert_Some He'; unfold vupd.
    + rewrite He in He'. injection He' as <- <-. rewrite decide_True by done. by exists r, buf.
    + rewrite decide_False by (intros ->; by eapply Hfree). by apply (ic_row _ _ Hic k' buf' key' r').
  - intros key' r'. unfold vupd. case_decide as Hkey.
    + intros [= <-]. subst. exists k, buf, r. by rewrite lookup_insert_eq.
    + intros Hm'. destruct (ic_entry _ _ Hic key' r' Hm') as (k' & buf' & r'' & Hk' & He').
      exists k', buf', r''. split; [|done]. rewrite lookup_insert_ne; [done|congruence].
  - intros k1 k2 b1 b2 key' r1 r2 [[<- <-]|[H1 Hk1]]%lookup_insert_Some [[<- <-]|[H2 Hk2]]%lookup_insert_Some E1 E2; try done.
    + rewrite He in E1. injection E1 as <- <-. by destruct (Hfree k2 b2 r2).
    + rewrite He in E2. injection E2 as <- <-. by destruct (Hfree k1 b1 r1).
    + by apply (ic_apart _ _ Hic k1 k2 b1 b2 key' r1 r2).
Qed.

Lemma index_delete rows m k buf key r :
  index_consistent rows m -> rows !! k = Some buf -> entry env t (Some []) k buf = Some (key, r) ->
  index_consistent (delete k rows) (vupd key None m).
Proof.
  intros Hic Hk He. split.
  - intros k' buf' [_ Hk']%lookup_delete_Some. by eapply ic_good.
  - intros k' buf' key' r' [Hne Hk']%lookup_delete_Some He'. unfold vupd. rewrite decide_False.
    + by apply (ic_row _ _ Hic k' buf' key' r').
    + intros ->. apply Hne. by apply (ic_apart _ _ Hic k k' buf buf' key r r').
  - intros key' r'. unfold vupd. case_decide as Hkey; [done|]. intros Hm.
    destruct (ic_entry _ _ Hic key' r' Hm) as (k' & buf' & r'' & Hk' & He').
    exists k', buf', r''. split; [|done]. apply lookup_delete_Some. split; [|done]. intros ->. congruence.
  - intros k1 k2 b1 b2 key' r1 r2 [_ H1]%lookup_delete_Some [_ H2]%lookup_delete_Some.
    by apply (ic_apart _ _ Hic).
Qed.

(** Changing a row whose key in the index stays the same. *)
Lemma index_keep rows m k old new key r r' :
  index_consistent rows m -> rows !! k = Some old -> good k new ->
  entry env t (Some []) k old = Some (key, r) -> entry env t (Some []) k new = Some (key, r') ->
  index_consistent (<[k:=new]> rows) m.
Proof.
  intros Hic Hk Hg He He'.
  assert (forall k' buf' key' r'', <[k:=new]> rows !! k' = Some buf' -> entry env t (Some []) k' buf' = Some (key', r'') ->
    exists buf0 r0, rows !! k' = Some buf0 /\ entry env t (Some []) k' buf0 = Some (key', r0)) as Hback.
  { intros k' buf' key' r'' [[<- <-]|[_ Hk']]%lookup_insert_Some E; [|by exists buf', r''].
    rewrite He' in E. injection E as <- <-. by exists old, r. }
  split.
  - intros k' buf' [[<- <-]|[_ Hk']]%lookup_insert_Some; [done|by eapply ic_good].
  - intros k' buf' key' r'' Hk' E. destruct (Hback _ _ _ _ Hk' E) as (b0 & r1 & H1 & H2).
    by apply (ic_row _ _ Hic k' b0 key' r1).
  - intros key' r'' Hm'. destruct (ic_entry _ _ Hic key' r'' Hm') as (k' & b0 & r1 & H1 & H2).
    destruct (decide (k' = k)) as [->|Hne].
    + rewrite Hk in H1. injection H1 as <-. rewrite He in H2. injection H2 as <- <-.
      exists k, new, r'. by rewrite lookup_insert_eq.
    + exists k', b0, r1. by rewrite lookup_insert_ne.
  - intros k1 k2 b1 b2 key' r1 r2 H1 H2 E1 E2.
    destruct (Hback _ _ _ _ H1 E1) as (c1 & q1 & F1 & G1). destruct (Hback _ _ _ _ H2 E2) as (c2 & q2 & F2 & G2).
    by apply (ic_apart _ _ Hic k1 k2 c1 c2 key' q1 q2).
Qed.

(** Changing a row whose key changes: the new entry is written first. *)
Lemma index_move rows m k old new key key' r r' :
  index_consistent rows m -> rows !! k = Some old -> good k new -> key' <> key ->
  entry env t (Some []) k old = Some (key, r) -> entry env t (Some []) k new = Some (key', r') ->
  m key' = None -> index_consistent (<[k:=new]> rows) (vupd key None (vupd key' (Some r') m)).
Proof.
  intros Hic Hk Hg Hne He He' Hm. pose proof (index_delete _ _ _ _ _ _ Hic Hk He) as Hd.
  apply (index_insert _ _ k new key' r') in Hd; try done.
  - rewrite insert_delete_eq in Hd. eapply index_consistent_ext; [|exact Hd].
    intros q. unfold vupd. repeat case_decide; congruence.
  - apply lookup_delete_eq.
  - unfold vupd. by rewrite decide_False.
Qed.

End Index.

(** ** The handler *)

Section Handler.

Context {S : Type} `{!TxService S, !TxLaws S} (storage_hd : option (DataStoreHandler S)).
Context (env : ha_env) (good : bytes -> bytes -> Prop) `{!Entries env good}.

(** What the handler's state shows of a table. *)
Definition sees (st : ha_state S) (tn : table_name) : bytes -> option EloqRecord := view (txm st) tn.

Definition same_data (s s' : S) : Prop :=
  committed s' = committed s /\ forall tn key, pending s' tn key = pending s tn key.

Lemma same_data_sees st st' tn key : same_data (txm st) (txm st') -> sees st' tn key = sees st tn key.
Proof. intros [Hc Hp]. unfold sees, view. by rewrite Hc, Hp. Qed.

(** The transaction sees the same, as it does after a read or a commit. *)
Definition same_view (s s' : S) : Prop := forall tn key, view s' tn key = view s tn key.

Lemma same_data_view s s' : same_data s s' -> same_view s s'.
Proof. intros [Hc Hp] tn key. unfold view. by rewrite Hc, Hp. Qed.

Lemma same_data_trans s1 s2 s3 : same_data s1 s2 -> same_data s2 s3 -> same_data s1 s3.
Proof. intros [H1 H2] [H3 H4]. split; [congruence|]. intros tn key. by rewrite H4, H2. Qed.

Lemma convert_tx_error_0 e : convert_tx_error e = 0 -> e = NO_ERROR.
Proof. by destruct e. Qed.

Lemma convert_tx_error_dup e : convert_tx_error e <> HA_ERR_FOUND_DUPP_KEY.
Proof. by destruct e. Qed.

(** Reading for update does not change the data; it fails, or tells whether
    there is a record. *)
Definition read_outcome (st' : ha_state S) (status : RecordStatus) (seen : option EloqRecord) : Prop :=
  match status with
  | RecordNormal => exists r, seen = Some r
  | RecordDeleted => seen = None
  | _ => tx_err_code_ st' <> NO_ERROR
  end.

Lemma PkRead_spec st key ts miss st' status : PkRead env st key true ts miss = (st', status) ->
  same_data (txm st) (txm st') /\ read_outcome st' status (sees st (base_table_name env) key).
Proof.
  unfold PkRead. destruct (tx_Read _ _) as [s r] eqn:E. apply law_read in E as (Hp & Hc & Hr).
  assert (same_data (txm st) s) as Hs by (split; [done|]; intros; by rewrite Hp).
  destruct r as [e|[[status' rec] ts']]; intros [= <- <-]; (split; [exact Hs|]); [done|].
  simpl in Hr. destruct status'; simpl; try done. by exists rec.
Qed.

Lemma SkRead_spec st index key st' status ts rec : SkRead storage_hd env st index key true = (st', (status, ts, rec)) ->
  same_data (txm st) (txm st') /\ read_outcome st' status (sees st (is_name index) key).
Proof.
  unfold SkRead. destruct (tx_Read _ _) as [s r] eqn:E. apply law_read in E as (Hp & Hc & Hr).
  assert (same_data (txm st) s) as Hs by (split; [done|]; intros; by rewrite Hp).
  destruct r as [e|[[status' rec'] ts']]; [intros [= <- <- _ _]; by split|].
  simpl in Hr. destruct status'; try done; intros [= <- <- _ _]; (split; [exact Hs|]); [by exists rec'|done].
Qed.

Lemma upsert_spec st index key rec op st' : upsert st index key rec op = (st', NO_ERROR) ->
  committed (txm st') = committed (txm st) /\
  forall tn key', pending (txm st') tn key' =
    if decide (tn = is_name index /\ key' = key) then Some rec else pending (txm st) tn key'.
Proof.
  unfold upsert. destruct (tx_Upsert _ _ _ _ _ _) as [s err] eqn:E. intros [= <- ->].
  rewrite decide_True by done. by apply law_upsert in E.
Qed.

Lemma upsert_sees st index key rec op st' tn : upsert st index key rec op = (st', NO_ERROR) ->
  forall key', sees st' tn key' = if decide (tn = is_name index) then vupd key rec (sees st tn) key' else sees st tn key'.
Proof.
  intros [Hc Hp]%upsert_spec key'. unfold sees, view, vupd. rewrite Hp, Hc. repeat case_decide; naive_solver.
Qed.

(** *** The loops that succeed

    Each index sees the change of its own entry and no other. *)

Definition loop_result (step : target -> (bytes -> option EloqRecord) -> (bytes -> option EloqRecord) -> Prop)
    (ts : list target) (st st' : ha_state S) : Prop :=
  (forall t, t ∈ ts -> step t (sees st (is_name (t_index t))) (sees st' (is_name (t_index t)))) /\
  (forall tn key, tn ∉ map (fun t => is_name (t_index t)) ts -> sees st' tn key = sees st tn key).

Definition respects (step : target -> (bytes -> option EloqRecord) -> (bytes -> option EloqRecord) -> Prop) : Prop :=
  forall t m1 m1' m2 m2', (forall k, m1 k = m1' k) -> (forall k, m2 k = m2' k) -> step t m1 m2 -> step t m1' m2'.

Lemma loop_result_cons step t ts st st1 st' : respects step ->
  NoDup (map (fun t => is_name (t_index t)) (t :: ts)) ->
  step t (sees st (is_name (t_index t))) (sees st1 (is_name (t_index t))) ->
  (forall tn key, tn <> is_name (t_index t) -> sees st1 tn key = sees st tn key) ->
  loop_result step ts st1 st' -> loop_result step (t :: ts) st st'.
Proof.
  intros Hr [Hnot _]%list.NoDup_cons Hstep Hother [Hts Hrest]. split.
  - intros t' [->|Ht']%elem_of_cons.
    + eapply Hr; [| |exact Hstep]; [done|]. intros k. by rewrite Hrest.
    + eapply Hr; [| |exact (Hts t' Ht')]; [|done]. intros k. rewrite Hother; [done|].
      intros Heq. apply Hnot. rewrite <- Heq. apply list_elem_of_fmap. by exists t'.
  - intros tn key Hn. apply not_elem_of_cons in Hn as [Hn1 Hn2]. by rewrite Hrest, Hother.
Qed.

(** *** Insert *)

Definition ins_step (k buf : bytes) (t : target) (m m' : bytes -> option EloqRecord) : Prop :=
  exists key r, entry env t (Some []) k buf = Some (key, r) /\ (t_unique t = true -> m key = None) /\
    forall q, m' q = vupd key (Some r) m q.

Lemma ins_step_respects k buf : respects (ins_step k buf).
Proof.
  intros t m1 m1' m2 m2' E1 E2 (key & r & He & Hu & Hm). exists key, r. split_and!; [done| |].
  - intros H. rewrite <- E1. by apply Hu.
  - intros q. rewrite <- E2, Hm. unfold vupd. case_decide; [done|apply E1].
Qed.

(** The keys that the entries of a row have in some indexes. *)
Definition touched (k buf : bytes) (ts : list target) (tn : table_name) (key : bytes) : Prop :=
  exists t r, t ∈ ts /\ is_name (t_index t) = tn /\ entry env t (Some []) k buf = Some (key, r).

#[local] Instance touched_dec k buf ts tn key : Decision (touched k buf ts tn key).
Proof.
  destruct (decide (Exists (fun t => is_name (t_index t) = tn /\ fst <$> entry env t (Some []) k buf = Some key) ts))
    as [H|H]; [left|right].
  - apply Exists_exists in H as (t & Hin & Hn & He). apply list_elem_of_In in Hin.
    destruct (entry env t (Some []) k buf) as [[key' r]|] eqn:E; [|done]. injection He as <-. by exists t, r.
  - intros (t & r & Hin & Hn & He). apply H, Exists_exists. exists t. rewrite list_elem_of_In in Hin.
    split_and!; [done..|by rewrite He].
Defined.

Lemma key_targets_ge kid keys schemas t : t ∈ key_targets env kid keys schemas -> (kid <= t_kid t)%nat.
Proof.
  revert kid schemas. induction keys as [|key keys IH]; intros kid [|i schemas]; simpl; try by intros H%elem_of_nil.
  case_decide.
  - intros H1%IH. lia.
  - intros [->|H1]%elem_of_cons; [simpl; lia|]. apply IH in H1. lia.
Qed.

Lemma key_targets_lt kid keys schemas pre t post t' :
  key_targets env kid keys schemas = pre ++ t :: post -> t' ∈ pre -> (t_kid t' < t_kid t)%nat.
Proof.
  revert kid schemas pre. induction keys as [|key keys IH]; intros kid [|i schemas] pre; simpl;
    try by intros H ?; destruct pre.
  case_decide; [apply IH|]. destruct pre as [|u pre]; [by intros _ H1%elem_of_nil|].
  intros [= <- E] [->|H1]%elem_of_cons.
  - simpl. apply (key_targets_ge (Datatypes.S kid) keys schemas). rewrite E. apply elem_of_app. right. apply list_elem_of_here.
  - by apply (IH _ _ _ E).
Qed.

(** A unique index is one of the table's own, and so are those before it. *)
Lemma targets_unique_split pre t ts :
  targets env = pre ++ t :: ts -> t_unique t = true -> exists post, own_targets env = pre ++ t :: post.
Proof.
  unfold targets. intros E Hu. apply app_eq_inv in E as [(l & E1 & E2)|(l & E1 & E2)].
  - destruct l as [|u l].
    + simpl in E2. assert (t ∈ dirty_targets env) as Hin by (rewrite <- E2; apply list_elem_of_here).
      apply list_elem_of_fmap in Hin as (i & -> & _). done.
    + injection E2 as <- _. by exists l.
  - assert (t ∈ dirty_targets env) as Hin by (rewrite E2; apply elem_of_app; right; apply list_elem_of_here).
    apply list_elem_of_fmap in Hin as (i & -> & _). done.
Qed.

Lemma revert_loop_spec k buf pre : good k buf -> forall st kid post,
  (forall t, t ∈ pre -> t ∈ targets env /\ (t_kid t < kid)%nat /\ t_unique t = true) ->
  (forall t, t ∈ post -> (kid <= t_kid t)%nat) ->
  exists st', revert_loop env st kid k buf (pre ++ post) = Some st' /\
    committed (txm st') = committed (txm st) /\
    forall tn key, (touched k buf pre tn key -> pending (txm st') tn key = None) /\
      (~ touched k buf pre tn key -> pending (txm st') tn key = pending (txm st) tn key).
Proof.
  intros Hg. induction pre as [|t pre IH]; intros st kid post Hpre Hpost.
  - exists st. split_and!; [|done|].
    + destruct post as [|t post]; [done|]. simpl. rewrite (proj2 (Nat.ltb_ge _ _)); [done|]. apply Hpost, list_elem_of_here.
    + intros tn key. split; [|done]. intros (t & r & H%elem_of_nil & _). done.
  - destruct (Hpre t ltac:(apply list_elem_of_here)) as (Hin & Hlt & Hu).
    destruct (en_entry t k buf Hin Hg) as (sk & r & r' & He & Hn & _).
    simpl. rewrite (proj2 (Nat.ltb_lt _ _)) by done. unfold entry in Hn. rewrite Hu in Hn. rewrite Hn.
    set (st1 := with_txm _ st).
    destruct (IH st1 kid post) as (st' & E & Hc & Hp); [|done|].
    { intros t' Ht'. apply Hpre. by apply list_elem_of_further. }
    destruct (law_revert (txm st) (is_name (t_index t)) sk) as [Hc1 Hp1].
    exists st'. split; [exact E|]. split; [by rewrite Hc|]. intros tn key. destruct (Hp tn key) as [Ht Hn'].
    assert (pending (txm st1) tn key = if decide (tn = is_name (t_index t) /\ key = sk) then None
      else pending (txm st) tn key) as E1 by apply Hp1.
    split.
    + intros (t' & r0 & [->|Hin']%elem_of_cons & <- & He').
      * rewrite He in He'. injection He' as <- <-. rewrite decide_True in E1 by done.
        destruct (Hp (is_name (t_index t)) sk) as [Ha Hb].
        destruct (decide (pending (txm st') (is_name (t_index t)) sk = None)) as [|Hne]; [done|].
        rewrite Hb in Hne; [done|]. intros Ht'. by apply Hne, Ha.
      * apply Ht. by exists t', r0.
    + intros Hnt. rewrite Hn', E1.
      * rewrite decide_False; [done|]. intros [-> ->]. apply Hnt. exists t, r. split; [apply list_elem_of_here|done].
      * intros (t' & r0 & Hin' & Hrest). apply Hnt. exists t', r0. split; [by apply list_elem_of_further|done].
Qed.

Definition kept_outside (k buf : bytes) (ts : list target) (s0 s : S) : Prop :=
  committed s = committed s0 /\
  forall tn key, ~ touched k buf ts tn key -> pending s tn key = pending s0 tn key.

(** The transaction has not deleted a committed entry that a unique index has
    under the key of the row. *)
Definition clean (k buf : bytes) (s : S) : Prop :=
  forall t key r, t ∈ own_targets env -> t_unique t = true -> entry env t (Some []) k buf = Some (key, r) ->
    view s (is_name (t_index t)) key = None -> committed s (is_name (t_index t)) key = None.

(** The keys of the row are free in the unique ones of some indexes. *)
Definition free_in (k buf : bytes) (ts : list target) (s : S) : Prop :=
  forall t key r, t ∈ ts -> t_unique t = true -> entry env t (Some []) k buf = Some (key, r) ->
    view s (is_name (t_index t)) key = None.

(** A unique index where the key of the row is taken. *)
Definition taken (k buf : bytes) (s : S) (kid : option nat) : Prop :=
  exists t key r r', t ∈ own_targets env /\ t_unique t = true /\ kid = Some (t_kid t) /\
    entry env t (Some []) k buf = Some (key, r) /\ view s (is_name (t_index t)) key = Some r'.

Lemma names_NoDup : NoDup (map (fun t => is_name (t_index t)) (targets env)).
Proof. pose proof en_names as H. by apply list.NoDup_cons in H as [_ H]. Qed.

Lemma touched_name k buf pre t ts key :
  targets env = pre ++ t :: ts -> ~ touched k buf pre (is_name (t_index t)) key.
Proof.
  intros E (t' & r & Hin & Hn & _). pose proof names_NoDup as H. rewrite E, map_app in H.
  apply list.NoDup_app in H as (_ & H & _). apply (H (is_name (t_index t))).
  - rewrite <- Hn. apply list_elem_of_fmap. by exists t'.
  - apply list_elem_of_here.
Qed.

Lemma kept_outside_same k buf pre s0 s s' : same_data s s' -> kept_outside k buf pre s0 s -> kept_outside k buf pre s0 s'.
Proof. intros [Hc Hp] [Hc' Hp']. split; [by rewrite Hc|]. intros tn key Hn. by rewrite Hp, Hp'. Qed.

Lemma kept_outside_upsert k buf pre t s0 st key r rec op st' :
  entry env t (Some []) k buf = Some (key, r) -> upsert st (t_index t) key rec op = (st', NO_ERROR) ->
  kept_outside k buf pre s0 (txm st) -> kept_outside k buf (pre ++ [t]) s0 (txm st').
Proof.
  intros He [Hc Hp]%upsert_spec [Hc0 Hp0]. split; [by rewrite Hc|]. intros tn key' Hn. rewrite Hp.
  rewrite decide_False, Hp0; [done| |].
  - intros (t' & r' & Hin & Hrest). apply Hn. exists t', r'. split; [apply elem_of_app; by left|done].
  - intros [-> ->]. apply Hn. exists t, r. split; [apply elem_of_app; right; apply list_elem_of_here|done].
Qed.

(** A row that was refused for its key in a unique index: the indexes before
    this one are unique and had no entry for the key of the row; where [TxRevert]
    took the new entry back, the committed one is seen again. *)
Definition refused (k buf : bytes) (s0 : S) (st' : ha_state S) : Prop :=
  exists pre t post, own_targets env = pre ++ t :: post /\ errkey st' = Some (t_kid t) /\
    taken k buf s0 (Some (t_kid t)) /\ (forall t', t' ∈ pre -> t_unique t' = true) /\ free_in k buf pre s0 /\
    forall tn key, (touched k buf pre tn key -> view (txm st') tn key = committed s0 tn key) /\
      (~ touched k buf pre tn key -> view (txm st') tn key = view s0 tn key).

Lemma insert_duplicate k buf s0 pre t ts st key r seen :
  good k buf -> targets env = pre ++ t :: ts -> t_unique t = true -> entry env t (Some []) k buf = Some (key, r) ->
  kept_outside k buf pre s0 (txm st) -> free_in k buf pre s0 -> sees st (is_name (t_index t)) key = Some seen ->
  exists st', revert_loop env st (t_kid t) k buf (own_targets env) = Some st' /\
    refused k buf s0 (with_errkey (Some (t_kid t)) st').
Proof.
  intros Hg E Hu He [Hc Hp] Hfree Hs. destruct (targets_unique_split _ _ _ E Hu) as [post Eown].
  assert (t ∈ own_targets env) as Hown by (rewrite Eown; apply elem_of_app; right; apply list_elem_of_here).
  assert (forall t', t' ∈ pre -> t' ∈ own_targets env /\ (t_kid t' < t_kid t)%nat /\ t_unique t' = true) as Hpre.
  { intros t' Ht'. assert (t' ∈ own_targets env) as Ho by (rewrite Eown; apply elem_of_app; by left).
    assert (t_kid t' < t_kid t)%nat as Hlt by by eapply key_targets_lt.
    split_and!; [done|done|]. by apply (en_unique_first t' t). }
  destruct (revert_loop_spec k buf pre Hg st (t_kid t) (t :: post)) as (st' & Er & Hc' & Hp').
  { intros t' Ht'. destruct (Hpre t' Ht') as (Ho & ? & ?). split_and!; try done. apply elem_of_app. by left. }
  { intros t' [->|Ht']%elem_of_cons; [lia|]. apply Nat.lt_le_incl.
    apply list_elem_of_split in Ht' as (l1 & l2 & ->).
    apply (key_targets_lt 0 (key_info (ha_table env)) (IndexNameSchema env) (pre ++ t :: l1) t' l2 t).
    - unfold own_targets in Eown. by rewrite Eown, <- app_assoc.
    - apply elem_of_app. right. apply list_elem_of_here. }
  rewrite <- Eown in Er. exists st'. split; [done|]. exists pre, t, post. split_and!; try done.
  - exists t, key, r, seen. split_and!; try done. rewrite <- Hs. unfold sees, view. rewrite Hc, Hp; [done|].
    by eapply touched_name.
  - intros t' Ht'. by destruct (Hpre t' Ht') as (_ & _ & ?).
  - intros tn key'. destruct (Hp' tn key') as [H1 H2]. simpl. unfold view. rewrite Hc', Hc.
    split; intros Ht; [by rewrite H1|by rewrite H2, Hp].
Qed.

(** With clean data nothing changes. *)
Lemma refused_clean k buf s0 st' : refused k buf s0 st' -> clean k buf s0 -> same_view s0 (txm st').
Proof.
  intros (pre & t & post & E & _ & _ & Hu & Hfree & Hv) Hcl tn key. destruct (Hv tn key) as [H1 H2].
  destruct (decide (touched k buf pre tn key)) as [Ht|Ht]; [|by apply H2]. rewrite (H1 Ht).
  destruct Ht as (t' & r & Hin & <- & He). pose proof (Hfree t' key r Hin (Hu t' Hin) He) as Hn.
  rewrite Hn. apply (Hcl t' key r); try done; [|by apply Hu]. rewrite E. apply elem_of_app. by left.
Qed.

(** Otherwise the entry that the transaction had deleted is back. *)
Lemma refused_restored k buf s0 st' t key r kid :
  refused k buf s0 st' -> errkey st' = Some kid -> t ∈ own_targets env -> (t_kid t < kid)%nat ->
  entry env t (Some []) k buf = Some (key, r) ->
  view s0 (is_name (t_index t)) key = None /\
  view (txm st') (is_name (t_index t)) key = committed s0 (is_name (t_index t)) key.
Proof.
  intros (pre & u & post & E & Hk & _ & Hu & Hfree & Hv) Hk' Ht Hlt He.
  rewrite Hk in Hk'. injection Hk' as <-.
  assert (t ∈ pre) as Hin.
  { rewrite E in Ht. apply elem_of_app in Ht as [?|[->|Ht]%elem_of_cons]; [done|lia|].
    apply list_elem_of_split in Ht as (l1 & l2 & ->). exfalso.
    assert (t_kid u < t_kid t)%nat; [|lia].
    apply (key_targets_lt 0 (key_info (ha_table env)) (IndexNameSchema env) (pre ++ u :: l1) t l2 u).
    - unfold own_targets in E. by rewrite E, <- app_assoc.
    - apply elem_of_app. right. apply list_elem_of_here. }
  split; [by apply (Hfree t key r Hin (Hu t Hin))|]. apply Hv. by exists t, r.
Qed.

(** The outcomes of the loop: every entry is written; a duplicate, with the
    entries taken back; or another error. *)
Definition insert_outcome (k buf : bytes) (s0 : S) (ts : list target) (st st' : ha_state S) (o : option Z) : Prop :=
  match o with
  | None => loop_result (ins_step k buf) ts st st'
  | Some rc => rc <> 0 /\ (rc = HA_ERR_FOUND_DUPP_KEY ->
      dup_errkey_ st' = errkey st' /\ refused k buf s0 st')
  end.

Lemma insert_outcome_error k buf s0 ts st st' : tx_err_code_ st' <> NO_ERROR ->
  insert_outcome k buf s0 ts st st' (Some (convert_tx_error (tx_err_code_ st'))).
Proof. intros He. split; [by intros ?%convert_tx_error_0|]. by intros ?%convert_tx_error_dup. Qed.

(** Writing an entry whose key is free. *)
Lemma insert_outcome_cons k buf s0 t ts st st1 st2 st' o key r :
  NoDup (map (fun t => is_name (t_index t)) (t :: ts)) -> entry env t (Some []) k buf = Some (key, r) ->
  same_data (txm st) (txm st1) -> (t_unique t = true -> sees st (is_name (t_index t)) key = None) ->
  upsert st1 (t_index t) key (Some r) OpInsert = (st2, NO_ERROR) ->
  insert_outcome k buf s0 ts st2 st' o -> insert_outcome k buf s0 (t :: ts) st st' o.
Proof.
  intros Hnd He Hs Hfree Eu. destruct o; [done|]. pose proof (fun tn => upsert_sees _ _ _ _ _ _ tn Eu) as Hv.
  apply (loop_result_cons _ t ts st st2); try done; [apply ins_step_respects| |].
  - exists key, r. split_and!; [done|done|]. intros q. rewrite Hv, decide_True by done. unfold vupd.
    case_decide; [done|]. by apply same_data_sees.
  - intros tn key' Hne. rewrite Hv, decide_False by done. by apply same_data_sees.
Qed.

Lemma free_in_snoc k buf pre t ts s0 (st : ha_state S) key r :
  targets env = pre ++ t :: ts -> kept_outside k buf pre s0 (txm st) -> free_in k buf pre s0 ->
  entry env t (Some []) k buf = Some (key, r) -> (t_unique t = true -> sees st (is_name (t_index t)) key = None) ->
  free_in k buf (pre ++ [t]) s0.
Proof.
  intros E [Hc Hp] Hf He Hn t' key' r' [Hin|Hin%list_elem_of_singleton]%elem_of_app Hu He'; [by eapply Hf|].
  subst t'. rewrite He in He'. injection He' as <- <-. rewrite <- (Hn Hu). unfold sees, view.
  rewrite Hc, Hp; [done|]. by eapply touched_name.
Qed.

Lemma insert_loop_spec k buf s0 : good k buf -> forall ts pre st,
  targets env = pre ++ ts -> kept_outside k buf pre s0 (txm st) -> free_in k buf pre s0 ->
  exists st' o, insert_loop storage_hd env st k buf ts = Some (st', o) /\ insert_outcome k buf s0 ts st st' o.
Proof.
  intros Hg. induction ts as [|t ts IH]; intros pre st E Hk Hf.
  { exists st, None. split; [done|]. split; [|done]. intros t H%elem_of_nil. done. }
  assert (t ∈ targets env) as Hin by (rewrite E; apply elem_of_app; right; apply list_elem_of_here).
  assert (NoDup (map (fun t => is_name (t_index t)) (t :: ts))) as Hnd.
  { pose proof names_NoDup as H. rewrite E, map_app in H. by apply list.NoDup_app in H as (_ & _ & H). }
  destruct (en_entry t k buf Hin Hg) as (key & r & _ & He & _).
  cbn [insert_loop]. rewrite He. cbv zeta.
  set (cont := fun st => let '(st, err) := upsert st (t_index t) key (Some r) OpInsert in
    if decide (err = NO_ERROR) then insert_loop storage_hd env st k buf ts else Some (st, Some HA_ERR_OUT_OF_MEM)).
  assert (forall st1, same_data (txm st) (txm st1) -> (t_unique t = true -> sees st (is_name (t_index t)) key = None) ->
    exists st' o, cont st1 = Some (st', o) /\ insert_outcome k buf s0 (t :: ts) st st' o) as Hcont.
  { intros st1 Hs Hfree. unfold cont. destruct (upsert st1 _ _ _ _) as [st2 err] eqn:Eu.
    case_decide as Herr; [|by exists st2, (Some HA_ERR_OUT_OF_MEM)]. subst err.
    destruct (IH (pre ++ [t]) st2) as (st' & o & Eo & Ho); [by rewrite <- app_assoc| | |].
    - apply (kept_outside_upsert k buf pre t s0 st1 key r (Some r) OpInsert); try done. by eapply kept_outside_same.
    - by eapply (free_in_snoc k buf pre t ts s0 st).
    - exists st', o. split; [exact Eo|]. by eapply insert_outcome_cons. }
  destruct (t_unique t) eqn:Hu; [|by apply Hcont].
  destruct (SkRead _ _ _ _ _ _) as [st1 [[status ts'] rec]] eqn:Es. apply SkRead_spec in Es as [Hs Hr].
  destruct status; simpl in Hr; [|by apply Hcont|..];
    try (eexists _, _; split; [reflexivity|by apply insert_outcome_error]).
  destruct Hr as [seen Hseen]. destruct (insert_duplicate k buf s0 pre t ts st1 key r seen) as (st' & -> & Hr); try done.
  - by eapply kept_outside_same.
  - by rewrite (same_data_sees st st1).
  - eexists _, _. split; [reflexivity|]. by split.
Qed.

(** *** Consistent data *)

(** The record of a row in the base table. *)
Definition row_record (buf : bytes) : option EloqRecord :=
  match PackRecord env buf with
  | None => None
  | Some rec =>
      if negb (table_has_hidden_pk (ha_table env)) then
        match pack_record (ha_mem env) (pk_descr_ env) (ha_table env) buf (Some []) false None 0 with
        | None => None
        | Some st => Some {| encoded_blob_ := encoded_blob_ rec;
                             unpack_info_ := match ps_unpack_info st with Some w => w | None => [] end |}
        end
      else Some rec
  end.

Record consistent (rows : gmap bytes bytes) (s : S) : Prop := {
  co_good k buf : rows !! k = Some buf -> good k buf;
  co_base k : view s (base_table_name env) k = rows !! k ≫= row_record;
  co_record k buf : rows !! k = Some buf -> is_Some (row_record buf);
  co_index t : t ∈ targets env -> index_consistent env good t rows (view s (is_name (t_index t)))
}.

Lemma consistent_view rows s s' : same_view s s' -> consistent rows s -> consistent rows s'.
Proof.
  intros Hv [H1 H2 H3 H4]. split; [done| |done|].
  - intros k. by rewrite Hv.
  - intros t Ht. eapply index_consistent_ext; [|by apply H4]. intros key. apply Hv.
Qed.

Lemma consistent_same rows s s' : same_data s s' -> consistent rows s -> consistent rows s'.
Proof. intros H. by apply consistent_view, same_data_view. Qed.

(** The loop over the indexes, and then the base table: consistent data when
    the loop made the change of the rows in every index. *)
Lemma loop_consistent rows rows' step st st1 st2 k rec :
  loop_result step (targets env) st st1 ->
  (forall tn key, sees st2 tn key =
     if decide (tn = base_table_name env) then vupd k rec (sees st1 tn) key else sees st1 tn key) ->
  consistent rows (txm st) ->
  (forall k' buf, rows' !! k' = Some buf -> good k' buf /\ is_Some (row_record buf)) ->
  (forall k', rows' !! k' ≫= row_record = if decide (k' = k) then rec else rows !! k' ≫= row_record) ->
  (forall t m m', t ∈ targets env -> step t m m' -> index_consistent env good t rows m ->
     index_consistent env good t rows' m') ->
  consistent rows' (txm st2).
Proof.
  intros [Hts Hrest] Hv Hco Hgood Hrow Hstep.
  unfold sees in *. pose proof en_names as [Hb _]%list.NoDup_cons. split.
  - intros k' buf Hk'. by apply Hgood.
  - intros k'. rewrite Hv, decide_True by done. unfold vupd. rewrite Hrow.
    case_decide; [done|]. rewrite Hrest by done. apply (co_base _ _ Hco).
  - intros k' buf Hk'. by apply (Hgood k').
  - intros t Ht. assert (is_name (t_index t) <> base_table_name env) as Hne.
    { intros Heq. apply Hb. rewrite <- Heq. apply list_elem_of_fmap. by exists t. }
    eapply index_consistent_ext; [intros key; rewrite Hv; by rewrite decide_False|].
    eapply Hstep; [done|by apply Hts|by apply (co_index _ _ Hco)].
Qed.

Lemma statement_consistent rows rows' step st st1 st2 k rec op :
  loop_result step (targets env) st st1 -> upsert st1 (base_index env) k rec op = (st2, NO_ERROR) ->
  consistent rows (txm st) ->
  (forall k' buf, rows' !! k' = Some buf -> good k' buf /\ is_Some (row_record buf)) ->
  (forall k', rows' !! k' ≫= row_record = if decide (k' = k) then rec else rows !! k' ≫= row_record) ->
  (forall t m m', t ∈ targets env -> step t m m' -> index_consistent env good t rows m ->
     index_consistent env good t rows' m') ->
  consistent rows' (txm st2).
Proof.
  intros Hl Eu. apply (loop_consistent rows rows' step st st1 st2 k rec Hl). intros tn. by apply (upsert_sees _ _ _ _ _ _ tn Eu).
Qed.

(** A row that is inserted. *)
Lemma insert_consistent rows st st1 st2 k buf rec :
  loop_result (ins_step k buf) (targets env) st st1 ->
  (forall tn key, sees st2 tn key =
     if decide (tn = base_table_name env) then vupd k (Some rec) (sees st1 tn) key else sees st1 tn key) ->
  consistent rows (txm st) -> good k buf -> row_record buf = Some rec -> rows !! k = None ->
  consistent (<[k:=buf]> rows) (txm st2).
Proof.
  intros Hl Hv Hco Hg Hrec Hk. eapply (loop_consistent rows (<[k:=buf]> rows)); [exact Hl|exact Hv|done|..].
  - intros k' b [[<- <-]|[_ Hk']]%lookup_insert_Some; [by rewrite Hrec|].
    split; [by eapply co_good|by eapply co_record].
  - intros k'. case_decide as Hk'; [subst; by rewrite lookup_insert_eq|by rewrite lookup_insert_ne].
  - intros t m m' Ht (key & r & He & Hu & Hm) Hic. eapply index_consistent_ext; [exact Hm|].
    apply index_insert; try done. destruct (t_unique t) eqn:E; [by apply Hu|].
    eapply (ordinary_free env good t Ht); try done. intros old r0. by rewrite Hk.
Qed.

(** A row of the table has the same primary key, or the same key in a unique
    index. *)
Definition duplicate (rows : gmap bytes bytes) (k buf : bytes) (kid : option nat) : Prop :=
  kid = primary_key (ha_table env) /\ is_Some (rows !! k) \/
  exists t k' buf' key r r', t ∈ own_targets env /\ t_unique t = true /\ kid = Some (t_kid t) /\
    rows !! k' = Some buf' /\ entry env t (Some []) k' buf' = Some (key, r') /\
    entry env t (Some []) k buf = Some (key, r).

Lemma own_target t : t ∈ own_targets env -> t ∈ targets env.
Proof. intros H. apply elem_of_app. by left. Qed.

Lemma taken_duplicate rows k buf s kid : consistent rows s -> taken k buf s kid -> duplicate rows k buf kid.
Proof.
  intros Hco (t & key & r & r' & Ho & Hu & -> & He & Hs).
  destruct (ic_entry _ _ _ _ _ (co_index _ _ Hco t (own_target t Ho)) key r' Hs) as (k' & buf' & r0 & Hk' & He').
  right. by exists t, k', buf', key, r, r0.
Qed.

Lemma kept_outside_refl k buf s : kept_outside k buf [] s s.
Proof. by split. Qed.

(** Looking up the primary key. *)
Lemma insert_read rows st k :
  consistent rows (txm st) ->
  exists st1 status,
    (if pk_check_skipped env st then (st, RecordDeleted) else PkRead env st k true 0 true) = (st1, status) /\
    same_data (txm st) (txm st1) /\
    match status with
    | RecordNormal => is_Some (rows !! k)
    | RecordDeleted => pk_check_skipped env st = false -> rows !! k = None
    | _ => tx_err_code_ st1 <> NO_ERROR
    end.
Proof.
  intros Hco. destruct (pk_check_skipped env st); [by exists st, RecordDeleted; split_and!|].
  destruct (PkRead _ _ _ _ _ _) as [st1 status] eqn:Ep. apply PkRead_spec in Ep as [Hs Hr].
  exists st1, status. split_and!; [done|done|]. unfold sees in Hr. rewrite (co_base _ _ Hco) in Hr.
  destruct status; simpl in Hr; try done; destruct (rows !! k) as [b|] eqn:Ek; try done.
  - by destruct Hr.
  - simpl in Hr. destruct (co_record _ _ Hco k b Ek). congruence.
Qed.

(** How an insertion reports a duplicate: for the primary key, and nothing has
    been written, or for a unique index. *)
Definition refused_row (rows : gmap bytes bytes) (k buf : bytes) (s : S) (st' : ha_state S) : Prop :=
  dup_errkey_ st' = errkey st' /\
  (errkey st' = primary_key (ha_table env) /\ is_Some (rows !! k) /\ same_view s (txm st') \/ refused k buf s st').

Lemma refused_row_duplicate rows k buf s st' :
  consistent rows s -> refused_row rows k buf s st' -> duplicate rows k buf (errkey st').
Proof.
  intros Hco [_ [(? & ? & _)|(pre & t & post & _ & -> & Ht & _)]]; [by left|]. by eapply taken_duplicate.
Qed.

Lemma refused_row_consistent rows k buf s st' :
  consistent rows s -> refused_row rows k buf s st' -> clean k buf s -> consistent rows (txm st').
Proof.
  intros Hco [_ [(_ & _ & Hv)|Hr]] Hcl; [by eapply consistent_view|].
  eapply consistent_view; [by eapply refused_clean|done].
Qed.

Lemma refused_same k buf s s' st' : same_data s s' -> refused k buf s' st' -> refused k buf s st'.
Proof.
  intros Hs (pre & t & post & E & Hk & Ht & Hu & Hfree & Hv). pose proof (same_data_view _ _ Hs) as Hw.
  exists pre, t, post. split_and!; try done.
  - destruct Ht as (t' & key & r & r' & Ht). exists t', key, r, r'. by rewrite <- Hw.
  - intros t' key r Hin Hu' He. rewrite <- Hw. by eapply Hfree.
  - intros tn key. rewrite <- Hw. destruct Hs as [<- _]. apply Hv.
Qed.

Lemma Insert_returns (st : ha_state S) buf k rec : good k buf ->
  exists st' rc, Insert storage_hd env st buf k rec = Some (st', rc).
Proof.
  intros Hg. unfold Insert. destruct (if pk_check_skipped _ _ then _ else _) as [st1 status].
  destruct status; try by eexists _, _.
  destruct (insert_loop_spec k buf (txm st1) Hg (targets env) [] st1 eq_refl ltac:(apply kept_outside_refl))
    as (st2 & o & -> & _); [by intros t key r H%elem_of_nil|].
  destruct o; [by eexists _, _|]. destruct (upsert st2 _ _ _ _). by eexists _, _.
Qed.

Lemma Insert_spec rows st buf k rec :
  consistent rows (txm st) -> good k buf -> row_record buf = Some rec ->
  exists st' rc, Insert storage_hd env st buf k rec = Some (st', rc) /\
    (rc = 0 -> (pk_check_skipped env st = false -> rows !! k = None) /\
       (rows !! k = None -> consistent (<[k:=buf]> rows) (txm st'))) /\
    (rc = HA_ERR_FOUND_DUPP_KEY -> refused_row rows k buf (txm st) st').
Proof.
  intros Hco Hg Hrec. unfold Insert.
  destruct (insert_read rows st k Hco) as (st1 & status & -> & Hs & Hst).
  pose proof (consistent_same _ _ _ Hs Hco) as Hco1.
  destruct status; try (eexists _, _; split; [reflexivity|]; split;
    [by intros ?%convert_tx_error_0|by intros ?%convert_tx_error_dup]).
  - eexists _, _. split; [reflexivity|]. split; [done|]. intros _. split; [done|]. left.
    split_and!; [done|done|by apply same_data_view].
  - destruct (insert_loop_spec k buf (txm st1) Hg (targets env) [] st1 eq_refl ltac:(apply kept_outside_refl))
      as (st2 & o & -> & Ho); [by intros t key r H%elem_of_nil|].
    destruct o as [rc|].
    + eexists _, _. split; [reflexivity|]. destruct Ho as [H0 Hd]. split; [done|]. intros ->.
      destruct (Hd eq_refl) as (He & Hr). split; [done|]. right. by eapply refused_same.
    + destruct (upsert st2 _ _ _ _) as [st3 err] eqn:Eu. eexists _, _. split; [reflexivity|].
      case_decide as Herr; [|done]. subst err. split; [|done]. intros _. split; [done|]. intros Hnone.
      apply (insert_consistent rows st1 st2 st3 k buf rec); try done. intros tn. by apply (upsert_sees _ _ _ _ _ _ tn Eu).
Qed.

(** *** Delete *)

Definition del_step (k old : bytes) (t : target) (m m' : bytes -> option EloqRecord) : Prop :=
  exists key r, entry env t (Some []) k old = Some (key, r) /\ forall q, m' q = vupd key None m q.

Lemma del_step_respects k old : respects (del_step k old).
Proof.
  intros t m1 m1' m2 m2' E1 E2 (key & r & He & Hm). exists key, r. split; [done|].
  intros q. rewrite <- E2, Hm. unfold vupd. case_decide; [done|apply E1].
Qed.

Lemma delete_loop_spec k old ts : good k old -> (forall t, t ∈ ts -> t ∈ targets env) ->
  NoDup (map (fun t => is_name (t_index t)) ts) -> forall st,
  exists st' o, delete_loop env st old k ts = Some (st', o) /\
    match o with
    | None => loop_result (del_step k old) ts st st'
    | Some rc => rc = HA_ERR_OUT_OF_MEM
    end.
Proof.
  intros Hg. induction ts as [|t ts IH]; intros Hts Hnd st.
  { exists st, None. split; [done|]. split; [|done]. intros t H%elem_of_nil. done. }
  destruct (en_entry t k old) as (key & r & _ & He & _ & Hk); [apply Hts, list_elem_of_here|done|].
  cbn [delete_loop]. rewrite Hk. cbn [packed_key_ key_of_bytes].
  destruct (upsert st _ _ _ _) as [st1 err] eqn:Eu. case_decide; [|by eexists _, _]. subst err.
  destruct (IH (fun t' H => Hts t' (list_elem_of_further _ _ _ H)) (proj2 (proj1 (list.NoDup_cons _ _) Hnd)) st1)
    as (st' & o & -> & Ho).
  exists st', o. split; [done|]. destruct o; [done|]. pose proof (fun tn => upsert_sees _ _ _ _ _ _ tn Eu) as Hv.
  apply (loop_result_cons _ t ts st st1); try done; [apply del_step_respects| |].
  - exists key, r. split; [done|]. intros q. by rewrite Hv, decide_True.
  - intros tn q Hne. by rewrite Hv, decide_False.
Qed.

Lemma Delete_returns st old k : good k old ->
  exists st' rc, Delete env st old k = Some (st', rc) /\ (rc = 0 \/ rc = HA_ERR_OUT_OF_MEM).
Proof.
  intros Hg. unfold Delete. destruct (delete_loop_spec k old (targets env) Hg ltac:(done) names_NoDup st) as (st1 & o & -> & Ho).
  destruct o as [rc|]; [subst; eexists _, _; split; [reflexivity|by right]|].
  destruct (upsert st1 _ _ _ _) as [st2 err]. eexists _, _. split; [reflexivity|]. case_decide; [by left|by right].
Qed.

Lemma Delete_spec rows st old k :
  consistent rows (txm st) -> rows !! k = Some old ->
  exists st' rc, Delete env st old k = Some (st', rc) /\
    (rc = 0 \/ rc = HA_ERR_OUT_OF_MEM) /\ (rc = 0 -> consistent (delete k rows) (txm st')).
Proof.
  intros Hco Hk. unfold Delete.
  destruct (delete_loop_spec k old (targets env) (co_good _ _ Hco k old Hk) ltac:(done) names_NoDup st)
    as (st1 & o & -> & Ho).
  destruct o as [rc|]; [subst; eexists _, _; split; [reflexivity|]; split; [by right|done]|].
  destruct (upsert st1 _ _ _ _) as [st2 err] eqn:Eu. eexists _, _. split; [reflexivity|].
  case_decide; [|split; [by right|done]]. subst err. split; [by left|]. intros _.
  eapply (statement_consistent rows (delete k rows)); [exact Ho|exact Eu|done|..].
  - intros k' b [_ Hk']%lookup_delete_Some. split; [by eapply co_good|by eapply co_record].
  - intros k'. case_decide as He; [subst; by rewrite lookup_delete_eq|by rewrite lookup_delete_ne].
  - intros t m m' Ht (key & r & He & Hm) Hic. eapply index_consistent_ext; [exact Hm|]. by eapply index_delete.
Qed.

(** *** Update *)

Definition upd_step (k old new : bytes) (t : target) (m m' : bytes -> option EloqRecord) : Prop :=
  exists key r key' r', entry env t (Some []) k old = Some (key, r) /\ entry env t (Some []) k new = Some (key', r') /\
    if decide (key' = key) then forall q, m' q = m q
    else (t_unique t = true -> m key' = None) /\ forall q, m' q = vupd key None (vupd key' (Some r') m) q.

Lemma upd_step_respects k old new : respects (upd_step k old new).
Proof.
  intros t m1 m1' m2 m2' E1 E2 (key & r & key' & r' & He & He' & Hm). exists key, r, key', r'. split_and!; try done.
  case_decide; [intros q; by rewrite <- E1, <- E2|]. destruct Hm as [Hu Hm]. split.
  - intros H'. rewrite <- E1. by apply Hu.
  - intros q. rewrite <- E2, Hm. unfold vupd. repeat case_decide; try done.
Qed.

(** The new key of the row is taken in a unique index. *)
Definition update_taken (k old new : bytes) (st0 st : ha_state S) : Prop :=
  exists t key r key' r' seen, t ∈ targets env /\ t_unique t = true /\ errkey st = Some (t_kid t) /\
    dup_errkey_ st = errkey st /\ entry env t (Some []) k old = Some (key, r) /\
    entry env t (Some []) k new = Some (key', r') /\ key' <> key /\ sees st0 (is_name (t_index t)) key' = Some seen.

Definition update_outcome (k old new : bytes) (ts : list target) (st0 st st' : ha_state S) (o : option Z) : Prop :=
  match o with
  | None => loop_result (upd_step k old new) ts st st'
  | Some rc => rc <> 0 /\ (rc = HA_ERR_FOUND_DUPP_KEY -> update_taken k old new st0 st')
  end.

Lemma key_eqb_bytes a b : key_eqb (key_of_bytes a) (key_of_bytes b) = bool_decide (a = b).
Proof.
  unfold key_eqb, key_of_bytes. simpl. rewrite Slice.compare_lex. pose proof (lex_cmp_Eq a b) as H.
  case_bool_decide; destruct (lex_cmp a b); intuition congruence.
Qed.

(** Replacing the entry of the row, when the new key is free. *)
Lemma update_outcome_cons k old new t ts st0 st st1 st2 st3 st' o key r key' r' :
  NoDup (map (fun t => is_name (t_index t)) (t :: ts)) ->
  entry env t (Some []) k old = Some (key, r) -> entry env t (Some []) k new = Some (key', r') -> key' <> key ->
  same_data (txm st) (txm st1) -> (t_unique t = true -> sees st (is_name (t_index t)) key' = None) ->
  upsert st1 (t_index t) key' (Some r') OpInsert = (st2, NO_ERROR) ->
  upsert st2 (t_index t) key None OpDelete = (st3, NO_ERROR) ->
  update_outcome k old new ts st0 st3 st' o -> update_outcome k old new (t :: ts) st0 st st' o.
Proof.
  intros Hnd He He' Hne Hs Hfree Eu Ed. destruct o; [done|].
  pose proof (fun tn => upsert_sees _ _ _ _ _ _ tn Eu) as Hv. pose proof (fun tn => upsert_sees _ _ _ _ _ _ tn Ed) as Hw.
  apply (loop_result_cons _ t ts st st3); try done; [apply upd_step_respects| |].
  - exists key, r, key', r'. split_and!; [done|done|]. rewrite decide_False by done. split; [done|].
    intros q. rewrite Hw, decide_True by done. unfold vupd. case_decide; [done|].
    rewrite Hv, decide_True by done. unfold vupd. case_decide; [done|by apply same_data_sees].
  - intros tn q Hn. rewrite Hw, Hv, !decide_False by done. by apply same_data_sees.
Qed.

Lemma update_outcome_keep k old new t ts st0 st st' o key r r' :
  NoDup (map (fun t => is_name (t_index t)) (t :: ts)) ->
  entry env t (Some []) k old = Some (key, r) -> entry env t (Some []) k new = Some (key, r') ->
  update_outcome k old new ts st0 st st' o -> update_outcome k old new (t :: ts) st0 st st' o.
Proof.
  intros Hnd He He'. destruct o; [done|]. apply (loop_result_cons _ t ts st st); try done; [apply upd_step_respects|].
  exists key, r, key, r'. split_and!; [done|done|]. by rewrite decide_True.
Qed.

Lemma update_loop_spec k old new st0 ts : good k old -> good k new -> (forall t, t ∈ ts -> t ∈ targets env) ->
  NoDup (map (fun t => is_name (t_index t)) ts) -> forall st,
  (forall tn key, tn ∈ map (fun t => is_name (t_index t)) ts -> sees st tn key = sees st0 tn key) ->
  exists st' o, update_loop storage_hd env st new old k ts = Some (st', o) /\ update_outcome k old new ts st0 st st' o.
Proof.
  intros Hgo Hgn. induction ts as [|t ts IH]; intros Hts Hnd st Hsame.
  { exists st, None. split; [done|]. split; [|done]. intros t H%elem_of_nil. done. }
  assert (t ∈ targets env) as Hin by apply Hts, list_elem_of_here.
  destruct (en_entry t k old Hin Hgo) as (key & r & r0 & He & Hen & _).
  destruct (en_entry t k new Hin Hgn) as (key' & r' & _ & He' & _).
  pose proof Hnd as [Hnot Hnd']%list.NoDup_cons. specialize (IH (fun t' H => Hts t' (list_elem_of_further _ _ _ H)) Hnd').
  cbn [update_loop]. rewrite Hen, He', key_eqb_bytes. cbv zeta. case_bool_decide as Hkey; cbn [negb].
  { subst key'. destruct (IH st) as (st' & o & -> & Ho); [|by eexists _, _; split; [done|by eapply update_outcome_keep]].
    intros tn q Htn. apply Hsame. by apply list_elem_of_further. }
  set (cont := fun st => let '(st, err) := upsert st (t_index t) key' (Some r') OpInsert in
    if decide (err = NO_ERROR) then
      let '(st, err) := upsert st (t_index t) key None OpDelete in
      if decide (err = NO_ERROR) then update_loop storage_hd env st new old k ts else Some (st, Some HA_ERR_OUT_OF_MEM)
    else Some (st, Some HA_ERR_OUT_OF_MEM)).
  assert (forall st1, same_data (txm st) (txm st1) -> (t_unique t = true -> sees st (is_name (t_index t)) key' = None) ->
    exists st' o, cont st1 = Some (st', o) /\ update_outcome k old new (t :: ts) st0 st st' o) as Hcont.
  { intros st1 Hs Hfree. unfold cont. destruct (upsert st1 _ _ _ _) as [st2 err] eqn:Eu.
    case_decide; [|by exists st2, (Some HA_ERR_OUT_OF_MEM)]. subst err.
    destruct (upsert st2 _ _ _ _) as [st3 err] eqn:Ed. case_decide; [|by exists st3, (Some HA_ERR_OUT_OF_MEM)]. subst err.
    destruct (IH st3) as (st' & o & Eo & Ho).
    - intros tn q Htn. assert (tn <> is_name (t_index t)) by (intros ->; done).
      rewrite (upsert_sees _ _ _ _ _ _ tn Ed), (upsert_sees _ _ _ _ _ _ tn Eu), !decide_False by done.
      rewrite (same_data_sees _ _ _ _ Hs). apply Hsame. by apply list_elem_of_further.
    - exists st', o. split; [exact Eo|]. by eapply update_outcome_cons. }
  destruct (t_unique t) eqn:Hu; [|by apply Hcont].
  destruct (SkRead _ _ _ _ _ _) as [st1 [[status ts'] rec]] eqn:Es. apply SkRead_spec in Es as [Hs Hr].
  destruct status; simpl in Hr; [|by apply Hcont|..];
    try (eexists _, _; split; [reflexivity|]; split; [by intros ?%convert_tx_error_0|by intros ?%convert_tx_error_dup]).
  destruct Hr as [seen Hseen]. eexists _, _. split; [reflexivity|]. split; [done|]. intros _.
  exists t, key, r, key', r', seen. split_and!; try done. rewrite <- Hsame; [done|apply list_elem_of_here].
Qed.

(** Another row has the new key in a unique index. *)
Definition update_duplicate (rows : gmap bytes bytes) (k new : bytes) (kid : option nat) : Prop :=
  exists t k' buf' key r r', t ∈ targets env /\ t_unique t = true /\ kid = Some (t_kid t) /\
    rows !! k' = Some buf' /\ k' <> k /\ entry env t (Some []) k' buf' = Some (key, r') /\
    entry env t (Some []) k new = Some (key, r).

Lemma Update_spec rows st old new k rec :
  consistent rows (txm st) -> rows !! k = Some old -> good k new -> row_record new = Some rec ->
  exists st' rc, Update storage_hd env st new old k rec = Some (st', rc) /\
    (rc = 0 -> consistent (<[k:=new]> rows) (txm st')) /\
    (rc = HA_ERR_FOUND_DUPP_KEY -> update_duplicate rows k new (errkey st') /\ dup_errkey_ st' = errkey st').
Proof.
  intros Hco Hk Hg Hrec. unfold Update.
  destruct (update_loop_spec k old new st (targets env) (co_good _ _ Hco k old Hk) Hg ltac:(done) names_NoDup st)
    as (st1 & o & -> & Ho); [done|].
  destruct o as [rc|].
  - eexists _, _. split; [reflexivity|]. destruct Ho as [H0 Hd]. split; [done|].
    intros (t & key & r & key' & r' & seen & Ht & Hu & Hek & Hde & He & He' & Hne & Hs)%Hd. split; [|done].
    destruct (ic_entry _ _ _ _ _ (co_index _ _ Hco t Ht) key' seen Hs) as (k' & buf' & r0 & Hk' & Hb).
    exists t, k', buf', key', r', r0. split_and!; try done. intros ->. congruence.
  - destruct (upsert st1 _ _ _ _) as [st2 err] eqn:Eu. eexists _, _. split; [reflexivity|].
    case_decide; [|done]. subst err. split; [|done]. intros _.
    eapply (statement_consistent rows (<[k:=new]> rows)); [exact Ho|exact Eu|done|..].
    + intros k' b [[<- <-]|[_ Hk']]%lookup_insert_Some; [by rewrite Hrec|]. split; [by eapply co_good|by eapply co_record].
    + intros k'. case_decide as He; [subst; by rewrite lookup_insert_eq|by rewrite lookup_insert_ne].
    + intros t m m' Ht (key & r & key' & r' & He & He' & Hm) Hic. case_decide as Hkey.
      * subst key'. eapply index_consistent_ext; [exact Hm|]. by eapply index_keep.
      * destruct Hm as [Hu Hm]. eapply index_consistent_ext; [exact Hm|]. eapply index_move; try done.
        destruct (t_unique t) eqn:E; [by apply Hu|]. eapply (ordinary_free env good t Ht); try done.
        intros old' r0 Hold. rewrite Hk in Hold. injection Hold as <-. congruence.
Qed.

(** *** Rows *)

Lemma PackKeyRecord_record uuid buf k rec : PackKeyRecord env uuid buf = Some (k, rec) -> row_record buf = Some rec.
Proof.
  unfold PackKeyRecord, row_record. destruct (PackRecord env buf) as [r|]; [|done].
  destruct (table_has_hidden_pk _); simpl.
  - destruct (key_of_record _ _ _ _ _ _ _); [|done]. by intros [= _ ->].
  - destruct (pack_record _ _ _ _ _ _ _ _); [|done]. by intros [= _ <-].
Qed.

Lemma new_row_record (st : ha_state S) buf k rec : new_row env st buf = Some (k, rec) -> row_record buf = Some rec.
Proof.
  unfold new_row. destruct (table_has_hidden_pk _) eqn:Eh; simpl; [|apply PackKeyRecord_record].
  unfold row_record. rewrite Eh. destruct (PackRecord env buf); [|done]. by intros [= _ ->].
Qed.

(** [update_row] as a case of [Insert] and [Delete] or of [Update]. *)
Lemma update_row_cases (st : ha_state S) old new k k' rec :
  new_row env st new = Some (k', rec) -> row_pk env st old = Some k ->
  update_row storage_hd env st old new =
    if decide (k' = k) then Update storage_hd env st new old k' rec
    else match Insert storage_hd env st new k' rec with
         | Some (st, rc) => if rc =? 0 then Delete env st old k else Some (st, rc)
         | None => None
         end.
Proof.
  intros Hn Hk. unfold update_row. rewrite Hn, Hk. unfold key_neqb. rewrite key_eqb_bytes.
  unfold new_row, row_pk in Hn, Hk. destruct (table_has_hidden_pk _); simpl in *.
  - destruct (PackRecord env new); [|done]. injection Hn as <- _. injection Hk as <-. by rewrite decide_True.
  - case_bool_decide as E; simpl; [by rewrite decide_True|by rewrite decide_False].
Qed.

Lemma write_row_spec rows st auto_increment uuid buf k rec :
  consistent rows (txm st) -> PackKeyRecord env uuid buf = Some (k, rec) -> good k buf ->
  exists st' rc, write_row storage_hd env st auto_increment uuid buf = Some (st', rc) /\
    (rc = 0 -> (pk_check_skipped env st = false -> rows !! k = None) /\
       (rows !! k = None -> consistent (<[k:=buf]> rows) (txm st'))) /\
    (rc = HA_ERR_FOUND_DUPP_KEY -> refused_row rows k buf (txm st) st').
Proof.
  intros Hco Hp Hg. unfold write_row. rewrite Hp.
  pose proof (Insert_spec rows st buf k rec Hco Hg (PackKeyRecord_record _ _ _ _ Hp)) as H.
  destruct auto_increment as [e|]; [|done]. destruct (e =? 0); [done|]. by eexists _, _.
Qed.

Lemma update_row_spec rows st old new k k' rec :
  consistent rows (txm st) -> row_pk env st old = Some k -> rows !! k = Some old ->
  new_row env st new = Some (k', rec) -> good k' new ->
  exists st' rc, update_row storage_hd env st old new = Some (st', rc) /\
    (rc = 0 -> (k' <> k -> pk_check_skipped env st = false -> rows !! k' = None) /\
       ((k' <> k -> rows !! k' = None) -> consistent (<[k':=new]> (delete k rows)) (txm st'))) /\
    (rc = HA_ERR_FOUND_DUPP_KEY -> dup_errkey_ st' = errkey st' /\
       if decide (k' = k) then update_duplicate rows k new (errkey st') else duplicate rows k' new (errkey st')).
Proof.
  intros Hco Hpk Hk Hn Hg. rewrite (update_row_cases st old new k k' rec Hn Hpk).
  pose proof (new_row_record _ _ _ _ Hn) as Hrec. case_decide as Hkk.
  - subst k'. destruct (Update_spec rows st old new k rec Hco Hk Hg Hrec) as (st' & rc & -> & H0 & Hd).
    exists st', rc. split_and!; [done| |].
    + intros E. split; [done|]. intros _. rewrite insert_delete_eq. by apply H0.
    + intros E. destruct (Hd E). done.
  - destruct (Insert_spec rows st new k' rec Hco Hg Hrec) as (st1 & rc & -> & H0 & Hd).
    destruct (Z.eqb_spec rc 0) as [->|Hrc].
    + destruct (H0 eq_refl) as [Hfree Hco1].
      destruct (Delete_returns st1 old k (co_good _ _ Hco k old Hk)) as (st2 & rc & E & Hrc). rewrite E.
      exists st2, rc. split_and!; [done| |by destruct Hrc; subst]. intros E0. split; [by intros _|]. intros Hnone.
      destruct (Delete_spec _ st1 old k (Hco1 (Hnone Hkk))) as (st3 & rc3 & E3 & _ & Hdel); [by rewrite lookup_insert_ne|].
      rewrite E in E3. injection E3 as <- <-. rewrite <- delete_insert_ne by done. by apply Hdel.
    + exists st1, rc. split_and!; [done|done|]. intros E. pose proof (Hd E) as Hr. split; [apply Hr|].
      by eapply refused_row_duplicate.
Qed.

Lemma delete_row_spec rows st old k :
  consistent rows (txm st) -> row_pk env st old = Some k -> rows !! k = Some old ->
  exists st' rc, delete_row env st old = Some (st', rc) /\ (rc = 0 \/ rc = HA_ERR_OUT_OF_MEM) /\
    (rc = 0 -> consistent (delete k rows) (txm st')).
Proof. intros Hco Hpk Hk. unfold delete_row. rewrite Hpk. by apply Delete_spec. Qed.

End Handler.

End Consistency.
