(* ===== verification/Tables.v ===== *)
(** * Tables: the tables whose rows are changed

    What the statements of Handler.v need of a table ([Consistency.Entries]),
    from its index definitions: for tables with a primary key, and for tables
    whose rows have a hidden one. *)

From stdpp Require Import gmap strings.
From S2P Require Import Prelude Slice Buff Charset Latin1 Copy Collation Field Placement Store.
From S2P Require Import Codec Packing VarFormat SpacePad Varchar KeySetup KeyDef KeyOrder Index KeyRead PkTuple.
From S2P Require Import Neighbour Double EloqKey Restore RoundTrip Layout KeyTuple Row Entry Hidden Handler Consistency.
Import Field Packing KeyDef KeyOrder Index KeyRead PkTuple EloqKey Entry Hidden Handler Consistency.

Module Tables.

(** ** A table with a primary key *)

(** The definition of an index before its setup, with its columns. *)
Record index_def := { df_kd0 : mono_key_def; df_ki : KEY; df_cols : list indexed_part }.

(** The index definitions of the handler are set up; a unique index lacks some
    column of the primary key, and unique indexes come first, as the server
    sorts them. *)
Record table_ready (uninit : mono_field_packing) (env : ha_env) (pkd0 : mono_key_def) (pk : KEY)
    (pk_cols : list indexed_part) (defs : target -> index_def) : Prop := {
  tr_pk : index_definition (ha_table env) pkd0 pk pk_cols [];
  tr_pk_setup : key_def_setup uninit (ha_table env) pkd0 = Some (pk_descr_ env);
  tr_pk_NoDup : NoDup (map (fun c => part_index c.1) pk_cols);
  tr_index t : t ∈ targets env ->
    index_definition (ha_table env) (df_kd0 (defs t)) (df_ki (defs t)) (df_cols (defs t)) pk_cols /\
    m_index_type (df_kd0 (defs t)) = INDEX_TYPE_SECONDARY /\
    key_def_setup uninit (ha_table env) (df_kd0 (defs t)) = Some (is_kd (t_index t)) /\
    NoDup (map (fun c => part_index c.1) (df_cols (defs t)));
  tr_unique t : t ∈ targets env -> t_unique t = true ->
    key_flags_nosame (df_ki (defs t)) = true /\ missing (df_ki (defs t)) pk_cols <> [];
  tr_names : NoDup (base_table_name env :: map (fun t => is_name (t_index t)) (targets env));
  tr_unique_first t1 t2 : t1 ∈ own_targets env -> t2 ∈ own_targets env -> (t_kid t1 < t_kid t2)%nat ->
    t_unique t2 = true -> t_unique t1 = true
}.

Definition target_columns (pk_cols : list indexed_part) (d : index_def) : list indexed_part :=
  index_columns (df_ki d) (df_cols d) pk_cols.

(** A row whose columns hold values, and its key. *)
Definition row_good (env : ha_env) (pk_cols : list indexed_part) (defs : target -> index_def) (k buf : bytes) : Prop :=
  k = row_key (ha_mem env) pk_cols (m_pack_info (pk_descr_ env)) buf /\ row_ok pk_cols buf /\
  forall t, t ∈ targets env -> row_ok (target_columns pk_cols (defs t)) buf.

Section Ready.

Context (uninit : mono_field_packing) (env : ha_env) (pkd0 : mono_key_def) (pk : KEY) (pk_cols : list indexed_part).
Context (defs : target -> index_def) (Hready : table_ready uninit env pkd0 pk pk_cols defs).

Abbreviation mem := (ha_mem env).
Abbreviation tbl := (ha_table env).
Abbreviation good := (row_good env pk_cols defs).

Lemma ready_no_hidden : table_has_hidden_pk tbl = false.
Proof. apply (index_definition_pk _ _ _ _ _ (tr_pk _ _ _ _ _ _ Hready)). Qed.

(** The key of an entry. *)
Definition entry_key (t : target) (buf : bytes) : bytes :=
  if t_unique t then own_key mem (df_cols (defs t)) (is_kd (t_index t)) buf
  else row_key mem (target_columns pk_cols (defs t)) (m_pack_info (is_kd (t_index t))) buf.

Definition entry_blob (t : target) (buf : bytes) : bytes :=
  if t_unique t then
    row_key mem (missing (df_ki (defs t)) pk_cols) (drop (length (df_cols (defs t))) (m_pack_info (is_kd (t_index t)))) buf
  else [].

Lemma ready_entry t k buf u : t ∈ targets env -> good k buf ->
  exists r, entry env t u k buf = Some (entry_key t buf, r) /\ encoded_blob_ r = entry_blob t buf.
Proof.
  intros Ht (_ & _ & Hrow). specialize (Hrow t Ht). destruct (tr_index _ _ _ _ _ _ Hready t Ht) as (Hid & Hs & E & _).
  unfold entry, hidden_pk, entry_key, entry_blob. rewrite ready_no_hidden. destruct (t_unique t) eqn:Hu.
  - destruct (tr_unique _ _ _ _ _ _ Hready t Ht Hu) as [Hn Hm].
    destruct (unique_entry_split mem tbl uninit _ _ _ _ _ buf u Hid Hs Hn Hm E Hrow) as (st & _ & Htup & He & _).
    eexists. split; [exact He|]. cbn [encoded_blob_]. rewrite Htup. unfold index_columns.
    destruct (key_def_setup_packed mem uninit tbl _ _ _ _ Hid) as (kd' & E' & Hp & _). rewrite E in E'. injection E' as <-.
    rewrite row_key_split by exact (eq_sym (Forall2_length Hp)). by rewrite drop_app_length.
  - destruct (plain_index_entry mem tbl uninit _ _ _ _ _ buf u Hid E Hrow) as (st & _ & Htup & He).
    rewrite Htup in He. eexists. split; [exact He|done].
Qed.

(** Packing the key alone, as [Delete] does. *)
Lemma ready_key t k buf : t ∈ targets env -> good k buf ->
  key_of_record mem (is_kd (t_index t)) tbl buf false (hidden_pk env k) (t_unique t) =
    Some (key_of_bytes (entry_key t buf)).
Proof.
  intros Ht (_ & _ & Hrow). specialize (Hrow t Ht). destruct (tr_index _ _ _ _ _ _ Hready t Ht) as (Hid & Hs & E & _).
  unfold key_of_record, hidden_pk, entry_key. rewrite ready_no_hidden. cbn [negb].
  destruct (key_def_setup_packed mem uninit tbl _ _ _ _ Hid) as (kd' & E' & Hp & _). rewrite E in E'. injection E' as <-.
  destruct (plain_index_entry mem tbl uninit _ _ _ _ _ buf None Hid E Hrow) as (st & Est & Htup & _).
  destruct (t_unique t) eqn:Hu; [|by rewrite Est, Htup].
  destruct (tr_unique _ _ _ _ _ _ Hready t Ht Hu) as [Hn Hm].
  rewrite (pack_record_unique mem tbl uninit _ _ buf None st ready_no_hidden Hp Hrow Est).
  rewrite (setup_unique tbl uninit _ _ _ _ _ Hid Hs Hn E). cbn [ps_tuple ps_unique_sk_pack_size].
  unfold index_columns in *. rewrite length_app. destruct (missing _ pk_cols) as [|c m] eqn:Em; [done|].
  rewrite (proj2 (Nat.ltb_lt _ _)) by (simpl; lia). rewrite Htup, row_key_split by exact (eq_sym (Forall2_length Hp)).
  by rewrite take_app_length, take_app_length.
Qed.

Lemma entries_of_table : Entries env good.
Proof.
  pose proof Hready as [Hpk Epk Hnd Hix Hun Hnames Hfirst]. split; [| |done|done].
  - intros t k buf Ht Hg. destruct (ready_entry t k buf (Some []) Ht Hg) as (r & -> & _).
    destruct (ready_entry t k buf None Ht Hg) as (r' & -> & _). rewrite (ready_key t k buf Ht Hg). by eexists _, _, _.
  - intros t k1 k2 b1 b2 key r1 r2 Ht Hu Hg1 Hg2 E1 E2. destruct (Hix t Ht) as (Hid & Hs & E & Hndt).
    destruct (ready_entry t k1 b1 (Some []) Ht Hg1) as (q1 & E1' & _). destruct (ready_entry t k2 b2 (Some []) Ht Hg2) as (q2 & E2' & _).
    rewrite E1 in E1'. injection E1' as -> _. rewrite E2 in E2'. injection E2' as Hkey _.
    unfold entry_key in Hkey. rewrite Hu in Hkey.
    destruct (primary_key_of_key mem uninit tbl _ _ _ pkd0 pk pk_cols Hid Hs Hpk Hndt Hnd) as (kd & pkd & Ekd & Epkd & Hget).
    rewrite E in Ekd. injection Ekd as <-. rewrite Epk in Epkd. injection Epkd as <-.
    destruct Hg1 as (-> & Hp1 & Hr1), Hg2 as (-> & Hp2 & Hr2).
    pose proof (Hget b1 (Hr1 t Ht) Hp1) as G1. pose proof (Hget b2 (Hr2 t Ht) Hp2) as G2.
    unfold target_columns in Hkey. rewrite Hkey in G1. congruence.
Qed.

(** Rows have the same key in a unique index when its columns are equal. *)
Lemma unique_keys t k1 k2 a b : t ∈ targets env -> t_unique t = true -> good k1 a -> good k2 b ->
  parts_cmp (map fst (df_cols (defs t))) a b = Eq -> entry_key t a = entry_key t b.
Proof.
  intros Ht Hu (_ & _ & Ha) (_ & _ & Hb) Heq. destruct (tr_index _ _ _ _ _ _ Hready t Ht) as (Hid & _ & E & _).
  destruct (key_def_setup_packed mem uninit tbl _ _ _ _ Hid) as (kd' & E' & Hp & _). rewrite E in E'. injection E' as <-.
  specialize (Ha t Ht). specialize (Hb t Ht). apply Forall_app in Ha as [Ha _]. apply Forall_app in Hb as [Hb _].
  unfold entry_key. rewrite Hu. by apply (own_key_eq mem tbl uninit (df_ki (defs t)) _ pk_cols).
Qed.

End Ready.

(** ** A table without a primary key *)

Record hidden_ready (uninit : mono_field_packing) (env : ha_env) (defs : target -> index_def) : Prop := {
  hr_no_primary : primary_key (ha_table env) = None;
  hr_pk_setup : exists pkd0, m_index_type pkd0 = INDEX_TYPE_HIDDEN_PRIMARY /\ m_maxlength pkd0 = 0%nat /\
    key_def_setup uninit (ha_table env) pkd0 = Some (pk_descr_ env);
  hr_index t : t ∈ targets env ->
    hidden_definition (ha_table env) (df_kd0 (defs t)) (df_ki (defs t)) (df_cols (defs t)) /\
    key_def_setup uninit (ha_table env) (df_kd0 (defs t)) = Some (is_kd (t_index t));
  hr_unique t : t ∈ targets env -> t_unique t = true -> key_flags_nosame (df_ki (defs t)) = true;
  hr_names : NoDup (base_table_name env :: map (fun t => is_name (t_index t)) (targets env));
  hr_unique_first t1 t2 : t1 ∈ own_targets env -> t2 ∈ own_targets env -> (t_kid t1 < t_kid t2)%nat ->
    t_unique t2 = true -> t_unique t1 = true
}.

(** The key of a row is a UUID. *)
Definition hidden_good (env : ha_env) (defs : target -> index_def) (k buf : bytes) : Prop :=
  uuid_ok k /\ forall t, t ∈ targets env -> row_ok (df_cols (defs t)) buf.

Section HiddenReady.

Context (uninit : mono_field_packing) (env : ha_env) (defs : target -> index_def).
Context (Hready : hidden_ready uninit env defs).

Abbreviation mem := (ha_mem env).
Abbreviation tbl := (ha_table env).
Abbreviation good := (hidden_good env defs).

Lemma hidden_exists : table_has_hidden_pk tbl = true.
Proof. unfold table_has_hidden_pk. by rewrite (hr_no_primary _ _ _ Hready). Qed.

(** A new row gets the next UUID as its key. *)
Lemma hidden_new_key id buf k rec : uuid_ok id -> PackKeyRecord env id buf = Some (k, rec) -> k = id.
Proof.
  intros Hid. unfold PackKeyRecord. destruct (PackRecord env buf); [|done]. rewrite hidden_exists.
  destruct (hr_pk_setup _ _ _ Hready) as (pkd0 & Ht & Hm & E). unfold key_def_setup in E. rewrite Ht, Hm in E.
  cbn in E. injection E as <-. cbn. intros [= <- _]. apply take_ge. by rewrite Hid.
Qed.

Lemma hidden_ready_parts t : t ∈ targets env ->
  exists infos last, hidden_parts mem uninit tbl (is_kd (t_index t)) (df_cols (defs t)) infos last /\
    (t_unique t = true -> m_unique_sk_only_key_parts (is_kd (t_index t)) = length (df_cols (defs t))).
Proof.
  intros Ht. destruct (hr_index _ _ _ Hready t Ht) as [Hd E].
  destruct (hidden_setup mem uninit tbl _ _ _ Hd) as (kd & infos & last & E' & Hp & Hu). rewrite E in E'. injection E' as <-.
  exists infos, last. split; [done|]. intros Hun. by apply Hu, (hr_unique _ _ _ Hready).
Qed.

Abbreviation entry_key t := (hidden_key mem (is_kd (t_index t)) (df_cols (defs t)) (t_unique t)).

Lemma hidden_ready_entry t k buf u : t ∈ targets env -> good k buf ->
  exists r, entry env t u k buf = Some (entry_key t buf k, r).
Proof.
  intros Ht [Hk Hrow]. destruct (hidden_ready_parts t Ht) as (infos & last & Hp & Hu).
  unfold entry, hidden_pk. rewrite hidden_exists.
  destruct (hidden_entry mem uninit tbl _ _ infos last (hr_no_primary _ _ _ Hready) Hp buf u (t_unique t) k
    (Hrow t Ht) Hk Hu) as (r & -> & _). by exists r.
Qed.

Lemma entries_of_hidden : Entries env good.
Proof.
  split; [| |apply (hr_names _ _ _ Hready)|apply (hr_unique_first _ _ _ Hready)].
  - intros t k buf Ht Hg. destruct (hidden_ready_entry t k buf (Some []) Ht Hg) as (r & ->).
    destruct (hidden_ready_entry t k buf None Ht Hg) as (r' & ->). destruct Hg as [Hk Hrow].
    destruct (hidden_ready_parts t Ht) as (infos & last & Hp & Hu). unfold hidden_pk. rewrite hidden_exists.
    rewrite (hidden_entry_key mem uninit tbl _ _ infos last (hr_no_primary _ _ _ Hready) Hp buf _ k (Hrow t Ht) Hk Hu).
    by eexists _, _, _.
  - intros t k1 k2 b1 b2 key r1 r2 Ht Hu Hg1 Hg2 E1 E2.
    destruct (hidden_ready_entry t k1 b1 (Some []) Ht Hg1) as (q1 & E1').
    destruct (hidden_ready_entry t k2 b2 (Some []) Ht Hg2) as (q2 & E2').
    rewrite E1 in E1'. injection E1' as -> _. rewrite E2 in E2'. injection E2' as Hkey _.
    unfold hidden_key in Hkey. rewrite Hu in Hkey. destruct Hg1 as [H1 _], Hg2 as [H2 _].
    apply app_inj_2 in Hkey as [_ ?]; [done|]. by rewrite H1, H2.
Qed.

End HiddenReady.

(** ** Tables *)

(** A table with the index definitions [defs], and its rows: key and record. *)
Inductive table (env : ha_env) (defs : target -> index_def) : (bytes -> bytes -> Prop) -> Prop :=
  | with_primary_key uninit pkd0 pk pk_cols :
      table_ready uninit env pkd0 pk pk_cols defs -> table env defs (row_good env pk_cols defs)
  | with_hidden_key uninit : hidden_ready uninit env defs -> table env defs (hidden_good env defs).

Lemma table_entries env defs good : table env defs good -> Entries env good.
Proof. intros [uninit pkd0 pk pk_cols Hr|uninit Hr]; [by eapply entries_of_table|by eapply entries_of_hidden]. Qed.

(** Rows that agree in the columns of a unique index have the same key
    there. *)
Lemma table_unique_keys env defs good t k1 k2 a b : table env defs good -> t ∈ targets env -> t_unique t = true ->
  good k1 a -> good k2 b -> parts_cmp (map fst (df_cols (defs t))) a b = Eq ->
  exists key r1 r2, entry env t (Some []) k1 a = Some (key, r1) /\ entry env t (Some []) k2 b = Some (key, r2).
Proof.
  intros [uninit pkd0 pk pk_cols Hr|uninit Hr] Ht Hu G1 G2 Heq.
  - destruct (ready_entry uninit env pkd0 pk pk_cols defs Hr t k1 a (Some []) Ht G1) as (r1 & E1 & _).
    destruct (ready_entry uninit env pkd0 pk pk_cols defs Hr t k2 b (Some []) Ht G2) as (r2 & E2 & _).
    rewrite (unique_keys uninit env pkd0 pk pk_cols defs Hr t k1 k2 a b Ht Hu G1 G2 Heq) in E1. by eexists _, _, _.
  - destruct (hidden_ready_entry uninit env defs Hr t k1 a (Some []) Ht G1) as (r1 & E1).
    destruct (hidden_ready_entry uninit env defs Hr t k2 b (Some []) Ht G2) as (r2 & E2).
    destruct (hidden_ready_parts uninit env defs Hr t Ht) as (infos & last & Hp & _). unfold hidden_key in E1, E2. rewrite Hu in E1, E2.
    destruct G1 as [_ Ha], G2 as [_ Hb].
    apply (hidden_own_key_eq _ uninit _ _ _ infos last Hp a b (Ha t Ht) (Hb t Ht)) in Heq. rewrite Heq in E1. by eexists _, _, _.
Qed.

End Tables.
