(* ===== verification/Statements.v ===== *)
(** * Statements: changing the rows of a table

    The theorems on [write_row], [update_row] and [delete_row]
    (storage/eloq/ha_eloq.cc) for a table with a primary key and secondary
    indexes: its index definitions provide the entries that the handler relies
    on ([Consistency.Entries]), and so every sequence of statements keeps rows
    and index entries consistent.  Then the statements that do not do what they
    mean to: a change of the primary key that keeps a unique key, and an update
    that fails after the first index. *)

From stdpp Require Import gmap strings.
From S2P Require Import Prelude Slice Buff Charset Latin1 Copy Collation Field Placement Store.
From S2P Require Import Codec Packing VarFormat SpacePad Varchar KeySetup KeyDef KeyOrder Index KeyRead PkTuple.
From S2P Require Import Neighbour Double EloqKey Restore RoundTrip Layout KeyTuple Row Entry Hidden Handler Consistency Tables.
Import Field Packing KeyDef KeyOrder Index KeyRead PkTuple EloqKey Entry Hidden Handler Consistency Tables.

Module Statements.

(** ** Sequences of statements *)

Section Claims.

Context {S : Type} `{!TxService S, !TxLaws S} (storage_hd : option (DataStoreHandler S)) (env : ha_env).
Context (good : bytes -> bytes -> Prop).

(** The rows of the table and the state of the handler.  A row whose primary
    key is not looked up has a new one.  A row that is refused as a duplicate
    leaves the rows; its keys in unique indexes are none that the transaction has
    deleted.  Whatever keeps what the transaction sees, as a read or the commit
    before the next transaction, leaves the rows, too. *)
Inductive step : gmap bytes bytes * ha_state S -> gmap bytes bytes * ha_state S -> Prop :=
  | step_write rows st auto_increment uuid buf k rec st' :
      PackKeyRecord env uuid buf = Some (k, rec) -> good k buf ->
      (pk_check_skipped env st = true -> rows !! k = None) ->
      write_row storage_hd env st auto_increment uuid buf = Some (st', 0) ->
      step (rows, st) (<[k:=buf]> rows, st')
  | step_duplicate rows st auto_increment uuid buf k rec st' :
      PackKeyRecord env uuid buf = Some (k, rec) -> good k buf ->
      clean env k buf (txm st) ->
      write_row storage_hd env st auto_increment uuid buf = Some (st', HA_ERR_FOUND_DUPP_KEY) ->
      step (rows, st) (rows, st')
  | step_update rows st old new k k' rec st' :
      row_pk env st old = Some k -> rows !! k = Some old -> new_row env st new = Some (k', rec) -> good k' new ->
      (pk_check_skipped env st = true -> k' <> k -> rows !! k' = None) ->
      update_row storage_hd env st old new = Some (st', 0) ->
      step (rows, st) (<[k':=new]> (delete k rows), st')
  | step_delete rows st old k st' :
      row_pk env st old = Some k -> rows !! k = Some old -> delete_row env st old = Some (st', 0) ->
      step (rows, st) (delete k rows, st')
  | step_other rows st st' : same_view (txm st) (txm st') -> step (rows, st) (rows, st').

Lemma step_consistent `{!Entries env good} rows st rows' st' :
  step (rows, st) (rows', st') -> consistent env good rows (txm st) -> consistent env good rows' (txm st').
Proof.
  intros H Hco. inversion H; subst.
  - destruct (write_row_spec storage_hd env good rows st auto_increment uuid buf k rec) as (? & ? & E & H0 & _); try done.
    simplify_eq. destruct (H0 eq_refl) as [Hf Hc]. apply Hc. destruct (pk_check_skipped env st); auto.
  - destruct (write_row_spec storage_hd env good rows' st auto_increment uuid buf k rec) as (? & ? & E & _ & Hd); try done.
    simplify_eq. eapply refused_row_consistent; [done|by apply Hd|done].
  - destruct (update_row_spec storage_hd env good rows st old new k k' rec) as (? & ? & E & H0 & _); try done.
    simplify_eq. destruct (H0 eq_refl) as [Hf Hc]. apply Hc. destruct (pk_check_skipped env st); auto.
  - destruct (delete_row_spec env good rows st old k) as (? & ? & E & _ & H0); try done.
    simplify_eq. by apply H0.
  - by eapply consistent_view.
Qed.

Lemma steps_consistent `{!Entries env good} x y :
  rtc step x y -> consistent env good x.1 (txm x.2) -> consistent env good y.1 (txm y.2).
Proof.
  induction 1 as [|[r1 s1] [r2 s2] z Hs _ IH]; [done|]. intros Hco. apply IH. by eapply step_consistent.
Qed.

End Claims.

Section Table_statements.

Context {S : Type} `{!TxService S, !TxLaws S} (storage_hd : option (DataStoreHandler S)).
Context (env : ha_env) (defs : target -> index_def) (good : bytes -> bytes -> Prop).

(** C2: rows and index entries stay consistent.  For a table with a primary
    key or a hidden one, from data that is consistent with some rows, every
    sequence of writes, updates and deletions that succeed, of writes refused as
    duplicates, of reads and of commits ends in data that is consistent with the
    rows as the statements changed them: one record per row in the base table,
    one entry per row in every index and no other entries, and no two rows that
    agree in the columns of a unique index.  Two conditions are part of the
    steps: a primary key that the handler does not look up (upsert semantics, a
    hidden key, a generated number) is a new one, and a refused row has no key
    in a unique index whose committed entry the transaction has deleted;
    [refused_write_restores] shows what happens otherwise. *)
Theorem statements_consistent rows st rows' st' :
  table env defs good -> consistent env good rows (txm st) ->
  rtc (step storage_hd env good) (rows, st) (rows', st') ->
  consistent env good rows' (txm st') /\
  forall t k1 k2 a b, t ∈ targets env -> t_unique t = true -> rows' !! k1 = Some a -> rows' !! k2 = Some b ->
    parts_cmp (map fst (df_cols (defs t))) a b = Eq -> k1 = k2.
Proof.
  intros Hr Hco Hs. pose proof (table_entries env defs good Hr) as Hen.
  apply steps_consistent in Hs; [|done|done]. split; [done|]. intros t k1 k2 a b Ht Hu H1 H2 Heq.
  pose proof (co_good _ _ _ _ Hs _ _ H1) as G1. pose proof (co_good _ _ _ _ Hs _ _ H2) as G2.
  destruct (table_unique_keys env defs good t k1 k2 a b Hr Ht Hu G1 G2 Heq) as (key & r1 & r2 & E1 & E2).
  by apply (ic_apart _ _ _ _ _ (co_index _ _ _ _ Hs t Ht) k1 k2 a b key r1 r2).
Qed.

(** C10: writing a row.  [write_row] returns.  When it reports success and the
    primary key was looked up, no row had it; and when no row had it, the data is
    consistent with the rows and the new one.  When it reports a duplicate key,
    some row has the primary key or the key in the unique index that it names,
    and the data is still consistent with the rows, as the entries written before
    the duplicate was found are taken back, provided that the transaction has not
    deleted a committed entry under one of the unique keys of the row. *)
Theorem write_row_correct rows st auto_increment uuid buf k rec :
  table env defs good -> consistent env good rows (txm st) ->
  PackKeyRecord env uuid buf = Some (k, rec) -> good k buf ->
  exists st' rc, write_row storage_hd env st auto_increment uuid buf = Some (st', rc) /\
    (rc = 0 -> (pk_check_skipped env st = false -> rows !! k = None) /\
       (rows !! k = None -> consistent env good (<[k:=buf]> rows) (txm st'))) /\
    (rc = HA_ERR_FOUND_DUPP_KEY -> dup_errkey_ st' = errkey st' /\ duplicate env rows k buf (errkey st') /\
       (clean env k buf (txm st) -> consistent env good rows (txm st'))).
Proof.
  intros Hr Hco Hp Hg. pose proof (table_entries env defs good Hr) as Hen.
  destruct (write_row_spec storage_hd env good rows st auto_increment uuid buf k rec Hco Hp Hg)
    as (st' & rc & E & H0 & Hd). exists st', rc. split_and!; [done|done|]. intros Hrc. pose proof (Hd Hrc) as Hr'.
  split_and!; [apply Hr'|by eapply refused_row_duplicate|by eapply refused_row_consistent].
Qed.

(** A row that is refused for a unique index after the transaction has deleted
    an entry: where an index before this one has a committed entry under the key
    of the row, [TxRevert] takes the deletion back together with the new entry,
    and the entry of the deleted row is seen again. *)
Theorem refused_write_restores rows st auto_increment uuid buf k rec st' kid t key r r0 :
  table env defs good -> consistent env good rows (txm st) ->
  PackKeyRecord env uuid buf = Some (k, rec) -> good k buf ->
  write_row storage_hd env st auto_increment uuid buf = Some (st', HA_ERR_FOUND_DUPP_KEY) ->
  errkey st' = Some kid -> primary_key (ha_table env) <> Some kid ->
  t ∈ own_targets env -> (t_kid t < kid)%nat -> entry env t (Some []) k buf = Some (key, r) ->
  committed (txm st) (is_name (t_index t)) key = Some r0 ->
  view (txm st) (is_name (t_index t)) key = None /\ view (txm st') (is_name (t_index t)) key = Some r0 /\
  ~ consistent env good rows (txm st').
Proof.
  intros Hr Hco Hp Hg Hw Hk Hpk Ht Hlt He Hc. pose proof (table_entries env defs good Hr) as Hen.
  destruct (write_row_spec storage_hd env good rows st auto_increment uuid buf k rec Hco Hp Hg) as (? & ? & E & _ & Hd).
  rewrite Hw in E. injection E as <- <-. destruct (Hd eq_refl) as [_ [(Hp' & _)|Href]]; [congruence|].
  destruct (refused_restored env k buf (txm st) st' t key r kid Href Hk Ht Hlt He) as [Hn Hv]. rewrite Hc in Hv.
  split_and!; [done|done|]. intros Hco'. pose proof (own_target env t Ht) as Ht'.
  destruct (ic_entry _ _ _ _ _ (co_index _ _ _ _ Hco' t Ht') key r0 Hv) as (k1 & b1 & r1 & Hrow & He1).
  destruct (ic_row _ _ _ _ _ (co_index _ _ _ _ Hco t Ht') k1 b1 key r1 Hrow He1) as (r2 & b2 & Hv2 & _). congruence.
Qed.

(** C11: updating a row.  [update_row] of a row of the table returns.  When it
    reports success and the new primary key is the old one or no row had it, the
    data is consistent with the rows where the new row replaces the old one; a
    primary key that changes and is looked up was free.  When it reports a
    duplicate key, some row has it. *)
Theorem update_row_correct rows st old new k k' rec :
  table env defs good -> consistent env good rows (txm st) ->
  row_pk env st old = Some k -> rows !! k = Some old -> new_row env st new = Some (k', rec) -> good k' new ->
  exists st' rc, update_row storage_hd env st old new = Some (st', rc) /\
    (rc = 0 -> (k' <> k -> pk_check_skipped env st = false -> rows !! k' = None) /\
       ((k' <> k -> rows !! k' = None) -> consistent env good (<[k':=new]> (delete k rows)) (txm st'))) /\
    (rc = HA_ERR_FOUND_DUPP_KEY -> dup_errkey_ st' = errkey st' /\
       if decide (k' = k) then update_duplicate env rows k new (errkey st') else duplicate env rows k' new (errkey st')).
Proof.
  intros Hr Hco Hk Ho Hn Hg. pose proof (table_entries env defs good Hr) as Hen.
  by apply (update_row_spec storage_hd env good rows st old new k k' rec).
Qed.


End Table_statements.

Section Ready_statements.

Context {S : Type} `{!TxService S, !TxLaws S} (storage_hd : option (DataStoreHandler S)).
Context (uninit : mono_field_packing) (env : ha_env) (pkd0 : mono_key_def) (pk : KEY) (pk_cols : list indexed_part).
Context (defs : target -> index_def).

Abbreviation good := (row_good env pk_cols defs).

(** C34: changing the primary key of a row in a table with a unique index.
    [update_row] then inserts the new row before it deletes the old one; when
    the columns of the unique index stay the same, the old row counts as a
    duplicate of the new one, and the update never succeeds. *)
Theorem update_row_keeps_unique_key rows st old new k k' rec t :
  table_ready uninit env pkd0 pk pk_cols defs -> consistent env good rows (txm st) ->
  row_pk env st old = Some k -> rows !! k = Some old -> new_row env st new = Some (k', rec) -> good k' new ->
  (pk_check_skipped env st = true -> rows !! k' = None) ->
  k' <> k -> t ∈ targets env -> t_unique t = true -> parts_cmp (map fst (df_cols (defs t))) old new = Eq ->
  exists st' rc, update_row storage_hd env st old new = Some (st', rc) /\ rc <> 0.
Proof.
  intros Hr Hco Hk Ho Hn Hg Hskip Hne Ht Hu Heq.
  pose proof (entries_of_table uninit env pkd0 pk pk_cols defs Hr) as Hen. pose proof (co_good _ _ _ _ Hco _ _ Ho) as Hgo.
  rewrite (update_row_cases storage_hd env st old new k k' rec Hn Hk), decide_False by done.
  destruct (Insert_spec storage_hd env good rows st new k' rec Hco Hg (new_row_record env st _ _ _ Hn))
    as (st1 & rc & -> & H0 & _).
  destruct (Z.eqb_spec rc 0) as [->|]; [|by exists st1, rc]. destruct (H0 eq_refl) as [Hf Hco1].
  specialize (Hco1 ltac:(destruct (pk_check_skipped env st); auto)). exfalso. apply Hne.
  destruct (ready_entry uninit env pkd0 pk pk_cols defs Hr t k old (Some []) Ht Hgo) as (r1 & E1 & _).
  destruct (ready_entry uninit env pkd0 pk pk_cols defs Hr t k' new (Some []) Ht Hg) as (r2 & E2 & _).
  apply (unique_keys uninit env pkd0 pk pk_cols defs Hr t k k' old new Ht Hu Hgo Hg) in Heq. rewrite <- Heq in E2.
  apply (ic_apart _ _ _ _ _ (co_index _ _ _ _ Hco1 t Ht) k' k new old (entry_key env pk_cols defs t old) r2 r1); try done.
  - by rewrite lookup_insert_eq.
  - by rewrite lookup_insert_ne.
Qed.

End Ready_statements.

(** ** A store, a table and its rows *)

Record mem_store := {
  ms_pending : gmap (table_name * bytes) (option EloqRecord);
  ms_committed : gmap (table_name * bytes) EloqRecord
}.

Definition ms_seen (s : mem_store) (tn : table_name) (key : bytes) : option EloqRecord :=
  match ms_pending s !! (tn, key) with Some w => w | None => ms_committed s !! (tn, key) end.

#[export] Instance mem_service : TxService mem_store := {|
  tx_Read s req := (s, match ms_seen s (req_table req) (req_key req) with
                       | Some r => inr (RecordNormal, r, 1)
                       | None => inr (RecordDeleted, {| encoded_blob_ := []; unpack_info_ := [] |}, 1)
                       end);
  tx_ReadOutside s _ _ _ := s;
  tx_Upsert s tn _ key rec _ :=
    ({| ms_pending := <[(tn, key):=rec]> (ms_pending s); ms_committed := ms_committed s |}, NO_ERROR);
  tx_Revert s tn key := {| ms_pending := delete (tn, key) (ms_pending s); ms_committed := ms_committed s |};
  tx_is_snapshot _ := false;
  tx_start_ts _ := 0
|}.

#[export] Instance mem_laws : TxLaws mem_store.
Proof.
  refine {| pending s tn key := ms_pending s !! (tn, key); committed s tn key := ms_committed s !! (tn, key) |}.
  - intros s req s' r. simpl. unfold ms_seen. intros [= <- <-]. split_and!; [done|done|].
    destruct (ms_pending s !! _) as [[w|]|]; [done|done|]. by destruct (ms_committed s !! _).
  - intros s tn v key rec op s'. simpl. intros [= <-]. split; [done|]. intros tn' key'. simpl. case_decide as H.
    + destruct H as [-> ->]. by rewrite lookup_insert_eq.
    + rewrite lookup_insert_ne; [done|]. intros [= -> ->]. by apply H.
  - intros s tn key. simpl. split; [done|]. intros tn' key'. case_decide as H.
    + destruct H as [-> ->]. by rewrite lookup_delete_eq.
    + rewrite lookup_delete_ne; [done|]. intros [= -> ->]. by apply H.
Defined.

Definition int_field (index at_ : nat) : Field := {|
  field_index := index; real_type := MYSQL_TYPE_LONG; ptr := at_; null_ptr := None; null_bit := 0;
  field_length := 11; pack_length := 4; char_length := 11; unsigned_flag := false;
  charset := Collation.my_charset_latin1; length_bytes := 0; packlength := 0;
  bit_ptr := 0; bit_ofs := 0; bit_len := 0; bytes_in_rec := 0; precision := 0; decimals := 0 |}.

Definition int_part (f : Field) : indexed_part := ({| kp_field := f; kp_length := 4 |}, fixed_ok f).

Definition unique_key (f : Field) : KEY := {|
  user_defined_key_parts := 1; ext_key_parts := 1; key_flags_nosame := true;
  key_part := [{| kp_field := f; kp_length := 4 |}] |}.

(** [CREATE TABLE t (id INT PRIMARY KEY, a INT UNIQUE, b INT UNIQUE)]. *)
Definition f_id : Field := int_field 0 1.
Definition f_a : Field := int_field 1 5.
Definition f_b : Field := int_field 2 9.

Definition t_table : TABLE := {|
  fields := [f_id; f_a; f_b]; key_info := [unique_key f_id; unique_key f_a; unique_key f_b];
  primary_key := Some 0%nat; default_values := replicate 13 0 |}.

Definition t_row (id a b : Z) : bytes := [0] ++ le_bytes 4 id ++ le_bytes 4 a ++ le_bytes 4 b.

Definition fresh_kd (type : INDEX_TYPE) (keyno : nat) : mono_key_def := {|
  m_index_type := type; m_pk_part_no := []; m_pack_info := []; m_keyno := keyno;
  m_pk_key_parts := 0; m_unique_sk_only_key_parts := 0; m_maxlength := 0 |}.

Definition set_up (kd : mono_key_def) : mono_key_def :=
  match key_def_setup sample_uninit t_table kd with Some kd => kd | None => kd end.

Definition t_pk_kd : mono_key_def := fresh_kd INDEX_TYPE_PRIMARY 0.
Definition t_sk_kd (keyno : nat) : mono_key_def := fresh_kd INDEX_TYPE_SECONDARY keyno.

Definition t_schema (name : string) (keyno : nat) : index_schema :=
  {| is_name := name; is_kd := set_up (t_sk_kd keyno); is_SchemaTs := 1 |}.

Definition t_env : ha_env := {|
  ha_table := t_table; ha_mem := fun _ => [];
  ha_fields := [{| Row.rf_field := f_id; Row.rf_stored_in_db := true; Row.rf_part_of_pk := true |};
                {| Row.rf_field := f_a; Row.rf_stored_in_db := true; Row.rf_part_of_pk := false |};
                {| Row.rf_field := f_b; Row.rf_stored_in_db := true; Row.rf_part_of_pk := false |}];
  base_table_name := "t"%string; base_version := 1; pk_descr_ := set_up t_pk_kd;
  IndexNameSchema := [t_schema "t*pk"%string 0; t_schema "t*a"%string 1; t_schema "t*b"%string 2];
  DirtyIndexes := []; is_insert_semantic_ := true; next_number_index := None;
  lock_write := true; lock_shared := false; is_covering := false |}.

Definition t_def (t : target) : index_def :=
  let f := if (t_kid t =? 1)%nat then f_a else f_b in
  {| df_kd0 := t_sk_kd (t_kid t); df_ki := unique_key f; df_cols := [int_part f] |}.

Definition t_start : ha_state mem_store := {|
  txm := {| ms_pending := ∅; ms_committed := ∅ |}; tx_err_code_ := NO_ERROR; errkey := None; dup_errkey_ := None;
  last_read_record_ := {| encoded_blob_ := []; unpack_info_ := [] |}; last_read_key_ := []; insert_id_for_cur_row := 0 |}.

Lemma set_up_index kd0 ki cols pk_cols : index_definition t_table kd0 ki cols pk_cols ->
  key_def_setup sample_uninit t_table kd0 = Some (set_up kd0).
Proof.
  intros Hid. destruct (key_def_setup_packed (fun _ => []) sample_uninit t_table _ _ _ _ Hid) as (kd & E & _).
  unfold set_up. by rewrite E.
Qed.

Lemma t_targets : targets t_env =
  [{| t_kid := 1; t_unique := true; t_index := t_schema "t*a"%string 1 |};
   {| t_kid := 2; t_unique := true; t_index := t_schema "t*b"%string 2 |}].
Proof. done. Qed.

Lemma t_own : own_targets t_env = targets t_env.
Proof. reflexivity. Qed.

Lemma t_indexed f : f = f_id \/ f = f_a \/ f = f_b -> indexed t_table (int_part f).
Proof. intros [->|[->| ->]]; (split; [by apply (supported_fixed _ _ 4)|done]). Qed.

Lemma t_pk_index : index_definition t_table t_pk_kd (unique_key f_id) [int_part f_id] [].
Proof.
  split; try done.
  - constructor; [apply t_indexed; by left|constructor].
  - exists 0%nat, (unique_key f_id). split_and!; [done..|]. by left.
Qed.

Lemma t_sk_index keyno f : key_info t_table !! keyno = Some (unique_key f) -> f = f_a \/ f = f_b ->
  index_definition t_table (t_sk_kd keyno) (unique_key f) [int_part f] [int_part f_id].
Proof.
  intros Hk Hf. split; try done.
  - constructor; [apply t_indexed; by right|constructor].
  - exists 0%nat, (unique_key f_id). split_and!; [done..|]. right. split_and!; [done..|].
    constructor; [apply t_indexed; by left|constructor].
Qed.

Lemma t_ready : table_ready sample_uninit t_env t_pk_kd (unique_key f_id) [int_part f_id] t_def.
Proof.
  split.
  - exact t_pk_index.
  - exact (set_up_index _ _ _ _ t_pk_index).
  - by apply (bool_decide_unpack _).
  - intros t Ht. rewrite t_targets in Ht.
    apply elem_of_cons in Ht as [->|[->|[]%elem_of_nil]%elem_of_cons]; (split_and!; [|done| |by apply (bool_decide_unpack _)]).
    + apply t_sk_index; [done|by left].
    + apply (set_up_index _ (unique_key f_a) [int_part f_a] [int_part f_id]). apply t_sk_index; [done|by left].
    + apply t_sk_index; [done|by right].
    + apply (set_up_index _ (unique_key f_b) [int_part f_b] [int_part f_id]). apply t_sk_index; [done|by right].
  - intros t Ht _. rewrite t_targets in Ht. by apply elem_of_cons in Ht as [->|[->|[]%elem_of_nil]%elem_of_cons].
  - by apply (bool_decide_unpack _).
  - intros t1 t2 H1 _ _ _. assert (t1 ∈ targets t_env) as Ht by by apply own_target. rewrite t_targets in Ht.
    by apply elem_of_cons in Ht as [->|[->|[]%elem_of_nil]%elem_of_cons].
Qed.

Abbreviation t_good := (row_good t_env [int_part f_id] t_def).

Lemma t_is_table : table t_env t_def t_good.
Proof. exact (with_primary_key _ _ _ _ _ _ t_ready). Qed.

(** The primary key of a row. *)
Definition t_key (buf : bytes) : bytes := row_key (fun _ => []) [int_part f_id] (m_pack_info (set_up t_pk_kd)) buf.

Lemma t_row_good buf : bytes_ok buf -> length buf = 13%nat -> t_good (t_key buf) buf.
Proof.
  intros Hb Hl. assert (forall f, f = f_id \/ f = f_a \/ f = f_b -> fixed_ok f buf) as Hf.
  { intros f [->|[->| ->]]; exists 4%nat; (split; [done|]); (split; [by apply bytes_ok_drop|]);
      unfold data; rewrite length_drop; simpl; lia. }
  split_and!; [done| |].
  - constructor; [|constructor]. right. apply Hf. by left.
  - intros t Ht. rewrite t_targets in Ht.
    apply elem_of_cons in Ht as [->|[->|[]%elem_of_nil]%elem_of_cons];
      (constructor; [|constructor; [|constructor]]); right; apply Hf; auto.
Qed.

Lemma t_start_consistent : consistent t_env t_good ∅ (txm t_start).
Proof.
  assert (forall tn key, view (txm t_start) tn key = None) as Hv by done.
  split; [by intros k buf H%lookup_empty_Some|by intros; rewrite Hv|by intros k buf H%lookup_empty_Some|].
  intros t _. split; try (intros *; by intros H%lookup_empty_Some). intros key r'. by rewrite Hv.
Qed.

Lemma some_pair_inj {A B : Type} (a a' : A) (b b' : B) : Some (a, b) = Some (a', b') -> a = a' /\ b = b'.
Proof. by intros [= -> ->]. Qed.

(** The statements that the witnesses run, and their states. *)
Definition run_write (st : ha_state mem_store) (buf : bytes) : ha_state mem_store * Z :=
  match write_row None t_env st None [] buf with Some x => x | None => (st, -1) end.

Definition run_update (st : ha_state mem_store) (old new : bytes) : ha_state mem_store * Z :=
  match update_row None t_env st old new with Some x => x | None => (st, -1) end.

Definition t_one : ha_state mem_store := (run_write t_start (t_row 1 10 20)).1.

Lemma t_one_write : write_row None t_env t_start None [] (t_row 1 10 20) = Some (t_one, 0).
Proof. by vm_compute. Qed.

Definition row_1 : bytes := t_row 1 10 20.

Lemma row_1_ok : t_good (t_key row_1) row_1.
Proof. apply t_row_good; [by apply (bool_decide_unpack _)|done]. Qed.

(** Packing a row gives its key. *)
Definition packs_to_key (buf : bytes) : bool :=
  match PackKeyRecord t_env [] buf with Some (k, _) => bool_decide (k = t_key buf) | None => false end.

Lemma packs_to_key_elim buf : packs_to_key buf = true -> exists rec, PackKeyRecord t_env [] buf = Some (t_key buf, rec).
Proof. unfold packs_to_key. destruct (PackKeyRecord _ _ _) as [[k rec]|]; [|done]. intros ->%bool_decide_eq_true. by exists rec. Qed.

Lemma row_1_packs : packs_to_key row_1 = true.
Proof. by vm_compute. Qed.

Lemma row_1_pk st : row_pk t_env (S := mem_store) st row_1 = Some (t_key row_1).
Proof. by vm_compute. Qed.

Lemma t_one_consistent : consistent t_env t_good {[t_key row_1 := row_1]} (txm t_one).
Proof.
  destruct (packs_to_key_elim _ row_1_packs) as [rec Hp].
  pose proof (entries_of_table _ _ _ _ _ _ t_ready) as Hen.
  destruct (write_row_spec None t_env t_good ∅ t_start None [] row_1 (t_key row_1) rec t_start_consistent Hp row_1_ok)
    as (st' & rc & E & H0 & _).
  pose proof t_one_write as E1. fold row_1 in E1. rewrite E in E1. apply some_pair_inj in E1 as [-> ->].
  by apply H0.
Qed.

Lemma write_row_witness :
  exists st' rc, write_row None t_env t_start None [] row_1 = Some (st', rc) /\
    (rc = 0 -> consistent t_env t_good {[t_key row_1 := row_1]} (txm st')).
Proof.
  destruct (packs_to_key_elim _ row_1_packs) as [rec Hp].
  destruct (write_row_correct None t_env t_def t_good ∅ t_start None []
    row_1 (t_key row_1) rec t_is_table t_start_consistent Hp row_1_ok) as (st' & rc & E & H0 & _).
  exists st', rc. split; [exact E|]. intros Hrc. apply (H0 Hrc). apply lookup_empty.
Defined.


(** Row 1 with another value of b, with another primary key, and with both. *)
Definition row_1b : bytes := t_row 1 10 21.
Definition row_2 : bytes := t_row 2 10 21.

Lemma row_1b_ok : t_good (t_key row_1b) row_1b.
Proof. apply t_row_good; [by apply (bool_decide_unpack _)|done]. Qed.

Lemma row_2_ok : t_good (t_key row_2) row_2.
Proof. apply t_row_good; [by apply (bool_decide_unpack _)|done]. Qed.

Lemma rows_pack : packs_to_key row_1b && packs_to_key row_2 = true.
Proof. by vm_compute. Qed.

Lemma row_keys : t_key row_1b = t_key row_1 /\ t_key row_2 <> t_key row_1.
Proof. by vm_compute. Qed.

Lemma update_row_witness :
  exists st' rc, update_row None t_env t_one row_1 row_1b = Some (st', rc) /\
    (rc = 0 -> consistent t_env t_good (<[t_key row_1b:=row_1b]> (delete (t_key row_1) {[t_key row_1 := row_1]})) (txm st')).
Proof.
  pose proof rows_pack as [Hp _]%andb_prop. apply packs_to_key_elim in Hp as [rec Hp].
  destruct (update_row_correct None t_env t_def t_good
    {[t_key row_1 := row_1]} t_one row_1 row_1b (t_key row_1) (t_key row_1b) rec t_is_table t_one_consistent (row_1_pk _))
    as (st' & rc & E & H0 & _).
  - apply lookup_singleton_eq.
  - exact Hp.
  - exact row_1b_ok.
  - exists st', rc. split; [exact E|]. intros Hrc. apply (H0 Hrc). intros Hne. destruct (Hne (proj1 row_keys)).
Defined.

(** [UPDATE t SET id = 2, b = 21 WHERE id = 1] on a table with the one row. *)
Lemma update_row_keeps_unique_key_witness :
  exists st' rc, update_row None t_env t_one row_1 row_2 = Some (st', rc) /\ rc <> 0.
Proof.
  pose proof rows_pack as [_ Hp]%andb_prop. apply packs_to_key_elim in Hp as [rec Hp].
  apply (update_row_keeps_unique_key None sample_uninit t_env t_pk_kd (unique_key f_id) [int_part f_id] t_def
    {[t_key row_1 := row_1]} t_one row_1 row_2 (t_key row_1) (t_key row_2) rec
    {| t_kid := 1; t_unique := true; t_index := t_schema "t*a"%string 1 |} t_ready t_one_consistent (row_1_pk _)).
  - apply lookup_singleton_eq.
  - exact Hp.
  - exact row_2_ok.
  - done.
  - exact (proj2 row_keys).
  - rewrite t_targets. apply list_elem_of_here.
  - reflexivity.
  - reflexivity.
Defined.

Definition t_none : ha_state mem_store :=
  match delete_row t_env t_one row_1 with Some (st, _) => st | None => t_one end.

Lemma t_none_delete : delete_row t_env t_one row_1 = Some (t_none, 0).
Proof. by vm_compute. Qed.

(** [INSERT] of the row and [DELETE]. *)
Lemma statements_consistent_witness :
  consistent t_env t_good (delete (t_key row_1) {[t_key row_1 := row_1]}) (txm t_none).
Proof.
  destruct (packs_to_key_elim _ row_1_packs) as [rec Hp].
  eapply (statements_consistent None t_env t_def t_good ∅ t_start).
  - exact t_is_table.
  - exact t_start_consistent.
  - eapply rtc_l; [|eapply rtc_once].
    + exact (step_write None t_env t_good ∅ t_start None [] row_1 (t_key row_1) rec t_one Hp row_1_ok
        (fun _ => lookup_empty _) t_one_write).
    + exact (step_delete None t_env t_good _ t_one row_1 (t_key row_1) t_none (row_1_pk _)
        (lookup_insert_eq _ _ _) t_none_delete).
Defined.

(** ** An update that fails after the first index *)

Definition row_3 : bytes := t_row 3 11 21.
Definition row_1c : bytes := t_row 1 12 21.

Definition t_two : ha_state mem_store := (run_write t_one row_3).1.

Lemma t_two_write : write_row None t_env t_one None [] row_3 = Some (t_two, 0).
Proof. by vm_compute. Qed.

Definition t_rows : gmap bytes bytes := <[t_key row_3:=row_3]> {[t_key row_1 := row_1]}.

Lemma row_3_packs : packs_to_key row_3 = true.
Proof. by vm_compute. Qed.

Lemma t_two_consistent : consistent t_env t_good t_rows (txm t_two).
Proof.
  destruct (packs_to_key_elim _ row_3_packs) as [rec Hp].
  pose proof (entries_of_table _ _ _ _ _ _ t_ready) as Hen.
  assert (t_good (t_key row_3) row_3) as Hg by (apply t_row_good; [by apply (bool_decide_unpack _)|done]).
  destruct (write_row_spec None t_env t_good {[t_key row_1 := row_1]} t_one None [] row_3 (t_key row_3) rec
    t_one_consistent Hp Hg) as (st' & rc & E & H0 & _).
  pose proof t_two_write as E1. rewrite E in E1. apply some_pair_inj in E1 as [-> ->]. by apply H0.
Qed.

Definition t_failed : ha_state mem_store := (run_update t_two row_1 row_1c).1.

Definition t_index_a : target := {| t_kid := 1; t_unique := true; t_index := t_schema "t*a"%string 1 |}.

(** The index has no entry for the row. *)
Definition entry_gone (st : ha_state mem_store) (t : target) (k buf : bytes) : bool :=
  match entry t_env t (Some []) k buf with
  | Some (key, _) => match view (txm st) (is_name (t_index t)) key with None => true | Some _ => false end
  | None => false
  end.

Lemma entry_gone_inconsistent st t k buf rows :
  entry_gone st t k buf = true -> t ∈ targets t_env -> rows !! k = Some buf -> ~ consistent t_env t_good rows (txm st).
Proof.
  unfold entry_gone. destruct (entry t_env t (Some []) k buf) as [[key r]|] eqn:He; [|done]. intros Hg Ht Hk Hco.
  destruct (ic_row _ _ _ _ _ (co_index _ _ _ _ Hco t Ht) k buf key r Hk He) as (r' & b0 & Hv & _). by rewrite Hv in Hg.
Qed.

Lemma t_failed_update : update_row None t_env t_two row_1 row_1c = Some (t_failed, HA_ERR_FOUND_DUPP_KEY).
Proof. by vm_compute. Qed.

Lemma t_failed_gone : entry_gone t_failed t_index_a (t_key row_1) row_1 = true.
Proof. by vm_compute. Qed.

Lemma t_rows_row_1 : t_rows !! t_key row_1 = Some row_1.
Proof. by vm_compute. Qed.

(** An update that is refused as a duplicate changes the indexes before.
    With the rows (1, 10, 20) and (3, 11, 21), the update of the first to
    (1, 12, 21) replaces its entry in the index on a before it finds the value
    21 in the index on b and returns; unlike [Insert], [Update] takes nothing
    back, and the row that stays in the table has no entry under its value of
    a, so that the data is not consistent with the rows any more. *)
Theorem update_not_reverted :
  consistent t_env t_good t_rows (txm t_two) /\
  update_row None t_env t_two row_1 row_1c = Some (t_failed, HA_ERR_FOUND_DUPP_KEY) /\
  ~ consistent t_env t_good t_rows (txm t_failed).
Proof.
  split; [exact t_two_consistent|]. split; [exact t_failed_update|].
  apply (entry_gone_inconsistent t_failed t_index_a (t_key row_1) row_1 t_rows t_failed_gone); [|exact t_rows_row_1].
  rewrite t_targets. apply list_elem_of_here.
Qed.

(** ** A deletion that is taken back

    The rows (1, 10, 20) and (3, 11, 21) are committed; then a transaction
    deletes the first and inserts (2, 10, 21), which the index on b refuses. *)

Definition commit_store (s : mem_store) : mem_store := {|
  ms_pending := ∅;
  ms_committed := omap id (ms_pending s) ∪ filter (fun x => ms_pending s !! x.1 = None) (ms_committed s) |}.

Lemma commit_store_view s : same_view s (commit_store s).
Proof.
  intros tn key. unfold view, commit_store. cbn [pending committed mem_laws ms_pending ms_committed].
  rewrite lookup_empty, lookup_union, lookup_omap, map_lookup_filter.
  destruct (ms_pending s !! (tn, key)) as [[w|]|] eqn:E; destruct (ms_committed s !! (tn, key)); simpl;
    try rewrite E; try done; by rewrite option_guard_True.
Qed.

Definition t_committed : ha_state mem_store := with_txm (commit_store (txm t_two)) t_two.

Definition t_deleted : ha_state mem_store :=
  match delete_row t_env t_committed row_1 with Some (st, _) => st | None => t_committed end.

Definition t_refused : ha_state mem_store := (run_write t_deleted row_2).1.

Lemma t_committed_consistent : consistent t_env t_good t_rows (txm t_committed).
Proof. eapply consistent_view; [apply commit_store_view|exact t_two_consistent]. Qed.

Lemma t_deleted_delete : delete_row t_env t_committed row_1 = Some (t_deleted, 0).
Proof. by vm_compute. Qed.

Lemma t_deleted_consistent : consistent t_env t_good (delete (t_key row_1) t_rows) (txm t_deleted).
Proof.
  pose proof (entries_of_table _ _ _ _ _ _ t_ready) as Hen.
  destruct (delete_row_spec t_env t_good t_rows t_committed row_1 (t_key row_1) t_committed_consistent
    (row_1_pk _) t_rows_row_1) as (st' & rc & E & _ & H0).
  rewrite t_deleted_delete in E. apply some_pair_inj in E as [<- <-]. by apply H0.
Qed.

Lemma t_refused_write : write_row None t_env t_deleted None [] row_2 = Some (t_refused, HA_ERR_FOUND_DUPP_KEY).
Proof. by vm_compute. Qed.

Abbreviation entry_of_a buf := (entry t_env t_index_a (Some []) (t_key buf) buf).

Lemma t_refused_entries :
  fst <$> entry_of_a row_2 = fst <$> entry_of_a row_1 /\ is_Some (entry_of_a row_1) /\ errkey t_refused = Some 2%nat /\
  (entry_of_a row_1 ≫= fun x => committed (txm t_deleted) (is_name (t_index t_index_a)) x.1) = snd <$> entry_of_a row_1.
Proof. vm_compute. split_and!; [done|by eexists|done..]. Qed.

Lemma same_first {A B : Type} (x y : option (A * B)) :
  fst <$> x = fst <$> y -> is_Some y -> exists a b b', x = Some (a, b) /\ y = Some (a, b').
Proof. destruct x as [[a b]|], y as [[a' b']|]; intros H [z Hz]; simplify_eq/=; by exists a', b, b'. Qed.

Lemma bound_second {A B : Type} (f : A -> option B) (x : option (A * B)) a b :
  (x ≫= fun p => f p.1) = snd <$> x -> x = Some (a, b) -> f a = Some b.
Proof. by intros H ->. Qed.

(** The entry of the deleted row in the index on a is seen again. *)
Lemma refused_write_restores_witness :
  ~ consistent t_env t_good (delete (t_key row_1) t_rows) (txm t_refused).
Proof.
  pose proof rows_pack as [_ Hp]%andb_prop. apply packs_to_key_elim in Hp as [rec Hp].
  destruct t_refused_entries as (H1 & H2 & Hk & Hc). destruct (same_first _ _ H1 H2) as (key & r2 & r & E2 & E1).
  apply (bound_second _ _ _ _ Hc) in E1.
  pose proof (refused_write_restores None t_env t_def t_good (delete (t_key row_1) t_rows) t_deleted None []
    row_2 (t_key row_2) rec t_refused 2 t_index_a key r2 r t_is_table t_deleted_consistent Hp row_2_ok t_refused_write Hk)
    as H.
  apply H; [discriminate|rewrite t_own, t_targets; apply list_elem_of_here|apply Nat.lt_1_2|exact E2|exact E1].
Defined.

(** ** An index entry that is not updated *)

(** The sample table with its index on the name. *)
Definition n_setup (kd : mono_key_def) : mono_key_def :=
  match key_def_setup sample_uninit sample_table kd with Some kd => kd | None => kd end.

Definition n_env : ha_env := {|
  ha_table := sample_table; ha_mem := fun _ => [];
  ha_fields := [{| Row.rf_field := sample_id; Row.rf_stored_in_db := true; Row.rf_part_of_pk := true |};
                {| Row.rf_field := sample_name; Row.rf_stored_in_db := true; Row.rf_part_of_pk := false |}];
  base_table_name := "n"%string; base_version := 1; pk_descr_ := n_setup sample_pk_kd;
  IndexNameSchema := [{| is_name := "n*pk"%string; is_kd := n_setup sample_pk_kd; is_SchemaTs := 1 |};
                      {| is_name := "n*name"%string; is_kd := n_setup sample_kd; is_SchemaTs := 1 |}];
  DirtyIndexes := []; is_insert_semantic_ := true; next_number_index := None;
  lock_write := true; lock_shared := false; is_covering := false |}.

(** The name that a read of the index alone finds for a row. *)
Definition name_in_index (st : ha_state mem_store) (buf : bytes) : option bytes :=
  match pack_record (fun _ => []) (n_setup sample_kd) sample_table buf None false None 0 with
  | None => None
  | Some ps =>
      match view (txm st) "n*name"%string (ps_tuple ps) with
      | None => None
      | Some r =>
          match unpack_record (n_setup sample_kd) sample_table (replicate 46 0) (ps_tuple ps) (unpack_info_ r) with
          | Some buf' => Some (varstring_data sample_name (data sample_name buf'))
          | None => None
          end
      end
  end.

Definition ann_space : bytes := sample_row 0 9 [97; 110; 110; 32].

Definition n_state (x : option (ha_state mem_store * Z)) : ha_state mem_store :=
  match x with Some (st, _) => st | None => t_start end.

Definition n_one : ha_state mem_store := n_state (write_row None n_env t_start None [] sample_ann).
Definition n_updated : ha_state mem_store := n_state (update_row None n_env n_one sample_ann ann_space).
Definition n_written : ha_state mem_store := n_state (write_row None n_env t_start None [] ann_space).

(** An update that does not change the key of an index entry.  Trailing
    spaces are not part of the key but of the unpack info; [Update] compares
    the keys alone.  After the name 'ann' becomes 'ann ', the index on the name
    still restores 'ann', where a row written with that name is restored as it
    is. *)
Theorem update_stale_unpack_info :
  write_row None n_env t_start None [] sample_ann = Some (n_one, 0) /\
  update_row None n_env n_one sample_ann ann_space = Some (n_updated, 0) /\
  write_row None n_env t_start None [] ann_space = Some (n_written, 0) /\
  name_in_index n_updated ann_space = Some [97; 110; 110] /\
  name_in_index n_written ann_space = Some [97; 110; 110; 32].
Proof. split_and!; by vm_compute. Qed.

End Statements.
