(* ===== verification/Bulk.v ===== *)
(** * Bulk: inserting many rows in one statement

    Between [start_bulk_insert] and [end_bulk_insert] of [ha_eloq]
    (storage/eloq/ha_eloq.cc), [write_row] does not look a new row up before
    writing it: [BulkInsert] writes the row, keeps its keys in a buffer per
    unique index, and [BulkUniqueCheck] reads the buffered keys in one request,
    when the buffers are full and at the end. *)

From stdpp Require Import gmap strings.
From S2P Require Import Prelude Slice Buff Charset Latin1 Copy Collation Field Placement Store.
From S2P Require Import Codec Packing VarFormat SpacePad Varchar KeySetup KeyDef KeyOrder Index KeyRead PkTuple.
From S2P Require Import Neighbour Double EloqKey Restore RoundTrip Layout KeyTuple Row Entry Hidden Handler.
Import Field Packing KeyDef KeyOrder Index KeyRead PkTuple EloqKey Entry Hidden Handler.

Module Bulk.

(** ** The transaction service

    [tx_UpsertUnique]: [TxUpsert] with [check_unique], which refuses a key that
    the transaction has already written; [tx_BatchReadStored]: the request of
    [BulkUniqueCheck], which reads for update what is stored behind the writes
    of the transaction, and returns the status of every key. *)
Class BulkService (S : Type) := {
  tx_UpsertUnique : S -> table_name -> Z -> bytes -> option EloqRecord -> OperationType -> S * TxErrorCode;
  tx_BatchReadStored : S -> table_name -> Z -> list bytes -> S * (TxErrorCode + list RecordStatus)
}.

(** ** The buffers *)

Abbreviation BulkInsertBuffer := (list (bytes * EloqRecord)).

(** A schema version and the buffer, by the name of the unique index. *)
Abbreviation sk_buffers := (gmap table_name (Z * BulkInsertBuffer)).

(** The handler with the members of a bulk insert.  [shown_row]: key and record
    that [DecodeRecord] puts into the record of the table for the message on a
    duplicate primary key. *)
Record bulk_state (S : Type) := {
  bk_ha : ha_state S;
  is_duplicate_error_ : bool;
  is_bulk_insert_ : bool;
  pk_bulk_insert_buffer_ : BulkInsertBuffer;
  unique_sk_bulk_insert_buffer_ : sk_buffers;
  shown_row : option (bytes * EloqRecord)
}.
Arguments bk_ha {S}.
Arguments is_duplicate_error_ {S}.
Arguments is_bulk_insert_ {S}.
Arguments pk_bulk_insert_buffer_ {S}.
Arguments unique_sk_bulk_insert_buffer_ {S}.
Arguments shown_row {S}.

(** The operations that [extra] distinguishes, and one for all others. *)
Inductive ha_extra_function :=
  | HA_EXTRA_KEYREAD
  | HA_EXTRA_NO_KEYREAD
  | HA_EXTRA_FLUSH
  | HA_EXTRA_INSERT_WITH_UPDATE
  | HA_EXTRA_NO_IGNORE_DUP_KEY
  | HA_EXTRA_IGNORE_DUP_KEY
  | HA_EXTRA_OTHER.

Abbreviation batch_read_size_ := 2500%nat (only parsing).

Section Bulk.

Context {S : Type} `{!TxService S, !BulkService S} (storage_hd : option (DataStoreHandler S)) (env : ha_env).

(** [UNIQUE_INDEX_NAME_PREFIX] of the transaction service; whether the first
    column of the primary key is an auto-increment column; the order in which
    an unordered map is iterated. *)
Context (UNIQUE_INDEX_NAME_PREFIX : string) (pk_next_number : bool).
Context (iteration : sk_buffers -> list (table_name * (Z * BulkInsertBuffer))).

Definition with_ha (ha : ha_state S) (st : bulk_state S) : bulk_state S := {|
  bk_ha := ha; is_duplicate_error_ := is_duplicate_error_ st; is_bulk_insert_ := is_bulk_insert_ st;
  pk_bulk_insert_buffer_ := pk_bulk_insert_buffer_ st;
  unique_sk_bulk_insert_buffer_ := unique_sk_bulk_insert_buffer_ st; shown_row := shown_row st |}.

Definition with_pk_buffer (b : BulkInsertBuffer) (st : bulk_state S) : bulk_state S := {|
  bk_ha := bk_ha st; is_duplicate_error_ := is_duplicate_error_ st; is_bulk_insert_ := is_bulk_insert_ st;
  pk_bulk_insert_buffer_ := b;
  unique_sk_bulk_insert_buffer_ := unique_sk_bulk_insert_buffer_ st; shown_row := shown_row st |}.

Definition with_sk_buffers (m : sk_buffers) (st : bulk_state S) : bulk_state S := {|
  bk_ha := bk_ha st; is_duplicate_error_ := is_duplicate_error_ st; is_bulk_insert_ := is_bulk_insert_ st;
  pk_bulk_insert_buffer_ := pk_bulk_insert_buffer_ st; unique_sk_bulk_insert_buffer_ := m; shown_row := shown_row st |}.

Definition with_modes (duplicate_error bulk_insert : bool) (st : bulk_state S) : bulk_state S := {|
  bk_ha := bk_ha st; is_duplicate_error_ := duplicate_error; is_bulk_insert_ := bulk_insert;
  pk_bulk_insert_buffer_ := pk_bulk_insert_buffer_ st;
  unique_sk_bulk_insert_buffer_ := unique_sk_bulk_insert_buffer_ st; shown_row := shown_row st |}.

Definition with_shown (row : option (bytes * EloqRecord)) (st : bulk_state S) : bulk_state S := {|
  bk_ha := bk_ha st; is_duplicate_error_ := is_duplicate_error_ st; is_bulk_insert_ := is_bulk_insert_ st;
  pk_bulk_insert_buffer_ := pk_bulk_insert_buffer_ st;
  unique_sk_bulk_insert_buffer_ := unique_sk_bulk_insert_buffer_ st; shown_row := row |}.

Definition extra (operation : ha_extra_function) (st : bulk_state S) : bulk_state S :=
  match operation with
  | HA_EXTRA_IGNORE_DUP_KEY => with_modes false (is_bulk_insert_ st) st
  | _ => st
  end.

(** *** Starting *)

(** The primary key is checked, but not with upsert semantics, a hidden
    primary key or an auto-increment column. *)
Definition check_primary_key : bool :=
  let pk := primary_key (ha_table env) in
  is_insert_semantic_ env && bool_decide (pk <> None) &&
  negb (bool_decide (pk = next_number_index env) && pk_next_number).

(** The prefix occurs in the name of the index. *)
Definition has_unique_name (t : target) : bool :=
  match String.index 0 UNIQUE_INDEX_NAME_PREFIX (is_name (t_index t)) with Some _ => true | None => false end.

(** [emplace] leaves a buffer that is there. *)
Definition emplace_buffer (m : sk_buffers) (t : target) : sk_buffers :=
  if has_unique_name t then
    match m !! is_name (t_index t) with
    | Some _ => m
    | None => <[is_name (t_index t) := (is_SchemaTs (t_index t), [])]> m
    end
  else m.

(** The number of rows only sets the capacity of the buffers. *)
Definition start_bulk_insert (st : bulk_state S) : bulk_state S :=
  if negb (is_duplicate_error_ st) then with_modes (is_duplicate_error_ st) false st
  else
    let has_unique_key := existsb has_unique_name (targets env) in
    if negb check_primary_key && negb has_unique_key then with_modes (is_duplicate_error_ st) false st
    else
      let st := if check_primary_key then with_modes (is_duplicate_error_ st) true st else st in
      with_sk_buffers (fold_left emplace_buffer (targets env) (unique_sk_bulk_insert_buffer_ st)) st.

(** *** Checking the buffered keys *)

(** [None]: UINT_MAX. *)
Definition IndexId (name : table_name) : option nat :=
  fst <$> list_find (fun index => is_name index = name) (IndexNameSchema env).

(** The first tuple that was found. *)
Fixpoint dup_loop (statuses : list RecordStatus) (idx : nat) : option nat :=
  match statuses with
  | [] => None
  | RecordNormal :: _ => Some idx
  | _ :: statuses => dup_loop statuses (Datatypes.S idx)
  end.

(** The result code and [dup_index]; [err_key] is the number of the index. *)
Definition UniqueConstraintChecking (ha : ha_state S) (batch_tuples : BulkInsertBuffer) (bulk_size : nat)
    (tn : table_name) (version : Z) (err_key : option nat) : ha_state S * Z * nat :=
  let '(s, r) := tx_BatchReadStored (txm ha) tn version (map fst batch_tuples) in
  let ha := with_txm s ha in
  match r with
  | inl e => (with_error e ha, convert_tx_error e, 0%nat)
  | inr statuses =>
      match dup_loop (take bulk_size statuses) 0 with
      | Some idx => (with_errkey err_key ha, HA_ERR_FOUND_DUPP_KEY, idx)
      | None => (ha, 0, 0%nat)
      end
  end.

(** The tuples of the next index replace those of the last one, or are added
    when there are none.  [None]: an access past the end of the buffer. *)
Fixpoint fill_tuples (bulk_size : nat) (idxs : list nat) (buffer batch_tuples : BulkInsertBuffer)
    : option BulkInsertBuffer :=
  match idxs with
  | [] => Some batch_tuples
  | idx :: idxs =>
      match buffer !! idx with
      | None => None
      | Some kv =>
          fill_tuples bulk_size idxs buffer
            (if (length batch_tuples =? bulk_size)%nat then <[idx:=kv]> batch_tuples else batch_tuples ++ [kv])
      end
  end.

Fixpoint check_loop (st : bulk_state S) (bulk_size : nat) (batch_tuples : BulkInsertBuffer)
    (indexes : list (table_name * (Z * BulkInsertBuffer))) : option (bulk_state S * Z) :=
  match indexes with
  | [] => Some (st, 0)
  | (tn, (version, buffer)) :: indexes =>
      match fill_tuples bulk_size (seq 0 bulk_size) buffer batch_tuples with
      | None => None
      | Some batch_tuples =>
          let '(ha, res, _) := UniqueConstraintChecking (bk_ha st) batch_tuples bulk_size tn version (IndexId tn) in
          let st := with_ha ha (with_sk_buffers (<[tn := (version, [])]> (unique_sk_bulk_insert_buffer_ st)) st) in
          if res =? 0 then check_loop st bulk_size batch_tuples indexes else Some (st, res)
      end
  end.

Definition BulkUniqueCheck (st : bulk_state S) (bulk_size : nat) : option (bulk_state S * Z) :=
  let check_indexes st batch_tuples :=
    check_loop st bulk_size batch_tuples (iteration (unique_sk_bulk_insert_buffer_ st)) in
  if check_primary_key then
    match mapM (fun idx => pk_bulk_insert_buffer_ st !! idx) (seq 0 bulk_size) with
    | None => None
    | Some batch_tuples =>
        let '(ha, res, dup_index) :=
          UniqueConstraintChecking (bk_ha st) batch_tuples bulk_size (base_table_name env) (base_version env)
            (primary_key (ha_table env)) in
        let st := with_ha ha st in
        let st := if res =? HA_ERR_FOUND_DUPP_KEY then with_shown (batch_tuples !! dup_index) st else st in
        let st := with_pk_buffer [] st in
        if res =? 0 then check_indexes st batch_tuples else Some (st, res)
    end
  else check_indexes st [].

(** *** Writing a row *)

Definition TxUpsert (ha : ha_state S) (index : index_schema) (key : bytes) (rec : EloqRecord) (check_unique : bool)
    : ha_state S * TxErrorCode :=
  if check_unique then
    let '(s, err) := tx_UpsertUnique (txm ha) (is_name index) (is_SchemaTs index) key (Some rec) OpInsert in
    let ha := with_txm s ha in
    (if decide (err = NO_ERROR) then ha else with_error err ha, err)
  else upsert ha index key (Some rec) OpInsert.

(** The entry is added to the buffer of a unique index; there is none: [None],
    and so for a duplicate in an index that is not a unique one. *)
Fixpoint bulk_loop (st : bulk_state S) (eloq_key buf : bytes) (ts : list target) : option (bulk_state S * option Z) :=
  match ts with
  | [] => Some (st, None)
  | t :: ts =>
      match entry env t (Some []) eloq_key buf with
      | None => None
      | Some (new_sk, new_sk_rec) =>
          let m := unique_sk_bulk_insert_buffer_ st in
          let name := is_name (t_index t) in
          match
            (if t_unique t then
               match m !! name with
               | None => None
               | Some (version, buffer) => Some (<[name := (version, buffer ++ [(new_sk, new_sk_rec)])]> m)
               end
             else Some m)
          with
          | None => None
          | Some m =>
              let '(ha, err) := TxUpsert (bk_ha st) (t_index t) new_sk new_sk_rec (t_unique t) in
              let st := with_ha ha (with_sk_buffers m st) in
              if decide (err = NO_ERROR) then bulk_loop st eloq_key buf ts
              else if decide (err = DUPLICATE_KEY) then
                if t_unique t then
                  Some (with_ha (with_errkey (Some (t_kid t)) ha)
                          (with_sk_buffers (alter (fun vb => (vb.1, [])) name m) st), Some HA_ERR_FOUND_DUPP_KEY)
                else None
              else Some (st, Some HA_ERR_OUT_OF_MEM)
          end
      end
  end.

(** The number of buffered rows; [None]: there is no first buffer. *)
Definition bulk_insert_size (st : bulk_state S) : option nat :=
  if check_primary_key then Some (length (pk_bulk_insert_buffer_ st))
  else
    match iteration (unique_sk_bulk_insert_buffer_ st) with
    | [] => None
    | (_, (_, buffer)) :: _ => Some (length buffer)
    end.

Definition BulkInsert (st : bulk_state S) (buf eloq_key : bytes) (eloq_rec : EloqRecord) : option (bulk_state S * Z) :=
  match bulk_loop st eloq_key buf (targets env) with
  | None => None
  | Some (st, Some rc) => Some (st, rc)
  | Some (st, None) =>
      let st := if check_primary_key
                then with_pk_buffer (pk_bulk_insert_buffer_ st ++ [(eloq_key, eloq_rec)]) st else st in
      let '(ha, err) := TxUpsert (bk_ha st) (base_index env) eloq_key eloq_rec check_primary_key in
      let st := with_ha ha st in
      if decide (err = NO_ERROR) then
        match bulk_insert_size st with
        | None => None
        | Some size => if (batch_read_size_ <=? size)%nat then BulkUniqueCheck st size else Some (st, 0)
        end
      else if decide (err = DUPLICATE_KEY) then
        Some (with_ha (with_errkey (primary_key (ha_table env)) ha) (with_pk_buffer [] st), HA_ERR_FOUND_DUPP_KEY)
      else Some (st, HA_ERR_OUT_OF_MEM)
  end.

Definition insert_row (st : bulk_state S) (uuid buf : bytes) : option (bulk_state S * Z) :=
  match PackKeyRecord env uuid buf with
  | None => None
  | Some (new_mono_key, new_rec) =>
      if is_bulk_insert_ st && is_duplicate_error_ st then BulkInsert st buf new_mono_key new_rec
      else
        match Insert storage_hd env (bk_ha st) buf new_mono_key new_rec with
        | None => None
        | Some (ha, rc) => Some (with_ha ha st, rc)
        end
  end.

(** [write_row] with both paths; [auto_increment] is the result of
    [update_auto_increment] when the table has such a column. *)
Definition bulk_write_row (st : bulk_state S) (auto_increment : option Z) (uuid buf : bytes)
    : option (bulk_state S * Z) :=
  match auto_increment with
  | Some e => if e =? 0 then insert_row st uuid buf else Some (st, HA_ERR_ELOQ_AUTO_INCREMENT_FAILED)
  | None => insert_row st uuid buf
  end.

(** *** Ending *)

Definition rest_size (st : bulk_state S) : nat :=
  let size := length (pk_bulk_insert_buffer_ st) in
  if (size =? 0)%nat then
    match iteration (unique_sk_bulk_insert_buffer_ st) with
    | [] => size
    | (_, (_, buffer)) :: _ => length buffer
    end
  else size.

Definition end_bulk_insert (st : bulk_state S) : option (bulk_state S * Z) :=
  match
    (if is_bulk_insert_ st && (0 <? rest_size st)%nat then BulkUniqueCheck st (rest_size st) else Some (st, 0))
  with
  | None => None
  | Some (st, res) => Some (with_modes true false (with_pk_buffer [] (with_sk_buffers ∅ st)), res)
  end.

(** ** A statement

    The rows of an INSERT are written one after the other, up to the first
    error. *)
Fixpoint write_rows (st : bulk_state S) (rows : list (option Z * bytes * bytes)) : option (bulk_state S * Z) :=
  match rows with
  | [] => Some (st, 0)
  | (auto_increment, uuid, buf) :: rows =>
      match bulk_write_row st auto_increment uuid buf with
      | None => None
      | Some (st, rc) => if rc =? 0 then write_rows st rows else Some (st, rc)
      end
  end.

End Bulk.

End Bulk.
