(* ===== verification/BulkRows.v ===== *)
(** * BulkRows: the rows of a bulk insert

    The theorems on [Bulk] (storage/eloq/ha_eloq.cc).  When every call of an
    INSERT of many rows reports success, the rows are in the table and none of
    them was a duplicate, although no row is looked up before it is written; a
    duplicate that is reported is one.  Then the two cases where the buffers go
    out of step, so that the check reads past the end of one. *)

From stdpp Require Import gmap strings.
From S2P Require Import Prelude Slice Buff Charset Latin1 Copy Collation Field Placement Store.
From S2P Require Import Codec Packing VarFormat SpacePad Varchar KeySetup KeyDef KeyOrder Index KeyRead PkTuple.
From S2P Require Import Neighbour Double EloqKey Restore RoundTrip Layout KeyTuple Row Entry Hidden Handler Consistency Tables.
From S2P Require Import Statements Bulk.
Import Field Packing KeyDef KeyOrder Index KeyRead PkTuple EloqKey Entry Hidden Handler Consistency Tables Bulk.

Module BulkRows.

(** ** What a transaction sees

    A checked write succeeds only when the transaction has not written the key
    already, and is then a write like any other; the batch read tells what is
    committed. *)
Class BulkLaws (S : Type) `{!TxService S, !TxLaws S, !BulkService S} := {
  law_upsert_unique s tn v key rec op s' : tx_UpsertUnique s tn v key rec op = (s', NO_ERROR) ->
    (forall r, pending s tn key <> Some (Some r)) /\ committed s' = committed s /\
    forall tn' key', pending s' tn' key' = if decide (tn' = tn /\ key' = key) then Some rec else pending s tn' key';
  law_upsert_duplicate s tn v key rec op s' : tx_UpsertUnique s tn v key rec op = (s', DUPLICATE_KEY) ->
    exists r, pending s tn key = Some (Some r);
  law_upsert_unchecked s tn v key rec op s' : tx_Upsert s tn v key rec op <> (s', DUPLICATE_KEY);
  law_stored s tn v keys s' r : tx_BatchReadStored s tn v keys = (s', r) ->
    pending s' = pending s /\ committed s' = committed s /\
    match r with
    | inl e => e <> NO_ERROR
    | inr statuses =>
        Forall2 (fun key status => status = RecordNormal /\ is_Some (committed s tn key) \/
                                   status = RecordDeleted /\ committed s tn key = None) keys statuses
    end
}.

Section BulkRows.

Context {S : Type} `{!TxService S, !TxLaws S, !BulkService S, !BulkLaws S} (storage_hd : option (DataStoreHandler S)).
Context (env : ha_env) (good : bytes -> bytes -> Prop) `{!Entries env good}.
Context (prefix : string) (pk_next_number : bool).
Context (iteration : sk_buffers -> list (table_name * (Z * BulkInsertBuffer))).

(** An iteration visits every buffer once. *)
Hypothesis iteration_perm : forall m, iteration m ≡ₚ map_to_list m.

Abbreviation name t := (is_name (t_index t)).
Abbreviation check_pk := (check_primary_key env pk_next_number).

(** ** Writes *)

Lemma TxUpsert_spec ha index key rec unique ha' : TxUpsert ha index key rec unique = (ha', NO_ERROR) ->
  (unique = true -> forall r, pending (txm ha) (is_name index) key <> Some (Some r)) /\
  committed (txm ha') = committed (txm ha) /\
  forall tn key', pending (txm ha') tn key' =
    if decide (tn = is_name index /\ key' = key) then Some (Some rec) else pending (txm ha) tn key'.
Proof.
  destruct unique; cbn [TxUpsert]; [|intros H%upsert_spec; by split].
  destruct (tx_UpsertUnique _ _ _ _ _ _) as [s err] eqn:E. intros [= <- ->]. rewrite decide_True by done.
  apply law_upsert_unique in E as (Hn & Hc & Hp). by split_and!.
Qed.

Lemma TxUpsert_sees ha index key rec unique ha' tn : TxUpsert ha index key rec unique = (ha', NO_ERROR) ->
  forall key', sees ha' tn key' =
    if decide (tn = is_name index) then vupd key (Some rec) (sees ha tn) key' else sees ha tn key'.
Proof.
  intros (_ & Hc & Hp)%TxUpsert_spec key'. unfold sees, view, vupd. rewrite Hp, Hc. repeat case_decide; naive_solver.
Qed.

(** A checked write leaves the key free for the check against what is
    committed. *)
Lemma TxUpsert_free ha index key rec ha' : TxUpsert ha index key rec true = (ha', NO_ERROR) ->
  committed (txm ha) (is_name index) key = None -> sees ha (is_name index) key = None.
Proof.
  intros (Hn & _)%TxUpsert_spec Hc. unfold sees, view. rewrite Hc.
  destruct (pending _ _ _) as [[r|]|] eqn:E; [|done..]. by destruct (Hn eq_refl r).
Qed.

Lemma TxUpsert_duplicate ha index key rec unique ha' : TxUpsert ha index key rec unique = (ha', DUPLICATE_KEY) ->
  unique = true /\ exists r, pending (txm ha) (is_name index) key = Some (Some r).
Proof.
  destruct unique; cbn [TxUpsert].
  - destruct (tx_UpsertUnique _ _ _ _ _ _) as [s err] eqn:E. intros [= <- ->]. by apply law_upsert_duplicate in E.
  - unfold upsert. destruct (tx_Upsert _ _ _ _ _ _) as [s err] eqn:E. intros [= <- ->].
    by apply law_upsert_unchecked in E.
Qed.

(** ** The buffers

    [batch]: the rows that were written since the last check. *)

Abbreviation row := (bytes * bytes)%type (only parsing).

Definition holds (t : target) (batch : list row) (buffer : BulkInsertBuffer) : Prop :=
  Forall2 (fun r kv => entry env t (Some []) r.1 r.2 = Some kv) batch buffer.

Definition sk_hold (batch : table_name -> list row) (m : sk_buffers) : Prop :=
  map_Forall (fun tn vb => exists t, t ∈ own_targets env /\ t_unique t = true /\ name t = tn /\
                                     holds t (batch tn) vb.2) m.

Definition all_there (m : sk_buffers) : Prop :=
  forall t, t ∈ own_targets env -> t_unique t = true -> is_Some (m !! name t).

Lemma unique_own t : t ∈ targets env -> t_unique t = true -> t ∈ own_targets env.
Proof.
  intros [H|H]%elem_of_app Hu; [done|]. by apply list_elem_of_fmap in H as (i & -> & _).
Qed.

Lemma name_inj t1 t2 : t1 ∈ targets env -> t2 ∈ targets env -> name t1 = name t2 -> t1 = t2.
Proof.
  intros [i H1]%list_elem_of_lookup_1 [j H2]%list_elem_of_lookup_1 E. pose proof (names_NoDup env good) as Hn.
  assert (i = j) as ->; [|congruence].
  apply (NoDup_lookup _ _ _ (name t1) Hn); apply list_lookup_fmap_Some; [by exists t1|by exists t2].
Qed.

(** ** The loop over the indexes *)

(** The rows in the buffers when the indexes [pre] have got the new row. *)
Definition progress (pre : list target) (batch : list row) (r : row) (tn : table_name) : list row :=
  if decide (tn ∈ map (fun t => name t) pre) then batch ++ [r] else batch.

Lemma progress_app pre t batch r tn :
  progress (pre ++ [t]) batch r tn = if decide (tn = name t) then batch ++ [r] else progress pre batch r tn.
Proof.
  unfold progress. rewrite map_app. destruct (decide (tn = name t)) as [->|Hne].
  - apply decide_True. apply elem_of_app. right. by left.
  - apply decide_ext. rewrite elem_of_app. simpl. rewrite list_elem_of_singleton. tauto.
Qed.

Lemma sk_hold_other pre t batch r m : t_unique t = false -> t ∈ targets env ->
  sk_hold (progress pre batch r) m -> sk_hold (progress (pre ++ [t]) batch r) m.
Proof.
  intros Hu Ht H tn vb Hm. destruct (H tn vb Hm) as (t' & Ho & Hu' & <- & Hh). exists t'. split_and!; try done.
  rewrite progress_app, decide_False; [done|]. intros E. apply name_inj in E; [|by apply own_target|done]. congruence.
Qed.

Lemma sk_hold_append pre t batch k buf m version buffer kv :
  ~ name t ∈ map (fun t => name t) pre -> t ∈ targets env -> t_unique t = true ->
  sk_hold (progress pre batch (k, buf)) m -> m !! name t = Some (version, buffer) ->
  entry env t (Some []) k buf = Some kv ->
  sk_hold (progress (pre ++ [t]) batch (k, buf)) (<[name t := (version, buffer ++ [kv])]> m).
Proof.
  intros Hn Ht Hu H Hm He tn vb. rewrite progress_app. intros [[<- <-]|[Hne Hm']]%lookup_insert_Some.
  - exists t. split_and!; [by apply unique_own|done|done|]. rewrite decide_True by done.
    destruct (H _ _ Hm) as (t' & Ho & _ & Hn' & Hh). apply name_inj in Hn'; [|by apply own_target|done]. subst t'.
    unfold progress in Hh. rewrite decide_False in Hh by done. apply Forall2_app; [done|]. by constructor.
  - rewrite decide_False by done. by apply H.
Qed.

(** The keys of a row in unique indexes are not committed. *)
Definition row_free (ts : list target) (s : S) (r : row) : Prop :=
  forall t key rec, t ∈ ts -> t_unique t = true -> entry env t (Some []) r.1 r.2 = Some (key, rec) ->
    committed s (name t) key = None.

Definition bulk_outcome (k buf : bytes) (batch : list row) (s0 : S) (ts : list target) (ha ha' : ha_state S)
    (m' : sk_buffers) (o : option Z) : Prop :=
  match o with
  | None =>
      sk_hold (progress (targets env) batch (k, buf)) m' /\ all_there m' /\
      kept_outside env k buf (targets env) s0 (txm ha') /\
      (row_free ts s0 (k, buf) -> loop_result (ins_step env k buf) ts ha ha')
  | Some rc =>
      rc <> 0 /\ (rc = HA_ERR_FOUND_DUPP_KEY -> exists t key r r', t ∈ own_targets env /\ t_unique t = true /\
        errkey ha' = Some (t_kid t) /\ dup_errkey_ ha' = errkey ha' /\
        entry env t (Some []) k buf = Some (key, r) /\ pending s0 (name t) key = Some (Some r'))
  end.

Lemma progress_hold batch r m : sk_hold (progress (targets env) batch r) m -> sk_hold (fun _ => batch ++ [r]) m.
Proof.
  intros Hh tn vb Hm. destruct (Hh _ _ Hm) as (t & Ho & Hu & <- & Hx). exists t. split_and!; try done.
  unfold progress in Hx. rewrite decide_True in Hx; [done|]. apply list_elem_of_fmap. exists t.
  split; [done|by apply own_target].
Qed.

Lemma all_there_insert m tn vb : all_there m -> all_there (<[tn:=vb]> m).
Proof. intros H t Ho Hu. apply lookup_insert_is_Some'. right. by apply H. Qed.

Lemma kept_outside_TxUpsert k buf pre t s0 ha key r unique ha' :
  entry env t (Some []) k buf = Some (key, r) -> TxUpsert ha (t_index t) key r unique = (ha', NO_ERROR) ->
  kept_outside env k buf pre s0 (txm ha) -> kept_outside env k buf (pre ++ [t]) s0 (txm ha').
Proof.
  intros He (_ & Hc & Hp)%TxUpsert_spec [Hc0 Hp0]. split; [by rewrite Hc|]. intros tn key' Hn. rewrite Hp.
  rewrite decide_False, Hp0; [done| |].
  - intros (t' & r' & Hin & Hrest). apply Hn. exists t', r'. split; [apply elem_of_app; by left|done].
  - intros [-> ->]. apply Hn. exists t, r. split; [apply elem_of_app; right; apply list_elem_of_here|done].
Qed.

(** Writing the entry of the row to one index. *)
Lemma bulk_outcome_cons k buf batch s0 t ts ha ha1 ha' m' o key r :
  NoDup (map (fun t => name t) (t :: ts)) -> entry env t (Some []) k buf = Some (key, r) ->
  committed (txm ha) = committed s0 -> TxUpsert ha (t_index t) key r (t_unique t) = (ha1, NO_ERROR) ->
  bulk_outcome k buf batch s0 ts ha1 ha' m' o -> bulk_outcome k buf batch s0 (t :: ts) ha ha' m' o.
Proof.
  intros Hnd He Hc Eu. destruct o; [done|]. intros (Hh & Ha & Hk & Hl). split_and!; try done. intros Hfree.
  pose proof (fun tn => TxUpsert_sees _ _ _ _ _ _ tn Eu) as Hv.
  apply (loop_result_cons _ t ts ha ha1); try done; [apply ins_step_respects| | |].
  - exists key, r. split_and!; [done| |].
    + intros Hu. rewrite Hu in Eu. apply (TxUpsert_free _ _ _ _ _ Eu). rewrite Hc.
      apply (Hfree t key r); [apply list_elem_of_here|done|done].
    + intros q. by rewrite Hv, decide_True.
  - intros tn q Hne. by rewrite Hv, decide_False.
  - apply Hl. intros t' key' r' Hin. apply Hfree. by apply list_elem_of_further.
Qed.

Lemma bulk_loop_spec k buf batch s0 : good k buf -> forall ts pre st,
  targets env = pre ++ ts -> kept_outside env k buf pre s0 (txm (bk_ha st)) ->
  sk_hold (progress pre batch (k, buf)) (unique_sk_bulk_insert_buffer_ st) ->
  all_there (unique_sk_bulk_insert_buffer_ st) ->
  exists ha' m' o, bulk_loop env st k buf ts = Some (with_ha ha' (with_sk_buffers m' st), o) /\
    bulk_outcome k buf batch s0 ts (bk_ha st) ha' m' o.
Proof.
  intros Hg. induction ts as [|t ts IH]; intros pre st E Hk Hh Ha.
  { exists (bk_ha st), (unique_sk_bulk_insert_buffer_ st), None. split; [by destruct st|]. rewrite app_nil_r in E.
    unfold bulk_outcome. rewrite E. split_and!; try done. intros _. split; [|done]. intros t H%elem_of_nil. done. }
  assert (t ∈ targets env) as Hin by (rewrite E; apply elem_of_app; right; apply list_elem_of_here).
  pose proof (names_NoDup env good) as Hnd. rewrite E, map_app in Hnd.
  apply list.NoDup_app in Hnd as (_ & Hpre & Hnd).
  destruct (en_entry t k buf Hin Hg) as (key & r & _ & He & _).
  cbn [bulk_loop]. rewrite He. cbv zeta.
  assert (exists m, (if t_unique t then
      match unique_sk_bulk_insert_buffer_ st !! name t with
      | Some (version, buffer) => Some (<[name t:=(version, buffer ++ [(key, r)])]> (unique_sk_bulk_insert_buffer_ st))
      | None => None end else Some (unique_sk_bulk_insert_buffer_ st)) = Some m /\
    sk_hold (progress (pre ++ [t]) batch (k, buf)) m /\ all_there m) as (m & -> & Hm & Ham).
  { destruct (t_unique t) eqn:Hu; [|eexists; split; [done|split; [by apply sk_hold_other|done]]].
    destruct (Ha t (unique_own t Hin Hu) Hu) as [[version buffer] Hb]. rewrite Hb. eexists. split; [done|].
    split; [|by apply all_there_insert]. apply sk_hold_append; try done. intros H. apply (Hpre _ H). by left. }
  destruct (TxUpsert _ _ _ _ _) as [ha err] eqn:Eu. case_decide as Herr; [subst err|case_decide as Hdup; [subst err|]].
  - destruct (IH (pre ++ [t]) (with_ha ha (with_sk_buffers m st))) as (ha' & m' & o & Eo & Ho); try done.
    { by rewrite <- app_assoc. } { by eapply kept_outside_TxUpsert. }
    exists ha', m', o. split; [exact Eo|]. eapply bulk_outcome_cons; try done. apply Hk.
  - apply TxUpsert_duplicate in Eu as [Hu [r' Hp]]. rewrite Hu. eexists _, _, _. split; [reflexivity|]. split; [done|].
    intros _. exists t, key, r, r'. split_and!; try done; [by apply unique_own|]. rewrite <- Hp. symmetry. apply Hk.
    by eapply touched_name.
  - by eexists _, _, _.
Qed.

(** ** The check *)

(** The indexes of the table have different names. *)
Hypothesis schema_names : NoDup (map is_name (IndexNameSchema env)).

Lemma key_targets_lookup kid keys schemas t : t ∈ key_targets env kid keys schemas ->
  exists i, t_kid t = (kid + i)%nat /\ schemas !! i = Some (t_index t).
Proof.
  revert kid schemas. induction keys as [|key keys IH]; intros kid [|index schemas]; simpl; try by intros H%elem_of_nil.
  assert (t ∈ key_targets env (Datatypes.S kid) keys schemas ->
    exists i, t_kid t = (kid + i)%nat /\ (index :: schemas) !! i = Some (t_index t)) as Hrest.
  { intros (i & -> & Hi)%IH. exists (Datatypes.S i). split; [lia|done]. }
  case_decide; [done|]. intros [->|H1]%elem_of_cons; [exists 0%nat; split; [simpl; lia|done]|by apply Hrest].
Qed.

Lemma own_not_primary t : t ∈ own_targets env -> Some (t_kid t) <> primary_key (ha_table env).
Proof.
  unfold own_targets. generalize 0%nat (key_info (ha_table env)) (IndexNameSchema env). intros kid keys.
  revert kid. induction keys as [|key keys IH]; intros kid [|index schemas]; simpl; try by intros H%elem_of_nil.
  case_decide as Hk; [apply IH|]. intros [->|H1]%elem_of_cons; [done|by apply (IH _ _ H1)].
Qed.

Lemma IndexId_own t : t ∈ own_targets env -> IndexId env (name t) = Some (t_kid t).
Proof.
  intros (i & Hk & Hi)%key_targets_lookup. simpl in Hk. unfold IndexId. rewrite Hk.
  rewrite (proj2 (list_find_Some _ _ i (t_index t))); [done|]. split_and!; [done|done|].
  intros j y Hj Hlt Hy. assert (j = i); [|lia].
  apply (NoDup_lookup _ _ _ (name t) schema_names); apply list_lookup_fmap_Some; [by exists y|by exists (t_index t)].
Qed.

Lemma dup_loop_spec statuses i :
  match dup_loop statuses i with
  | Some j => exists d, j = (i + d)%nat /\ statuses !! d = Some RecordNormal
  | None => forall d, statuses !! d <> Some RecordNormal
  end.
Proof.
  revert i. induction statuses as [|x l IH]; intros i; simpl; [by intros d; rewrite lookup_nil|].
  assert (x <> RecordNormal ->
    match dup_loop l (Datatypes.S i) with
    | Some j => exists d, j = (i + d)%nat /\ (x :: l) !! d = Some RecordNormal
    | None => forall d, (x :: l) !! d <> Some RecordNormal
    end) as Hrest.
  { intros Hx. specialize (IH (Datatypes.S i)). destruct (dup_loop l _) as [j|].
    - destruct IH as (d & -> & Hd). exists (Datatypes.S d). split; [lia|done].
    - intros [|d]; [simpl; congruence|apply IH]. }
  destruct x; try by apply Hrest. exists 0%nat. split; [lia|done].
Qed.

Lemma unique_check_spec ha tuples tn v id ha' res idx :
  UniqueConstraintChecking ha tuples (length tuples) tn v id = (ha', res, idx) ->
  same_data (txm ha) (txm ha') /\
  (res = 0 -> forall kv, kv ∈ tuples -> committed (txm ha) tn kv.1 = None) /\
  (res = HA_ERR_FOUND_DUPP_KEY -> errkey ha' = id /\ dup_errkey_ ha' = id /\
     exists kv, kv ∈ tuples /\ is_Some (committed (txm ha) tn kv.1)).
Proof.
  unfold UniqueConstraintChecking. destruct (tx_BatchReadStored _ _ _ _) as [s r] eqn:E.
  apply law_stored in E as (Hp & Hc & Hr).
  assert (same_data (txm ha) s) as Hs by (split; [done|]; intros; by rewrite Hp).
  destruct r as [e|statuses].
  { intros [= <- <- <-]. split_and!; [done|by intros ?%convert_tx_error_0|by intros ?%convert_tx_error_dup]. }
  rewrite firstn_all2 by (apply Forall2_length in Hr; rewrite length_map in Hr; lia).
  pose proof (dup_loop_spec statuses 0) as Hd. destruct (dup_loop statuses 0) as [j|]; intros [= <- <- <-].
  - split_and!; [done|done|]. intros _. split_and!; [done|done|]. destruct Hd as (d & -> & Hd).
    destruct (Forall2_lookup_r _ _ _ _ _ Hr Hd) as (key & Hk & [[_ Hst]|[? _]]); [|done].
    apply list_lookup_fmap_Some in Hk as (kv & -> & Hkv). exists kv. split; [by eapply list_elem_of_lookup_2|done].
  - split_and!; [done| |done]. intros _ kv [d Hkv]%list_elem_of_lookup_1.
    assert (map fst tuples !! d = Some kv.1) as Hk by (apply list_lookup_fmap_Some; by exists kv).
    destruct (Forall2_lookup_l _ _ _ _ _ Hr Hk) as (st & Hst & [[-> _]|[_ Hn]]); [by destruct (Hd d)|done].
Qed.

Lemma fill_tuples_from n buffer : length buffer = n -> forall d i tuples, (i + d)%nat = n ->
  (length tuples = n /\ take i tuples = take i buffer \/ tuples = take i buffer) ->
  fill_tuples n (seq i d) buffer tuples = Some buffer.
Proof.
  intros Hn. induction d as [|d IH]; intros i tuples Hi Ht; simpl.
  - rewrite Nat.add_0_r in Hi. subst i. f_equal. destruct Ht as [[Hl Ht]| ->]; [|by rewrite firstn_all2 by lia].
    by rewrite !firstn_all2 in Ht by lia.
  - destruct (lookup_lt_is_Some_2 buffer i) as [kv Hkv]; [lia|]. rewrite Hkv. apply IH; [lia|].
    assert (length (take i buffer) = i) as Hli by (rewrite length_take; lia).
    destruct (Nat.eqb_spec (length tuples) n) as [Hl|Hl].
    + left. rewrite length_insert. split; [done|].
      assert (take i tuples = take i buffer) as E.
      { destruct Ht as [[_ Ht]| ->]; [done|]. lia. }
      assert (<[i:=kv]> tuples !! i = Some kv) as Hx by (apply list_lookup_insert_eq; lia).
      by rewrite (take_S_r _ _ _ Hx), (take_S_r _ _ _ Hkv), take_insert_ge, E.
    + right. destruct Ht as [[? _]| ->]; [done|]. by rewrite (take_S_r _ _ _ Hkv).
Qed.

Lemma fill_tuples_all buffer tuples : tuples = [] \/ length tuples = length buffer ->
  fill_tuples (length buffer) (seq 0 (length buffer)) buffer tuples = Some buffer.
Proof. intros Ht. apply fill_tuples_from; [done|done|]. rewrite !take_0. destruct Ht as [->|Ht]; [by right|by left]. Qed.

(** A row whose key is committed, in the index [kid]. *)
Definition stored_duplicate (s : S) (batch : list row) (kid : option nat) : Prop :=
  exists r, r ∈ batch /\
    (kid = primary_key (ha_table env) /\ is_Some (committed s (base_table_name env) r.1) \/
     exists t key rec, t ∈ own_targets env /\ t_unique t = true /\ kid = Some (t_kid t) /\
       entry env t (Some []) r.1 r.2 = Some (key, rec) /\ is_Some (committed s (name t) key)).

Definition check_outcome (s : S) (batch : list row) (ha' : ha_state S) (res : Z) : Prop :=
  same_data s (txm ha') /\
  (res = HA_ERR_FOUND_DUPP_KEY -> dup_errkey_ ha' = errkey ha' /\ stored_duplicate s batch (errkey ha')).

Lemma stored_duplicate_same s s' batch kid : same_data s s' -> stored_duplicate s' batch kid -> stored_duplicate s batch kid.
Proof. intros [Hc _]. unfold stored_duplicate. by rewrite Hc. Qed.

(** The buffers of the indexes that are still to be checked. *)
Definition to_check (indexes : list (table_name * (Z * BulkInsertBuffer))) (batch : list row) (tn : table_name) : list row :=
  if decide (tn ∈ map fst indexes) then batch else [].

Lemma sk_hold_clear indexes t version buffer batch m : t ∈ own_targets env -> t_unique t = true ->
  ~ name t ∈ map fst indexes -> sk_hold (to_check ((name t, (version, buffer)) :: indexes) batch) m ->
  sk_hold (to_check indexes batch) (<[name t := (version, [])]> m).
Proof.
  intros Ho Hu Hnot Hh tn vb. intros [[<- <-]|[Hne Hvb]]%lookup_insert_Some.
  - exists t. split_and!; try done. unfold to_check. rewrite decide_False by done. constructor.
  - destruct (Hh _ _ Hvb) as (t' & Ho' & Hu' & <- & Hb'). exists t'. split_and!; try done.
    unfold to_check in *. cbn [map fst] in Hb'.
    destruct (decide (name t' ∈ map fst indexes)) as [Hi|Hi];
      [rewrite decide_True in Hb' by (by right)|rewrite decide_False in Hb' by (by rewrite elem_of_cons; intros [|])];
      exact Hb'.
Qed.

Lemma check_loop_spec batch indexes st tuples :
  NoDup (map fst indexes) -> tuples = [] \/ length tuples = length batch ->
  (forall x, x ∈ indexes -> unique_sk_bulk_insert_buffer_ st !! x.1 = Some x.2) ->
  sk_hold (to_check indexes batch) (unique_sk_bulk_insert_buffer_ st) ->
  all_there (unique_sk_bulk_insert_buffer_ st) ->
  exists ha' m' res, check_loop env st (length batch) tuples indexes = Some (with_ha ha' (with_sk_buffers m' st), res) /\
    check_outcome (txm (bk_ha st)) batch ha' res /\
    (res = HA_ERR_FOUND_DUPP_KEY -> errkey ha' <> primary_key (ha_table env)) /\
    (res = 0 -> sk_hold (fun _ => []) m' /\ all_there m' /\
       forall tn vb kv, (tn, vb) ∈ indexes -> kv ∈ vb.2 -> committed (txm (bk_ha st)) tn kv.1 = None).
Proof.
  revert st tuples. induction indexes as [|[tn [version buffer]] indexes IH]; intros st tuples Hnd Ht Hin Hh Ha.
  { exists (bk_ha st), (unique_sk_bulk_insert_buffer_ st), 0. split; [by destruct st|]. split; [by split|]. split; [done|].
    intros _. split_and!; [done|done|]. by intros tn vb kv H%elem_of_nil. }
  apply list.NoDup_cons in Hnd as [Hnot Hnd]. pose proof (Hin _ (list_elem_of_here _ _)) as Hm. simpl in Hm, Hnot.
  destruct (Hh _ _ Hm) as (t & Ho & Hu & <- & Hb). unfold to_check in Hb.
  rewrite decide_True in Hb by apply list_elem_of_here. cbn [snd] in Hb.
  assert (length batch = length buffer) as Hlen by (by eapply Forall2_length). cbn [check_loop]. rewrite Hlen.
  rewrite fill_tuples_all by (rewrite <- Hlen; exact Ht).
  destruct (UniqueConstraintChecking _ _ _ _ _ _) as [[ha res] idx] eqn:E.
  apply unique_check_spec in E as (Hs & H0 & Hd). destruct (Z.eqb_spec res 0) as [->|Hres].
  - set (st1 := with_ha ha _). destruct (IH st1 buffer) as (ha' & m' & res & Eo & [Hs' Hd'] & Hnp & Hok).
    + done.
    + right. by rewrite Hlen.
    + intros x Hx. subst st1. simpl. rewrite lookup_insert_ne; [by apply Hin, list_elem_of_further|].
      intros Hx'. apply Hnot. rewrite Hx'. apply list_elem_of_fmap. by exists x.
    + by eapply (sk_hold_clear _ t version buffer).
    + by apply all_there_insert.
    + destruct Hs as [Hc Hp]. rewrite Hlen in Eo. exists ha', m', res. split; [exact Eo|]. split.
      * split; [by eapply same_data_trans|]. intros Hr. destruct (Hd' Hr) as [? Hst]. split; [done|].
        by eapply stored_duplicate_same.
      * split; [done|]. intros Hr. destruct (Hok Hr) as (? & ? & Hfree). split_and!; try done.
        intros tn vb kv [[= -> ->]|Hx]%elem_of_cons Hkv; [by apply H0|]. rewrite <- (f_equal (fun f => f tn kv.1) Hc).
        by apply (Hfree tn vb).
  - eexists _, _, _. split; [reflexivity|]. rewrite IndexId_own in Hd by done. split; [|split; [|done]].
    2: { intros Hr. destruct (Hd Hr) as (-> & _). by apply own_not_primary. }
    split; [done|]. intros Hr. destruct (Hd Hr) as (-> & -> & kv & Hkv & Hst). split; [done|].
    apply list_elem_of_lookup_1 in Hkv as [d Hkv]. destruct (Forall2_lookup_r _ _ _ _ _ Hb Hkv) as (r & Hr' & He).
    exists r. split; [by eapply list_elem_of_lookup_2|]. right. destruct kv as [key rec]. by exists t, key, rec.
Qed.

(** None of the keys of the rows is committed. *)
Definition batch_free (s : S) (batch : list row) : Prop :=
  forall r, r ∈ batch -> committed s (base_table_name env) r.1 = None /\ row_free (targets env) s r.

Lemma mapM_lookup {A : Type} (l : list A) : mapM (fun idx => l !! idx) (seq 0 (length l)) = Some l.
Proof.
  apply mapM_Some, Forall2_same_length_lookup_2; [by rewrite length_seq|].
  intros i x y [-> _]%lookup_seq Hy. exact Hy.
Qed.

(** What the checks of the indexes show of a row. *)
Lemma checked_row_free s m batch r : sk_hold (fun _ => batch) m -> all_there m -> r ∈ batch ->
  (forall tn vb kv, m !! tn = Some vb -> kv ∈ vb.2 -> committed s tn kv.1 = None) -> row_free (targets env) s r.
Proof.
  intros Hh Ha [d Hr]%list_elem_of_lookup_1 Hfree t key rec Ht Hu He. pose proof (unique_own t Ht Hu) as Ho.
  destruct (Ha t Ho Hu) as [vb Hm]. destruct (Hh _ _ Hm) as (t' & Ho' & _ & Hn & Hb).
  apply name_inj in Hn; [|by apply own_target|done]. subst t'.
  destruct (Forall2_lookup_l _ _ _ _ _ Hb Hr) as ([key' rec'] & Hkv & He'). rewrite He in He'. injection He' as <- <-.
  apply (Hfree _ _ (key, rec) Hm). by eapply list_elem_of_lookup_2.
Qed.

Lemma all_to_check m batch : sk_hold (fun _ => batch) m -> sk_hold (to_check (iteration m) batch) m.
Proof.
  intros Hh tn vb Hm. destruct (Hh _ _ Hm) as (t & Ho & Hu & <- & Hb). exists t. split_and!; try done.
  unfold to_check. rewrite decide_True; [done|]. apply list_elem_of_fmap. exists (name t, vb). split; [done|].
  rewrite iteration_perm. by apply elem_of_map_to_list.
Qed.

Lemma check_indexes_spec batch st tuples : tuples = [] \/ length tuples = length batch ->
  sk_hold (fun _ => batch) (unique_sk_bulk_insert_buffer_ st) -> all_there (unique_sk_bulk_insert_buffer_ st) ->
  exists ha' m' res,
    check_loop env st (length batch) tuples (iteration (unique_sk_bulk_insert_buffer_ st)) =
      Some (with_ha ha' (with_sk_buffers m' st), res) /\
    check_outcome (txm (bk_ha st)) batch ha' res /\
    (res = HA_ERR_FOUND_DUPP_KEY -> errkey ha' <> primary_key (ha_table env)) /\
    (res = 0 -> sk_hold (fun _ => []) m' /\ all_there m' /\
       forall r, r ∈ batch -> row_free (targets env) (txm (bk_ha st)) r).
Proof.
  intros Ht Hh Ha. set (m := unique_sk_bulk_insert_buffer_ st) in *.
  destruct (check_loop_spec batch (iteration m) st tuples) as (ha' & m' & res & E & Ho & Hnp & H0); try done.
  - rewrite iteration_perm. apply NoDup_fst_map_to_list.
  - intros [tn vb] H. rewrite iteration_perm in H. by apply elem_of_map_to_list in H.
  - by apply all_to_check.
  - exists ha', m', res. split; [exact E|]. split; [exact Ho|]. split; [exact Hnp|]. intros Hr. destruct (H0 Hr) as (? & ? & Hfree). split_and!; try done.
    intros r Hin. apply (checked_row_free _ m batch r Hh Ha Hin). intros tn vb kv Hm Hkv. apply (Hfree tn vb kv); [|done].
    rewrite iteration_perm. by apply elem_of_map_to_list.
Qed.

Lemma BulkUniqueCheck_spec st batch : check_pk = true ->
  map fst (pk_bulk_insert_buffer_ st) = map fst batch ->
  sk_hold (fun _ => batch) (unique_sk_bulk_insert_buffer_ st) -> all_there (unique_sk_bulk_insert_buffer_ st) ->
  exists ha' m' x res,
    BulkUniqueCheck env pk_next_number iteration st (length batch) =
      Some (with_ha ha' (with_sk_buffers m' (with_pk_buffer [] (with_shown x st))), res) /\
    check_outcome (txm (bk_ha st)) batch ha' res /\
    (res = HA_ERR_FOUND_DUPP_KEY -> errkey ha' = primary_key (ha_table env) -> m' = unique_sk_bulk_insert_buffer_ st) /\
    (res = 0 -> sk_hold (fun _ => []) m' /\ all_there m' /\ batch_free (txm (bk_ha st)) batch).
Proof.
  intros Hc Hpk Hh Ha. unfold BulkUniqueCheck. rewrite Hc.
  assert (length batch = length (pk_bulk_insert_buffer_ st)) as Hl.
  { rewrite <- (length_map fst), <- Hpk. apply length_map. }
  rewrite Hl, mapM_lookup. destruct (UniqueConstraintChecking _ _ _ _ _ _) as [[ha res] idx] eqn:E.
  apply unique_check_spec in E as (Hs & H0 & Hd). destruct (Z.eqb_spec res 0) as [->|Hres].
  - set (st1 := with_pk_buffer [] (with_ha ha st)).
    destruct (check_indexes_spec batch st1 (pk_bulk_insert_buffer_ st)) as (ha' & m' & res & E & [Hs' Hd'] & Hnp & Hok);
      [by right|done|done|]. rewrite Hl in E. exists ha', m', (shown_row st), res. split; [exact E|]. split.
    + split; [by eapply same_data_trans|]. intros Hr. destruct (Hd' Hr) as [? Hst]. split; [done|].
      by eapply stored_duplicate_same.
    + split; [intros Hr He; by destruct (Hnp Hr)|].
      intros Hr. destruct (Hok Hr) as (? & ? & Hfree). split_and!; try done. intros r Hin. split.
      * assert (r.1 ∈ map fst (pk_bulk_insert_buffer_ st)) as Hk by (rewrite Hpk; apply list_elem_of_fmap; by exists r).
        apply list_elem_of_fmap in Hk as (kv & -> & Hkv). by apply H0.
      * destruct Hs as [Hcs _]. intros t key rec Ht Hu He. rewrite <- (f_equal (fun f => f (name t) key) Hcs).
        by apply (Hfree r Hin t key rec).
  - exists ha, (unique_sk_bulk_insert_buffer_ st),
      (if res =? HA_ERR_FOUND_DUPP_KEY then pk_bulk_insert_buffer_ st !! idx else shown_row st), res.
    split; [by destruct (res =? HA_ERR_FOUND_DUPP_KEY)|]. split; [|done]. split; [done|]. intros Hr.
    destruct (Hd Hr) as (-> & -> & kv & Hkv & Hst). split; [done|].
    assert (kv.1 ∈ map fst batch) as Hk by (rewrite <- Hpk; apply list_elem_of_fmap; by exists kv).
    apply list_elem_of_fmap in Hk as (r & Hk & Hin). exists r. split; [done|]. left. by rewrite <- Hk.
Qed.

(** ** The rows of a statement *)

Definition insert_rows (rows : gmap bytes bytes) (l : list row) : gmap bytes bytes :=
  foldl (fun m r => <[r.1:=r.2]> m) rows l.

(** The rows are new and different from each other. *)
Definition fresh (rows : gmap bytes bytes) (l : list row) : Prop :=
  NoDup (map fst l) /\ forall r, r ∈ l -> rows !! r.1 = None.

Lemma insert_rows_None rows l k : insert_rows rows l !! k = None -> rows !! k = None /\ ~ k ∈ map fst l.
Proof.
  revert rows. induction l as [|r l IH]; intros rows; simpl; [intros H; split; [done|apply not_elem_of_nil]|].
  intros [H1 H2]%IH. apply lookup_insert_None in H1 as [H1 H3]. split; [done|]. by rewrite not_elem_of_cons.
Qed.

Lemma insert_rows_fresh rows l k : rows !! k = None -> ~ k ∈ map fst l -> insert_rows rows l !! k = None.
Proof.
  revert rows. induction l as [|r l IH]; intros rows Hk Hl; simpl; [done|].
  apply not_elem_of_cons in Hl as [H1 H2]. apply IH; [|done]. by rewrite lookup_insert_ne.
Qed.

Lemma fresh_snoc rows l r : fresh rows l -> insert_rows rows l !! r.1 = None -> fresh rows (l ++ [r]).
Proof.
  intros [Hn Hf] [H1 H2]%insert_rows_None. split.
  - rewrite map_app. apply list.NoDup_app. split_and!; [done| |apply list.NoDup_singleton].
    intros x Hx ->%list_elem_of_singleton. done.
  - intros x [Hx|Hx%list_elem_of_singleton]%elem_of_app; [by apply Hf|by subst].
Qed.

Lemma fresh_app rows l l' : fresh rows (l ++ l') -> fresh rows l.
Proof.
  intros [Hn Hf]. rewrite map_app in Hn. apply list.NoDup_app in Hn as (Hn & _ & _). split; [done|].
  intros x Hx. apply Hf, elem_of_app. by left.
Qed.

Lemma fresh_free rows l r : fresh rows (l ++ [r]) -> insert_rows rows l !! r.1 = None.
Proof.
  intros [Hn Hf]. rewrite map_app in Hn. apply list.NoDup_app in Hn as (_ & Hn & _). apply insert_rows_fresh.
  - apply Hf, elem_of_app. right. by left.
  - intros Hk. apply (Hn _ Hk). by left.
Qed.

(** The primary keys of the rows are checked, in bulk or one by one. *)
Definition keys_checked (st : bulk_state S) : Prop :=
  is_bulk_insert_ st = true \/ forall ha : ha_state S, pk_check_skipped env ha = false.

(** [batch]: the rows whose keys are not checked yet.  If they are free, the
    rows written so far are new when their keys are checked, and if they are
    new, the data is that of the rows. *)
Record bulk_inv (rows : gmap bytes bytes) (l batch : list row) (st : bulk_state S) : Prop := {
  bi_bulk : is_bulk_insert_ st = true ->
    is_duplicate_error_ st = true /\ check_pk = true /\ all_there (unique_sk_bulk_insert_buffer_ st);
  bi_plain : is_bulk_insert_ st = false -> batch = [];
  bi_suffix : batch `suffix_of` l;
  bi_pk : map fst (pk_bulk_insert_buffer_ st) = map fst batch;
  bi_sk : sk_hold (fun _ => batch) (unique_sk_bulk_insert_buffer_ st);
  bi_rows : batch_free (txm (bk_ha st)) batch ->
    (keys_checked st -> fresh rows l) /\ (fresh rows l -> consistent env good (insert_rows rows l) (txm (bk_ha st)))
}.

Lemma batch_free_nil s : batch_free s [].
Proof. by intros r H%elem_of_nil. Qed.

Lemma batch_free_committed s s' batch : committed s' = committed s -> batch_free s' batch -> batch_free s batch.
Proof. intros Hc. unfold batch_free, row_free. by rewrite Hc. Qed.

(** The transaction has written a key of the row already. *)
Definition pending_duplicate (s : S) (r : row) (kid : option nat) : Prop :=
  kid = primary_key (ha_table env) /\ (exists rec, pending s (base_table_name env) r.1 = Some (Some rec)) \/
  exists t key rec rec', t ∈ own_targets env /\ t_unique t = true /\ kid = Some (t_kid t) /\
    entry env t (Some []) r.1 r.2 = Some (key, rec) /\ pending s (name t) key = Some (Some rec').

Definition reported (s : S) (batch : list row) (r : row) (ha' : ha_state S) : Prop :=
  dup_errkey_ ha' = errkey ha' /\
  (pending_duplicate s r (errkey ha') \/ stored_duplicate s (batch ++ [r]) (errkey ha')).

(** After a duplicate of the primary key, the buffer of the primary key is
    empty, and the others are not. *)
Definition out_of_step (st : bulk_state S) : Prop :=
  is_bulk_insert_ st = true /\ pk_bulk_insert_buffer_ st = [] /\ all_there (unique_sk_bulk_insert_buffer_ st) /\
  map_Forall (fun _ vb => vb.2 <> []) (unique_sk_bulk_insert_buffer_ st).

(** The row is written, its keys not checked yet. *)
Lemma bulk_inv_snoc rows l batch st k buf rec ha ha' m' :
  bulk_inv rows l batch st -> is_bulk_insert_ st = true -> good k buf -> row_record env buf = Some rec ->
  bulk_outcome k buf batch (txm (bk_ha st)) (targets env) (bk_ha st) ha m' None ->
  TxUpsert ha (base_index env) k rec true = (ha', NO_ERROR) ->
  bulk_inv rows (l ++ [(k, buf)]) (batch ++ [(k, buf)])
    (with_ha ha' (with_pk_buffer (pk_bulk_insert_buffer_ st ++ [(k, rec)]) (with_sk_buffers m' st))).
Proof.
  intros [Hb Hp Hsuf Hpk Hsk Hrows] Hbulk Hg Hrec (Hh & Ha & Hk & Hl) Eu. destruct (Hb Hbulk) as (Hdup & Hc & _).
  destruct (TxUpsert_spec _ _ _ _ _ _ Eu) as (_ & Hcc & _). destruct Hk as [Hck Hkp]. split; simpl.
  - done.
  - by rewrite Hbulk.
  - by apply suffix_app.
  - by rewrite !map_app, Hpk.
  - by apply progress_hold.
  - intros Hfree. apply (batch_free_committed (txm (bk_ha st))) in Hfree; [|by rewrite Hcc].
    destruct Hrows as [Hf Hco]. { intros r Hr. apply Hfree, elem_of_app. by left. }
    specialize (Hf (or_introl Hbulk)). specialize (Hco Hf).
    destruct (Hfree (k, buf)) as [Hb0 Hrf]; [apply elem_of_app; right; by left|]. specialize (Hl Hrf).
    assert (insert_rows rows l !! k = None) as Hnone.
    { apply TxUpsert_free in Eu; [|by rewrite Hck]. cbn [base_index is_name] in Eu.
      pose proof (en_names) as [Hbn _]%list.NoDup_cons. rewrite (proj2 Hl) in Eu by done.
      unfold sees in Eu. rewrite (co_base _ _ _ _ Hco) in Eu. destruct (insert_rows rows l !! k) as [b|] eqn:Ek; [|done].
      destruct (co_record _ _ _ _ Hco k b Ek) as [x Hx]. simpl in Eu. congruence. }
    split; [intros _; by apply fresh_snoc|]. intros _. unfold insert_rows. rewrite foldl_snoc.
    apply (insert_consistent env good (insert_rows rows l) (bk_ha st) ha ha' k buf rec); try done.
    intros tn. by apply (TxUpsert_sees _ _ _ _ _ _ tn Eu).
Qed.

(** After a check that finds nothing, the data is that of the rows. *)
Lemma bulk_inv_checked rows l batch st ha' m' x :
  bulk_inv rows l batch st -> same_data (txm (bk_ha st)) (txm ha') ->
  sk_hold (fun _ => []) m' -> all_there m' -> batch_free (txm (bk_ha st)) batch ->
  bulk_inv rows l [] (with_ha ha' (with_sk_buffers m' (with_pk_buffer [] (with_shown x st)))).
Proof.
  intros [Hb Hp _ Hpk Hsk Hrows] Hs Hh Ha Hfree. destruct (Hrows Hfree) as [Hf Hco]. split; simpl; try done.
  - intros Hbulk. destruct (Hb Hbulk) as (? & ? & _). by split_and!.
  - apply suffix_nil.
  - intros _. split; [done|]. intros H. by eapply consistent_same; [|apply Hco].
Qed.

Lemma sk_hold_nonempty batch m : batch <> [] -> sk_hold (fun _ => batch) m -> map_Forall (fun _ vb => vb.2 <> []) m.
Proof.
  intros Hb Hh tn vb Hm E. destruct (Hh _ _ Hm) as (t & _ & _ & _ & Hx). rewrite E in Hx.
  by apply Forall2_nil_inv_r in Hx.
Qed.

(** The check of full buffers after a row has been written. *)
Lemma full_check_spec rows l batch st : bulk_inv rows l batch st -> is_bulk_insert_ st = true -> batch <> [] ->
  exists st' rc,
    match bulk_insert_size env pk_next_number iteration st with
    | None => None
    | Some size =>
        if (batch_read_size_ <=? size)%nat then BulkUniqueCheck env pk_next_number iteration st size else Some (st, 0)
    end = Some (st', rc) /\
    (rc = 0 -> exists batch', bulk_inv rows l batch' st') /\
    (rc = HA_ERR_FOUND_DUPP_KEY -> dup_errkey_ (bk_ha st') = errkey (bk_ha st') /\
       stored_duplicate (txm (bk_ha st)) batch (errkey (bk_ha st')) /\
       (errkey (bk_ha st') = primary_key (ha_table env) -> out_of_step st')).
Proof.
  intros Hinv Hbulk Hne. pose proof Hinv as [Hb _ _ Hpk Hsk _]. destruct (Hb Hbulk) as (_ & Hc & Ha).
  assert (length (pk_bulk_insert_buffer_ st) = length batch) as Hl.
  { by rewrite <- (length_map fst), Hpk, length_map. }
  unfold bulk_insert_size. rewrite Hc, Hl.
  case_match; [|eexists _, _; split; [reflexivity|]; split; [intros _; by eexists|done]].
  destruct (BulkUniqueCheck_spec st batch Hc Hpk Hsk Ha) as (ha' & m' & x & res & -> & [Hs Hr] & Hm & H0).
  eexists _, _. split; [reflexivity|]. split.
  - intros Hres. destruct (H0 Hres) as (? & ? & ?). exists []. by eapply bulk_inv_checked.
  - intros Hres. destruct (Hr Hres) as [? Hst]. split_and!; [done|done|]. intros He. pose proof (Hm Hres He) as ->.
    split_and!; [done|done|done|]. by apply (sk_hold_nonempty batch).
Qed.

Lemma BulkInsert_spec rows l batch st k buf rec :
  bulk_inv rows l batch st -> is_bulk_insert_ st = true -> good k buf -> row_record env buf = Some rec ->
  exists st' rc, BulkInsert env pk_next_number iteration st buf k rec = Some (st', rc) /\
    (rc = 0 -> exists batch', bulk_inv rows (l ++ [(k, buf)]) batch' st') /\
    (rc = HA_ERR_FOUND_DUPP_KEY -> reported (txm (bk_ha st)) batch (k, buf) (bk_ha st') /\
       (errkey (bk_ha st') = primary_key (ha_table env) -> out_of_step st')).
Proof.
  intros Hinv Hbulk Hg Hrec. pose proof Hinv as [Hb _ _ _ Hsk _]. destruct (Hb Hbulk) as (Hdup & Hc & Ha).
  destruct (bulk_loop_spec k buf batch (txm (bk_ha st)) Hg (targets env) [] st)
    as (ha & m & o & E & Ho); [done|apply kept_outside_refl|exact Hsk|exact Ha|].
  unfold BulkInsert. rewrite E. destruct o as [rc|].
  { eexists _, _. split; [reflexivity|]. destruct Ho as [H0 Hd]. split; [done|]. intros Hrc.
    destruct (Hd Hrc) as (t & key & r & r' & Ht & ? & Hk & Hk' & ? & ?). cbn [with_ha bk_ha]. split.
    - split; [done|]. left. right. by exists t, key, r, r'.
    - rewrite Hk. intros He. by destruct (own_not_primary t Ht). }
  rewrite Hc. cbn [with_ha with_sk_buffers with_pk_buffer bk_ha pk_bulk_insert_buffer_].
  destruct (TxUpsert _ _ _ _ _) as [ha' err] eqn:Eu. case_decide as Herr; [subst err|case_decide as Hd; [|by eexists _, _]].
  - pose proof (bulk_inv_snoc _ _ _ _ _ _ _ _ _ _ Hinv Hbulk Hg Hrec Ho Eu) as Hinv'.
    set (st1 := with_ha ha' _) in Hinv'. change (with_ha ha' _) with st1.
    destruct (full_check_spec _ _ _ st1 Hinv' Hbulk) as (st' & rc & E1 & H0 & Hr); [by destruct batch|].
    exists st', rc. split_and!; [exact E1|exact H0|]. intros Hrc. destruct (Hr Hrc) as (? & Hst & ?). split; [|done].
    split; [done|]. right. revert Hst. unfold stored_duplicate.
    replace (committed (txm (bk_ha st1))) with (committed (txm (bk_ha st))); [done|].
    destruct (TxUpsert_spec _ _ _ _ _ _ Eu) as (_ & Hcc & _). destruct Ho as (_ & _ & [Hck _] & _).
    unfold st1. simpl. congruence.
  - subst err. apply TxUpsert_duplicate in Eu as [_ [r Hp]]. destruct Ho as (Hh & Ha' & [_ Hkp] & _).
    eexists _, _. split; [reflexivity|]. split; [done|]. intros _. split.
    + split; [done|]. left. left. split; [done|]. exists r. rewrite <- Hp.
      symmetry. apply Hkp. intros (t & r' & Ht & Hn & _). pose proof en_names as [Hbn _]%list.NoDup_cons.
      apply Hbn, list_elem_of_fmap. exists t. by split.
    + intros _. split_and!; [done|done|done|]. apply (sk_hold_nonempty (batch ++ [(k, buf)])); [by destruct batch|].
      by apply progress_hold.
Qed.

(** A row of the statement, with its primary key. *)
Definition packs (x : option Z * bytes * bytes) (r : row) : Prop :=
  x.2 = r.2 /\ good r.1 r.2 /\ exists rec, PackKeyRecord env x.1.2 x.2 = Some (r.1, rec).

Lemma write_row_bulk_spec rows l batch st x r :
  bulk_inv rows l batch st -> packs x r ->
  exists st' rc, bulk_write_row storage_hd env pk_next_number iteration st x.1.1 x.1.2 x.2 = Some (st', rc) /\
    (rc = 0 -> exists batch', bulk_inv rows (l ++ [r]) batch' st').
Proof.
  destruct r as [k buf]. intros Hinv (Hx & Hg & rec & Hp). simpl in *. rewrite Hx in *.
  assert (exists st' rc, insert_row storage_hd env pk_next_number iteration st x.1.2 buf = Some (st', rc) /\
    (rc = 0 -> exists batch', bulk_inv rows (l ++ [(k, buf)]) batch' st')) as H.
  { unfold insert_row. rewrite Hp. pose proof (PackKeyRecord_record _ _ _ _ _ Hp) as Hrec.
    destruct (is_bulk_insert_ st) eqn:Hb; simpl.
    { destruct (bi_bulk _ _ _ _ Hinv Hb) as [-> _].
      destruct (BulkInsert_spec rows l batch st k buf rec Hinv Hb Hg Hrec) as (st' & rc & E & H0 & _). by exists st', rc. }
    pose proof Hinv as [_ Hplain _ Hpk Hsk Hrows]. pose proof (Hplain Hb) as ->.
    destruct (Hrows (batch_free_nil _)) as [Hf Hco].
    destruct (Insert_returns storage_hd env good (bk_ha st) buf k rec Hg) as (ha & rc & E). rewrite E.
    eexists _, _. split; [reflexivity|]. intros Hrc. exists [].
    assert (fresh rows l -> (pk_check_skipped env (bk_ha st) = false -> insert_rows rows l !! k = None) /\
      (insert_rows rows l !! k = None -> consistent env good (<[k:=buf]> (insert_rows rows l)) (txm ha))) as H0.
    { intros Hl. destruct (Insert_spec storage_hd env good (insert_rows rows l) (bk_ha st) buf k rec (Hco Hl) Hg Hrec)
        as (ha' & rc' & E' & H0 & _). rewrite E in E'. injection E' as <- <-. by apply H0. }
    split; simpl; try done.
    - by rewrite Hb.
    - apply suffix_nil.
    - intros _. split.
      + intros Hc. specialize (Hf Hc). apply fresh_snoc; [done|]. destruct Hc as [Hc|Hc]; [simpl in Hc; congruence|].
        by apply (H0 Hf).
      + intros Hfr. unfold insert_rows. rewrite foldl_snoc. apply (H0 (fresh_app _ _ _ Hfr)). by apply (fresh_free _ _ (k, buf)). }
  unfold bulk_write_row. destruct x.1.1 as [e|]; [|done]. destruct (e =? 0); [done|]. by eexists _, _.
Qed.

Lemma write_rows_spec rows xs : forall l batch st rs,
  bulk_inv rows l batch st -> Forall2 packs xs rs ->
  exists st' rc, write_rows storage_hd env pk_next_number iteration st xs = Some (st', rc) /\
    (rc = 0 -> exists batch', bulk_inv rows (l ++ rs) batch' st').
Proof.
  induction xs as [|[[e uuid] buf] xs IH]; intros l batch st rs Hinv Hp.
  { apply Forall2_nil_inv_l in Hp as ->. rewrite app_nil_r. exists st, 0. split; [done|]. intros _. by exists batch. }
  apply Forall2_cons_inv_l in Hp as (r & rs' & Hr & Hp & ->). cbn [write_rows].
  destruct (write_row_bulk_spec rows l batch st (e, uuid, buf) r Hinv Hr) as (st1 & rc & E & H0).
  simpl in E. rewrite E. destruct (Z.eqb_spec rc 0) as [->|]; [|by eexists _, _].
  destruct (H0 eq_refl) as [batch' Hinv']. destruct (IH (l ++ [r]) batch' st1 rs' Hinv' Hp) as (st' & rc & E' & H').
  exists st', rc. split; [done|]. by rewrite <- app_assoc in H'.
Qed.

(** Before and after a statement. *)
Definition idle (st : bulk_state S) : Prop :=
  is_bulk_insert_ st = false /\ pk_bulk_insert_buffer_ st = [] /\ unique_sk_bulk_insert_buffer_ st = ∅.

(** The names of the unique indexes have the prefix, and no others; in
    particular, no dirty index is a unique one. *)
Definition unique_names : Prop := forall t, t ∈ targets env -> has_unique_name prefix t = t_unique t.

Lemma emplace_spec ts : unique_names -> (forall t, t ∈ ts -> t ∈ targets env) -> forall m,
  sk_hold (fun _ => []) m ->
  sk_hold (fun _ => []) (fold_left (emplace_buffer prefix) ts m) /\
  forall t, is_Some (m !! name t) \/ t ∈ ts /\ t_unique t = true ->
    is_Some (fold_left (emplace_buffer prefix) ts m !! name t).
Proof.
  intros Hn. induction ts as [|t ts IH]; intros Hts m Hm; simpl.
  { split; [done|]. intros t [?|[[]%elem_of_nil _]]. done. }
  assert (t ∈ targets env) as Ht by apply Hts, list_elem_of_here.
  assert (sk_hold (fun _ => []) (emplace_buffer prefix m t) /\ forall t',
    is_Some (m !! name t') \/ t' = t /\ t_unique t' = true -> is_Some (emplace_buffer prefix m t !! name t')) as [H1 H2].
  { unfold emplace_buffer. rewrite (Hn t Ht). destruct (t_unique t) eqn:Hu.
    - destruct (m !! name t) as [vb|] eqn:E.
      + split; [done|]. intros t' [?|[-> _]]; [done|by eexists].
      + split; [|intros t' [?|[-> _]]; apply lookup_insert_is_Some'; [by right|by left]].
        intros tn vb [[<- <-]|[_ H]]%lookup_insert_Some; [|by apply Hm].
        exists t. split_and!; [by apply unique_own|done|done|constructor].
    - split; [done|]. intros t' [?|[-> ?]]; [done|congruence]. }
  destruct (IH (fun t' H => Hts t' (list_elem_of_further _ _ _ H)) _ H1) as [H3 H4]. split; [done|].
  intros t' [H|[[->|H]%elem_of_cons Hu]]; apply H4; [left; by apply H2; left|left; by apply H2; right|by right].
Qed.

Lemma start_spec rows st : unique_names -> idle st -> consistent env good rows (txm (bk_ha st)) ->
  bulk_inv rows [] [] (start_bulk_insert env prefix pk_next_number st).
Proof.
  intros Hn (Hb & Hpk & Hm) Hco. assert (sk_hold (fun _ => []) ∅) as Hempty by (intros tn vb H; by rewrite lookup_empty in H).
  assert (fresh rows []) as Hfr by (split; [constructor|by intros r H%elem_of_nil]).
  unfold start_bulk_insert. destruct (is_duplicate_error_ st) eqn:Hd; cbn [negb]; [|by split; simpl; rewrite ?Hpk, ?Hm].
  destruct (negb check_pk && _); [by split; simpl; rewrite ?Hpk, ?Hm|].
  destruct (emplace_spec (targets env) Hn ltac:(done) ∅ Hempty) as [Hs Ha].
  destruct check_pk eqn:Hc; (split; simpl; rewrite ?Hpk, ?Hm, ?Hb; try done).
  intros _. split_and!; [done|done|]. intros t Ho Hu. apply Ha. right. split; [by apply own_target|done].
Qed.

Lemma end_spec rows l batch st : bulk_inv rows l batch st ->
  exists st' rc, end_bulk_insert env pk_next_number iteration st = Some (st', rc) /\ idle st' /\
    (rc = 0 -> (keys_checked st -> fresh rows l) /\
       (fresh rows l -> consistent env good (insert_rows rows l) (txm (bk_ha st')))).
Proof.
  intros Hinv. pose proof Hinv as [Hb Hplain _ Hpk Hsk Hrows]. unfold end_bulk_insert.
  assert (rest_size iteration st = length batch) as ->.
  { unfold rest_size. assert (length (pk_bulk_insert_buffer_ st) = length batch) as E.
    { by rewrite <- (length_map fst), Hpk, length_map. }
    rewrite E. case_match eqn:E0; [|done]. apply Nat.eqb_eq in E0. destruct (iteration _) as [|[tn [v b]] rest] eqn:Ei; [done|].
    assert (unique_sk_bulk_insert_buffer_ st !! tn = Some (v, b)) as Hm.
    { apply elem_of_map_to_list. rewrite <- iteration_perm, Ei. by left. }
    destruct (Hsk _ _ Hm) as (t & _ & _ & _ & Hh). symmetry. by eapply Forall2_length. }
  destruct (is_bulk_insert_ st) eqn:Hbulk; cbn [andb].
  - destruct (Hb eq_refl) as (_ & Hc & Ha). destruct (Nat.ltb_spec 0 (length batch)) as [Hl|Hl].
    + destruct (BulkUniqueCheck_spec st batch Hc Hpk Hsk Ha) as (ha' & m' & x & res & -> & [Hs _] & _ & H0).
      eexists _, _. split; [reflexivity|]. split; [done|]. intros Hr. destruct (H0 Hr) as (_ & _ & Hf).
      destruct (Hrows Hf) as [? Hco]. split; [done|]. intros Hfr. by eapply consistent_same; [|apply Hco].
    + destruct batch; [|simpl in Hl; lia]. eexists _, _. split; [reflexivity|]. split; [done|]. intros _.
      apply Hrows, batch_free_nil.
  - rewrite (Hplain eq_refl) in Hrows. eexists _, _. split; [reflexivity|]. split; [done|]. intros _.
    apply Hrows, batch_free_nil.
Qed.

(** ** Buffers that are out of step *)

Lemma lookup_nil_fails {A : Type} n : (0 < n)%nat -> mapM (fun idx => ([] : list A) !! idx) (seq 0 n) = None.
Proof. intros Hn. by destruct n; [lia|]. Qed.

Lemma out_of_step_end st t : out_of_step st -> check_pk = true -> t ∈ own_targets env -> t_unique t = true ->
  end_bulk_insert env pk_next_number iteration st = None.
Proof.
  intros (Hb & Hpk & Ha & Hne) Hc Ht Hu. unfold end_bulk_insert, rest_size. rewrite Hb, Hpk. cbn [length Nat.eqb andb].
  destruct (Ha t Ht Hu) as [vb Hm]. destruct (iteration _) as [|[tn [v b]] rest] eqn:Ei.
  { apply elem_of_map_to_list in Hm. rewrite <- iteration_perm, Ei in Hm. by apply elem_of_nil in Hm. }
  assert (unique_sk_bulk_insert_buffer_ st !! tn = Some (v, b)) as Hm'.
  { apply elem_of_map_to_list. rewrite <- iteration_perm, Ei. by left. }
  apply Hne in Hm'. destruct b as [|kv b]; [done|]. cbn [length Nat.ltb Nat.leb]. unfold BulkUniqueCheck.
  by rewrite Hc, Hpk, lookup_nil_fails by lia.
Qed.

End BulkRows.

(** ** The theorems *)

Section Claims.

Context {S : Type} `{!TxService S, !TxLaws S, !BulkService S, !BulkLaws S} (storage_hd : option (DataStoreHandler S)).
Context (env : ha_env) (defs : target -> index_def) (good : bytes -> bytes -> Prop).
Context (prefix : string) (pk_next_number : bool).
Context (iteration : sk_buffers -> list (table_name * (Z * BulkInsertBuffer))).

(** What a statement starts from: the names of the indexes, the order of
    iteration, and data that is consistent with the rows. *)
Record bulk_ready (rows : gmap bytes bytes) (st : bulk_state S) : Prop := {
  br_table : table env defs good;
  br_schema : NoDup (map is_name (IndexNameSchema env));
  br_names : unique_names env prefix;
  br_iteration m : iteration m ≡ₚ map_to_list m;
  br_idle : idle st;
  br_consistent : consistent env good rows (txm (bk_ha st))
}.

Abbreviation start := (start_bulk_insert env prefix pk_next_number).

Lemma written_inv rows st xs rs : bulk_ready rows st -> Forall2 (packs env good) xs rs ->
  exists st1 rc, write_rows storage_hd env pk_next_number iteration (start st) xs = Some (st1, rc) /\
    (rc = 0 -> exists batch, bulk_inv env good pk_next_number rows rs batch st1).
Proof.
  intros [Ht Hs Hn Hi Hid Hco] Hp. pose proof (table_entries env defs good Ht) as Hen.
  pose proof (start_spec env good prefix pk_next_number rows st Hn Hid Hco) as Hinv.
  by apply (write_rows_spec storage_hd env good pk_next_number iteration Hi Hs rows xs [] [] (start st) rs).
Qed.

(** C12: inserting many rows into a table whose dirty indexes are not unique.
    [start_bulk_insert] and a [write_row] for every row return, up to the first
    error.  When all rows are written, [end_bulk_insert] returns too and leaves
    nothing behind; and when it reports success, the rows were new, with
    different primary keys, if these were checked, in bulk or one by one; and if
    the rows were new, the data is consistent with the rows of the table and the
    new ones, although in bulk no key was looked up before it was written. *)
Theorem bulk_insert_correct rows st xs rs :
  bulk_ready rows st -> Forall2 (packs env good) xs rs ->
  exists st1 rc, write_rows storage_hd env pk_next_number iteration (start st) xs = Some (st1, rc) /\
    (rc = 0 -> exists st2 rc2, end_bulk_insert env pk_next_number iteration st1 = Some (st2, rc2) /\ idle st2 /\
       (rc2 = 0 -> (keys_checked env st1 -> fresh rows rs) /\
          (fresh rows rs -> consistent env good (insert_rows rows rs) (txm (bk_ha st2))))).
Proof.
  intros Hr Hp. destruct (written_inv rows st xs rs Hr Hp) as (st1 & rc & E & H0). exists st1, rc.
  split; [done|]. intros Hrc. destruct (H0 Hrc) as [batch Hinv]. destruct Hr as [Ht Hs Hn Hi _ _].
  pose proof (table_entries env defs good Ht) as Hen. by apply (end_spec env good pk_next_number iteration Hi Hs rows rs batch).
Qed.

(** C38: a duplicate in a bulk insert.  When [BulkInsert] reports a duplicate
    after some rows, it names the primary key or a unique index, and either the
    transaction has already written the key of the new row there, or the key
    that the new row or one of the last rows has there is committed. *)
Theorem bulk_duplicate_reported rows st xs rs st1 k buf rec :
  bulk_ready rows st -> Forall2 (packs env good) xs rs ->
  write_rows storage_hd env pk_next_number iteration (start st) xs = Some (st1, 0) -> is_bulk_insert_ st1 = true ->
  good k buf -> row_record env buf = Some rec ->
  exists st2 rc batch, BulkInsert env pk_next_number iteration st1 buf k rec = Some (st2, rc) /\ batch `suffix_of` rs /\
    (rc = HA_ERR_FOUND_DUPP_KEY -> reported env (txm (bk_ha st1)) batch (k, buf) (bk_ha st2)).
Proof.
  intros Hr Hp Hw Hb Hg Hrec. destruct (written_inv rows st xs rs Hr Hp) as (st' & rc & E & H0).
  rewrite Hw in E. injection E as <- <-. destruct (H0 eq_refl) as [batch Hinv]. destruct Hr as [Ht Hs Hn Hi _ _].
  pose proof (table_entries env defs good Ht) as Hen.
  destruct (BulkInsert_spec env good pk_next_number iteration Hi Hs rows rs batch st1 k buf rec Hinv Hb Hg Hrec)
    as (st2 & rc & E & _ & Hd).
  exists st2, rc, batch. split_and!; [done|apply Hinv|]. intros Hrc. by destruct (Hd Hrc).
Qed.

(** C36: the end of a bulk insert that failed.  When [BulkInsert] has reported
    a duplicate of the primary key, it has emptied the buffer of the primary key
    and left those of the unique indexes; [end_bulk_insert], which is called
    after an error too, takes the number of rows from one of these and reads
    past the end of the buffer of the primary key. *)
Theorem duplicate_overrun rows st xs rs st1 k buf rec st2 t :
  bulk_ready rows st -> Forall2 (packs env good) xs rs ->
  write_rows storage_hd env pk_next_number iteration (start st) xs = Some (st1, 0) -> is_bulk_insert_ st1 = true ->
  good k buf -> row_record env buf = Some rec ->
  BulkInsert env pk_next_number iteration st1 buf k rec = Some (st2, HA_ERR_FOUND_DUPP_KEY) ->
  errkey (bk_ha st2) = primary_key (ha_table env) -> t ∈ own_targets env -> t_unique t = true ->
  end_bulk_insert env pk_next_number iteration st2 = None.
Proof.
  intros Hr Hp Hw Hb Hg Hrec Hi2 He Ht Hu. destruct (written_inv rows st xs rs Hr Hp) as (st' & rc & E & H0).
  rewrite Hw in E. injection E as <- <-. destruct (H0 eq_refl) as [batch Hinv]. destruct Hr as [Htb Hs Hn Hi _ _].
  pose proof (table_entries env defs good Htb) as Hen.
  destruct (BulkInsert_spec env good pk_next_number iteration Hi Hs rows rs batch st1 k buf rec Hinv Hb Hg Hrec)
    as (st3 & rc & E & _ & Hd).
  rewrite Hi2 in E. injection E as <- <-. destruct (Hd eq_refl) as [_ Ho]. destruct (bi_bulk _ _ _ _ _ _ _ Hinv Hb) as (_ & Hc & _).
  by apply (out_of_step_end env pk_next_number iteration Hi st2 t (Ho He) Hc).
Qed.

End Claims.

(** ** Dirty unique indexes *)

Section Dirty.

Context {S : Type} `{!TxService S, !BulkService S} (storage_hd : option (DataStoreHandler S)).
Context (env : ha_env) (prefix : string) (pk_next_number : bool).
Context (iteration : sk_buffers -> list (table_name * (Z * BulkInsertBuffer))).
Context (iteration_perm : forall m, iteration m ≡ₚ map_to_list m).
Context (tn : table_name).

(** No row is added to the buffer [tn], which is there. *)
Definition stuck (st : bulk_state S) : Prop :=
  is_bulk_insert_ st = true /\ is_duplicate_error_ st = true /\ exists v, unique_sk_bulk_insert_buffer_ st !! tn = Some (v, []).

Lemma check_loop_stuck n indexes v : (0 < n)%nat -> (tn, (v, [])) ∈ indexes -> forall st tuples st',
  check_loop env st n tuples indexes <> Some (st', 0).
Proof.
  intros Hn. induction indexes as [|[tn' [v' b]] indexes IH]; [by intros H%elem_of_nil|].
  intros [[= <- <- <-]|Hin]%elem_of_cons st tuples st'; cbn [check_loop].
  - by destruct n; [lia|].
  - destruct (fill_tuples _ _ _ _) as [tuples'|]; [|done].
    destruct (UniqueConstraintChecking _ _ _ _ _ _) as [[ha res] idx]. destruct (Z.eqb_spec res 0); [by apply IH|by intros [= _ ->]].
Qed.

Lemma BulkUniqueCheck_stuck st n st' : stuck st -> (0 < n)%nat ->
  BulkUniqueCheck env pk_next_number iteration st n <> Some (st', 0).
Proof.
  intros (_ & _ & v & Hm) Hn. assert ((tn, (v, [])) ∈ iteration (unique_sk_bulk_insert_buffer_ st)) as Hin.
  { rewrite iteration_perm. by apply elem_of_map_to_list. }
  unfold BulkUniqueCheck. destruct (check_primary_key _ _); [|by eapply check_loop_stuck].
  destruct (mapM _ _) as [tuples|]; [|done]. destruct (UniqueConstraintChecking _ _ _ _ _ _) as [[ha res] idx].
  destruct (Z.eqb_spec res 0) as [->|]; [|by intros [= _ ->]]. by eapply check_loop_stuck.
Qed.

Lemma bulk_loop_stuck k buf ts : (forall t, t ∈ ts -> t_unique t = true -> is_name (t_index t) <> tn) -> forall st st',
  bulk_loop env st k buf ts = Some (st', None) -> stuck st ->
  stuck st' /\ pk_bulk_insert_buffer_ st' = pk_bulk_insert_buffer_ st.
Proof.
  induction ts as [|t ts IH]; intros Hts st st'; cbn [bulk_loop]; [by intros [= <-]|].
  destruct (entry _ _ _ _ _) as [[key r]|]; [|done]. cbv zeta. destruct (if t_unique t then _ else _) as [m|] eqn:Em; [|done].
  destruct (TxUpsert _ _ _ _ _) as [ha err]. case_decide; [|by case_decide; [destruct (t_unique t)|]].
  intros E (Hb & Hd & v & Hm).
  apply IH in E; [exact E|intros t' Ht'; apply Hts; by right|].
  split_and!; [done|done|]. exists v. simpl. destruct (t_unique t) eqn:Hu; [|congruence].
  destruct (unique_sk_bulk_insert_buffer_ st !! is_name (t_index t)) as [[v' b]|]; [|done]. injection Em as <-.
  rewrite lookup_insert_ne; [done|]. apply Hts; [by left|done].
Qed.

Lemma bulk_loop_error k buf ts : forall st st' rc, bulk_loop env st k buf ts = Some (st', Some rc) -> rc <> 0.
Proof.
  induction ts as [|t ts IH]; intros st st' rc; cbn [bulk_loop]; [done|].
  destruct (entry _ _ _ _ _) as [[key r]|]; [|done]. cbv zeta. destruct (if t_unique t then _ else _) as [m|]; [|done].
  destruct (TxUpsert _ _ _ _ _) as [ha err]. case_decide; [by apply IH|].
  case_decide; [destruct (t_unique t); [|done]|]; by intros [= _ <-].
Qed.

Hypothesis checked : check_primary_key env pk_next_number = true.
Hypothesis other_names : forall t, t ∈ targets env -> t_unique t = true -> is_name (t_index t) <> tn.

Lemma write_row_stuck st x uuid buf st' : stuck st ->
  bulk_write_row storage_hd env pk_next_number iteration st x uuid buf = Some (st', 0) ->
  stuck st' /\ pk_bulk_insert_buffer_ st' <> [].
Proof.
  intros Hst. assert (insert_row storage_hd env pk_next_number iteration st uuid buf = Some (st', 0) ->
    stuck st' /\ pk_bulk_insert_buffer_ st' <> []) as H.
  { unfold insert_row. destruct (PackKeyRecord _ _ _) as [[k rec]|]; [|done]. pose proof Hst as (-> & -> & _). cbn [andb].
    unfold BulkInsert. destruct (bulk_loop _ _ _ _ _) as [[st1 [rc|]]|] eqn:El; [|destruct (bulk_loop_stuck k buf _ other_names _ _ El Hst) as [Hst1 _]|done].
    - intros [= <- ->]. by apply bulk_loop_error in El.
    - rewrite checked. destruct (TxUpsert _ _ _ _ _) as [ha err]. case_decide; [|by case_decide].
      unfold bulk_insert_size. rewrite checked. simpl. case_match.
      + intros E. by apply BulkUniqueCheck_stuck in E; [|done|rewrite length_app; simpl; lia].
      + intros [= <-]. split; [done|]. simpl. by destruct (pk_bulk_insert_buffer_ st1). }
  unfold bulk_write_row. destruct x as [e|]; [|done]. destruct (e =? 0); done.
Qed.

Lemma write_rows_stuck xs : forall st st', stuck st ->
  write_rows storage_hd env pk_next_number iteration st xs = Some (st', 0) ->
  stuck st' /\ (xs <> [] -> pk_bulk_insert_buffer_ st' <> []).
Proof.
  induction xs as [|[[x uuid] buf] xs IH]; intros st st' Hst; cbn [write_rows]; [by intros [= <-]|].
  destruct (bulk_write_row _ _ _ _ _ _ _ _) as [[st1 rc]|] eqn:Ew; [|done].
  destruct (Z.eqb_spec rc 0) as [->|]; [|by intros [= _ ->]]. destruct (write_row_stuck _ _ _ _ _ Hst Ew) as [Hst1 Hne].
  intros E. destruct xs as [|y xs]; [by injection E as <-|]. destruct (IH st1 st' Hst1 E) as [? Hpk]. split; [done|].
  intros _. by apply Hpk.
Qed.

Lemma emplace_empty ts : forall m, map_Forall (fun _ vb => vb.2 = []) m ->
  map_Forall (fun _ vb => vb.2 = []) (fold_left (emplace_buffer prefix) ts m) /\
  forall t, is_Some (m !! is_name (t_index t)) \/ t ∈ ts /\ has_unique_name prefix t = true ->
    is_Some (fold_left (emplace_buffer prefix) ts m !! is_name (t_index t)).
Proof.
  induction ts as [|t ts IH]; intros m Hm; simpl.
  { split; [done|]. intros t [?|[[]%elem_of_nil _]]. done. }
  assert (map_Forall (fun _ vb => vb.2 = []) (emplace_buffer prefix m t) /\ forall t',
    is_Some (m !! is_name (t_index t')) \/ t' = t /\ has_unique_name prefix t' = true ->
    is_Some (emplace_buffer prefix m t !! is_name (t_index t'))) as [H1 H2].
  { unfold emplace_buffer. destruct (has_unique_name prefix t) eqn:Hu.
    - destruct (m !! is_name (t_index t)) as [vb|] eqn:E.
      + split; [done|]. intros t' [?|[-> _]]; [done|by eexists].
      + split; [by apply map_Forall_insert_2|]. intros t' [?|[-> _]]; apply lookup_insert_is_Some'; [by right|by left].
    - split; [done|]. intros t' [?|[-> ?]]; [done|congruence]. }
  destruct (IH _ H1) as [H3 H4]. split; [done|].
  intros t' [H|[[->|H]%elem_of_cons Hu]]; apply H4; [left; by apply H2; left|left; by apply H2; right|by right].
Qed.

Lemma start_stuck st t : idle st -> is_duplicate_error_ st = true -> t ∈ targets env ->
  has_unique_name prefix t = true -> is_name (t_index t) = tn -> stuck (start_bulk_insert env prefix pk_next_number st).
Proof.
  intros (_ & _ & Hm) Hd Ht Hu Hn. unfold start_bulk_insert. rewrite Hd, checked. cbn [negb andb].
  split_and!; [done|done|]. simpl. rewrite Hm.
  destruct (emplace_empty (targets env) ∅ (map_Forall_empty _)) as [He Hs]. destruct (Hs t) as [[v b] Hb]; [by right|].
  exists v. rewrite <- Hn, Hb. by rewrite <- (He _ _ Hb).
Qed.

End Dirty.

Section Dirty_claim.

Context {S : Type} `{!TxService S, !BulkService S} (storage_hd : option (DataStoreHandler S)).
Context (env : ha_env) (prefix : string) (pk_next_number : bool).
Context (iteration : sk_buffers -> list (table_name * (Z * BulkInsertBuffer))).

(** C37: a bulk insert while a unique index is being added.  Where the primary
    key is checked in bulk ([check_primary_key]: insert semantics, a primary key
    of the user that is not an auto-increment column) and duplicates are errors,
    [start_bulk_insert] makes a buffer for a unique index that is still dirty,
    but [BulkInsert] adds no row to it; [BulkUniqueCheck] reads past its end,
    and so no such statement with a row in it succeeds. *)
Theorem dirty_unique_overrun st xs t st1 :
  (forall m, iteration m ≡ₚ map_to_list m) -> idle st -> is_duplicate_error_ st = true ->
  check_primary_key env pk_next_number = true ->
  t ∈ dirty_targets env -> has_unique_name prefix t = true ->
  (forall t', t' ∈ own_targets env -> is_name (t_index t') <> is_name (t_index t)) -> xs <> [] ->
  write_rows storage_hd env pk_next_number iteration (start_bulk_insert env prefix pk_next_number st) xs = Some (st1, 0) ->
  ~ exists st2, end_bulk_insert env pk_next_number iteration st1 = Some (st2, 0).
Proof.
  intros Hi Hid Hd Hc Ht Hu Hn Hxs Hw [st2 E].
  assert (forall t', t' ∈ targets env -> t_unique t' = true -> is_name (t_index t') <> is_name (t_index t)) as Hn'.
  { intros t' Ht' Hu'. apply Hn. by apply unique_own. }
  apply (write_rows_stuck storage_hd env pk_next_number iteration Hi (is_name (t_index t)) Hc Hn') in Hw as [Hst Hpk].
  - specialize (Hpk Hxs). unfold end_bulk_insert, rest_size in E. pose proof Hst as (Hb & _). rewrite Hb in E.
    destruct (pk_bulk_insert_buffer_ st1) as [|kv pk]; [done|]. cbn [length Nat.eqb andb Nat.ltb Nat.leb] in E.
    destruct (BulkUniqueCheck _ _ _ _ _) as [[st' res]|] eqn:Ec; [|done]. injection E as _ ->.
    revert Ec. by apply (BulkUniqueCheck_stuck env pk_next_number iteration Hi (is_name (t_index t))); [|lia].
  - apply (start_stuck env prefix pk_next_number (is_name (t_index t)) Hc st t); try done. apply elem_of_app. by right.
Qed.

End Dirty_claim.

(** ** The sample table *)

Import Statements.

#[export] Instance mem_bulk : BulkService mem_store := {|
  tx_UpsertUnique s tn v key rec op :=
    match ms_pending s !! (tn, key) with
    | Some (Some _) => (s, DUPLICATE_KEY)
    | _ => tx_Upsert s tn v key rec op
    end;
  tx_BatchReadStored s tn _ keys :=
    (s, inr (map (fun key => match ms_committed s !! (tn, key) with Some _ => RecordNormal | None => RecordDeleted end) keys))
|}.

#[export] Instance mem_bulk_laws : BulkLaws mem_store.
Proof.
  split.
  - intros s tn v key rec op s'. simpl. destruct (ms_pending s !! (tn, key)) as [[r|]|]; [done| |];
      (intros H; split; [done|exact (@law_upsert _ _ mem_laws s tn v key rec op s' H)]).
  - intros s tn v key rec op s'. simpl. destruct (ms_pending s !! (tn, key)) as [[r|]|]; [|done..].
    intros _. by exists r.
  - done.
  - intros s tn v keys s' r. simpl. intros [= <- <-]. split_and!; [done|done|]. apply Forall2_fmap_r, Forall_Forall2_diag, Forall_forall.
    intros key _. simpl. destruct (ms_committed s !! (tn, key)); [left; by eauto|by right].
Qed.

Abbreviation in_order := (fun m : sk_buffers => map_to_list m).

Definition b_start : bulk_state mem_store := {|
  bk_ha := t_start; is_duplicate_error_ := true; is_bulk_insert_ := false; pk_bulk_insert_buffer_ := [];
  unique_sk_bulk_insert_buffer_ := ∅; shown_row := None |}.

(** INSERT INTO t VALUES (1, 10, 20), (2, 11, 21). *)
Definition row_2c : bytes := t_row 2 11 21.
Definition b_input (bufs : list bytes) : list (option Z * bytes * bytes) := map (fun buf => (None, [], buf)) bufs.
Definition b_rows (bufs : list bytes) : list (bytes * bytes) := map (fun buf => (t_key buf, buf)) bufs.

Lemma b_ready : bulk_ready t_env t_def t_good "*" in_order ∅ b_start.
Proof.
  split; [exact t_is_table|by apply (bool_decide_unpack _)| |done|done|exact t_start_consistent].
  intros t Ht. rewrite t_targets in Ht. by apply elem_of_cons in Ht as [->|[->|[]%elem_of_nil]%elem_of_cons].
Qed.

Lemma b_packs bufs : Forall (fun buf => bytes_ok buf /\ length buf = 13%nat /\ packs_to_key buf = true) bufs ->
  Forall2 (packs t_env t_good) (b_input bufs) (b_rows bufs).
Proof.
  induction 1 as [|buf bufs (Hb & Hl & Hp) _ IH]; [constructor|]. constructor; [|exact IH].
  split_and!; [done|by apply t_row_good|]. apply packs_to_key_elim in Hp as [rec Hp]. by exists rec.
Qed.

Lemma bulk_insert_witness : exists st1 rc, write_rows None t_env false in_order (start_bulk_insert t_env "*" false b_start)
    (b_input [row_1; row_2c]) = Some (st1, rc) /\
  (rc = 0 -> exists st2 rc2, end_bulk_insert t_env false in_order st1 = Some (st2, rc2) /\ idle st2 /\
     (rc2 = 0 -> (keys_checked t_env st1 -> fresh ∅ (b_rows [row_1; row_2c])) /\
        (fresh ∅ (b_rows [row_1; row_2c]) -> consistent t_env t_good (insert_rows ∅ (b_rows [row_1; row_2c])) (txm (bk_ha st2))))).
Proof.
  apply (bulk_insert_correct None t_env t_def t_good "*" false in_order ∅ b_start).
  - exact b_ready.
  - apply b_packs. repeat constructor; try done; by apply (bool_decide_unpack _).
Defined.

Abbreviation b_run env bufs :=
  (write_rows None env false in_order (start_bulk_insert env "*" false b_start) (b_input bufs)).

Definition b_end (env : ha_env) (r : option (bulk_state mem_store * Z)) : option Z :=
  match r with Some (st, _) => snd <$> end_bulk_insert env false in_order st | None => None end.

(** Both rows are inserted; a row with the same primary key is refused, and
    the end of the statement reads past the end of a buffer; so does the end
    after a row with the same value of a. *)
Example bulk_insert_run :
  snd <$> b_run t_env [row_1; row_2c] = Some 0 /\ b_end t_env (b_run t_env [row_1; row_2c]) = Some 0 /\
  snd <$> b_run t_env [row_1; t_row 1 11 21] = Some HA_ERR_FOUND_DUPP_KEY /\
  b_end t_env (b_run t_env [row_1; t_row 1 11 21]) = None /\
  snd <$> b_run t_env [row_1; t_row 2 10 21] = Some HA_ERR_FOUND_DUPP_KEY /\
  b_end t_env (b_run t_env [row_1; t_row 2 10 21]) = None.
Proof. by vm_compute. Qed.

(** The state after the first row, and a second row with its primary key. *)
Definition b_one : bulk_state mem_store := match b_run t_env [row_1] with Some (st, _) => st | None => b_start end.
Definition row_1c : bytes := t_row 1 11 21.
Definition rec_1c : EloqRecord :=
  match row_record t_env row_1c with Some rec => rec | None => {| encoded_blob_ := []; unpack_info_ := [] |} end.
Definition b_dup : bulk_state mem_store :=
  match BulkInsert t_env false in_order b_one row_1c (t_key row_1c) rec_1c with Some (st, _) => st | None => b_one end.

Lemma b_one_run : b_run t_env [row_1] = Some (b_one, 0).
Proof. by vm_compute. Qed.

Lemma b_one_bulk : is_bulk_insert_ b_one = true.
Proof. by vm_compute. Qed.

Lemma b_one_packs : Forall2 (packs t_env t_good) (b_input [row_1]) (b_rows [row_1]).
Proof. apply b_packs. repeat constructor; try done; by apply (bool_decide_unpack _). Qed.

Lemma row_1c_good : t_good (t_key row_1c) row_1c.
Proof. apply t_row_good; [by apply (bool_decide_unpack _)|done]. Qed.

Lemma rec_1c_record : row_record t_env row_1c = Some rec_1c.
Proof. by vm_compute. Qed.

Lemma b_dup_run : BulkInsert t_env false in_order b_one row_1c (t_key row_1c) rec_1c = Some (b_dup, HA_ERR_FOUND_DUPP_KEY).
Proof. by vm_compute. Qed.

Lemma bulk_duplicate_witness :
  exists st2 rc batch, BulkInsert t_env false in_order b_one row_1c (t_key row_1c) rec_1c = Some (st2, rc) /\
    batch `suffix_of` b_rows [row_1] /\
    (rc = HA_ERR_FOUND_DUPP_KEY -> reported t_env (txm (bk_ha b_one)) batch (t_key row_1c, row_1c) (bk_ha st2)).
Proof.
  exact (bulk_duplicate_reported None t_env t_def t_good "*" false in_order ∅ b_start (b_input [row_1]) (b_rows [row_1])
    b_one (t_key row_1c) row_1c rec_1c b_ready b_one_packs b_one_run b_one_bulk row_1c_good rec_1c_record).
Defined.

Lemma duplicate_overrun_witness : end_bulk_insert t_env false in_order b_dup = None.
Proof.
  apply (duplicate_overrun None t_env t_def t_good "*" false in_order ∅ b_start (b_input [row_1]) (b_rows [row_1])
    b_one (t_key row_1c) row_1c rec_1c b_dup {| t_kid := 1; t_unique := true; t_index := t_schema "t*a"%string 1 |}
    b_ready b_one_packs b_one_run b_one_bulk row_1c_good rec_1c_record b_dup_run).
  - by vm_compute.
  - by left.
  - reflexivity.
Defined.

(** The table while a unique index on b is added. *)
Definition d_env : ha_env := {|
  ha_table := t_table; ha_mem := fun _ => []; ha_fields := ha_fields t_env;
  base_table_name := "t"%string; base_version := 1; pk_descr_ := set_up t_pk_kd;
  IndexNameSchema := [t_schema "t*pk"%string 0; t_schema "t*a"%string 1; t_schema "t*b"%string 2];
  DirtyIndexes := [t_schema "t*c"%string 2]; is_insert_semantic_ := true; next_number_index := None;
  lock_write := true; lock_shared := false; is_covering := false |}.

Definition d_one : bulk_state mem_store := match b_run d_env [row_1] with Some (st, _) => st | None => b_start end.

Lemma d_one_run : b_run d_env [row_1] = Some (d_one, 0).
Proof. by vm_compute. Qed.

Lemma dirty_unique_witness : ~ exists st2, end_bulk_insert d_env false in_order d_one = Some (st2, 0).
Proof.
  apply (dirty_unique_overrun None d_env "*" false in_order b_start (b_input [row_1])
    {| t_kid := 3; t_unique := false; t_index := t_schema "t*c"%string 2 |} d_one).
  - done.
  - done.
  - reflexivity.
  - reflexivity.
  - by left.
  - reflexivity.
  - intros t' Ht'. assert (own_targets d_env = own_targets t_env) as E by done. rewrite E in Ht'.
    apply own_target in Ht'. rewrite t_targets in Ht'.
    by apply elem_of_cons in Ht' as [->|[->|[]%elem_of_nil]%elem_of_cons].
  - done.
  - exact d_one_run.
Defined.

Example dirty_unique_run : b_end d_env (b_run d_env [row_1]) = None.
Proof. by vm_compute. Qed.

End BulkRows.
