(* ===== verification/Scan.v ===== *)
(** * Scan: the key ranges of index scans

    How ha_eloq.cc turns a search key and a comparison into a range of keys
    ([SetScanParameters], [PrepareScan], [PrepareForwardScanEndKey],
    [PrepareBackwardScanEndKey]), and which rows have their key in the range.
    A search key arrives as a key tuple of the SQL layer, which
    [pack_index_tuple] restores into a record buffer and packs. *)

From stdpp Require Import gmap.
From S2P Require Import Prelude Buff Charset Latin1 Copy Collation Field Placement Store.
From S2P Require Import Codec Packing VarFormat SpacePad Varchar KeySetup KeyDef KeyOrder Index KeyRead Restore.
From S2P Require Import RoundTrip Layout KeyTuple Neighbour.
Import Field Placement Packing Varchar KeySetup KeyDef KeyOrder Index KeyRead Layout KeyTuple Neighbour.

Module Scan.

(** ** Definitions *)

(** include/my_base.h *)
Inductive ha_rkey_function :=
  | HA_READ_KEY_EXACT | HA_READ_KEY_OR_NEXT | HA_READ_KEY_OR_PREV | HA_READ_AFTER_KEY | HA_READ_BEFORE_KEY
  | HA_READ_PREFIX | HA_READ_PREFIX_LAST | HA_READ_PREFIX_LAST_OR_PREV | HA_READ_MBR_CONTAIN
  | HA_READ_MBR_INTERSECT | HA_READ_MBR_WITHIN | HA_READ_MBR_DISJOINT | HA_READ_MBR_EQUAL.

#[export] Instance ha_rkey_function_eq_dec : EqDecision ha_rkey_function.
Proof. solve_decision. Defined.

Abbreviation HA_ERR_UNSUPPORTED := 138 (only parsing).

Inductive ScanDirection := Forward | Backward.

#[export] Instance ScanDirection_eq_dec : EqDecision ScanDirection.
Proof. solve_decision. Defined.

(** The return code, or direction, inclusive and prefix match. *)
Definition SetScanParameters (find_flag : ha_rkey_function) : Z + (ScanDirection * bool * bool) :=
  match find_flag with
  | HA_READ_KEY_EXACT => inr (Forward, true, true)
  | HA_READ_BEFORE_KEY => inr (Backward, false, false)
  | HA_READ_AFTER_KEY => inr (Forward, false, false)
  | HA_READ_KEY_OR_NEXT => inr (Forward, true, false)
  | HA_READ_KEY_OR_PREV | HA_READ_PREFIX => inl HA_ERR_UNSUPPORTED
  | HA_READ_PREFIX_LAST => inr (Backward, true, true)
  | HA_READ_PREFIX_LAST_OR_PREV => inr (Backward, true, false)
  | _ => inl HA_ERR_UNSUPPORTED
  end.

(** [key_range]: a key tuple, the parts it has and the comparison. *)
Record key_range := {
  kr_key : bytes;
  kr_keypart_map : Z;
  kr_flag : ha_rkey_function
}.

(** What a scan is opened with: where it starts, and where it ends if that is
    specified. *)
Record scan_range := {
  sr_start : bytes;
  sr_start_inclusive : bool;
  sr_end : option (bytes * bool);
  sr_direction : ScanDirection
}.

Section Scan.

(** [key_addr] is where a key tuple lies in memory; [is_primary] is
    [active_index == table_share->primary_key]; [key_part_cnt] is the number
    of key parts of the active index. *)
Context (mem : Z -> bytes) (key_addr : bytes -> Z) (extended_keys : bool) (tbl : TABLE) (kd : mono_key_def).
Context (is_primary : bool) (key_part_cnt : nat).

(** The packed key and the record buffer. *)
Definition EncodeScanKey (record_buffer mysql_key : bytes) (keypart_map : Z) : option (bytes * bytes) :=
  pack_index_tuple mem (key_addr mysql_key) extended_keys kd tbl record_buffer mysql_key keypart_map.

(** All parts of the key are given. *)
Definition use_full_key (keypart_map : Z) : bool :=
  (keypart_map =? HA_WHOLE_KEY) || (keypart_map =? Z.shiftl 1 (Z.of_nat key_part_cnt) - 1).

(** The end of a forward scan: the key and whether it is included; the inner
    [None] when there is no end (return value 1). *)
Definition PrepareForwardScanEndKey (record_buffer : bytes) (end_range : option key_range)
    : option (option (bytes * bool)) :=
  match end_range with
  | None => Some None
  | Some r =>
      match EncodeScanKey record_buffer (kr_key r) (kr_keypart_map r) with
      | None => None
      | Some (scan_end_key, _) =>
          match kr_flag r with
          | HA_READ_BEFORE_KEY => Some (Some (scan_end_key, false))
          | HA_READ_AFTER_KEY =>
              let end_use_full_key := use_full_key (kr_keypart_map r) in
              Some (Some (if negb end_use_full_key || negb is_primary
                          then get_ceiling_key kd scan_end_key else scan_end_key, true))
          | _ => Some None
          end
      end
  end.

(** The end of a backward scan; [start_range] is [start_range_ptr_]. *)
Definition PrepareBackwardScanEndKey (record_buffer : bytes) (start_range : option key_range)
    : option (option (bytes * bool)) :=
  match start_range with
  | None => Some None
  | Some r =>
      match EncodeScanKey record_buffer (kr_key r) (kr_keypart_map r) with
      | None => None
      | Some (scan_end_key, _) =>
          match kr_flag r with
          | HA_READ_KEY_OR_NEXT => Some (Some (scan_end_key, true))
          | HA_READ_AFTER_KEY =>
              let end_use_full_key := use_full_key (kr_keypart_map r) in
              Some (Some (if negb end_use_full_key || negb is_primary
                          then get_ceiling_key kd scan_end_key else scan_end_key, false))
          | _ => Some None
          end
      end
  end.

(** [None] if a key cannot be packed; otherwise an error code or the range. *)
Definition PrepareScan (record_buffer mysql_start_key : bytes) (keypart_map : Z) (search_flag : ha_rkey_function)
    (start_use_full_key : bool) (end_range start_range : option key_range) : option (Z + scan_range) :=
  match SetScanParameters search_flag with
  | inl rc => Some (inl rc)
  | inr (direction, start_inclusive, prefix_match) =>
      match EncodeScanKey record_buffer mysql_start_key keypart_map with
      | None => None
      | Some (search_key, record_buffer) =>
          if prefix_match then
            match direction with
            | Forward =>
                Some (inr {| sr_start := search_key; sr_start_inclusive := start_inclusive;
                             sr_end := Some (get_ceiling_key kd search_key, true); sr_direction := direction |})
            | Backward =>
                Some (inr {| sr_start := get_ceiling_key kd search_key; sr_start_inclusive := start_inclusive;
                             sr_end := Some (search_key, true); sr_direction := direction |})
            end
          else
            match direction with
            | Forward =>
                let start := if (negb start_use_full_key || negb is_primary) && negb start_inclusive
                             then get_ceiling_key kd search_key else search_key in
                match PrepareForwardScanEndKey record_buffer end_range with
                | None => None
                | Some e => Some (inr {| sr_start := start; sr_start_inclusive := start_inclusive; sr_end := e;
                                         sr_direction := direction |})
                end
            | Backward =>
                let start := if (negb start_use_full_key || negb is_primary) && start_inclusive
                             then get_ceiling_key kd search_key else search_key in
                match PrepareBackwardScanEndKey record_buffer start_range with
                | None => None
                | Some e => Some (inr {| sr_start := start; sr_start_inclusive := start_inclusive; sr_end := e;
                                         sr_direction := direction |})
                end
            end
      end
  end.

End Scan.

(** ** The keys of a range *)

(** [k] comes after the start, or before the end, in the given direction. *)
Definition past (direction : ScanDirection) (inclusive : bool) (from k : bytes) : Prop :=
  let c := match direction with Forward => lex_cmp from k | Backward => lex_cmp k from end in
  c = Lt \/ (inclusive = true /\ c = Eq).

Definition in_scan (r : scan_range) (k : bytes) : Prop :=
  past (sr_direction r) (sr_start_inclusive r) (sr_start r) k /\
  match sr_end r with
  | None => True
  | Some (e, inclusive) =>
      past (match sr_direction r with Forward => Backward | Backward => Forward end) inclusive e k
  end.

(** What the search flags ask of a row, given how the search key compares with
    it. *)
Definition start_matches (flag : ha_rkey_function) (c : comparison) : Prop :=
  match flag with
  | HA_READ_KEY_EXACT | HA_READ_PREFIX_LAST => c = Eq
  | HA_READ_AFTER_KEY => c = Lt
  | HA_READ_KEY_OR_NEXT => c <> Gt
  | HA_READ_BEFORE_KEY => c = Gt
  | HA_READ_PREFIX_LAST_OR_PREV => c <> Lt
  | _ => False
  end.

(** The end of a forward scan is [<] or [<=], that of a backward scan [>=] or
    [>]; other flags set no end. *)
Definition forward_end_matches (flag : ha_rkey_function) (c : comparison) : Prop :=
  match flag with
  | HA_READ_BEFORE_KEY => c = Gt
  | HA_READ_AFTER_KEY => c <> Lt
  | _ => True
  end.

Definition backward_end_matches (flag : ha_rkey_function) (c : comparison) : Prop :=
  match flag with
  | HA_READ_KEY_OR_NEXT => c <> Gt
  | HA_READ_AFTER_KEY => c = Lt
  | _ => True
  end.


(** ** One search key *)

(** [S] is the key of the first columns of a search key, [K] the key of a row,
    and [c] how the columns compare. *)
Record located (kd : mono_key_def) (S K : bytes) (c : comparison) : Prop := {
  lo_prefix : S `prefix_of` K <-> c = Eq;
  lo_differ : c <> Eq -> lex_cmp S K = c;
  lo_bytes : bytes_ok K;
  lo_length : (length K <= m_maxlength kd)%nat
}.

Lemma past_forward_inclusive kd S K c : located kd S K c -> past Forward true S K <-> c <> Gt.
Proof.
  intros H. unfold past. destruct c.
  - destruct (proj2 (lo_prefix _ _ _ _ H) eq_refl) as [r ->]. pose proof (lex_cmp_prefix_le S r) as Hle.
    destruct (lex_cmp S (S ++ r)); split; intros; auto; done.
  - rewrite (lo_differ _ _ _ _ H) by done. split; [done|auto].
  - rewrite (lo_differ _ _ _ _ H) by done. split; [intros [?|[_ ?]]; done|done].
Qed.

Lemma past_backward_exclusive kd S K c : located kd S K c -> past Backward false S K <-> c = Gt.
Proof.
  intros H. unfold past. rewrite lex_cmp_antisym. destruct c.
  - destruct (proj2 (lo_prefix _ _ _ _ H) eq_refl) as [r ->]. pose proof (lex_cmp_prefix_le S r) as Hle.
    destruct (lex_cmp S (S ++ r)); split; try done; intros [?|[? _]]; done.
  - rewrite (lo_differ _ _ _ _ H) by done. split; [intros [?|[? _]]|]; done.
  - rewrite (lo_differ _ _ _ _ H) by done. split; [done|by left].
Qed.

Lemma below_ceiling kd S K c : located kd S K c -> lex_cmp K (get_ceiling_key kd S) <> Gt <-> c <> Lt.
Proof.
  intros H. rewrite (ceiling_cmp kd S K (lo_bytes _ _ _ _ H) (lo_length _ _ _ _ H)), (lo_prefix _ _ _ _ H).
  destruct c.
  - split; [done|by left].
  - rewrite (lo_differ _ _ _ _ H) by done. split; [intros [?|?]|]; done.
  - rewrite (lo_differ _ _ _ _ H) by done. split; [done|by right].
Qed.

Lemma past_backward_ceiling kd S K c :
  located kd S K c -> past Backward true (get_ceiling_key kd S) K <-> c <> Lt.
Proof.
  intros H. rewrite <- (below_ceiling kd S K c H). unfold past.
  destruct (lex_cmp K (get_ceiling_key kd S)); split; try done; auto. intros [?|[_ ?]]; done.
Qed.

Lemma past_forward_ceiling kd S K c :
  located kd S K c -> past Forward false (get_ceiling_key kd S) K <-> c = Lt.
Proof.
  intros H. pose proof (below_ceiling kd S K c H) as Hb. unfold past. rewrite lex_cmp_antisym.
  destruct (lex_cmp K (get_ceiling_key kd S)), c; simpl; intuition congruence.
Qed.

(** With all columns given the two keys compare as the columns do. *)
Lemma past_full direction inclusive S K c :
  lex_cmp S K = c ->
  past direction inclusive S K <->
  match direction with
  | Forward => c = Lt \/ (inclusive = true /\ c = Eq)
  | Backward => c = Gt \/ (inclusive = true /\ c = Eq)
  end.
Proof.
  intros <-. unfold past. destruct direction; [done|]. rewrite (lex_cmp_antisym K S). destruct (lex_cmp S K); simpl; intuition congruence.
Qed.

(** ** The rows of a scan *)

Section Rows.

Context (mem : Z -> bytes) (key_addr : bytes -> Z) (ext : bool) (size : nat) (uninit : mono_field_packing).
Context (tbl : TABLE) (kd0 : mono_key_def) (ki : KEY) (cols pk_cols : list indexed_part).
Context (Hid : index_definition tbl kd0 ki cols pk_cols) (Htuple : Forall (fun c => tuple_part c.1 c.2) cols).
Context (Hlo : laid_out_fields size (map (fun c => kp_field c.1) cols)).
Context (Hpos : Forall (fun c => (0 < field_length (kp_field c.1))%nat) (index_columns ki cols pk_cols)).
Context (Hlim : Z.of_nat (total_length (map fst cols)) < 2 ^ 32).

(** [key] is the key tuple of the first [n] columns of [rec]. *)
Record search_key (n : nat) (rec key : bytes) : Prop := {
  sk_parts : (0 < n <= 63)%nat /\ (n <= actual_n_key_parts ext ki)%nat /\ (n <= length cols)%nat /\
    (n < MAX_REF_PARTS)%nat;
  sk_row : row_ok (take n cols) rec;
  sk_key : exists mem' zf to_key,
    (calculate_key_len ext ki (2 ^ Z.of_nat n - 1) <= length to_key)%nat /\
    key = key_copy mem' zf to_key rec ki (calculate_key_len ext ki (2 ^ Z.of_nat n - 1))
}.

Notation all := (index_columns ki cols pk_cols).

Lemma laid_out_fields_take n fs : laid_out_fields size fs -> laid_out_fields size (take n fs).
Proof.
  revert n. induction fs as [|f fs IH]; intros [|n]; try done. intros (H1 & H2 & H3 & H4).
  simpl. split_and!; auto. by apply Forall_take.
Qed.

Lemma total_length_take n : (total_length (map fst (take n cols)) <= total_length (map fst cols))%nat.
Proof.
  clear. revert n. induction cols as [|c cs IH]; intros [|n]; try (unfold total_length; simpl; lia).
  cbn [take map]. specialize (IH n). unfold total_length in *. simpl in *. lia.
Qed.

Lemma take_all n : (n <= length cols)%nat -> take n all = take n cols.
Proof. intros H. unfold index_columns. by rewrite take_app_le. Qed.

Lemma ready_packed cs infos :
  Forall2 (part_ready mem uninit tbl) cs infos -> Forall2 (part_packed mem uninit tbl) cs infos.
Proof. induction 1 as [|c info cs infos Hc _ IH]; constructor; [apply Hc|done]. Qed.

Lemma row_key_app cs cs' infos infos' row : length cs = length infos ->
  row_key mem (cs ++ cs') (infos ++ infos') row = row_key mem cs infos row ++ row_key mem cs' infos' row.
Proof. intros H. unfold row_key, index_key, columns_of. by rewrite zip_with_app, map_app, concat_app. Qed.

Lemma bound_take n cs infos :
  (sum_list (zip_with image_bound (take n cs) (take n infos)) <= sum_list (zip_with image_bound cs infos))%nat.
Proof.
  revert n infos. induction cs as [|c cs IH]; intros [|n] [|info infos]; simpl; try lia.
  specialize (IH n infos). lia.
Qed.

(** The keys of the first columns, and of the first [m] or all of them. *)
Lemma prefix_located kd m n rec row :
  Forall2 (part_ready mem uninit tbl) all (m_pack_info kd) ->
  m_maxlength kd = sum_list (zip_with image_bound all (m_pack_info kd)) -> (n <= m)%nat ->
  row_ok (take n all) rec -> row_ok (take m all) row -> bytes_ok row ->
  let S := row_key mem (take n all) (take n (m_pack_info kd)) rec in
  let K := row_key mem (take m all) (take m (m_pack_info kd)) row in
  let c := parts_cmp (map fst (take n all)) rec row in
  located kd S K c /\ (n = length all -> lex_cmp S K = c).
Proof.
  intros Hr Hm Hnm Hrec Hrow Hb S K c.
  pose proof (ready_packed _ _ Hr) as Hp.
  pose proof (columns_of_packs mem uninit tbl _ _ (Forall2_take _ _ _ n Hp)) as Hpk.
  pose proof (mem_cmp_index mem tbl _ _ Hpk) as HM.
  pose proof (columns_of_ok mem uninit tbl _ _ rec (Forall2_take _ _ _ n Hp) Hrec) as Or.
  assert (row_ok (take n all) row) as Hrown.
  { pose proof (Forall_take _ n _ Hrow) as H. rewrite take_take in H. by rewrite Nat.min_l in H. }
  pose proof (columns_of_ok mem uninit tbl _ _ row (Forall2_take _ _ _ n Hp) Hrown) as Ow.
  assert (c = index_cmp (columns_of (take n all) (take n (m_pack_info kd))) rec row) as Hc.
  { symmetry. apply (columns_of_cmp mem uninit tbl). by apply Forall2_take. }
  assert (exists rest, K = row_key mem (take n all) (take n (m_pack_info kd)) row ++ rest /\
    (n = length all -> rest = [])) as (rest & HK & Hrest).
  { exists (row_key mem (drop n (take m all)) (drop n (take m (m_pack_info kd))) row). split.
    - rewrite <- row_key_app; [|pose proof (Forall2_length Hp); rewrite !length_take; lia].
      replace (take n all) with (take n (take m all)) by (rewrite take_take; f_equal; lia).
      replace (take n (m_pack_info kd)) with (take n (take m (m_pack_info kd))) by (rewrite take_take; f_equal; lia).
      by rewrite !take_drop.
    - intros ->. rewrite drop_ge; [done|]. rewrite length_take. lia. }
  destruct (mem_cmp_prefix (MemCmp0 := HM) rec row rest Or Ow) as [H1 H2]. split; [split|].
  - rewrite HK, Hc. exact H1.
  - rewrite HK, Hc. exact H2.
  - apply (row_key_ok mem uninit tbl); [by apply Forall2_take|done|done].
  - rewrite Hm. etrans; [|apply (bound_take m)].
    apply (row_key_bound mem uninit tbl); [by apply Forall2_take|done|by apply Forall_take].
  - intros Hn. rewrite HK, (Hrest Hn), app_nil_r, Hc. by apply (mem_cmp_nil (MemCmp0 := HM)).
Qed.

(** [EncodeScanKey] restores the columns of the search key into the record
    buffer and packs them. *)
Lemma encode_restored kd n rec key record_buffer :
  Forall2 (part_ready mem uninit tbl) all (m_pack_info kd) -> m_keyno kd = m_keyno kd0 ->
  search_key n rec key -> length record_buffer = size -> bytes_ok record_buffer ->
  exists buf, EncodeScanKey mem key_addr ext tbl kd record_buffer key (2 ^ Z.of_nat n - 1) =
      Some (row_key mem (take n all) (take n (m_pack_info kd)) buf, buf) /\
    length buf = size /\ bytes_ok buf /\ row_ok (take n all) buf /\
    forall row, row_ok (take n all) row ->
      parts_cmp (map fst (take n all)) buf row = parts_cmp (map fst (take n all)) rec row.
Proof.
  intros Hr Hk [(Hn & Hact & Hlen & Hmax) Hrow (mem' & zf & to_key & Hto & ->)] Hl Hb.
  pose proof (total_length_take n) as Htl.
  assert (Forall (fun c => tuple_part c.1 c.2) (take n cols)) as Ht by (by apply Forall_take).
  assert (laid_out_fields size (map (fun c => kp_field c.1) (take n cols))) as Hlo'.
  { rewrite <- firstn_map. by apply laid_out_fields_take. }
  pose proof (calculate_key_len_prefix ext ki cols n (id_parts _ _ _ _ _ Hid) Hn Hact) as Hkl.
  destruct (restored_tuple_spec mem' zf (key_addr (key_copy mem' zf to_key rec ki (calculate_key_len ext ki (2 ^ Z.of_nat n - 1))))
    ext size ki cols n (id_parts _ _ _ _ _ Hid) Hn Hact Hlen Ht Hlo' rec to_key record_buffer Hrow
    ltac:(rewrite Hkl; lia) Hto Hl Hb) as (Hl' & Hb' & Hrow' & _ & Hcmp & _).
  unfold EncodeScanKey, pack_index_tuple. rewrite Hk, (id_key _ _ _ _ _ Hid).
  fold (restored_tuple mem' zf (key_addr (key_copy mem' zf to_key rec ki (calculate_key_len ext ki (2 ^ Z.of_nat n - 1))))
    ext ki n rec to_key record_buffer). set (buf := restored_tuple _ _ _ _ _ _ _ _ _) in *.
  assert (2 ^ Z.of_nat n <= 2 ^ 63) as Hpow by (apply Z.pow_le_mono_r; lia).
  rewrite (proj2 (Z.eqb_neq _ _)) by lia. rewrite my_count_bits_prefix, Nat2Z.id by lia.
  pose proof (ready_packed _ _ Hr) as Hp.
  rewrite <- take_all in Hrow', Hcmp by done.
  assert (length cols <= length all)%nat as Hla by (unfold index_columns; rewrite length_app; lia).
  destruct (pack_index_prefix mem uninit tbl kd all buf None n (index_definition_pk _ _ _ _ _ Hid) Hp
    ltac:(lia) ltac:(lia)) as (st & -> & Est).
  { by rewrite (proj2 (Nat.eqb_neq _ _)) by lia. }
  rewrite (proj2 (Nat.eqb_neq _ _)) in Est by lia. exists buf. split_and!; [|done..].
  simpl. rewrite Est. unfold row_key, columns_of. by rewrite zip_with_take.
Qed.

(** The keys of the rows have the first [m] columns. *)
Context (m : nat) (Hcols : (length cols <= m)%nat).

Lemma row_ok_take n row : (n <= length cols)%nat -> row_ok (take m all) row -> row_ok (take n all) row.
Proof. intros Hn H. pose proof (Forall_take _ n _ H) as H'. rewrite take_take in H'. by rewrite Nat.min_l in H' by lia. Qed.

Lemma encode_located kd n rec key record_buffer :
  Forall2 (part_ready mem uninit tbl) all (m_pack_info kd) ->
  m_maxlength kd = sum_list (zip_with image_bound all (m_pack_info kd)) ->
  m_keyno kd = m_keyno kd0 -> search_key n rec key -> length record_buffer = size -> bytes_ok record_buffer ->
  exists S record_buffer',
    EncodeScanKey mem key_addr ext tbl kd record_buffer key (2 ^ Z.of_nat n - 1) = Some (S, record_buffer') /\
    length record_buffer' = size /\ bytes_ok record_buffer' /\
    forall row, row_ok (take m all) row -> bytes_ok row ->
      let K := row_key mem (take m all) (take m (m_pack_info kd)) row in
      let c := parts_cmp (map fst (take n cols)) rec row in
      located kd S K c /\ (n = length all -> lex_cmp S K = c).
Proof.
  intros Hr Hm Hk Hs Hl Hb. pose proof (sk_parts _ _ _ Hs) as (_ & _ & Hlen & _).
  destruct (encode_restored kd n rec key record_buffer Hr Hk Hs Hl Hb) as (buf & E & Hl' & Hb' & Hrow & Hcmp).
  do 2 eexists. split; [exact E|]. split_and!; [done..|]. intros row Hok Hrb. cbv zeta.
  rewrite <- take_all, <- (Hcmp row) by (done || by apply row_ok_take). apply (prefix_located kd m n buf row); try done. lia.
Qed.

(** An end of the scan, given by the first [b_parts] columns of a record. *)
Record bound := { b_parts : nat; b_record : bytes; b_key : bytes; b_flag : ha_rkey_function }.

Definition range_of (b : bound) : key_range :=
  {| kr_key := b_key b; kr_keypart_map := 2 ^ Z.of_nat (b_parts b) - 1; kr_flag := b_flag b |}.

Definition bound_ok (b : option bound) : Prop :=
  match b with Some b => search_key (b_parts b) (b_record b) (b_key b) | None => True end.

Definition bound_matches (matches : ha_rkey_function -> comparison -> Prop) (b : option bound) (row : bytes) : Prop :=
  match b with
  | Some b => matches (b_flag b) (parts_cmp (map fst (take (b_parts b) cols)) (b_record b) row)
  | None => True
  end.

(** What a search asks of a row. *)
Definition scan_condition (flag : ha_rkey_function) (n : nat) (rec : bytes) (end_ start : option bound) (row : bytes) : Prop :=
  start_matches flag (parts_cmp (map fst (take n cols)) rec row) /\
  match SetScanParameters flag with
  | inr (Forward, _, false) => bound_matches forward_end_matches end_ row
  | inr (Backward, _, false) => bound_matches backward_end_matches start row
  | _ => True
  end.

Section Prepare.

Context (kd : mono_key_def) (is_primary : bool).
Context (Hr : Forall2 (part_ready mem uninit tbl) all (m_pack_info kd)).
Context (Hm : m_maxlength kd = sum_list (zip_with image_bound all (m_pack_info kd))).
Context (Hk : m_keyno kd = m_keyno kd0).
Context (Hprim : is_primary = true -> all = cols /\ actual_n_key_parts ext ki = length cols).

Notation key_part_cnt := (actual_n_key_parts ext ki).
Notation key_of row := (row_key mem (take m all) (take m (m_pack_info kd)) row).

(** A full key of the primary index has all columns. *)
Lemma full_key_all n : (n <= 63)%nat -> (key_part_cnt <= 63)%nat ->
  negb (use_full_key key_part_cnt (2 ^ Z.of_nat n - 1)) || negb is_primary = false -> n = length all.
Proof.
  intros Hn Hc. unfold use_full_key.
  assert (2 ^ Z.of_nat n <= 2 ^ 63) as Hpow by (apply Z.pow_le_mono_r; lia).
  rewrite (proj2 (Z.eqb_neq _ HA_WHOLE_KEY)) by lia.
  rewrite Z.shiftl_mul_pow2, Z.mul_1_l by lia. cbn [orb].
  destruct (Z.eqb_spec (2 ^ Z.of_nat n - 1) (2 ^ Z.of_nat key_part_cnt - 1)) as [E|E]; [|done].
  destruct is_primary; [|done]. intros _. destruct (Hprim eq_refl) as [-> <-].
  assert (2 ^ Z.of_nat n = 2 ^ Z.of_nat key_part_cnt) as E' by lia. apply Z.pow_inj_r in E'; lia.
Qed.

Lemma forward_end_correct record_buffer b :
  bound_ok b -> (key_part_cnt <= 63)%nat -> length record_buffer = size -> bytes_ok record_buffer ->
  exists e, PrepareForwardScanEndKey mem key_addr ext tbl kd is_primary key_part_cnt record_buffer
      (range_of <$> b) = Some e /\
    forall row, row_ok (take m all) row -> bytes_ok row ->
      match e with None => True | Some (e, incl) => past Backward incl e (key_of row) end <->
      bound_matches forward_end_matches b row.
Proof.
  intros Hb Hc Hl Hok. destruct b as [b|]; [|by exists None]. simpl in Hb.
  destruct (encode_located kd _ _ _ record_buffer Hr Hm Hk Hb Hl Hok) as (S & rb & E & _ & _ & Hloc).
  simpl. rewrite E. destruct (sk_parts _ _ _ Hb) as ((_ & Hn) & _).
  destruct (b_flag b) eqn:Ef; try (exists None; split; [done|]; intros row _ _; simpl; by rewrite ?Ef);
    (eexists; split; [reflexivity|]); intros row Hrow Hrb; destruct (Hloc row Hrow Hrb) as [HL HF];
    simpl; rewrite ?Ef; simpl.
  - destruct (negb _ || negb is_primary) eqn:Ep.
    + by apply past_backward_ceiling.
    + rewrite (past_full Backward true _ _ _ (HF (full_key_all _ Hn Hc Ep))).
      destruct (parts_cmp _ _ _); intuition congruence.
  - by apply (past_backward_exclusive kd).
Qed.

Lemma backward_end_correct record_buffer b :
  bound_ok b -> (key_part_cnt <= 63)%nat -> length record_buffer = size -> bytes_ok record_buffer ->
  exists e, PrepareBackwardScanEndKey mem key_addr ext tbl kd is_primary key_part_cnt record_buffer
      (range_of <$> b) = Some e /\
    forall row, row_ok (take m all) row -> bytes_ok row ->
      match e with None => True | Some (e, incl) => past Forward incl e (key_of row) end <->
      bound_matches backward_end_matches b row.
Proof.
  intros Hb Hc Hl Hok. destruct b as [b|]; [|by exists None]. simpl in Hb.
  destruct (encode_located kd _ _ _ record_buffer Hr Hm Hk Hb Hl Hok) as (S & rb & E & _ & _ & Hloc).
  simpl. rewrite E. destruct (sk_parts _ _ _ Hb) as ((_ & Hn) & _).
  destruct (b_flag b) eqn:Ef; try (exists None; split; [done|]; intros row _ _; simpl; by rewrite ?Ef);
    (eexists; split; [reflexivity|]); intros row Hrow Hrb; destruct (Hloc row Hrow Hrb) as [HL HF];
    simpl; rewrite ?Ef; simpl.
  - by apply (past_forward_inclusive kd).
  - destruct (negb _ || negb is_primary) eqn:Ep.
    + by apply past_forward_ceiling.
    + rewrite (past_full Forward false _ _ _ (HF (full_key_all _ Hn Hc Ep))).
      destruct (parts_cmp _ _ _); intuition congruence.
Qed.

Definition supported_flag (flag : ha_rkey_function) : Prop := exists p, SetScanParameters flag = inr p.

Lemma prepare_scan_located record_buffer n rec key flag e b :
  supported_flag flag -> search_key n rec key -> (key_part_cnt <= 63)%nat -> bound_ok e -> bound_ok b ->
  length record_buffer = size -> bytes_ok record_buffer ->
  exists r, PrepareScan mem key_addr ext tbl kd is_primary key_part_cnt record_buffer key (2 ^ Z.of_nat n - 1) flag
      (use_full_key key_part_cnt (2 ^ Z.of_nat n - 1)) (range_of <$> e) (range_of <$> b) = Some (inr r) /\
    forall row, row_ok (take m all) row -> bytes_ok row -> in_scan r (key_of row) <-> scan_condition flag n rec e b row.
Proof.
  intros [[[dir incl] pm] Hf] Hs Hc He Hb Hl Hok. destruct (sk_parts _ _ _ Hs) as ((_ & Hn) & _).
  destruct (encode_located kd _ _ _ record_buffer Hr Hm Hk Hs Hl Hok) as (S & rb & E & Hl' & Hok' & Hloc).
  destruct (forward_end_correct rb e He Hc Hl' Hok') as (fe & Ef & Hfe).
  destruct (backward_end_correct rb b Hb Hc Hl' Hok') as (be & Eb & Hbe).
  unfold PrepareScan, scan_condition. rewrite Hf, E, Ef, Eb.
  assert (forall row, row_ok (take m all) row -> bytes_ok row -> negb (use_full_key key_part_cnt (2 ^ Z.of_nat n - 1)) || negb is_primary = false ->
    lex_cmp S (key_of row) = parts_cmp (map fst (take n cols)) rec row) as Hfull.
  { intros row Hrow Hrb Ep. apply (Hloc row Hrow Hrb), (full_key_all _ Hn Hc Ep). }
  destruct flag; try discriminate Hf; injection Hf as <- <- <-; cbn [negb]; rewrite ?andb_false_r, ?andb_true_r;
    (eexists; split; [reflexivity|]); intros row Hrow Hrb; destruct (Hloc row Hrow Hrb) as [HL _];
    specialize (Hfe row Hrow Hrb); specialize (Hbe row Hrow Hrb); specialize (Hfull row Hrow Hrb);
    unfold in_scan; cbn [sr_start sr_start_inclusive sr_end sr_direction start_matches].
  - rewrite (past_forward_inclusive kd _ _ _ HL), (past_backward_ceiling kd _ _ _ HL). destruct (parts_cmp _ _ _); intuition congruence.
  - rewrite (past_forward_inclusive kd _ _ _ HL). by apply and_iff_compat_l.
  - rewrite <- Hfe. apply and_iff_compat_r. destruct (negb _ || negb is_primary) eqn:Ep.
    + by apply past_forward_ceiling.
    + rewrite (past_full Forward false _ _ _ (Hfull eq_refl)). destruct (parts_cmp _ _ _); intuition congruence.
  - rewrite (past_backward_exclusive kd _ _ _ HL). by apply and_iff_compat_l.
  - rewrite (past_forward_inclusive kd _ _ _ HL), (past_backward_ceiling kd _ _ _ HL). destruct (parts_cmp _ _ _); intuition congruence.
  - rewrite <- Hbe. apply and_iff_compat_r. destruct (negb _ || negb is_primary) eqn:Ep.
    + by apply past_backward_ceiling.
    + rewrite (past_full Backward true _ _ _ (Hfull eq_refl)). destruct (parts_cmp _ _ _); intuition congruence.
Qed.

End Prepare.

End Rows.

(** An index that key tuples can be given for: its columns lie apart in the
    record and are of types that [key_copy] and [key_restore] handle; the
    primary index is the one whose tuples can name all columns of its keys. *)
Record searchable (ext : bool) (size : nat) (tbl : TABLE) (kd0 : mono_key_def) (ki : KEY)
    (cols pk_cols : list indexed_part) (is_primary : bool) : Prop := {
  se_index : index_definition tbl kd0 ki cols pk_cols;
  se_tuple : Forall (fun c => tuple_part c.1 c.2) cols;
  se_layout : laid_out_fields size (map (fun c => kp_field c.1) cols);
  se_nonempty : Forall (fun c => (0 < field_length (kp_field c.1))%nat) (index_columns ki cols pk_cols);
  se_length : Z.of_nat (total_length (map fst cols)) < 2 ^ 32;
  se_parts : (actual_n_key_parts ext ki <= 63)%nat;
  se_primary : is_primary = true ->
    m_index_type kd0 = INDEX_TYPE_PRIMARY /\ actual_n_key_parts ext ki = length cols
}.

Lemma primary_columns tbl kd0 ki cols pk_cols :
  index_definition tbl kd0 ki cols pk_cols -> m_index_type kd0 = INDEX_TYPE_PRIMARY ->
  index_columns ki cols pk_cols = cols.
Proof.
  intros Hid Ht. unfold index_columns.
  destruct (id_primary _ _ _ _ _ Hid) as (k & pk & _ & _ & [[_ ->]|[Ht' _]]); [by rewrite app_nil_r|congruence].
Qed.

(** C5: a range scan reads exactly the rows that the search asks for.  For a
    search by the first columns of an index, with the comparison that the
    search flag stands for and the given end of the range, [PrepareScan] gives
    a start key, an end key and a direction such that the key of a row lies in
    the range if and only if the row's columns compare as asked in SQL; it
    reports an error for exactly the flags that are not supported. *)
Theorem scan_range_correct mem key_addr ext size uninit tbl kd0 ki cols pk_cols is_primary :
  searchable ext size tbl kd0 ki cols pk_cols is_primary ->
  exists kd, key_def_setup uninit tbl kd0 = Some kd /\
    forall record_buffer n rec key flag end_ start,
      length record_buffer = size -> bytes_ok record_buffer -> search_key ext ki cols n rec key ->
      bound_ok ext ki cols end_ -> bound_ok ext ki cols start ->
      let keypart_map := 2 ^ Z.of_nat n - 1 in
      let key_part_cnt := actual_n_key_parts ext ki in
      match PrepareScan mem key_addr ext tbl kd is_primary key_part_cnt record_buffer key keypart_map flag
              (use_full_key key_part_cnt keypart_map) (range_of <$> end_) (range_of <$> start) with
      | Some (inr r) =>
          forall row u, row_ok (index_columns ki cols pk_cols) row -> bytes_ok row ->
            exists st, pack_record mem kd tbl row u false None 0 = Some st /\
              (in_scan r (ps_tuple st) <-> scan_condition cols flag n rec end_ start row)
      | Some (inl rc) => rc = HA_ERR_UNSUPPORTED /\ SetScanParameters flag = inl rc
      | None => False
      end.
Proof.
  intros [Hid Ht Hlo Hpos Hlen Hparts Hprim].
  destruct (setup_ready mem uninit tbl kd0 ki cols pk_cols Hid) as (kd & E & Hr & _ & _ & Hk & Hm & Hpack).
  exists kd. split; [done|]. intros record_buffer n rec key flag end_ start Hl Hb Hs He Hst keypart_map key_part_cnt.
  destruct (SetScanParameters flag) as [rc|p] eqn:Ef.
  { unfold PrepareScan. rewrite Ef. split; [|done]. by destruct flag; inversion Ef. }
  unfold keypart_map, key_part_cnt.
  destruct (prepare_scan_located mem key_addr ext size uninit tbl kd0 ki cols pk_cols Hid Ht Hlo Hpos Hlen
    (length (index_columns ki cols pk_cols)) ltac:(unfold index_columns; rewrite length_app; lia) kd is_primary Hr Hm Hk) with (record_buffer := record_buffer) (n := n) (rec := rec) (key := key) (flag := flag)
    (e := end_) (b := start) as (r & -> & Hin); try done.
  - intros Hp. destruct (Hprim Hp) as [Hty Hact]. split; [|done]. by apply (primary_columns tbl kd0).
  - by exists p.
  - intros row u Hrow Hrb. destruct (Hpack row u 0%nat Hrow ltac:(lia) ltac:(done)) as (st & Ep & Et).
    exists st. split; [done|]. rewrite Et, firstn_all, take_ge in * by by rewrite (Forall2_length Hr). by apply Hin.
Qed.

Lemma sample_searchable :
  searchable false 46 sample_table sample_kd sample_sk [sample_name_part] [sample_id_part] false.
Proof.
  split; try done.
  - exact sample_index.
  - constructor; [exact sample_tuple_name|constructor].
  - destruct sample_name_placed as [Hp Hs]. exact (conj Hp (conj Hs (conj (Forall_nil_2 _) I))).
  - apply Forall_cons_iff; split; [simpl; lia|]. apply Forall_cons_iff; split; [simpl; lia|constructor].
  - simpl; lia.
Qed.

Lemma sample_search_key rec :
  row_ok (index_columns sample_sk [sample_name_part] [sample_id_part]) rec ->
  search_key false sample_sk [sample_name_part] 1 rec (key_copy (fun _ => []) false (replicate 43 170) rec sample_sk 43).
Proof.
  intros H. split; [simpl; unfold MAX_REF_PARTS; lia|apply Forall_cons_iff in H as [? _]; by constructor|].
  exists (fun _ => []), false, (replicate 43 170). split; [vm_compute; lia|done].
Qed.

Lemma sample_ann_ok : row_ok (index_columns sample_sk [sample_name_part] [sample_id_part]) sample_ann.
Proof. sample_row. Qed.

Lemma sample_ann_space_ok :
  row_ok (index_columns sample_sk [sample_name_part] [sample_id_part]) (sample_row 0 8 [97; 110; 110; 32]).
Proof. sample_row. Qed.

Lemma sample_null_ok : row_ok (index_columns sample_sk [sample_name_part] [sample_id_part]) sample_null.
Proof.
  constructor; [left; by vm_compute|]. constructor; [|constructor].
  right. apply sample_id_ok; [by apply (bool_decide_unpack _)|done].
Qed.

Lemma sample_bob_ok : row_ok (index_columns sample_sk [sample_name_part] [sample_id_part]) sample_bob.
Proof. sample_row. Qed.

(** name >= 'ann' AND name < 'bob' finds 8, 'ann ' but not NULL. *)
Lemma scan_range_witness :
  let tuple rec := key_copy (fun _ => []) false (replicate 43 170) rec sample_sk 43 in
  exists kd r sa sn, key_def_setup sample_uninit sample_table sample_kd = Some kd /\
    PrepareScan (fun _ => []) (fun _ => 0) false sample_table kd false 1 (replicate 46 0) (tuple sample_ann) 1
      HA_READ_KEY_OR_NEXT true
      (Some {| kr_key := tuple sample_bob; kr_keypart_map := 1; kr_flag := HA_READ_BEFORE_KEY |}) None = Some (inr r) /\
    pack_record (fun _ => []) kd sample_table (sample_row 0 8 [97; 110; 110; 32]) None false None 0 = Some sa /\
    in_scan r (ps_tuple sa) /\
    pack_record (fun _ => []) kd sample_table sample_null None false None 0 = Some sn /\ ~ in_scan r (ps_tuple sn).
Proof.
  intros tuple. destruct (scan_range_correct (fun _ => []) (fun _ => 0) false 46 sample_uninit sample_table sample_kd sample_sk
    [sample_name_part] [sample_id_part] false sample_searchable) as (kd & E & H).
  specialize (H (replicate 46 0) 1%nat sample_ann (tuple sample_ann) HA_READ_KEY_OR_NEXT
    (Some {| b_parts := 1; b_record := sample_bob; b_key := tuple sample_bob; b_flag := HA_READ_BEFORE_KEY |}) None).
  specialize (H eq_refl ltac:(by apply (bool_decide_unpack _)) (sample_search_key _ sample_ann_ok)
    (sample_search_key _ sample_bob_ok) I). cbv zeta in H.
  change (2 ^ Z.of_nat 1 - 1) with 1 in H. change (use_full_key _ 1) with true in H.
  change (actual_n_key_parts false sample_sk) with 1%nat in H. cbn [fmap option_fmap option_map] in H.
  change (range_of _) with {| kr_key := tuple sample_bob; kr_keypart_map := 1; kr_flag := HA_READ_BEFORE_KEY |} in H.
  destruct (PrepareScan _ _ _ _ _ _ _ _ _ _ _ _ _ _) as [[rc|r]|] eqn:Ep; [by destruct H as [_ H]| |done].
  destruct (H _ None sample_ann_space_ok ltac:(by apply (bool_decide_unpack _))) as (sa & Ea & Hin).
  destruct (H _ None sample_null_ok ltac:(by apply (bool_decide_unpack _))) as (sn & En & Hout).
  exists kd, r, sa, sn. split; [exact E|]. split; [exact Ep|]. split; [exact Ea|].
  split; [apply Hin; split; by vm_compute|]. split; [exact En|].
  intros Hi. apply Hout in Hi as [Hi _]. by apply Hi.
Defined.

End Scan.
