(* ===== verification/Read.v ===== *)
(** * Read: reading rows back

    How a row that the transaction service returned gets into the record
    buffer ([DecodeRecord], [SetupDecodeFlagOnFirstRead]), by the position that
    [position] noted ([rnd_pos]) and by the whole key of the primary or of a
    unique index (the point lookups of [index_read_map] in
    storage/eloq/ha_eloq.cc); and that a lookup finds exactly the rows that
    were written. *)

From stdpp Require Import gmap strings.
From S2P Require Import Prelude Slice Buff Charset Latin1 Copy Collation Field Placement Store.
From S2P Require Import Codec Packing VarFormat SpacePad Varchar KeySetup KeyDef KeyOrder Index KeyRead PkTuple.
From S2P Require Import Neighbour Double EloqKey Restore RoundTrip Layout KeyTuple Row Entry Hidden Handler Consistency Tables Statements Scan.
Import Field Placement Packing KeyDef KeyOrder Index KeyRead PkTuple EloqKey RoundTrip Layout KeyTuple Entry Handler.
Import Consistency Tables Statements Scan.

Module Read.

Abbreviation HA_ERR_KEY_NOT_FOUND := 120 (only parsing).

Section Read.

Context {S : Type} `{!TxService S} (storage_hd : option (DataStoreHandler S)) (env : ha_env).

(** ** Decoding *)

(** [decode_flag_]: whether the key and whether the payload is decoded. *)
Record decode_flag := { DECODE_PK : bool; DECODE_PAYLOAD : bool }.

Fixpoint decode_flag_loop (decode_set : nat -> bool) (fields : list Row.row_field) (flag : decode_flag) : decode_flag :=
  match fields with
  | [] => flag
  | c :: fields =>
      if negb (Row.rf_stored_in_db c) then decode_flag_loop decode_set fields flag
      else if decode_set (field_index (Row.rf_field c)) then
        if negb (table_has_hidden_pk (ha_table env)) then
          if Row.rf_part_of_pk c then
            let flag := {| DECODE_PK := true; DECODE_PAYLOAD := DECODE_PAYLOAD flag |} in
            if DECODE_PAYLOAD flag then flag else decode_flag_loop decode_set fields flag
          else
            let flag := {| DECODE_PK := DECODE_PK flag; DECODE_PAYLOAD := true |} in
            if DECODE_PK flag then flag else decode_flag_loop decode_set fields flag
        else {| DECODE_PK := DECODE_PK flag; DECODE_PAYLOAD := true |}
      else decode_flag_loop decode_set fields flag
  end.

Definition SetupDecodeFlagOnFirstRead (decode_set : nat -> bool) : decode_flag :=
  decode_flag_loop decode_set (ha_fields env) {| DECODE_PK := false; DECODE_PAYLOAD := false |}.

(** [buf_addr] is where the payload of the record lies.  [None]: the key is
    reported as corrupt. *)
Definition DecodeRecord (decode_set : nat -> bool) (buf_addr : Z) (table_record key : bytes) (rec : EloqRecord)
    : option bytes :=
  let flag := SetupDecodeFlagOnFirstRead decode_set in
  match
    (if negb (table_has_hidden_pk (ha_table env)) && DECODE_PK flag
     then unpack_record (pk_descr_ env) (ha_table env) table_record key (unpack_info_ rec)
     else Some table_record)
  with
  | None => None
  | Some table_record =>
      if DECODE_PAYLOAD flag then
        Row.Decode buf_addr (encoded_blob_ rec) (Row.new_record_schema (ha_fields env)) decode_set table_record
          (ha_fields env)
      else Some table_record
  end.

(** ** Positions *)

Definition position (st : ha_state S) (is_mrr_sort_rowid : bool) (ref_length : nat) (record : bytes) : option bytes :=
  match
    (if negb (table_has_hidden_pk (ha_table env)) && negb is_mrr_sort_rowid then
       ps_tuple <$> pack_record (ha_mem env) (pk_descr_ env) (ha_table env) record None false None 0
     else Some (last_read_key_ st))
  with
  | None => None
  | Some packed_key => Some (packed_key ++ replicate (ref_length - length packed_key) 0)
  end.

Definition with_key (k : bytes) (st : ha_state S) : ha_state S := {|
  txm := txm st; tx_err_code_ := tx_err_code_ st; errkey := errkey st; dup_errkey_ := dup_errkey_ st;
  last_read_record_ := last_read_record_ st; last_read_key_ := k;
  insert_id_for_cur_row := insert_id_for_cur_row st |}.

(** The row under a key of the primary index: state, return code and record
    buffer.  [rec_addr]: where the payload of a record lies that is read. *)
Definition read_pk (st : ha_state S) (ts : Z) (decode_set : nat -> bool) (rec_addr : EloqRecord -> Z) (buf key : bytes)
    : option (ha_state S * Z * bytes) :=
  let '(st, rec_stat) := PkRead env st key false ts false in
  match rec_stat with
  | RecordUnknown => Some (st, convert_tx_error (tx_err_code_ st), buf)
  | RecordNormal =>
      match DecodeRecord decode_set (rec_addr (last_read_record_ st)) buf key (last_read_record_ st) with
      | Some buf => Some (st, 0, buf)
      | None => None
      end
  | _ => Some (st, HA_ERR_KEY_NOT_FOUND, buf)
  end.

Definition rnd_pos (st : ha_state S) (ref_length : nat) (decode_set : nat -> bool) (rec_addr : EloqRecord -> Z) (buf pos : bytes)
    : option (ha_state S * Z * bytes) :=
  match key_length (pk_descr_ env) (ha_table env) (take ref_length pos) with
  | None => None
  | Some len => read_pk (with_key (take len pos) st) 0 decode_set rec_addr buf (take len pos)
  end.

(** The row under a key of a unique index: the entry, and unless the index
    covers the query the row in the base table. *)
Definition read_unique (st : ha_state S) (index : index_schema) (decode_set : nat -> bool) (rec_addr : EloqRecord -> Z)
    (buf unique_sk : bytes) : option (ha_state S * Z * bytes) :=
  let '(st, (rec_stat, unique_sk_ts, rec)) := SkRead storage_hd env st index unique_sk false in
  let st := with_record rec st in
  match rec_stat with
  | RecordUnknown => Some (st, convert_tx_error (tx_err_code_ st), buf)
  | RecordNormal =>
      match DecodeUniqueSkRecord (ha_table env) (is_kd index) buf unique_sk rec with
      | (Some buf, Some pk) =>
          let st := with_key pk st in
          if negb (is_covering env) then
            let '(st, rec_stat) := PkRead env st pk false unique_sk_ts false in
            match rec_stat with
            | RecordNormal =>
                match DecodeRecord decode_set (rec_addr (last_read_record_ st)) buf pk (last_read_record_ st) with
                | Some buf => Some (st, 0, buf)
                | None => None
                end
            | _ => Some (st, convert_tx_error (tx_err_code_ st), buf)
            end
          else Some (st, 0, buf)
      | _ => None
      end
  | _ => Some (st, HA_ERR_KEY_NOT_FOUND, buf)
  end.

(** ** Point lookups

    The first and the third branch of [index_read_map]; [extended_keys] and
    [key_addr] as for a scan. *)

Context (key_addr : bytes -> Z) (extended_keys : bool).

Definition index_read_primary (st : ha_state S) (decode_set : nat -> bool) (rec_addr : EloqRecord -> Z) (record_buffer buf key : bytes)
    (keypart_map : Z) : option (ha_state S * Z * bytes) :=
  match EncodeScanKey (ha_mem env) key_addr extended_keys (ha_table env) (pk_descr_ env) record_buffer key keypart_map with
  | None => None
  | Some (search_key_, _) => read_pk st 0 decode_set rec_addr buf search_key_
  end.

Definition index_read_unique (st : ha_state S) (index : index_schema) (decode_set : nat -> bool) (rec_addr : EloqRecord -> Z)
    (record_buffer buf key : bytes) (keypart_map : Z) : option (ha_state S * Z * bytes) :=
  match EncodeScanKey (ha_mem env) key_addr extended_keys (ha_table env) (is_kd index) record_buffer key keypart_map with
  | None => None
  | Some (unique_sk, _) => read_unique st index decode_set rec_addr buf unique_sk
  end.

End Read.

(** ** What is decoded *)

Section Decoded.

Context (env : ha_env) (Hpk : table_has_hidden_pk (ha_table env) = false).

Definition requested (decode_set : nat -> bool) (c : Row.row_field) : bool :=
  Row.rf_stored_in_db c && decode_set (field_index (Row.rf_field c)).

(** The flags cover every requested column. *)
Lemma decode_flag_loop_set decode_set fields flag :
  let flag' := decode_flag_loop env decode_set fields flag in
  (DECODE_PK flag = true -> DECODE_PK flag' = true) /\ (DECODE_PAYLOAD flag = true -> DECODE_PAYLOAD flag' = true) /\
  forall c, c ∈ fields -> requested decode_set c = true ->
    if Row.rf_part_of_pk c then DECODE_PK flag' = true else DECODE_PAYLOAD flag' = true.
Proof.
  revert flag. induction fields as [|d fields IH]; intros flag; cbn [decode_flag_loop].
  { split_and!; [done|done|]. intros c H%elem_of_nil. done. }
  assert (forall flag', (DECODE_PK flag = true -> DECODE_PK flag' = true) ->
    (DECODE_PAYLOAD flag = true -> DECODE_PAYLOAD flag' = true) ->
    (requested decode_set d = true -> if Row.rf_part_of_pk d then DECODE_PK flag' = true else DECODE_PAYLOAD flag' = true) ->
    let flag'' := decode_flag_loop env decode_set fields flag' in
    (DECODE_PK flag = true -> DECODE_PK flag'' = true) /\ (DECODE_PAYLOAD flag = true -> DECODE_PAYLOAD flag'' = true) /\
    forall c, c ∈ d :: fields -> requested decode_set c = true ->
      if Row.rf_part_of_pk c then DECODE_PK flag'' = true else DECODE_PAYLOAD flag'' = true) as Hnext.
  { intros flag' H1 H2 H3. destruct (IH flag') as (I1 & I2 & I3). split_and!; auto.
    intros c [->|Hc]%elem_of_cons Hr; [|by apply I3]. specialize (H3 Hr). destruct (Row.rf_part_of_pk d); auto. }
  unfold requested in *. destruct (Row.rf_stored_in_db d) eqn:Es; cbn [negb andb] in *; [|by apply Hnext].
  destruct (decode_set _) eqn:Ed; [|by apply Hnext]. rewrite Hpk. cbn [negb].
  destruct (Row.rf_part_of_pk d) eqn:Ep; cbn [DECODE_PK DECODE_PAYLOAD].
  - destruct (DECODE_PAYLOAD flag) eqn:El; [|by apply Hnext]. split_and!; [done|done|].
    intros c _ _. by destruct (Row.rf_part_of_pk c).
  - destruct (DECODE_PK flag) eqn:El; [|by apply Hnext]. split_and!; [done|done|].
    intros c _ _. by destruct (Row.rf_part_of_pk c).
Qed.

End Decoded.

(** ** Reading a row *)

Lemma payload_elem off fields i c :
  fields !! i = Some c -> Row.in_payload c = true -> ((off + i)%nat, Row.rf_field c) ∈ Row.payload off fields.
Proof.
  revert off i. induction fields as [|d fields IH]; intros off i; [done|]. destruct i as [|i]; simpl.
  - intros [= ->] ->. rewrite Nat.add_0_r. apply list_elem_of_here.
  - intros Hi Hc. replace (off + Datatypes.S i)%nat with (Datatypes.S off + i)%nat by lia.
    destruct (Row.in_payload d); [apply list_elem_of_further|]; by apply IH.
Qed.

(** Where the columns of the table lie, and that the primary key can be
    restored. *)
Record row_readable (env : ha_env) (pk_cols : list indexed_part) : Prop := {
  rr_index i c : ha_fields env !! i = Some c -> field_index (Row.rf_field c) = i;
  rr_pk c : c ∈ ha_fields env -> Row.rf_part_of_pk c = true ->
    exists p, p ∈ pk_cols /\ kp_field p.1 = Row.rf_field c;
  rr_restorable : Forall (restorable (ha_mem env)) pk_cols;
  rr_pk_layout : laid_out (length (default_values (ha_table env))) (map fst pk_cols);
  rr_layout : laid_out_fields (length (default_values (ha_table env))) (map snd (Row.payload 0 (ha_fields env)));
  rr_apart p : p ∈ pk_cols -> Forall (fun c => apart c.2 (kp_field p.1)) (Row.payload 0 (ha_fields env))
}.

(** The requested columns of the row are in the record buffer. *)
Definition shown (env : ha_env) (decode_set : nat -> bool) (mem' : Z -> bytes) (buf out : bytes) : Prop :=
  forall i c, ha_fields env !! i = Some c -> Row.rf_stored_in_db c = true -> decode_set i = true ->
    let f := Row.rf_field c in
    is_real_null f out = is_real_null f buf /\
    (is_real_null f buf = false ->
     if Row.rf_part_of_pk c then same_value f buf out
     else Row.column_value mem' f out = Row.column_value (ha_mem env) f buf).

(** The payload is in memory at [buf_addr]. *)
Definition payload_at (mem' : Z -> bytes) (buf_addr : Z) (rec : EloqRecord) : Prop :=
  0 <= buf_addr /\ buf_addr + Z.of_nat (length (encoded_blob_ rec)) < 2 ^ 64 /\
  forall o, (o <= length (encoded_blob_ rec))%nat -> mem' (buf_addr + Z.of_nat o) = drop o (encoded_blob_ rec).

Section Shown.

Context (uninit : mono_field_packing) (env : ha_env) (pkd0 : mono_key_def) (pk : KEY) (pk_cols : list indexed_part).
Context (Hid : index_definition (ha_table env) pkd0 pk pk_cols []).
Context (Hsetup : key_def_setup uninit (ha_table env) pkd0 = Some (pk_descr_ env)).
Context (Hread : row_readable env pk_cols).

Abbreviation mem := (ha_mem env).
Abbreviation tbl := (ha_table env).
Abbreviation size := (length (default_values tbl)).

(** A row that can be stored. *)
Definition row_storable (buf : bytes) : Prop :=
  row_ok pk_cols buf /\ Forall (Row.column_ok mem buf) (Row.payload 0 (ha_fields env)).

Lemma no_hidden : table_has_hidden_pk tbl = false.
Proof. apply (index_definition_pk _ _ _ _ _ Hid). Qed.

(** The record of a row, and its key. *)
Lemma row_record_parts buf rec : row_record env buf = Some rec -> row_ok pk_cols buf ->
  Row.Encode mem (Row.new_record_schema (ha_fields env)) buf (ha_fields env) = Some (encoded_blob_ rec) /\
  forall out, Z.of_nat (length (unpack_info_ rec)) < 65536 ->
    unpack_record (pk_descr_ env) tbl out (row_key mem pk_cols (m_pack_info (pk_descr_ env)) buf) (unpack_info_ rec) =
      Some (restored_row tbl (map fst pk_cols) buf out).
Proof.
  intros Hrec Hrow. unfold row_record, PackRecord in Hrec. rewrite no_hidden in Hrec.
  destruct (Row.Encode _ _ _ _) as [blob|]; [|done]. cbn [negb] in Hrec.
  pose proof (rr_restorable _ _ Hread) as Hres. rewrite <- (app_nil_r pk_cols : index_columns pk pk_cols [] = pk_cols) in Hres.
  destruct (index_restored mem uninit tbl pkd0 pk pk_cols [] Hid Hres) as (kd & E & Hun).
  rewrite Hsetup in E. injection E as <-.
  rewrite (app_nil_r pk_cols : index_columns pk pk_cols [] = pk_cols) in Hun.
  destruct (Hun buf [] [] Hrow) as (st & w & Ep & Ew & _). rewrite Ep, Ew in Hrec. injection Hrec as <-.
  split; [done|]. intros out Hw. destruct (Hun buf [] out Hrow) as (st' & w' & Ep' & Ew' & H).
  rewrite Ep in Ep'. injection Ep' as <-. rewrite Ew in Ew'. injection Ew' as <-.
  destruct (setup_ready mem uninit tbl pkd0 pk pk_cols [] Hid) as (kd & E & _ & _ & _ & _ & _ & Hpack).
  rewrite Hsetup in E. injection E as <-.
  rewrite (app_nil_r pk_cols : index_columns pk pk_cols [] = pk_cols) in Hpack.
  destruct (Hpack buf (Some []) 0%nat Hrow ltac:(lia) ltac:(done)) as (st' & Ep' & Et).
  rewrite Ep in Ep'. injection Ep' as <-. cbn [Nat.eqb] in Et. rewrite <- Et. by apply H.
Qed.

Lemma pk_columns_indexed : Forall (indexed tbl) pk_cols.
Proof.
  pose proof (indexed_columns _ _ _ _ _ Hid) as Hin.
  by rewrite (app_nil_r pk_cols : index_columns pk pk_cols [] = pk_cols) in Hin.
Qed.

Lemma pk_placed p : p ∈ pk_cols -> placed size (kp_field p.1).
Proof.
  intros Hp. pose proof (laid_out_placed size _ (rr_pk_layout _ _ Hread)) as H.
  rewrite Forall_fmap, Forall_forall in H. apply H. by apply list_elem_of_In.
Qed.

(** A column of the primary key after [unpack_record], when nothing else
    touches it. *)
Lemma pk_column_kept buf out out' p :
  row_ok pk_cols buf -> length out = size -> p ∈ pk_cols ->
  column_bytes (kp_field p.1) out' = column_bytes (kp_field p.1) (restored_row tbl (map fst pk_cols) buf out) /\
  is_real_null (kp_field p.1) out' = is_real_null (kp_field p.1) (restored_row tbl (map fst pk_cols) buf out) ->
  column_kept buf out' p.1.
Proof.
  intros Hrow Hl Hp [Hb Hn]. pose proof (rr_pk_layout _ _ Hread) as Hlo.
  pose proof (columns_fit tbl size pk_cols buf pk_columns_indexed Hlo Hrow) as Hfit.
  pose proof (restored_row_holds tbl size eq_refl (map fst pk_cols) buf out Hlo Hfit Hl) as Hh.
  rewrite Forall_fmap, Forall_forall in Hh. pose proof (proj1 (list_elem_of_In _ _) Hp) as Hp'.
  apply (held_kept tbl size p); [by apply pk_placed| | |].
  - pose proof pk_columns_indexed as H. rewrite Forall_forall in H. by apply H.
  - unfold row_ok in Hrow. rewrite Forall_forall in Hrow. by apply Hrow.
  - unfold holds. rewrite Hb, Hn. apply (Hh p Hp').
Qed.

Lemma DecodeRecord_shown decode_set mem' buf_addr buf out rec :
  row_record env buf = Some rec -> row_storable buf -> Z.of_nat (length (unpack_info_ rec)) < 65536 ->
  payload_at mem' buf_addr rec -> length out = size ->
  exists out', DecodeRecord env decode_set buf_addr out (row_key mem pk_cols (m_pack_info (pk_descr_ env)) buf) rec =
    Some out' /\ length out' = size /\ shown env decode_set mem' buf out'.
Proof.
  intros Hrec [Hrow Hcols] Hw (Ha & Hlim & Hmem) Hl. destruct (row_record_parts buf rec Hrec Hrow) as [He Hu].
  unfold DecodeRecord. rewrite no_hidden, (Hu out Hw). cbn [negb andb].
  pose proof (decode_flag_loop_set env no_hidden decode_set (ha_fields env)
    {| DECODE_PK := false; DECODE_PAYLOAD := false |}) as (_ & _ & Hflag).
  change (decode_flag_loop _ _ _ _) with (SetupDecodeFlagOnFirstRead env decode_set) in Hflag.
  set (flag := SetupDecodeFlagOnFirstRead env decode_set) in *.
  set (out1 := if DECODE_PK flag then restored_row tbl (map fst pk_cols) buf out else out).
  replace (if DECODE_PK flag then Some (restored_row tbl (map fst pk_cols) buf out) else Some out) with (Some out1)
    by (unfold out1; by destruct (DECODE_PK flag)).
  assert (length out1 = size) as Hl1.
  { unfold out1. destruct (DECODE_PK flag); [|done]. pose proof (rr_pk_layout _ _ Hread) as Hlo.
    apply length_restored_row; [done|done|exact (columns_fit tbl size pk_cols buf pk_columns_indexed Hlo Hrow)|done]. }
  destruct (Row.row_restored mem mem' buf_addr size decode_set (ha_fields env) buf out1 (rr_layout _ _ Hread) Hcols Hl1 Ha)
    as (blob & out2 & He' & Hd & Hl2 & Hval & Hoth).
  rewrite He in He'. injection He' as <-. specialize (Hval Hlim Hmem).
  exists (if DECODE_PAYLOAD flag then out2 else out1). split; [by destruct (DECODE_PAYLOAD flag)|].
  split; [by destruct (DECODE_PAYLOAD flag)|].
  intros i c Hc Hst Hds f.
  assert (requested decode_set c = true) as Hreq by (unfold requested; by rewrite Hst, (rr_index _ _ Hread i c Hc), Hds).
  assert (c ∈ ha_fields env) as Hin by by eapply list_elem_of_lookup_2.
  specialize (Hflag c Hin Hreq). destruct (Row.rf_part_of_pk c) eqn:Ep.
  - destruct (rr_pk _ _ Hread c Hin Ep) as (p & Hp & Hpf). unfold f. rewrite <- Hpf.
    apply (pk_column_kept buf out _ p Hrow Hl Hp). unfold out1. rewrite Hflag. destruct (DECODE_PAYLOAD flag); [|done].
    destruct (Hoth (kp_field p.1) (pk_placed p Hp) (rr_apart _ _ Hread p Hp)) as [-> ->]. unfold out1. by rewrite Hflag.
  - rewrite Hflag. rewrite Forall_forall in Hval.
    assert (Row.in_payload c = true) as Hpay by (unfold Row.in_payload; by rewrite Hst, Ep).
    pose proof (payload_elem 0 _ i c Hc Hpay) as H. apply list_elem_of_In in H. destruct (Hval _ H) as [H1 H2].
    split; [exact H1|]. intros Hn. by apply H2.
Qed.

End Shown.

(** *** Tables with a hidden primary key: only the payload is decoded *)

Record hidden_readable (env : ha_env) : Prop := {
  hre_hidden : table_has_hidden_pk (ha_table env) = true;
  hre_index i c : ha_fields env !! i = Some c -> field_index (Row.rf_field c) = i;
  hre_payload c : c ∈ ha_fields env -> Row.rf_part_of_pk c = false;
  hre_layout : laid_out_fields (length (default_values (ha_table env))) (map snd (Row.payload 0 (ha_fields env)))
}.

Lemma hidden_flag_set env decode_set fields flag c : table_has_hidden_pk (ha_table env) = true ->
  c ∈ fields -> requested decode_set c = true -> DECODE_PAYLOAD (decode_flag_loop env decode_set fields flag) = true.
Proof.
  intros Hh Hc Hr. induction fields as [|d fields IH]; [by apply elem_of_nil in Hc|]. cbn [decode_flag_loop]. rewrite Hh.
  cbn [negb]. destruct (negb (Row.rf_stored_in_db d)) eqn:Es.
  - apply elem_of_cons in Hc as [->|Hc]; [|by apply IH]. unfold requested in Hr. by destruct (Row.rf_stored_in_db d).
  - destruct (decode_set _) eqn:Ed; [done|]. apply elem_of_cons in Hc as [->|Hc]; [|by apply IH].
    unfold requested in Hr. by rewrite Ed, andb_false_r in Hr.
Qed.

Lemma DecodeRecord_hidden env decode_set mem' buf_addr key buf out rec :
  hidden_readable env -> row_record env buf = Some rec -> Forall (Row.column_ok (ha_mem env) buf) (Row.payload 0 (ha_fields env)) ->
  payload_at mem' buf_addr rec -> length out = length (default_values (ha_table env)) ->
  exists out', DecodeRecord env decode_set buf_addr out key rec = Some out' /\
    length out' = length (default_values (ha_table env)) /\ shown env decode_set mem' buf out'.
Proof.
  intros [Hh Hix Hpay Hlo] Hrec Hcols (Ha & Hlim & Hmem) Hl. unfold DecodeRecord. rewrite Hh. cbn [negb andb].
  destruct (Row.row_restored (ha_mem env) mem' buf_addr _ decode_set (ha_fields env) buf out Hlo Hcols Hl Ha)
    as (blob & out2 & He & Hd & Hl2 & Hval & _).
  unfold row_record, PackRecord in Hrec. rewrite He, Hh in Hrec. injection Hrec as <-. cbn [encoded_blob_] in *.
  specialize (Hval Hlim Hmem). set (flag := SetupDecodeFlagOnFirstRead env decode_set).
  exists (if DECODE_PAYLOAD flag then out2 else out). split_and!; [by destruct (DECODE_PAYLOAD flag)..|].
  intros i c Hc Hst Hds f. assert (c ∈ ha_fields env) as Hin by by eapply list_elem_of_lookup_2.
  assert (DECODE_PAYLOAD flag = true) as ->.
  { apply (hidden_flag_set env decode_set _ _ c Hh Hin). unfold requested. by rewrite Hst, (Hix i c Hc), Hds. }
  rewrite (Hpay c Hin). rewrite Forall_forall in Hval.
  assert (Row.in_payload c = true) as Hp by (unfold Row.in_payload; by rewrite Hst, (Hpay c Hin)).
  pose proof (payload_elem 0 _ i c Hc Hp) as H. apply list_elem_of_In in H. destruct (Hval _ H) as [H1 H2].
  split; [exact H1|]. intros Hn. by apply H2.
Qed.

(** ** Lookups *)

Section Lookup.

Context {S : Type} `{!TxService S, !TxLaws S} (storage_hd : option (DataStoreHandler S)).

(** The transaction service answers point reads itself, as [PkRead] asserts:
    there is a record, or it is deleted. *)
Definition point_reads_settled : Prop :=
  forall (s : S) req s' status rec ts, tx_Read s req = (s', inr (status, rec, ts)) ->
    status = RecordNormal \/ status = RecordDeleted.

Context (uninit : mono_field_packing) (env : ha_env) (pkd0 : mono_key_def) (pk : KEY) (pk_cols : list indexed_part).
Context (defs : target -> index_def) (Hready : table_ready uninit env pkd0 pk pk_cols defs).
Context (Hread : row_readable env pk_cols) (Hsettled : point_reads_settled).

Abbreviation mem := (ha_mem env).
Abbreviation tbl := (ha_table env).
Abbreviation size := (length (default_values tbl)).
Abbreviation good := (row_good env pk_cols defs).

(** The outcome of a point read. *)
Definition read_answer (st' : ha_state S) (status : RecordStatus) (rec : EloqRecord) (seen : option EloqRecord) : Prop :=
  status = RecordUnknown /\ tx_err_code_ st' <> NO_ERROR \/
  status = RecordNormal /\ seen = Some rec \/
  status = RecordDeleted /\ seen = None.

Lemma tx_Read_settled s req s' r : tx_Read s req = (s', r) ->
  same_data s s' /\
  match r with
  | inl e => e <> NO_ERROR
  | inr (status, rec, _) =>
      status = RecordNormal /\ view s (req_table req) (req_key req) = Some rec \/
      status = RecordDeleted /\ view s (req_table req) (req_key req) = None
  end.
Proof.
  intros E. pose proof (law_read _ _ _ _ E) as (Hp & Hc & Hr). split; [split; [done|]; intros; by rewrite Hp|].
  destruct r as [e|[[status rec] ts]]; [done|]. unfold view.
  destruct (Hsettled _ _ _ _ _ _ E) as [-> | ->]; [by left|by right].
Qed.

Lemma PkRead_answer st key ts miss st' status : PkRead env st key false ts miss = (st', status) ->
  same_data (txm st) (txm st') /\ last_read_key_ st' = last_read_key_ st /\
  read_answer st' status (last_read_record_ st') (view (txm st) (base_table_name env) key).
Proof.
  unfold PkRead. destruct (tx_Read _ _) as [s r] eqn:E. apply tx_Read_settled in E as [Hs Hr].
  destruct r as [e|[[status' rec] ts']]; intros [= <- <-]; (split; [exact Hs|]); (split; [done|]).
  - by left.
  - right. destruct Hr as [[-> Hr]|[-> Hr]]; [by left|by right].
Qed.

Lemma SkRead_answer st index key st' status ts rec : SkRead storage_hd env st index key false = (st', (status, ts, rec)) ->
  same_data (txm st) (txm st') /\ read_answer st' status rec (view (txm st) (is_name index) key).
Proof.
  unfold SkRead. destruct (tx_Read _ _) as [s r] eqn:E. apply tx_Read_settled in E as [Hs Hr].
  destruct r as [e|[[status' rec'] ts']].
  - intros [= <- <- _ _]. split; [exact Hs|by left].
  - destruct Hr as [[-> Hr]|[-> Hr]]; intros [= <- <- _ <-]; (split; [exact Hs|]); right; [by left|by right].
Qed.

(** Rows that can be read: their columns hold values, the unpack info fits its
    header, and the payload that was read lies at its address. *)
Definition rows_readable (mem' : Z -> bytes) (rec_addr : EloqRecord -> Z) (rows : gmap bytes bytes) : Prop :=
  forall k buf rec, rows !! k = Some buf -> row_record env buf = Some rec ->
    row_storable env pk_cols buf /\ Z.of_nat (length (unpack_info_ rec)) < 65536 /\ payload_at mem' (rec_addr rec) rec.

(** The row under a key of the primary index. *)
Lemma decode_seen rows s k rec decode_set mem' rec_addr out :
  consistent env good rows s -> rows_readable mem' rec_addr rows -> length out = size ->
  view s (base_table_name env) k = Some rec ->
  exists buf out', rows !! k = Some buf /\ DecodeRecord env decode_set (rec_addr rec) out k rec = Some out' /\
    shown env decode_set mem' buf out'.
Proof.
  intros Hco Hrr Hl Hv. rewrite (co_base _ _ _ _ Hco) in Hv.
  destruct (rows !! k) as [buf|] eqn:Hk; [|done]. simpl in Hv. destruct (Hrr k buf rec Hk Hv) as (Hst & Hw & Hat).
  destruct (co_good _ _ _ _ Hco k buf Hk) as [-> _].
  destruct (DecodeRecord_shown uninit env pkd0 pk pk_cols (tr_pk _ _ _ _ _ _ Hready) (tr_pk_setup _ _ _ _ _ _ Hready)
    Hread decode_set mem' (rec_addr rec) buf out rec Hv Hst Hw Hat Hl) as (out' & E & _ & Hs).
  by exists buf, out'.
Qed.

Lemma convert_not_found e : convert_tx_error e <> HA_ERR_KEY_NOT_FOUND.
Proof. by destruct e. Qed.

(** What a lookup of a key returns: the row, an error, or that there is none. *)
Definition lookup_result (rows : gmap bytes bytes) (decode_set : nat -> bool) (mem' : Z -> bytes) (st st' : ha_state S)
    (rc : Z) (out' : bytes) (found : bytes -> bytes -> Prop) : Prop :=
  same_data (txm st) (txm st') /\
  (rc = 0 -> exists k buf, rows !! k = Some buf /\ found k buf /\ shown env decode_set mem' buf out') /\
  (rc = HA_ERR_KEY_NOT_FOUND -> forall k buf, rows !! k = Some buf -> ~ found k buf).

Lemma read_pk_spec rows st ts decode_set mem' rec_addr out k :
  consistent env good rows (txm st) -> rows_readable mem' rec_addr rows -> length out = size ->
  exists st' rc out', read_pk env st ts decode_set rec_addr out k = Some (st', rc, out') /\
    lookup_result rows decode_set mem' st st' rc out' (fun k' _ => k' = k).
Proof.
  intros Hco Hrr Hl. unfold read_pk. destruct (PkRead _ _ _ _ _ _) as [st1 status] eqn:E.
  apply PkRead_answer in E as (Hs & _ & [[-> He]|[[-> Hv]|[-> Hv]]]).
  - do 3 eexists. split; [reflexivity|]. split_and!; [done|by intros ?%convert_tx_error_0|by intros ?%convert_not_found].
  - destruct (decode_seen rows _ k _ decode_set mem' rec_addr out Hco Hrr Hl Hv) as (buf & out' & Hk & -> & Hsh).
    do 3 eexists. split; [reflexivity|]. split_and!; [done| |done]. intros _. by exists k, buf.
  - do 3 eexists. split; [reflexivity|]. split_and!; [done|done|]. intros _ k' buf Hk' ->.
    rewrite (co_base _ _ _ _ Hco), Hk' in Hv. simpl in Hv. destruct (co_record _ _ _ _ Hco _ _ Hk'). congruence.
Qed.

(** The key of a row in the primary index. *)
Lemma pk_pack buf u : row_ok pk_cols buf ->
  exists st, pack_record mem (pk_descr_ env) tbl buf u false None 0 = Some st /\
    ps_tuple st = row_key mem pk_cols (m_pack_info (pk_descr_ env)) buf.
Proof.
  intros Hrow. destruct (setup_ready mem uninit tbl pkd0 pk pk_cols [] (tr_pk _ _ _ _ _ _ Hready))
    as (kd & E & _ & _ & _ & _ & _ & Hpack).
  rewrite (tr_pk_setup _ _ _ _ _ _ Hready) in E. injection E as <-.
  rewrite (app_nil_r pk_cols : index_columns pk pk_cols [] = pk_cols) in Hpack.
  by destruct (Hpack buf u 0%nat Hrow ltac:(lia) ltac:(done)) as (st & Ep & Et); exists st.
Qed.

Lemma pk_key_length buf padding : row_ok pk_cols buf ->
  Forall (fun c => real_maybe_null (kp_field c.1) = false) pk_cols ->
  let k := row_key mem pk_cols (m_pack_info (pk_descr_ env)) buf in
  key_length (pk_descr_ env) tbl (k ++ padding) = Some (length k).
Proof.
  intros Hrow Hnn. destruct (setup_ready mem uninit tbl pkd0 pk pk_cols [] (tr_pk _ _ _ _ _ _ Hready))
    as (kd & E & Hr & _ & Ht & _). rewrite (tr_pk_setup _ _ _ _ _ _ Hready) in E. injection E as <-.
  rewrite (app_nil_r pk_cols : index_columns pk pk_cols [] = pk_cols) in Hr. intros k.
  unfold key_length, k. rewrite (key_length_columns mem uninit tbl _ _ _ buf padding Ht Hr Hrow Hnn).
  f_equal. rewrite length_app. lia.
Qed.

(** The key that a search by all columns of the primary key looks for. *)
Lemma search_primary key_addr ext n rec key record_buffer :
  searchable ext size tbl pkd0 pk pk_cols [] true -> search_key ext pk pk_cols n rec key -> n = length pk_cols ->
  length record_buffer = size -> bytes_ok record_buffer ->
  exists k, (exists b, EncodeScanKey mem key_addr ext tbl (pk_descr_ env) record_buffer key (2 ^ Z.of_nat n - 1) = Some (k, b)) /\
    forall buf, row_ok pk_cols buf ->
      row_key mem pk_cols (m_pack_info (pk_descr_ env)) buf = k <-> parts_cmp (map fst pk_cols) rec buf = Eq.
Proof.
  intros [Hid Ht Hlo Hpos Hlen _ _] Hs -> Hl Hb.
  destruct (setup_ready mem uninit tbl pkd0 pk pk_cols [] Hid) as (kd & E & Hr & _ & _ & Hk & _).
  rewrite (tr_pk_setup _ _ _ _ _ _ Hready) in E. injection E as <-.
  destruct (encode_restored mem key_addr ext size uninit tbl pkd0 pk pk_cols [] Hid Ht Hlo Hlen (pk_descr_ env)
    (length pk_cols) rec key record_buffer Hr Hk Hs Hl Hb) as (b & E & _ & _ & Hrow & Hcmp).
  pose proof (Forall2_length Hr) as Hlp.
  rewrite (app_nil_r pk_cols : index_columns pk pk_cols [] = pk_cols) in *.
  rewrite !take_ge in * by lia. exists (row_key mem pk_cols (m_pack_info (pk_descr_ env)) b). split; [by exists b|].
  intros buf Hbuf. rewrite <- (Hcmp buf Hbuf), <- (row_key_eq mem tbl uninit pk_cols (m_pack_info (pk_descr_ env)) b buf);
    [done|by apply ready_packed|done|done].
Qed.

(** A unique index whose columns can be restored: columns of a fixed size but
    BIT, VARCHAR and VARBINARY columns in their full length. *)
Record unique_readable (t : target) : Prop := {
  ur_target : t ∈ targets env;
  ur_unique : t_unique t = true;
  ur_readable : Forall readable_column (target_columns pk_cols (defs t));
  ur_layout : laid_out size (map fst (target_columns pk_cols (defs t)))
}.

(** The unpack info of its entries fits the header. *)
Definition entries_small (t : target) (s : S) : Prop :=
  forall key r, view s (is_name (t_index t)) key = Some r -> Z.of_nat (length (unpack_info_ r)) < 65536.

(** The entry of a row leads to the row. *)
Lemma unique_entry_decoded t k buf key r out :
  unique_readable t -> good k buf -> entry env t (Some []) k buf = Some (key, r) ->
  Z.of_nat (length (unpack_info_ r)) < 65536 -> length out = size ->
  exists out', DecodeUniqueSkRecord tbl (is_kd (t_index t)) out key r = (Some out', Some k) /\ length out' = size.
Proof.
  intros [Ht Hu Hres%(readable_columns mem) Hlo] Hg He Hw Hl.
  destruct (tr_index _ _ _ _ _ _ Hready t Ht) as (Hid & Hs & E & Hnd).
  destruct (tr_unique _ _ _ _ _ _ Hready t Ht Hu) as [Hn Hm]. destruct Hg as (-> & Hprow & Hrow). specialize (Hrow t Ht).
  unfold target_columns in *.
  destruct (unique_entry_split mem tbl uninit _ _ _ _ _ buf (Some []) Hid Hs Hn Hm E Hrow) as (st & Est & Htup & He' & Hcat).
  unfold entry, hidden_pk in He. rewrite (ready_no_hidden _ _ _ _ _ _ Hready), Hu, He' in He. injection He as <- <-.
  destruct (index_restored mem uninit tbl _ _ _ _ Hid Hres) as (kd & E' & Hun). rewrite E in E'. injection E' as <-.
  destruct (Hun buf [] out Hrow) as (st' & w & Est' & Ew & Hrest). rewrite Est in Est'. injection Est' as <-.
  destruct (primary_key_of_key mem uninit tbl _ _ _ pkd0 pk pk_cols Hid Hs (tr_pk _ _ _ _ _ _ Hready) Hnd
    (tr_pk_NoDup _ _ _ _ _ _ Hready)) as (kd & pkd & Ekd & Epkd & Hget).
  rewrite E in Ekd. injection Ekd as <-. rewrite (tr_pk_setup _ _ _ _ _ _ Hready) in Epkd. injection Epkd as <-.
  unfold DecodeUniqueSkRecord. cbn [encoded_blob_ unpack_info_] in *. rewrite Hcat, Ew in *.
  rewrite (Hrest Hw), Htup, (Hget buf Hrow Hprow). eexists. split; [reflexivity|].
  apply length_restored_row; [done|done| |done]. apply (columns_fit tbl size); try done. by eapply indexed_columns.
Qed.

(** The key that a search by all columns of a unique index looks for. *)
Lemma search_unique t key_addr ext n rec key record_buffer :
  t ∈ targets env -> t_unique t = true ->
  searchable ext size tbl (df_kd0 (defs t)) (df_ki (defs t)) (df_cols (defs t)) pk_cols false ->
  search_key ext (df_ki (defs t)) (df_cols (defs t)) n rec key -> n = length (df_cols (defs t)) ->
  length record_buffer = size -> bytes_ok record_buffer ->
  exists sk, (exists b, EncodeScanKey mem key_addr ext tbl (is_kd (t_index t)) record_buffer key (2 ^ Z.of_nat n - 1) = Some (sk, b)) /\
    forall buf, row_ok (df_cols (defs t)) buf ->
      entry_key env pk_cols defs t buf = sk <-> parts_cmp (map fst (df_cols (defs t))) rec buf = Eq.
Proof.
  intros Ht Hu [Hid Htp Hlo Hpos Hlen _ _] Hs -> Hl Hb. destruct (tr_index _ _ _ _ _ _ Hready t Ht) as (_ & _ & Ekd & _).
  destruct (setup_ready mem uninit tbl _ _ _ _ Hid) as (kd & E & Hr & _ & _ & Hk & _).
  rewrite Ekd in E. injection E as <-.
  destruct (encode_restored mem key_addr ext size uninit tbl _ _ _ _ Hid Htp Hlo Hlen (is_kd (t_index t))
    (length (df_cols (defs t))) rec key record_buffer Hr Hk Hs Hl Hb) as (b & E & _ & _ & Hrow & Hcmp).
  apply (Forall2_take _ _ _ (length (df_cols (defs t)))) in Hr.
  unfold index_columns in *. rewrite take_app_length in *. apply ready_packed in Hr.
  exists (own_key mem (df_cols (defs t)) (is_kd (t_index t)) b). split; [by exists b|].
  intros buf Hbuf. unfold entry_key, own_key. rewrite Hu, <- (Hcmp buf Hbuf).
  by rewrite <- (row_key_eq mem tbl uninit _ _ b buf Hr Hrow Hbuf).
Qed.

Lemma read_unique_spec t rows st decode_set mem' rec_addr out sk :
  unique_readable t -> consistent env good rows (txm st) -> entries_small t (txm st) ->
  rows_readable mem' rec_addr rows -> length out = size -> is_covering env = false ->
  exists st' rc out', read_unique storage_hd env st (t_index t) decode_set rec_addr out sk = Some (st', rc, out') /\
    lookup_result rows decode_set mem' st st' rc out' (fun _ buf => entry_key env pk_cols defs t buf = sk).
Proof.
  intros Hur Hco Hsm Hrr Hl Hcov. pose proof Hur as [Ht _ _ _]. unfold read_unique. rewrite Hcov. cbn [negb].
  destruct (SkRead _ _ _ _ _ _) as [st1 [[status ts] r]] eqn:E.
  pose proof (co_index _ _ _ _ Hco t Ht) as Hic.
  apply SkRead_answer in E as (Hs & [[-> He]|[[-> Hv]|[-> Hv]]]).
  - do 3 eexists. split; [reflexivity|]. split_and!; [done|by intros ?%convert_tx_error_0|by intros ?%convert_not_found].
  - destruct (ic_entry _ _ _ _ _ Hic sk r Hv) as (k & buf & r0 & Hk & Hent).
    destruct (ic_row _ _ _ _ _ Hic k buf sk r0 Hk Hent) as (r' & b0 & Hv' & Hg0 & Hent0).
    rewrite Hv in Hv'. injection Hv' as <-.
    destruct (unique_entry_decoded t k b0 sk r out Hur Hg0 Hent0 (Hsm sk r Hv) Hl) as (out1 & -> & Hl1).
    destruct (PkRead _ _ _ _ _ _) as [st2 status2] eqn:E2. apply PkRead_answer in E2 as (Hs2 & _ & Ha).
    assert (same_data (txm st) (txm st2)) as Hs12 by (by eapply same_data_trans).
    assert (consistent env good rows (txm st1)) as Hco1 by by eapply consistent_same.
    destruct Ha as [[-> He2]|[[-> Hv2]|[-> Hv2]]].
    + do 3 eexists. split; [reflexivity|]. split_and!; [done|by intros ?%convert_tx_error_0|by intros ?%convert_not_found].
    + destruct (decode_seen rows _ k _ decode_set mem' rec_addr out1 Hco1 Hrr Hl1 Hv2) as (buf' & out' & Hk' & -> & Hsh).
      rewrite Hk in Hk'. injection Hk' as <-. do 3 eexists. split; [reflexivity|]. split_and!; [done| |done].
      intros _. exists k, buf. split_and!; [done| |done].
      destruct (ready_entry _ _ _ _ _ _ Hready t k buf (Some []) Ht (co_good _ _ _ _ Hco k buf Hk)) as (q & Eq & _). congruence.
    + exfalso. cbn [with_key with_record txm] in Hv2. rewrite (co_base _ _ _ _ Hco1), Hk in Hv2. simpl in Hv2.
      destruct (co_record _ _ _ _ Hco _ _ Hk). congruence.
  - do 3 eexists. split; [reflexivity|]. split_and!; [done|done|]. intros _ k buf Hk <-.
    destruct (ready_entry _ _ _ _ _ _ Hready t k buf (Some []) Ht (co_good _ _ _ _ Hco k buf Hk)) as (q & Eq & _).
    destruct (ic_row _ _ _ _ _ Hic k buf _ q Hk Eq) as (r' & b0 & Hv' & _). congruence.
Qed.

End Lookup.

(** C20: a position leads back to its row.  [rnd_pos] applied to what
    [position] noted for a row of the table returns the row, with the requested
    columns in the record buffer, or an error of the transaction service; it
    never reports that there is no such row. *)
Theorem rnd_pos_correct {S : Type} `{!TxService S, !TxLaws S} (uninit : mono_field_packing)
    (env : ha_env) (pkd0 : mono_key_def) (pk : KEY) (pk_cols : list indexed_part) (defs : target -> index_def)
    (rows : gmap bytes bytes) (st st' : ha_state S) ref_length decode_set mem' rec_addr k buf out :
  table_ready uninit env pkd0 pk pk_cols defs -> row_readable env pk_cols -> @point_reads_settled S _ ->
  Forall (fun c => real_maybe_null (kp_field c.1) = false) pk_cols ->
  consistent env (row_good env pk_cols defs) rows (txm st') ->
  rows_readable env pk_cols mem' rec_addr rows -> length out = length (default_values (ha_table env)) ->
  rows !! k = Some buf -> (length k <= ref_length)%nat ->
  exists pos st'' rc out', position env st false ref_length buf = Some pos /\
    rnd_pos env st' ref_length decode_set rec_addr out pos = Some (st'', rc, out') /\
    rc <> HA_ERR_KEY_NOT_FOUND /\ (rc = 0 -> shown env decode_set mem' buf out').
Proof.
  intros Hr Hread Hset Hnn Hco Hrr Hl Hk Hlen. destruct (co_good _ _ _ _ Hco k buf Hk) as (-> & Hrow & _).
  unfold position, rnd_pos. rewrite (ready_no_hidden _ _ _ _ _ _ Hr). cbn [negb andb].
  destruct (pk_pack uninit env pkd0 pk pk_cols defs Hr buf None Hrow) as (ps & -> & Ht). simpl. rewrite Ht.
  pose proof (fun pad => pk_key_length uninit env pkd0 pk pk_cols defs Hr buf pad Hrow Hnn) as Hkl. cbv zeta in Hkl.
  set (k := row_key _ _ _ _) in *. exists (k ++ replicate (ref_length - length k) 0).
  rewrite take_ge by (rewrite length_app, length_replicate; lia). rewrite Hkl, take_app_length.
  destruct (read_pk_spec uninit env pkd0 pk pk_cols defs Hr Hread Hset rows (with_key k st') 0 decode_set mem'
    rec_addr out k Hco Hrr Hl) as (st'' & rc & out' & -> & _ & H0 & Hnf).
  exists st'', rc, out'. split_and!; [done|done| |].
  - intros Hrc. by apply (Hnf Hrc k buf Hk).
  - intros Hrc. destruct (H0 Hrc) as (k' & buf' & Hk' & -> & Hs). rewrite Hk in Hk'. by injection Hk' as <-.
Qed.

(** C19: looking up a row by its primary key.  [index_read_map] for an exact
    search by all columns of the primary key returns a row of the table that
    agrees with the search in those columns, with the requested columns in the
    record buffer; it reports HA_ERR_KEY_NOT_FOUND only when there is no such
    row, and an error of the transaction service otherwise. *)
Theorem index_read_primary_correct {S : Type} `{!TxService S, !TxLaws S} (uninit : mono_field_packing)
    (env : ha_env) (pkd0 : mono_key_def) (pk : KEY) (pk_cols : list indexed_part) (defs : target -> index_def)
    (key_addr : bytes -> Z) (ext : bool) (rows : gmap bytes bytes) (st : ha_state S) decode_set mem' rec_addr record_buffer out rec key :
  table_ready uninit env pkd0 pk pk_cols defs -> row_readable env pk_cols -> @point_reads_settled S _ ->
  searchable ext (length (default_values (ha_table env))) (ha_table env) pkd0 pk pk_cols [] true ->
  search_key ext pk pk_cols (length pk_cols) rec key ->
  length record_buffer = length (default_values (ha_table env)) -> bytes_ok record_buffer ->
  consistent env (row_good env pk_cols defs) rows (txm st) -> rows_readable env pk_cols mem' rec_addr rows ->
  length out = length (default_values (ha_table env)) ->
  exists st' rc out', index_read_primary env key_addr ext st decode_set rec_addr record_buffer out key
      (2 ^ Z.of_nat (length pk_cols) - 1) = Some (st', rc, out') /\
    lookup_result env rows decode_set mem' st st' rc out' (fun _ buf => parts_cmp (map fst pk_cols) rec buf = Eq).
Proof.
  intros Hr Hread Hset Hse Hsk Hlb Hbb Hco Hrr Hl.
  destruct (search_primary uninit env pkd0 pk pk_cols defs Hr key_addr ext _ rec key record_buffer Hse Hsk eq_refl Hlb Hbb)
    as (k & [b E] & Hkey).
  unfold index_read_primary. rewrite E.
  destruct (read_pk_spec uninit env pkd0 pk pk_cols defs Hr Hread Hset rows st 0 decode_set mem' rec_addr out k Hco Hrr Hl)
    as (st' & rc & out' & -> & Hs & H0 & Hnf).
  exists st', rc, out'. split; [done|].
  assert (forall k' buf, rows !! k' = Some buf -> k' = k <-> parts_cmp (map fst pk_cols) rec buf = Eq) as Hrow.
  { intros k' buf Hk'. destruct (co_good _ _ _ _ Hco k' buf Hk') as (-> & Hok & _). by apply Hkey. }
  split_and!; [done| |].
  - intros Hrc. destruct (H0 Hrc) as (k' & buf & Hk' & Hf & Hsh). exists k', buf. split_and!; [done| |done].
    by apply (Hrow k' buf Hk').
  - intros Hrc k' buf Hk' Hf. apply (Hnf Hrc k' buf Hk'). by apply (Hrow k' buf Hk').
Qed.


(** ** The table of the statements *)

Lemma int_apart i j p q : (p + 4 <= q)%nat \/ (q + 4 <= p)%nat -> apart (int_field i p) (int_field j q).
Proof. intros H. split; simpl; [lia|done|done|done]. Qed.

Lemma int_placed i p : (p + 4 <= 13)%nat -> placed 13 (int_field i p).
Proof. intros H. split; simpl; [done|lia|done]. Qed.

Lemma int_readable i p : readable_column (int_part (int_field i p)).
Proof. by apply (readable_fixed _ 4). Qed.

Lemma int_tuple i p : tuple_part (int_part (int_field i p)).1 (int_part (int_field i p)).2.
Proof. apply (tuple_fixed (int_part (int_field i p)).1 4); try done. lia. Qed.

Lemma t_readable : row_readable t_env [int_part f_id].
Proof.
  split.
  - intros [|[|[|i]]] c H; try (injection H as <-; reflexivity). done.
  - intros c Hc Hp. exists (int_part f_id). split; [apply list_elem_of_here|].
    simpl in Hc. rewrite !elem_of_cons, elem_of_nil in Hc. by destruct Hc as [->|[->|[->|[]]]].
  - constructor; [apply readable_restorable, int_readable|constructor].
  - split_and!; [by apply int_placed; simpl; lia|done|constructor|done].
  - split_and!; [by apply int_placed; simpl; lia|done| |].
    + constructor; [|constructor]. split; apply int_apart; lia.
    + split_and!; [by apply int_placed; simpl; lia|done|constructor|done].
  - intros p [->|[]%elem_of_nil]%elem_of_cons.
    constructor; [|constructor; [|constructor]]; apply int_apart; simpl; lia.
Qed.

Lemma t_settled : @point_reads_settled mem_store _.
Proof. intros s req s' status rec ts. simpl. destruct (ms_seen _ _ _); intros [= _ <- _ _]; [by left|by right]. Qed.

Lemma t_searchable_pk : searchable false 13 t_table t_pk_kd (unique_key f_id) [int_part f_id] [] true.
Proof.
  split; try done.
  - exact t_pk_index.
  - constructor; [apply int_tuple|constructor].
  - split_and!; [by apply int_placed; simpl; lia|done|constructor|done].
  - constructor; [simpl; lia|constructor].
  - simpl. lia.
Qed.

Lemma t_searchable_a : searchable false 13 t_table (t_sk_kd 1) (unique_key f_a) [int_part f_a] [int_part f_id] false.
Proof.
  split; try done.
  - apply t_sk_index; [done|by left].
  - constructor; [apply int_tuple|constructor].
  - split_and!; [by apply int_placed; simpl; lia|done|constructor|done].
  - constructor; [simpl; lia|constructor; [simpl; lia|constructor]].
  - simpl. lia.
Qed.

(** The payload of the row, and memory that has it at address 1000. *)
Definition row_1_record : EloqRecord :=
  match row_record t_env row_1 with Some rec => rec | None => {| encoded_blob_ := []; unpack_info_ := [] |} end.

Definition t_mem (a : Z) : bytes := drop (Z.to_nat (a - 1000)) (encoded_blob_ row_1_record).

Lemma row_1_record_eq : row_record t_env row_1 = Some row_1_record.
Proof. by vm_compute. Qed.

Lemma row_1_small : (length (unpack_info_ row_1_record) <= 2)%nat /\ (length (encoded_blob_ row_1_record) <= 9)%nat.
Proof. vm_compute. lia. Qed.

Lemma t_rows_readable : rows_readable t_env [int_part f_id] t_mem (fun _ => 1000) {[t_key row_1 := row_1]}.
Proof.
  intros k buf rec [<- <-]%lookup_singleton_Some Hrec. rewrite row_1_record_eq in Hrec.
  apply (inj Some) in Hrec as <-. destruct row_1_small as [H1 H2]. split_and!; [|lia|].
  - destruct row_1_ok as (_ & Hrow & _). split; [done|].
    assert (bytes_ok row_1) as Hb by by apply (bool_decide_unpack _).
    constructor; [|constructor; [|constructor]]; (eexists; split; [by apply Row.payload_fixed|]; right; split; [done|simpl; lia]).
  - split_and!; [lia|lia|]. intros o _. unfold t_mem. f_equal. lia.
Qed.

Lemma row_1_key_length : (length (t_key row_1) <= 8)%nat.
Proof. vm_compute. lia. Qed.

Lemma rnd_pos_witness :
  exists pos st'' rc out', position t_env t_start false 8 row_1 = Some pos /\
    rnd_pos t_env t_one 8 (fun _ => true) (fun _ => 1000) (replicate 13 255) pos = Some (st'', rc, out') /\
    rc <> HA_ERR_KEY_NOT_FOUND /\ (rc = 0 -> shown t_env (fun _ => true) t_mem row_1 out').
Proof.
  apply (rnd_pos_correct sample_uninit t_env t_pk_kd (unique_key f_id) [int_part f_id] t_def {[t_key row_1 := row_1]}
    t_start t_one 8 (fun _ => true) t_mem (fun _ => 1000) (t_key row_1) row_1 (replicate 13 255) t_ready t_readable t_settled).
  - constructor; [done|constructor].
  - exact t_one_consistent.
  - exact t_rows_readable.
  - reflexivity.
  - apply lookup_singleton_eq.
  - exact row_1_key_length.
Defined.

(** The key tuples of the id and of a. *)
Definition id_tuple : bytes := key_copy (fun _ => []) false (replicate 4 170) row_1 (unique_key f_id) 4.
Definition a_tuple : bytes := key_copy (fun _ => []) false (replicate 4 170) row_1 (unique_key f_a) 4.

Lemma row_1_ints f : f = f_id \/ f = f_a \/ f = f_b -> fixed_ok f row_1.
Proof.
  assert (bytes_ok row_1) as Hb by by apply (bool_decide_unpack _).
  intros [->|[->| ->]]; exists 4%nat; (split; [done|]); (split; [by apply bytes_ok_drop|]);
    unfold data; rewrite length_drop; simpl; lia.
Qed.

Lemma id_search_key : search_key false (unique_key f_id) [int_part f_id] 1 row_1 id_tuple.
Proof.
  split; [simpl; unfold MAX_REF_PARTS; lia| |].
  - constructor; [right; apply row_1_ints; by left|constructor].
  - exists (fun _ => []), false, (replicate 4 170). split; [vm_compute; lia|done].
Qed.

Lemma a_search_key : search_key false (unique_key f_a) [int_part f_a] 1 row_1 a_tuple.
Proof.
  split; [simpl; unfold MAX_REF_PARTS; lia| |].
  - constructor; [right; apply row_1_ints; by right; left|constructor].
  - exists (fun _ => []), false, (replicate 4 170). split; [vm_compute; lia|done].
Qed.

Lemma index_read_primary_witness :
  exists st' rc out', index_read_primary t_env (fun _ => 0) false t_one (fun _ => true) (fun _ => 1000) (replicate 13 0)
      (replicate 13 255) id_tuple (2 ^ Z.of_nat 1 - 1) = Some (st', rc, out') /\
    (rc = 0 -> exists k buf, ({[t_key row_1 := row_1]} : gmap bytes bytes) !! k = Some buf /\
       shown t_env (fun _ => true) t_mem buf out').
Proof.
  destruct (index_read_primary_correct sample_uninit t_env t_pk_kd (unique_key f_id) [int_part f_id] t_def (fun _ => 0) false
    {[t_key row_1 := row_1]} t_one (fun _ => true) t_mem (fun _ => 1000) (replicate 13 0) (replicate 13 255) row_1 id_tuple
    t_ready t_readable t_settled t_searchable_pk id_search_key) as (st' & rc & out' & E & _ & H0 & _).
  - reflexivity.
  - by apply (bool_decide_unpack _).
  - exact t_one_consistent.
  - exact t_rows_readable.
  - reflexivity.
  - exists st', rc, out'. split; [exact E|]. intros Hrc. destruct (H0 Hrc) as (k & buf & Hk & _ & Hs).
    exists k, buf. split; [exact Hk|exact Hs].
Defined.

Lemma t_index_a_readable : unique_readable t_env [int_part f_id] t_def t_index_a.
Proof.
  split.
  - rewrite t_targets. apply list_elem_of_here.
  - done.
  - constructor; [apply int_readable|constructor; [apply int_readable|constructor]].
  - split_and!; [by apply int_placed; simpl; lia|done| |].
    + constructor; [|constructor]. split; apply int_apart; simpl; lia.
    + split_and!; [by apply int_placed; simpl; lia|done|constructor|done].
Qed.

(** Every entry that is written in the state. *)
Definition pending_small (st : ha_state mem_store) : bool :=
  forallb (fun x => match x.2 with Some r => (length (unpack_info_ r) <=? 100)%nat | None => true end)
    (map_to_list (ms_pending (txm st))).

Lemma t_one_small : pending_small t_one = true.
Proof. by vm_compute. Qed.

Lemma pending_entries_small st t :
  ms_committed (txm st) = ∅ -> pending_small st = true -> entries_small t (txm st).
Proof.
  unfold pending_small. intros Hc Hf key r Hv. rewrite forallb_forall in Hf. unfold view in Hv. simpl in Hv.
  destruct (ms_pending (txm st) !! (is_name (t_index t), key)) as [w|] eqn:Hp.
  - subst w. apply elem_of_map_to_list, list_elem_of_In, Hf in Hp. simpl in Hp. apply Nat.leb_le in Hp. lia.
  - by rewrite Hc, lookup_empty in Hv.
Qed.


End Read.
