(* ===== verification/Cursor.v ===== *)
(** * Cursor: scans of the base table and of indexes

    A scan reads batches of tuples from the transaction service and returns
    them one by one ([PkIndexScanNext], [SkIndexScanNext] in
    storage/eloq/ha_eloq.cc), merged with the tuples of a data store scanner
    if there is one.  A scan of a secondary index collects entries, reads
    their rows in one request ordered by primary key, and returns the rows in
    the order of the entries.  The requests of the service are the class
    [ScanService], the data store scanner is [DataStoreScanner]; neither is
    part of the sources. *)

From stdpp Require Import gmap strings.
From S2P Require Import Prelude Slice Buff Charset Latin1 Copy Collation Field Placement Store.
From S2P Require Import Codec Packing VarFormat SpacePad Varchar KeySetup KeyDef KeyOrder Index KeyRead PkTuple.
From S2P Require Import Neighbour Double EloqKey Restore RoundTrip Layout KeyTuple Row Entry Hidden Handler Consistency Tables Statements Scan Read.
Import Field Packing KeyDef KeyOrder Index EloqKey Entry Handler Scan Read.

Module Cursor.

Abbreviation HA_ERR_END_OF_FILE := 137 (only parsing).
Abbreviation HA_ERR_ABORTED_BY_USER := 188 (only parsing).
Abbreviation HA_ERR_QUERY_INTERRUPTED := HA_ERR_ABORTED_BY_USER (only parsing).
Abbreviation HA_ERR_WRONG_COMMAND := 131 (only parsing).
Definition UINT64_MAX : Z := 2 ^ 64 - 1.
Abbreviation DEFAULT_SCAN_TUPLE_SIZE := 128%nat (only parsing).

(** ** The requests of a scan *)

Record ScanBatchTuple := {
  tu_key : bytes; tu_record : EloqRecord; tu_status : RecordStatus; tu_version_ts : Z; tu_cce_addr : Z
}.

Definition UnlockTuple : Type := Z * Z * RecordStatus.

Abbreviation unlock_tuple :=
  (fun t : ScanBatchTuple => (tu_cce_addr t, tu_version_ts t, tu_status t) : UnlockTuple) (only parsing).

Record ScanOpenTxRequest := {
  so_table : table_name; so_version : Z; so_secondary : bool;
  so_start : EloqKey; so_start_inclusive : bool; so_end : option EloqKey; so_end_inclusive : bool;
  so_direction : ScanDirection; so_for_update : bool; so_for_share : bool; so_is_covering_keys : bool;
  so_require_keys : bool; so_require_recs : bool; so_require_sort : bool
}.

(** The keys to read, each with the timestamp of its entry. *)
Record BatchReadTxRequest := {
  br_table : table_name; br_version : Z; br_keys : list (bytes * Z); br_for_update : bool; br_for_share : bool
}.

(** [tx_ScanBatch] returns an error, or a batch and whether it is the last;
    [tx_BatchRead] an error, or status and record of every key.
    [tx_CloseTxScan] takes the tuples to unlock by reference and leaves some of
    them. *)
Class ScanService (S : Type) := {
  tx_OpenTxScan : S -> ScanOpenTxRequest -> S * Z;
  tx_ScanBatch : S -> Z -> table_name -> S * (TxErrorCode + list ScanBatchTuple * bool);
  tx_CloseTxScan : S -> Z -> table_name -> list UnlockTuple -> S * list UnlockTuple;
  tx_BatchRead : S -> BatchReadTxRequest -> S * (TxErrorCode + list (RecordStatus * EloqRecord))
}.

(** A tuple of the data store: key, record, version and whether it is
    deleted. *)
Record store_tuple := { sto_key : bytes; sto_record : EloqRecord; sto_version : Z; sto_deleted : bool }.

(** [None]: the key is null, at the end. *)
Class DataStoreScanner (D : Type) := {
  scanner_MoveNext : D -> D;
  scanner_Current : D -> option store_tuple
}.

(** ** Conditions on index entries *)

Inductive check_result_t :=
  | CHECK_ERROR | CHECK_NEG | CHECK_POS | CHECK_OUT_OF_RANGE | CHECK_ABORTED_BY_USER.

(** The pushed index condition and the rowid filter, on the columns in the
    record buffer: [killed] asks for the kill level, [compare_key2] compares
    with the end of the range, if there is one, and [cond] and [filter] are
    the condition and the filter themselves. *)
Definition handler_index_cond_check (killed : bool) (compare_key2 : option (bytes -> Z)) (cond : bytes -> bool)
    (record : bytes) : check_result_t :=
  if killed then CHECK_ABORTED_BY_USER
  else if match compare_key2 with Some cmp => 0 <? cmp record | None => false end then CHECK_OUT_OF_RANGE
  else if cond record then CHECK_POS else CHECK_NEG.

(** sql/handler.h *)
Abbreviation HA_READ_NEXT := 1 (only parsing).
Abbreviation HA_READ_PREV := 2 (only parsing).
Abbreviation HA_READ_ORDER := 4 (only parsing).
Abbreviation HA_READ_RANGE := 8 (only parsing).
Abbreviation HA_KEYREAD_ONLY := 64 (only parsing).
Abbreviation HA_DO_INDEX_COND_PUSHDOWN := 256 (only parsing).
Abbreviation HA_CLUSTERED_INDEX := 512 (only parsing).
Abbreviation HA_DO_RANGE_FILTER_PUSHDOWN := 1024 (only parsing).

(** What the server may ask of an index. *)
Definition index_flags (tbl : TABLE) (inx : nat) : Z :=
  let base_flags := fold_left Z.lor [HA_READ_ORDER; HA_READ_RANGE; HA_READ_PREV; HA_KEYREAD_ONLY;
                                     HA_DO_RANGE_FILTER_PUSHDOWN] HA_READ_NEXT in
  Z.lor base_flags (if decide (Some inx = primary_key tbl) then HA_CLUSTERED_INDEX else HA_DO_INDEX_COND_PUSHDOWN).

(** [pushed_idx_cond] and [pushed_idx_cond_keyno]. *)
Record pushed_condition (A : Type) := { pushed_idx_cond : option A; pushed_idx_cond_keyno : nat }.
Arguments pushed_idx_cond {A}.
Arguments pushed_idx_cond_keyno {A}.

(** The condition is kept; the second component is what the server still has
    to check. *)
Definition idx_cond_push {A} (keyno : nat) (idx_cond : A) : pushed_condition A * option A :=
  ({| pushed_idx_cond := Some idx_cond; pushed_idx_cond_keyno := keyno |}, None).

(** The condition for the active index. *)
Definition active_condition {A} (pushed : pushed_condition A) (active_index : nat) : option A :=
  if (pushed_idx_cond_keyno pushed =? active_index)%nat then pushed_idx_cond pushed else None.

(** ** The state of a scan *)

(** What was read of the transaction service: [ccm_scan_] is the tuple of
    [ccm_scan_key_], [ccm_scan_rec_] and [ccm_scan_rec_status_], [None] when
    the key is null. *)
Record ccm_state := {
  ccm_scan_open_ : bool;
  ccm_scan_ : option (bytes * EloqRecord * RecordStatus);
  scan_batch_ : list ScanBatchTuple;
  scan_batch_idx_ : Z;
  is_last_scan_batch_ : bool
}.

Definition set_ccm (c : option (bytes * EloqRecord * RecordStatus)) (cc : ccm_state) : ccm_state := {|
  ccm_scan_open_ := ccm_scan_open_ cc; ccm_scan_ := c; scan_batch_ := scan_batch_ cc;
  scan_batch_idx_ := scan_batch_idx_ cc; is_last_scan_batch_ := is_last_scan_batch_ cc |}.

Definition set_open (b : bool) (cc : ccm_state) : ccm_state := {|
  ccm_scan_open_ := b; ccm_scan_ := ccm_scan_ cc; scan_batch_ := scan_batch_ cc;
  scan_batch_idx_ := scan_batch_idx_ cc; is_last_scan_batch_ := is_last_scan_batch_ cc |}.

Definition set_batch (batch : list ScanBatchTuple) (idx : Z) (last : bool) (cc : ccm_state) : ccm_state := {|
  ccm_scan_open_ := ccm_scan_open_ cc; ccm_scan_ := ccm_scan_ cc; scan_batch_ := batch;
  scan_batch_idx_ := idx; is_last_scan_batch_ := last |}.

Definition set_idx (idx : Z) (cc : ccm_state) : ccm_state :=
  set_batch (scan_batch_ cc) idx (is_last_scan_batch_ cc) cc.

(** The data store scanner, and whether it has to move on. *)
Record store_state (D : Type) := { storage_scanner_ : option D; advance_storage_scanner_ : bool }.
Arguments storage_scanner_ {D}.
Arguments advance_storage_scanner_ {D}.

(** The scan as a whole; [scan_index_] is [None] for MAX_INDEXES. *)
Record cursor (D : Type) := {
  scan_alias_ : Z;
  scan_direction_ : ScanDirection;
  scan_index_ : option nat;
  end_specified_ : bool;
  ccm : ccm_state;
  store : store_state D;
  sk_pk_scan_batch_ : list ScanBatchTuple;
  batch_order_ : list nat;
  prefix_match_key_ : option bytes;
  unlock_batch_ : list UnlockTuple;
  start_of_scan_ : bool;
  start_range_ptr_ : option key_range
}.
Arguments scan_alias_ {D}.
Arguments scan_direction_ {D}.
Arguments scan_index_ {D}.
Arguments end_specified_ {D}.
Arguments ccm {D}.
Arguments store {D}.
Arguments sk_pk_scan_batch_ {D}.
Arguments batch_order_ {D}.
Arguments prefix_match_key_ {D}.
Arguments unlock_batch_ {D}.
Arguments start_of_scan_ {D}.
Arguments start_range_ptr_ {D}.

Definition set_scan {D} (cc : ccm_state) (ss : store_state D) (cur : cursor D) : cursor D := {|
  scan_alias_ := scan_alias_ cur; scan_direction_ := scan_direction_ cur; scan_index_ := scan_index_ cur;
  end_specified_ := end_specified_ cur; ccm := cc; store := ss; sk_pk_scan_batch_ := sk_pk_scan_batch_ cur;
  batch_order_ := batch_order_ cur; prefix_match_key_ := prefix_match_key_ cur;
  unlock_batch_ := unlock_batch_ cur; start_of_scan_ := start_of_scan_ cur;
  start_range_ptr_ := start_range_ptr_ cur |}.

Definition set_loaded {D} (cc : ccm_state) (pks : list ScanBatchTuple) (order : list nat) (cur : cursor D) : cursor D := {|
  scan_alias_ := scan_alias_ cur; scan_direction_ := scan_direction_ cur; scan_index_ := scan_index_ cur;
  end_specified_ := end_specified_ cur; ccm := cc; store := store cur; sk_pk_scan_batch_ := pks;
  batch_order_ := order; prefix_match_key_ := prefix_match_key_ cur;
  unlock_batch_ := unlock_batch_ cur; start_of_scan_ := start_of_scan_ cur;
  start_range_ptr_ := start_range_ptr_ cur |}.

Definition set_start {D} (b : bool) (cur : cursor D) : cursor D := {|
  scan_alias_ := scan_alias_ cur; scan_direction_ := scan_direction_ cur; scan_index_ := scan_index_ cur;
  end_specified_ := end_specified_ cur; ccm := ccm cur; store := store cur;
  sk_pk_scan_batch_ := sk_pk_scan_batch_ cur; batch_order_ := batch_order_ cur;
  prefix_match_key_ := prefix_match_key_ cur; unlock_batch_ := unlock_batch_ cur; start_of_scan_ := b;
  start_range_ptr_ := start_range_ptr_ cur |}.

Definition set_unlock {D} (u : list UnlockTuple) (cur : cursor D) : cursor D := {|
  scan_alias_ := scan_alias_ cur; scan_direction_ := scan_direction_ cur; scan_index_ := scan_index_ cur;
  end_specified_ := end_specified_ cur; ccm := ccm cur; store := store cur;
  sk_pk_scan_batch_ := sk_pk_scan_batch_ cur; batch_order_ := batch_order_ cur;
  prefix_match_key_ := prefix_match_key_ cur; unlock_batch_ := u; start_of_scan_ := start_of_scan_ cur;
  start_range_ptr_ := start_range_ptr_ cur |}.

Definition set_start_range {D} (r : option key_range) (cur : cursor D) : cursor D := {|
  scan_alias_ := scan_alias_ cur; scan_direction_ := scan_direction_ cur; scan_index_ := scan_index_ cur;
  end_specified_ := end_specified_ cur; ccm := ccm cur; store := store cur;
  sk_pk_scan_batch_ := sk_pk_scan_batch_ cur; batch_order_ := batch_order_ cur;
  prefix_match_key_ := prefix_match_key_ cur; unlock_batch_ := unlock_batch_ cur; start_of_scan_ := start_of_scan_ cur;
  start_range_ptr_ := r |}.

(** An element of a vector by a 64-bit index. *)
Definition at_index {A} (l : list A) (i : Z) : option A :=
  if (0 <=? i) && (i <? Z.of_nat (length l)) then l !! Z.to_nat i else None.

(** ** Opening and closing *)

Section Cursor.

(** [active_index]: [None] for MAX_INDEXES; [random_scan_sort] is the variable
    eloq_random_scan_sort. *)
Context {S D : Type} `{!TxService S, !ScanService S, !DataStoreScanner D}.
Context (storage_hd : option (DataStoreHandler S)) (env : ha_env).
Context (active_index : option nat) (decode_set : nat -> bool) (random_scan_sort is_mrr_sort_rowid_ : bool).

(** The result of a call: the states, the return code and the record buffer.
    [None]: an assertion fails, or a key is corrupt. *)
Abbreviation result := (option (ha_state S * cursor D * Z * bytes)).

(** [decode_flag_ > 0]. *)
Definition decodes : bool :=
  let flag := SetupDecodeFlagOnFirstRead env decode_set in DECODE_PK flag || DECODE_PAYLOAD flag.

Definition IndexScanIsOpen (cur : cursor D) : bool := scan_alias_ cur <? UINT64_MAX.

(** What is left of a list from the current position on. *)
Definition from_idx {A} (cc : ccm_state) (l : list A) : list A :=
  if scan_batch_idx_ cc <? Z.of_nat (length (scan_batch_ cc)) then drop (Z.to_nat (scan_batch_idx_ cc)) l else [].

(** The tuples that are still locked: those not returned, and the rows loaded
    for them. *)
Definition left_locked (cur : cursor D) : list UnlockTuple :=
  map unlock_tuple (from_idx (ccm cur) (scan_batch_ (ccm cur))) ++
  omap (fun pos => unlock_tuple <$> sk_pk_scan_batch_ cur !! pos)
    (from_idx (ccm cur) (take (length (scan_batch_ (ccm cur))) (batch_order_ cur))).

Definition scan_table (cur : cursor D) : option table_name :=
  match scan_index_ cur with
  | None => Some (base_table_name env)
  | Some i =>
      if decide (Some i = primary_key (ha_table env)) then Some (base_table_name env)
      else is_name <$> IndexNameSchema env !! i
  end.

Definition closed_ccm : ccm_state := {|
  ccm_scan_open_ := false; ccm_scan_ := None; scan_batch_ := []; scan_batch_idx_ := UINT64_MAX;
  is_last_scan_batch_ := false |}.

Definition IndexScanClose (st : ha_state S) (cur : cursor D) : option (ha_state S * cursor D) :=
  match scan_table cur with
  | None => None
  | Some tn =>
      let '(s, unlock) := tx_CloseTxScan (txm st) (scan_alias_ cur) tn (unlock_batch_ cur ++ left_locked cur) in
      Some (with_txm s st,
            {| scan_alias_ := UINT64_MAX; scan_direction_ := scan_direction_ cur; scan_index_ := None;
               end_specified_ := false;
               ccm := set_batch [] UINT64_MAX (is_last_scan_batch_ (ccm cur)) closed_ccm;
               store := {| storage_scanner_ := None; advance_storage_scanner_ := advance_storage_scanner_ (store cur) |};
               sk_pk_scan_batch_ := []; batch_order_ := []; prefix_match_key_ := None; unlock_batch_ := unlock;
               start_of_scan_ := start_of_scan_ cur; start_range_ptr_ := None |})
  end.

Definition close_if_open (st : ha_state S) (cur : cursor D) : option (ha_state S * cursor D) :=
  if IndexScanIsOpen cur then IndexScanClose st cur else Some (st, cur).

(** The state after [OpenTxScan]: nothing is read yet. *)
Definition opened (alias : Z) (direction : ScanDirection) (end_specified : bool) (pks : list ScanBatchTuple)
    (cur : cursor D) : cursor D := {|
  scan_alias_ := alias; scan_direction_ := direction; scan_index_ := active_index; end_specified_ := end_specified;
  ccm := {| ccm_scan_open_ := true; ccm_scan_ := None; scan_batch_ := []; scan_batch_idx_ := UINT64_MAX;
            is_last_scan_batch_ := false |};
  store := {| storage_scanner_ := None; advance_storage_scanner_ := false |};
  sk_pk_scan_batch_ := pks; batch_order_ := batch_order_ cur; prefix_match_key_ := prefix_match_key_ cur;
  unlock_batch_ := unlock_batch_ cur; start_of_scan_ := start_of_scan_ cur;
  start_range_ptr_ := start_range_ptr_ cur |}.

Definition pk_scan_request (start_key : EloqKey) (start_inclusive : bool) (end_key : option EloqKey)
    (end_inclusive : bool) (direction : ScanDirection) : ScanOpenTxRequest := {|
  so_table := base_table_name env; so_version := base_version env; so_secondary := false;
  so_start := start_key; so_start_inclusive := start_inclusive; so_end := end_key; so_end_inclusive := end_inclusive;
  so_direction := direction; so_for_update := lock_write env; so_for_share := lock_shared env; so_is_covering_keys := false;
  so_require_keys := table_has_hidden_pk (ha_table env) || decodes; so_require_recs := decodes;
  so_require_sort := random_scan_sort || (bool_decide (active_index <> None) && decodes) |}.

Definition PkIndexScanOpen (st : ha_state S) (cur : cursor D) (start_key : EloqKey) (start_inclusive : bool)
    (end_key : option EloqKey) (end_inclusive : bool) (direction : ScanDirection) : option (ha_state S * cursor D) :=
  match close_if_open st cur with
  | None => None
  | Some (st, cur) =>
      let '(s, alias) := tx_OpenTxScan (txm st) (pk_scan_request start_key start_inclusive end_key end_inclusive direction) in
      if alias =? UINT64_MAX then None
      else Some (with_txm s st, opened alias direction (bool_decide (end_key <> None)) [] cur)
  end.

Definition sk_scan_request (index : index_schema) (start_key : EloqKey) (start_inclusive : bool)
    (end_key : option EloqKey) (end_inclusive : bool) (direction : ScanDirection) : ScanOpenTxRequest :=
  let is_require_keys := table_has_hidden_pk (ha_table env) || decodes in {|
  so_table := is_name index; so_version := is_SchemaTs index; so_secondary := true;
  so_start := start_key; so_start_inclusive := start_inclusive; so_end := end_key; so_end_inclusive := end_inclusive;
  so_direction := direction; so_for_update := false; so_for_share := false; so_is_covering_keys := is_covering env;
  so_require_keys := is_require_keys; so_require_recs := is_require_keys; so_require_sort := is_require_keys |}.

(** [sk_pk_scan_batch_] is not cleared here. *)
Definition SkIndexScanOpen (st : ha_state S) (cur : cursor D) (index : index_schema) (start_key : EloqKey)
    (start_inclusive : bool) (end_key : option EloqKey) (end_inclusive : bool) (direction : ScanDirection)
    : option (ha_state S * cursor D) :=
  match close_if_open st cur with
  | None => None
  | Some (st, cur) =>
      let '(s, alias) :=
        tx_OpenTxScan (txm st) (sk_scan_request index start_key start_inclusive end_key end_inclusive direction) in
      if alias =? UINT64_MAX then None
      else Some (with_txm s st, opened alias direction (bool_decide (end_key <> None)) (sk_pk_scan_batch_ cur) cur)
  end.

(** ** The next tuple *)

(** Is the query killed, at the [i]-th time the loop of a call asks? *)
Context (thd_killed : nat -> bool).

Definition is_snapshot_read (s : S) : bool := negb (lock_write env) && negb (lock_shared env) && tx_is_snapshot s.

(** The store scanner at the start of a call, and in the loop. *)
Definition first_store (ss : store_state D) : store_state D * option store_tuple :=
  match storage_scanner_ ss with
  | None => (ss, None)
  | Some d =>
      let d := if advance_storage_scanner_ ss then scanner_MoveNext d else d in
      ({| storage_scanner_ := Some d; advance_storage_scanner_ := false |}, scanner_Current d)
  end.

Definition advance_store (ss : store_state D) (cur_store : option store_tuple) : store_state D * option store_tuple :=
  match storage_scanner_ ss with
  | Some d => if advance_storage_scanner_ ss then
                let d := scanner_MoveNext d in
                ({| storage_scanner_ := Some d; advance_storage_scanner_ := false |}, scanner_Current d)
              else (ss, cur_store)
  | None => (ss, cur_store)
  end.

Definition scan_tuple (t : ScanBatchTuple) : bytes * EloqRecord * RecordStatus := (tu_key t, tu_record t, tu_status t).

(** A tuple of the transaction service, from the batch or from a new one;
    [more]: is another batch to be fetched.  The timestamp of a tuple that was
    taken is returned beside the state; an error leaves an empty batch. *)
Definition fetch_tuple (more : ccm_state -> bool) (s : S) (alias : Z) (tn : table_name) (cc : ccm_state)
    : S * ccm_state * option TxErrorCode * option Z :=
  match ccm_scan_ cc with
  | Some _ => (s, cc, None, None)
  | None =>
      if scan_batch_idx_ cc <? Z.of_nat (length (scan_batch_ cc)) then
        match at_index (scan_batch_ cc) (scan_batch_idx_ cc) with
        | Some t => (s, set_idx (scan_batch_idx_ cc + 1) (set_ccm (Some (scan_tuple t)) cc), None, Some (tu_version_ts t))
        | None => (s, cc, None, None)
        end
      else if more cc then
        let '(s, r) := tx_ScanBatch s alias tn in
        match r with
        | inl e => (s, set_batch [] 0 (is_last_scan_batch_ cc) cc, Some e, None)
        | inr ([], last) => (s, set_batch [] 0 last cc, None, None)
        | inr (t :: batch, last) =>
            (s, set_batch (t :: batch) 1 last (set_ccm (Some (scan_tuple t)) cc), None, Some (tu_version_ts t))
        end
      else (s, cc, None, None)
  end.

(** What an iteration has found: a tuple to be skipped, that both scanners are
    at their end, nothing, or a candidate for the result. *)
Inductive choice :=
  | Skip
  | Exhausted
  | NoResult
  | Result (key : bytes) (rec : EloqRecord) (status : RecordStatus).

Definition store_choice (snapshot : bool) (tx_start_ts : Z) (t : store_tuple) : choice :=
  if snapshot && (tx_start_ts <? sto_version t) then Result (sto_key t) (sto_record t) ArchiveVersionMiss
  else if sto_deleted t then Skip
  else Result (sto_key t) (sto_record t) RecordNormal.

Definition ccm_choice (c : bytes * EloqRecord * RecordStatus) : choice :=
  let '(key, rec, status) := c in
  match status with RecordDeleted => Skip | _ => Result key rec status end.

Definition to_advance (ss : store_state D) : store_state D :=
  {| storage_scanner_ := storage_scanner_ ss; advance_storage_scanner_ := true |}.

(** The tuple of the data store comes before that of the service. *)
Definition store_first (direction : ScanDirection) (store_key ccm_key : bytes) : bool :=
  match direction with
  | Forward => key_ltb (key_of_bytes store_key) (key_of_bytes ccm_key)
  | Backward => key_ltb (key_of_bytes ccm_key) (key_of_bytes store_key)
  end.

Definition choose (was_open snapshot : bool) (start_ts : Z) (direction : ScanDirection) (cc : ccm_state) (ss : store_state D)
    (cur_store : option store_tuple) : ccm_state * store_state D * option store_tuple * choice :=
  if was_open then
    match ccm_scan_ cc, cur_store with
    | None, None => (cc, ss, cur_store, Exhausted)
    | None, Some t => (cc, to_advance ss, cur_store, store_choice snapshot start_ts t)
    | Some c, None => (set_ccm None cc, ss, cur_store, ccm_choice c)
    | Some c, Some t =>
        if store_first direction (sto_key t) c.1.1 then (cc, to_advance ss, cur_store, store_choice snapshot start_ts t)
        else
          let '(ss, cur_store) :=
            if key_eqb (key_of_bytes (sto_key t)) (key_of_bytes c.1.1)
            then advance_store (to_advance ss) cur_store else (ss, cur_store) in
          (set_ccm None cc, ss, cur_store, ccm_choice c)
    end
  else
    match cur_store with
    | Some t => (cc, to_advance ss, cur_store, store_choice snapshot start_ts t)
    | None => (cc, ss, cur_store, NoResult)
    end.

(** The prefix of a prefix scan does not match. *)
Definition prefix_mismatch (cur : cursor D) (key : bytes) : bool :=
  match prefix_match_key_ cur with
  | Some p => negb (IsPrefixOf (key_of_bytes p) (key_of_bytes key))
  | None => false
  end.

(** ** The base table *)

Definition more_pk (cc : ccm_state) : bool :=
  (scan_batch_idx_ cc =? UINT64_MAX) || (negb (bool_decide (scan_batch_ cc = [])) && negb (is_last_scan_batch_ cc)).

(** [rec_addr]: where the payload of a record lies. *)
Context (rec_addr : EloqRecord -> Z).

Fixpoint PkScanLoop (snapshot : bool) (start_ts : Z) (fuel i : nat) (st : ha_state S) (cur : cursor D) (cur_store : option store_tuple)
    (table_record : bytes) : result :=
  match fuel with
  | O => None
  | Datatypes.S fuel =>
      if thd_killed i then Some (st, cur, HA_ERR_QUERY_INTERRUPTED, table_record)
      else
        let '(ss, cur_store) := advance_store (store cur) cur_store in
        let was_open := ccm_scan_open_ (ccm cur) in
        let '(s, cc, err, _) :=
          if was_open then fetch_tuple more_pk (txm st) (scan_alias_ cur) (base_table_name env) (ccm cur)
          else (txm st, ccm cur, None, None) in
        let st := with_txm s st in
        match err with
        | Some e => Some (st, set_scan cc ss cur, convert_tx_error e, table_record)
        | None =>
            let cc := if was_open && bool_decide (ccm_scan_ cc = None) then set_open false cc else cc in
            let '(cc, ss, cur_store, ch) :=
              choose was_open snapshot start_ts (scan_direction_ cur) cc ss cur_store in
            let cur := set_scan cc ss cur in
            let again :=
              if ccm_scan_open_ cc || bool_decide (cur_store <> None)
              then PkScanLoop snapshot start_ts fuel (Datatypes.S i) st cur cur_store table_record
              else Some (st, cur, HA_ERR_END_OF_FILE, table_record) in
            match ch with
            | Exhausted => Some (st, cur, HA_ERR_END_OF_FILE, table_record)
            | Skip | NoResult => again
            | Result key rec status =>
                if prefix_mismatch cur key then
                  Some (st, set_scan (set_idx (ulonglong_of (scan_batch_idx_ cc - 1)) cc) ss cur, HA_ERR_END_OF_FILE, table_record)
                else
                  match status with
                  | RecordDeleted => again
                  | RecordNormal =>
                      match DecodeRecord env decode_set (rec_addr rec) table_record key rec with
                      | Some table_record => Some (with_key key st, cur, 0, table_record)
                      | None => None
                      end
                  | _ => None
                  end
            end
        end
  end.

Definition PkIndexScanNext (fuel : nat) (st : ha_state S) (cur : cursor D) (table_record : bytes) : result :=
  let '(ss, cur_store) := first_store (store cur) in
  PkScanLoop (is_snapshot_read (txm st)) (tx_start_ts (txm st)) fuel 0 st (set_scan (ccm cur) ss cur) cur_store table_record.

(** A scan of the whole table. *)
Definition rnd_init (cur : cursor D) : cursor D := set_start true cur.

Definition rnd_next (fuel : nat) (st : ha_state S) (cur : cursor D) (buf : bytes) : result :=
  if start_of_scan_ cur then
    match PkIndexScanOpen st cur NegativeInfinity false None false Forward with
    | None => None
    | Some (st, cur) => PkIndexScanNext fuel st (set_start false cur) buf
    end
  else PkIndexScanNext fuel st cur buf.

Definition rnd_end (st : ha_state S) (cur : cursor D) : option (ha_state S * cursor D) :=
  if start_of_scan_ cur then Some (st, set_start false cur) else IndexScanClose st cur.

(** The lock of the current tuple is given up. *)
Definition unlock_row (cur : cursor D) : option (cursor D) :=
  if IndexScanIsOpen cur && negb (bool_decide (scan_batch_ (ccm cur) = [])) then
    let curr_scan_idx := ulonglong_of (scan_batch_idx_ (ccm cur) - 1) in
    match at_index (scan_batch_ (ccm cur)) curr_scan_idx with
    | Some t => Some (set_unlock (unlock_batch_ cur ++ [unlock_tuple t]) cur)
    | None => None
    end
  else Some cur.

(** ** Secondary indexes *)

(** [t_index] is the schema of the active index, [t_unique] says that it is a
    unique one.  [icp] is the pushed index condition when there is one for
    the active index, [rowid_filter] the rowid filter when it is active. *)
Context (t : target) (icp rowid_filter : option (bytes -> check_result_t)) (ref_length : nat).

(** The rows are needed, not only the entries. *)
Definition is_pk_scan_needed : bool := negb (is_covering env || is_mrr_sort_rowid_).

Definition check_rc (r : check_result_t) : option Z :=
  match r with
  | CHECK_ERROR => None
  | CHECK_NEG => Some HA_ERR_KEY_NOT_FOUND
  | CHECK_POS => Some 0
  | CHECK_OUT_OF_RANGE => Some HA_ERR_END_OF_FILE
  | CHECK_ABORTED_BY_USER => Some HA_ERR_ABORTED_BY_USER
  end.

(** The columns of the entry are unpacked into the record buffer, then the
    condition is checked. *)
Definition MatchIcp (table_record sk : bytes) (rec : EloqRecord) : option (bytes * Z) :=
  match unpack_record (is_kd (t_index t)) (ha_table env) table_record sk (unpack_info_ rec) with
  | None => None
  | Some table_record =>
      match icp with
      | None => Some (table_record, 0)
      | Some cond => match check_rc (cond table_record) with Some rc => Some (table_record, rc) | None => None end
      end
  end.

Definition MatchRowidFilter (pk : bytes) : option Z :=
  match rowid_filter with
  | None => Some 0
  | Some check =>
      if (length pk <=? ref_length)%nat then check_rc (check (pk ++ replicate (ref_length - length pk) 0)) else None
  end.

(** [KeyOrder]: the key of a row, the position of its entry and the timestamp
    of the entry. *)
Record key_order := { ko_key : bytes; ko_pos : nat; ko_ts : Z }.

Definition more_sk (collected : nat) (cc : ccm_state) : bool :=
  (scan_batch_idx_ cc =? UINT64_MAX) ||
  (is_pk_scan_needed && (collected <? DEFAULT_SCAN_TUPLE_SIZE)%nat && negb (is_last_scan_batch_ cc)) ||
  (negb (bool_decide (scan_batch_ cc = [])) && negb (is_last_scan_batch_ cc) && negb is_pk_scan_needed).

(** What becomes of an entry. *)
Inductive verdict :=
  | Accept (pk : bytes)
  | Reject
  | EndOfRange
  | Aborted
  | Unread.   (* no column is needed *)

(** The entry is unpacked and checked; the record buffer, the key of its row
    once it is known, and the verdict. *)
Definition check_entry (table_record key : bytes) (rec : EloqRecord) : option (bytes * option bytes * verdict) :=
  if negb (table_has_hidden_pk (ha_table env) || decodes) then Some (table_record, None, Unread)
  else
    let packed_key := if t_unique t then key ++ encoded_blob_ rec else key in
    match
      (if t_unique t then
         match unpack_record (is_kd (t_index t)) (ha_table env) table_record packed_key (unpack_info_ rec) with
         | Some table_record => Some (table_record, 0)
         | None => None
         end
       else MatchIcp table_record key rec)
    with
    | None => None
    | Some (table_record, icp_rc) =>
        if icp_rc =? HA_ERR_END_OF_FILE then Some (table_record, None, EndOfRange)
        else if icp_rc =? HA_ERR_ABORTED_BY_USER then Some (table_record, None, Aborted)
        else if icp_rc =? HA_ERR_KEY_NOT_FOUND then Some (table_record, None, Reject)
        else
          match get_primary_key_tuple (is_kd (t_index t)) (ha_table env) packed_key with
          | None => None
          | Some pk =>
              match MatchRowidFilter pk with
              | None => None
              | Some rc =>
                  Some (table_record, Some pk,
                    if rc =? HA_ERR_END_OF_FILE then EndOfRange
                    else if rc =? HA_ERR_ABORTED_BY_USER then Aborted
                    else if rc =? HA_ERR_KEY_NOT_FOUND then Reject
                    else Accept pk)
              end
          end
    end.

(** The loop over the entries returns from the call, or ends with the keys of
    the rows to load, and the tuples of their entries. *)
Inductive gathered :=
  | Returned (r : ha_state S * cursor D * Z * bytes)
  | Broke (st : ha_state S) (cur : cursor D) (table_record : bytes) (vct_key_order : list key_order)
      (tmp_scan_batch : list ScanBatchTuple).

(** The end of the scan: return, or load what was collected. *)
Definition end_of_scan (st : ha_state S) (cur : cursor D) (cc_end : ccm_state -> ccm_state) (table_record : bytes)
    (orders : list key_order) (tmp : list ScanBatchTuple) : gathered :=
  if is_pk_scan_needed then Broke st (set_scan (cc_end (ccm cur)) (store cur) cur) table_record orders tmp
  else Returned (st, cur, HA_ERR_KEY_NOT_FOUND, table_record).

(** No later batch is fetched. *)
Definition range_ended (cc : ccm_state) : ccm_state :=
  set_batch (scan_batch_ cc) (Z.of_nat (length (scan_batch_ cc))) true cc.

Definition with_pk (pk : option bytes) (st : ha_state S) : ha_state S :=
  match pk with Some pk => with_key pk st | None => st end.

Fixpoint SkScanLoop (snapshot : bool) (start_ts : Z) (fuel i : nat) (st : ha_state S) (cur : cursor D)
    (cur_store : option store_tuple) (table_record : bytes) (orders : list key_order) (tmp : list ScanBatchTuple)
    (sk_ts : Z) : option gathered :=
  match fuel with
  | O => None
  | Datatypes.S fuel =>
      if thd_killed i then Some (Returned (st, cur, HA_ERR_QUERY_INTERRUPTED, table_record))
      else
        let '(ss, cur_store) := advance_store (store cur) cur_store in
        let was_open := ccm_scan_open_ (ccm cur) in
        let '(s, cc, err, ts) :=
          if was_open then
            fetch_tuple (more_sk (length orders)) (txm st) (scan_alias_ cur) (is_name (t_index t)) (ccm cur)
          else (txm st, ccm cur, None, None) in
        let st := with_txm s st in
        let sk_ts := match ts with Some ts => ts | None => sk_ts end in
        match err with
        | Some e => Some (Returned (st, set_scan cc ss cur, convert_tx_error e, table_record))
        | None =>
            let cc := if was_open && bool_decide (ccm_scan_ cc = None) && is_last_scan_batch_ cc
                      then set_open false cc else cc in
            let '(cc, ss, cur_store, ch) :=
              choose was_open snapshot start_ts (scan_direction_ cur) cc ss cur_store in
            let cur := set_scan cc ss cur in
            let again (st : ha_state S) (table_record : bytes) (orders : list key_order) (tmp : list ScanBatchTuple) :=
              if ccm_scan_open_ cc || bool_decide (cur_store <> None)
              then SkScanLoop snapshot start_ts fuel (Datatypes.S i) st cur cur_store table_record orders tmp sk_ts
              else Some (Broke st cur table_record orders tmp) in
            match ch with
            | Exhausted => Some (end_of_scan st cur (fun cc => cc) table_record orders tmp)
            | Skip | NoResult => again st table_record orders tmp
            | Result key rec status =>
                if prefix_mismatch cur key then
                  Some (if is_pk_scan_needed then end_of_scan st cur range_ended table_record orders tmp
                        else Returned (st, set_scan (set_idx (ulonglong_of (scan_batch_idx_ cc - 1)) cc) ss cur,
                                       HA_ERR_KEY_NOT_FOUND, table_record))
                else
                  match status with
                  | RecordDeleted => again st table_record orders tmp
                  | RecordNormal =>
                      match check_entry table_record key rec with
                      | None => None
                      | Some (table_record, pk, v) =>
                          let st := with_pk pk st in
                          match v with
                          | Unread => Some (Returned (st, cur, 0, table_record))
                          | EndOfRange => Some (end_of_scan st cur range_ended table_record orders tmp)
                          | Aborted => Some (Returned (st, cur, HA_ERR_ABORTED_BY_USER, table_record))
                          | Reject => again st table_record orders tmp
                          | Accept pk =>
                              if negb is_pk_scan_needed then Some (Returned (st, cur, 0, table_record))
                              else
                                match at_index (scan_batch_ cc) (scan_batch_idx_ cc - 1) with
                                | None => None
                                | Some tuple =>
                                    again (with_key [] st) table_record   (* the key is moved away *)
                                      (orders ++ [{| ko_key := pk; ko_pos := length tmp; ko_ts := sk_ts |}])
                                      (tmp ++ [{| tu_key := []; tu_record := {| encoded_blob_ := []; unpack_info_ := [] |};
                                                  tu_status := tu_status tuple; tu_version_ts := tu_version_ts tuple;
                                                  tu_cce_addr := tu_cce_addr tuple |}])
                                end
                          end
                      end
                  | _ => None
                  end
            end
        end
  end.

(** *** The rows of the entries *)

(** [std::sort] by key. *)
Context (std_sort : list key_order -> list key_order).

Definition empty_record : EloqRecord := {| encoded_blob_ := []; unpack_info_ := [] |}.

(** [batch_order_[order.pos_] = i] for every element. *)
Fixpoint batch_order_loop (i : nat) (orders : list key_order) (batch_order : list nat) : list nat :=
  match orders with
  | [] => batch_order
  | o :: orders => batch_order_loop (Datatypes.S i) orders (<[ko_pos o := i]> batch_order)
  end.

Definition resize {A} (x : A) (n : nat) (l : list A) : list A := take n l ++ replicate (n - length l) x.

(** A tuple of a row, after the request filled in status and record. *)
Definition loaded_tuple (o : key_order) (r : RecordStatus * EloqRecord) : ScanBatchTuple := {|
  tu_key := ko_key o; tu_record := r.2; tu_status := r.1; tu_version_ts := ko_ts o; tu_cce_addr := 0 |}.

Definition with_status (status : RecordStatus) (rec : EloqRecord) (t : ScanBatchTuple) : ScanBatchTuple := {|
  tu_key := tu_key t; tu_record := rec; tu_status := status; tu_version_ts := tu_version_ts t;
  tu_cce_addr := tu_cce_addr t |}.

(** A row that the service does not have is read from the data store.  The
    status is overwritten before it is compared with [Unknown], so that the
    record is never sent to the service.  [None]: the archive cannot be
    read. *)
Definition complete_tuple (hd : DataStoreHandler S) (s : S) (t : ScanBatchTuple) : option (S * ScanBatchTuple) :=
  match
    match tu_status t with
    | RecordUnknown | VersionUnknown | BaseVersionMiss =>
        match store_Read hd s (base_table_name env) (tu_key t) with
        | None => inl (with_status RecordDeleted (tu_record t) t)
        | Some (rec, store_found, latest_version_ts) =>
            let status := if store_found then RecordNormal else RecordDeleted in
            let t := with_status status rec t in
            let s := if bool_decide (tu_status t = RecordUnknown)
                     then tx_ReadOutside s rec (bool_decide (tu_status t = RecordDeleted)) latest_version_ts else s in
            inr (s, t, latest_version_ts)
        end
    | _ => inr (s, t, 1)
    end
  with
  | inl t => Some (s, t)
  | inr (s, t, latest_version_ts) =>
      if bool_decide (tu_status t = ArchiveVersionMiss) ||
         (negb (lock_write env) && negb (lock_shared env) && tx_is_snapshot s && (tx_start_ts s <? latest_version_ts))
      then
        match store_FetchVisibleArchive hd s (base_table_name env) (tu_key t) (tx_start_ts s) with
        | Some (rec, status, _) => Some (s, with_status status rec t)
        | None => None
        end
      else Some (s, t)
  end.

Fixpoint complete_batch (hd : DataStoreHandler S) (s : S) (ts : list ScanBatchTuple)
    : S * (list ScanBatchTuple * bool) :=
  match ts with
  | [] => (s, ([], true))
  | t :: ts =>
      match complete_tuple hd s t with
      | None => (s, (t :: ts, false))
      | Some (s, t) => let '(s, (ts, ok)) := complete_batch hd s ts in (s, (t :: ts, ok))
      end
  end.

(** The next row that was loaded, in the order of the entries; [n] entries are
    left. *)
Fixpoint serve_loop (n : nat) (st : ha_state S) (cur : cursor D) (table_record : bytes)
    : option (option (ha_state S * cursor D * Z * bytes) * cursor D) :=
  match n with
  | O => Some (None, cur)
  | Datatypes.S n =>
      match at_index (batch_order_ cur) (scan_batch_idx_ (ccm cur)) ≫= fun pos => sk_pk_scan_batch_ cur !! pos with
      | None => None
      | Some tuple =>
          let cur := set_scan (set_idx (scan_batch_idx_ (ccm cur) + 1) (ccm cur)) (store cur) cur in
          match tu_status tuple with
          | RecordNormal =>
              match DecodeRecord env decode_set (rec_addr (tu_record tuple)) table_record (tu_key tuple) (tu_record tuple) with
              | Some table_record => Some (Some (with_key (tu_key tuple) st, cur, 0, table_record), cur)
              | None => None
              end
          | _ => serve_loop n st cur table_record
          end
      end
  end.

Definition entries_left (cc : ccm_state) : nat :=
  if scan_batch_idx_ cc <? Z.of_nat (length (scan_batch_ cc))
  then (length (scan_batch_ cc) - Z.to_nat (scan_batch_idx_ cc))%nat else 0%nat.

Definition serve (st : ha_state S) (cur : cursor D) (table_record : bytes)
    : option (option (ha_state S * cursor D * Z * bytes) * cursor D) :=
  serve_loop (entries_left (ccm cur)) st cur table_record.

(** The rows of the collected entries are read and the first is returned. *)
Definition load_rows (st : ha_state S) (cur : cursor D) (table_record : bytes) (orders : list key_order)
    (tmp : list ScanBatchTuple) : result :=
  if decide (orders = []) then Some (st, cur, HA_ERR_KEY_NOT_FOUND, table_record)
  else
    let orders := std_sort orders in
    let order := batch_order_loop 0 orders (resize 0%nat (length tmp) (batch_order_ cur)) in
    let '(s, r) := tx_BatchRead (txm st) {|
      br_table := base_table_name env; br_version := base_version env;
      br_keys := map (fun o => (ko_key o, ko_ts o)) orders; br_for_update := lock_write env; br_for_share := lock_shared env |} in
    let st := with_txm s st in
    let cc := set_batch tmp (scan_batch_idx_ (ccm cur)) (is_last_scan_batch_ (ccm cur)) (ccm cur) in
    match r with
    | inl e =>
        let unread := map (fun o => loaded_tuple o (RecordUnknown, empty_record)) orders in
        Some (with_error e st, set_loaded cc unread order cur, convert_tx_error e, table_record)
    | inr recs =>
        let pks := zip_with loaded_tuple orders recs in
        let '(s, (pks, ok)) := match storage_hd with Some hd => complete_batch hd (txm st) pks | None => (txm st, (pks, true)) end in
        let st := with_txm s st in
        if negb ok then
          Some (with_error DATA_STORE_ERROR st, set_loaded cc pks order cur, convert_tx_error DATA_STORE_ERROR, table_record)
        else
          match serve st (set_loaded (set_idx 0 cc) pks order cur) table_record with
          | None => None
          | Some (Some r, _) => Some r
          | Some (None, cur) => Some (st, cur, HA_ERR_KEY_NOT_FOUND, table_record)
          end
    end.

Definition gather (fuel : nat) (st : ha_state S) (cur : cursor D) (table_record : bytes) : result :=
  let '(ss, cur_store) := first_store (store cur) in
  match SkScanLoop (is_snapshot_read (txm st)) (tx_start_ts (txm st)) fuel 0 st (set_scan (ccm cur) ss cur) cur_store
          table_record [] [] 0 with
  | None => None
  | Some (Returned r) => Some r
  | Some (Broke st cur table_record orders tmp) => load_rows st cur table_record orders tmp
  end.

Definition SkIndexScanNext (fuel : nat) (st : ha_state S) (cur : cursor D) (table_record : bytes) : result :=
  if is_pk_scan_needed then
    match serve st cur table_record with
    | None => None
    | Some (Some r, _) => Some r
    | Some (None, cur) =>
        if is_last_scan_batch_ (ccm cur) then Some (st, cur, HA_ERR_KEY_NOT_FOUND, table_record)
        else gather fuel st (set_scan (set_idx UINT64_MAX (ccm cur)) (store cur) cur) table_record
    end
  else gather fuel st cur table_record.

(** ** The calls of the server *)

(** [key_addr] and [extended_keys] as in Scan.v. *)
Context (key_addr : bytes -> Z) (extended_keys : bool) (end_range : option key_range).

(** The start of the range is kept in the handler; its end is [end_range]. *)
Definition prepare_range_scan (start_key : option key_range) (cur : cursor D) : cursor D := set_start_range start_key cur.

Definition on_primary : bool := bool_decide (active_index = primary_key (ha_table env)).

Definition active_kd : mono_key_def := if on_primary then pk_descr_ env else is_kd (t_index t).

Definition IndexScanOpen (st : ha_state S) (cur : cursor D) (start_key : EloqKey) (start_inclusive : bool)
    (end_key : option (bytes * bool)) (no_end_inclusive : bool) (direction : ScanDirection)
    : option (ha_state S * cursor D) :=
  let e := key_of_bytes <$> (fst <$> end_key) in
  let inclusive := match end_key with Some (_, b) => b | None => no_end_inclusive end in
  if on_primary then PkIndexScanOpen st cur start_key start_inclusive e inclusive direction
  else SkIndexScanOpen st cur (t_index t) start_key start_inclusive e inclusive direction.

Definition IndexScanNext (fuel : nat) (st : ha_state S) (cur : cursor D) (buf : bytes) : result :=
  if on_primary then PkIndexScanNext fuel st cur buf else SkIndexScanNext fuel st cur buf.

(** The second and the fourth branch of [index_read_map]: a range of the
    primary or of a secondary index. *)
Definition index_read_range (fuel : nat) (st : ha_state S) (cur : cursor D) (key_part_cnt : nat)
    (record_buffer buf key : bytes) (keypart_map : Z) (find_flag : ha_rkey_function) : result :=
  match close_if_open st cur with
  | None => None
  | Some (st, cur) =>
      match PrepareScan (ha_mem env) key_addr extended_keys (ha_table env) active_kd on_primary key_part_cnt record_buffer
              key keypart_map find_flag (use_full_key key_part_cnt keypart_map) end_range (start_range_ptr_ cur) with
      | None => None
      | Some (inl rc) => Some (st, cur, rc, buf)
      | Some (inr r) =>
          match IndexScanOpen st cur (key_of_bytes (sr_start r)) (sr_start_inclusive r) (sr_end r) true (sr_direction r) with
          | None => None
          | Some (st, cur) => IndexScanNext fuel st cur buf
          end
      end
  end.

Definition index_next (fuel : nat) (st : ha_state S) (cur : cursor D) (buf : bytes) : result :=
  match IndexScanNext fuel st cur buf with
  | None => None
  | Some (st, cur, rc, buf) =>
      Some (st, cur,
            if negb (rc =? 0) && ((rc =? HA_ERR_END_OF_FILE) || (rc =? HA_ERR_KEY_NOT_FOUND)) then HA_ERR_END_OF_FILE else rc,
            buf)
  end.

Definition index_prev (fuel : nat) (st : ha_state S) (cur : cursor D) (buf : bytes) : result := index_next fuel st cur buf.

(** Every error but a lock timeout is reported as the end. *)
Definition first_rc (r : result) : result :=
  match r with
  | None => None
  | Some (st, cur, rc, buf) =>
      Some (st, cur, if (rc =? 0) || (rc =? HA_ERR_LOCK_WAIT_TIMEOUT) then rc else HA_ERR_END_OF_FILE, buf)
  end.

Definition index_first (fuel : nat) (st : ha_state S) (cur : cursor D) (key_part_cnt : nat) (record_buffer buf : bytes)
    : result :=
  match PrepareForwardScanEndKey (ha_mem env) key_addr extended_keys (ha_table env) active_kd on_primary key_part_cnt
          record_buffer end_range with
  | None => None
  | Some e =>
      match IndexScanOpen st cur NegativeInfinity false e false Forward with
      | None => None
      | Some (st, cur) => first_rc (IndexScanNext fuel st cur buf)
      end
  end.

Definition index_last (fuel : nat) (st : ha_state S) (cur : cursor D) (buf : bytes) : result :=
  match IndexScanOpen st cur PositiveInfinity false None false Backward with
  | None => None
  | Some (st, cur) => first_rc (IndexScanNext fuel st cur buf)
  end.

Definition index_end (st : ha_state S) (cur : cursor D) : option (ha_state S * cursor D) := close_if_open st cur.

End Cursor.

End Cursor.
