(* ===== verification/ScanRows.v ===== *)
(** * ScanRows: what a scan of the base table returns

    The laws of the scan requests ([ScanLaws]) and of the data store scanner
    ([ScannerLaws]); [PkIndexScanNext] returns the tuples of both merged, those
    of the service first and deleted ones left out; and a scan of the whole
    table returns every row once (storage/eloq/ha_eloq.cc). *)

From Stdlib Require Import Sorted.
From stdpp Require Import gmap strings sorting.
From S2P Require Import Prelude Slice Buff Charset Latin1 Copy Collation Field Placement Store.
From S2P Require Import Codec Packing VarFormat SpacePad Varchar KeySetup KeyDef KeyOrder Index KeyRead PkTuple.
From S2P Require Import Neighbour Double EloqKey Restore RoundTrip Layout KeyTuple Row Entry Hidden Handler Consistency.
From S2P Require Import Tables Statements Scan Read Cursor.
Import Field Packing KeyDef KeyOrder Index EloqKey Entry Handler Consistency Tables Statements Scan Read Cursor.

Module ScanRows.

(** ** The laws of a scan *)

(** [k] comes after [from] in the direction of the scan, or is [from] itself. *)
Definition key_past (direction : ScanDirection) (inclusive : bool) (from : EloqKey) (k : bytes) : Prop :=
  match direction with
  | Forward => key_ltb from (key_of_bytes k)
  | Backward => key_ltb (key_of_bytes k) from
  end = true \/ (inclusive = true /\ key_eqb from (key_of_bytes k) = true).

Definition opposite (direction : ScanDirection) : ScanDirection :=
  match direction with Forward => Backward | Backward => Forward end.

Definition requested_key (req : ScanOpenTxRequest) (k : bytes) : Prop :=
  key_past (so_direction req) (so_start_inclusive req) (so_start req) k /\
  match so_end req with
  | Some e => key_past (opposite (so_direction req)) (so_end_inclusive req) e k
  | None => True
  end.

(** Keys in the direction of a scan. *)
Definition key_before (direction : ScanDirection) (a b : bytes) : Prop :=
  match direction with Forward => lex_cmp a b = Lt | Backward => lex_cmp b a = Lt end.

(** The tuples of a scan: those that the transaction sees in the range, each
    once, and tuples that are marked as deleted. *)
Record scan_content {S : Type} `{!TxService S, !TxLaws S} (s : S) (req : ScanOpenTxRequest) (l : list ScanBatchTuple)
    : Prop := {
  sc_once : NoDup (map tu_key l);
  sc_sorted : so_require_sort req = true -> StronglySorted (key_before (so_direction req)) (map tu_key l);
  sc_tuple tu : tu ∈ l -> tu_status tu = RecordDeleted \/
    tu_status tu = RecordNormal /\ view s (so_table req) (tu_key tu) = Some (tu_record tu) /\ requested_key req (tu_key tu);
  sc_all k rec : view s (so_table req) k = Some rec -> requested_key req k ->
    exists tu, tu ∈ l /\ tu_key tu = k /\ tu_status tu = RecordNormal
}.

(** [unread]: the tuples of an open scan that are still to come.  The tuples
    of a scan that asked for keys and records are its content; a batch that is
    empty is the last one. *)
Class ScanLaws (S : Type) `{!TxService S, !TxLaws S, !ScanService S} := {
  unread : S -> Z -> list ScanBatchTuple;
  law_OpenTxScan s req s' alias : tx_OpenTxScan s req = (s', alias) ->
    same_data s s' /\ 0 <= alias < UINT64_MAX /\
    (so_require_keys req = true -> so_require_recs req = true -> scan_content s req (unread s' alias));
  law_ScanBatch s alias tn s' r : tx_ScanBatch s alias tn = (s', r) ->
    same_data s s' /\
    match r with
    | inl e => e <> NO_ERROR
    | inr (batch, last) =>
        unread s alias = batch ++ unread s' alias /\ Z.of_nat (length batch + DEFAULT_SCAN_TUPLE_SIZE) < UINT64_MAX /\
        (last = true \/ batch = [] -> unread s' alias = [])
    end;
  law_CloseTxScan s alias tn u s' u' : tx_CloseTxScan s alias tn u = (s', u') -> same_data s s';
  law_BatchRead s req s' r : tx_BatchRead s req = (s', r) ->
    same_data s s' /\ (forall alias, unread s' alias = unread s alias) /\
    match r with
    | inl e => e <> NO_ERROR
    | inr recs => Forall2 (fun kt r => r.1 = RecordNormal /\ view s (br_table req) kt.1 = Some r.2 \/
                                       r.1 = RecordDeleted /\ view s (br_table req) kt.1 = None) (br_keys req) recs
    end
}.

(** [contents]: the tuples from the current one on. *)
Class ScannerLaws (D : Type) `{!DataStoreScanner D} := {
  contents : D -> list store_tuple;
  law_Current d : scanner_Current d = head (contents d);
  law_MoveNext d : contents (scanner_MoveNext d) = tail (contents d)
}.

(** ** Merging *)

Section Merged.

Context (direction : ScanDirection).

Definition ccm_out (c : bytes * EloqRecord * RecordStatus) : list (bytes * EloqRecord) :=
  match c.2 with RecordNormal => [c.1] | _ => [] end.

Definition store_out (t : store_tuple) : list (bytes * EloqRecord) :=
  if sto_deleted t then [] else [(sto_key t, sto_record t)].

(** The tuples of the service and of the data store by key; a tuple of the
    service hides that of the data store with the same key. *)
Fixpoint merged (a : list (bytes * EloqRecord * RecordStatus)) : list store_tuple -> list (bytes * EloqRecord) :=
  fix inner (b : list store_tuple) : list (bytes * EloqRecord) :=
    match a, b with
    | [], [] => []
    | [], t :: b' => store_out t ++ inner b'
    | c :: a', [] => ccm_out c ++ merged a' []
    | c :: a', t :: b' =>
        if store_first direction (sto_key t) c.1.1 then store_out t ++ inner b'
        else ccm_out c ++ merged a' (if key_eqb (key_of_bytes (sto_key t)) (key_of_bytes c.1.1) then b' else b)
    end.

Lemma merged_nil_r a : merged a [] = flat_map ccm_out a.
Proof. induction a as [|c a IH]; [done|]. cbn [merged flat_map]. by rewrite IH. Qed.

Lemma merged_nil_l b : merged [] b = flat_map store_out b.
Proof. induction b as [|t b IH]; [done|]. cbn [flat_map]. rewrite <- IH. done. Qed.

Lemma merged_cons c a t b : merged (c :: a) (t :: b) =
  if store_first direction (sto_key t) c.1.1 then store_out t ++ merged (c :: a) b
  else ccm_out c ++ merged a (if key_eqb (key_of_bytes (sto_key t)) (key_of_bytes c.1.1) then b else t :: b).
Proof. done. Qed.

End Merged.

(** ** Fetching a tuple *)

Section Fetch.

Context {S : Type} `{!TxService S, !TxLaws S, !ScanService S, !ScanLaws S}.

Definition batch_left (cc : ccm_state) : list ScanBatchTuple := from_idx cc (scan_batch_ cc).

(** The current position is in the batch, or no batch was fetched yet. *)
Definition idx_ok (cc : ccm_state) : Prop :=
  0 <= scan_batch_idx_ cc /\ Z.of_nat (length (scan_batch_ cc)) < UINT64_MAX /\
  (scan_batch_idx_ cc <= Z.of_nat (length (scan_batch_ cc)) \/ scan_batch_idx_ cc = UINT64_MAX).

Lemma batch_left_step cc c : idx_ok cc ->
  match batch_left cc with
  | [] => Z.of_nat (length (scan_batch_ cc)) <= scan_batch_idx_ cc
  | t :: rest => scan_batch_idx_ cc < Z.of_nat (length (scan_batch_ cc)) /\
      at_index (scan_batch_ cc) (scan_batch_idx_ cc) = Some t /\
      batch_left (set_idx (scan_batch_idx_ cc + 1) (set_ccm c cc)) = rest
  end.
Proof.
  intros (H0 & Hl & _). unfold batch_left, from_idx, at_index. simpl.
  destruct (Z.ltb_spec (scan_batch_idx_ cc) (Z.of_nat (length (scan_batch_ cc)))) as [Hlt|]; [|lia].
  rewrite (proj2 (Z.leb_le _ _)) by lia. cbn [andb].
  destruct (drop (Z.to_nat (scan_batch_idx_ cc)) (scan_batch_ cc)) as [|t rest] eqn:Ed.
  { apply (f_equal length) in Ed. rewrite length_drop in Ed. simpl in Ed. lia. }
  split_and!; [done| |].
  - rewrite <- (take_drop (Z.to_nat (scan_batch_idx_ cc)) (scan_batch_ cc)), Ed.
    rewrite lookup_app_r by (rewrite length_take; lia). rewrite length_take.
    replace (_ - _)%nat with 0%nat by lia. done.
  - destruct (Z.ltb_spec (scan_batch_idx_ cc + 1) (Z.of_nat (length (scan_batch_ cc)))).
    + replace (Z.to_nat (scan_batch_idx_ cc + 1)) with (Z.to_nat (scan_batch_idx_ cc) + 1)%nat by lia.
      rewrite <- drop_drop, Ed. done.
    + apply (f_equal length) in Ed. rewrite length_drop in Ed. simpl in Ed. destruct rest; [done|simpl in Ed; lia].
Qed.

(** The four cases of [fetch_tuple]: the tuple is there already, it comes from
    the batch, from a new batch, or there is none. *)
Record fetched (more : ccm_state -> bool) (s : S) (alias : Z) (cc : ccm_state) (s' : S) (cc' : ccm_state) : Prop := {
  fe_idx : idx_ok cc';
  fe_open : ccm_scan_open_ cc' = ccm_scan_open_ cc;
  fe_case :
    (ccm_scan_ cc <> None /\ cc' = cc /\ s' = s) \/
    (ccm_scan_ cc = None /\ exists t, batch_left cc = t :: batch_left cc' /\ ccm_scan_ cc' = Some (scan_tuple t) /\
       scan_batch_ cc' = scan_batch_ cc /\ is_last_scan_batch_ cc' = is_last_scan_batch_ cc /\
       at_index (scan_batch_ cc') (scan_batch_idx_ cc' - 1) = Some t /\ scan_batch_idx_ cc' <> UINT64_MAX /\ s' = s) \/
    (ccm_scan_ cc = None /\ batch_left cc = [] /\ more cc = true /\ scan_batch_idx_ cc' <> UINT64_MAX /\
       Z.of_nat (length (scan_batch_ cc') + DEFAULT_SCAN_TUPLE_SIZE) < UINT64_MAX /\
       unread s alias = scan_batch_ cc' ++ unread s' alias /\
       (is_last_scan_batch_ cc' = true \/ scan_batch_ cc' = [] -> unread s' alias = []) /\
       match scan_batch_ cc' with
       | [] => ccm_scan_ cc' = None /\ batch_left cc' = []
       | t :: rest => ccm_scan_ cc' = Some (scan_tuple t) /\ batch_left cc' = rest /\
           at_index (scan_batch_ cc') (scan_batch_idx_ cc' - 1) = Some t
       end) \/
    (ccm_scan_ cc = None /\ batch_left cc = [] /\ more cc = false /\ cc' = cc /\ s' = s)
}.

Lemma fetch_tuple_spec more s alias tn cc s' cc' err ts : idx_ok cc ->
  fetch_tuple more s alias tn cc = (s', cc', err, ts) ->
  same_data s s' /\
  match err with Some e => e <> NO_ERROR | None => fetched more s alias cc s' cc' end.
Proof.
  intros Hidx. unfold fetch_tuple. destruct (ccm_scan_ cc) as [c|] eqn:Ec.
  { intros [= <- <- <- <-]. split; [done|]. split; [done|done|]. left. by rewrite Ec. }
  pose proof (fun c => batch_left_step cc c Hidx) as Hb. destruct Hidx as (H0 & Hl & Hi).
  destruct (batch_left cc) as [|t rest] eqn:Eb.
  - specialize (Hb None). rewrite (proj2 (Z.ltb_ge _ _)) by lia. destruct (more cc) eqn:Em.
    + destruct (tx_ScanBatch s alias tn) as [s1 r] eqn:Er. apply law_ScanBatch in Er as [Hs Hr].
      destruct r as [e|[[|t batch] last]]; intros [= <- <- <- <-]; (split; [done|]); [done| |].
      * destruct Hr as (Hu & _ & Hlast). split; [by split_and!; [done|done|left]|done|].
        right. right. left. simpl. split_and!; try done.
      * destruct Hr as (Hu & Hlen & Hlast). cbn [length] in Hlen.
        assert (idx_ok (set_batch (t :: batch) 1 last (set_ccm (Some (scan_tuple t)) cc))) as Hok
          by (split_and!; simpl; [done|lia|left; lia]).
        split; [done|done|]. right. right. left. simpl. split_and!; try done.
        unfold batch_left, from_idx. simpl. destruct (Z.ltb_spec 1 (Z.of_nat (Datatypes.S (length batch)))); [done|].
        destruct batch; [done|simpl in *; lia].
    + intros [= <- <- <- <-]. split; [done|]. split; [done|done|]. right. right. right. done.
  - destruct (Hb (Some (scan_tuple t))) as (Hlt & Hat & Hrest). rewrite (proj2 (Z.ltb_lt _ _) Hlt), Hat.
    intros [= <- <- <- <-]. split; [done|]. split; [split_and!; simpl; [lia|done|left; lia]|done|].
    right. left. split; [done|]. exists t. rewrite Hrest. simpl. split_and!; try done.
    + by replace (scan_batch_idx_ cc + 1 - 1) with (scan_batch_idx_ cc) by lia.
    + lia.
Qed.

End Fetch.

(** ** The next tuple of the base table *)

Lemma convert_tx_error_nonzero e : e <> NO_ERROR -> convert_tx_error e <> 0.
Proof. by destruct e. Qed.

(** The end of a scan, as the calls report it. *)
Definition is_end (rc : Z) : bool := (rc =? HA_ERR_END_OF_FILE) || (rc =? HA_ERR_KEY_NOT_FOUND).

Lemma convert_not_end e : is_end (convert_tx_error e) = false.
Proof. by destruct e. Qed.

Section PkScan.

Context {S D : Type} `{!TxService S, !TxLaws S, !ScanService S, !ScanLaws S, !DataStoreScanner D, !ScannerLaws D}.
Context (env : ha_env) (decode_set : nat -> bool) (thd_killed : nat -> bool) (rec_addr : EloqRecord -> Z).
Context (direction : ScanDirection).

(** The tuples of the service that are still to be merged. *)
Definition ccm_list (more : ccm_state -> bool) (s : S) (alias : Z) (cc : ccm_state)
    : list (bytes * EloqRecord * RecordStatus) :=
  option_list (ccm_scan_ cc) ++ map scan_tuple (batch_left cc) ++
  (if more cc then map scan_tuple (unread s alias) else []).

Lemma pk_fetched s alias cc s' cc' : fetched more_pk s alias cc s' cc' ->
  ccm_list more_pk s' alias cc' = ccm_list more_pk s alias cc /\ ccm_scan_ cc' = head (ccm_list more_pk s alias cc).
Proof.
  intros [Hidx _ Hcase]. unfold ccm_list.
  destruct Hcase as [(Hc & -> & ->)|[(Hc & t & Hb & Hc' & Hbatch & Hlast & _ & Hi & ->)|
    [(Hc & Hb & Hm & Hi & _ & Hu & Hlast & Hbatch)|(Hc & Hb & Hm & -> & ->)]]].
  - by destruct (ccm_scan_ cc).
  - rewrite Hc, Hc', Hb. simpl. split; [|done]. do 2 f_equal.
    replace (more_pk cc') with (more_pk cc); [done|]. unfold more_pk. rewrite Hbatch, Hlast.
    rewrite (proj2 (Z.eqb_neq (scan_batch_idx_ cc') _)) by done.
    destruct (Z.eqb_spec (scan_batch_idx_ cc) UINT64_MAX) as [E|]; [|done].
    exfalso. unfold batch_left, from_idx in Hb. rewrite E in Hb. destruct Hidx as (_ & Hl & _). rewrite Hbatch in Hl.
    by rewrite (proj2 (Z.ltb_ge _ _)) in Hb by lia.
  - rewrite Hc, Hb, Hm, Hu. simpl. unfold more_pk. rewrite (proj2 (Z.eqb_neq (scan_batch_idx_ cc') _)) by done.
    destruct (scan_batch_ cc') as [|t rest].
    + destruct Hbatch as [-> ->]. rewrite Hlast by by right. by destruct (is_last_scan_batch_ cc').
    + destruct Hbatch as (-> & -> & _). simpl. rewrite map_app. split; [|done]. do 2 f_equal.
      destruct (is_last_scan_batch_ cc'); [|done]. by rewrite Hlast by by left.
  - by rewrite Hc, Hb, Hm.
Qed.

(** The data store scanner stands before [b]; [cs] is what was read of it. *)
Definition store_at (ss : store_state D) (cs : option store_tuple) (b : list store_tuple) : Prop :=
  match storage_scanner_ ss with
  | None => cs = None /\ b = []
  | Some d => if advance_storage_scanner_ ss then cs <> None /\ b = tail (contents d)
              else cs = head (contents d) /\ b = contents d
  end.

(** It stands at the first tuple of [b]. *)
Definition store_current (ss : store_state D) (b : list store_tuple) : Prop :=
  match storage_scanner_ ss with
  | None => b = []
  | Some d => advance_storage_scanner_ ss = false /\ b = contents d
  end.

Lemma advance_store_spec ss cs b : store_at ss cs b ->
  exists ss', advance_store ss cs = (ss', head b) /\ store_current ss' b.
Proof.
  unfold store_at, advance_store, store_current. destruct (storage_scanner_ ss) as [d|] eqn:Ed.
  - destruct (advance_storage_scanner_ ss) eqn:Ea; intros [Hcs ->].
    + eexists. rewrite law_Current, law_MoveNext. split; [reflexivity|]. simpl. by rewrite law_MoveNext.
    + exists ss. rewrite Hcs, Ed. done.
  - intros [-> ->]. exists ss. by rewrite Ed.
Qed.

Lemma store_current_at ss b : store_current ss b -> store_at ss (head b) b.
Proof.
  unfold store_current, store_at. destruct (storage_scanner_ ss); [|by intros ->]. by intros [-> ->].
Qed.

Lemma to_advance_at ss t b : store_current ss (t :: b) -> store_at (to_advance ss) (Some t) b.
Proof.
  unfold store_current, store_at. simpl. destruct (storage_scanner_ ss) as [d|]; [|done]. intros [_ Hb].
  by rewrite <- Hb.
Qed.

(** A state in the loop of [PkIndexScanNext]. *)
Record pk_at (st : ha_state S) (cur : cursor D) (cs : option store_tuple)
    (a : list (bytes * EloqRecord * RecordStatus)) (b : list store_tuple) : Prop := {
  pa_idx : idx_ok (ccm cur);
  pa_prefix : prefix_match_key_ cur = None;
  pa_direction : scan_direction_ cur = direction;
  pa_ccm : a = if ccm_scan_open_ (ccm cur) then ccm_list more_pk (txm st) (scan_alias_ cur) (ccm cur) else [];
  pa_store : store_at (store cur) cs b
}.

(** A state between two calls. *)
Definition pk_between (st : ha_state S) (cur : cursor D) a b : Prop := exists cs, pk_at st cur cs a b.

Lemma pk_between_start b0 st cur a b : pk_between st cur a b -> pk_between st (set_start b0 cur) a b.
Proof. intros (cs & [H1 H2 H3 H4 H5]). by exists cs. Qed.

Lemma first_store_spec ss cs b : store_at ss cs b ->
  exists ss', first_store ss = (ss', head b) /\ store_current ss' b.
Proof.
  unfold store_at, first_store, store_current. destruct (storage_scanner_ ss) as [d|] eqn:Ed.
  - destruct (advance_storage_scanner_ ss) eqn:Ea; intros [Hcs ->]; eexists; rewrite law_Current, ?law_MoveNext;
      (split; [reflexivity|]); simpl; by rewrite ?law_MoveNext.
  - intros [-> ->]. exists ss. by rewrite Ed.
Qed.

Lemma store_next_at ss t b : store_current ss (t :: b) ->
  exists ss', advance_store (to_advance ss) (Some t) = (ss', head b) /\ store_current ss' b.
Proof. intros H. apply advance_store_spec. by apply (to_advance_at ss t b). Qed.

(** What an iteration takes, and from where. *)
Inductive chosen (snapshot was_open : bool) (start_ts : Z) (cc : ccm_state) (ss : store_state D)
    (a : list (bytes * EloqRecord * RecordStatus)) (b : list store_tuple)
    : ccm_state * store_state D * option store_tuple * choice -> Prop :=
  | chosen_end : a = [] -> b = [] ->
      chosen snapshot was_open start_ts cc ss a b (cc, ss, None, if was_open then Exhausted else NoResult)
  | chosen_store t b' : b = t :: b' -> merged direction a b = store_out t ++ merged direction a b' ->
      chosen snapshot was_open start_ts cc ss a b (cc, to_advance ss, Some t, store_choice snapshot start_ts t)
  | chosen_ccm c a' b' ss' : a = c :: a' -> b' `suffix_of` b -> store_current ss' b' ->
      merged direction a b = ccm_out c ++ merged direction a' b' ->
      chosen snapshot was_open start_ts cc ss a b (set_ccm None cc, ss', head b', ccm_choice c).

Lemma choose_spec snapshot (was_open : bool) start_ts cc ss a b :
  (if was_open then ccm_scan_ cc = head a else a = []) -> store_current ss b ->
  chosen snapshot was_open start_ts cc ss a b (choose was_open snapshot start_ts direction cc ss (head b)).
Proof.
  intros Ha Hs. unfold choose. destruct was_open.
  - rewrite Ha. destruct a as [|c a], b as [|t b]; simpl head; cbv iota beta.
    + by constructor.
    + apply (chosen_store _ _ _ _ _ _ _ t b); [done|]. by rewrite !merged_nil_l.
    + apply (chosen_ccm _ _ _ _ _ _ _ c a [] ss); try done.
    + change (list.head (c :: a)) with (Some c). change (list.head (t :: b)) with (Some t). cbv iota beta.
      pose proof (merged_cons direction c a t b) as Hm. destruct (store_first direction (sto_key t) c.1.1).
      * by apply (chosen_store _ _ _ _ _ _ _ t b).
      * destruct (key_eqb _ _) eqn:Ek.
        -- destruct (store_next_at ss t b Hs) as (ss' & -> & Hs'). apply (chosen_ccm _ _ _ _ _ _ _ c a b ss'); try done.
           by exists [t].
        -- by apply (chosen_ccm _ _ _ _ _ _ _ c a (t :: b) ss).
  - subst a. destruct b as [|t b]; simpl head; cbv iota beta.
    + by apply (chosen_end _ false).
    + apply (chosen_store _ _ _ _ _ _ _ t b); [done|]. by rewrite !merged_nil_l.
Qed.

(** Tuples as they can be returned: present or deleted, visible, and such that
    the record can be decoded into a buffer of the right size. *)
Context (size : nat).

Definition decodable (k : bytes) (rec : EloqRecord) : Prop :=
  forall out, length out = size ->
    exists out', DecodeRecord env decode_set (rec_addr rec) out k rec = Some out' /\ length out' = size.

Record usable (snapshot : bool) (start_ts : Z) (a : list (bytes * EloqRecord * RecordStatus)) (b : list store_tuple)
    : Prop := {
  us_status : Forall (fun c => c.2 = RecordNormal \/ c.2 = RecordDeleted) a;
  us_visible : Forall (fun t => snapshot && (start_ts <? sto_version t) = false) b;
  us_decodable : Forall (fun kr => decodable kr.1 kr.2) (merged direction a b)
}.

(** The outcome of a call: the next tuple of the merge, the end of the scan,
    or an error. *)
Definition pk_outcome (snapshot : bool) (start_ts : Z) (a : list (bytes * EloqRecord * RecordStatus))
    (b : list store_tuple) (out : bytes) (st' : ha_state S) (cur' : cursor D) (rc : Z) (out' : bytes) : Prop :=
  (rc = 0 /\ exists k rec rest a' b', merged direction a b = (k, rec) :: rest /\
     DecodeRecord env decode_set (rec_addr rec) out k rec = Some out' /\ last_read_key_ st' = k /\
     pk_between st' cur' a' b' /\ merged direction a' b' = rest /\ usable snapshot start_ts a' b' /\
     (length a' + length b' < length a + length b)%nat /\ b' `suffix_of` b) \/
  (rc = HA_ERR_END_OF_FILE /\ merged direction a b = []) \/
  (rc <> 0 /\ is_end rc = false).

Lemma usable_store snapshot start_ts a t b' : usable snapshot start_ts a (t :: b') ->
  merged direction a (t :: b') = store_out t ++ merged direction a b' -> usable snapshot start_ts a b'.
Proof.
  intros [H1 H2 H3] Hm. split; [done|by apply Forall_cons_iff in H2 as [_ ?]|].
  rewrite Hm in H3. by apply Forall_app in H3 as [_ ?].
Qed.

Lemma usable_ccm snapshot start_ts c a' b b' : usable snapshot start_ts (c :: a') b -> b' `suffix_of` b ->
  merged direction (c :: a') b = ccm_out c ++ merged direction a' b' -> usable snapshot start_ts a' b'.
Proof.
  intros [H1 H2 H3] [pre ->] Hm. split; [by apply Forall_cons_iff in H1 as [_ ?]|by apply Forall_app in H2 as [_ ?]|].
  rewrite Hm in H3. by apply Forall_app in H3 as [_ ?].
Qed.

Lemma store_choice_cases snapshot start_ts t : snapshot && (start_ts <? sto_version t) = false ->
  store_choice snapshot start_ts t = Skip /\ store_out t = [] \/
  store_choice snapshot start_ts t = Result (sto_key t) (sto_record t) RecordNormal /\
    store_out t = [(sto_key t, sto_record t)].
Proof. intros H. unfold store_choice, store_out. rewrite H. destruct (sto_deleted t); auto. Qed.

Lemma ccm_choice_cases (c : bytes * EloqRecord * RecordStatus) : c.2 = RecordNormal \/ c.2 = RecordDeleted ->
  ccm_choice c = Skip /\ ccm_out c = [] \/
  ccm_choice c = Result c.1.1 c.1.2 RecordNormal /\ ccm_out c = [(c.1.1, c.1.2)].
Proof. destruct c as [[k r] status]. simpl. intros [-> | ->]; auto. Qed.

Abbreviation PkLoop := (PkScanLoop env decode_set thd_killed rec_addr).

(** A state after the service and the store gave their tuples. *)
Lemma pk_loop_step snapshot start_ts fuel i st cur cs a b out :
  pk_at st cur cs a b -> usable snapshot start_ts a b -> length out = size ->
  (exists st' cur' rc, PkLoop snapshot start_ts (Datatypes.S fuel) i st cur cs out = Some (st', cur', rc, out) /\
     rc <> 0 /\ is_end rc = false /\ same_data (txm st) (txm st')) \/
  (exists st' cur', PkLoop snapshot start_ts (Datatypes.S fuel) i st cur cs out = Some (st', cur', HA_ERR_END_OF_FILE, out) /\
     merged direction a b = [] /\ same_data (txm st) (txm st')) \/
  (exists st' cur' cs' a' b', same_data (txm st) (txm st') /\ pk_at st' cur' cs' a' b' /\ usable snapshot start_ts a' b' /\
     (length a' + length b' < length a + length b)%nat /\ b' `suffix_of` b /\
     ((merged direction a b = merged direction a' b' /\
       PkLoop snapshot start_ts (Datatypes.S fuel) i st cur cs out = PkLoop snapshot start_ts fuel (Datatypes.S i) st' cur' cs' out) \/
      (exists k rec out', merged direction a b = (k, rec) :: merged direction a' b' /\ length out' = size /\
         DecodeRecord env decode_set (rec_addr rec) out k rec = Some out' /\
         PkLoop snapshot start_ts (Datatypes.S fuel) i st cur cs out = Some (with_key k st', cur', 0, out')))).
Proof.
  intros [Hidx Hpre Hdir Ha Hst] Hus Hl. cbn [PkScanLoop]. destruct (thd_killed i).
  { left. exists st, cur, HA_ERR_QUERY_INTERRUPTED. by split_and!. }
  destruct (advance_store_spec _ _ _ Hst) as (ss & -> & Hss). rewrite Hdir.
  set (was_open := ccm_scan_open_ (ccm cur)) in *.
  set (fetch := if was_open then _ else _). destruct fetch as [[[s cc] err] ts] eqn:Ef.
  assert (same_data (txm st) s /\ match err with Some e => e <> NO_ERROR | None =>
    idx_ok cc /\ ccm_scan_open_ cc = was_open /\
    (if was_open then ccm_scan_ cc = head a /\ a = ccm_list more_pk s (scan_alias_ cur) cc else a = []) end) as [Hs Hcc].
  { unfold fetch in Ef. destruct was_open eqn:Eo.
    - apply fetch_tuple_spec in Ef as [Hs Hf]; [|done]. split; [done|]. destruct err; [done|].
      destruct (pk_fetched _ _ _ _ _ Hf) as [Hlist Hhead]. destruct Hf as [Hi Ho _]. rewrite Ha.
      split_and!; [done|by rewrite Ho|done|done].
    - injection Ef as <- <- <- <-. done. }
  clear Ef fetch. destruct err as [e|].
  { left. do 3 eexists. split; [reflexivity|]. split_and!; [by apply convert_tx_error_nonzero|apply convert_not_end|done]. }
  destruct Hcc as (Hidx' & Ho & Hlist). clearbody was_open. clear Ha.
  set (cc1 := if was_open && bool_decide (ccm_scan_ cc = None) then set_open false cc else cc).
  assert (idx_ok cc1 /\ (if was_open then ccm_scan_ cc1 = head a else a = []) /\
    a = (if ccm_scan_open_ cc1 then ccm_list more_pk s (scan_alias_ cur) cc1 else []) /\
    (was_open = false -> ccm_scan_open_ cc1 = false)) as (Hi1 & Hh1 & Ha1 & Ho1).
  { unfold cc1. destruct was_open; cbn [andb]; [|by rewrite Ho]. destruct Hlist as [Hh Ha].
    destruct (bool_decide_reflect (ccm_scan_ cc = None)) as [E|]; [|by rewrite Ho].
    split_and!; [done|done| |done]. simpl. destruct a; [done|]. by rewrite Hh in E. }
  clearbody cc1. clear cc Hidx' Ho Hlist.
  destruct (choose_spec snapshot was_open start_ts cc1 ss a b Hh1 Hss) as [Ea Eb|t b' Eb Hm|c a' b' ss' Ea Hsuf Hss' Hm].
  - right. left. subst b. rewrite Ea. destruct was_open; [by do 2 eexists|]. rewrite Ho1 by done. by do 2 eexists.
  - right. right. exists (with_txm s st), (set_scan cc1 (to_advance ss) cur), (Some t), a, b'. subst b.
    split_and!; [done| |by eapply usable_store|simpl; lia|by exists [t]|].
    { split; try done. by apply to_advance_at. }
    rewrite bool_decide_true, orb_true_r by done.
    destruct (store_choice_cases snapshot start_ts t) as [[-> Ho]|[-> Ho]].
    { by destruct Hus as [_ [? _]%Forall_cons_iff _]. }
    + left. by rewrite Hm, Ho.
    + right. pose proof (us_decodable _ _ _ _ Hus) as Hd. rewrite Hm, Ho in Hd. apply Forall_cons_iff in Hd as [Hd _].
      destruct (Hd out Hl) as (out' & E & Hl'). cbn [fst snd] in E. exists (sto_key t), (sto_record t), out'. rewrite Hm, Ho.
      split_and!; [done|done|done|]. unfold prefix_mismatch. simpl. by rewrite Hpre, E.
  - right. right. destruct (ccm_scan_open_ cc1) eqn:Eo; [|congruence].
    destruct was_open; [|congruence]. rewrite Ea in Ha1, Hh1, Hus, Hm |- *. clear a Ea.
    exists (with_txm s st), (set_scan (set_ccm None cc1) ss' cur), (head b'), a', b'.
    split_and!; [done| |by apply (usable_ccm snapshot start_ts c a' b b')| |done|].
    { split; try done; [|by apply store_current_at]. simpl. rewrite Eo. unfold ccm_list in Ha1 |- *.
      rewrite Hh1 in Ha1. simpl in Ha1. by injection Ha1. }
    { apply suffix_length in Hsuf. simpl. lia. }
    cbn [ccm_scan_open_ set_ccm]. rewrite Eo. cbn [orb].
    destruct (ccm_choice_cases c) as [[-> Hc]|[-> Hc]].
    { by destruct Hus as [[? _]%Forall_cons_iff _ _]. }
    + left. by rewrite Hm, Hc.
    + right. pose proof (us_decodable _ _ _ _ Hus) as Hd. rewrite Hm, Hc in Hd. apply Forall_cons_iff in Hd as [Hd _].
      destruct (Hd out Hl) as (out' & E & Hl'). cbn [fst snd] in E. exists c.1.1, c.1.2, out'. rewrite Hm, Hc.
      split_and!; [done|done|done|]. unfold prefix_mismatch. simpl. by rewrite Hpre, E.
Qed.

(** With enough fuel the loop returns. *)
Lemma pk_loop_spec snapshot start_ts fuel i st cur cs a b out :
  (length a + length b < fuel)%nat -> pk_at st cur cs a b -> usable snapshot start_ts a b -> length out = size ->
  exists st' cur' rc out', PkLoop snapshot start_ts fuel i st cur cs out = Some (st', cur', rc, out') /\
    same_data (txm st) (txm st') /\ length out' = size /\ pk_outcome snapshot start_ts a b out st' cur' rc out'.
Proof.
  revert i st cur cs a b. induction fuel as [|fuel IH]; intros i st cur cs a b Hf Hat Hus Hl; [lia|].
  destruct (pk_loop_step snapshot start_ts fuel i st cur cs a b out Hat Hus Hl)
    as [(st' & cur' & rc & -> & H0 & He & Hs)|[(st' & cur' & -> & Hm & Hs)|
        (st' & cur' & cs' & a' & b' & Hs & Hat' & Hus' & Hlen & Hsuf & [[Hm ->]|(k & rec & out' & Hm & Hl' & Hd & ->)])]].
  - exists st', cur', rc, out. split_and!; try done. right. by right.
  - exists st', cur', HA_ERR_END_OF_FILE, out. split_and!; try done. right. by left.
  - destruct (IH (Datatypes.S i) st' cur' cs' a' b') as (st2 & cur2 & rc & out' & -> & Hs2 & Hl' & Ho); [lia|done|done|done|].
    exists st2, cur2, rc, out'. split_and!; [done|by eapply same_data_trans|done|]. unfold pk_outcome in *. rewrite Hm.
    destruct Ho as [(-> & k & rec & rest & a2 & b2 & ? & ? & ? & ? & ? & ? & ? & ?)|Ho]; [|by right]. left. split; [done|].
    exists k, rec, rest, a2, b2. split_and!; try done; [lia|by trans b'].
  - exists (with_key k st'), cur', 0, out'. split_and!; [done|done|done|]. left. split; [done|].
    exists k, rec, (merged direction a' b'), a', b'. split_and!; try done. exists cs'. by destruct Hat'.
Qed.

Abbreviation PkNext := (PkIndexScanNext env decode_set thd_killed rec_addr).

Lemma PkIndexScanNext_spec fuel st cur a b out :
  (length a + length b < fuel)%nat -> pk_between st cur a b ->
  usable (is_snapshot_read env (txm st)) (tx_start_ts (txm st)) a b -> length out = size ->
  exists st' cur' rc out', PkNext fuel st cur out = Some (st', cur', rc, out') /\
    same_data (txm st) (txm st') /\ length out' = size /\
    pk_outcome (is_snapshot_read env (txm st)) (tx_start_ts (txm st)) a b out st' cur' rc out'.
Proof.
  intros Hf (cs & [Hi Hp Hd Ha Hst]) Hus Hl. unfold PkIndexScanNext.
  destruct (first_store_spec _ _ _ Hst) as (ss & -> & Hss).
  apply (pk_loop_spec _ _ fuel 0 st _ (head b) a b out); try done. split; try done. by apply store_current_at.
Qed.

End PkScan.

(** ** Reading until the end *)

Section ReadRows.

Context {S D : Type} `{!TxService S, !TxLaws S}.
Context (env : ha_env) (decode_set : nat -> bool) (rec_addr : EloqRecord -> Z) (size : nat).

Abbreviation result := (option (ha_state S * cursor D * Z * bytes)).

(** The rows read, as keys and records, and the last return code. *)
Abbreviation rows_result := (option (list (bytes * bytes) * Z * ha_state S * cursor D)).

(** After a call that returned 0 the server goes on. *)
Definition go_on (r : result) (rest : ha_state S -> cursor D -> bytes -> rows_result) : rows_result :=
  match r with
  | None => None
  | Some (st, cur, rc, out) =>
      if rc =? 0 then
        match rest st cur out with
        | Some (rows, rc, st', cur') => Some ((last_read_key_ st, out) :: rows, rc, st', cur')
        | None => None
        end
      else Some ([], rc, st, cur)
  end.

Fixpoint read_rows (next : ha_state S -> cursor D -> bytes -> result) (n : nat) (st : ha_state S) (cur : cursor D)
    (out : bytes) : rows_result :=
  match n with
  | O => Some ([], 0, st, cur)
  | Datatypes.S n => go_on (next st cur out) (read_rows next n)
  end.

(** [row] is what a record decodes to. *)
Definition decoded_to (row : bytes * bytes) (kr : bytes * EloqRecord) : Prop :=
  row.1 = kr.1 /\ exists out, length out = size /\ DecodeRecord env decode_set (rec_addr kr.2) out kr.1 kr.2 = Some row.2.

(** A call that returns the first of the records [l], in a state where [inv]
    holds for the others. *)
Definition next_of (inv : ha_state S -> cursor D -> list (bytes * EloqRecord) -> Prop) (s : S)
    (l : list (bytes * EloqRecord)) (r : result) : Prop :=
  exists st cur rc out, r = Some (st, cur, rc, out) /\ same_data s (txm st) /\ length out = size /\
    (rc = 0 /\ (exists kr l', l = kr :: l' /\ decoded_to (last_read_key_ st, out) kr /\ inv st cur l') \/
     is_end rc = true /\ l = [] \/
     rc <> 0 /\ is_end rc = false).

(** What is read of the records [l]: a prefix, and all when the end is
    reported; the end, or an error, is reached after at most [n] calls. *)
Definition all_of (l : list (bytes * EloqRecord)) (n : nat) (s : S)
    (r : rows_result) : Prop :=
  exists rows rc st cur, r = Some (rows, rc, st, cur) /\ same_data s (txm st) /\
    (exists rest, Forall2 decoded_to rows (take (length rows) l) /\ l = take (length rows) l ++ rest /\
       (is_end rc = true -> rest = [])) /\
    ((length l < n)%nat -> rc <> 0).

Lemma next_of_same inv s s' l r : same_data s s' -> next_of inv s' l r -> next_of inv s l r.
Proof.
  intros Hs (st & cur & rc & out & E & Hs' & H). exists st, cur, rc, out. split; [done|]. split; [|done].
  by eapply same_data_trans.
Qed.

Lemma is_end_nonzero rc : is_end rc = true -> rc <> 0.
Proof. intros H ->. done. Qed.

Lemma go_on_spec inv l n s r rest : next_of inv s l r ->
  (forall st cur out l', inv st cur l' -> length out = size -> all_of l' n (txm st) (rest st cur out)) ->
  all_of l (Datatypes.S n) s (go_on r rest).
Proof.
  intros (st1 & cur1 & rc & out1 & -> & Hs & Hl1 & Hc) Hrest. unfold go_on.
  destruct Hc as [(-> & kr & l' & -> & Hd & Hi1)|[[He ->]|[H0 He]]].
  - simpl Z.eqb. cbv iota.
    destruct (Hrest st1 cur1 out1 l' Hi1 Hl1) as (rows & rc & st2 & cur2 & -> & Hs2 & (more & HF & Hr & He) & Hn).
    do 4 eexists. split; [reflexivity|]. split; [by eapply same_data_trans|]. simpl. split; [|lia].
    exists more. split_and!; [by constructor|by f_equal|done].
  - pose proof (is_end_nonzero _ He). rewrite (proj2 (Z.eqb_neq _ _)) by done. do 4 eexists. split; [reflexivity|].
    split_and!; [done| |done]. by exists [].
  - rewrite (proj2 (Z.eqb_neq _ _)) by done. do 4 eexists. split; [reflexivity|].
    split_and!; [done| |done]. exists l. split_and!; [done|done|]. by rewrite He.
Qed.

Lemma read_rows_spec inv next n l st cur out :
  (forall st cur out l, inv st cur l -> length out = size -> next_of inv (txm st) l (next st cur out)) ->
  inv st cur l -> length out = size -> all_of l n (txm st) (read_rows next n st cur out).
Proof.
  intros Hnext. revert l st cur out. induction n as [|n IH]; intros l st cur out Hi Hl; cbn [read_rows].
  - exists [], 0, st, cur. split_and!; [done|done| |lia]. by exists l.
  - apply (go_on_spec inv); [by apply Hnext|]. intros st' cur' out' l'. apply IH.
Qed.

End ReadRows.

(** ** The rows of the table *)

Lemma StronglySorted_sublist {A} (R : A -> A -> Prop) l k : l `sublist_of` k -> StronglySorted R k -> StronglySorted R l.
Proof.
  induction 1 as [|x l k Hs IH|x l k Hs IH]; intros H; [done| |].
  - apply StronglySorted_inv in H as [H1 H2]. constructor; [by apply IH|].
    rewrite Forall_forall in *. intros y Hy. apply H2. apply list_elem_of_In. apply list_elem_of_In in Hy.
    by eapply elem_of_sublist.
  - apply StronglySorted_inv in H as [H1 _]. by apply IH.
Qed.

(** The records of the tuples that are not deleted. *)
Definition present (l : list ScanBatchTuple) : list (bytes * EloqRecord) := flat_map ccm_out (map scan_tuple l).

Lemma present_sublist l : map fst (present l) `sublist_of` map tu_key l.
Proof.
  induction l as [|tu l IH]; [done|]. unfold present. cbn [map flat_map]. unfold ccm_out at 1. simpl.
  destruct (tu_status tu); simpl; by constructor.
Qed.

Lemma present_elem l k rec : (k, rec) ∈ present l <->
  exists tu, tu ∈ l /\ tu_key tu = k /\ tu_record tu = rec /\ tu_status tu = RecordNormal.
Proof.
  unfold present. rewrite list_elem_of_In, in_flat_map. split.
  - intros (c & Hc & Hin). apply in_map_iff in Hc as (tu & <- & Htu). unfold ccm_out in Hin. simpl in Hin.
    exists tu. rewrite list_elem_of_In. destruct (tu_status tu); simpl in Hin; try done.
    destruct Hin as [[= <- <-]|[]]. done.
  - intros (tu & Htu & <- & <- & Hs). exists (scan_tuple tu). split.
    + apply in_map. by apply list_elem_of_In.
    + unfold ccm_out. simpl. rewrite Hs. by left.
Qed.

Lemma length_present l : (length (present l) <= length l)%nat.
Proof. pose proof (sublist_length _ _ (present_sublist l)) as H. by rewrite !length_map in H. Qed.

Section Table.

Context {S D : Type} `{!TxService S, !TxLaws S, !ScanService S, !ScanLaws S, !DataStoreScanner D, !ScannerLaws D}.
Context (env : ha_env) (decode_set : nat -> bool) (thd_killed : nat -> bool) (rec_addr : EloqRecord -> Z).
Context (mem' : Z -> bytes) (good : bytes -> bytes -> Prop) (rows : gmap bytes bytes).

Abbreviation size := (length (default_values (ha_table env))).

(** The records of the rows can be decoded. *)
Definition rows_decodable : Prop :=
  forall k buf rec out, rows !! k = Some buf -> row_record env buf = Some rec -> length out = size ->
    exists out', DecodeRecord env decode_set (rec_addr rec) out k rec = Some out' /\ length out' = size /\
      shown env decode_set mem' buf out'.

(** The rows with [sel], each once, have been read when the end is reported,
    and no others; each has its requested columns in the record buffer. *)
Record scanned (sel : bytes -> bytes -> Prop) (outs : list (bytes * bytes)) (rc : Z) : Prop := {
  sd_once : NoDup (map fst outs);
  sd_row k out : (k, out) ∈ outs -> exists buf, rows !! k = Some buf /\ sel k buf /\ shown env decode_set mem' buf out;
  sd_all : is_end rc = true -> forall k buf, rows !! k = Some buf -> sel k buf -> k ∈ map fst outs
}.

Context (Hdec : rows_decodable).

Lemma Forall2_fst {B C : Type} (P : bytes * B -> bytes * C -> Prop) l k : (forall x y, P x y -> x.1 = y.1) -> Forall2 P l k ->
  map fst l = map fst k.
Proof. intros HP. induction 1 as [|x y l k Hxy _ IH]; [done|]. cbn [map]. by rewrite IH, (HP _ _ Hxy). Qed.

(** Records [l] of rows with [sel]. *)
Lemma scanned_all sel l n s r : NoDup (map fst l) ->
  (forall k rec, (k, rec) ∈ l -> exists buf, rows !! k = Some buf /\ row_record env buf = Some rec /\ sel k buf) ->
  (forall k buf, rows !! k = Some buf -> sel k buf -> k ∈ map fst l) ->
  all_of (D := D) env decode_set rec_addr size l n s r ->
  exists outs rc st cur, r = Some (outs, rc, st, cur) /\ same_data s (txm st) /\ scanned sel outs rc /\
    map fst outs `prefix_of` map fst l /\ ((length l < n)%nat -> rc <> 0).
Proof.
  intros Hnd Hl Hall (outs & rc & st & cur & -> & Hs & (rest & HF & Hr & He) & Hn).
  exists outs, rc, st, cur.
  assert (map fst outs = map fst (take (length outs) l)) as Hk by (by apply (Forall2_fst _ _ _ (fun _ _ H => proj1 H) HF)).
  assert (map fst outs `prefix_of` map fst l) as Hpre.
  { rewrite Hk, <- firstn_map. apply prefix_take. }
  split_and!; [done|done| |done|done]. split.
  - eapply sublist_NoDup; [exact Hnd|]. destruct Hpre as [more ->]. by apply sublist_inserts_r.
  - intros k out Hin. apply list_elem_of_lookup in Hin as [i Hi].
    destruct (Forall2_lookup_l _ _ _ _ _ HF Hi) as ([k' rec] & Hi' & Hkey & out0 & Hl0 & Hdo). simpl in *. subst k'.
    assert ((k, rec) ∈ l) as Hin by (rewrite Hr; apply elem_of_app; left; by eapply list_elem_of_lookup_2).
    destruct (Hl k rec Hin) as (buf & Hb & Hrec & Hsel). exists buf. split_and!; [done|done|].
    destruct (Hdec k buf rec out0 Hb Hrec Hl0) as (out' & Ho & _ & Hsh). rewrite Hdo in Ho. by injection Ho as ->.
  - intros Hend k buf Hb Hsel. rewrite Hk. specialize (He Hend). subst rest. rewrite app_nil_r in Hr. rewrite <- Hr.
    by apply (Hall k buf).
Qed.

(** *** The base table *)

Abbreviation PkNext := (PkIndexScanNext env decode_set thd_killed rec_addr).

(** A scan of the base table before the records [l]. *)
Definition pk_scan_at (direction : ScanDirection) (fuel : nat) (st : ha_state S) (cur : cursor D)
    (l : list (bytes * EloqRecord)) : Prop :=
  exists a, pk_between direction st cur a [] /\ l = flat_map ccm_out a /\ (length a < fuel)%nat /\
    Forall (fun c => c.2 = RecordNormal \/ c.2 = RecordDeleted) a /\
    Forall (fun kr => decodable env decode_set rec_addr size kr.1 kr.2) l.

Lemma pk_next direction fuel st cur out l : pk_scan_at direction fuel st cur l -> length out = size ->
  next_of env decode_set rec_addr size (pk_scan_at direction fuel) (txm st) l (PkNext fuel st cur out).
Proof.
  intros (a & Hb & -> & Hf & Hst & Hd) Hl.
  assert (usable env decode_set rec_addr direction size (is_snapshot_read env (txm st)) (tx_start_ts (txm st)) a []) as Hus.
  { split; [done|done|]. by rewrite merged_nil_r. }
  destruct (PkIndexScanNext_spec env decode_set thd_killed rec_addr direction size fuel st cur a [] out)
    as (st' & cur' & rc & out' & E & Hs & Hl' & Ho); [simpl; lia|done|done|done|].
  exists st', cur', rc, out'. split_and!; [done|done|done|]. rewrite <- (merged_nil_r direction).
  destruct Ho as [(-> & k & rec & rest & a' & b' & Hm & Hdo & Hk & Hb' & Hm' & [Hst' Hv' Hd'] & Hlen & Hsuf)|[[-> Hm]|[H0 He]]].
  - left. split; [done|]. exists (k, rec), rest. split_and!; [done|split; [done|]; by exists out|].
    apply suffix_nil_inv in Hsuf as ->.
    exists a'. rewrite merged_nil_r in Hm', Hd'. split_and!; try done; [simpl in Hlen; lia|]. by rewrite <- Hm'.
  - right. by left.
  - right. by right.
Qed.

Lemma PkScanLoop_start snapshot start_ts fuel i st (cur : cursor D) cs out st' cur' rc out' :
  PkScanLoop env decode_set thd_killed rec_addr snapshot start_ts fuel i st cur cs out = Some (st', cur', rc, out') ->
  start_of_scan_ cur' = start_of_scan_ cur.
Proof.
  revert i st cur cs. induction fuel as [|fuel IH]; intros i st cur cs; [done|]. cbn [PkScanLoop].
  intros E. repeat case_match; simplify_eq/=; try done; by apply IH in E.
Qed.

(** A scan that can be opened: one that is still open can be closed. *)
Definition closable (cur : cursor D) : Prop := IndexScanIsOpen cur = false \/ is_Some (scan_table env cur).

(** The start of the range as [PrepareScan] finds it: it is lost when a scan has
    to be closed first. *)
Definition range_start (cur : cursor D) : option key_range := if IndexScanIsOpen cur then None else start_range_ptr_ cur.

Lemma close_if_open_spec st cur : closable cur ->
  exists st' cur', close_if_open env st cur = Some (st', cur') /\ same_data (txm st) (txm st') /\
    start_of_scan_ cur' = start_of_scan_ cur /\ (prefix_match_key_ cur = None -> prefix_match_key_ cur' = None) /\
    IndexScanIsOpen cur' = false /\ start_range_ptr_ cur' = range_start cur.
Proof.
  unfold close_if_open, closable, range_start. destruct (IndexScanIsOpen cur) eqn:Eo; intros [H|[tn Ht]]; try done.
  - unfold IndexScanClose. rewrite Ht. destruct (tx_CloseTxScan _ _ _ _) as [s u] eqn:Ec. apply law_CloseTxScan in Ec.
    by eexists _, _.
  - by exists st, cur.
  - by exists st, cur.
Qed.

Lemma scan_content_same s s' req l : same_data s s' -> scan_content s' req l -> scan_content s req l.
Proof.
  intros [Hc Hp] [H1 H2 H3 H4]. assert (forall tn key, view s' tn key = view s tn key) as Hv.
  { intros tn key. unfold view. by rewrite Hc, Hp. }
  split; [done|done| |].
  - intros tu Htu. rewrite <- Hv. by apply H3.
  - intros k rec. rewrite <- Hv. by apply H4.
Qed.

Lemma opened_between direction ai alias e pks st s (cur : cursor D) : 0 <= alias < UINT64_MAX -> prefix_match_key_ cur = None ->
  pk_between direction (with_txm s st) (opened ai alias direction e pks cur) (map scan_tuple (unread s alias)) [].
Proof. intros Ha Hp. exists None. split; try done. split_and!; [done|done|by right]. Qed.

Lemma PkIndexScanOpen_spec ai random_sort st cur start si e ei direction :
  closable cur -> prefix_match_key_ cur = None ->
  let req := pk_scan_request env ai decode_set random_sort start si e ei direction in
  exists st' cur' l, PkIndexScanOpen env ai decode_set random_sort st cur start si e ei direction = Some (st', cur') /\
    same_data (txm st) (txm st') /\ pk_between direction st' cur' (map scan_tuple l) [] /\
    start_of_scan_ cur' = start_of_scan_ cur /\
    (so_require_keys req = true -> so_require_recs req = true -> scan_content (txm st) req l).
Proof.
  intros Hc Hp req. unfold PkIndexScanOpen. destruct (close_if_open_spec st cur Hc) as (st1 & cur1 & -> & Hs & Hst & Hp1 & _).
  fold req. destruct (tx_OpenTxScan (txm st1) req) as [s alias] eqn:Eo. apply law_OpenTxScan in Eo as (Hs2 & Ha & Hcon).
  rewrite (proj2 (Z.eqb_neq _ _)) by lia. do 3 eexists. split; [reflexivity|].
  split_and!; [by eapply same_data_trans|by apply opened_between; auto|done|].
  intros Hk Hr. eapply scan_content_same; [exact Hs|]. by apply Hcon.
Qed.

(** The tuples of a scan of the base table are the rows in the range. *)
Lemma base_content s req l : consistent env good rows s -> so_table req = base_table_name env -> scan_content s req l ->
  NoDup (map fst (present l)) /\
  (forall k rec, (k, rec) ∈ present l ->
     exists buf, rows !! k = Some buf /\ row_record env buf = Some rec /\ requested_key req k) /\
  (forall k buf, rows !! k = Some buf -> requested_key req k -> k ∈ map fst (present l)).
Proof.
  intros Hco Ht [H1 H2 H3 H4]. rewrite Ht in *. split_and!.
  - eapply sublist_NoDup; [exact H1|apply present_sublist].
  - intros k rec (tu & Htu & <- & <- & Hn)%present_elem. destruct (H3 tu Htu) as [Hdel|(_ & Hv & Hreq)]; [congruence|].
    rewrite (co_base _ _ _ _ Hco) in Hv. destruct (rows !! tu_key tu) as [buf|]; [|done]. by exists buf.
  - intros k buf Hk Hreq. destruct (co_record _ _ _ _ Hco k buf Hk) as [rec Hrec].
    destruct (H4 k rec) as (tu & Htu & <- & Hn); [by rewrite (co_base _ _ _ _ Hco), Hk|done|].
    apply list_elem_of_fmap. exists (tu_key tu, tu_record tu). split; [done|]. apply present_elem. by exists tu.
Qed.

(** What is read of the tuples of a scan. *)
Lemma base_scanned s req l (sel : bytes -> bytes -> Prop) n r : consistent env good rows s ->
  so_table req = base_table_name env -> scan_content s req l ->
  (forall k buf, rows !! k = Some buf -> requested_key req k <-> sel k buf) ->
  all_of (D := D) env decode_set rec_addr size (present l) n s r ->
  exists outs rc st cur, r = Some (outs, rc, st, cur) /\ same_data s (txm st) /\ scanned sel outs rc /\
    (so_require_sort req = true -> StronglySorted (key_before (so_direction req)) (map fst outs)) /\
    ((length l < n)%nat -> rc <> 0).
Proof.
  intros Hco Ht Hcon Hsel Hall. destruct (base_content s req l Hco Ht Hcon) as (Hnd & Hrow & Hrows).
  edestruct (scanned_all sel (present l)) as (outs & rc & st & cur & -> & Hs & Hsc & [more Hpre] & Hn); [done| | |exact Hall|].
  - intros k rec Hin. destruct (Hrow k rec Hin) as (buf & Hk & Hrec & Hreq). exists buf. by rewrite <- Hsel.
  - intros k buf Hk Hs. apply (Hrows k buf Hk). by apply (Hsel k buf).
  - exists outs, rc, st, cur. split_and!; [done|done|done| |intros Hlt; apply Hn; pose proof (length_present l); lia].
    intros Hsort. apply (StronglySorted_sublist _ _ (map tu_key l)); [|by apply (sc_sorted _ _ _ Hcon)].
    trans (map fst (present l)); [|apply present_sublist]. rewrite Hpre. by apply sublist_inserts_r.
Qed.

(** *** The whole table *)

(** A scan of the whole table that was started, before the records [l]. *)
Definition rnd_at (fuel : nat) (st : ha_state S) (cur : cursor D) (l : list (bytes * EloqRecord)) : Prop :=
  pk_scan_at Forward fuel st cur l /\ start_of_scan_ cur = false.

Lemma rnd_at_next fuel st cur out l : rnd_at fuel st cur l -> length out = size ->
  next_of env decode_set rec_addr size (rnd_at fuel) (txm st) l (PkNext fuel st cur out).
Proof.
  intros [Hat Hst] Hl. destruct (pk_next Forward fuel st cur out l Hat Hl) as (st' & cur' & rc & out' & E & Hs & Hl' & Hc).
  exists st', cur', rc, out'. split_and!; [done|done|done|]. destruct Hc as [(-> & kr & l' & -> & Hd & Hat')|Hc]; [|by right].
  left. split; [done|]. exists kr, l'. split_and!; [done|done|]. split; [done|]. revert E. unfold PkIndexScanNext.
  destruct (first_store (store cur)) as [ss cs]. intros E%PkScanLoop_start. by rewrite E.
Qed.

(** What can be read of the tuples of a scan. *)
Lemma content_at direction fuel s req st cur l : consistent env good rows s -> so_table req = base_table_name env ->
  scan_content s req l -> pk_between direction st cur (map scan_tuple l) [] -> (length l < fuel)%nat ->
  pk_scan_at direction fuel st cur (present l).
Proof.
  intros Hco Ht Hcon Hb Hf. pose proof Hcon as [_ _ Htu _]. destruct (base_content s req l Hco Ht Hcon) as (_ & Hrow & _).
  exists (map scan_tuple l). split_and!; [done|done|by rewrite length_map| |].
  - rewrite Forall_forall. intros c (tu & <- & Hin)%in_map_iff. apply list_elem_of_In in Hin.
    destruct (Htu tu Hin) as [?|[? _]]; [by right|by left].
  - rewrite Forall_forall. intros [k rec] Hin%list_elem_of_In out Hl. destruct (Hrow k rec Hin) as (buf & Hk & Hrec & _).
    destruct (Hdec k buf rec out Hk Hrec Hl) as (out' & ? & ? & _). by exists out'.
Qed.

Lemma requested_everything req k : so_start req = NegativeInfinity -> so_end req = None -> so_direction req = Forward ->
  requested_key req k.
Proof. intros E1 E2 E3. unfold requested_key, key_past. rewrite E1, E2, E3. split; [by left|done]. Qed.

End Table.

(** ** Tables that can be read *)

(** Every record that is stored for a row can be decoded: its columns hold
    values, and the payload of the record lies in memory. *)
Inductive readable_table (env : ha_env) (defs : target -> index_def) (mem' : Z -> bytes) (rec_addr : EloqRecord -> Z)
    (rows : gmap bytes bytes) : (bytes -> bytes -> Prop) -> Prop :=
  | readable_primary uninit pkd0 pk pk_cols :
      table_ready uninit env pkd0 pk pk_cols defs -> row_readable env pk_cols ->
      (forall k buf rec, rows !! k = Some buf -> row_record env buf = Some rec ->
         row_storable env pk_cols buf /\ Z.of_nat (length (unpack_info_ rec)) < 65536 /\ payload_at mem' (rec_addr rec) rec) ->
      readable_table env defs mem' rec_addr rows (row_good env pk_cols defs)
  | readable_hidden uninit :
      hidden_ready uninit env defs -> hidden_readable env ->
      (forall k buf rec, rows !! k = Some buf -> row_record env buf = Some rec ->
         Forall (Row.column_ok (ha_mem env) buf) (Row.payload 0 (ha_fields env)) /\ payload_at mem' (rec_addr rec) rec) ->
      readable_table env defs mem' rec_addr rows (hidden_good env defs).

Lemma readable_rows {S : Type} `{!TxService S, !TxLaws S} env defs mem' rec_addr rows good (s : S) decode_set :
  readable_table env defs mem' rec_addr rows good -> consistent env good rows s ->
  rows_decodable env decode_set rec_addr mem' rows.
Proof.
  intros Hrt Hco k buf rec out Hk Hrec Hl. destruct Hrt as [uninit pkd0 pk pk_cols Hr Hread Hall|uninit Hr Hread Hall].
  - destruct (Hall k buf rec Hk Hrec) as (Hst & Hw & Hat). destruct (co_good _ _ _ _ Hco k buf Hk) as [-> _].
    by apply (DecodeRecord_shown uninit env pkd0 pk pk_cols (tr_pk _ _ _ _ _ _ Hr) (tr_pk_setup _ _ _ _ _ _ Hr)).
  - destruct (Hall k buf rec Hk Hrec) as (Hst & Hat). by apply DecodeRecord_hidden.
Qed.

(** C15: a scan of the whole table returns every row once.  Reading with
    [rnd_init] and [rnd_next] returns rows of the table, no row twice, each
    with its requested columns in the record buffer; when the end is reported
    all rows have been returned; and after finitely many calls the end or an
    error is reported. *)
Theorem rnd_scan_correct {S D : Type} `{!TxService S, !TxLaws S, !ScanService S, !ScanLaws S, !DataStoreScanner D, !ScannerLaws D}
    (env : ha_env) (defs : target -> index_def) (good : bytes -> bytes -> Prop) (rows : gmap bytes bytes) mem' rec_addr ai decode_set random_sort
    thd_killed
    (st : ha_state S) (cur : cursor D) (out : bytes) :
  readable_table env defs mem' rec_addr rows good -> consistent env good rows (txm st) ->
  closable env cur -> prefix_match_key_ cur = None -> decodes env decode_set = true ->
  length out = length (default_values (ha_table env)) ->
  exists bound, forall fuel n, (bound < fuel)%nat ->
    exists outs rc st' cur',
      read_rows (rnd_next env ai decode_set random_sort thd_killed rec_addr fuel) n st (rnd_init cur) out =
        Some (outs, rc, st', cur') /\
      same_data (txm st) (txm st') /\ scanned env decode_set mem' rows (fun _ _ => True) outs rc /\
      ((bound < n)%nat -> rc <> 0).
Proof.
  intros Hrt Hco Hc Hp Hd Hl. pose proof (readable_rows env defs mem' rec_addr rows good _ decode_set Hrt Hco) as Hdec.
  destruct (PkIndexScanOpen_spec env decode_set ai random_sort st (rnd_init cur) NegativeInfinity false None false Forward Hc Hp)
    as (st1 & cur1 & l & E & Hs & Hb & Hst & Hcon). cbv zeta in Hcon. simpl in Hst.
  set (req := pk_scan_request _ _ _ _ _ _ _ _ _) in Hcon.
  assert (scan_content (txm st) req l) as Hcont by (apply Hcon; simpl; rewrite Hd; by rewrite ?orb_true_r).
  exists (length l). intros fuel n Hf.
  assert (all_of env decode_set rec_addr (length (default_values (ha_table env))) (present l) n (txm st)
    (read_rows (rnd_next env ai decode_set random_sort thd_killed rec_addr fuel) n st (rnd_init cur) out)) as Hall_of.
  { destruct n as [|n]; [|cbn [read_rows]; apply (go_on_spec env decode_set rec_addr _ (rnd_at env decode_set rec_addr fuel))].
    - exists [], 0, st, (rnd_init cur). split_and!; [done|done| |lia]. by exists (present l).
    - unfold rnd_next. simpl. rewrite E. apply (next_of_same _ _ _ _ _ _ (txm st1) _ _ Hs).
      apply (rnd_at_next env decode_set thd_killed rec_addr); [split; [|done]|done].
      apply (content_at env decode_set rec_addr mem' good rows Hdec Forward fuel (txm st) req); try done.
      by apply pk_between_start.
    - intros st2 cur2 out2 l2 H2 Hl2. apply (read_rows_spec _ _ _ _ (rnd_at env decode_set rec_addr fuel)); try done.
      clear. intros st cur out l Hat Hl. unfold rnd_next. rewrite (proj2 Hat). by apply rnd_at_next. }
  destruct (base_scanned env decode_set rec_addr mem' good rows Hdec (txm st) req l _ n _ Hco eq_refl Hcont
    (fun k buf _ => conj (fun _ => I) (fun _ => requested_everything req k eq_refl eq_refl eq_refl)) Hall_of)
    as (outs & rc & st' & cur' & Er & Hs' & Hsc & _ & Hn). by exists outs, rc, st', cur'.
Qed.


(** ** A store with one scan *)

Record scan_store := { sn_data : mem_store; sn_scan : list ScanBatchTuple }.

#[export] Instance scan_tx : TxService scan_store := {|
  tx_Read s req := let '(m, r) := tx_Read (sn_data s) req in ({| sn_data := m; sn_scan := sn_scan s |}, r);
  tx_ReadOutside s _ _ _ := s;
  tx_Upsert s tn v key rec op :=
    let '(m, e) := tx_Upsert (sn_data s) tn v key rec op in ({| sn_data := m; sn_scan := sn_scan s |}, e);
  tx_Revert s tn key := {| sn_data := tx_Revert (sn_data s) tn key; sn_scan := sn_scan s |};
  tx_is_snapshot _ := false;
  tx_start_ts _ := 1
|}.

#[export] Instance scan_tx_laws : TxLaws scan_store.
Proof.
  refine {| pending s := pending (sn_data s); committed s := committed (sn_data s) |}.
  - intros s req s' r E. unfold tx_Read, scan_tx in E. destruct (tx_Read (sn_data s) req) as [m r0] eqn:Em.
    injection E as <- <-. exact (law_read _ _ _ _ Em).
  - intros s tn v key rec op s' E. unfold tx_Upsert, scan_tx in E.
    destruct (tx_Upsert (sn_data s) tn v key rec op) as [m e] eqn:Em. injection E as <- ->. exact (law_upsert _ _ _ _ _ _ _ Em).
  - intros s tn key. exact (law_revert (sn_data s) tn key).
Defined.

(** The keys of a table. *)
Definition known_keys (m : mem_store) (tn : table_name) : list bytes :=
  remove_dups (omap (fun x => if decide (x.1 = tn) then Some x.2 else None)
    (map fst (map_to_list (ms_pending m)) ++ map fst (map_to_list (ms_committed m)))).

Definition key_pastb (direction : ScanDirection) (inclusive : bool) (from : EloqKey) (k : bytes) : bool :=
  match direction with Forward => key_ltb from (key_of_bytes k) | Backward => key_ltb (key_of_bytes k) from end ||
  (inclusive && key_eqb from (key_of_bytes k)).

Definition requestedb (req : ScanOpenTxRequest) (k : bytes) : bool :=
  key_pastb (so_direction req) (so_start_inclusive req) (so_start req) k &&
  match so_end req with Some e => key_pastb (opposite (so_direction req)) (so_end_inclusive req) e k | None => true end.

Definition not_after (direction : ScanDirection) (a b : bytes) : Prop :=
  match direction with Forward => lex_cmp a b | Backward => lex_cmp b a end <> Gt.

#[export] Instance not_after_dec direction : RelDecision (not_after direction).
Proof. intros a b. unfold not_after. apply _. Defined.

Definition tuples_of (m : mem_store) (req : ScanOpenTxRequest) : list ScanBatchTuple :=
  omap (fun k => (fun r => {| tu_key := k; tu_record := r; tu_status := RecordNormal; tu_version_ts := 1; tu_cce_addr := 0 |})
                   <$> ms_seen m (so_table req) k)
    (merge_sort (not_after (so_direction req)) (filter (fun k => requestedb req k = true) (known_keys m (so_table req)))).

#[export] Instance scan_service : ScanService scan_store := {|
  tx_OpenTxScan s req := ({| sn_data := sn_data s; sn_scan := tuples_of (sn_data s) req |}, 0);
  tx_ScanBatch s _ _ :=
    match sn_scan s with
    | [] => (s, inr ([], true))
    | tu :: rest => ({| sn_data := sn_data s; sn_scan := rest |}, inr ([tu], bool_decide (rest = [])))
    end;
  tx_CloseTxScan s _ _ _ := (s, []);
  tx_BatchRead s req :=
    (s, inr (map (fun kt : bytes * Z => match ms_seen (sn_data s) (br_table req) kt.1 with
                                        | Some r => (RecordNormal, r)
                                        | None => (RecordDeleted, empty_record)
                                        end) (br_keys req)))
|}.

Lemma key_pastb_spec direction inclusive from k : key_pastb direction inclusive from k = true <-> key_past direction inclusive from k.
Proof. unfold key_pastb, key_past. by rewrite orb_true_iff, andb_true_iff. Qed.

Lemma requestedb_spec req k : requestedb req k = true <-> requested_key req k.
Proof.
  unfold requestedb, requested_key. rewrite andb_true_iff, key_pastb_spec. destruct (so_end req); rewrite ?key_pastb_spec; intuition.
Qed.

#[export] Instance not_after_total direction : Total (not_after direction).
Proof.
  intros a b. unfold not_after. destruct direction; rewrite (lex_cmp_antisym b a); destruct (lex_cmp a b); simpl; auto.
Qed.

#[export] Instance not_after_trans direction : Transitive (not_after direction).
Proof.
  assert (forall a b c, lex_cmp a b <> Gt -> lex_cmp b c <> Gt -> lex_cmp a c <> Gt) as H.
  { intros a b c H1 H2. destruct (lex_cmp a b) eqn:E1; [|destruct (lex_cmp b c) eqn:E2|done].
    - apply lex_cmp_Eq in E1 as ->. done.
    - apply lex_cmp_Eq in E2 as <-. by rewrite E1.
    - by rewrite (lex_cmp_trans a b c Lt).
    - done. }
  intros a b c. unfold not_after. destruct direction; intros; by eapply H.
Qed.

Lemma sorted_before direction l : NoDup l -> StronglySorted (not_after direction) l -> StronglySorted (key_before direction) l.
Proof.
  intros Hnd. induction 1 as [|k l _ IH Hall]; [constructor|]. apply list.NoDup_cons in Hnd as [Hn Hnd].
  constructor; [by apply IH|]. rewrite Forall_forall in *. intros k' Hk'. specialize (Hall k' Hk').
  assert (k <> k') as Hne by (intros ->; by apply Hn, list_elem_of_In). unfold not_after, key_before in *.
  destruct direction; destruct (lex_cmp _ _) eqn:E; try done; apply lex_cmp_Eq in E; congruence.
Qed.

Lemma view_seen (s : scan_store) tn k : view s tn k = ms_seen (sn_data s) tn k.
Proof. done. Qed.

Lemma known_key m tn k r : ms_seen m tn k = Some r -> k ∈ known_keys m tn.
Proof.
  intros Hs. unfold known_keys. rewrite elem_of_remove_dups, list_elem_of_omap. exists (tn, k). split; [|by rewrite decide_True].
  rewrite elem_of_app. unfold ms_seen in Hs. destruct (ms_pending m !! (tn, k)) as [w|] eqn:Ep; [left|right].
  - apply list_elem_of_fmap. exists ((tn, k), w). split; [done|]. by apply elem_of_map_to_list.
  - apply list_elem_of_fmap. exists ((tn, k), r). split; [done|]. by apply elem_of_map_to_list.
Qed.

Lemma tuples_elem m req tu : tu ∈ tuples_of m req <-> exists k r, ms_seen m (so_table req) k = Some r /\ requested_key req k /\
  tu = {| tu_key := k; tu_record := r; tu_status := RecordNormal; tu_version_ts := 1; tu_cce_addr := 0 |}.
Proof.
  unfold tuples_of. rewrite list_elem_of_omap. setoid_rewrite merge_sort_Permutation.
  setoid_rewrite list_elem_of_filter. setoid_rewrite requestedb_spec. split.
  - intros (k & [Hr _] & E). destruct (ms_seen m (so_table req) k) as [r|] eqn:Es; [|done]. simpl in E. injection E as <-.
    by exists k, r.
  - intros (k & r & Es & Hr & ->). exists k. rewrite Es. split_and!; [done|by eapply known_key|done].
Qed.

Lemma tuples_keys m req : exists l, map tu_key (tuples_of m req) `sublist_of` l /\ NoDup l /\
  StronglySorted (not_after (so_direction req)) l.
Proof.
  exists (merge_sort (not_after (so_direction req)) (filter (fun k => requestedb req k = true) (known_keys m (so_table req)))).
  split_and!.
  - unfold tuples_of. induction (merge_sort _ _) as [|k l IH]; [done|]. cbn [omap list_omap].
    destruct (ms_seen m (so_table req) k); simpl; by constructor.
  - rewrite merge_sort_Permutation. apply list.NoDup_filter, NoDup_remove_dups.
  - apply StronglySorted_merge_sort; apply _.
Qed.

Lemma tuples_content (s : scan_store) req : scan_content s req (tuples_of (sn_data s) req).
Proof.
  destruct (tuples_keys (sn_data s) req) as (l & Hsub & Hnd & Hsort). split.
  - by eapply sublist_NoDup.
  - intros _. eapply StronglySorted_sublist; [exact Hsub|]. by apply sorted_before.
  - intros tu (k & r & Es & Hr & ->)%tuples_elem. right. by rewrite view_seen.
  - intros k rec Hv Hr. rewrite view_seen in Hv.
    exists {| tu_key := k; tu_record := rec; tu_status := RecordNormal; tu_version_ts := 1; tu_cce_addr := 0 |}.
    split; [|done]. apply tuples_elem. by exists k, rec.
Qed.

#[export] Instance scan_laws : ScanLaws scan_store.
Proof.
  refine {| unread s _ := sn_scan s |}.
  - intros s req s' alias. simpl. intros [= <- <-]. split_and!; [done|done|done|]. intros _ _. apply tuples_content.
  - intros s alias tn s' r. simpl. destruct (sn_scan s) as [|tu rest] eqn:E; intros [= <- <-].
    + by rewrite E.
    + split; [done|]. split_and!; [done|done|]. simpl. intros [H|?]; [|done]. by apply bool_decide_eq_true in H.
  - intros s alias tn u s' u'. simpl. by intros [= <- _].
  - intros s req s' r. simpl. intros [= <- <-]. split_and!; [done|done|]. apply Forall2_fmap_r. apply Forall_Forall2_diag.
    apply Forall_forall. intros kt _. change (view s (br_table req) kt.1) with (ms_seen (sn_data s) (br_table req) kt.1).
    unfold compose.
    destruct (ms_seen _ _ _); [by left|by right].
Defined.

(** No data store scanner. *)
#[export] Instance no_scanner : DataStoreScanner unit := {| scanner_MoveNext d := d; scanner_Current _ := None |}.

#[export] Instance no_scanner_laws : ScannerLaws unit.
Proof. by refine {| contents _ := [] |}. Defined.

Definition with_scan (st : ha_state mem_store) : ha_state scan_store := {|
  txm := {| sn_data := txm st; sn_scan := [] |}; tx_err_code_ := tx_err_code_ st; errkey := errkey st;
  dup_errkey_ := dup_errkey_ st; last_read_record_ := last_read_record_ st; last_read_key_ := last_read_key_ st;
  insert_id_for_cur_row := insert_id_for_cur_row st |}.

Lemma with_scan_consistent env good rows (st : ha_state mem_store) :
  consistent env good rows (txm st) -> consistent env good rows (txm (with_scan st)).
Proof. intros [H1 H2 H3 H4]. split; [exact H1|exact H2|exact H3|exact H4]. Qed.

Definition closed_cursor : cursor unit := {|
  scan_alias_ := UINT64_MAX; scan_direction_ := Forward; scan_index_ := None; end_specified_ := false; ccm := closed_ccm;
  store := {| storage_scanner_ := None; advance_storage_scanner_ := false |}; sk_pk_scan_batch_ := []; batch_order_ := [];
  prefix_match_key_ := None; unlock_batch_ := []; start_of_scan_ := false; start_range_ptr_ := None |}.

Lemma t_readable_table : readable_table t_env t_def t_mem (fun _ => 1000) {[t_key row_1 := row_1]} t_good.
Proof. exact (readable_primary _ _ _ _ _ _ _ _ _ t_ready t_readable t_rows_readable). Qed.

Lemma rnd_scan_witness :
  exists bound, forall fuel n, (bound < fuel)%nat ->
    exists outs rc st' cur',
      read_rows (rnd_next t_env None (fun _ => true) false (fun _ => false) (fun _ => 1000) fuel) n (with_scan t_one)
        (rnd_init closed_cursor) (replicate 13 255) = Some (outs, rc, st', cur') /\
      scanned t_env (fun _ => true) t_mem {[t_key row_1 := row_1]} (fun _ _ => True) outs rc /\ ((bound < n)%nat -> rc <> 0).
Proof.
  destruct (rnd_scan_correct (D := unit) t_env t_def t_good {[t_key row_1 := row_1]} t_mem (fun _ => 1000) None (fun _ => true) false
    (fun _ => false) (with_scan t_one) closed_cursor (replicate 13 255) t_readable_table) as (bound & H).
  - exact (with_scan_consistent _ _ _ _ t_one_consistent).
  - by left.
  - reflexivity.
  - by vm_compute.
  - reflexivity.
  - exists bound. intros fuel n Hf. destruct (H fuel n Hf) as (outs & rc & st' & cur' & E & _ & Hs & Hn).
    exists outs, rc, st', cur'. split; [exact E|]. split; [exact Hs|exact Hn].
Defined.

(** The scan of a table with one row: the row, then the end. *)
Example rnd_scan_run :
  match read_rows (rnd_next t_env None (fun _ => true) false (fun _ => false) (fun _ => 1000) 5) 3 (with_scan t_one)
          (rnd_init closed_cursor) (replicate 13 0) with
  | Some (outs, rc, _, _) => (outs, rc)
  | None => ([], 0)
  end = ([(t_key row_1, row_1)], HA_ERR_END_OF_FILE).
Proof. by vm_compute. Qed.

End ScanRows.
