(* ===== verification/Backfill.v ===== *)
(** * Backfill: the entries of a new index

    When an index is added to a table that has rows, the transaction service
    scans the base table and asks a [MysqlSkEncoder]
    (storage/eloq/eloqsql_catalog_factory.cpp) for the index entry of every
    row.  [AppendPackedSk] decodes the row into a record buffer of its own and
    packs the columns of the index.  The theorem: these are the entries that
    the handler writes for the rows while the index is being built. *)

From stdpp Require Import gmap strings.
From S2P Require Import Prelude Slice Buff Charset Latin1 Copy Collation Field Placement Store.
From S2P Require Import Codec Packing VarFormat SpacePad Varchar KeySetup KeyDef KeyOrder Index KeyRead PkTuple.
From S2P Require Import Neighbour Double EloqKey Restore RoundTrip Layout KeyTuple Row Entry Hidden Handler Consistency Tables.
From S2P Require Import Statements Scan Read Cursor ScanRows.
Import Field Placement Packing Varchar KeySetup KeyDef KeyOrder Index EloqKey Restore RoundTrip Layout Entry Handler Consistency Tables.
Import Statements Read Cursor ScanRows.

Module Backfill.

(** A virtual column: its number, whether it is stored, whether one of
    PART_KEY_FLAG, FIELD_IN_PART_FUNC_FLAG and PART_INDIRECT_KEY_FLAG is set,
    the columns that walking its expression registers, and
    [expr->save_in_field]. *)
Record virtual_column := {
  vf_index : nat;
  vf_stored_in_db : bool;
  vf_part_key : bool;
  vf_expr_columns : list nat;
  vf_save_in_field : bytes -> bytes
}.

(** The table that the encoder has opened: its record buffer and bitmaps. *)
Record sk_encoder := { record_0 : bytes; read_set : gset nat; write_set : gset nat }.

(** An element of [dest_vec]. *)
Record WriteEntry := { we_key : bytes; we_rec : EloqRecord; we_commit_ts : Z }.

(** [None]: the key has fewer than 16 bytes. *)
Definition ReadHiddenPkFromRowkey (row_key : bytes) : option bytes := fst <$> Rd.read 16 row_key.

Section Encoder.

Context (env : ha_env) (kd : mono_key_def) (vfield : list virtual_column) (mem' : Z -> bytes) (rec_addr : EloqRecord -> Z).

(** ** The columns to read *)

Definition vcol_info (i : nat) : option virtual_column := find (fun v => (vf_index v =? i)%nat) vfield.

Definition register_field_in_read_map (i : nat) (s : gset nat) : gset nat :=
  {[i]} ∪ (match vcol_info i with Some v => list_to_set (vf_expr_columns v) ∪ s | None => s end).

Definition MarkIndexColumnsForRead (st : sk_encoder) : option sk_encoder :=
  match key_info (ha_table env) !! m_keyno kd with
  | None => None
  | Some ki => Some {|
      record_0 := record_0 st;
      read_set := foldl (fun s p => register_field_in_read_map (field_index (kp_field p)) s) (read_set st)
                    (take (user_defined_key_parts ki) (key_part ki));
      write_set := write_set st |}
  end.

Definition mark_virtual_column_with_deps (v : virtual_column) (s : gset nat) : gset nat :=
  if decide (vf_index v ∈ s) then s else {[vf_index v]} ∪ list_to_set (vf_expr_columns v) ∪ s.

(** The first loop over the virtual columns. *)
Fixpoint mark_virtual_columns (vs : list virtual_column) (st : sk_encoder) : sk_encoder :=
  match vs with
  | [] => st
  | v :: vs =>
      mark_virtual_columns vs
        (if decide (vf_index v ∈ write_set st) then
           {| record_0 := record_0 st; read_set := mark_virtual_column_with_deps v (read_set st);
              write_set := write_set st |}
         else if vf_stored_in_db v || vf_part_key v then
           {| record_0 := record_0 st; read_set := mark_virtual_column_with_deps v (read_set st);
              write_set := {[vf_index v]} ∪ write_set st |}
         else st)
  end.

(** The second loop. *)
Fixpoint update_virtual_fields (vs : list virtual_column) (st : sk_encoder) : sk_encoder :=
  match vs with
  | [] => st
  | v :: vs =>
      update_virtual_fields vs
        (if bool_decide (vf_index v ∈ read_set st) && negb (vf_stored_in_db v) then
           {| record_0 := vf_save_in_field v (record_0 st); read_set := read_set st; write_set := write_set st |}
         else st)
  end.

(** ** Packing an entry *)

(** [DecodeRecord]; [None]: the key is reported as corrupt. *)
Definition DecodeStored (st : sk_encoder) (key : bytes) (record : EloqRecord) : option bytes :=
  match
    (if negb (table_has_hidden_pk (ha_table env))
     then unpack_record (pk_descr_ env) (ha_table env) (record_0 st) key (unpack_info_ record)
     else Some (record_0 st))
  with
  | None => None
  | Some table_record =>
      Row.Decode (rec_addr record) (encoded_blob_ record) (Row.new_record_schema (ha_fields env))
        (fun i => bool_decide (i ∈ read_set st)) table_record (ha_fields env)
  end.

(** [None]: a failed assertion while packing.  Of a record that cannot be
    decoded, the part that is written to the record buffer is left out. *)
Definition AppendPackedSk (st : sk_encoder) (mono_key : bytes) (mono_rec : EloqRecord) (version_ts : Z)
    (dest_vec : list WriteEntry) : option (sk_encoder * list WriteEntry * Z) :=
  match DecodeStored st mono_key mono_rec with
  | None => Some (st, dest_vec, -1)
  | Some buf =>
      let st := {| record_0 := buf; read_set := read_set st; write_set := write_set st |} in
      let st := update_virtual_fields vfield (mark_virtual_columns vfield st) in
      let append st hidden_pk :=
        match pack_record mem' kd (ha_table env) (record_0 st) (Some []) true hidden_pk 0 with
        | None => None
        | Some ps =>
            let rec := {| encoded_blob_ := [];
                          unpack_info_ := match ps_unpack_info ps with Some w => w | None => [] end |} in
            Some (st, dest_vec ++ [{| we_key := ps_tuple ps; we_rec := rec; we_commit_ts := version_ts |}], 1)
        end in
      if table_has_hidden_pk (ha_table env) then
        match ReadHiddenPkFromRowkey mono_key with
        | None => Some (st, dest_vec, -1)
        | Some uuid => append st (Some uuid)
        end
      else append st None
  end.

(** The records of the base table, one after the other, up to the first
    error. *)
Fixpoint AppendAll (st : sk_encoder) (records : list (bytes * EloqRecord * Z)) (dest_vec : list WriteEntry)
    : option (sk_encoder * list WriteEntry * Z) :=
  match records with
  | [] => Some (st, dest_vec, 1)
  | (key, rec, ts) :: records =>
      match AppendPackedSk st key rec ts dest_vec with
      | None => None
      | Some (st, dest_vec, rc) => if rc =? 1 then AppendAll st records dest_vec else Some (st, dest_vec, rc)
      end
  end.

End Encoder.

(** ** Packing a record that holds the columns of another one *)

(** The column starts with the image of its value in [rec]: as unpacking
    leaves it, or with all of its bytes. *)
Definition column_held (f : Field) (rec out : bytes) : Prop :=
  is_real_null f out = is_real_null f rec /\
  (is_real_null f rec = false -> exists image,
     (image = stored_image f rec \/ image = column_bytes f rec /\ real_type f <> MYSQL_TYPE_VARCHAR) /\
     take (length image) (column_bytes f out) = image).

Lemma column_held_frame f rec out out' :
  column_bytes f out' = column_bytes f out -> is_real_null f out' = is_real_null f out ->
  column_held f rec out -> column_held f rec out'.
Proof. unfold column_held. by intros -> ->. Qed.

(** The sort keys of columns of a fixed size read that many bytes. *)
Lemma fixed_sort_string f n m rec out : fixed_size f = Some n -> real_type f <> MYSQL_TYPE_BIT -> pack_length f = n ->
  m = n -> take n (data f out) = take n (data f rec) -> sort_string f m out = sort_string f m rec.
Proof.
  intros Hn Hb Hl -> Ht.
  assert (forall i, (i < n)%nat -> nth i (data f out) 0 = nth i (data f rec) 0) as Hnth.
  { intros i Hi. rewrite !nth_lookup, <- (lookup_take_lt _ n i), Ht, lookup_take_lt; done. }
  unfold sort_string, fixed_size in *. destruct (real_type f); try done; injection Hn as <-;
    unfold tiny_sort_string, short_sort_string, medium_sort_string, long_sort_string, longlong_sort_string,
      float_sort_string, double_sort_string, newdate_sort_string, memcpy_sort_string, enum_sort_string;
    rewrite ?Ht, ?Hnth by lia; done.
Qed.

(** A zero of either sign has the same sort key. *)
Lemma zero_sort_string f n m rec out :
  (real_type f = MYSQL_TYPE_FLOAT /\ n = 4%nat \/ real_type f = MYSQL_TYPE_DOUBLE /\ n = 8%nat) ->
  ieee_is_zero n (le_val (take n (data f rec))) = true -> take n (data f out) = replicate n 0 ->
  sort_string f m out = sort_string f m rec.
Proof.
  unfold sort_string. intros [[-> ->]|[-> ->]] Hz Ht; f_equal.
  - unfold float_sort_string. by rewrite Ht, Hz.
  - unfold double_sort_string, change_double_for_sort. by rewrite Ht, Hz.
Qed.

Lemma held_sort_string f n rec out : fixed_size f = Some n -> pack_length f = n -> real_type f <> MYSQL_TYPE_BIT ->
  fixed_ok f rec -> is_real_null f rec = false -> column_held f rec out -> sort_string f n out = sort_string f n rec.
Proof.
  intros Hn Hl Hb Hok Hnn [_ H]. destruct (H Hnn) as (image & Hi & Hh). destruct (Row.image_data f image out Hh) as [rest Hd].
  destruct (Restore.fixed_ok_image f n rec Hn Hb Hok) as [_ Hlen].
  assert (image = column_bytes f rec -> sort_string f n out = sort_string f n rec) as Hfull.
  { intros ->. apply (fixed_sort_string f n); try done. rewrite Hd. unfold column_bytes. rewrite Hl, take_app_length'; [done|].
    rewrite length_take. lia. }
  destruct Hi as [Hi|[Hi _]]; [|by apply Hfull]. unfold stored_image in Hi. destruct (real_type f) eqn:Et; try by apply Hfull.
  - unfold normal_image in Hi. unfold fixed_size in Hn. rewrite Et in Hn. injection Hn as <-. destruct (ieee_is_zero _ _) eqn:Ez.
    + apply (zero_sort_string f 4); [by left|done|]. by rewrite Hd, Hi, take_app_length' by (by rewrite length_replicate).
    + apply Hfull. rewrite Hi. unfold column_bytes. by rewrite Hl.
  - unfold normal_image in Hi. unfold fixed_size in Hn. rewrite Et in Hn. injection Hn as <-. destruct (ieee_is_zero _ _) eqn:Ez.
    + apply (zero_sort_string f 8); [by right|done|]. by rewrite Hd, Hi, take_app_length' by (by rewrite length_replicate).
    + apply Hfull. rewrite Hi. unfold column_bytes. by rewrite Hl.
  - unfold fixed_size in Hn. by rewrite Et in Hn.
Qed.

Lemma held_varchar weights f rec out : real_type f = MYSQL_TYPE_VARCHAR -> varchar_ok weights f rec ->
  is_real_null f rec = false -> column_held f rec out ->
  varstring_data f (data f out) = varstring_data f (data f rec) /\
  varstring_length f (data f out) = varstring_length f (data f rec).
Proof.
  intros Ht Hok Hnn [_ H]. destruct (H Hnn) as (image & Hi & Hh). destruct (Row.image_data f image out Hh) as [rest Hd].
  destruct Hi as [->|[_ ?]]; [|done]. unfold stored_image in Hd. rewrite Ht in Hd. rewrite Hd.
  pose proof (varstring_data_length _ _ _ Hok) as Hl. pose proof (varchar_length_bound _ _ _ Hok) as Hb. rewrite <- Hl in Hb.
  split; [by apply varstring_stored; [apply (vo_length_bytes Hok)|]|].
  by rewrite varstring_length_stored; [|apply (vo_length_bytes Hok)|].
Qed.

Lemma held_space_pad fpi f rec out w : varstring_data f (data f out) = varstring_data f (data f rec) ->
  varstring_length f (data f out) = varstring_length f (data f rec) ->
  do_pack_with_varchar_space_pad fpi f out w = do_pack_with_varchar_space_pad fpi f rec w.
Proof. intros Hd Hl. unfold do_pack_with_varchar_space_pad. by rewrite Hd, Hl. Qed.

Lemma held_unpack_info codec f rec out w : varstring_data f (data f out) = varstring_data f (data f rec) ->
  varstring_length f (data f out) = varstring_length f (data f rec) ->
  do_make_unpack_simple_varchar codec f out w = do_make_unpack_simple_varchar codec f rec w.
Proof.
  intros Hd Hl. unfold do_make_unpack_simple_varchar, varstring_data in *. rewrite Hl in *. by rewrite <- !take_take, Hd.
Qed.

(** Packing depends on the value only. *)
Lemma held_pack_value mem mem' f len ok keynr part fpi0 res fpi rec out w :
  supported f len ok -> real_type f <> MYSQL_TYPE_BIT ->
  setup true (Some f) keynr part len fpi0 = Some (res, fpi) -> ok rec ->
  is_real_null f rec = false -> column_held f rec out ->
  pack_value mem' (with_field_length len f) fpi out w = pack_value mem (with_field_length len f) fpi rec w.
Proof.
  intros Hs Hb E Hok Hnn Hh. unfold pack_value. destruct Hs as [n Hn Hl|wlen k nsp sp weights Hc -> Hps Hsp Hcoll|Hc -> Hcs].
  - destruct (setup_sort_key f keynr part len fpi0) as (res' & fpi' & E' & Hi & Hp & Hm & _).
    { unfold fixed_size in Hn. by destruct (real_type f). }
    rewrite E in E'. injection E' as _ <-. rewrite Hp. cbn [call_pack]. unfold do_pack_with_make_sort_key.
    assert (forall r, sort_string (with_field_length len f) (m_max_image_len fpi) r = sort_string f n r) as Hss.
    { intros r. rewrite Hi, Hl. unfold sort_string, fixed_size in *. simpl. by destruct (real_type f). }
    by rewrite !Hss, (held_sort_string f n rec out), Hm.
  - rewrite with_field_length_same by done.
    destruct (held_varchar weights f rec out (vc_type _ Hc) Hok Hnn Hh) as [Hd Hv]. destruct Hcoll as [Hn|so Hso Hsup N1 N2 N3].
    + destruct (setup_varchar_bin f keynr part fpi0 wlen k nsp sp Hc Hsp Hn) as (fpi' & E' & _ & _ & _ & Hp & Hm & _).
      rewrite E in E'. injection E' as _ <-. rewrite Hp, Hm. cbn [call_pack call_make_unpack_info].
      by rewrite (held_space_pad _ _ rec out).
    + destruct (setup_varchar_simple f keynr part fpi0 wlen k nsp sp (Codec.collation_codec so) Hc Hsp)
        as (fpi' & E' & _ & Hco & _ & Hp & Hm & _); try done.
      { unfold Codec.mono_init_collation_mapping. by rewrite Hsup, Hso. }
      rewrite E in E'. injection E' as _ <-. rewrite Hp, Hm, Hco. cbn [call_pack call_make_unpack_info].
      rewrite (held_space_pad _ _ rec out) by done. destruct (do_pack_with_varchar_space_pad _ _ _ _) as [key [w'|]]; [|done].
      by rewrite (held_unpack_info _ _ rec out).
  - rewrite with_field_length_same by done.
    destruct (held_varchar Some f rec out (vc_type _ Hc) Hok Hnn Hh) as [Hd Hv].
    destruct (setup_varbinary f keynr part fpi0 Hc Hcs) as (fpi' & E' & _ & _ & Hp & Hm & _).
    rewrite E in E'. injection E' as _ <-. rewrite Hp, Hm. cbn [call_pack]. unfold do_pack_with_varchar_encoding. by rewrite Hd.
Qed.

Lemma supported_no_blob f len ok : supported f len ok -> KeyTuple.is_blob f = false.
Proof.
  unfold KeyTuple.is_blob. intros [n Hn _|? ? ? ? ? Hc _ _ _ _|Hc _ _]; [|by rewrite (vc_type _ Hc)..].
  unfold fixed_size in Hn. by destruct (real_type f).
Qed.

Lemma setup_keyno uninit tbl kd0 kd : key_def_setup uninit tbl kd0 = Some kd -> m_keyno kd = m_keyno kd0.
Proof. unfold key_def_setup. repeat case_match; intros; simplify_eq; done. Qed.

Section Packed.

Context (mem mem' : Z -> bytes) (uninit : mono_field_packing) (tbl : TABLE) (rec out : bytes).

Definition same_part (info : mono_field_packing) : Prop :=
  forall st, pack_part mem' tbl info out st = pack_part mem tbl info rec st.

Lemma held_same_part c info : part_packed mem uninit tbl c info -> indexed tbl c -> real_type (kp_field c.1) <> MYSQL_TYPE_BIT ->
  is_real_null (kp_field c.1) rec = true \/ c.2 rec -> column_held (kp_field c.1) rec out -> same_part info.
Proof.
  intros Hpp [Hs _] Hb Hok Hh st. destruct (pp_setup _ _ _ _ _ Hpp) as [res E].
  destruct (pp_packs _ _ _ _ _ Hpp) as ((f0 & Hf0 & Ef0) & _). cbn [column_of col_field] in Ef0.
  unfold pack_part, pack_field. rewrite Hf0, <- Ef0.
  assert (forall r, is_real_null (with_field_length (kp_length c.1) (kp_field c.1)) r = is_real_null (kp_field c.1) r) as Hn by done.
  rewrite !Hn, (proj1 Hh). destruct (is_real_null (kp_field c.1) rec) eqn:En.
  - pose proof (is_real_null_maybe _ _ En) as Hm.
    change (real_maybe_null (with_field_length (kp_length c.1) (kp_field c.1))) with (real_maybe_null (kp_field c.1)). by rewrite Hm.
  - destruct Hok as [|Hok]; [done|]. by rewrite (held_pack_value mem mem' _ _ _ _ _ _ _ _ rec out _ Hs Hb E Hok En Hh).
Qed.

(** The loop; the last part is not packed when it is the hidden primary key. *)
Lemma pack_record_loop_same up hidden n infos : forall i st,
  (forall j info, infos !! j = Some info -> (i + j < n)%nat -> hidden = None \/ S (i + j) <> n -> same_part info) ->
  pack_record_loop mem' tbl out up hidden n i infos st = pack_record_loop mem tbl rec up hidden n i infos st.
Proof.
  induction infos as [|info infos IH]; intros i st H; cbn [pack_record_loop]; [done|].
  destruct (Nat.leb_spec n i) as [|Hi]; [done|].
  assert (forall st', (hidden = None \/ S i <> n) ->
    match pack_part mem' tbl info out st' with
    | Some st' => pack_record_loop mem' tbl out up hidden n (S i) infos st' | None => None end =
    match pack_part mem tbl info rec st' with
    | Some st' => pack_record_loop mem tbl rec up hidden n (S i) infos st' | None => None end) as Hstep.
  { intros st' Hl. rewrite (H 0%nat info eq_refl) by (rewrite ?Nat.add_0_r; done || lia).
    destruct (pack_part mem tbl info rec st') as [st1|]; [|done]. apply IH. intros j info' Hj Hn Hh.
    apply (H (S j) info' Hj); rewrite Nat.add_succ_r; done. }
  destruct hidden as [id|]; [|apply Hstep; by left]. destruct (Nat.eqb_spec (S i) n); [done|]. apply Hstep. by right.
Qed.

Lemma pack_record_same kd u unique hidden n :
  (forall j info, m_pack_info kd !! j = Some info ->
     (table_has_hidden_pk tbl = true -> S j < length (m_pack_info kd))%nat -> same_part info) ->
  (table_has_hidden_pk tbl = true -> hidden <> None /\ n = 0%nat) ->
  pack_record mem' kd tbl out u unique hidden n = pack_record mem kd tbl rec u unique hidden n.
Proof.
  intros H Hh. unfold pack_record. rewrite pack_record_loop_same; [done|]. intros j info Hj Hn Hl. apply (H j info Hj).
  intros Ht. rewrite Ht in Hl. destruct (Hh Ht) as [Hid ->]. destruct hidden as [id|]; [|done]. simpl in *.
  unfold m_key_parts in *. destruct Hl as [|Hl]; [done|]. lia.
Qed.

End Packed.

(** ** The records of the base table *)

Section Rows.

Context (env : ha_env) (t : target) (all : list indexed_part) (vfield : list virtual_column).
Context (mem' : Z -> bytes) (rec_addr : EloqRecord -> Z).

Abbreviation mem := (ha_mem env).
Abbreviation tbl := (ha_table env).
Abbreviation size := (length (default_values tbl)).
Abbreviation kd := (is_kd (t_index t)).

(** The record buffer holds the columns of the index. *)
Definition index_held (buf out : bytes) : Prop :=
  length out = size /\ Forall (fun c => column_held (kp_field c.1) buf out) all.

(** Computing a virtual column does not touch the columns of the index. *)
Definition harmless (v : virtual_column) : Prop :=
  vf_stored_in_db v = false -> forall b, length b = size -> length (vf_save_in_field v b) = size /\
    Forall (fun c => column_bytes (kp_field c.1) (vf_save_in_field v b) = column_bytes (kp_field c.1) b /\
                     is_real_null (kp_field c.1) (vf_save_in_field v b) = is_real_null (kp_field c.1) b) all.

Context (Hv : Forall harmless vfield).

Lemma mark_virtual_columns_grow vs st :
  record_0 (mark_virtual_columns vs st) = record_0 st /\ read_set st ⊆ read_set (mark_virtual_columns vs st).
Proof.
  revert st. induction vs as [|v vs IH]; intros st; [done|]. cbn [mark_virtual_columns].
  set (st1 := if decide _ then _ else _). destruct (IH st1) as [-> H].
  assert (record_0 st1 = record_0 st /\ read_set st ⊆ read_set st1) as [-> Hs]; [|split; [done|set_solver]].
  subst st1. unfold mark_virtual_column_with_deps. repeat case_decide; [done|simpl; set_solver| |];
    destruct (_ || _); simpl; (split; [done|set_solver]).
Qed.

Lemma update_virtual_fields_held vs st buf : Forall harmless vs -> index_held buf (record_0 st) ->
  let st' := update_virtual_fields vs st in read_set st' = read_set st /\ index_held buf (record_0 st').
Proof.
  intros Hvs. revert st. induction Hvs as [|v vs Hh _ IH]; intros st Hc; [done|]. cbn [update_virtual_fields]. cbv zeta.
  destruct (_ && _) eqn:Ev; [|by apply IH]. apply andb_true_iff in Ev as [_ Ev%negb_true_iff].
  destruct Hc as [Hl Hc]. destruct (Hh Ev (record_0 st) Hl) as [Hl' Hf].
  apply (IH {| record_0 := _ |}). split; [done|].
  simpl. rewrite Forall_forall in Hf, Hc |- *. intros c Hin. destruct (Hf c Hin) as [Eb En].
  by apply (column_held_frame _ _ (record_0 st)), Hc.
Qed.

(** A row whose columns are decoded and packed as those of the record. *)
Lemma append_entry st k buf rec ts dest out key r :
  DecodeStored env rec_addr st k rec = Some out -> index_held buf out -> t_unique t = false ->
  (table_has_hidden_pk tbl = true -> ReadHiddenPkFromRowkey k = Some k) ->
  (forall out, index_held buf out -> pack_record mem' kd tbl out (Some []) true (hidden_pk env k) 0 =
                                     pack_record mem kd tbl buf (Some []) true (hidden_pk env k) 0) ->
  entry env t (Some []) k buf = Some (key, r) ->
  exists st', AppendPackedSk env kd vfield mem' rec_addr st k rec ts dest =
      Some (st', dest ++ [{| we_key := key; we_rec := r; we_commit_ts := ts |}], 1) /\
    length (record_0 st') = size /\ read_set st ⊆ read_set st'.
Proof.
  intros E Hh Hu Hk Hp He. unfold AppendPackedSk. rewrite E. set (st1 := {| record_0 := out |}).
  destruct (mark_virtual_columns_grow vfield st1) as [Er Hg]. set (st2 := mark_virtual_columns vfield st1) in *.
  destruct (update_virtual_fields_held vfield st2 buf Hv) as [Hr3 Hh3]; [by rewrite Er|].
  set (st3 := update_virtual_fields vfield st2) in *. specialize (Hp _ Hh3).
  assert (read_set st ⊆ read_set st3) as Hs by (rewrite Hr3; exact Hg).
  unfold entry, index_entry in He. rewrite Hu, <- Hp in He.
  assert (match pack_record mem' kd tbl (record_0 st3) (Some []) true (hidden_pk env k) 0 with
    | Some ps => Some (st3, dest ++ [{| we_key := ps_tuple ps; we_rec := {| encoded_blob_ := [];
        unpack_info_ := match ps_unpack_info ps with Some w => w | None => [] end |}; we_commit_ts := ts |}], 1)
    | None => None end = Some (st3, dest ++ [{| we_key := key; we_rec := r; we_commit_ts := ts |}], 1)) as Happ.
  { destruct (pack_record mem' _ _ _ _ _ _ _) as [ps|]; [|done]. rewrite firstn_all in He. by injection He as <- <-. }
  exists st3. split; [|split; [apply Hh3|done]]. unfold hidden_pk in Happ.
  destruct (table_has_hidden_pk tbl); [by rewrite (Hk eq_refl)|done].
Qed.

End Rows.

(** ** Tables *)

(** The columns of the index are stored columns of the table. *)
Definition stored_column (env : ha_env) (c : indexed_part) : Prop :=
  exists rf, ha_fields env !! field_index (kp_field c.1) = Some rf /\ Row.rf_field rf = kp_field c.1 /\
    Row.rf_stored_in_db rf = true.

Lemma decoded_held mem (f : Field) buf_addr blob decode_set buf out i :
  KeyTuple.is_blob f = false -> decode_set i = true -> Row.column_decoded mem buf_addr blob decode_set buf out (i, f) ->
  column_held f buf out.
Proof.
  intros Hb Hi [Hn H]. split; [exact Hn|]. intros Hnn. destruct (H Hi Hnn) as (addr & _ & _ & Him). specialize (Him eq_refl).
  unfold Row.row_image in Him. simpl in Him. rewrite Hb in Him. destruct (decide (real_type f = MYSQL_TYPE_VARCHAR)) as [Ev|Ev].
  - exists (stored_image f buf). split; [by left|]. unfold stored_image. rewrite Ev in *. exact Him.
  - exists (column_bytes f buf). split; [by right|]. by destruct (real_type f).
Qed.

Definition columns_read (cols : list indexed_part) (st : sk_encoder) : Prop :=
  Forall (fun c => field_index (kp_field c.1) ∈ read_set st) cols.

Section Primary.

Context (uninit : mono_field_packing) (env : ha_env) (pkd0 : mono_key_def) (pk : KEY) (pk_cols : list indexed_part).
Context (defs : target -> index_def) (Hready : table_ready uninit env pkd0 pk pk_cols defs).
Context (Hread : row_readable env pk_cols) (t : target) (Ht : t ∈ targets env).
Context (Hstored : Forall (stored_column env) (df_cols (defs t))).
Context (mem' : Z -> bytes) (rec_addr : EloqRecord -> Z).

Abbreviation mem := (ha_mem env).
Abbreviation tbl := (ha_table env).
Abbreviation size := (length (default_values tbl)).
Abbreviation cols := (df_cols (defs t)).
Abbreviation all := (target_columns pk_cols (defs t)).

(** A column of the index is in the primary key, or in the payload. *)
Lemma target_column c : c ∈ all ->
  (exists p, p ∈ pk_cols /\ kp_field p.1 = kp_field c.1) \/
  (c ∈ cols /\ (field_index (kp_field c.1), kp_field c.1) ∈ Row.payload 0 (ha_fields env)).
Proof.
  intros [Hc|Hc]%elem_of_app.
  - rewrite Forall_forall in Hstored. destruct (Hstored c (proj1 (list_elem_of_In _ _) Hc)) as (rf & Hrf & Ef & Hst).
    destruct (Row.rf_part_of_pk rf) eqn:Ep.
    + left. rewrite <- Ef. apply (rr_pk _ _ Hread); [by eapply list_elem_of_lookup_2|done].
    + right. split; [done|]. rewrite <- Ef at 2. apply (payload_elem 0); [done|]. unfold Row.in_payload. by rewrite Hst, Ep.
  - left. exists c. split; [|done]. apply list_elem_of_In in Hc. by apply list_elem_of_In, (proj1 (proj1 (filter_In _ _ _) Hc)).
Qed.

Lemma target_column_placed c : c ∈ all -> placed size (kp_field c.1).
Proof.
  intros [(p & Hp & <-)|[_ Hc]]%target_column; [by apply (pk_placed env pk_cols)|].
  pose proof (laid_out_fields_placed _ _ (rr_layout _ _ Hread)) as H. rewrite Forall_fmap, Forall_forall in H.
  by apply (H _ (proj1 (list_elem_of_In _ _) Hc)).
Qed.

Lemma primary_decoded st buf rec :
  length (record_0 st) = size -> columns_read cols st -> row_ok pk_cols buf -> row_record env buf = Some rec ->
  row_storable env pk_cols buf -> Z.of_nat (length (unpack_info_ rec)) < 65536 -> 0 <= rec_addr rec ->
  exists out, DecodeStored env rec_addr st (KeyRead.row_key mem pk_cols (m_pack_info (pk_descr_ env)) buf) rec = Some out /\
    index_held env all buf out.
Proof.
  intros Hl Hset Hrow Hrec [_ Hcols] Hw Ha.
  pose proof (tr_pk _ _ _ _ _ _ Hready) as Hid. pose proof (tr_pk_setup _ _ _ _ _ _ Hready) as Hset0.
  destruct (row_record_parts uninit env pkd0 pk pk_cols Hid Hset0 Hread buf rec Hrec Hrow) as [He Hun].
  unfold DecodeStored. rewrite (ready_no_hidden _ _ _ _ _ _ Hready), (Hun _ Hw). cbn [negb].
  set (out1 := restored_row tbl (map fst pk_cols) buf (record_0 st)).
  pose proof (rr_pk_layout _ _ Hread) as Hlo.
  pose proof (columns_fit tbl size pk_cols buf (pk_columns_indexed env pkd0 pk pk_cols Hid) Hlo Hrow) as Hfit.
  assert (length out1 = size) as Hl1 by by apply length_restored_row.
  destruct (Row.row_decoded mem (rec_addr rec) size (fun i => bool_decide (i ∈ read_set st)) (ha_fields env) buf out1
    (rr_layout _ _ Hread) Hcols Hl1 Ha) as (blob & out & He' & Hd & Hlo2 & Hdec & Hoth).
  rewrite He in He'. injection He' as <-. exists out. split; [exact Hd|]. split; [done|].
  assert (forall p, p ∈ pk_cols -> column_held (kp_field p.1) buf out) as Hpk.
  { intros p Hp. pose proof (restored_row_holds tbl size eq_refl (map fst pk_cols) buf (record_0 st) Hlo Hfit Hl) as Hh.
    rewrite Forall_fmap, Forall_forall in Hh. destruct (Hh p (proj1 (list_elem_of_In _ _) Hp)) as [Hn Him].
    destruct (Hoth (kp_field p.1) (pk_placed env pk_cols Hread p Hp) (rr_apart _ _ Hread p Hp)) as [Eb En].
    apply (column_held_frame _ _ out1); [done|done|]. split; [exact Hn|]. intros Hnn. exists (stored_image (kp_field p.1) buf).
    split; [by left|by apply Him]. }
  apply Forall_forall. intros c Hc. apply list_elem_of_In in Hc.
  destruct (target_column c Hc) as [(p & Hp & <-)|[Hcc Hin]]; [by apply Hpk|]. unfold columns_read in Hset. rewrite Forall_forall in Hset, Hdec.
  apply list_elem_of_In in Hin, Hcc. specialize (Hdec _ Hin).
  apply (decoded_held mem) in Hdec; [done| |by apply bool_decide_eq_true, Hset].
  destruct (tr_index _ _ _ _ _ _ Hready t Ht) as (Hix & _). pose proof (id_indexed _ _ _ _ _ Hix) as Hi.
  rewrite Forall_forall in Hi. destruct (Hi c Hcc) as [Hsup _]. by apply (supported_no_blob _ _ _ Hsup).
Qed.

Lemma primary_packed k buf out : row_ok all buf -> index_held env all buf out ->
  pack_record mem' (is_kd (t_index t)) tbl out (Some []) true (hidden_pk env k) 0 =
  pack_record mem (is_kd (t_index t)) tbl buf (Some []) true (hidden_pk env k) 0.
Proof.
  intros Hrow [_ Hh]. pose proof (ready_no_hidden _ _ _ _ _ _ Hready) as Hnh.
  destruct (tr_index _ _ _ _ _ _ Hready t Ht) as (Hid & _ & Eset & _).
  destruct (key_def_setup_packed mem uninit tbl _ _ _ _ Hid) as (kd' & E' & Hp & _). rewrite Eset in E'. injection E' as <-.
  apply pack_record_same; [|by rewrite Hnh]. intros j info Hj _.
  destruct (Forall2_lookup_r _ _ _ _ _ Hp Hj) as (c & Hc & Hpp). apply list_elem_of_lookup_2 in Hc.
  pose proof (target_column_placed c Hc) as Hpl. apply list_elem_of_In in Hc.
  unfold row_ok in Hrow. pose proof (indexed_columns _ _ _ _ _ Hid) as Hin. rewrite Forall_forall in Hh, Hrow, Hin.
  apply (held_same_part mem mem' uninit tbl buf _ c info Hpp (Hin c Hc)); [apply Hpl|by apply Hrow|by apply Hh].
Qed.

End Primary.

Section HiddenKey.

Context (uninit : mono_field_packing) (env : ha_env) (defs : target -> index_def) (Hready : hidden_ready uninit env defs).
Context (Hread : hidden_readable env) (t : target) (Ht : t ∈ targets env).
Context (Hstored : Forall (stored_column env) (df_cols (defs t))).
Context (mem' : Z -> bytes) (rec_addr : EloqRecord -> Z).

Abbreviation mem := (ha_mem env).
Abbreviation tbl := (ha_table env).
Abbreviation size := (length (default_values tbl)).
Abbreviation cols := (df_cols (defs t)).

Lemma hidden_column c : c ∈ cols -> (field_index (kp_field c.1), kp_field c.1) ∈ Row.payload 0 (ha_fields env).
Proof.
  intros Hc. rewrite Forall_forall in Hstored. destruct (Hstored c (proj1 (list_elem_of_In _ _) Hc)) as (rf & Hrf & Ef & Hst).
  rewrite <- Ef at 2. apply (payload_elem 0); [done|]. unfold Row.in_payload.
  by rewrite Hst, (hre_payload _ Hread) by (by eapply list_elem_of_lookup_2).
Qed.

Lemma hidden_decoded st k buf rec :
  length (record_0 st) = size -> columns_read cols st -> row_record env buf = Some rec ->
  Forall (Row.column_ok mem buf) (Row.payload 0 (ha_fields env)) -> 0 <= rec_addr rec ->
  exists out, DecodeStored env rec_addr st k rec = Some out /\ index_held env cols buf out.
Proof.
  intros Hl Hset Hrec Hcols Ha. unfold DecodeStored. rewrite (hre_hidden _ Hread). cbn [negb].
  destruct (Row.row_decoded mem (rec_addr rec) size (fun i => bool_decide (i ∈ read_set st)) (ha_fields env) buf (record_0 st)
    (hre_layout _ Hread) Hcols Hl Ha) as (blob & out & He & Hd & Hl2 & Hdec & _).
  unfold row_record, PackRecord in Hrec. rewrite He, (hre_hidden _ Hread) in Hrec. injection Hrec as <-. cbn [encoded_blob_] in *.
  exists out. split; [exact Hd|]. split; [done|]. apply Forall_forall. intros c Hc.
  pose proof (hidden_column c (proj2 (list_elem_of_In _ _) Hc)) as Hin. apply list_elem_of_In in Hin.
  unfold columns_read in Hset. rewrite Forall_forall in Hset, Hdec. specialize (Hdec _ Hin).
  apply (decoded_held mem) in Hdec; [done| |by apply bool_decide_eq_true, Hset].
  destruct (hr_index _ _ _ Hready t Ht) as [Hix _]. pose proof (Hidden.hd_indexed _ _ _ _ Hix) as Hi.
  rewrite Forall_forall in Hi. destruct (Hi c Hc) as [Hsup _]. by apply (supported_no_blob _ _ _ Hsup).
Qed.

Lemma hidden_packed k buf out : row_ok cols buf -> index_held env cols buf out ->
  pack_record mem' (is_kd (t_index t)) tbl out (Some []) true (hidden_pk env k) 0 =
  pack_record mem (is_kd (t_index t)) tbl buf (Some []) true (hidden_pk env k) 0.
Proof.
  intros Hrow [_ Hh]. pose proof (hre_hidden _ Hread) as Hnh. destruct (hr_index _ _ _ Hready t Ht) as [Hix _].
  destruct (hidden_ready_parts uninit env defs Hready t Ht) as (infos & last & Hp & _).
  apply pack_record_same; [|unfold hidden_pk; by rewrite Hnh]. intros j info Hj Hlt. specialize (Hlt Hnh).
  rewrite (Hidden.hp_infos _ _ _ _ _ _ _ Hp) in *. rewrite length_app in Hlt. simpl in Hlt. rewrite lookup_app_l in Hj by lia.
  destruct (Forall2_lookup_r _ _ _ _ _ (Hidden.hp_packed _ _ _ _ _ _ _ Hp) Hj) as (c & Hc & Hpp). apply list_elem_of_lookup_2 in Hc.
  pose proof (hidden_column c Hc) as Hcp. apply list_elem_of_In in Hc, Hcp.
  pose proof (laid_out_fields_placed _ _ (hre_layout _ Hread)) as Hpl.
  unfold row_ok in Hrow. pose proof (Hidden.hd_indexed _ _ _ _ Hix) as Hin. rewrite Forall_fmap in Hpl.
  rewrite Forall_forall in Hh, Hrow, Hin, Hpl.
  apply (held_same_part mem mem' uninit tbl buf _ c info Hpp (Hin c Hc)); [apply (Hpl _ Hcp)|by apply Hrow|by apply Hh].
Qed.

End HiddenKey.

(** ** All rows *)

Section Table.

Context (env : ha_env) (defs : target -> index_def) (mem' : Z -> bytes) (rec_addr : EloqRecord -> Z).
Context (rows : gmap bytes bytes) (good : bytes -> bytes -> Prop).
Context (Htable : readable_table env defs mem' rec_addr rows good).
Context (t : target) (Ht : t ∈ targets env) (Hu : t_unique t = false).
Context (Hstored : Forall (stored_column env) (df_cols (defs t))) (vfield : list virtual_column).

Abbreviation tbl := (ha_table env).
Abbreviation size := (length (default_values tbl)).
Abbreviation kd := (is_kd (t_index t)).
Abbreviation cols := (df_cols (defs t)).

(** A virtual column that is not stored: its expression writes the column
    itself only, and no part of the index or of the primary key is this
    column. *)
Record proper_virtual (v : virtual_column) : Prop := {
  pv_save b : length b = size -> length (vf_save_in_field v b) = size /\
    forall i f, fields tbl !! i = Some f -> i <> vf_index v ->
      column_bytes f (vf_save_in_field v b) = column_bytes f b /\
      is_real_null f (vf_save_in_field v b) = is_real_null f b;
  pv_index k ki p : k = m_keyno kd \/ primary_key tbl = Some k -> key_info tbl !! k = Some ki ->
    p ∈ key_part ki -> field_index (kp_field p) <> vf_index v
}.

Context (Hv : Forall (fun v => vf_stored_in_db v = false -> proper_virtual v) vfield).

Lemma proper_harmless all : Forall (indexed tbl) all ->
  Forall (fun c => exists k ki, (k = m_keyno kd \/ primary_key tbl = Some k) /\ key_info tbl !! k = Some ki /\
                                c.1 ∈ key_part ki) all ->
  Forall (harmless env all) vfield.
Proof.
  intros Hin Hk. eapply Forall_impl; [|exact Hv]. intros v Hp Hst b Hl. destruct (Hp Hst) as [Hs Hi].
  destruct (Hs b Hl) as [Hl' Hc]. split; [done|]. rewrite Forall_forall in *. intros c Hcin.
  destruct (Hin c Hcin) as [_ Hf]. destruct (Hk c Hcin) as (k & ki & Hkk & Hki & Hpart).
  exact (Hc _ _ Hf (Hi k ki c.1 Hkk Hki Hpart)).
Qed.

Definition encoder_ok (st : sk_encoder) : Prop := length (record_0 st) = size /\ columns_read cols st.

(** What [append_entry] asks of a row. *)
Definition appendable (st : sk_encoder) (k buf : bytes) (rec : EloqRecord) : Prop :=
  exists all out key r, Forall (harmless env all) vfield /\ DecodeStored env rec_addr st k rec = Some out /\
    index_held env all buf out /\ (table_has_hidden_pk tbl = true -> ReadHiddenPkFromRowkey k = Some k) /\
    (forall out, index_held env all buf out -> pack_record mem' kd tbl out (Some []) true (hidden_pk env k) 0 =
       pack_record (ha_mem env) kd tbl buf (Some []) true (hidden_pk env k) 0) /\
    entry env t (Some []) k buf = Some (key, r).

Lemma key_part_of (ki : KEY) (l : list indexed_part) c : key_part ki = map fst l -> c ∈ l -> c.1 ∈ key_part ki.
Proof. intros -> Hc. apply list_elem_of_fmap. by exists c. Qed.

Lemma primary_appendable uninit pkd0 pk pk_cols st k buf rec :
  table_ready uninit env pkd0 pk pk_cols defs -> row_readable env pk_cols -> encoder_ok st ->
  row_good env pk_cols defs k buf -> row_record env buf = Some rec -> row_storable env pk_cols buf ->
  Z.of_nat (length (unpack_info_ rec)) < 65536 -> 0 <= rec_addr rec -> appendable st k buf rec.
Proof.
  intros Hready Hread [Hl Hset] Hg Hrec Hst Hw Ha. pose proof Hg as (Ek & Hrow & Hall).
  destruct (primary_decoded uninit env pkd0 pk pk_cols defs Hready Hread t Ht Hstored rec_addr st buf rec Hl Hset Hrow Hrec
    Hst Hw Ha) as (out & E & Hi). rewrite <- Ek in E.
  destruct (ready_entry uninit env pkd0 pk pk_cols defs Hready t k buf (Some []) Ht Hg) as (r & He & _).
  destruct (tr_index _ _ _ _ _ _ Hready t Ht) as (Hid & Hsec & Eset & _).
  destruct (key_def_setup_packed (ha_mem env) uninit tbl _ _ _ _ Hid) as (kd' & E' & _ & _ & Hkn & _).
  rewrite Eset in E'. injection E' as <-.
  exists (target_columns pk_cols (defs t)), out. do 2 eexists. split_and!; try done.
  - apply proper_harmless; [exact (indexed_columns _ _ _ _ _ Hid)|]. apply Forall_app. split; apply Forall_forall; intros c Hc.
    + exists (m_keyno kd), (df_ki (defs t)). split; [by left|]. split; [rewrite Hkn; apply (id_key _ _ _ _ _ Hid)|].
      apply (key_part_of _ _ _ (id_parts _ _ _ _ _ Hid)), list_elem_of_In, Hc.
    + destruct (id_primary _ _ _ _ _ Hid) as (kp & pk' & Hpk & Hki & [[? _]|(_ & Hparts & _)]); [congruence|].
      exists kp, pk'. split; [by right|]. split; [done|]. apply (key_part_of _ _ _ Hparts), list_elem_of_In, (proj1 (proj1 (filter_In _ _ _) Hc)).
  - by rewrite (ready_no_hidden _ _ _ _ _ _ Hready).
  - intros out' Hi'. by apply (primary_packed uninit env pkd0 pk pk_cols defs Hready Hread t Ht Hstored mem'); [apply Hall|].
Qed.

Lemma hidden_appendable uninit st k buf rec :
  hidden_ready uninit env defs -> hidden_readable env -> encoder_ok st -> hidden_good env defs k buf ->
  row_record env buf = Some rec -> Forall (Row.column_ok (ha_mem env) buf) (Row.payload 0 (ha_fields env)) ->
  0 <= rec_addr rec -> appendable st k buf rec.
Proof.
  intros Hready Hread [Hl Hset] Hg Hrec Hcols Ha. pose proof Hg as [Hk Hall].
  destruct (hidden_decoded uninit env defs Hready Hread t Ht Hstored rec_addr st k buf rec Hl Hset Hrec Hcols Ha) as (out & E & Hi).
  destruct (hidden_ready_entry uninit env defs Hready t k buf (Some []) Ht Hg) as (r & He).
  destruct (hr_index _ _ _ Hready t Ht) as [Hid Eset].
  exists cols, out. do 2 eexists. split_and!; try done.
  - apply proper_harmless; [exact (Hidden.hd_indexed _ _ _ _ Hid)|]. apply Forall_forall. intros c Hc.
    exists (m_keyno kd), (df_ki (defs t)). split; [by left|]. split.
    + rewrite (setup_keyno _ _ _ _ Eset). apply (Hidden.hd_key _ _ _ _ Hid).
    + apply (key_part_of _ _ _ (Hidden.hd_parts _ _ _ _ Hid)), list_elem_of_In, Hc.
  - intros _. unfold ReadHiddenPkFromRowkey. rewrite <- (app_nil_r k), Rd.read_app by exact Hk. by rewrite app_nil_r.
  - intros out' Hi'. by apply (hidden_packed uninit env defs Hready Hread t Ht Hstored mem'); [apply Hall|].
Qed.

Lemma appended st k buf rec ts dest : encoder_ok st -> rows !! k = Some buf -> good k buf -> row_record env buf = Some rec ->
  exists st' key r, AppendPackedSk env kd vfield mem' rec_addr st k rec ts dest =
      Some (st', dest ++ [{| we_key := key; we_rec := r; we_commit_ts := ts |}], 1) /\
    encoder_ok st' /\ entry env t (Some []) k buf = Some (key, r).
Proof.
  intros Hok Hk Hg Hrec. assert (appendable st k buf rec) as (all & out & key & r & Hh & E & Hi & Hhid & Hp & He).
  { destruct Htable as [uninit pkd0 pk pk_cols Hready Hread Hrows|uninit Hready Hread Hrows].
    - destruct (Hrows k buf rec Hk Hrec) as (Hst & Hw & Ha & _). by apply (primary_appendable uninit pkd0 pk pk_cols).
    - destruct (Hrows k buf rec Hk Hrec) as (Hcols & Ha & _). by apply (hidden_appendable uninit). }
  destruct (append_entry env t all vfield mem' rec_addr Hh st k buf rec ts dest out key r E Hi Hu Hhid Hp He)
    as (st' & Ha & Hl & Hs).
  exists st', key, r. split_and!; [done| |done]. split; [done|]. destruct Hok as [_ Hset].
  eapply Forall_impl; [|exact Hset]. intros c. apply Hs.
Qed.

(** A record of the base table, with its timestamp. *)
Definition base_record (r : bytes * EloqRecord * Z) : Prop :=
  exists buf, rows !! r.1.1 = Some buf /\ good r.1.1 buf /\ row_record env buf = Some r.1.2.

Definition entry_of (r : bytes * EloqRecord * Z) (e : WriteEntry) : Prop :=
  exists buf, rows !! r.1.1 = Some buf /\ entry env t (Some []) r.1.1 buf = Some (we_key e, we_rec e) /\
    we_commit_ts e = r.2.

Lemma all_appended l : forall st dest, encoder_ok st -> Forall base_record l ->
  exists st' entries, AppendAll env kd vfield mem' rec_addr st l dest = Some (st', dest ++ entries, 1) /\
    Forall2 entry_of l entries.
Proof.
  induction l as [|[[k rec] ts] l IH]; intros st dest Hok Hl.
  { exists st, []. by rewrite app_nil_r. }
  apply Forall_cons_iff in Hl as [(buf & Hk & Hg & Hrec) Hl]. cbn [fst snd] in *.
  destruct (appended st k buf rec ts dest Hok Hk Hg Hrec) as (st1 & key & r & E & Hok1 & He).
  cbn [AppendAll]. rewrite E. cbn [Z.eqb].
  destruct (IH st1 (dest ++ [{| we_key := key; we_rec := r; we_commit_ts := ts |}]) Hok1 Hl) as (st' & es & -> & Hes).
  eexists st', (_ :: es). rewrite <- app_assoc. split; [done|]. constructor; [|done]. by exists buf.
Qed.

(** The columns of the index are marked. *)
Lemma marked_columns ps s : Forall (fun p => field_index (kp_field p) ∈
    foldl (fun s p => register_field_in_read_map vfield (field_index (kp_field p)) s) s ps) ps /\
  s ⊆ foldl (fun s p => register_field_in_read_map vfield (field_index (kp_field p)) s) s ps.
Proof.
  revert s. induction ps as [|p ps IH]; intros s; simpl; [done|].
  destruct (IH (register_field_in_read_map vfield (field_index (kp_field p)) s)) as [H1 H2].
  assert (field_index (kp_field p) ∈ register_field_in_read_map vfield (field_index (kp_field p)) s /\
    s ⊆ register_field_in_read_map vfield (field_index (kp_field p)) s) as [H3 H4].
  { unfold register_field_in_read_map. destruct (vcol_info _ _); set_solver. }
  split; [constructor; [by apply H2|done]|set_solver].
Qed.

Lemma index_parts : exists ki, key_info tbl !! m_keyno kd = Some (df_ki (defs t)) /\ ki = df_ki (defs t) /\
  key_part ki = map fst cols.
Proof.
  exists (df_ki (defs t)). destruct Htable as [uninit pkd0 pk pk_cols Hready _ _|uninit Hready _ _].
  - destruct (tr_index _ _ _ _ _ _ Hready t Ht) as (Hid & _ & Eset & _). rewrite (setup_keyno _ _ _ _ Eset).
    split_and!; [apply (id_key _ _ _ _ _ Hid)|done|apply (id_parts _ _ _ _ _ Hid)].
  - destruct (hr_index _ _ _ Hready t Ht) as [Hid Eset]. rewrite (setup_keyno _ _ _ _ Eset).
    split_and!; [apply (Hidden.hd_key _ _ _ _ Hid)|done|apply (Hidden.hd_parts _ _ _ _ Hid)].
Qed.

Lemma marked st : user_defined_key_parts (df_ki (defs t)) = length cols -> length (record_0 st) = size ->
  exists st', MarkIndexColumnsForRead env kd vfield st = Some st' /\ encoder_ok st'.
Proof.
  intros Hud Hl. destruct index_parts as (ki & Hki & -> & Hparts). unfold MarkIndexColumnsForRead. rewrite Hki, Hparts, Hud.
  eexists. split; [reflexivity|]. split; [done|]. unfold columns_read. simpl. rewrite take_ge by (by rewrite length_map).
  destruct (marked_columns (map fst cols) (read_set st)) as [H _]. by rewrite Forall_fmap in H.
Qed.

(** The entries are those of all rows, when the records are. *)
Lemma entries_exact l entries : Forall2 entry_of l entries -> (forall k, is_Some (rows !! k) -> k ∈ map (fun r => r.1.1) l) ->
  forall key r, (exists e, e ∈ entries /\ we_key e = key /\ we_rec e = r) <->
                (exists k buf, rows !! k = Some buf /\ entry env t (Some []) k buf = Some (key, r)).
Proof.
  intros H Hall key r. split.
  - intros (e & He & <- & <-). apply list_elem_of_lookup in He as [i He].
    destruct (Forall2_lookup_r _ _ _ _ _ H He) as (x & _ & buf & Hb & Hen & _). by exists x.1.1, buf.
  - intros (k & buf & Hb & Hen). destruct (list_elem_of_fmap_1 _ _ _ (Hall k ltac:(by rewrite Hb))) as (x & -> & Hx).
    apply list_elem_of_lookup in Hx as [i Hx]. destruct (Forall2_lookup_l _ _ _ _ _ H Hx) as (e & He & buf' & Hb' & Hen' & _).
    rewrite Hb in Hb'. injection Hb' as <-. rewrite Hen in Hen'. injection Hen' as -> ->.
    exists e. split; [by eapply list_elem_of_lookup_2|done].
Qed.

End Table.

(** C14: the entries of a new index.  For the records of rows, in whatever
    order, a new encoder returns without an error and gives for every record the
    entry, key and unpack info, that the handler writes for the row while the
    index is being built, with the timestamp of the record; and when the records
    are those of all rows, the entries are exactly those of the rows of the
    table.  Virtual columns beside the index do not matter, nor does what the
    record buffer of the encoder held before. *)
Theorem backfill_correct env defs mem' rec_addr rows good t vfield st0 l :
  readable_table env defs mem' rec_addr rows good -> t ∈ targets env -> t_unique t = false ->
  Forall (stored_column env) (df_cols (defs t)) ->
  Forall (fun v => vf_stored_in_db v = false -> proper_virtual env t v) vfield ->
  user_defined_key_parts (df_ki (defs t)) = length (df_cols (defs t)) ->
  length (record_0 st0) = length (default_values (ha_table env)) -> Forall (base_record env rows good) l ->
  exists st st' entries, MarkIndexColumnsForRead env (is_kd (t_index t)) vfield st0 = Some st /\
    AppendAll env (is_kd (t_index t)) vfield mem' rec_addr st l [] = Some (st', entries, 1) /\
    Forall2 (entry_of env rows t) l entries /\
    ((forall k, is_Some (rows !! k) -> k ∈ map (fun r => r.1.1) l) ->
     forall key r, (exists e, e ∈ entries /\ we_key e = key /\ we_rec e = r) <->
                   (exists k buf, rows !! k = Some buf /\ entry env t (Some []) k buf = Some (key, r))).
Proof.
  intros Ht Hin Hu Hst Hv Hud Hl Hrec.
  destruct (marked env defs mem' rec_addr rows good Ht t Hin Hu Hst vfield Hv st0 Hud Hl) as (st & Em & Hok).
  destruct (all_appended env defs mem' rec_addr rows good Ht t Hin Hu Hst vfield Hv l st [] Hok Hrec) as (st' & es & E & Hes).
  exists st, st', es. split_and!; [done..|]. by apply entries_exact.
Qed.

(** ** The sample table, with an index on a that is being added *)

Definition b_env : ha_env := {|
  ha_table := ha_table t_env; ha_mem := ha_mem t_env; ha_fields := ha_fields t_env;
  base_table_name := base_table_name t_env; base_version := base_version t_env; pk_descr_ := pk_descr_ t_env;
  IndexNameSchema := IndexNameSchema t_env; DirtyIndexes := [t_schema "t*c"%string 1]; is_insert_semantic_ := true;
  next_number_index := None; lock_write := true; lock_shared := false; is_covering := false |}.

Definition b_target : target := {| t_kid := 3; t_unique := false; t_index := t_schema "t*c"%string 1 |}.

Definition b_def (t : target) : index_def :=
  if (t_kid t =? 3)%nat then {| df_kd0 := t_sk_kd 1; df_ki := unique_key f_a; df_cols := [int_part f_a] |} else t_def t.

Lemma b_targets t : t ∈ targets b_env <-> t ∈ targets t_env \/ t = b_target.
Proof. rewrite t_targets. change (targets b_env) with (targets t_env ++ [b_target]). rewrite t_targets. set_solver. Qed.

Lemma t_kid_small t : t ∈ targets t_env -> b_def t = t_def t.
Proof. rewrite t_targets. by intros [->|[->|[]%elem_of_nil]%elem_of_cons]%elem_of_cons. Qed.

Lemma sk_ready : table_ready sample_uninit b_env t_pk_kd (unique_key f_id) [int_part f_id] b_def.
Proof.
  destruct t_ready as [H1 H2 H3 H4 H5 H6 H7]. split; [exact H1|exact H2|exact H3| | | |].
  - intros t [Ht| ->]%b_targets; [rewrite (t_kid_small t Ht); exact (H4 t Ht)|].
    exact (H4 {| t_kid := 1; t_unique := true; t_index := t_schema "t*a"%string 1 |} ltac:(rewrite t_targets; set_solver)).
  - intros t [Ht| ->]%b_targets Hu; [rewrite (t_kid_small t Ht); exact (H5 t Ht Hu)|done].
  - by apply (bool_decide_unpack _).
  - exact H7.
Qed.

Lemma b_readable : row_readable b_env [int_part f_id].
Proof. destruct t_readable as [H1 H2 H3 H4 H5 H6]. split; [exact H1|exact H2|exact H3|exact H4|exact H5|exact H6]. Qed.

Lemma b_table : readable_table b_env b_def t_mem (fun _ => 1000) {[t_key row_1 := row_1]} (row_good b_env [int_part f_id] b_def).
Proof.
  apply (readable_primary _ _ _ _ _ sample_uninit t_pk_kd (unique_key f_id)); [exact sk_ready|exact b_readable|].
  intros k buf rec Hk Hrec. exact (t_rows_readable k buf rec Hk Hrec).
Qed.

(** A virtual column in the place of b. *)
Definition b_virtual : virtual_column := {|
  vf_index := 2; vf_stored_in_db := false; vf_part_key := true; vf_expr_columns := [0%nat];
  vf_save_in_field := write_at (ptr f_b) [7; 0; 0; 0] |}.

Lemma b_virtual_proper : proper_virtual b_env b_target b_virtual.
Proof.
  split.
  - intros b Hl. change (length b = 13%nat) in Hl. split; [cbn [vf_save_in_field b_virtual]; rewrite length_write_at; [exact Hl|simpl; lia]|].
    intros i f Hi Hne. apply (write_column_other 13 f_b); [by apply int_placed; simpl; lia| |done|simpl; lia].
    destruct i as [|[|[|i]]]; [| |done|done]; injection Hi as <-; apply int_apart; simpl; lia.
  - intros k ki p [->|[= <-]] [= <-] [->|[]%elem_of_nil]%elem_of_cons; done.
Qed.

Lemma row_1_base : base_record b_env {[t_key row_1 := row_1]} (row_good b_env [int_part f_id] b_def) (t_key row_1, row_1_record, 5).
Proof.
  exists row_1. split; [apply lookup_singleton_eq|]. split; [|exact row_1_record_eq].
  destruct row_1_ok as (H1 & H2 & H3). split; [exact H1|]. split; [exact H2|].
  intros t [Ht| ->]%b_targets; [rewrite (t_kid_small t Ht); exact (H3 t Ht)|].
  exact (H3 {| t_kid := 1; t_unique := true; t_index := t_schema "t*a"%string 1 |} ltac:(rewrite t_targets; set_solver)).
Qed.

Definition b_encoder : sk_encoder := {| record_0 := replicate 13 255; read_set := ∅; write_set := ∅ |}.

Lemma backfill_witness :
  exists st st' entries, MarkIndexColumnsForRead b_env (is_kd (t_index b_target)) [b_virtual] b_encoder = Some st /\
    AppendAll b_env (is_kd (t_index b_target)) [b_virtual] t_mem (fun _ => 1000) st [(t_key row_1, row_1_record, 5)] [] =
      Some (st', entries, 1) /\
    Forall2 (entry_of b_env {[t_key row_1 := row_1]} b_target) [(t_key row_1, row_1_record, 5)] entries.
Proof.
  destruct (backfill_correct b_env b_def t_mem (fun _ => 1000) {[t_key row_1 := row_1]} (row_good b_env [int_part f_id] b_def)
    b_target [b_virtual] b_encoder [(t_key row_1, row_1_record, 5)]) as (st & st' & es & H1 & H2 & H3 & _).
  - exact b_table.
  - apply b_targets. by right.
  - reflexivity.
  - constructor; [|constructor]. eexists. split; [reflexivity|]. split; reflexivity.
  - constructor; [|constructor]. intros _. exact b_virtual_proper.
  - reflexivity.
  - reflexivity.
  - constructor; [exact row_1_base|constructor].
  - exists st, st', es. split; [exact H1|]. split; [exact H2|exact H3].
Defined.

(** The row 1, 10, 20: the entry of 10. *)
Example backfill_run :
  match MarkIndexColumnsForRead b_env (is_kd (t_index b_target)) [b_virtual] b_encoder with
  | Some st =>
      match AppendAll b_env (is_kd (t_index b_target)) [b_virtual] t_mem (fun _ => 1000) st [(t_key row_1, row_1_record, 5)] [] with
      | Some (_, entries, rc) => (map we_key entries, rc)
      | None => ([], 0)
      end
  | None => ([], 0)
  end = ([[128; 0; 0; 10; 128; 0; 0; 1]], 1).
Proof. by vm_compute. Qed.

End Backfill.
