(* ===== verification/IndexScan.v ===== *)
(** * IndexScan: scans of the primary index

    [index_read_map] for a range and [index_next] (storage/eloq/ha_eloq.cc): the
    rows that the search asks for, in the order of the index. *)

From Stdlib Require Import Sorted.
From stdpp Require Import gmap strings.
From S2P Require Import Prelude Slice Buff Charset Latin1 Copy Collation Field Placement Store.
From S2P Require Import Codec Packing VarFormat SpacePad Varchar KeySetup KeyDef KeyOrder Index KeyRead PkTuple.
From S2P Require Import Neighbour Double EloqKey Restore RoundTrip Layout KeyTuple Row Entry Hidden Handler Consistency.
From S2P Require Import Tables Statements Scan Read Cursor ScanRows.
Import Field Packing KeyDef KeyOrder Index KeyRead Layout KeyTuple EloqKey Entry Handler Consistency Tables Statements Scan Read Cursor ScanRows.

Module IndexScan.

(** ** Ranges *)

Lemma key_past_bytes direction inclusive from k :
  key_past direction inclusive (key_of_bytes from) k <-> past direction inclusive from k.
Proof.
  unfold key_past, past. rewrite key_eqb_cmp. destruct direction; rewrite key_ltb_cmp; unfold key_cmp; simpl; [done|].
  rewrite (lex_cmp_antisym from k). destruct (lex_cmp k from); simpl; intuition congruence.
Qed.

(** The scan that is opened for a range asks for the keys in the range. *)
Lemma requested_in_scan req r k : so_start req = key_of_bytes (sr_start r) -> so_start_inclusive req = sr_start_inclusive r ->
  so_direction req = sr_direction r -> so_end req = key_of_bytes <$> (fst <$> sr_end r) ->
  so_end_inclusive req = match sr_end r with Some (_, b) => b | None => true end ->
  requested_key req k <-> in_scan r k.
Proof.
  intros E1 E2 E3 E4 E5. unfold requested_key, in_scan. rewrite E1, E2, E3, E4, E5, key_past_bytes.
  destruct (sr_end r) as [[e b]|]; [|done]. simpl. rewrite key_past_bytes. by destruct (sr_direction r).
Qed.

Lemma PrepareScan_direction mem key_addr ext tbl kd is_primary cnt rb key map flag full e b r :
  PrepareScan mem key_addr ext tbl kd is_primary cnt rb key map flag full e b = Some (inr r) ->
  exists incl pm, SetScanParameters flag = inr (sr_direction r, incl, pm).
Proof.
  unfold PrepareScan. destruct (SetScanParameters flag) as [|[[direction incl] pm]]; [done|].
  intros E. exists incl, pm. repeat case_match; simplify_eq/=; done.
Qed.

(** The rows that were read are in order. *)
Definition rows_ordered (rows : gmap bytes bytes) (before : bytes -> bytes -> Prop) (direction : ScanDirection)
    (outs : list (bytes * bytes)) : Prop :=
  StronglySorted (fun o1 o2 => forall b1 b2, rows !! o1.1 = Some b1 -> rows !! o2.1 = Some b2 ->
    match direction with Forward => before b1 b2 | Backward => before b2 b1 end) outs.

Lemma StronglySorted_map {A B} (f : A -> B) (R : B -> B -> Prop) (R' : A -> A -> Prop) l :
  (forall x y, R (f x) (f y) -> R' x y) -> StronglySorted R (map f l) -> StronglySorted R' l.
Proof.
  intros HR. induction l as [|x l IH]; cbn [map]; intros H; [constructor|]. apply StronglySorted_inv in H as [H1 H2].
  constructor; [by apply IH|]. rewrite Forall_map in H2. revert H2. apply Forall_impl. intros y. apply HR.
Qed.

Lemma row_key_cmp mem tbl uninit cols infos a b :
  Forall2 (part_packed mem uninit tbl) cols infos -> row_ok cols a -> row_ok cols b ->
  lex_cmp (row_key mem cols infos a) (row_key mem cols infos b) = parts_cmp (map fst cols) a b.
Proof.
  intros Hp Ha Hb. unfold row_key. rewrite <- (columns_of_cmp mem uninit tbl _ _ a b Hp).
  pose proof (mem_cmp_index mem tbl _ _ (columns_of_packs mem uninit tbl _ _ Hp)) as HM.
  by apply (mem_cmp_nil (MemCmp0 := HM)); eapply columns_of_ok.
Qed.

(** ** The calls *)

(** [index_next] reports every end in the same way. *)
Lemma index_next_of {S D : Type} `{!TxService S, !TxLaws S} env decode_set rec_addr size inv (s : S) l
    (r : option (ha_state S * cursor D * Z * bytes)) :
  next_of env decode_set rec_addr size inv s l r ->
  next_of env decode_set rec_addr size inv s l
    match r with
    | None => None
    | Some (st, cur, rc, buf) =>
        Some (st, cur,
              if negb (rc =? 0) && ((rc =? HA_ERR_END_OF_FILE) || (rc =? HA_ERR_KEY_NOT_FOUND)) then HA_ERR_END_OF_FILE else rc,
              buf)
    end.
Proof.
  intros (st & cur & rc & out & -> & Hs & Hl & Hc). do 4 eexists. split; [reflexivity|]. split_and!; [done|done|].
  change ((rc =? HA_ERR_END_OF_FILE) || (rc =? HA_ERR_KEY_NOT_FOUND)) with (is_end rc).
  destruct Hc as [(-> & H)|[[He ->]|[H0 He]]].
  - by left.
  - right. left. rewrite He, (proj2 (Z.eqb_neq _ _)) by by apply is_end_nonzero. done.
  - right. right. by rewrite He, andb_false_r.
Qed.

Section Primary.

Context {S D : Type} `{!TxService S, !TxLaws S, !ScanService S, !ScanLaws S, !DataStoreScanner D, !ScannerLaws D}.
Context (storage_hd : option (DataStoreHandler S)) (env : ha_env) (ai : option nat) (decode_set : nat -> bool).
Context (random_sort mrr : bool) (thd_killed : nat -> bool) (rec_addr : EloqRecord -> Z) (t : target).
Context (icp rowid_filter : option (bytes -> check_result_t)) (ref_length : nat) (std_sort : list key_order -> list key_order).
Context (key_addr : bytes -> Z) (ext : bool) (end_range : option key_range).

Abbreviation size := (length (default_values (ha_table env))).
Abbreviation Next := (index_next storage_hd env ai decode_set mrr thd_killed rec_addr t icp rowid_filter ref_length std_sort).
Abbreviation ReadRange := (index_read_range storage_hd env ai decode_set random_sort mrr thd_killed rec_addr t icp
  rowid_filter ref_length std_sort key_addr ext end_range).

Context (Hprimary : on_primary env ai = true).

Lemma primary_next direction fuel st cur out l : pk_scan_at env decode_set rec_addr direction fuel st cur l -> length out = size ->
  next_of env decode_set rec_addr size (pk_scan_at env decode_set rec_addr direction fuel) (txm st) l (Next fuel st cur out).
Proof. intros Hat Hl. unfold index_next, IndexScanNext. rewrite Hprimary. by apply index_next_of, pk_next. Qed.

Lemma primary_read_range (good : bytes -> bytes -> Prop) (rows : gmap bytes bytes) mem' cnt rb key map flag r st cur out :
  PrepareScan (ha_mem env) key_addr ext (ha_table env) (pk_descr_ env) true cnt rb key map flag (use_full_key cnt map)
    end_range (range_start cur) = Some (inr r) ->
  rows_decodable env decode_set rec_addr mem' rows -> consistent env good rows (txm st) ->
  closable env cur -> prefix_match_key_ cur = None -> decodes env decode_set = true -> length out = size ->
  let req := pk_scan_request env ai decode_set random_sort (key_of_bytes (sr_start r)) (sr_start_inclusive r)
    (key_of_bytes <$> (fst <$> sr_end r)) (match sr_end r with Some (_, b) => b | None => true end) (sr_direction r) in
  exists l, scan_content (txm st) req l /\
    forall fuel n, (length l < fuel)%nat ->
      all_of env decode_set rec_addr size (present l) (Datatypes.S n) (txm st)
        (go_on (ReadRange fuel st cur cnt rb out key map flag) (read_rows (Next fuel) n)).
Proof.
  intros Er Hdec Hco Hc Hp Hd Hl req. unfold index_read_range, IndexScanOpen, IndexScanNext, active_kd.
  destruct (close_if_open_spec env st cur Hc) as (st1 & cur1 & -> & Hs1 & _ & Hp1 & Ho1 & Hsr). rewrite Hprimary, Hsr, Er. fold req.
  destruct (PkIndexScanOpen_spec env decode_set ai random_sort st1 cur1 (key_of_bytes (sr_start r)) (sr_start_inclusive r)
    (key_of_bytes <$> (fst <$> sr_end r)) (match sr_end r with Some (_, b) => b | None => true end) (sr_direction r)
    (or_introl Ho1) (Hp1 Hp)) as (st2 & cur2 & l & -> & Hs2 & Hb & _ & Hcon). cbv zeta in Hcon. fold req in Hcon.
  assert (scan_content (txm st) req l) as Hcont.
  { eapply scan_content_same; [exact Hs1|]. apply Hcon; simpl; rewrite Hd; by rewrite ?orb_true_r. }
  exists l. split; [done|]. intros fuel n Hf.
  apply (go_on_spec _ _ _ _ (pk_scan_at env decode_set rec_addr (sr_direction r) fuel)).
  - apply (next_of_same _ _ _ _ _ _ (txm st2)); [by eapply same_data_trans|]. apply pk_next; [|done].
    by apply (content_at env decode_set rec_addr mem' good rows Hdec _ _ (txm st) req).
  - intros st3 cur3 out3 l3 H3 Hl3. apply (read_rows_spec _ _ _ _ _ _ _ _ _ _ _ (primary_next (sr_direction r) fuel) H3 Hl3).
Qed.

End Primary.

(** C16: a range scan of the primary index returns the rows that the search
    asks for.  [index_read_map] for a range of the primary index, followed by
    [index_next], returns rows of the table whose columns compare as the search
    asks, no row twice, in the order of the primary key or, for a backward
    scan, against it, each with its requested columns in the record buffer;
    when the end is reported all such rows have been returned; and after
    finitely many calls the end or an error is reported. *)
Theorem primary_scan_correct {S D : Type} `{!TxService S, !TxLaws S, !ScanService S, !ScanLaws S, !DataStoreScanner D, !ScannerLaws D}
    (storage_hd : option (DataStoreHandler S)) (uninit : mono_field_packing) (env : ha_env) (pkd0 : mono_key_def) (pk : KEY)
    (pk_cols : list indexed_part) (defs : target -> index_def) (rows : gmap bytes bytes) mem' rec_addr decode_set random_sort mrr
    thd_killed t icp rowid_filter ref_length std_sort key_addr ext record_buffer parts rec key flag end_ start
    (st : ha_state S) (cur : cursor D) (out : bytes) :
  let ai := primary_key (ha_table env) in
  let cnt := actual_n_key_parts ext pk in
  table_ready uninit env pkd0 pk pk_cols defs ->
  readable_table env defs mem' rec_addr rows (row_good env pk_cols defs) ->
  consistent env (row_good env pk_cols defs) rows (txm st) -> (forall k buf, rows !! k = Some buf -> bytes_ok buf) ->
  searchable ext (length (default_values (ha_table env))) (ha_table env) pkd0 pk pk_cols [] true ->
  supported_flag flag -> search_key ext pk pk_cols parts rec key ->
  bound_ok ext pk pk_cols end_ -> bound_ok ext pk pk_cols start ->
  length record_buffer = length (default_values (ha_table env)) -> bytes_ok record_buffer ->
  closable env cur -> prefix_match_key_ cur = None -> range_start cur = range_of <$> start -> decodes env decode_set = true ->
  length out = length (default_values (ha_table env)) ->
  exists direction incl pm bound, SetScanParameters flag = inr (direction, incl, pm) /\
    forall fuel n, (bound < fuel)%nat ->
    exists outs rc st' cur',
      go_on (index_read_range storage_hd env ai decode_set random_sort mrr thd_killed rec_addr t icp rowid_filter ref_length
               std_sort key_addr ext (range_of <$> end_) fuel st cur cnt record_buffer out key
               (2 ^ Z.of_nat parts - 1) flag)
        (read_rows (index_next storage_hd env ai decode_set mrr thd_killed rec_addr t icp rowid_filter ref_length std_sort fuel) n) =
        Some (outs, rc, st', cur') /\
      same_data (txm st) (txm st') /\
      scanned env decode_set mem' rows (fun _ buf => scan_condition pk_cols flag parts rec end_ start buf) outs rc /\
      rows_ordered rows (fun a b => parts_cmp (map fst pk_cols) a b = Lt) direction outs /\
      ((bound <= n)%nat -> rc <> 0).
Proof.
  intros ai cnt Hr Hrt Hco Hbytes Hse Hflag Hsk He Hst Hlb Hbb Hc Hp Hsr Hd Hl.
  pose proof (readable_rows env defs mem' rec_addr rows _ _ decode_set Hrt Hco) as Hdec.
  assert (on_primary env ai = true) as Hon by by apply bool_decide_true.
  pose proof Hse as [Hid Ht Hlo Hpos Hlen Hparts Hprim].
  destruct (setup_ready (ha_mem env) uninit (ha_table env) pkd0 pk pk_cols [] Hid) as (kd & E & Hpr & _ & _ & Hk & Hm & _).
  rewrite (tr_pk_setup _ _ _ _ _ _ Hr) in E. injection E as <-.
  destruct (prepare_scan_located (ha_mem env) key_addr ext _ uninit (ha_table env) pkd0 pk pk_cols [] Hid Ht Hlo Hpos Hlen
    (length (index_columns pk pk_cols [])) ltac:(unfold index_columns; rewrite length_app; lia) (pk_descr_ env) true Hpr Hm Hk) with (record_buffer := record_buffer) (n := parts) (rec := rec) (key := key) (flag := flag)
    (e := end_) (b := start) as (r & Er & Hin); try done.
  { intros _. split; [apply app_nil_r|apply (Hprim eq_refl)]. }
  rewrite firstn_all, take_ge in Hin by by rewrite (Forall2_length Hpr).
  rewrite (app_nil_r pk_cols : index_columns pk pk_cols [] = pk_cols) in *.
  rewrite <- Hsr in Er. destruct (primary_read_range storage_hd env ai decode_set random_sort mrr thd_killed rec_addr t icp rowid_filter ref_length
    std_sort key_addr ext _ Hon _ rows mem' cnt record_buffer key _ flag r st cur out Er Hdec Hco Hc Hp Hd Hl)
    as (l & Hcont & Hall). set (req := pk_scan_request _ _ _ _ _ _ _ _ _) in Hcont.
  destruct (PrepareScan_direction _ _ _ _ _ _ _ _ _ _ _ _ _ _ _ Er) as (incl & pm & Hf).
  exists (sr_direction r), incl, pm, (length l). split; [done|].
  intros fuel n Hfuel.
  assert (forall k buf, rows !! k = Some buf -> in_scan r k <-> scan_condition pk_cols flag parts rec end_ start buf) as Hsel.
  { intros k buf Hkb. destruct (co_good _ _ _ _ Hco k buf Hkb) as (-> & Hok & _). apply Hin; [done|by eapply Hbytes]. }
  edestruct (base_scanned (D := D) env decode_set rec_addr mem' (row_good env pk_cols defs) rows Hdec (txm st) req l
    (fun _ buf => scan_condition pk_cols flag parts rec end_ start buf))
    as (outs & rc & st' & cur' & E & Hs & Hsc & Hsort & Hn); [exact Hco| |exact Hcont| |exact (Hall fuel n Hfuel)|].
  { done. }
  { intros k buf Hkb. rewrite (requested_in_scan _ r k) by done. exact (Hsel k buf Hkb). }
  exists outs, rc, st', cur'. split_and!; [done|done|done| |intros; apply Hn; lia].
  assert (bool_decide (ai <> None) = true) as Hai.
  { apply bool_decide_true. pose proof (index_definition_pk _ _ _ _ _ Hid) as Hh. unfold table_has_hidden_pk in Hh.
    unfold ai. by destruct (primary_key (ha_table env)). }
  eapply StronglySorted_map; [|apply Hsort; simpl; by rewrite Hai, Hd, orb_true_r]. intros [k1 o1] [k2 o2] Hkey b1 b2 H1 H2.
  simpl in *. destruct (co_good _ _ _ _ Hco k1 b1 H1) as (-> & Hok1 & _), (co_good _ _ _ _ Hco k2 b2 H2) as (-> & Hok2 & _).
  pose proof (ready_packed _ _ _ _ _ Hpr) as Hpacked.
  destruct (sr_direction r); by rewrite <- (row_key_cmp (ha_mem env) (ha_table env) uninit _ _ _ _ Hpacked).
Qed.

Lemma t_rows_bytes k buf : ({[t_key row_1 := row_1]} : gmap bytes bytes) !! k = Some buf -> bytes_ok buf.
Proof. intros [_ <-]%lookup_singleton_Some. by apply (bool_decide_unpack _). Qed.

Lemma primary_scan_witness :
  exists direction incl pm bound, SetScanParameters HA_READ_KEY_OR_NEXT = inr (direction, incl, pm) /\
    forall fuel n, (bound < fuel)%nat ->
    exists outs rc st' cur',
      go_on (index_read_range None t_env (Some 0%nat) (fun _ => true) false false (fun _ => false) (fun _ => 1000) t_index_a None None 8
               (fun l => l) (fun _ => 0) false None fuel (with_scan t_one) closed_cursor 1 (replicate 13 0) (replicate 13 255)
               id_tuple (2 ^ Z.of_nat 1 - 1) HA_READ_KEY_OR_NEXT)
        (read_rows (index_next None t_env (Some 0%nat) (fun _ => true) false (fun _ => false) (fun _ => 1000) t_index_a None None 8
               (fun l => l) fuel) n) = Some (outs, rc, st', cur') /\ ((bound <= n)%nat -> rc <> 0).
Proof.
  destruct (primary_scan_correct (D := unit) None sample_uninit t_env t_pk_kd (unique_key f_id) [int_part f_id] t_def
    {[t_key row_1 := row_1]} t_mem (fun _ => 1000) (fun _ => true) false false (fun _ => false) t_index_a None None 8 (fun l => l)
    (fun _ => 0) false (replicate 13 0) 1 row_1 id_tuple HA_READ_KEY_OR_NEXT None None (with_scan t_one) closed_cursor
    (replicate 13 255) t_ready t_readable_table) as (direction & incl & pm & bound & Hp & H).
  - exact (with_scan_consistent _ _ _ _ t_one_consistent).
  - exact t_rows_bytes.
  - exact t_searchable_pk.
  - by eexists.
  - exact id_search_key.
  - done.
  - done.
  - reflexivity.
  - by apply (bool_decide_unpack _).
  - by left.
  - reflexivity.
  - reflexivity.
  - by vm_compute.
  - reflexivity.
  - exists direction, incl, pm, bound. split; [exact Hp|]. intros fuel n Hf.
    destruct (H fuel n Hf) as (outs & rc & st' & cur' & E & _ & _ & _ & Hn). exists outs, rc, st', cur'. split; [exact E|exact Hn].
Defined.

End IndexScan.
