(* ===== verification/SkScan.v ===== *)
(** * SkScan: what a scan of a secondary index returns

    [SkIndexScanNext] (storage/eloq/ha_eloq.cc) collects entries that pass the
    conditions, reads their rows in one request sorted by primary key, and
    returns the rows in the order of the entries. *)

From Stdlib Require Import Sorted.
From stdpp Require Import gmap strings.
From S2P Require Import Prelude Slice Buff Charset Latin1 Copy Collation Field Placement Store.
From S2P Require Import Codec Packing VarFormat SpacePad Varchar KeySetup KeyDef KeyOrder Index KeyRead PkTuple.
From S2P Require Import Neighbour Double EloqKey Restore RoundTrip Layout KeyTuple Row Entry Hidden Handler Consistency.
From S2P Require Import Tables Statements Scan Read Cursor ScanRows IndexScan.
Import Field Packing KeyDef KeyOrder Index KeyRead Layout KeyTuple EloqKey Entry Handler Consistency Tables Statements.
Import Scan Read Cursor ScanRows IndexScan.

Module SkScan.

Section SkScan.

Context {S D : Type} `{!TxService S, !TxLaws S, !ScanService S, !ScanLaws S, !DataStoreScanner D, !ScannerLaws D}.
Context (storage_hd : option (DataStoreHandler S)) (env : ha_env) (decode_set : nat -> bool) (mrr : bool).
Context (thd_killed : nat -> bool) (rec_addr : EloqRecord -> Z) (t : target).
Context (icp rowid_filter : option (bytes -> check_result_t)) (ref_length : nat) (std_sort : list key_order -> list key_order).

Abbreviation size := (length (default_values (ha_table env))).
Abbreviation check := (check_entry env decode_set t icp rowid_filter ref_length).

(** ** Collecting entries *)

(** The verdict on every entry. *)
Context (vd : ScanBatchTuple -> verdict) (Hneed : is_pk_scan_needed env mrr = true).

Definition judged (tu : ScanBatchTuple) : Prop :=
  vd tu <> Unread /\ forall out, length out = size ->
    exists out' pk, check out (tu_key tu) (tu_record tu) = Some (out', pk, vd tu) /\ length out' = size.

Definition entry_ok (tu : ScanBatchTuple) : Prop :=
  tu_status tu = RecordDeleted \/ tu_status tu = RecordNormal /\ judged tu.

(** The keys of the rows whose entries are accepted, up to the end of the
    range. *)
Fixpoint accepted (L : list ScanBatchTuple) : list bytes :=
  match L with
  | [] => []
  | tu :: L =>
      match tu_status tu with
      | RecordNormal => match vd tu with Accept pk => pk :: accepted L | EndOfRange => [] | _ => accepted L end
      | _ => accepted L
      end
  end.

Lemma accepted_elem L pk : pk ∈ accepted L -> exists tu, tu ∈ L /\ tu_status tu = RecordNormal /\ vd tu = Accept pk.
Proof.
  induction L as [|tu L IH]; cbn [accepted]; [by intros ?%elem_of_nil|]. intros Hin.
  assert (pk ∈ accepted L \/ tu_status tu = RecordNormal /\ vd tu = Accept pk) as [H|[? ?]].
  { destruct (tu_status tu); [destruct (vd tu)|..]; try (by left); [|by apply elem_of_nil in Hin].
    apply elem_of_cons in Hin as [->|?]; [by right|by left]. }
  - destruct (IH H) as (tu' & ? & ?). exists tu'. split; [by apply list_elem_of_further|done].
  - exists tu. split; [apply list_elem_of_here|done].
Qed.

Lemma elem_accepted L tu pk : (forall tu, tu ∈ L -> tu_status tu = RecordNormal -> vd tu <> EndOfRange) ->
  tu ∈ L -> tu_status tu = RecordNormal -> vd tu = Accept pk -> pk ∈ accepted L.
Proof.
  intros Hend Hin Hn Hv. induction L as [|tu' L IH]; [by apply elem_of_nil in Hin|]. cbn [accepted].
  apply elem_of_cons in Hin as [<-|Hin]; [rewrite Hn, Hv; apply list_elem_of_here|].
  pose proof (Hend tu' (list_elem_of_here _ _)) as He. specialize (IH (fun tu H => Hend tu (list_elem_of_further _ _ _ H)) Hin).
  destruct (tu_status tu'); [destruct (vd tu')|..]; try done; [by apply list_elem_of_further|by destruct (He eq_refl)].
Qed.

Lemma accepted_sublist (ek : bytes -> bytes) L :
  (forall tu pk, tu ∈ L -> tu_status tu = RecordNormal -> vd tu = Accept pk -> ek pk = tu_key tu) ->
  map ek (accepted L) `sublist_of` map tu_key L.
Proof.
  induction L as [|tu L IH]; intros H; [done|]. cbn [accepted map].
  specialize (IH (fun tu' pk Hin => H tu' pk (list_elem_of_further _ _ _ Hin))). pose proof (H tu) as Htu.
  destruct (tu_status tu); [destruct (vd tu) as [pk| | | |]|..]; try (by constructor); [|apply sublist_nil_l].
  cbn [map]. rewrite (Htu pk (list_elem_of_here _ _) eq_refl eq_refl). by constructor.
Qed.

(** The entries of later batches. *)
Definition later (s : S) (cur : cursor D) : list ScanBatchTuple :=
  if is_last_scan_batch_ (ccm cur) then [] else unread s (scan_alias_ cur).

(** A scan without a data store scanner, at the entries [L], after [n] entries
    were collected. *)
Record sk_at (n : nat) (st : ha_state S) (cur : cursor D) (L : list ScanBatchTuple) : Prop := {
  ka_idx : idx_ok (ccm cur);
  ka_fresh : scan_batch_idx_ (ccm cur) = UINT64_MAX -> is_last_scan_batch_ (ccm cur) = false /\ n = 0%nat;
  ka_room : Z.of_nat (n + length (batch_left (ccm cur))) < UINT64_MAX;
  ka_none : ccm_scan_ (ccm cur) = None;
  ka_open : ccm_scan_open_ (ccm cur) = true;
  ka_store : storage_scanner_ (store cur) = None;
  ka_prefix : prefix_match_key_ cur = None;
  ka_list : L = batch_left (ccm cur) ++ later (txm st) cur
}.

Lemma fetched_at n st cur L s cc : sk_at n st cur L ->
  fetched (more_sk env mrr n) (txm st) (scan_alias_ cur) (ccm cur) s cc ->
  (exists tu L', L = tu :: L' /\ ccm_scan_ cc = Some (scan_tuple tu) /\
     at_index (scan_batch_ cc) (scan_batch_idx_ cc - 1) = Some tu /\
     forall n', (n' <= Datatypes.S n)%nat -> sk_at n' (with_txm s st) (set_scan (set_ccm None cc) (store cur) cur) L') \/
  (ccm_scan_ cc = None /\ L = later s (set_scan cc (store cur) cur) /\ (L = [] \/ (DEFAULT_SCAN_TUPLE_SIZE <= n)%nat)).
Proof.
  intros [Hi Hf Hroom Hn Ho Hs Hp HL] [Hidx Hopen Hcase]. unfold later in *.
  destruct Hcase as [(Hc & _)|[(_ & tu & Hb & Hc & Hbatch & Hlast & Hat & Hi' & ->)|
    [(_ & Hb & Hm & Hi' & Hlen & Hu & Hlast & Hbatch)|(_ & Hb & Hm & -> & ->)]]]; [done| | |].
  - left. rewrite Hb in HL, Hroom. cbn [length] in Hroom. exists tu. eexists. split; [exact HL|]. split_and!; [done|done|].
    intros n' Hn'. split; try done.
    + simpl. change (batch_left (set_ccm None cc)) with (batch_left cc). lia.
    + simpl. by rewrite Hopen.
    + simpl. unfold later. simpl. by rewrite Hlast.
  - rewrite Hb in HL. simpl in HL.
    assert (is_last_scan_batch_ (ccm cur) = false /\ (n < DEFAULT_SCAN_TUPLE_SIZE)%nat) as [El Hlt].
    { unfold more_sk in Hm. rewrite Hneed in Hm. cbn [negb andb] in Hm. rewrite andb_false_r, orb_false_r in Hm.
      apply orb_true_iff in Hm as [Hm%Z.eqb_eq|[Hm1%Nat.ltb_lt Hm2]%andb_true_iff].
      - destruct (Hf Hm) as [? ->]. split; [done|]. lia.
      - by apply negb_true_iff in Hm2. }
    rewrite El, Hu in HL. destruct (scan_batch_ cc) as [|tu rest] eqn:Eb.
    + right. rewrite Hlast in HL by by right. subst L. destruct Hbatch as [-> _]. split_and!; [done| |by left].
      simpl. rewrite Hlast by by right. by destruct (is_last_scan_batch_ cc).
    + left. destruct Hbatch as (Hc & Hbl & Hat). exists tu. eexists. split; [exact HL|]. split_and!; [done|done|].
      intros n' Hn'. cbn [length] in Hlen. split; try done.
      * simpl. change (batch_left (set_ccm None cc)) with (batch_left cc). rewrite Hbl. lia.
      * simpl. by rewrite Hopen.
      * simpl. change (batch_left (set_ccm None cc)) with (batch_left cc). rewrite Hbl. f_equal. unfold later. simpl.
        destruct (is_last_scan_batch_ cc); [|done]. by apply Hlast; left.
  - right. rewrite Hb in HL. simpl in HL. split_and!; [done|done|]. unfold more_sk in Hm. rewrite Hneed in Hm. cbn [andb negb] in Hm.
    apply orb_false_iff in Hm as [[_ Hm]%orb_false_iff _]. destruct (is_last_scan_batch_ (ccm cur)); [by left|].
    cbn [negb] in Hm. rewrite andb_true_r in Hm. right. by apply Nat.ltb_ge.
Qed.

(** The keys that were collected, and their positions. *)
Definition collected (orders : list key_order) (tmp : list ScanBatchTuple) : Prop :=
  length tmp = length orders /\ map ko_pos orders = seq 0 (length orders).

Lemma collected_snoc orders tmp pk ts tu : collected orders tmp ->
  collected (orders ++ [{| ko_key := pk; ko_pos := length tmp; ko_ts := ts |}]) (tmp ++ [tu]).
Proof.
  intros [Hl Hp]. split; [rewrite !length_app, Hl; done|]. rewrite map_app, length_app, Hp, seq_app. simpl. by rewrite Hl.
Qed.

(** No entry is at hand. *)
Definition idle (cur : cursor D) : Prop :=
  ccm_scan_ (ccm cur) = None /\ storage_scanner_ (store cur) = None /\ prefix_match_key_ cur = None /\
  (is_last_scan_batch_ (ccm cur) = false -> ccm_scan_open_ (ccm cur) = true).

(** What the loop over the entries [L] ends with, after [keys]. *)
Definition gather_ok (s : S) (keys : list bytes) (L : list ScanBatchTuple) (g : option (@gathered S D)) : Prop :=
  match g with
  | None => False
  | Some (Returned (st, _, rc, out)) => same_data s (txm st) /\ length out = size /\ rc <> 0 /\ is_end rc = false
  | Some (Broke st cur out orders tmp) =>
      same_data s (txm st) /\ length out = size /\ collected orders tmp /\ Z.of_nat (length orders) < UINT64_MAX /\ idle cur /\
      later (txm st) cur `suffix_of` L /\ keys ++ accepted L = map ko_key orders ++ accepted (later (txm st) cur) /\
      (later (txm st) cur = [] \/ orders <> [])
  end.

Lemma gather_ok_step s s' keys keys' tu L g : same_data s s' -> gather_ok s' keys' L g ->
  keys ++ accepted (tu :: L) = keys' ++ accepted L -> gather_ok s keys (tu :: L) g.
Proof.
  intros Hs Hg Hk. destruct g as [[[[[st cur] rc] out]|st cur out orders tmp]|]; [| |done].
  - destruct Hg as (Hs' & H). split; [by eapply same_data_trans|done].
  - destruct Hg as (Hs' & Hl & Hc & Hlen & Hi & Hsuf & Hkeys & Hend). unfold gather_ok. rewrite Hk, Hkeys.
    split_and!; [by eapply same_data_trans|done|done|done|done| |done|done]. by apply suffix_cons_r.
Qed.

Lemma sk_at_txm n st st' cur L : txm st' = txm st -> sk_at n st cur L -> sk_at n st' cur L.
Proof. intros E [H1 H2 H3 H4 H5 H6 H7 H8]. split; try done. by rewrite E. Qed.

Abbreviation Loop := (SkScanLoop env decode_set mrr thd_killed t icp rowid_filter ref_length).

Lemma sk_loop snapshot start_ts fuel i st cur L out orders tmp sk_ts :
  (length L < fuel)%nat -> sk_at (length orders) st cur L -> Forall entry_ok L -> length out = size -> collected orders tmp ->
  gather_ok (txm st) (map ko_key orders) L (Loop snapshot start_ts fuel i st cur None out orders tmp sk_ts).
Proof.
  revert i st cur L out orders tmp sk_ts. induction fuel as [|fuel IH]; intros i st cur L out orders tmp sk_ts Hf Hat Hok Hl Hc; [lia|].
  cbn [SkScanLoop]. destruct (thd_killed i); [done|]. pose proof Hat as [Hi Hfr Hroom Hn Ho Hst Hp HL].
  unfold advance_store. rewrite Hst, Ho. destruct (fetch_tuple _ _ _ _ _) as [[[s cc] err] ts] eqn:Ef.
  apply fetch_tuple_spec in Ef as [Hs Hfe]; [|done]. destruct err as [e|].
  { split_and!; [done|done|by apply convert_tx_error_nonzero|apply convert_not_end]. }
  destruct (fetched_at _ st cur L s cc Hat Hfe) as [(tu & L' & -> & Hcc & Hidx & Hat')|(Hcc & HL' & Hend)]; rewrite Hcc.
  - rewrite bool_decide_false by done. cbn [andb]. unfold choose. rewrite Hcc. pose proof (ka_open _ _ _ _ (Hat' 0%nat ltac:(lia))) as Ho'.
    cbn [ccm set_scan set_ccm ccm_scan_open_] in Ho' |- *. rewrite Ho'. cbn [orb]. simpl in Hf.
    apply Forall_cons_iff in Hok as [Htu Hok]. unfold ccm_choice, scan_tuple. cbn [accepted].
    destruct Htu as [Hdel|[Hnorm [Hun Hj]]].
    { rewrite Hdel. eapply gather_ok_step; [exact Hs|apply IH; try done; [lia|apply Hat'; lia]|cbn [accepted]; by rewrite Hdel]. }
    rewrite Hnorm. unfold prefix_mismatch. cbn [prefix_match_key_ set_scan]. rewrite Hp.
    destruct (Hj out Hl) as (out' & pk & -> & Hl').
    assert (txm (with_pk pk (with_txm s st)) = s) as Etx by by destruct pk.
    destruct (vd tu) as [pk0| | | |] eqn:Ev; [| | | |done].
    + rewrite Hneed. cbn [negb scan_batch_ set_ccm scan_batch_idx_]. rewrite Hidx.
      eapply (gather_ok_step _ (txm (with_key [] (with_pk pk (with_txm s st))))); [by rewrite <- Etx in Hs|apply IH; try done|].
      * lia.
      * apply (sk_at_txm _ (with_txm s st)); [done|]. apply Hat'. rewrite length_app. simpl. lia.
      * by apply collected_snoc.
      * cbn [accepted]. rewrite Hnorm, Ev, map_app, <- app_assoc. done.
    + apply (gather_ok_step _ (txm (with_pk pk (with_txm s st))) _ (map ko_key orders)); [by rewrite Etx| |].
      * apply IH; try done; [lia|]. apply (sk_at_txm _ (with_txm s st)); [done|]. apply Hat'. lia.
      * cbn [accepted]. by rewrite Hnorm, Ev.
    + unfold end_of_scan. rewrite Hneed. unfold gather_ok. cbn [accepted]. rewrite Hnorm, Ev.
      split_and!; try done; [by destruct pk|lia|apply suffix_nil|by left].
    + split_and!; try done. by destruct pk.
  - rewrite bool_decide_true by done. cbn [andb]. set (cc' := if is_last_scan_batch_ cc then set_open false cc else cc).
    assert (ccm_scan_ cc' = None /\ is_last_scan_batch_ cc' = is_last_scan_batch_ cc /\
      (is_last_scan_batch_ cc = false -> ccm_scan_open_ cc' = true)) as (Hcc' & Hlast & Ho').
    { unfold cc'. pose proof (fe_open _ _ _ _ _ _ Hfe). destruct (is_last_scan_batch_ cc) eqn:El; split_and!; try done; congruence. }
    unfold choose, end_of_scan. rewrite Hcc', Hneed. unfold gather_ok.
    assert (later s (set_scan cc' (store cur) cur) = L) as Hlater by (rewrite HL'; unfold later; simpl; by rewrite Hlast).
    simpl. change (later s _) with (later s (set_scan cc' (store cur) cur)). rewrite Hlater.
    split_and!; try done; [lia|by split_and!; try done; intros; apply Ho'; rewrite <- Hlast|].
    destruct Hend as [->|Hn']; [by left|]. right. intros ->. by simpl in Hn'; lia.
Qed.

(** ** Returning the rows *)

(** The [j]-th entry has its row at hand. *)
Definition loaded (cur : cursor D) (j : nat) (kr : bytes * EloqRecord) : Prop :=
  exists pos tu, batch_order_ cur !! j = Some pos /\ sk_pk_scan_batch_ cur !! pos = Some tu /\
    tu_key tu = kr.1 /\ tu_record tu = kr.2 /\ tu_status tu = RecordNormal.

(** The rows [srv] were loaded and not returned yet. *)
Record serving (cur : cursor D) (srv : list (bytes * EloqRecord)) : Prop := {
  sv_idx : 0 <= scan_batch_idx_ (ccm cur);
  sv_left : entries_left (ccm cur) = length srv;
  sv_row i kr : srv !! i = Some kr -> loaded cur (Z.to_nat (scan_batch_idx_ (ccm cur)) + i) kr
}.

Lemma entries_left_next cc n : 0 <= scan_batch_idx_ cc -> entries_left cc = Datatypes.S n ->
  entries_left (set_idx (scan_batch_idx_ cc + 1) cc) = n.
Proof.
  unfold entries_left. simpl. intros H0. destruct (Z.ltb_spec (scan_batch_idx_ cc) (Z.of_nat (length (scan_batch_ cc)))); [|lia].
  intros E. destruct (Z.ltb_spec (scan_batch_idx_ cc + 1) (Z.of_nat (length (scan_batch_ cc)))); lia.
Qed.

Lemma at_index_lookup {A} (l : list A) i x : 0 <= i -> l !! Z.to_nat i = Some x -> at_index l i = Some x.
Proof.
  intros H0 Hx. unfold at_index. apply lookup_lt_Some in Hx as Hlt. rewrite (proj2 (Z.leb_le _ _)), (proj2 (Z.ltb_lt _ _)) by lia.
  done.
Qed.

Abbreviation Serve := (@serve S D env decode_set rec_addr).

Lemma serve_nil (st : ha_state S) cur out : serving cur [] -> Serve st cur out = Some (None, cur).
Proof. intros [_ Hn _]. unfold serve. by rewrite Hn. Qed.

Lemma serve_cons (st : ha_state S) cur kr srv out out' : serving cur (kr :: srv) ->
  DecodeRecord env decode_set (rec_addr kr.2) out kr.1 kr.2 = Some out' ->
  let cur' := set_scan (set_idx (scan_batch_idx_ (ccm cur) + 1) (ccm cur)) (store cur) cur in
  Serve st cur out = Some (Some (with_key kr.1 st, cur', 0, out'), cur') /\ serving cur' srv.
Proof.
  intros [H0 Hn Hrow] Hd cur'. unfold serve. rewrite Hn. cbn [length serve_loop].
  destruct (Hrow 0%nat kr eq_refl) as (pos & tu & Ho & Hp & Hk & Hr & Hst). rewrite Nat.add_0_r in Ho.
  rewrite (at_index_lookup _ _ _ H0 Ho). simpl. rewrite Hp, Hst, Hk, Hr, Hd. split; [done|]. split.
  - simpl. lia.
  - by apply entries_left_next.
  - intros i kr' Hi. specialize (Hrow (Datatypes.S i) kr' Hi). simpl.
    by replace (Z.to_nat (scan_batch_idx_ (ccm cur) + 1) + i)%nat with (Z.to_nat (scan_batch_idx_ (ccm cur)) + Datatypes.S i)%nat by lia.
Qed.

(** ** Loading rows *)

(** The positions in the sorted order. *)
Lemma batch_order_loop_other i orders bo p : ~ p ∈ map ko_pos orders -> batch_order_loop i orders bo !! p = bo !! p.
Proof.
  revert i bo. induction orders as [|o orders IH]; intros i bo Hp; [done|]. cbn [batch_order_loop].
  cbn [map] in Hp. apply not_elem_of_cons in Hp as [Hp Hps]. rewrite IH by done. by apply list_lookup_insert_ne.
Qed.

Lemma length_batch_order_loop i orders bo : length (batch_order_loop i orders bo) = length bo.
Proof. revert i bo. induction orders as [|o orders IH]; intros i bo; [done|]. cbn [batch_order_loop]. by rewrite IH, length_insert. Qed.

Lemma batch_order_loop_spec i orders bo j o : NoDup (map ko_pos orders) ->
  Forall (fun o => (ko_pos o < length bo)%nat) orders -> orders !! j = Some o ->
  batch_order_loop i orders bo !! ko_pos o = Some (i + j)%nat.
Proof.
  revert i bo j. induction orders as [|o' orders IH]; intros i bo j Hnd Hlt Hj; [done|]. cbn [map batch_order_loop] in *.
  apply list.NoDup_cons in Hnd as [Hn Hnd]. apply Forall_cons_iff in Hlt as [Hl Hlt]. destruct j as [|j].
  - injection Hj as <-. rewrite batch_order_loop_other, list_lookup_insert_eq, Nat.add_0_r by done. done.
  - rewrite (IH (Datatypes.S i) _ j); [f_equal; lia|done| |done]. by rewrite length_insert.
Qed.

Lemma complete_normal hd s ts : 1 <= tx_start_ts s -> Forall (fun tu => tu_status tu = RecordNormal) ts ->
  complete_batch env hd s ts = (s, (ts, true)).
Proof.
  intros Hs. induction 1 as [|tu ts Htu _ IH]; [done|]. cbn [complete_batch]. unfold complete_tuple. rewrite Htu.
  rewrite (proj2 (Z.ltb_ge _ _)) by lia. rewrite andb_false_r. rewrite bool_decide_false by by rewrite Htu.
  cbn [orb]. by rewrite IH.
Qed.

(** The rows of the table, and what [std::sort] does. *)
Context (good : bytes -> bytes -> Prop) (rows : gmap bytes bytes).
Context (Hsort : forall l, std_sort l ≡ₚ l) (Hstart : forall s : S, 1 <= tx_start_ts s).

Definition record_of (k : bytes) : option EloqRecord := rows !! k ≫= row_record env.

Definition rows_of (ks : list bytes) : list (bytes * EloqRecord) := omap (fun k => pair k <$> record_of k) ks.

Abbreviation found := (Forall (fun k => is_Some (record_of k))).

Lemma rows_of_app ks ks' : rows_of (ks ++ ks') = rows_of ks ++ rows_of ks'.
Proof. apply omap_app. Qed.

Lemma rows_of_found ks : found ks -> Forall2 (fun k kr => kr.1 = k /\ record_of k = Some kr.2) ks (rows_of ks).
Proof.
  induction 1 as [|k ks [rec Hk] _ IH]; [constructor|]. unfold rows_of. cbn [omap list_omap]. rewrite Hk. simpl. by constructor.
Qed.

Lemma rows_of_keys ks : found ks -> map fst (rows_of ks) = ks.
Proof. intros H%rows_of_found. induction H as [|k kr ks krs [<- _] _ IH]; [done|]. cbn [map]. by rewrite IH. Qed.

Lemma rows_of_elem ks k rec : (k, rec) ∈ rows_of ks -> k ∈ ks /\ record_of k = Some rec.
Proof.
  unfold rows_of. intros (k' & Hk & E)%list_elem_of_omap. destruct (record_of k') as [rec'|] eqn:Er; [|done].
  injection E as -> ->. done.
Qed.

Lemma Forall2_known {A B} (P : A -> Prop) (R R' : A -> B -> Prop) l k : Forall P l -> Forall2 R l k ->
  (forall x y, P x -> R x y -> R' x y) -> Forall2 R' l k.
Proof. intros HP HR H. induction HR as [|x y l k Hxy _ IH]; [done|]. apply Forall_cons_iff in HP as [? ?]. constructor; auto. Qed.

(** Every entry knows where its row is. *)
Lemma sorted_position orders tmp (bo : list nat) i o : collected orders tmp -> orders !! i = Some o ->
  exists j, batch_order_loop 0 (std_sort orders) (resize 0%nat (length tmp) bo) !! i = Some j /\ std_sort orders !! j = Some o.
Proof.
  intros [Hl Hpos] Ho. assert (ko_pos o = i) as <-.
  { assert (map ko_pos orders !! i = Some (ko_pos o)) as Hp by (rewrite list_lookup_fmap, Ho; done).
    rewrite Hpos in Hp. by apply lookup_seq in Hp as [-> _]. }
  assert (o ∈ std_sort orders) as [j Hj]%list_elem_of_lookup by (rewrite Hsort; by eapply list_elem_of_lookup_2).
  exists j. split; [|done]. rewrite (batch_order_loop_spec 0 _ _ j o); [done| | |done].
  - rewrite (Permutation_map _ (Hsort orders)), Hpos. apply NoDup_seq.
  - rewrite Hsort, Forall_forall. intros o' Ho'. simpl. unfold resize.
    rewrite length_app, length_take, length_replicate.
    assert (ko_pos o' ∈ map ko_pos orders) as Hp by (apply list_elem_of_In, in_map, Ho').
    rewrite Hpos in Hp. apply elem_of_seq in Hp. lia.
Qed.

(** The rows of the collected entries. *)
Lemma load_serving cur orders tmp recs cc : collected orders tmp -> found (map ko_key orders) ->
  Forall2 (fun o r => r.1 = RecordNormal /\ record_of (ko_key o) = Some r.2) (std_sort orders) recs ->
  scan_batch_ cc = tmp -> scan_batch_idx_ cc = 0 ->
  serving (set_loaded cc (zip_with loaded_tuple (std_sort orders) recs)
    (batch_order_loop 0 (std_sort orders) (resize 0%nat (length tmp) (batch_order_ cur))) cur) (rows_of (map ko_key orders)).
Proof.
  intros Hc Hf HF Hb Hi. pose proof (rows_of_found _ Hf) as Hr. pose proof (Forall2_length Hr) as Hlr. rewrite length_map in Hlr.
  split; simpl; [lia| |].
  - unfold entries_left. rewrite Hb, Hi, (proj1 Hc), Hlr.
    destruct (Z.ltb_spec 0 (Z.of_nat (length (rows_of (map ko_key orders))))); lia.
  - intros i [k rec] Hkr. rewrite Hi. simpl. destruct (Forall2_lookup_r _ _ _ _ _ Hr Hkr) as (k' & Hk & <- & Hrec). simpl in *.
    rewrite list_lookup_fmap in Hk. destruct (orders !! i) as [o|] eqn:Ho; [|done]. injection Hk as <-.
    destruct (sorted_position orders tmp (batch_order_ cur) i o Hc Ho) as (j & Hij & Hj).
    destruct (Forall2_lookup_l _ _ _ _ _ HF Hj) as ([status rec'] & Hrj & Hst & Hrec'). simpl in *. subst status.
    rewrite Hrec in Hrec'. injection Hrec' as <-. exists j, (loaded_tuple o (RecordNormal, rec)). split_and!; try done.
    simpl. rewrite lookup_zip_with, Hj. simpl. by rewrite Hrj.
Qed.

(** ** The next row *)

Abbreviation row_decodable := (fun kr : bytes * EloqRecord => decodable env decode_set rec_addr size kr.1 kr.2).

(** The entries [L] are still to come. *)
Record entries_ready (fuel : nat) (L : list ScanBatchTuple) : Prop := {
  er_ok : Forall entry_ok L;
  er_found : found (accepted L);
  er_fuel : (length L < fuel)%nat
}.

Lemma entries_ready_rest fuel L L' keys : entries_ready fuel L -> L' `suffix_of` L -> accepted L = keys ++ accepted L' ->
  entries_ready fuel L' /\ found keys.
Proof.
  intros [H1 H2 H3] [pre ->] Hk. rewrite Hk in H2. apply Forall_app in H1 as [_ H1], H2 as [Hf H2].
  rewrite length_app in *. split; [split; try done; lia|done].
Qed.

(** A scan before the rows [l]. *)
Definition sk_scan_at (fuel : nat) (st : ha_state S) (cur : cursor D) (l : list (bytes * EloqRecord)) : Prop :=
  exists srv, serving cur srv /\ idle cur /\ Z.of_nat (length (scan_batch_ (ccm cur))) < UINT64_MAX /\
    consistent env good rows (txm st) /\ l = srv ++ rows_of (accepted (later (txm st) cur)) /\
    entries_ready fuel (later (txm st) cur) /\ Forall row_decodable l.

Abbreviation next l := (next_of env decode_set rec_addr size (sk_scan_at l)).

Lemma serve_next fuel st cur kr srv out : serving cur (kr :: srv) -> idle cur ->
  Z.of_nat (length (scan_batch_ (ccm cur))) < UINT64_MAX -> consistent env good rows (txm st) ->
  entries_ready fuel (later (txm st) cur) -> length out = size ->
  let l := (kr :: srv) ++ rows_of (accepted (later (txm st) cur)) in
  Forall row_decodable l ->
  exists r, Serve st cur out = Some (Some r, r.1.1.2) /\ next fuel (txm st) l (Some r).
Proof.
  intros Hsv Hid Hb Hco Her Hl l Hd. pose proof Hd as [Hkr Hd']%Forall_cons_iff.
  destruct (Hkr out Hl) as (out' & Ho & Hl'). destruct (serve_cons st cur kr srv out out' Hsv Ho) as [-> Hsv'].
  exists (with_key kr.1 st, set_scan (set_idx (scan_batch_idx_ (ccm cur) + 1) (ccm cur)) (store cur) cur, 0, out').
  split; [done|]. do 4 eexists. split; [reflexivity|]. split_and!; [done|done|]. left. split; [done|].
  exists kr. eexists. split; [reflexivity|]. split; [by split; [|exists out]|]. by exists srv.
Qed.

Lemma accepted_length L : (length (accepted L) <= length L)%nat.
Proof. induction L as [|tu L IH]; [done|]. simpl. destruct (tu_status tu), (vd tu); simpl; lia. Qed.

Lemma load_next fuel st cur out orders tmp : collected orders tmp -> idle cur ->
  consistent env good rows (txm st) -> entries_ready fuel (later (txm st) cur) -> found (map ko_key orders) ->
  Z.of_nat (length orders) < UINT64_MAX -> (later (txm st) cur = [] \/ orders <> []) -> length out = size ->
  let l := rows_of (map ko_key orders) ++ rows_of (accepted (later (txm st) cur)) in
  Forall row_decodable l ->
  next fuel (txm st) l (load_rows storage_hd env decode_set rec_addr std_sort st cur out orders tmp).
Proof.
  intros Hc Hid Hco Her Hf Hlen Hend Hl l Hd. unfold load_rows. destruct (decide (orders = [])) as [->|Hne].
  { do 4 eexists. split; [reflexivity|]. split_and!; [done|done|]. right. left. split; [done|]. unfold l.
    destruct Hend as [->|]; done. }
  destruct (tx_BatchRead _ _) as [s r] eqn:Er. apply law_BatchRead in Er as (Hs & Hu & Hr). cbn [br_table br_keys] in Hr.
  destruct r as [e|recs].
  { do 4 eexists. split; [reflexivity|]. split_and!; [done|done|]. right. right.
    split; [by apply convert_tx_error_nonzero|apply convert_not_end]. }
  assert (Forall2 (fun o r => r.1 = RecordNormal /\ record_of (ko_key o) = Some r.2) (std_sort orders) recs) as HF.
  { apply Forall2_fmap_l in Hr. apply (Forall2_known (fun o => is_Some (record_of (ko_key o))) _ _ _ _) with (2 := Hr).
    - rewrite Hsort. by rewrite Forall_map in Hf.
    - intros o r [rec Hrec] Hv. simpl in Hv. rewrite (co_base _ _ _ _ Hco) in Hv. unfold record_of in *. rewrite Hrec in *.
      by destruct Hv as [[? ?]|[_ ?]]. }
  set (pks := zip_with loaded_tuple (std_sort orders) recs).
  assert (Forall (fun tu => tu_status tu = RecordNormal) pks) as Hn.
  { unfold pks. clear -HF. induction HF as [|o r os rs [Ho _] _ IH]; [constructor|]. by constructor. }
  replace (match storage_hd with Some hd => complete_batch env hd (txm (with_txm s st)) pks
           | None => (txm (with_txm s st), (pks, true)) end) with (s, (pks, true))
    by (destruct storage_hd; [by rewrite complete_normal|done]).
  cbn [negb]. set (cur' := set_loaded _ _ _ _).
  assert (serving cur' (rows_of (map ko_key orders))) as Hsv by (by apply load_serving).
  assert (later s cur' = later (txm st) cur) as Hlater by (unfold later; simpl; by rewrite Hu).
  assert (consistent env good rows s) as Hco' by by eapply consistent_same.
  destruct (rows_of (map ko_key orders)) as [|kr srv] eqn:Ek.
  { pose proof (Forall2_length (rows_of_found _ Hf)) as H. rewrite Ek in H. by destruct orders. }
  apply (next_of_same _ _ _ _ _ _ s); [done|]. unfold l in *. rewrite <- Hlater in *.
  destruct (serve_next fuel (with_txm s (with_txm s st)) cur' kr srv out) as (r & -> & Hr'); try done.
  simpl. by rewrite (proj1 Hc).
Qed.

(** [SkIndexScanNext] returns the next row. *)
Lemma sk_next fuel st cur out l : sk_scan_at fuel st cur l -> length out = size ->
  next fuel (txm st) l
    (SkIndexScanNext storage_hd env decode_set mrr thd_killed rec_addr t icp rowid_filter ref_length std_sort fuel st cur out).
Proof.
  intros (srv & Hsv & Hid & Hb & Hco & -> & Her & Hd) Hl. unfold SkIndexScanNext. rewrite Hneed. destruct srv as [|kr srv].
  - rewrite serve_nil by done. simpl app in *. destruct (is_last_scan_batch_ (ccm cur)) eqn:El.
    { do 4 eexists. split; [reflexivity|]. split_and!; [done|done|]. right. left. split; [done|]. unfold later. by rewrite El. }
    set (cur1 := set_scan (set_idx UINT64_MAX (ccm cur)) (store cur) cur). unfold gather, first_store.
    pose proof Hid as (Hn & Hst & Hp & Ho).
    assert (sk_at 0 st (set_scan (ccm cur1) (store cur1) cur1) (later (txm st) cur)) as Hat.
    { assert (batch_left (set_idx UINT64_MAX (ccm cur)) = []) as Hleft.
      { unfold batch_left, from_idx. simpl. by rewrite (proj2 (Z.ltb_ge _ _)) by lia. }
      split; try done; [by split_and!; [done|done|right]|simpl; by rewrite Hleft|by apply Ho|]. simpl. by rewrite Hleft. }
    simpl store. rewrite Hst.
    pose proof (sk_loop (is_snapshot_read env (txm st)) (tx_start_ts (txm st)) fuel 0 st _ (later (txm st) cur) out [] [] 0
      (er_fuel _ _ Her) Hat (er_ok _ _ Her) Hl (conj eq_refl eq_refl)) as Hg.
    destruct (SkScanLoop _ _ _ _ _ _ _ _ _ _ _ _ _ _ _ _ _ _ _) as [[[[[st2 cur2] rc] out2]|st2 cur2 out2 orders tmp]|]; [| |done].
    + destruct Hg as (Hs & Hl2 & H0 & He). do 4 eexists. split; [reflexivity|]. split_and!; [done|done|]. right. by right.
    + destruct Hg as (Hs & Hl2 & Hc & Hlen & Hid2 & Hsuf & Hk & Hend). simpl in Hk.
      destruct (entries_ready_rest fuel _ _ _ Her Hsuf Hk) as [Her2 Hf].
      apply (next_of_same _ _ _ _ _ _ (txm st2)); [done|]. rewrite Hk, rows_of_app in *.
      apply load_next; try done. by eapply consistent_same.
  - by destruct (serve_next fuel st cur kr srv out Hsv Hid Hb Hco Her Hl Hd) as (r & -> & Hr).
Qed.

(** A scan that was opened, before its entries. *)
Lemma SkIndexScanOpen_spec ai st cur index start si e ei direction : closable env cur -> prefix_match_key_ cur = None ->
  let req := sk_scan_request env decode_set index start si e ei direction in
  exists st' cur', SkIndexScanOpen env ai decode_set st cur index start si e ei direction = Some (st', cur') /\
    same_data (txm st) (txm st') /\ serving cur' [] /\ idle cur' /\ scan_batch_ (ccm cur') = [] /\
    (so_require_keys req = true -> scan_content (txm st) req (later (txm st') cur')).
Proof.
  intros Hc Hp req. unfold SkIndexScanOpen. destruct (close_if_open_spec env st cur Hc) as (st1 & cur1 & -> & Hs & _ & Hp1 & _).
  fold req. destruct (tx_OpenTxScan (txm st1) req) as [s alias] eqn:Eo. apply law_OpenTxScan in Eo as (Hs2 & Ha & Hcon).
  rewrite (proj2 (Z.eqb_neq _ _)) by lia. do 2 eexists. split; [reflexivity|].
  split; [by eapply same_data_trans|]. split; [by split|]. split; [by split_and!; auto|]. split; [done|].
  intros Hk. eapply scan_content_same; [exact Hs|]. by apply Hcon.
Qed.

End SkScan.

End SkScan.
