(* ===== verification/SkRows.v ===== *)
(** * SkRows: the rows of a scan of a secondary index

    [index_read_map] for a range of a secondary index and [index_next]
    (storage/eloq/ha_eloq.cc): the rows that the search asks for and that pass
    the pushed conditions, in the order of the index. *)

From Stdlib Require Import Sorted.
From stdpp Require Import gmap strings.
From S2P Require Import Prelude Slice Buff Charset Latin1 Copy Collation Field Placement Store.
From S2P Require Import Codec Packing VarFormat SpacePad Varchar KeySetup KeyDef KeyOrder Index KeyRead PkTuple.
From S2P Require Import Neighbour Double EloqKey Restore RoundTrip Layout KeyTuple Row Entry Hidden Handler Consistency.
From S2P Require Import Tables Statements Scan Read Cursor ScanRows IndexScan SkScan.
Import Field Packing KeyDef KeyOrder Index KeyRead PkTuple Restore RoundTrip Layout KeyTuple EloqKey Entry Handler Consistency.
Import Tables Statements Scan Read Cursor ScanRows IndexScan SkScan.

Module SkRows.

(** ** Entries *)

Section Entries.

Context (uninit : mono_field_packing) (env : ha_env) (pkd0 : mono_key_def) (pk : KEY) (pk_cols : list indexed_part).
Context (defs : target -> index_def) (Hready : table_ready uninit env pkd0 pk pk_cols defs).

Abbreviation mem := (ha_mem env).
Abbreviation tbl := (ha_table env).
Abbreviation size := (length (default_values tbl)).
Abbreviation good := (row_good env pk_cols defs).
Abbreviation columns t := (target_columns pk_cols (defs t)).

(** An index whose columns can be restored: columns of a fixed size but BIT,
    VARCHAR and VARBINARY columns in their full length. *)
Record readable_index (t : target) : Prop := {
  ri_target : t ∈ targets env;
  ri_readable : Forall readable_column (columns t);
  ri_layout : laid_out size (map fst (columns t))
}.

(** The whole key of an entry. *)
Definition packed_key (t : target) (key : bytes) (r : EloqRecord) : bytes :=
  if t_unique t then key ++ encoded_blob_ r else key.

(** The entry of a row holds the columns of the index and the key of the
    row. *)
Lemma entry_restored t k buf key r out : readable_index t -> good k buf -> entry env t (Some []) k buf = Some (key, r) ->
  Z.of_nat (length (unpack_info_ r)) < 65536 -> length out = size ->
  let out' := restored_row tbl (map fst (columns t)) buf out in
  unpack_record (is_kd (t_index t)) tbl out (packed_key t key r) (unpack_info_ r) = Some out' /\ length out' = size /\
  get_primary_key_tuple (is_kd (t_index t)) tbl (packed_key t key r) = Some k.
Proof.
  intros [Ht Hres%(readable_columns mem) Hlo] (-> & Hprow & Hrow) He Hw Hl out'. specialize (Hrow t Ht). unfold target_columns in *.
  destruct (tr_index _ _ _ _ _ _ Hready t Ht) as (Hid & Hs & E & Hnd).
  destruct (index_restored mem uninit tbl _ _ _ _ Hid Hres) as (kd & E' & Hun). rewrite E in E'. injection E' as <-.
  destruct (Hun buf [] out Hrow) as (st & w & Est & Ew & Hrest).
  destruct (primary_key_of_key mem uninit tbl _ _ _ pkd0 pk pk_cols Hid Hs (tr_pk _ _ _ _ _ _ Hready) Hnd
    (tr_pk_NoDup _ _ _ _ _ _ Hready)) as (kd & pkd & Ekd & Epkd & Hget).
  rewrite E in Ekd. injection Ekd as <-. rewrite (tr_pk_setup _ _ _ _ _ _ Hready) in Epkd. injection Epkd as <-.
  assert (packed_key t key r = ps_tuple st /\ unpack_info_ r = w /\
    ps_tuple st = row_key mem (index_columns (df_ki (defs t)) (df_cols (defs t)) pk_cols) (m_pack_info (is_kd (t_index t))) buf)
    as (-> & Hr & Htup).
  { unfold entry, hidden_pk in He. rewrite (ready_no_hidden _ _ _ _ _ _ Hready) in He. unfold packed_key.
    destruct (t_unique t) eqn:Hu.
    - destruct (tr_unique _ _ _ _ _ _ Hready t Ht Hu) as [Hn Hm].
      destruct (unique_entry_split mem tbl uninit _ _ _ _ _ buf (Some []) Hid Hs Hn Hm E Hrow) as (st' & Est' & Htup & He' & Hcat).
      rewrite Est in Est'. injection Est' as <-. rewrite He' in He. injection He as <- <-. cbn [encoded_blob_ unpack_info_].
      rewrite Hcat, Ew. done.
    - destruct (plain_index_entry mem tbl uninit _ _ _ _ _ buf (Some []) Hid E Hrow) as (st' & Est' & Htup & He').
      rewrite Est in Est'. injection Est' as <-. rewrite He' in He. injection He as <- <-. cbn [unpack_info_]. by rewrite Ew. }
  rewrite Hr in *. split_and!; [by apply Hrest| |rewrite Htup; by apply Hget].
  apply length_restored_row; [done|done| |done]. apply (columns_fit tbl size); try done. by eapply indexed_columns.
Qed.

(** ** Conditions on entries *)

(** [C]: the pushed index condition, on a row; [stored]: the entries of the
    index. *)
Context (decode_set : nat -> bool) (icp rowid_filter : option (bytes -> check_result_t)) (ref_length : nat).
Context (C : bytes -> check_result_t) (t : target) (rows : gmap bytes bytes) (range : bytes -> bytes -> Prop).
Context (stored : bytes -> option EloqRecord).

(** The index condition is not checked for a unique index. *)
Definition icp_result (buf : bytes) : check_result_t :=
  if t_unique t then CHECK_POS else match icp with Some _ => C buf | None => CHECK_POS end.

Definition filter_result (k : bytes) : check_result_t :=
  match rowid_filter with Some check => check (k ++ replicate (ref_length - length k) 0) | None => CHECK_POS end.

Definition result_verdict (r : check_result_t) (pos : verdict) : verdict :=
  match r with
  | CHECK_POS => pos
  | CHECK_NEG => Reject
  | CHECK_OUT_OF_RANGE => EndOfRange
  | CHECK_ABORTED_BY_USER => Aborted
  | CHECK_ERROR => Unread
  end.

Definition row_verdict (k buf : bytes) : verdict :=
  result_verdict (icp_result buf) (result_verdict (filter_result k) (Accept k)).

(** [b0] is a version of the row [buf] from which its entry was written: an
    update of the row writes the entry again only when its key changes.  It is
    the row itself where the entry is the one that the row has now. *)
Definition version (k buf b0 : bytes) : Prop :=
  good k b0 /\ exists key r r', entry env t (Some []) k buf = Some (key, r') /\ stored key = Some r /\
    entry env t (Some []) k b0 = Some (key, r).

Lemma version_current k buf key r : good k buf -> entry env t (Some []) k buf = Some (key, r) -> stored key = Some r ->
  version k buf buf.
Proof. intros Hg He Hs. split; [done|]. by exists key, r, r. Qed.

(** The index condition looks at the columns of the index only, no condition
    fails, none ends the scan before the range does, and the rowid filter can
    be given the keys of the rows. *)
Record conditions_ok : Prop := {
  cd_icp cond k b0 out : icp = Some cond -> good k b0 -> length out = size ->
    cond (restored_row tbl (map fst (columns t)) b0 out) = C b0;
  cd_error k buf b0 : rows !! k = Some buf -> version k buf b0 ->
    icp_result b0 <> CHECK_ERROR /\ filter_result k <> CHECK_ERROR;
  cd_range k buf b0 : rows !! k = Some buf -> version k buf b0 -> range k buf ->
    icp_result b0 <> CHECK_OUT_OF_RANGE /\ filter_result k <> CHECK_OUT_OF_RANGE;
  cd_ref k buf : rows !! k = Some buf -> rowid_filter <> None -> (length k <= ref_length)%nat
}.

Context (Hix : readable_index t) (Hcd : conditions_ok) (Hdecodes : decodes env decode_set = true).
Context (Hstored : forall key r, stored key = Some r -> Z.of_nat (length (unpack_info_ r)) < 65536).

(** [key] and [r] are the entry of the row, written from [b0]. *)
Definition entry_of (k buf b0 key : bytes) (r : EloqRecord) : Prop :=
  rows !! k = Some buf /\ stored key = Some r /\ good k b0 /\
  (exists r', entry env t (Some []) k buf = Some (key, r')) /\ entry env t (Some []) k b0 = Some (key, r).

Lemma entry_of_version k buf b0 key r : entry_of k buf b0 key r -> version k buf b0.
Proof. intros (_ & Hs & Hg & [r' He] & He0). split; [done|]. by exists key, r, r'. Qed.

(** The versions of a row give the same result. *)
Lemma version_icp k buf b0 b1 : version k buf b0 -> version k buf b1 -> icp_result b0 = icp_result b1.
Proof.
  intros (Hg0 & key & r & r' & He & Hs & He0) (Hg1 & key1 & r1 & r1' & He1 & Hs1 & He01).
  rewrite He in He1. injection He1 as <- <-. rewrite Hs in Hs1. injection Hs1 as <-.
  unfold icp_result. destruct (t_unique t); [done|]. destruct icp as [cond|] eqn:Ei; [|done].
  pose proof (length_replicate size 0 : length (replicate size 0) = size) as Hl.
  destruct (entry_restored t k b0 key r _ Hix Hg0 He0 (Hstored _ _ Hs) Hl) as (Hu0 & _).
  destruct (entry_restored t k b1 key r _ Hix Hg1 He01 (Hstored _ _ Hs) Hl) as (Hu1 & _).
  rewrite Hu0 in Hu1. injection Hu1 as E.
  rewrite <- (cd_icp Hcd cond k b0 (replicate size 0) Ei Hg0 Hl), E. by apply (cd_icp Hcd cond k b1).
Qed.

Lemma check_verdict k buf b0 key r out : entry_of k buf b0 key r -> length out = size ->
  exists out' pk, check_entry env decode_set t icp rowid_filter ref_length out key r = Some (out', pk, row_verdict k b0) /\
    length out' = size.
Proof.
  intros Hof Hl. pose proof Hof as (Hk & Hs & Hg & _ & He0).
  destruct (entry_restored t k b0 key r out Hix Hg He0 (Hstored _ _ Hs) Hl) as (Hun & Hl' & Hpk).
  destruct (cd_error Hcd k buf b0 Hk (entry_of_version _ _ _ _ _ Hof)) as [Hne1 Hne2].
  unfold check_entry. rewrite Hdecodes, orb_true_r. cbn [negb]. fold (packed_key t key r).
  set (out' := restored_row tbl (map fst (columns t)) b0 out) in *.
  assert (exists rc, (if t_unique t then match unpack_record (is_kd (t_index t)) tbl out (packed_key t key r) (unpack_info_ r) with
      | Some table_record => Some (table_record, 0) | None => None end else MatchIcp env t icp out key r) = Some (out', rc) /\
    check_rc (icp_result b0) = Some rc) as (rc & -> & Hrc).
  { unfold icp_result. destruct (t_unique t) eqn:Hu; [rewrite Hun; by eexists|]. unfold MatchIcp.
    unfold packed_key in Hun. rewrite Hu in Hun. rewrite Hun. destruct icp as [cond|] eqn:Ei; [|by eexists].
    unfold out' at 1. rewrite (cd_icp Hcd cond k b0 out Ei Hg Hl).
    unfold icp_result in Hne1. rewrite Hu, Ei in Hne1. destruct (C b0); try done; by eexists. }
  rewrite Hpk.
  assert (exists rc2, MatchRowidFilter rowid_filter ref_length k = Some rc2 /\ check_rc (filter_result k) = Some rc2) as (rc2 & -> & Hrc2).
  { unfold MatchRowidFilter, filter_result in *. destruct rowid_filter as [f|] eqn:Ef; [|by eexists].
    rewrite (proj2 (Nat.leb_le _ _)) by (apply (cd_ref Hcd k buf Hk); congruence). destruct (f _); try done; by eexists. }
  unfold row_verdict. destruct (icp_result b0); try done; injection Hrc as <-; try (by eexists _, _).
  destruct (filter_result k); try done; injection Hrc2 as <-; by eexists _, _.
Qed.

(** The verdict on a tuple of the index. *)
Definition tuple_verdict (tu : ScanBatchTuple) : verdict :=
  match check_entry env decode_set t icp rowid_filter ref_length (replicate size 0) (tu_key tu) (tu_record tu) with
  | Some (_, _, v) => v
  | None => Reject
  end.

Lemma tuple_verdict_row tu k buf b0 : entry_of k buf b0 (tu_key tu) (tu_record tu) -> tuple_verdict tu = row_verdict k b0.
Proof.
  intros H. unfold tuple_verdict. destruct (check_verdict k buf b0 _ _ (replicate size 0) H) as (out' & pk' & -> & _); [|done].
  by rewrite length_replicate.
Qed.

Lemma row_verdict_accept k buf pk' : row_verdict k buf = Accept pk' ->
  pk' = k /\ icp_result buf = CHECK_POS /\ filter_result k = CHECK_POS.
Proof. unfold row_verdict. destruct (icp_result buf), (filter_result k); simpl; intros [=]; done. Qed.

Lemma row_verdict_read k buf b0 : rows !! k = Some buf -> version k buf b0 -> row_verdict k b0 <> Unread.
Proof.
  intros Hk Hv. destruct (cd_error Hcd k buf b0 Hk Hv). unfold row_verdict. by destruct (icp_result b0), (filter_result k).
Qed.

(** The key of a row's entry. *)
Definition key_in_index (k : bytes) : bytes :=
  match rows !! k with Some buf => entry_key env pk_cols defs t buf | None => [] end.

Lemma entry_of_key k buf b0 key r : entry_of k buf b0 key r -> good k buf -> key = key_in_index k.
Proof.
  intros (Hk & _ & _ & [r' He] & _) Hg. unfold key_in_index. rewrite Hk.
  destruct (ready_entry _ _ _ _ _ _ Hready t k buf (Some []) (ri_target t Hix) Hg) as (r2 & E & _). congruence.
Qed.

(** ** The rows of a scan *)

Section Content.

Context {S D : Type} `{!TxService S, !TxLaws S, !ScanService S, !ScanLaws S, !DataStoreScanner D, !ScannerLaws D}.
Context (s : S) (Hco : consistent env good rows s).
Context (Hview : forall key, stored key = view s (is_name (t_index t)) key).
Context (req : ScanOpenTxRequest) (l : list ScanBatchTuple).
Context (Htable : so_table req = is_name (t_index t)) (Hcon : scan_content s req l).
Context (Hrange : forall k buf, rows !! k = Some buf -> requested_key req (entry_key env pk_cols defs t buf) <-> range k buf).

Lemma view_entry key r : view s (is_name (t_index t)) key = Some r -> exists k buf b0, entry_of k buf b0 key r.
Proof.
  intros Hv. pose proof (co_index _ _ _ _ Hco t (ri_target t Hix)) as Hic.
  destruct (ic_entry _ _ _ _ _ Hic key r Hv) as (k & buf & r0 & Hk & He).
  destruct (ic_row _ _ _ _ _ Hic k buf key r0 Hk He) as (r' & b0 & Hv' & Hg & He0). rewrite Hv in Hv'. injection Hv' as <-.
  exists k, buf, b0. split_and!; [done|by rewrite Hview|done|by exists r0|done].
Qed.

(** A tuple that is not deleted is the entry of a row in the range. *)
Lemma tuple_row tu : tu ∈ l -> tu_status tu = RecordDeleted \/
  tu_status tu = RecordNormal /\ exists k buf b0, entry_of k buf b0 (tu_key tu) (tu_record tu) /\ range k buf /\
    tu_key tu = key_in_index k /\ tuple_verdict tu = row_verdict k b0.
Proof.
  intros Hin. destruct (sc_tuple _ _ _ Hcon tu Hin) as [?|(Hn & Hv & Hreq)]; [by left|]. right. split; [done|].
  rewrite Htable in Hv. destruct (view_entry _ _ Hv) as (k & buf & b0 & He). pose proof He as (Hk & _).
  pose proof (entry_of_key k buf b0 _ _ He (co_good _ _ _ _ Hco k buf Hk)) as Hkey. exists k, buf, b0.
  split_and!; [done| |done|by apply (tuple_verdict_row tu k buf)]. apply (Hrange k buf Hk). rewrite Hkey in Hreq.
  unfold key_in_index in Hreq. by rewrite Hk in Hreq.
Qed.

Abbreviation taken := (accepted tuple_verdict l).

Lemma tuples_ok : Forall (entry_ok env decode_set t icp rowid_filter ref_length tuple_verdict) l.
Proof.
  apply Forall_forall. intros tu Hin%list_elem_of_In. destruct (tuple_row tu Hin) as [?|(Hn & k & buf & b0 & He & _)]; [by left|].
  right. split; [done|]. split.
  - rewrite (tuple_verdict_row tu k buf b0 He). apply (row_verdict_read k buf); [apply He|by eapply entry_of_version].
  - intros out Hl. rewrite (tuple_verdict_row tu k buf b0 He). by apply (check_verdict k buf).
Qed.

(** The rows that are asked for: the index condition holds of the version that
    the entry was written from. *)
Definition selected (k buf : bytes) : Prop :=
  range k buf /\ (exists b0, version k buf b0 /\ icp_result b0 = CHECK_POS) /\ filter_result k = CHECK_POS.

Lemma taken_row k : k ∈ taken -> exists buf, rows !! k = Some buf /\ selected k buf.
Proof.
  intros (tu & Hin & Hn & Hv)%accepted_elem. destruct (tuple_row tu Hin) as [?|(_ & k' & buf & b0 & He & Hr & _ & E)]; [congruence|].
  rewrite Hv in E. symmetry in E. apply row_verdict_accept in E as (-> & ? & ?). exists buf. split; [apply He|].
  split_and!; [done| |done]. exists b0. split; [by eapply entry_of_version|done].
Qed.

Lemma taken_all k buf : rows !! k = Some buf -> selected k buf -> k ∈ taken.
Proof.
  intros Hk (Hr & (b1 & Hv1 & Hi) & Hf). pose proof (co_index _ _ _ _ Hco t (ri_target t Hix)) as Hic.
  destruct (ready_entry _ _ _ _ _ _ Hready t k buf (Some []) (ri_target t Hix) (co_good _ _ _ _ Hco k buf Hk)) as (r & E & _).
  destruct (ic_row _ _ _ _ _ Hic k buf _ r Hk E) as (r' & b0 & Hv & Hg & He0).
  destruct (sc_all _ _ _ Hcon (entry_key env pk_cols defs t buf) r') as (tu & Hin & Hkey & Hn);
    [by rewrite Htable|by apply (Hrange k buf Hk)|].
  apply (elem_accepted _ _ tu); [| |done|].
  - intros tu' Hin' Hn'. destruct (tuple_row tu' Hin') as [?|(_ & k' & buf' & b' & He' & Hr' & _ & ->)]; [congruence|].
    pose proof (entry_of_version _ _ _ _ _ He') as Hv'. destruct He' as [Hk' _].
    destruct (cd_range Hcd k' buf' b' Hk' Hv' Hr'), (cd_error Hcd k' buf' b' Hk' Hv'). unfold row_verdict.
    by destruct (icp_result b'), (filter_result k').
  - done.
  - destruct (tuple_row tu Hin) as [?|(_ & k' & buf' & b' & He' & _ & _ & ->)]; [congruence|].
    pose proof (entry_of_version _ _ _ _ _ He') as Hv'. destruct He' as (Hk' & _ & _ & [r2 E2] & _). rewrite Hkey in E2.
    assert (k' = k) as -> by exact (ic_apart _ _ _ _ _ Hic k' k buf' buf _ r2 r Hk' Hk E2 E).
    rewrite Hk in Hk'. injection Hk' as <-. unfold row_verdict. by rewrite (version_icp k buf b' b1), Hi, Hf.
Qed.

Lemma taken_keys : map key_in_index taken `sublist_of` map tu_key l.
Proof.
  apply accepted_sublist. intros tu k Hin Hn Hv.
  destruct (tuple_row tu Hin) as [?|(_ & k' & buf & b0 & _ & _ & -> & E)]; [congruence|]. rewrite Hv in E. symmetry in E.
  by apply row_verdict_accept in E as (-> & _).
Qed.

Lemma taken_NoDup : NoDup taken.
Proof.
  apply (NoDup_fmap_1 key_in_index). eapply sublist_NoDup; [apply (sc_once _ _ _ Hcon)|apply taken_keys].
Qed.

Lemma taken_found : Forall (fun k => is_Some (record_of env rows k)) taken.
Proof.
  apply Forall_forall. intros k Hk%list_elem_of_In. destruct (taken_row k Hk) as (buf & Hb & _). unfold record_of. rewrite Hb.
  by apply (co_record _ _ _ _ Hco k).
Qed.

Context (rec_addr : EloqRecord -> Z) (mem' : Z -> bytes) (Hdec : rows_decodable env decode_set rec_addr mem' rows).

(** What is read of the rows. *)
Lemma taken_scanned n r : all_of (D := D) env decode_set rec_addr size (rows_of env rows taken) n s r ->
  exists outs rc st cur, r = Some (outs, rc, st, cur) /\ same_data s (txm st) /\
    scanned env decode_set mem' rows selected outs rc /\
    map (fun o => key_in_index o.1) outs `sublist_of` map tu_key l /\ ((length l < n)%nat -> rc <> 0).
Proof.
  intros Hall. pose proof (rows_of_keys env rows _ taken_found) as Hkeys.
  edestruct (scanned_all (D := D) env decode_set rec_addr mem' rows Hdec selected (rows_of env rows taken))
    as (outs & rc & st & cur & -> & Hs & Hsc & Hpre & Hn); [| | |exact Hall|].
  - rewrite Hkeys. exact taken_NoDup.
  - intros k rec [Hk Hrec]%rows_of_elem. destruct (taken_row k Hk) as (buf & Hb & ?). exists buf.
    unfold record_of in Hrec. by rewrite Hb in Hrec.
  - intros k buf Hk Hsel. rewrite Hkeys. by apply (taken_all k buf).
  - exists outs, rc, st, cur. split_and!; [done|done|done| |].
    + rewrite Hkeys in Hpre. rewrite <- (map_map fst key_in_index). etrans; [|apply taken_keys].
      destruct Hpre as [more ->]. rewrite map_app. by apply sublist_inserts_r.
    + intros Hlt. apply Hn. rewrite <- (length_map fst), Hkeys. pose proof (accepted_length tuple_verdict l). lia.
Qed.

End Content.

End Entries.

(** ** The calls *)

Section Secondary.

Context {S D : Type} `{!TxService S, !TxLaws S, !ScanService S, !ScanLaws S, !DataStoreScanner D, !ScannerLaws D}.
Context (storage_hd : option (DataStoreHandler S)) (env : ha_env) (ai : option nat) (decode_set : nat -> bool).
Context (random_sort mrr : bool) (thd_killed : nat -> bool) (rec_addr : EloqRecord -> Z) (t : target).
Context (icp rowid_filter : option (bytes -> check_result_t)) (ref_length : nat) (std_sort : list key_order -> list key_order).
Context (key_addr : bytes -> Z) (ext : bool) (end_range : option key_range).

Abbreviation size := (length (default_values (ha_table env))).
Abbreviation Next := (index_next storage_hd env ai decode_set mrr thd_killed rec_addr t icp rowid_filter ref_length std_sort).
Abbreviation ReadRange := (index_read_range storage_hd env ai decode_set random_sort mrr thd_killed rec_addr t icp
  rowid_filter ref_length std_sort key_addr ext end_range).

Context (Hsecondary : on_primary env ai = false) (Hneed : is_pk_scan_needed env mrr = true).
Context (Hsort : forall l, std_sort l ≡ₚ l) (Hstart : forall s : S, 1 <= tx_start_ts s).
Context (vd : ScanBatchTuple -> verdict) (good : bytes -> bytes -> Prop) (rows : gmap bytes bytes).

Abbreviation at_rows := (sk_scan_at env decode_set rec_addr t icp rowid_filter ref_length vd good rows).

Lemma secondary_next fuel st cur out l : at_rows fuel st cur l -> length out = size ->
  next_of env decode_set rec_addr size (at_rows fuel) (txm st) l (Next fuel st cur out).
Proof.
  intros Hat Hl. unfold index_next, IndexScanNext. rewrite Hsecondary. apply index_next_of. by apply sk_next.
Qed.

Lemma secondary_read_range mem' cnt rb key map flag r st cur out :
  PrepareScan (ha_mem env) key_addr ext (ha_table env) (is_kd (t_index t)) false cnt rb key map flag (use_full_key cnt map)
    end_range (range_start cur) = Some (inr r) ->
  rows_decodable env decode_set rec_addr mem' rows -> consistent env good rows (txm st) ->
  closable env cur -> prefix_match_key_ cur = None -> decodes env decode_set = true -> length out = size ->
  let req := sk_scan_request env decode_set (t_index t) (key_of_bytes (sr_start r)) (sr_start_inclusive r)
    (key_of_bytes <$> (fst <$> sr_end r)) (match sr_end r with Some (_, b) => b | None => true end) (sr_direction r) in
  exists L, scan_content (txm st) req L /\
    (Forall (entry_ok env decode_set t icp rowid_filter ref_length vd) L ->
     Forall (fun k => is_Some (record_of env rows k)) (accepted vd L) ->
     forall fuel n, (length L < fuel)%nat ->
       all_of env decode_set rec_addr size (rows_of env rows (accepted vd L)) (Datatypes.S n) (txm st)
         (go_on (ReadRange fuel st cur cnt rb out key map flag) (read_rows (Next fuel) n))).
Proof.
  intros Er Hdec Hco Hc Hp Hd Hl req. unfold index_read_range, IndexScanOpen, IndexScanNext, active_kd.
  destruct (close_if_open_spec env st cur Hc) as (st1 & cur1 & -> & Hs1 & _ & Hp1 & Ho1 & Hsr). rewrite Hsecondary, Hsr, Er.
  destruct (SkIndexScanOpen_spec env decode_set ai st1 cur1 (t_index t) (key_of_bytes (sr_start r)) (sr_start_inclusive r)
    (key_of_bytes <$> (fst <$> sr_end r)) (match sr_end r with Some (_, b) => b | None => true end) (sr_direction r)
    (or_introl Ho1) (Hp1 Hp)) as (st2 & cur2 & -> & Hs2 & Hsv & Hid & Hb & Hcon). cbv zeta in Hcon. fold req in Hcon.
  assert (same_data (txm st) (txm st2)) as Hs by by eapply same_data_trans.
  exists (later (txm st2) cur2). split.
  { eapply scan_content_same; [exact Hs1|]. apply Hcon. simpl. rewrite Hd. apply orb_true_r. }
  intros Hok Hfound fuel n Hf. apply (go_on_spec _ _ _ _ (at_rows fuel)).
  - apply (next_of_same _ _ _ _ _ _ (txm st2)); [done|]. apply sk_next; try done. exists [].
    split_and!; try done; [by rewrite Hb|by eapply consistent_same|].
    pose proof (rows_of_found env rows _ Hfound) as HF. apply Forall_forall. intros kr Hin%list_elem_of_In.
    apply list_elem_of_lookup in Hin as [i Hi]. simpl in Hi.
    destruct (Forall2_lookup_r _ _ _ _ _ HF Hi) as (k & _ & <- & Hrec). unfold record_of in Hrec.
    destruct (rows !! kr.1) as [buf|] eqn:Hk; [|done]. intros out0 Hl0.
    destruct (Hdec kr.1 buf kr.2 out0 Hk Hrec Hl0) as (out' & ? & ? & _). by exists out'.
  - intros st3 cur3 out3 l3 H3 Hl3. apply (read_rows_spec _ _ _ _ _ _ _ _ _ _ _ (secondary_next fuel) H3 Hl3).
Qed.

End Secondary.

(** ** Ranges and order *)

Section Ranges.

Context (uninit : mono_field_packing) (env : ha_env) (pkd0 : mono_key_def) (pk : KEY) (pk_cols : list indexed_part).
Context (defs : target -> index_def) (Hready : table_ready uninit env pkd0 pk pk_cols defs) (t : target) (Ht : t ∈ targets env).

Abbreviation mem := (ha_mem env).
Abbreviation tbl := (ha_table env).
Abbreviation cols := (df_cols (defs t)).
Abbreviation all := (target_columns pk_cols (defs t)).
Abbreviation kd := (is_kd (t_index t)).

(** The number of columns in the keys of the entries. *)
Definition key_columns : nat := if t_unique t then length cols else length all.

Lemma key_columns_le : (length cols <= key_columns)%nat.
Proof. unfold key_columns, target_columns, index_columns. destruct (t_unique t); [done|]. rewrite length_app. lia. Qed.

Lemma ready_parts : Forall2 (part_ready mem uninit tbl) all (m_pack_info kd) /\
  m_maxlength kd = sum_list (zip_with image_bound all (m_pack_info kd)) /\ m_keyno kd = m_keyno (df_kd0 (defs t)).
Proof.
  destruct (tr_index _ _ _ _ _ _ Hready t Ht) as (Hid & _ & E & _).
  destruct (setup_ready mem uninit tbl _ _ _ _ Hid) as (kd' & E' & Hr & _ & _ & Hk & Hm & _). rewrite E in E'. by injection E' as <-.
Qed.

Lemma entry_key_columns buf :
  entry_key env pk_cols defs t buf = row_key mem (take key_columns all) (take key_columns (m_pack_info kd)) buf.
Proof.
  destruct ready_parts as [Hr _]. unfold entry_key, own_key, key_columns. destruct (t_unique t).
  - unfold target_columns, index_columns. by rewrite take_app_length.
  - rewrite firstn_all, take_ge; [done|]. by rewrite (Forall2_length Hr).
Qed.

Lemma parts_cmp_app ps qs a b : parts_cmp (ps ++ qs) a b = (parts_cmp ps a b ;;; parts_cmp qs a b).
Proof. induction ps as [|p ps IH]; [done|]. simpl. rewrite IH. by destruct (part_cmp p a b). Qed.

(** Entries are in the order of the columns of the index. *)
Lemma entry_key_order a b : row_ok all a -> row_ok all b ->
  lex_cmp (entry_key env pk_cols defs t a) (entry_key env pk_cols defs t b) = Lt -> parts_cmp (map fst cols) a b <> Gt.
Proof.
  intros Ha Hb. rewrite !entry_key_columns. destruct ready_parts as [Hr _].
  rewrite (row_key_cmp mem tbl uninit) by (try apply Forall_take; try done; by apply Forall2_take, ready_packed).
  pose proof key_columns_le as Hle. rewrite <- (take_drop (length cols) (take key_columns all)), take_take, Nat.min_l by done.
  unfold target_columns, index_columns at 1. rewrite take_app_length, map_app, parts_cmp_app.
  by destruct (parts_cmp (map fst cols) a b).
Qed.

(** The range of a search, on the keys of the entries. *)
Lemma entry_range key_addr ext record_buffer parts rec key flag end_ start :
  searchable ext (length (default_values tbl)) tbl (df_kd0 (defs t)) (df_ki (defs t)) cols pk_cols false ->
  supported_flag flag -> search_key ext (df_ki (defs t)) cols parts rec key ->
  bound_ok ext (df_ki (defs t)) cols end_ -> bound_ok ext (df_ki (defs t)) cols start ->
  length record_buffer = length (default_values tbl) -> bytes_ok record_buffer ->
  let cnt := actual_n_key_parts ext (df_ki (defs t)) in
  exists r, PrepareScan mem key_addr ext tbl kd false cnt record_buffer key (2 ^ Z.of_nat parts - 1) flag
      (use_full_key cnt (2 ^ Z.of_nat parts - 1)) (range_of <$> end_) (range_of <$> start) = Some (inr r) /\
    forall buf, row_ok all buf -> bytes_ok buf ->
      in_scan r (entry_key env pk_cols defs t buf) <-> scan_condition cols flag parts rec end_ start buf.
Proof.
  intros [Hid Htu Hlo Hpos Hlen Hparts _] Hflag Hsk He Hst Hlb Hbb cnt. destruct ready_parts as (Hr & Hm & Hk).
  destruct (prepare_scan_located mem key_addr ext _ uninit tbl _ _ _ _ Hid Htu Hlo Hpos Hlen key_columns key_columns_le
    kd false Hr Hm Hk) with (record_buffer := record_buffer) (n := parts) (rec := rec) (key := key) (flag := flag)
    (e := end_) (b := start) as (r & Er & Hin); try done.
  exists r. split; [done|]. intros buf Hrow Hb. rewrite entry_key_columns. apply Hin; [by apply Forall_take|done].
Qed.

End Ranges.


Lemma t_index_a_indexed : readable_index t_env [int_part f_id] t_def t_index_a.
Proof. destruct t_index_a_readable as [H1 _ H2 H3]. by split. Qed.

Lemma t_conditions range stored : conditions_ok t_env [int_part f_id] t_def None None 8 (fun _ => CHECK_POS) t_index_a
  {[t_key row_1 := row_1]} range stored.
Proof. split; done. Qed.

Lemma with_scan_small t (st : ha_state mem_store) : entries_small t (txm st) -> entries_small t (txm (with_scan st)).
Proof. intros H. exact H. Qed.


(** The scan of a unique index with a condition that no row satisfies: the row
    is returned all the same. *)
Example unique_scan_run :
  match go_on (index_read_range None t_env (Some 1%nat) (fun _ => true) false false (fun _ => false) (fun _ => 1000) t_index_a
                 (Some (fun _ => CHECK_NEG)) None 8 (fun l => l) (fun _ => 0) false None 5 (with_scan t_one) closed_cursor 1
                 (replicate 13 0) (replicate 13 0) a_tuple (2 ^ Z.of_nat 1 - 1) HA_READ_KEY_EXACT)
          (read_rows (index_next None t_env (Some 1%nat) (fun _ => true) false (fun _ => false) (fun _ => 1000) t_index_a
                 (Some (fun _ => CHECK_NEG)) None 8 (fun l => l) 5) 3) with
  | Some (outs, rc, _, _) => (outs, rc)
  | None => ([], 0)
  end = ([(t_key row_1, row_1)], HA_ERR_END_OF_FILE).
Proof. by vm_compute. Qed.

End SkRows.
