(* ===== verification/ScanErrors.v ===== *)
(** * ScanErrors: where scans do not do what they mean to

    Deviations of the scans of storage/eloq/ha_eloq.cc from what the server
    relies on: the condition that a unique index takes over and does not check,
    the errors that [index_first] and [index_last] report as the end, the range
    that loses its start, and the batch of rows whose loss ends a scan early. *)

From stdpp Require Import gmap strings.
From S2P Require Import Prelude Slice Buff Charset Latin1 Copy Collation Field Placement Store.
From S2P Require Import Codec Packing VarFormat SpacePad Varchar KeySetup KeyDef KeyOrder Index KeyRead PkTuple.
From S2P Require Import Neighbour Double EloqKey Restore RoundTrip Layout KeyTuple Row Entry Hidden Handler Consistency.
From S2P Require Import Tables Statements Scan Read Cursor ScanRows IndexScan SkScan SkRows.
Import Field KeyDef Index EloqKey Entry Handler Consistency Statements Scan Read Cursor ScanRows SkScan.

Module ScanErrors.

(** ** Conditions on a unique index *)

Section Unique.

Context {S D : Type} `{!TxService S, !ScanService S, !DataStoreScanner D} (storage_hd : option (DataStoreHandler S)).
Context (env : ha_env) (decode_set : nat -> bool) (mrr : bool) (thd_killed : nat -> bool) (rec_addr : EloqRecord -> Z).
Context (t : target) (icp rowid_filter : option (bytes -> check_result_t)) (ref_length : nat).
Context (std_sort : list key_order -> list key_order) (Hunique : t_unique t = true).

Lemma check_entry_icp out key rec :
  check_entry env decode_set t icp rowid_filter ref_length out key rec =
  check_entry env decode_set t None rowid_filter ref_length out key rec.
Proof. unfold check_entry. by rewrite Hunique. Qed.

Lemma SkScanLoop_icp snapshot start_ts fuel i (st : ha_state S) (cur : cursor D) cs out orders tmp sk_ts :
  SkScanLoop env decode_set mrr thd_killed t icp rowid_filter ref_length snapshot start_ts fuel i st cur cs out orders tmp sk_ts =
  SkScanLoop env decode_set mrr thd_killed t None rowid_filter ref_length snapshot start_ts fuel i st cur cs out orders tmp sk_ts.
Proof.
  revert i st cur cs out orders tmp sk_ts. induction fuel as [|fuel IH]; intros i st cur cs out orders tmp sk_ts; [done|].
  cbn [SkScanLoop]. destruct (thd_killed i); [done|]. destruct (advance_store _ _) as [ss cs'].
  destruct (if ccm_scan_open_ (ccm cur) then _ else _) as [[[s cc] [e|]] ts]; [done|].
  destruct (choose _ _ _ _ _ _ _) as [[[cc' ss'] cs''] ch]. rewrite ?check_entry_icp.
  repeat (case_match; rewrite ?check_entry_icp, ?IH; try done).
Qed.

Lemma gather_icp fuel (st : ha_state S) (cur : cursor D) out :
  gather storage_hd env decode_set mrr thd_killed rec_addr t icp rowid_filter ref_length std_sort fuel st cur out =
  gather storage_hd env decode_set mrr thd_killed rec_addr t None rowid_filter ref_length std_sort fuel st cur out.
Proof. unfold gather. destruct (first_store _). by rewrite SkScanLoop_icp. Qed.

End Unique.

(** C33: the index condition of a unique index is taken over and not checked.
    [index_flags] offers index condition pushdown for every index but the
    primary one, and [idx_cond_push] leaves no part of the condition to the
    server; but a scan of a unique index returns what it returns without the
    condition, so that rows that violate it reach the client. *)
Theorem unique_condition_ignored {S D : Type} `{!TxService S, !ScanService S, !DataStoreScanner D}
    (storage_hd : option (DataStoreHandler S)) (env : ha_env) decode_set mrr thd_killed rec_addr (t : target) rowid_filter
    ref_length std_sort (inx : nat) (cond : bytes -> check_result_t) fuel (st : ha_state S) (cur : cursor D) out :
  Some inx <> primary_key (ha_table env) -> t_unique t = true ->
  Z.land (index_flags (ha_table env) inx) HA_DO_INDEX_COND_PUSHDOWN <> 0 /\
  let '(pushed, rest) := idx_cond_push inx cond in
  rest = None /\ active_condition pushed inx = Some cond /\
  SkIndexScanNext storage_hd env decode_set mrr thd_killed rec_addr t (active_condition pushed inx) rowid_filter ref_length
    std_sort fuel st cur out =
  SkIndexScanNext storage_hd env decode_set mrr thd_killed rec_addr t None rowid_filter ref_length std_sort fuel st cur out.
Proof.
  intros Hi Hu. split; [unfold index_flags; by rewrite decide_False|]. unfold active_condition. simpl. rewrite Nat.eqb_refl.
  split_and!; [done|done|]. unfold SkIndexScanNext. rewrite (gather_icp _ _ _ _ _ _ _ (Some cond)) by done.
  destruct (is_pk_scan_needed _ _); [|done]. destruct (serve _ _ _ _ _ _) as [[[r|] cur']|]; [done| |done].
  by rewrite (gather_icp _ _ _ _ _ _ _ (Some cond)).
Qed.

Lemma unique_condition_witness :
  SkIndexScanNext None t_env (fun _ => true) false (fun _ => false) (fun _ => 1000) t_index_a
    (active_condition (idx_cond_push 1 (fun _ => CHECK_NEG)).1 1) None 8 (fun l => l) 5 (with_scan t_one) closed_cursor (replicate 13 255) =
  SkIndexScanNext None t_env (fun _ => true) false (fun _ => false) (fun _ => 1000) t_index_a
    None None 8 (fun l => l) 5 (with_scan t_one) closed_cursor (replicate 13 255).
Proof.
  destruct (unique_condition_ignored (D := unit) None t_env (fun _ => true) false (fun _ => false) (fun _ => 1000) t_index_a None 8 (fun l => l)
    1 (fun _ => CHECK_NEG) 5 (with_scan t_one) closed_cursor (replicate 13 255)) as (_ & _ & _ & H).
  - done.
  - done.
  - exact H.
Defined.

(** ** Errors of the first read *)

(** Whatever goes wrong with the first read of [index_first] and [index_last],
    they report success, a lock timeout or the end. *)
Theorem first_errors_hidden {S D : Type} `{!TxService S, !ScanService S, !DataStoreScanner D}
    (storage_hd : option (DataStoreHandler S)) (env : ha_env) ai decode_set random_sort mrr thd_killed rec_addr (t : target) icp
    rowid_filter ref_length std_sort fuel (st st1 st2 : ha_state S) (cur cur1 cur2 : cursor D) rc buf buf2 :
  IndexScanOpen env ai decode_set random_sort t st cur PositiveInfinity false None false Backward = Some (st1, cur1) ->
  IndexScanNext storage_hd env ai decode_set mrr thd_killed rec_addr t icp rowid_filter ref_length std_sort fuel st1 cur1 buf =
    Some (st2, cur2, rc, buf2) -> rc <> 0 -> rc <> HA_ERR_LOCK_WAIT_TIMEOUT ->
  index_last storage_hd env ai decode_set random_sort mrr thd_killed rec_addr t icp rowid_filter ref_length std_sort fuel st cur buf =
    Some (st2, cur2, HA_ERR_END_OF_FILE, buf2).
Proof.
  intros Ho Hn H0 Ht. unfold index_last. rewrite Ho, Hn. unfold first_rc.
  by rewrite (proj2 (Z.eqb_neq _ _) H0), (proj2 (Z.eqb_neq _ _) Ht).
Qed.

(** ** Ranges that lose their start *)

(** While a scan is open, the start of the range that [prepare_range_scan] has
    set has no effect on [index_read_map]: closing the scan drops it, so that a
    backward scan, whose end it is, has no end. *)
Theorem range_start_lost {S D : Type} `{!TxService S, !ScanService S, !DataStoreScanner D}
    (storage_hd : option (DataStoreHandler S)) (env : ha_env) ai decode_set random_sort mrr thd_killed rec_addr (t : target) icp
    rowid_filter ref_length std_sort key_addr ext end_range fuel (st : ha_state S) (cur : cursor D) cnt rb buf key map flag r :
  IndexScanIsOpen cur = true ->
  index_read_range storage_hd env ai decode_set random_sort mrr thd_killed rec_addr t icp rowid_filter ref_length std_sort
    key_addr ext end_range fuel st (prepare_range_scan (Some r) cur) cnt rb buf key map flag =
  index_read_range storage_hd env ai decode_set random_sort mrr thd_killed rec_addr t icp rowid_filter ref_length std_sort
    key_addr ext end_range fuel st (prepare_range_scan None cur) cnt rb buf key map flag.
Proof.
  intros Ho. unfold index_read_range, close_if_open.
  change (IndexScanIsOpen (prepare_range_scan (Some r) cur)) with (IndexScanIsOpen cur).
  change (IndexScanIsOpen (prepare_range_scan None cur)) with (IndexScanIsOpen cur). by rewrite Ho.
Qed.

(** ** Rows that are gone *)

Lemma serve_loop_lost {S D : Type} (env : ha_env) decode_set rec_addr n (st : ha_state S) (cur : cursor D) out :
  0 <= scan_batch_idx_ (ccm cur) ->
  (forall i, (i < n)%nat -> exists pos tu, batch_order_ cur !! (Z.to_nat (scan_batch_idx_ (ccm cur)) + i)%nat = Some pos /\
     sk_pk_scan_batch_ cur !! pos = Some tu /\ tu_status tu <> RecordNormal) ->
  exists cur', serve_loop env decode_set rec_addr n st cur out = Some (None, cur') /\
    is_last_scan_batch_ (ccm cur') = is_last_scan_batch_ (ccm cur).
Proof.
  revert cur. induction n as [|n IH]; intros cur H0 H; [by exists cur|]. cbn [serve_loop].
  destruct (H 0%nat ltac:(lia)) as (pos & tu & Ho & Hp & Hst). rewrite Nat.add_0_r in Ho.
  rewrite (at_index_lookup _ _ _ H0 Ho). simpl. rewrite Hp.
  destruct (IH (set_scan (set_idx (scan_batch_idx_ (ccm cur) + 1) (ccm cur)) (store cur) cur)) as (cur' & E & Hl).
  - simpl. lia.
  - intros i Hi. destruct (H (Datatypes.S i) ltac:(lia)) as (pos' & tu' & Ho' & ?). exists pos', tu'. split; [|done]. simpl.
    by replace (Z.to_nat (scan_batch_idx_ (ccm cur) + 1) + i)%nat with (Z.to_nat (scan_batch_idx_ (ccm cur)) + Datatypes.S i)%nat by lia.
  - exists cur'. split; [|done]. by destruct (tu_status tu).
Qed.

(** When all rows of a batch are gone, the end is reported even if more
    entries are to come. *)
Theorem lost_batch_ends_scan {S D : Type} `{!TxService S, !ScanService S, !DataStoreScanner D}
    (env : ha_env) decode_set rec_addr std_sort (st : ha_state S) (cur : cursor D) out orders tmp s recs :
  collected orders tmp -> orders <> [] -> (forall l, std_sort l ≡ₚ l) ->
  tx_BatchRead (txm st) {| br_table := base_table_name env; br_version := base_version env;
    br_keys := map (fun o => (ko_key o, ko_ts o)) (std_sort orders); br_for_update := lock_write env;
    br_for_share := lock_shared env |} = (s, inr recs) ->
  length recs = length orders -> Forall (fun r => r.1 = RecordDeleted) recs ->
  exists cur', load_rows None env decode_set rec_addr std_sort st cur out orders tmp =
      Some (with_txm s (with_txm s st), cur', HA_ERR_KEY_NOT_FOUND, out) /\
    is_last_scan_batch_ (ccm cur') = is_last_scan_batch_ (ccm cur).
Proof.
  intros Hc Hne Hs Er Hlen Hdel. unfold load_rows. rewrite decide_False, Er by done. cbn [negb].
  set (cur1 := set_loaded _ _ _ _).
  destruct (serve_loop_lost env decode_set rec_addr (entries_left (ccm cur1)) (with_txm s (with_txm s st)) cur1 out) as (cur' & E & Hl); [done| |].
  - intros i Hi. rewrite Nat.add_0_l. assert (i < length orders)%nat as [o Ho]%lookup_lt_is_Some.
    { revert Hi. unfold entries_left. simpl. rewrite (proj1 Hc). by destruct (Z.ltb_spec 0 (Z.of_nat (length orders))); lia. }
    destruct (sorted_position std_sort Hs orders tmp (batch_order_ cur) i o Hc Ho) as (j & Hij & Hj).
    assert (j < length recs)%nat as [r Hr]%lookup_lt_is_Some.
    { rewrite Hlen, <- (Permutation_length (Hs orders)). by eapply lookup_lt_Some. }
    exists j, (loaded_tuple o r). split_and!; [done| |].
    + simpl. rewrite lookup_zip_with, Hj. simpl. by rewrite Hr.
    + simpl. rewrite Forall_forall in Hdel. rewrite (Hdel r); [done|]. by apply list_elem_of_In, (list_elem_of_lookup_2 _ j).
  - unfold serve. cbn [txm with_txm] in *. rewrite E. by exists cur'.
Qed.

End ScanErrors.
