(* ===== verification/Mrr.v ===== *)
(** * Mrr: reading rows by a batch of positions

    A multi-range read that sorts by row collects the positions of rows, which
    [batch_load_records] of [ha_eloq] (storage/eloq/ha_eloq.cc) reads in one
    request; [batch_get_record] then returns the rows one after the other.
    The theorem: the rows of the positions that are still in the table come
    back, in the order of the positions. *)

From stdpp Require Import gmap strings.
From S2P Require Import Prelude Slice Buff Charset Latin1 Copy Collation Field Placement Store.
From S2P Require Import Codec Packing VarFormat SpacePad Varchar KeySetup KeyDef KeyOrder Index KeyRead PkTuple.
From S2P Require Import Neighbour Double EloqKey Restore RoundTrip Layout KeyTuple Row Entry Hidden Handler Consistency Tables.
From S2P Require Import Statements Scan Read Cursor ScanRows.
Import Field Packing KeyDef KeyOrder Index KeyRead PkTuple EloqKey Entry Hidden Handler Consistency Tables.
Import Statements Scan Read Cursor ScanRows.

Module Mrr.

Abbreviation DSMRR_IMPL_SORT_ROWIDS := 1024 (only parsing).
Abbreviation HA_MRR_USE_DEFAULT_IMPL := 64 (only parsing).
Abbreviation HA_MRR_SORTED := 8 (only parsing).

(** [is_mrr_sort_rowid_] for the mode of a multi-range read. *)
Definition mrr_sort_rowid (mode : Z) : bool :=
  negb (Z.land mode DSMRR_IMPL_SORT_ROWIDS =? 0) && (Z.land mode (Z.lor HA_MRR_USE_DEFAULT_IMPL HA_MRR_SORTED) =? 0).

(** The members that a batch of positions uses; a tuple holds the key and the
    record that it points to. *)
Record mrr_state := {
  mrr_batch : list ScanBatchTuple;
  sk_pk_scan_batch_idx_ : Z;
  batch_key_ : list bytes;
  batch_rec_ : list EloqRecord
}.

(** A tuple before it is read. *)
Abbreviation new_tuple key rec := {|
  tu_key := key; tu_record := rec; tu_status := RecordUnknown; tu_version_ts := 0; tu_cce_addr := 0 |} (only parsing).

Section Mrr.

Context {S : Type} `{!TxService S, !ScanService S} (env : ha_env) (decode_set : nat -> bool).
Context (rec_addr : EloqRecord -> Z) (ref_length : nat).

(** [None]: an access past the end of a vector, or a position that holds no
    key. *)
Fixpoint load_keys (i : nat) (vct_key : list bytes) (m : mrr_state) : option mrr_state :=
  match vct_key with
  | [] => Some m
  | key :: vct_key =>
      match key_length (pk_descr_ env) (ha_table env) (take ref_length key), batch_key_ m !! i, batch_rec_ m !! i with
      | Some key_length, Some _, Some rec =>
          load_keys (Datatypes.S i) vct_key {|
            mrr_batch := mrr_batch m ++ [new_tuple (take key_length key) rec];
            sk_pk_scan_batch_idx_ := sk_pk_scan_batch_idx_ m;
            batch_key_ := <[i := take key_length key]> (batch_key_ m); batch_rec_ := batch_rec_ m |}
      | _, _, _ => None
      end
  end.

(** What the request leaves in a tuple. *)
Definition read_tuple (t : ScanBatchTuple) (r : RecordStatus * EloqRecord) : ScanBatchTuple := {|
  tu_key := tu_key t; tu_record := r.2; tu_status := r.1; tu_version_ts := tu_version_ts t; tu_cce_addr := tu_cce_addr t |}.

Definition batch_load_records (st : ha_state S) (m : mrr_state) (vct_key : list bytes)
    : option (ha_state S * mrr_state * Z) :=
  let n := length vct_key in
  let grow := (length (mrr_batch m) <? n)%nat in
  let m := {|
    mrr_batch := []; sk_pk_scan_batch_idx_ := 0;
    batch_key_ := if grow then resize [] n (batch_key_ m) else batch_key_ m;
    batch_rec_ := if grow then resize empty_record n (batch_rec_ m) else batch_rec_ m |} in
  match load_keys 0 vct_key m with
  | None => None
  | Some m =>
      let '(s, r) := tx_BatchRead (txm st) {|
        br_table := base_table_name env; br_version := base_version env;
        br_keys := map (fun t => (tu_key t, tu_version_ts t)) (mrr_batch m);
        br_for_update := lock_write env; br_for_share := lock_shared env |} in
      let st := with_txm s st in
      match r with
      | inl e => Some (with_error e st, m, convert_tx_error e)
      | inr recs =>
          Some (st, {|
            mrr_batch := zip_with read_tuple (mrr_batch m) recs; sk_pk_scan_batch_idx_ := sk_pk_scan_batch_idx_ m;
            batch_key_ := batch_key_ m; batch_rec_ := map snd recs ++ drop (length recs) (batch_rec_ m) |}, 0)
      end
  end.

(** The first tuple from the current one on that was found, and its index. *)
Fixpoint next_normal (tuples : list ScanBatchTuple) (idx : Z) : Z * option ScanBatchTuple :=
  match tuples with
  | [] => (idx, None)
  | t :: tuples => if decide (tu_status t = RecordNormal) then (idx, Some t) else next_normal tuples (idx + 1)
  end.

Definition set_mrr_idx (idx : Z) (m : mrr_state) : mrr_state := {|
  mrr_batch := mrr_batch m; sk_pk_scan_batch_idx_ := idx; batch_key_ := batch_key_ m; batch_rec_ := batch_rec_ m |}.

Definition batch_get_record (m : mrr_state) (buf : bytes) : option (mrr_state * Z * bytes) :=
  let idx := sk_pk_scan_batch_idx_ m in
  if Z.of_nat (length (mrr_batch m)) <=? idx then Some (m, HA_ERR_END_OF_FILE, buf)
  else
    match next_normal (drop (Z.to_nat idx) (mrr_batch m)) idx with
    | (idx, None) => Some (set_mrr_idx idx m, HA_ERR_END_OF_FILE, buf)
    | (idx, Some t) =>
        match DecodeRecord env decode_set (rec_addr (tu_record t)) buf (tu_key t) (tu_record t) with
        | None => None
        | Some buf => Some (set_mrr_idx (idx + 1) m, 0, buf)
        end
    end.

(** Reading the batch to its end: the record buffers of the rows. *)
Fixpoint get_records (fuel : nat) (m : mrr_state) (buf : bytes) : option (list bytes) :=
  match fuel with
  | O => None
  | Datatypes.S fuel =>
      match batch_get_record m buf with
      | None => None
      | Some (m, rc, buf) => if rc =? 0 then (cons buf) <$> get_records fuel m buf else Some []
      end
  end.

End Mrr.

(** ** The rows of a batch *)

Section Batch.

Context {S : Type} `{!TxService S, !TxLaws S} (env : ha_env) (good : bytes -> bytes -> Prop) (decode_set : nat -> bool).
Context (rec_addr : EloqRecord -> Z) (mem' : Z -> bytes) (rows : gmap bytes bytes) (s : S).
Context (Hco : consistent env good rows s) (Hdec : rows_decodable env decode_set rec_addr mem' rows).

(** A tuple that was read for a key. *)
Definition answered (k : bytes) (t : ScanBatchTuple) : Prop :=
  tu_key t = k /\ (tu_status t = RecordNormal /\ view s (base_table_name env) k = Some (tu_record t) \/
                   tu_status t = RecordDeleted /\ view s (base_table_name env) k = None).

Abbreviation found := (omap (fun k => rows !! k)).

Lemma answered_found k t : answered k t -> tu_status t = RecordNormal ->
  exists buf, rows !! k = Some buf /\ row_record env buf = Some (tu_record t).
Proof.
  intros [_ [[_ Hv]|[-> _]]] Hn; [|done]. rewrite (co_base _ _ _ _ Hco) in Hv.
  destruct (rows !! k) as [buf|]; [by exists buf|done].
Qed.

Lemma answered_missing k t : answered k t -> tu_status t <> RecordNormal -> rows !! k = None.
Proof.
  intros [_ [[? _]|[_ Hv]]] Hn; [done|]. rewrite (co_base _ _ _ _ Hco) in Hv.
  destruct (rows !! k) as [buf|] eqn:E; [|done]. destruct (co_record _ _ _ _ Hco k buf E). simpl in Hv. congruence.
Qed.

Lemma next_normal_spec ks ts : Forall2 answered ks ts -> forall idx,
  match next_normal ts idx with
  | (_, None) => found ks = []
  | (idx', Some t) => exists k buf ks' ts', answered k t /\ tu_status t = RecordNormal /\ rows !! k = Some buf /\
      found ks = buf :: found ks' /\ Forall2 answered ks' ts' /\
      exists n, idx' = idx + Z.of_nat n /\ drop (Datatypes.S n) ts = ts' /\ (n < length ts)%nat
  end.
Proof.
  induction 1 as [|k t ks ts Ha Hts IH]; intros idx; simpl; [done|]. case_decide as Hn.
  - destruct (answered_found k t Ha Hn) as (buf & Hk & _). exists k, buf, ks, ts. rewrite Hk. split_and!; try done.
    exists 0%nat. rewrite drop_0. split_and!; [lia|done|lia].
  - rewrite (answered_missing k t Ha Hn). specialize (IH (idx + 1)). destruct (next_normal ts (idx + 1)) as [idx' [t'|]]; [|done].
    destruct IH as (k' & buf & ks' & ts' & ? & ? & ? & ? & ? & n & -> & ? & ?). exists k', buf, ks', ts'.
    split_and!; try done. exists (Datatypes.S n). split_and!; [lia|done|lia].
Qed.

Lemma get_records_spec fuel : forall ks ts m n out,
  Forall2 answered ks ts -> drop n (mrr_batch m) = ts -> sk_pk_scan_batch_idx_ m = Z.of_nat n ->
  (length ts < fuel)%nat -> length out = length (default_values (ha_table env)) ->
  exists outs, get_records env decode_set rec_addr fuel m out = Some outs /\
    Forall2 (shown env decode_set mem') (found ks) outs.
Proof.
  induction fuel as [|fuel IH]; intros ks ts m n out Hts Hd Hi Hf Hl; [lia|]. cbn [get_records]. unfold batch_get_record.
  rewrite Hi. destruct (Z.leb_spec (Z.of_nat (length (mrr_batch m))) (Z.of_nat n)) as [Hle|Hlt].
  { rewrite drop_ge in Hd by lia. subst ts. apply Forall2_nil_inv_r in Hts as ->. exists []. split; [done|constructor]. }
  rewrite Nat2Z.id, Hd. pose proof (next_normal_spec ks ts Hts (Z.of_nat n)) as Hn.
  destruct (next_normal ts (Z.of_nat n)) as [idx [t|]].
  - destruct Hn as (k & buf & ks' & ts' & Ha & Hst & Hk & -> & Hts' & d & -> & Hd' & Hlt').
    destruct (answered_found k t Ha Hst) as (buf' & Hk' & Hrec). rewrite Hk in Hk'. injection Hk' as <-.
    destruct (Hdec k buf _ out Hk Hrec Hl) as (out' & E & Hl' & Hs). destruct Ha as [-> _]. rewrite E. cbn [Z.eqb].
    destruct (IH ks' ts' (set_mrr_idx (Z.of_nat n + Z.of_nat d + 1) m) (n + Datatypes.S d)%nat out') as (outs & -> & Ho);
      try done; simpl.
    + by rewrite <- Hd', <- Hd, drop_drop.
    + lia.
    + rewrite <- Hd', length_drop. lia.
    + exists (out' :: outs). split; [done|by constructor].
  - rewrite Hn. exists []. split; [done|constructor].
Qed.

End Batch.

(** ** Positions *)

Section Load.

Context {S : Type} `{!TxService S, !TxLaws S, !ScanService S, !ScanLaws S} (uninit : mono_field_packing).
Context (env : ha_env) (pkd0 : mono_key_def) (pk : KEY) (pk_cols : list indexed_part) (defs : target -> index_def).
Context (Hready : table_ready uninit env pkd0 pk pk_cols defs).
Context (Hnn : Forall (fun c => real_maybe_null (kp_field c.1) = false) pk_cols).
Context (mode : Z) (ref_length : nat).

Abbreviation good := (row_good env pk_cols defs).

(** [position] noted [pos] when the row was the current one. *)
Definition noted (pos : bytes) (r : bytes * bytes) : Prop :=
  good r.1 r.2 /\ (length r.1 <= ref_length)%nat /\
  exists st : ha_state S, (mrr_sort_rowid mode = true -> last_read_key_ st = r.1) /\
    position env st (mrr_sort_rowid mode) ref_length r.2 = Some pos.

Lemma noted_key pos r : noted pos r ->
  exists len, key_length (pk_descr_ env) (ha_table env) (take ref_length pos) = Some len /\ take len pos = r.1.
Proof.
  intros ((Hk & Hrow & _) & Hlen & st & Hlast & Hpos).
  assert (pos = r.1 ++ replicate (ref_length - length r.1) 0) as ->.
  { unfold position in Hpos. rewrite (ready_no_hidden _ _ _ _ _ _ Hready) in Hpos. cbn [negb andb] in Hpos.
    destruct (mrr_sort_rowid mode) eqn:Em; cbn [negb] in Hpos.
    - rewrite (Hlast eq_refl) in Hpos. by injection Hpos as <-.
    - destruct (pk_pack uninit env pkd0 pk pk_cols defs Hready r.2 None Hrow) as (ps & E & Ht). rewrite E in Hpos.
      simpl in Hpos. injection Hpos as <-. by rewrite Ht, <- Hk. }
  exists (length r.1). rewrite take_ge by (rewrite length_app, length_replicate; lia). split; [|apply take_app_length].
  rewrite Hk. by apply (pk_key_length uninit env pkd0 pk pk_cols defs Hready).
Qed.

Lemma load_keys_spec vct l : Forall2 noted vct l -> forall i m,
  (i + length vct <= length (batch_key_ m))%nat -> (i + length vct <= length (batch_rec_ m))%nat ->
  exists m' ts, load_keys env ref_length i vct m = Some m' /\ mrr_batch m' = mrr_batch m ++ ts /\
    map tu_key ts = map fst l /\ sk_pk_scan_batch_idx_ m' = sk_pk_scan_batch_idx_ m /\
    length (batch_key_ m') = length (batch_key_ m) /\ batch_rec_ m' = batch_rec_ m.
Proof.
  induction 1 as [|pos r vct l Hn _ IH]; intros i m Hk Hr; simpl.
  { exists m, []. by rewrite app_nil_r. }
  simpl in *. destruct (noted_key pos r Hn) as (len & -> & Ht).
  destruct (lookup_lt_is_Some_2 (batch_key_ m) i) as [k0 ->]; [lia|].
  destruct (lookup_lt_is_Some_2 (batch_rec_ m) i) as [r0 ->]; [lia|]. rewrite Ht.
  edestruct IH as (m' & ts & -> & Hb & Hts & Hi & Hlk & Hlr); [| |].
  3: { exists m', (new_tuple r.1 r0 :: ts). simpl in *. rewrite Hb, <- app_assoc, Hts, Hlk, length_insert. by split_and!. }
  - simpl. rewrite length_insert. lia.
  - simpl. lia.
Qed.

(** The vectors of keys and records are long enough for the tuples. *)
Definition mrr_ok (m : mrr_state) : Prop :=
  (length (mrr_batch m) <= length (batch_key_ m))%nat /\ (length (mrr_batch m) <= length (batch_rec_ m))%nat.

Lemma length_resize {A : Type} (x : A) n l : length (resize x n l) = n.
Proof. unfold resize. rewrite length_app, length_take, length_replicate. lia. Qed.

Lemma batch_load_spec st m vct l : mrr_ok m -> Forall2 noted vct l ->
  exists st' m' rc, batch_load_records env ref_length st m vct = Some (st', m', rc) /\
    same_data (txm st) (txm st') /\ mrr_ok m' /\
    (rc = 0 -> sk_pk_scan_batch_idx_ m' = 0 /\ Forall2 (answered env (txm st)) (map fst l) (mrr_batch m')).
Proof.
  intros [Hk Hr] Hn. unfold batch_load_records. set (m0 := {| mrr_batch := [] |}).
  destruct (load_keys_spec vct l Hn 0 m0) as (m1 & ts & -> & Hb & Hts & Hi & Hlk & Hlr).
  { subst m0. simpl. destruct (Nat.ltb_spec (length (mrr_batch m)) (length vct)); [by rewrite length_resize|lia]. }
  { subst m0. simpl. destruct (Nat.ltb_spec (length (mrr_batch m)) (length vct)); [by rewrite length_resize|lia]. }
  assert (length ts = length vct) as Hl.
  { rewrite <- (length_map tu_key), Hts, length_map. symmetry. by eapply Forall2_length. }
  assert ((length ts <= length (batch_key_ m1))%nat /\ (length ts <= length (batch_rec_ m1))%nat) as Hok.
  { rewrite Hlk, Hlr, Hl. subst m0. simpl.
    destruct (Nat.ltb_spec (length (mrr_batch m)) (length vct)); rewrite ?length_resize; lia. }
  simpl in Hb. destruct (tx_BatchRead _ _) as [s r] eqn:E. apply law_BatchRead in E as (Hs & _ & Hrd).
  destruct r as [e|recs].
  { do 3 eexists. split; [reflexivity|]. split; [exact Hs|]. unfold mrr_ok. rewrite Hb. split; [exact Hok|].
    by intros ?%convert_tx_error_0. }
  cbn [br_table br_keys] in Hrd. rewrite Hb in Hrd.
  assert (length ts = length recs) as Hlen by (apply Forall2_length in Hrd; by rewrite length_map in Hrd).
  do 3 eexists. split; [reflexivity|]. split; [exact Hs|]. split.
  - unfold mrr_ok. simpl. rewrite Hb, length_zip_with, length_app, length_map, length_drop. lia.
  - intros _. split; [by rewrite Hi|]. simpl. rewrite Hb, <- Hts. apply Forall2_fmap_l.
    clear -Hrd. apply Forall2_fmap_l in Hrd. induction Hrd as [|t r ts recs H _ IH]; simpl; [constructor|].
    constructor; [|done]. by split.
Qed.

End Load.

(** C21: reading a batch of rows by their positions.  [batch_load_records] of
    positions that [position] noted for rows returns, without an access past
    the end of its buffers, whatever the sizes of the batches before; when it
    reports success, [batch_get_record], called until it reports the end,
    returns the rows that are still in the table, in the order of the
    positions, each with its requested columns in the record buffer. *)
Theorem batch_read_correct {S : Type} `{!TxService S, !TxLaws S, !ScanService S, !ScanLaws S} (uninit : mono_field_packing)
    (env : ha_env) (pkd0 : mono_key_def) (pk : KEY) (pk_cols : list indexed_part) (defs : target -> index_def)
    (rows : gmap bytes bytes) (mode : Z) (ref_length : nat) decode_set mem' rec_addr (st : ha_state S) m vct l out :
  table_ready uninit env pkd0 pk pk_cols defs -> Forall (fun c => real_maybe_null (kp_field c.1) = false) pk_cols ->
  readable_table env defs mem' rec_addr rows (row_good env pk_cols defs) ->
  consistent env (row_good env pk_cols defs) rows (txm st) -> mrr_ok m ->
  Forall2 (noted (S := S) env pk_cols defs mode ref_length) vct l ->
  length out = length (default_values (ha_table env)) ->
  exists st' m' rc, batch_load_records env ref_length st m vct = Some (st', m', rc) /\
    same_data (txm st) (txm st') /\ mrr_ok m' /\
    (rc = 0 -> exists outs,
       get_records env decode_set rec_addr (Datatypes.S (length l)) m' out = Some outs /\
       Forall2 (shown env decode_set mem') (omap (fun k => rows !! k) (map fst l)) outs).
Proof.
  intros Hr Hnn Hrt Hco Hm Hn Hl.
  destruct (batch_load_spec uninit env pkd0 pk pk_cols defs Hr Hnn mode ref_length st m vct l Hm Hn)
    as (st' & m' & rc & E & Hs & Hm' & H0).
  exists st', m', rc. split_and!; try done. intros Hrc. destruct (H0 Hrc) as [Hi Ha].
  pose proof (readable_rows env defs mem' rec_addr rows _ (txm st) decode_set Hrt Hco) as Hdec.
  apply (get_records_spec env _ decode_set rec_addr mem' rows (txm st) Hco Hdec _ (map fst l) (mrr_batch m') m' 0%nat); try done.
  apply Forall2_length in Ha. rewrite length_map in Ha. lia.
Qed.

(** ** A batch of one position *)

Definition no_batch : mrr_state := {| mrr_batch := []; sk_pk_scan_batch_idx_ := UINT64_MAX; batch_key_ := []; batch_rec_ := [] |}.
Definition row_1_pos : bytes := t_key row_1 ++ replicate (8 - length (t_key row_1)) 0.

Lemma row_1_noted : noted (S := scan_store) t_env [int_part f_id] t_def 0 8 row_1_pos (t_key row_1, row_1).
Proof.
  split; [exact row_1_ok|]. split; [exact row_1_key_length|]. exists (with_scan t_start). split; [done|]. by vm_compute.
Qed.

Lemma batch_read_witness :
  exists st' m' rc, batch_load_records t_env 8 (with_scan t_one) no_batch [row_1_pos] = Some (st', m', rc) /\
    mrr_ok m' /\
    (rc = 0 -> exists outs,
       get_records t_env (fun _ => true) (fun _ => 1000) 2 m' (replicate 13 255) = Some outs /\
       Forall2 (shown t_env (fun _ => true) t_mem)
         (omap (fun k => ({[t_key row_1 := row_1]} : gmap bytes bytes) !! k) [t_key row_1]) outs).
Proof.
  destruct (batch_read_correct sample_uninit t_env t_pk_kd (unique_key f_id) [int_part f_id] t_def {[t_key row_1 := row_1]}
    0 8 (fun _ => true) t_mem (fun _ => 1000) (with_scan t_one) no_batch [row_1_pos] [(t_key row_1, row_1)] (replicate 13 255))
    as (st' & m' & rc & E & _ & Hm & H).
  - exact t_ready.
  - constructor; [done|constructor].
  - exact t_readable_table.
  - exact (with_scan_consistent _ _ _ _ t_one_consistent).
  - split; apply Nat.le_refl.
  - constructor; [exact row_1_noted|constructor].
  - reflexivity.
  - exists st', m', rc. split; [exact E|]. split; [exact Hm|exact H].
Defined.

(** Two positions, of a row in the table and of one that is not: the first
    row, then the end. *)
Example batch_read_run :
  match batch_load_records t_env 8 (with_scan t_one) no_batch [t_key (t_row 2 10 20) ++ replicate 4 0; row_1_pos] with
  | Some (_, m, rc) => (rc, get_records t_env (fun _ => true) (fun _ => 1000) 3 m (replicate 13 0))
  | None => (1, None)
  end = (0, Some [row_1]).
Proof. by vm_compute. Qed.

End Mrr.
