(* ===== verification/Session.v ===== *)
(** * Session: the transactions of a connection

    A connection keeps its transaction in a [MyEloqTx]: [external_lock] and
    [start_stmt] of the handler start it, [eloq_commit] and [eloq_rollback] end
    it (storage/eloq/ha_eloq.cc, ha_eloq.h).  The SQL layer calls these at the
    ends of statements and of transactions (sql/transaction.cc,
    sql/handler.cc).  The transaction service is [LifeService]; a transaction is
    a handle [T]. *)

From stdpp Require Import gmap strings.
From S2P Require Import Prelude Handler Cursor.
Import Handler Cursor.

Module Session.

Abbreviation HA_ERR_ELOQ_COMMIT_FAILED := (HA_ERR_LAST + 1) (only parsing).

(** ** Isolation levels and protocols *)

(** [ISO_OTHER]: any other value. *)
Inductive enum_tx_isolation :=
  | ISO_READ_UNCOMMITTED
  | ISO_READ_COMMITTED
  | ISO_REPEATABLE_READ
  | ISO_SERIALIZABLE
  | ISO_OTHER.

Inductive IsolationLevel := ReadCommitted | Snapshot | RepeatableRead | Serializable.

Inductive CcProtocol := OCC | OccRead | Locking.

Definition fetch_tx_cc_protocol (cc_protocol : Z) : CcProtocol :=
  if cc_protocol =? 0 then OCC
  else if cc_protocol =? 1 then OccRead
  else if cc_protocol =? 2 then Locking
  else OCC.

(** [None]: the level is refused. *)
Definition fetch_tx_isolation_level (enable_mvcc : bool) (mysql_iso_level : enum_tx_isolation) : option IsolationLevel :=
  match mysql_iso_level with
  | ISO_READ_UNCOMMITTED => None
  | ISO_READ_COMMITTED => Some ReadCommitted
  | ISO_REPEATABLE_READ => Some (if enable_mvcc then Snapshot else RepeatableRead)
  | ISO_SERIALIZABLE => Some Serializable
  | ISO_OTHER => None
  end.

(** The statements that [external_lock] refuses, and one for all others. *)
Inductive enum_sql_command :=
  | SQLCOM_LOCK_TABLES
  | SQLCOM_UNLOCK_TABLES
  | SQLCOM_RENAME_TABLE
  | SQLCOM_OPTIMIZE
  | SQLCOM_CHECK
  | SQLCOM_REPAIR
  | SQLCOM_CHECKSUM
  | SQLCOM_OTHER.

(** ** The transaction service

    [NewTxInit] fails with [None]; [CommitTx] returns whether it succeeded, and
    the error. *)
Class LifeService (S T : Type) := {
  NewTxInit : S -> IsolationLevel -> CcProtocol -> bool -> S * option T;
  CommitTx : S -> option T -> S * (bool * TxErrorCode);
  AbortTx : S -> option T -> S
}.

(** ** The transaction of a connection *)

(** [thd_]: whether the thread is set; of the schemas, their names. *)
Record MyEloqTx (T : Type) := {
  tables_in_use_ : Z;
  txm_ : option T;
  thd_ : bool;
  discovered_table_schemas_ : list table_name;
  dirty_index_names_ : list table_name;
  cached_schemas_ : list table_name;
  my_tx_err_code_ : TxErrorCode
}.
Arguments tables_in_use_ {T}.
Arguments txm_ {T}.
Arguments thd_ {T}.
Arguments discovered_table_schemas_ {T}.
Arguments dirty_index_names_ {T}.
Arguments cached_schemas_ {T}.
Arguments my_tx_err_code_ {T}.

(** The connection: the service, [ha_data] of the engine, the bits
    OPTION_NOT_AUTOCOMMIT and OPTION_BEGIN, the variables tx_isolation and
    cc_protocol, and whether the engine is registered for the statement and
    for the transaction. *)
Record THD (S T : Type) := {
  service : S;
  ha_data : option (MyEloqTx T);
  OPTION_NOT_AUTOCOMMIT : bool;
  OPTION_BEGIN : bool;
  tx_isolation : enum_tx_isolation;
  cc_protocol : Z;
  stmt_registered : bool;
  all_registered : bool
}.
Arguments service {S T}.
Arguments ha_data {S T}.
Arguments OPTION_NOT_AUTOCOMMIT {S T}.
Arguments OPTION_BEGIN {S T}.
Arguments tx_isolation {S T}.
Arguments cc_protocol {S T}.
Arguments stmt_registered {S T}.
Arguments all_registered {S T}.

Section Session.

Context {S T : Type} `{!LifeService S T} (enable_mvcc : bool).

Definition set_tx (s : S) (my_tx : option (MyEloqTx T)) (thd : THD S T) : THD S T := {|
  service := s; ha_data := my_tx; OPTION_NOT_AUTOCOMMIT := OPTION_NOT_AUTOCOMMIT thd; OPTION_BEGIN := OPTION_BEGIN thd;
  tx_isolation := tx_isolation thd; cc_protocol := cc_protocol thd;
  stmt_registered := stmt_registered thd; all_registered := all_registered thd |}.

Definition set_registered (stmt all : bool) (thd : THD S T) : THD S T := {|
  service := service thd; ha_data := ha_data thd; OPTION_NOT_AUTOCOMMIT := OPTION_NOT_AUTOCOMMIT thd;
  OPTION_BEGIN := OPTION_BEGIN thd; tx_isolation := tx_isolation thd; cc_protocol := cc_protocol thd;
  stmt_registered := stmt; all_registered := all |}.

Definition set_begin (b : bool) (thd : THD S T) : THD S T := {|
  service := service thd; ha_data := ha_data thd; OPTION_NOT_AUTOCOMMIT := OPTION_NOT_AUTOCOMMIT thd;
  OPTION_BEGIN := b; tx_isolation := tx_isolation thd; cc_protocol := cc_protocol thd;
  stmt_registered := stmt_registered thd; all_registered := all_registered thd |}.

(** A new [MyEloqTx]; [thd_] and the error code are set by [Reset]. *)
Definition new_MyEloqTx : MyEloqTx T := {|
  tables_in_use_ := 0; txm_ := None; thd_ := false; discovered_table_schemas_ := []; dirty_index_names_ := [];
  cached_schemas_ := []; my_tx_err_code_ := NO_ERROR |}.

Definition Reset (tx : option T) (thd : bool) (my_tx : MyEloqTx T) : MyEloqTx T := {|
  tables_in_use_ := 0; txm_ := tx; thd_ := thd; discovered_table_schemas_ := []; dirty_index_names_ := [];
  cached_schemas_ := cached_schemas_ my_tx; my_tx_err_code_ := NO_ERROR |}.

Definition ClearSchemaReaders (my_tx : MyEloqTx T) : MyEloqTx T := {|
  tables_in_use_ := tables_in_use_ my_tx; txm_ := txm_ my_tx; thd_ := thd_ my_tx;
  discovered_table_schemas_ := discovered_table_schemas_ my_tx; dirty_index_names_ := dirty_index_names_ my_tx;
  cached_schemas_ := []; my_tx_err_code_ := my_tx_err_code_ my_tx |}.

Definition IncreTable (my_tx : MyEloqTx T) : MyEloqTx T := {|
  tables_in_use_ := (tables_in_use_ my_tx + 1) mod 2 ^ 64; txm_ := txm_ my_tx; thd_ := thd_ my_tx;
  discovered_table_schemas_ := discovered_table_schemas_ my_tx; dirty_index_names_ := dirty_index_names_ my_tx;
  cached_schemas_ := cached_schemas_ my_tx; my_tx_err_code_ := my_tx_err_code_ my_tx |}.

Definition set_err (e : TxErrorCode) (my_tx : MyEloqTx T) : MyEloqTx T := {|
  tables_in_use_ := tables_in_use_ my_tx; txm_ := txm_ my_tx; thd_ := thd_ my_tx;
  discovered_table_schemas_ := discovered_table_schemas_ my_tx; dirty_index_names_ := dirty_index_names_ my_tx;
  cached_schemas_ := cached_schemas_ my_tx; my_tx_err_code_ := e |}.

Definition Commit (s : S) (my_tx : MyEloqTx T) : S * MyEloqTx T * bool :=
  let '(s, (success, err)) := CommitTx s (txm_ my_tx) in
  let my_tx := if success then my_tx else set_err err my_tx in
  (s, Reset None false (ClearSchemaReaders my_tx), success).

Definition Abort (s : S) (my_tx : MyEloqTx T) : S * MyEloqTx T :=
  (AbortTx s (txm_ my_tx), Reset None false (ClearSchemaReaders my_tx)).

(** *** Starting a transaction *)

Definition in_multi_stmt_transaction_mode (thd : THD S T) : bool := OPTION_NOT_AUTOCOMMIT thd || OPTION_BEGIN thd.

Definition trans_register_ha (all : bool) (thd : THD S T) : THD S T :=
  if all then set_registered (stmt_registered thd) true thd else set_registered true (all_registered thd) thd.

Definition eloq_register_tx (thd : THD S T) : THD S T :=
  let thd := trans_register_ha false thd in
  if in_multi_stmt_transaction_mode thd then trans_register_ha true thd else thd.

(** Whether there is a transaction now, and whether there was one before. *)
Definition get_or_create_myeloq_tx (start_now : bool) (thd : THD S T) : THD S T * bool * bool :=
  match ha_data thd with
  | Some {| txm_ := Some _ |} => (thd, true, true)
  | my_tx =>
      let cc_proto := fetch_tx_cc_protocol (cc_protocol thd) in
      match fetch_tx_isolation_level enable_mvcc (tx_isolation thd) with
      | None => (thd, false, false)
      | Some iso_level =>
          let my_tx := match my_tx with Some my_tx => my_tx | None => new_MyEloqTx end in
          let '(s, txm) := NewTxInit (service thd) iso_level cc_proto start_now in
          let thd := set_tx s (Some (Reset txm true my_tx)) thd in
          match txm with
          | None => (thd, false, false)
          | Some _ => (eloq_register_tx thd, true, false)
          end
      end
  end.

Definition refused_command (sqlcom : enum_sql_command) : bool :=
  match sqlcom with SQLCOM_OTHER => false | _ => true end.

Definition external_lock (sqlcom : enum_sql_command) (unlock : bool) (thd : THD S T) : THD S T * Z :=
  if refused_command sqlcom then (thd, HA_ERR_WRONG_COMMAND)
  else if unlock then (thd, 0)
  else
    let '(thd, ok, _) := get_or_create_myeloq_tx false thd in
    if ok then
      let thd := eloq_register_tx thd in
      (set_tx (service thd) (IncreTable <$> ha_data thd) thd, 0)
    else (thd, HA_ERR_ELOQ_START_TRANSACTION_FAILED).

Definition start_stmt (thd : THD S T) : THD S T * Z :=
  let '(thd, ok, _) := get_or_create_myeloq_tx false thd in
  if ok then (eloq_register_tx thd, 0) else (thd, HA_ERR_ELOQ_START_TRANSACTION_FAILED).

Definition eloq_start_tx_and_assign_read_view (thd : THD S T) : THD S T * Z :=
  let '(thd, ok, _) := get_or_create_myeloq_tx true thd in
  if ok then (eloq_register_tx thd, 0) else (thd, HA_ERR_ELOQ_START_TRANSACTION_FAILED).

(** *** Ending a transaction *)

Definition eloq_commit (commit_tx : bool) (thd : THD S T) : THD S T * Z :=
  match ha_data thd with
  | None => (thd, 0)
  | Some my_tx =>
      if commit_tx || negb (in_multi_stmt_transaction_mode thd) then
        let '(s, my_tx, success) := Commit (service thd) my_tx in
        (set_tx s (Some my_tx) thd, if success then 0 else HA_ERR_ELOQ_COMMIT_FAILED)
      else (thd, 0)
  end.

Definition eloq_rollback (rollback_tx : bool) (thd : THD S T) : THD S T * Z :=
  match ha_data thd with
  | Some my_tx =>
      match txm_ my_tx with
      | Some _ =>
          let '(s, my_tx) := Abort (service thd) my_tx in
          (set_tx s (Some my_tx) thd, 0)
      | None => (thd, 0)
      end
  | None => (thd, 0)
  end.

Definition eloq_close_connection (thd : THD S T) : THD S T :=
  match ha_data thd with
  | None => thd
  | Some my_tx => let '(s, _, _) := Commit (service thd) my_tx in set_tx s None thd
  end.

(** ** The calls of the SQL layer

    The part of an engine in [ha_commit_trans] and [ha_rollback_trans]: it is
    called when it is registered, and then no longer is. *)

Definition ha_commit_trans (all : bool) (thd : THD S T) : THD S T * Z :=
  if (if all then all_registered thd else stmt_registered thd) then
    let '(thd, err) := eloq_commit all thd in
    (if all then set_registered (stmt_registered thd) false thd else set_registered false (all_registered thd) thd, err)
  else (thd, 0).

Definition ha_rollback_trans (all : bool) (thd : THD S T) : THD S T * Z :=
  if (if all then all_registered thd else stmt_registered thd) then
    let '(thd, err) := eloq_rollback all thd in
    (if all then set_registered (stmt_registered thd) false thd else set_registered false (all_registered thd) thd, err)
  else (thd, 0).

(** BEGIN: the transaction before it, if there is one, is committed. *)
Definition trans_begin (thd : THD S T) : THD S T * Z :=
  let '(thd, res) := if in_multi_stmt_transaction_mode thd then ha_commit_trans true thd else (thd, 0) in
  let thd := set_begin false thd in
  if res =? 0 then (set_begin true thd, 0) else (thd, res).

Definition trans_commit (thd : THD S T) : THD S T * Z :=
  let '(thd, res) := ha_commit_trans true thd in (set_begin false thd, res).

Definition trans_rollback (thd : THD S T) : THD S T * Z :=
  let '(thd, res) := ha_rollback_trans true thd in (set_begin false thd, res).

Definition trans_commit_stmt (thd : THD S T) : THD S T * Z := ha_commit_trans false thd.

Definition trans_rollback_stmt (thd : THD S T) : THD S T := fst (ha_rollback_trans false thd).

End Session.

End Session.
