(* ===== verification/Transactions.v ===== *)
(** * Transactions: what a connection makes durable

    The theorems on [Session] (storage/eloq/ha_eloq.cc): a session refines a
    small machine that says which writes a connection makes durable, and it
    leaves no transaction behind.  A statement that fails inside a transaction
    takes the writes of the statements before it along, without ending the
    transaction for the client. *)

From stdpp Require Import gmap strings.
From S2P Require Import Prelude Handler Cursor Session.
Import Handler Cursor Session.

Module Transactions.

(** ** The transaction service

    [writes]: the writes of an active transaction; [durable]: those that are
    committed.  A transaction is new when it starts.  A commit that succeeds
    makes all of its writes durable.  A commit that fails makes none of them
    durable, or all: when the log service does not answer, the outcome is
    unknown to the connection and is settled later, and [durable] counts it as
    it will be (mysql-test/mono_basic/t/write_log_unknown.test).  In any case
    the transaction is then over for the connection. *)
Class LifeLaws (S T W : Type) `{!EqDecision T, !LifeService S T} := {
  writes : S -> T -> option (list W);
  durable : S -> list W;
  law_NewTxInit s iso cc now s' r : NewTxInit s iso cc now = (s', r) ->
    durable s' = durable s /\
    match r with
    | Some t => writes s t = None /\ forall t', writes s' t' = if decide (t' = t) then Some [] else writes s t'
    | None => forall t', writes s' t' = writes s t'
    end;
  law_CommitTx s t ws s' ok err : CommitTx s (Some t) = (s', (ok, err)) -> writes s t = Some ws ->
    (durable s' = durable s ++ ws \/ ok = false /\ durable s' = durable s) /\
    forall t', writes s' t' = if decide (t' = t) then None else writes s t';
  law_CommitTx_null s s' r : CommitTx s None = (s', r) ->
    durable s' = durable s /\ forall t', writes s' t' = writes s t';
  law_AbortTx s t : durable (AbortTx s (Some t)) = durable s /\
    forall t', writes (AbortTx s (Some t)) t' = if decide (t' = t) then None else writes s t'
}.

Section Transactions.

Context {S T W : Type} `{!EqDecision T, !LifeService S T, !LifeLaws S T W} (enable_mvcc : bool).

(** ** The events of a session *)

(** What the rows that a statement writes do to the service. *)
Definition wrote (t : T) (ws : list W) (s s' : S) : Prop :=
  durable s' = durable s /\
  forall t', writes s' t' = if decide (t' = t) then (fun l => l ++ ws) <$> writes s t else writes s t'.

Inductive event :=
  | EBegin
  | EBeginFailed
  | ECommit
  | ECommitFailed
  | ERollback
  | EStatement (ws : list W)
  | EFailed
  | EEndFailed (ws : list W).

Definition current (thd : THD S T) : option T := ha_data thd ≫= txm_.

(** A statement takes its locks, writes and ends; it fails when its locks are
    refused or when it reports an error after some writes, [EFailed], or when
    the commit at its end fails, [EEndFailed]. *)
Inductive step : THD S T -> event -> THD S T -> Prop :=
  | step_begin thd thd' : trans_begin thd = (thd', 0) -> step thd EBegin thd'
  | step_begin_failed thd thd' rc : trans_begin thd = (thd', rc) -> rc <> 0 -> step thd EBeginFailed thd'
  | step_commit thd thd' : trans_commit thd = (thd', 0) -> step thd ECommit thd'
  | step_commit_failed thd thd' rc : trans_commit thd = (thd', rc) -> rc <> 0 -> step thd ECommitFailed thd'
  | step_rollback thd thd' : trans_rollback thd = (thd', 0) -> step thd ERollback thd'
  | step_statement thd thd1 t ws s thd' :
      external_lock enable_mvcc SQLCOM_OTHER false thd = (thd1, 0) -> current thd1 = Some t ->
      wrote t ws (service thd1) s -> trans_commit_stmt (set_tx s (ha_data thd1) thd1) = (thd', 0) ->
      step thd (EStatement ws) thd'
  | step_locks_refused thd thd1 rc :
      external_lock enable_mvcc SQLCOM_OTHER false thd = (thd1, rc) -> rc <> 0 ->
      step thd EFailed (trans_rollback_stmt thd1)
  | step_error thd thd1 t ws s :
      external_lock enable_mvcc SQLCOM_OTHER false thd = (thd1, 0) -> current thd1 = Some t ->
      wrote t ws (service thd1) s -> step thd EFailed (trans_rollback_stmt (set_tx s (ha_data thd1) thd1))
  | step_end_failed thd thd1 t ws s thd' rc :
      external_lock enable_mvcc SQLCOM_OTHER false thd = (thd1, 0) -> current thd1 = Some t ->
      wrote t ws (service thd1) s -> trans_commit_stmt (set_tx s (ha_data thd1) thd1) = (thd', rc) -> rc <> 0 ->
      step thd (EEndFailed ws) thd'.

Inductive steps : THD S T -> list event -> THD S T -> Prop :=
  | steps_nil thd : steps thd [] thd
  | steps_cons thd e thd1 es thd' : step thd e thd1 -> steps thd1 es thd' -> steps thd (e :: es) thd'.

(** ** What becomes durable *)

(** Whether BEGIN is in force, the writes that wait for a commit, and those
    that are durable. *)
Record spec_state := { sp_begin : bool; sp_pending : list W; sp_durable : list W }.

(** A transaction that is over, with [d] durable. *)
Definition over (b : bool) (d : list W) : spec_state :=
  {| sp_begin := b; sp_pending := []; sp_durable := d |}.

(** [autocommit_off]: every statement is part of a transaction.  After a commit
    that fails, all of its writes are durable or none. *)
Inductive spec_step (autocommit_off : bool) (a : spec_state) : event -> spec_state -> Prop :=
  | spec_begin : spec_step autocommit_off a EBegin (over true (sp_durable a ++ sp_pending a))
  | spec_begin_failed (kept : bool) :
      spec_step autocommit_off a EBeginFailed
        (over false (if kept then sp_durable a ++ sp_pending a else sp_durable a))
  | spec_commit : spec_step autocommit_off a ECommit (over false (sp_durable a ++ sp_pending a))
  | spec_commit_failed (kept : bool) :
      spec_step autocommit_off a ECommitFailed
        (over false (if kept then sp_durable a ++ sp_pending a else sp_durable a))
  | spec_rollback : spec_step autocommit_off a ERollback (over false (sp_durable a))
  | spec_statement ws : autocommit_off || sp_begin a = true ->
      spec_step autocommit_off a (EStatement ws)
        {| sp_begin := sp_begin a; sp_pending := sp_pending a ++ ws; sp_durable := sp_durable a |}
  | spec_autocommit ws : autocommit_off || sp_begin a = false ->
      spec_step autocommit_off a (EStatement ws) (over (sp_begin a) (sp_durable a ++ sp_pending a ++ ws))
  | spec_failed : spec_step autocommit_off a EFailed (over (sp_begin a) (sp_durable a))
  | spec_end_failed ws (kept : bool) : autocommit_off || sp_begin a = false ->
      spec_step autocommit_off a (EEndFailed ws)
        (over (sp_begin a) (if kept then sp_durable a ++ sp_pending a ++ ws else sp_durable a)).

Inductive spec_steps (autocommit_off : bool) : spec_state -> list event -> spec_state -> Prop :=
  | spec_nil a : spec_steps autocommit_off a [] a
  | spec_cons a e a1 es a' : spec_step autocommit_off a e a1 -> spec_steps autocommit_off a1 es a' ->
      spec_steps autocommit_off a (e :: es) a'.

(** The session between two events; [w0]: the transactions of other
    connections. *)
Record between (off : bool) (w0 : T -> option (list W)) (thd : THD S T) (a : spec_state) : Prop := {
  be_off : OPTION_NOT_AUTOCOMMIT thd = off;
  be_begin : OPTION_BEGIN thd = sp_begin a;
  be_stmt : stmt_registered thd = false;
  be_durable : durable (service thd) = sp_durable a;
  be_others t : current thd <> Some t -> writes (service thd) t = w0 t;
  be_current : match current thd with
    | Some t => in_multi_stmt_transaction_mode thd = true /\ all_registered thd = true /\
                writes (service thd) t = Some (sp_pending a) /\ w0 t = None
    | None => sp_pending a = []
    end
}.

(** Inside a statement: a transaction is there, and is registered. *)
Record inside (off : bool) (w0 : T -> option (list W)) (thd : THD S T) (t : T) (a : spec_state) : Prop := {
  in_off : OPTION_NOT_AUTOCOMMIT thd = off;
  in_begin : OPTION_BEGIN thd = sp_begin a;
  in_stmt : stmt_registered thd = true;
  in_all : in_multi_stmt_transaction_mode thd = true -> all_registered thd = true;
  in_durable : durable (service thd) = sp_durable a;
  in_others t' : t' <> t -> writes (service thd) t' = w0 t';
  in_current : current thd = Some t;
  in_writes : writes (service thd) t = Some (sp_pending a);
  in_new : w0 t = None
}.

(** ** Simulation *)

(** Nothing is pending without a transaction. *)
Lemma between_none off w0 thd a : between off w0 thd a -> current thd = None -> sp_pending a = [].
Proof. intros H E. pose proof (be_current _ _ _ _ H) as Hc. by rewrite E in Hc. Qed.

Lemma register_inside off w0 thd t a : OPTION_NOT_AUTOCOMMIT thd = off -> OPTION_BEGIN thd = sp_begin a ->
  durable (service thd) = sp_durable a -> (forall t', t' <> t -> writes (service thd) t' = w0 t') ->
  current thd = Some t -> writes (service thd) t = Some (sp_pending a) -> w0 t = None ->
  inside off w0 (eloq_register_tx thd) t a.
Proof.
  intros. unfold eloq_register_tx. destruct (in_multi_stmt_transaction_mode (trans_register_ha false thd)) eqn:E;
    (split; try done).
  unfold in_multi_stmt_transaction_mode in *. simpl in *. congruence.
Qed.

(** The locks of a statement: there is a transaction, the one before or a new
    one; or the statement is refused, without a transaction. *)
Lemma get_or_create_spec off w0 thd a now thd' ok exists_ : between off w0 thd a ->
  get_or_create_myeloq_tx enable_mvcc now thd = (thd', ok, exists_) ->
  if ok then exists t, inside off w0 (eloq_register_tx thd') t a else between off w0 thd' a /\ sp_pending a = [].
Proof.
  intros Hb. pose proof Hb as [Ho Hg Hs Hd Hw Hc]. unfold get_or_create_myeloq_tx.
  assert (current thd = None -> match fetch_tx_isolation_level enable_mvcc (tx_isolation thd) with
    | None => (thd, false, false)
    | Some iso_level =>
        let my_tx := match ha_data thd with Some my_tx => my_tx | None => new_MyEloqTx end in
        let '(s, txm) := NewTxInit (service thd) iso_level (fetch_tx_cc_protocol (cc_protocol thd)) now in
        let thd := set_tx s (Some (Reset txm true my_tx)) thd in
        match txm with None => (thd, false, false) | Some _ => (eloq_register_tx thd, true, false) end
    end = (thd', ok, exists_) ->
    if ok then exists t, inside off w0 (eloq_register_tx thd') t a else between off w0 thd' a /\ sp_pending a = []) as Hnew.
  { intros Hnone. pose proof (between_none _ _ _ _ Hb Hnone) as Hp.
    destruct (fetch_tx_isolation_level _ _) as [iso|]; [|by intros [= <- <- <-]]. cbv zeta.
    destruct (NewTxInit _ _ _ _) as [s [t|]] eqn:En; apply law_NewTxInit in En as [Hd' Hn]; intros [= <- <- <-].
    - exists t. destruct Hn as [Hf Hn].
      assert (w0 t = None) as H0 by (rewrite <- Hw; [done|by rewrite Hnone]).
      assert (inside off w0 (eloq_register_tx (set_tx s (Some (Reset (Some t) true
        match ha_data thd with Some my_tx => my_tx | None => new_MyEloqTx end)) thd)) t a) as Hi.
      { apply register_inside; simpl; try done; [congruence| |by rewrite Hn, Hp, decide_True].
        intros t' Ht. rewrite Hn, decide_False by done. apply Hw. by rewrite Hnone. }
      destruct Hi. by apply register_inside.
    - split; [|done]. split; simpl; try done; [congruence|]. intros t _. rewrite Hn. apply Hw. by rewrite Hnone. }
  unfold current in *. destruct (ha_data thd) as [my_tx|] eqn:Eh; [|by apply Hnew].
  destruct my_tx as [n [t|] b d dn c e]; [|by apply Hnew]. simpl in Hc. destruct Hc as (Hm & Ha & Hwr & Hn).
  intros [= <- <- <-]. exists t. apply register_inside; try done.
  - intros t' Ht. apply Hw. simpl. congruence.
  - unfold current. by rewrite Eh.
Qed.

Lemma external_lock_spec off w0 thd a thd' rc : between off w0 thd a ->
  external_lock enable_mvcc SQLCOM_OTHER false thd = (thd', rc) ->
  if decide (rc = 0) then exists t, inside off w0 thd' t a else between off w0 thd' a /\ sp_pending a = [].
Proof.
  intros Hb. unfold external_lock. simpl. destruct (get_or_create_myeloq_tx _ _ _) as [[thd1 ok] ex] eqn:E.
  apply (get_or_create_spec off w0 thd a) in E; [|done]. destruct ok; intros [= <- <-].
  - rewrite decide_True by done. destruct E as [t [? ? ? ? ? ? Hc ? ?]]. exists t. split; simpl; try done.
    unfold current in *. simpl. by destruct (ha_data (eloq_register_tx thd1)).
  - by rewrite decide_False.
Qed.

Lemma inside_wrote off w0 thd t a ws s : inside off w0 thd t a -> wrote t ws (service thd) s ->
  inside off w0 (set_tx s (ha_data thd) thd) t
    {| sp_begin := sp_begin a; sp_pending := sp_pending a ++ ws; sp_durable := sp_durable a |}.
Proof.
  intros [] [Hd Hw]. split; simpl; try done; [congruence| |].
  - intros t' Ht. rewrite Hw, decide_False by done. auto.
  - rewrite Hw, decide_True by done. by rewrite in_writes0.
Qed.

Lemma over_between off w0 thd b d : OPTION_NOT_AUTOCOMMIT thd = off -> OPTION_BEGIN thd = b ->
  stmt_registered thd = false -> durable (service thd) = d -> (forall t, writes (service thd) t = w0 t) ->
  current thd = None -> between off w0 thd (over b d).
Proof. intros ? ? ? ? ? Hc. split; try done. by rewrite Hc. Qed.

Lemma Commit_spec w0 (s : S) (my_tx : MyEloqTx T) t ws s' my_tx' ok :
  txm_ my_tx = Some t -> writes s t = Some ws -> w0 t = None -> (forall t', t' <> t -> writes s t' = w0 t') ->
  Commit s my_tx = (s', my_tx', ok) ->
  txm_ my_tx' = None /\ (exists kept : bool, (ok = true -> kept = true) /\
    durable s' = if kept then durable s ++ ws else durable s) /\ forall t', writes s' t' = w0 t'.
Proof.
  intros Ht Hw Hn Ho. unfold Commit. rewrite Ht. destruct (CommitTx s (Some t)) as [s1 [ok1 err]] eqn:E.
  intros [= <- <- <-]. destruct (law_CommitTx _ _ _ _ _ _ E Hw) as [Hd Hw']. split_and!; [done| |].
  { destruct Hd as [Hd|[-> Hd]]; [by exists true|by exists false]. }
  intros t'. rewrite Hw'. case_decide; [by subst|by apply Ho].
Qed.

Lemma current_Some thd t : current thd = Some t -> exists my_tx, ha_data thd = Some my_tx /\ txm_ my_tx = Some t.
Proof. unfold current. destruct (ha_data thd) as [my_tx|]; [|done]. intros H. by exists my_tx. Qed.

(** The end of a statement that succeeds. *)
Lemma commit_stmt_spec off w0 thd t a thd' rc : inside off w0 thd t a -> trans_commit_stmt thd = (thd', rc) ->
  if in_multi_stmt_transaction_mode thd then rc = 0 /\ between off w0 thd' a
  else exists kept : bool, (rc = 0 -> kept = true) /\
    between off w0 thd' (over (sp_begin a) (if kept then sp_durable a ++ sp_pending a else sp_durable a)).
Proof.
  intros [Ho Hg Hs Ha Hd Hw Hc Hwr Hn]. destruct (current_Some _ _ Hc) as (my_tx & Hm & Ht).
  unfold trans_commit_stmt, ha_commit_trans, eloq_commit. rewrite Hs, Hm. cbn [orb].
  destruct (in_multi_stmt_transaction_mode thd) eqn:Emode; cbn [negb].
  - intros [= <- <-]. split; [done|]. split; simpl; try done.
    + intros t' Ht'. apply Hw. unfold current in *. simpl in Ht'. congruence.
    + unfold current in *. simpl. rewrite Hm. simpl. rewrite Ht. split_and!; auto.
  - destruct (Commit (service thd) my_tx) as [[s my_tx'] ok] eqn:E.
    destruct (Commit_spec w0 _ _ _ _ _ _ _ Ht Hwr Hn Hw E) as (Ht' & (kept & Hk & Hd') & Hw'). intros [= <- <-].
    exists kept. split; [by destruct ok; auto|]. apply over_between; try done. simpl. by rewrite Hd', Hd.
Qed.

(** The end of a statement that fails. *)
Lemma rollback_stmt_spec off w0 thd t a : inside off w0 thd t a ->
  between off w0 (trans_rollback_stmt thd) (over (sp_begin a) (sp_durable a)).
Proof.
  intros [Ho Hg Hs Ha Hd Hw Hc Hwr Hn]. destruct (current_Some _ _ Hc) as (my_tx & Hm & Ht).
  unfold trans_rollback_stmt, ha_rollback_trans, eloq_rollback, Abort. rewrite Hs, Hm, Ht. simpl.
  destruct (law_AbortTx (service thd) t) as [Hd' Hw'].
  apply over_between; simpl; try done; [congruence|]. intros t'. rewrite Hw'. case_decide; [by subst|by apply Hw].
Qed.

(** The end of a transaction. *)
Lemma commit_all_spec off w0 thd a thd' rc b : between off w0 thd a -> ha_commit_trans true thd = (thd', rc) ->
  exists kept : bool, (rc = 0 -> kept = true) /\
    between off w0 (set_begin b thd') (over b (if kept then sp_durable a ++ sp_pending a else sp_durable a)).
Proof.
  intros Hb. pose proof Hb as [Ho Hg Hs Hd Hw Hc]. unfold ha_commit_trans, eloq_commit.
  destruct (current thd) as [t|] eqn:Ec.
  - destruct Hc as (Hmode & Hall & Hwr & Hn). rewrite Hall. destruct (current_Some _ _ Ec) as (my_tx & Hm & Ht).
    rewrite Hm. cbn [orb]. destruct (Commit (service thd) my_tx) as [[s my_tx'] ok] eqn:E.
    destruct (Commit_spec w0 _ _ _ _ _ _ _ Ht Hwr Hn ltac:(intros t' ?; apply Hw; congruence) E)
      as (Ht' & (kept & Hk & Hd') & Hw').
    intros [= <- <-]. exists kept. split; [by destruct ok; auto|].
    apply over_between; try done. simpl. by rewrite Hd', Hd.
  - intros E. exists true. split; [done|]. rewrite (between_none _ _ _ _ Hb Ec), app_nil_r.
    assert (forall t, writes (service thd) t = w0 t) as Hw1 by (intros t; by apply Hw).
    destruct (all_registered thd); [|by injection E as <- <-; apply over_between].
    destruct (ha_data thd) as [my_tx|] eqn:Em; [|by injection E as <- <-; apply over_between].
    unfold Commit in E. assert (txm_ my_tx = None) as Hn by (unfold current in Ec; by rewrite Em in Ec).
    rewrite Hn in E. cbn [orb] in E. destruct (CommitTx (service thd) None) as [s [ok err]] eqn:Er.
    apply law_CommitTx_null in Er as [Hd' Hw']. injection E as <- <-. apply over_between; simpl; try done.
    + congruence.
    + intros t. by rewrite Hw'.
Qed.

Lemma rollback_all_spec off w0 thd a thd' rc b : between off w0 thd a -> ha_rollback_trans true thd = (thd', rc) ->
  between off w0 (set_begin b thd') (over b (sp_durable a)).
Proof.
  intros Hb. pose proof Hb as [Ho Hg Hs Hd Hw Hc]. unfold ha_rollback_trans, eloq_rollback, Abort.
  destruct (current thd) as [t|] eqn:Ec.
  - destruct Hc as (Hmode & Hall & Hwr & Hn). rewrite Hall. destruct (current_Some _ _ Ec) as (my_tx & Hm & Ht).
    rewrite Hm, Ht. intros [= <- <-]. destruct (law_AbortTx (service thd) t) as [Hd' Hw'].
    apply over_between; simpl; try done; [congruence|]. intros t'. rewrite Hw'. case_decide; [by subst|]. apply Hw. congruence.
  - assert (forall c, between off w0 (set_begin b (set_registered (stmt_registered thd) c thd)) (over b (sp_durable a))) as H.
    { intros c. apply over_between; try done. intros t. by apply Hw. }
    destruct (all_registered thd) eqn:Ea; [|intros [= <- <-]; specialize (H (all_registered thd)); by destruct thd].
    destruct (ha_data thd) as [my_tx|] eqn:Em; [|by intros [= <- <-]; apply H].
    assert (txm_ my_tx = None) as -> by (unfold current in Ec; by rewrite Em in Ec). intros [= <- <-]. apply H.
Qed.

Lemma inside_mode off w0 thd t a : inside off w0 thd t a -> in_multi_stmt_transaction_mode thd = off || sp_begin a.
Proof. intros []. unfold in_multi_stmt_transaction_mode. congruence. Qed.

(** What a statement wrote, at its end. *)
Lemma statement_inside off w0 thd thd1 t ws s a : between off w0 thd a ->
  external_lock enable_mvcc SQLCOM_OTHER false thd = (thd1, 0) -> current thd1 = Some t -> wrote t ws (service thd1) s ->
  inside off w0 (set_tx s (ha_data thd1) thd1) t
    {| sp_begin := sp_begin a; sp_pending := sp_pending a ++ ws; sp_durable := sp_durable a |}.
Proof.
  intros Hb E Hc Hw. apply (external_lock_spec off w0 thd a) in E; [|done]. rewrite decide_True in E by done.
  destruct E as [t' Hi]. rewrite (in_current _ _ _ _ _ Hi) in Hc. injection Hc as ->. by apply inside_wrote.
Qed.

(** BEGIN, whether or not a transaction is there. *)
Lemma begin_spec off w0 thd a thd' rc : between off w0 thd a -> trans_begin thd = (thd', rc) ->
  exists kept : bool, (rc = 0 -> kept = true) /\
    between off w0 thd' (over (bool_decide (rc = 0)) (if kept then sp_durable a ++ sp_pending a else sp_durable a)).
Proof.
  intros Hb. unfold trans_begin. destruct (in_multi_stmt_transaction_mode thd) eqn:Em.
  - destruct (ha_commit_trans true thd) as [thd1 res] eqn:Ec. destruct (Z.eqb_spec res 0) as [->|Hr]; intros [= <- <-].
    + exact (commit_all_spec off w0 thd a thd1 0 true Hb Ec).
    + rewrite bool_decide_eq_false_2 by done. by apply (commit_all_spec off w0 thd a thd1 res false).
  - intros [= <- <-]. exists true. split; [done|]. destruct (current thd) as [t|] eqn:Ecur.
    { pose proof (be_current _ _ _ _ Hb) as Hc. rewrite Ecur in Hc. destruct Hc as [Hc _]. congruence. }
    pose proof (between_none _ _ _ _ Hb Ecur) as Hp. destruct Hb as [? ? ? ? Hw ?].
    apply over_between; try done; [by rewrite Hp, app_nil_r|]. intros t. apply Hw. by rewrite Ecur.
Qed.

Lemma trans_commit_spec off w0 thd a thd' rc : between off w0 thd a -> trans_commit thd = (thd', rc) ->
  exists kept : bool, (rc = 0 -> kept = true) /\
    between off w0 thd' (over false (if kept then sp_durable a ++ sp_pending a else sp_durable a)).
Proof.
  intros Hb. unfold trans_commit. destruct (ha_commit_trans true thd) as [thd1 res] eqn:Ec.
  intros [= <- <-]. exact (commit_all_spec off w0 thd a thd1 res false Hb Ec).
Qed.

Lemma step_refines off w0 thd e thd' a : step thd e thd' -> between off w0 thd a ->
  exists a', spec_step off a e a' /\ between off w0 thd' a'.
Proof.
  intros Hs Hb. inversion Hs as [? ? E|? ? rc E Hrc|? ? E|? ? rc E Hrc|? ? E|? thd1 t ws s ? E1 Hc Hw E|? thd1 rc E Hrc|
    ? thd1 t ws s E1 Hc Hw|? thd1 t ws s ? rc E1 Hc Hw E Hrc]; subst.
  - destruct (begin_spec _ _ _ _ _ _ Hb E) as (kept & Hk & H). rewrite (Hk eq_refl) in H. eauto using spec_begin.
  - destruct (begin_spec _ _ _ _ _ _ Hb E) as (kept & _ & H). rewrite bool_decide_eq_false_2 in H by done.
    eauto using spec_begin_failed.
  - destruct (trans_commit_spec _ _ _ _ _ _ Hb E) as (kept & Hk & H). rewrite (Hk eq_refl) in H. eauto using spec_commit.
  - destruct (trans_commit_spec _ _ _ _ _ _ Hb E) as (kept & _ & H). eauto using spec_commit_failed.
  - unfold trans_rollback in E. destruct (ha_rollback_trans true thd) as [thd1 res] eqn:Ec. injection E as <- ->.
    exists (over false (sp_durable a)). split; [by constructor|]. exact (rollback_all_spec off w0 thd a thd1 0 false Hb Ec).
  - pose proof (statement_inside off w0 thd thd1 t ws s a Hb E1 Hc Hw) as Hi.
    pose proof (commit_stmt_spec _ _ _ _ _ _ _ Hi E) as H. rewrite (inside_mode _ _ _ _ _ Hi) in H. cbn [sp_begin sp_pending sp_durable] in H.
    destruct (off || sp_begin a) eqn:Em; [destruct H; eauto using spec_statement|].
    destruct H as (kept & Hk & H). rewrite (Hk eq_refl) in H. eauto using spec_autocommit.
  - apply (external_lock_spec off w0 thd a) in E; [|done]. rewrite decide_False in E by done. destruct E as [Hb' Hp].
    exists (over (sp_begin a) (sp_durable a)). split; [by constructor|].
    unfold trans_rollback_stmt, ha_rollback_trans. rewrite (be_stmt _ _ _ _ Hb').
    destruct a; cbn [sp_pending] in Hp; subst; exact Hb'.
  - exists (over (sp_begin a) (sp_durable a)). split; [by constructor|].
    apply (rollback_stmt_spec off w0 _ t _ (statement_inside off w0 thd thd1 t ws s a Hb E1 Hc Hw)).
  - pose proof (statement_inside off w0 thd thd1 t ws s a Hb E1 Hc Hw) as Hi.
    pose proof (commit_stmt_spec _ _ _ _ _ _ _ Hi E) as H. rewrite (inside_mode _ _ _ _ _ Hi) in H. cbn [sp_begin sp_pending sp_durable] in H.
    destruct (off || sp_begin a) eqn:Em; [by destruct H|]. destruct H as (kept & _ & H). eauto using spec_end_failed.
Qed.

Lemma steps_refine off w0 thd es thd' : steps thd es thd' -> forall a, between off w0 thd a ->
  exists a', spec_steps off a es a' /\ between off w0 thd' a'.
Proof.
  induction 1 as [|thd e thd1 es thd' Hs _ IH]; intros a Hb; [eauto using spec_nil|].
  destruct (step_refines _ _ _ _ _ _ Hs Hb) as (a1 & Ha & Hb1). destruct (IH a1 Hb1) as (a' & Ha' & Hb').
  eauto using spec_cons.
Qed.

(** A session without a transaction. *)
Definition at_rest (thd : THD S T) : Prop := current thd = None /\ stmt_registered thd = false.

Definition spec_start (thd : THD S T) : spec_state :=
  {| sp_begin := OPTION_BEGIN thd; sp_pending := []; sp_durable := durable (service thd) |}.

Lemma at_rest_between thd : at_rest thd ->
  between (OPTION_NOT_AUTOCOMMIT thd) (writes (service thd)) thd (spec_start thd).
Proof. intros [Hc Hs]. split; try done. by rewrite Hc. Qed.

Lemma spec_steps_app off a es es' a' : spec_steps off a (es ++ es') a' ->
  exists a1, spec_steps off a es a1 /\ spec_steps off a1 es' a'.
Proof.
  revert a. induction es as [|e es IH]; intros a H; [eauto using spec_nil|].
  inversion H as [|? ? a1 ? ? He Hes]; subst. destruct (IH _ Hes) as (a2 & ? & ?). eauto using spec_cons.
Qed.

Lemma spec_statements off a l a' : off || sp_begin a = true -> spec_steps off a (map EStatement l) a' ->
  a' = {| sp_begin := sp_begin a; sp_pending := sp_pending a ++ concat l; sp_durable := sp_durable a |}.
Proof.
  revert a. induction l as [|ws l IH]; intros a Ha H; inversion H as [|? ? a1 ? ? He Hes]; subst.
  - destruct a'; simpl. by rewrite app_nil_r.
  - inversion He; subst; [|congruence]. apply IH in Hes; [|exact Ha]. rewrite Hes. simpl. by rewrite app_assoc.
Qed.

(** C13: what a connection makes durable.  From a connection without a
    transaction, every sequence of BEGIN, COMMIT and ROLLBACK, of statements and
    of failures is one of the machine [spec_step], and makes the writes durable
    that the machine says: those of a statement at its end, or at the next
    COMMIT or BEGIN inside a transaction.  The machine is free only after a
    commit that fails, whose writes are all durable or none is.  No transaction
    is left behind: but for the current one, which is there only inside a
    transaction of the client, all transactions are as they were. *)
Theorem session_refines thd es thd' : at_rest thd -> steps thd es thd' ->
  exists a, spec_steps (OPTION_NOT_AUTOCOMMIT thd) (spec_start thd) es a /\
  durable (service thd') = sp_durable a /\
  (forall t, current thd' <> Some t -> writes (service thd') t = writes (service thd) t) /\
  (forall t, current thd' = Some t ->
     in_multi_stmt_transaction_mode thd' = true /\ writes (service thd') t = Some (sp_pending a)).
Proof.
  intros Hr Hs. destruct (steps_refine _ _ _ _ _ Hs _ (at_rest_between thd Hr)) as (a & Ha & [_ _ _ Hd Hw Hc]).
  exists a. split_and!; [exact Ha|exact Hd|exact Hw|]. intros t Ht. rewrite Ht in Hc. by destruct Hc as (? & _ & ? & _).
Qed.

(** C35: a failure inside a transaction.  When a statement fails between BEGIN
    and COMMIT, [eloq_rollback] ends the whole transaction of the engine; the
    next statement silently starts another.  The COMMIT that reports success
    makes the writes after the failure durable, and those before it are lost,
    although their statements reported success and the client was still in its
    transaction. *)
Theorem failure_drops_transaction thd before after thd' :
  at_rest thd -> OPTION_BEGIN thd = false -> OPTION_NOT_AUTOCOMMIT thd = false ->
  steps thd (EBegin :: map EStatement before ++ EFailed :: map EStatement after ++ [ECommit]) thd' ->
  durable (service thd') = durable (service thd) ++ concat after.
Proof.
  intros Hr Hb Ho Hs. destruct (steps_refine _ _ _ _ _ Hs _ (at_rest_between thd Hr)) as (a & Ha & H).
  apply be_durable in H. rewrite H. clear H Hs. rewrite Ho in Ha.
  inversion Ha as [|? ? a1 ? ? H1 Ha1]; subst. inversion H1; subst. clear H1 Ha.
  apply spec_steps_app in Ha1 as (a2 & Hl & Ha2). apply spec_statements in Hl; [|done].
  inversion Ha2 as [|? ? a3 ? ? H3 Ha3]; subst. inversion H3; subst. clear H3 Ha2.
  apply spec_steps_app in Ha3 as (a4 & Hl & Ha4). apply spec_statements in Hl; [|done].
  inversion Ha4 as [|? ? a5 ? ? H5 Ha5]; subst. inversion H5; subst. clear H5 Ha4.
  inversion Ha5; subst. simpl. by rewrite app_nil_r.
Qed.

End Transactions.

(** ** A service *)

(** The store of the examples; [ls_silent]: the log service does not answer, and
    a commit whose writes it logged is reported as failed. *)
Record life_store := { ls_next : nat; ls_active : gmap nat (list Z); ls_durable : list Z; ls_silent : bool }.

#[export] Instance life_service : LifeService life_store nat := {|
  NewTxInit s _ _ _ :=
    match ls_active s !! ls_next s with
    | Some _ => (s, None)
    | None => ({| ls_next := Datatypes.S (ls_next s); ls_active := <[ls_next s := []]> (ls_active s);
                  ls_durable := ls_durable s; ls_silent := ls_silent s |}, Some (ls_next s))
    end;
  CommitTx s txm :=
    (match txm with
     | Some t => {| ls_next := ls_next s; ls_active := delete t (ls_active s);
                    ls_durable := ls_durable s ++ default [] (ls_active s !! t); ls_silent := ls_silent s |}
     | None => s
     end, (negb (ls_silent s), if ls_silent s then OTHER_ERROR else NO_ERROR));
  AbortTx s txm :=
    match txm with
    | Some t => {| ls_next := ls_next s; ls_active := delete t (ls_active s); ls_durable := ls_durable s;
                   ls_silent := ls_silent s |}
    | None => s
    end
|}.

#[export] Instance life_laws : LifeLaws life_store nat Z.
Proof.
  refine {| writes s t := ls_active s !! t; durable := ls_durable |}.
  - intros s iso cc now s' r. simpl. destruct (ls_active s !! ls_next s) eqn:E; intros [= <- <-]; split_and!; try done.
    intros t'. simpl. case_decide; [subst; apply lookup_insert_eq|by apply lookup_insert_ne].
  - intros s t ws s' ok err. simpl. intros [= <- <- <-] Hw. simpl. rewrite Hw. split; [by left|]. intros t'.
    case_decide; [subst; apply lookup_delete_eq|by apply lookup_delete_ne].
  - intros s s' r. simpl. by intros [= <- <-].
  - intros s t. simpl. split; [done|]. intros t'. case_decide; [subst; apply lookup_delete_eq|by apply lookup_delete_ne].
Defined.

Definition ls_write (t : nat) (ws : list Z) (s : life_store) : life_store := {|
  ls_next := ls_next s; ls_active := alter (fun l => l ++ ws) t (ls_active s); ls_durable := ls_durable s;
  ls_silent := ls_silent s |}.

Lemma ls_wrote t ws s : wrote (W := Z) t ws s (ls_write t ws s).
Proof.
  split; [done|]. intros t'. simpl. case_decide; [subst; apply lookup_alter_eq|by apply lookup_alter_ne].
Qed.

Definition new_thd : THD life_store nat := {|
  service := {| ls_next := 0; ls_active := ∅; ls_durable := []; ls_silent := false |}; ha_data := None; OPTION_NOT_AUTOCOMMIT := false;
  OPTION_BEGIN := false; tx_isolation := ISO_REPEATABLE_READ; cc_protocol := 0; stmt_registered := false;
  all_registered := false |}.

(** The statements of the example: the number of the transaction, the writes. *)
Definition locked (thd : THD life_store nat) : THD life_store nat := fst (external_lock false SQLCOM_OTHER false thd).
Definition after_write (t : nat) (ws : list Z) (thd : THD life_store nat) : THD life_store nat :=
  set_tx (ls_write t ws (service (locked thd))) (ha_data (locked thd)) (locked thd).
Definition statement (t : nat) (ws : list Z) (thd : THD life_store nat) : THD life_store nat :=
  fst (trans_commit_stmt (after_write t ws thd)).

Definition thd_begin : THD life_store nat := fst (trans_begin new_thd).
Definition thd_first : THD life_store nat := statement 0 [1] thd_begin.
Definition thd_failed : THD life_store nat := trans_rollback_stmt (after_write 0 [2] thd_first).
Definition thd_second : THD life_store nat := statement 1 [3] thd_failed.
Definition thd_end : THD life_store nat := fst (trans_commit thd_second).

(** BEGIN; a statement that writes 1; one that writes 2 and fails; one that
    writes 3; COMMIT. *)
Lemma example_steps : steps (W := Z) false new_thd
  (EBegin :: map EStatement [[1]] ++ EFailed :: map EStatement [[3]] ++ [ECommit]) thd_end.
Proof.
  apply (steps_cons _ _ _ thd_begin); [apply step_begin; by vm_compute|].
  apply (steps_cons _ _ _ thd_first).
  { apply (step_statement false thd_begin (locked thd_begin) 0%nat [1] (ls_write 0 [1] (service (locked thd_begin))) thd_first);
      [by vm_compute|by vm_compute|apply ls_wrote|by vm_compute]. }
  apply (steps_cons _ _ _ thd_failed).
  { apply (step_error false thd_first (locked thd_first) 0%nat [2]); [by vm_compute|by vm_compute|apply ls_wrote]. }
  apply (steps_cons _ _ _ thd_second).
  { apply (step_statement false thd_failed (locked thd_failed) 1%nat [3] (ls_write 1 [3] (service (locked thd_failed))) thd_second);
      [by vm_compute|by vm_compute|apply ls_wrote|by vm_compute]. }
  apply (steps_cons _ _ _ thd_end); [apply step_commit; by vm_compute|]. apply steps_nil.
Qed.

Lemma session_witness :
  exists a, spec_steps false (spec_start new_thd)
    (EBegin :: map EStatement [[1]] ++ EFailed :: map EStatement [[3]] ++ [ECommit]) a /\
  durable (service thd_end) = sp_durable a /\
  (forall t, current thd_end <> Some t -> writes (service thd_end) t = writes (service new_thd) t) /\
  (forall t, current thd_end = Some t ->
     in_multi_stmt_transaction_mode thd_end = true /\ writes (service thd_end) t = Some (sp_pending a)).
Proof. exact (session_refines false new_thd _ thd_end (conj eq_refl eq_refl) example_steps). Defined.

(** A COMMIT that reports a failure while its writes are durable: the log
    service has them and does not answer. *)
Definition silent (thd : THD life_store nat) : THD life_store nat :=
  set_tx {| ls_next := ls_next (service thd); ls_active := ls_active (service thd);
            ls_durable := ls_durable (service thd); ls_silent := true |} (ha_data thd) thd.

Example commit_unknown :
  let '(thd, rc) := trans_commit (silent thd_first) in
  rc = HA_ERR_ELOQ_COMMIT_FAILED /\ durable (service thd) = [1].
Proof. by vm_compute. Qed.

(** Only 3 is durable. *)
Lemma failure_witness : durable (service thd_end) = [] ++ concat [[3]].
Proof.
  exact (failure_drops_transaction false new_thd [[1]] [[3]] thd_end (conj eq_refl eq_refl) eq_refl eq_refl example_steps).
Defined.

End Transactions.
